(* ===== verification/_CoqProject ===== *)
-Q . S2P
Prelude.v
KeyedList.v
Common.v
Params.v
ProtocolParams.v
Wormholes.v
Rewards.v
Validators.v
Selection.v
Stakers.v
AccessList.v
StateTypes.v
State.v
StateDB.v
StateRevert.v
Staking.v
StateView.v
World.v
Ledger.v
BlockRewards.v
Evm.v
Machine.v
Analysis.v
Instructions.v
GasTable.v
JumpTable.v
Interpreter.v
EvmLedger.v
Journalled.v
EvmRevert.v
InterpreterRevert.v
Frames.v
InterpreterGas.v
InterpreterStatic.v
EvmCsbt.v
Transition.v
TransitionProps.v
Examples.v
InterpreterExamples.v
ValidatorSet.v
IbftTypes.v
Ibft.v
IbftInv.v
IbftNetwork.v
IbftExamples.v
Committee.v
Rlp.v
TrieEncoding.v
TrieNode.v
TrieDatabase.v
TrieFlush.v
TrieRefs.v
Trie.v
TrieSpec.v
TrieProps.v
TrieHash.v
TrieCommit.v
TrieStore.v
TrieCommitProps.v
TrieProof.v
TrieDisk.v
TrieGc.v
TrieTheorems.v
TrieExamples.v
Heap.v
TxTypes.v
TxList.v
TxListProps.v
TxPriced.v
TxPricedProps.v
HeaderRules.v
TxPool.v
TxPoolOps.v
TxPoolLimits.v
TxPoolAdd.v
TxPoolReorg.v
TxOrder.v
TxPoolTheorems.v
TxPoolExamples.v
