(* ===== verification/Prelude.v ===== *)
(** * A verification of the chain logic of Erbie

    Erbie is a fork of go-ethereum with its own staking, its own tokens (CSBTs) and a
    committee drawn from the validators.  This library models, as Rocq functions, the code
    that decides which transactions a node keeps, what they do to the state, how the state
    is stored, and on which block the validators agree: the transaction pool ([core]), the
    lists of validators and stakers and the drawing of the committee ([core/types]), the
    world state with its journal ([core/state]), the chain's own transactions, the message
    calls and the byte-code interpreter ([core/evm.go], [core/vm]), the application of a
    transaction ([core/state_transition.go]), the Merkle Patricia trie with its database
    ([trie], [rlp]), and the consensus protocol ([consensus/istanbul/ibft/core]).

    ** The parts and how they interact

    A signed transaction enters the pool at [AddLocals] or [AddRemotes] ([TxPool]), which
    keeps it in the list of its account ([TxList]) and in the heaps by price ([TxPriced]);
    [runReorg] moves transactions between the queue and the pending lists when
    transactions come in or the head of the chain changes, and the miner takes the
    pending ones in the order of [TransactionsByPriceAndNonce] ([TxOrder]).

    A transaction in a block enters at [TransitionDb] ([Transition]): it buys gas from the
    block's pool, charges the intrinsic gas, and runs the message through [Call] or
    [Create] ([Evm]).  [Call] looks at the input: a payload of the chain's own kind is
    executed by [HandleCSBT], which goes through the functions of [core/evm.go] to the
    staking methods of the state ([Staking]); other calls run the code of the callee in
    the interpreter ([Interpreter]), whose instructions ([Instructions]) and prices
    ([GasTable]) read and change the state and make further calls.  All of them change the
    state only by methods that write a journal ([State], [StateDB]), so that a failed call
    can be undone.  At the end of a block the rewards are paid ([BlockRewards]).

    The next committee is drawn from the validator list ([Selection], [Committee]) and
    becomes the validator set ([ValidatorSet]) of a node of the consensus protocol ([Ibft]);
    [IbftNetwork] lets many such nodes run together.  A trie ([Trie]) is hashed
    ([TrieHash]), committed ([TrieCommit]) to a database in memory that counts references
    ([TrieDatabase]), and written from there to disk; single entries are proved to others
    by the nodes on their path ([TrieProof]).

    ** Conventions

    Names are those of the source; a method carries a prefix for its receiver: [vl_]
    ValidatorList, [sl_] StakerList, [sel_] and [vel_] the pledge lists, [aml_]
    ActiveMinerList, [wh_] Wormholes, [inl_] InjectedOfficialNFTList, [al_] accessList, [so_]
    stateObject, [sdb_] StateDB, [journal_] journal, [c_] Contract, [mem_] Memory, [gp_]
    GasPool, [er_] ExecutionResult, [u_] uint256.Int; [set_] defaultSet, [ms_] messageSet,
    [rs_] roundState, [rcs_] roundChangeSet; [eb_] encbuf, [lh_] listhead, [hasher_] hasher,
    [ct_] committer, [db_] Database, [cn_] cachedNode; [tx_] Transaction, [sm_] txSortedMap,
    [tl_] txList, [as_] accountSet, [tn_] txNoncer, [lk_] txLookup, [ph_] priceHeap, [pr_]
    txPricedList, [pool_] TxPool, [tb_] TransactionsByPriceAndNonce.  Fields of records have
    such prefixes as well.

    Integers are [Z]: a [big.Int] is unbounded, a machine integer is reduced with [u64],
    [i64] or [u8] wherever the source may overflow.  Addresses and hashes are their
    big-endian values, bytes are lists of integers below 256.  A function that returns a
    value or an error has type [outcome], whose third constructor is a panic; in the files
    of the pool a panic is [None].  Code that changes a state is in a monad of its part:
    [M] for the world state, [handler] for a node of the consensus protocol, [PM] for the
    pool.  An error is identified by its message, without the values formatted into it.

    Code outside the repository is a class, so that every theorem holds for all its
    instances: [Crypto] (Keccak and the curve), [Uint256] (arithmetic of the package
    uint256), [Machine] (the decoder of payloads, the precompiled contracts, the derivation
    of contract addresses, and the interpreter), [Signatures] and [Signer] (recovery of a
    signer), [Prque] (the priority queue of the consensus protocol).  [MapRange] is the order
    in which Go walks a map, which may be any; [BlockChain] is the chain as the pool asks
    it.  [KeccakOk] states the size of a hash; theorems that need two encodings to have
    different hashes say so of the encodings they are about.

    Parts are proved against interfaces.  [JournalledMachine] and [GasMachine] state what
    the message calls need of the interpreter: the theorems of [EvmRevert], [EvmCsbt] and
    [TransitionProps] use these two, and [InterpreterRevert] and [InterpreterGas] show that
    the interpreter of the code has them.  [StoreOk] states what the trie needs of its
    database, and [TrieStore] shows that the database has it.  [WeakOrder] is what the
    heaps need of an order.

    ** The files

    Lists and parameters.  [Prelude] and [KeyedList] are the shared theory; [Common] is
    [common/types.go], [common/bytes.go] and [crypto/crypto.go]; [Params] and [ProtocolParams]
    are the constants of [core/types/economic_params.go] and [params/protocol_params.go];
    [Wormholes] is [core/types/nfttypes.go]; [Rewards] is the deflation of the block reward,
    with its floating-point arithmetic; [Validators] and [Selection] are
    [core/types/validator_account.go]; [Stakers] is the other lists of [core/types].
    Shown: the sorted slices refine finite maps from addresses, for every history of
    operations; equal maps give equal slices; every way of drawing a committee returns the
    right number of distinct members whatever the hash function, and the cases in which
    the code does not; the reward stays within its bounds whatever the rounding.

    State.  [AccessList], [StateTypes], [State], [StateDB] and [Staking] are [core/state].
    [StateRevert] and [Journalled] show that [RevertToSnapshot] undoes every program of
    public methods with nested snapshots, without panic.  [StateView] and [World] refine the
    state to one function from addresses per quantity; [Ledger] and [BlockRewards] show on it
    that the records of a pledge agree, that staking conserves the currency, and what
    the rewards of a block pay.

    Calls.  [Evm] is [core/evm.go] and [core/vm/evm.go]; [EvmLedger] shows that the chain's own
    transactions keep the ledger, the currency and non-negative balances; [EvmRevert] and
    [EvmCsbt] that a failed call leaves the state as it was, and the exception, a pledge
    that is refused after its amount was taken; [Evm] itself that a call returns no more
    gas than it got.

    Interpreter.  [Machine] is the stack, the memory and the frame; [Analysis] the bitmap of
    jump destinations, proved equal to a one-pass definition; [Instructions], [GasTable] and
    [JumpTable] are the instructions, their prices and the tables of all nine rule sets;
    [Interpreter] is the loop.  [JumpTable] also has the induction over the tables by which
    the files prove a property of all instructions: [Interpreter] that the recursion
    through the calls is the one of the code, [InterpreterRevert] that a run can be undone,
    [Frames] and [InterpreterGas] that a run stays within the limits of stack, memory and
    gas and terminates, [InterpreterStatic] that a static call keeps the state if no call
    of its run carries a transaction of the chain's own kind: the run is compared with
    one of an interpreter that stops at such a call.

    Applying transactions.  [Transition] is [core/state_transition.go] and [core/gaspool.go];
    [TransitionProps] shows that gas and fees add up, and whose balances they change.
    [Examples] and [InterpreterExamples] apply the theorems to concrete states and contracts
    and hold counterexamples; their decoder knows the JSON text of one payload.

    Consensus.  [ValidatorSet] is [consensus/istanbul/validator], [IbftTypes] the messages and
    the state of a node, [Ibft] its handlers.  [IbftInv] shows what one node keeps whatever
    it is sent; [IbftNetwork] is a step relation of a network with dishonest validators, in
    which honest nodes never commit different blocks at one height if every two quorums
    share an honest node, commit only blocks that passed a verification, cannot decide a
    height in another round once enough of them sent a COMMIT, and never panic while their
    chain answers.
    [IbftExamples] computes runs, among them one in which a committee of eleven forks.
    [Committee] is the way from the chain to the committee of a height.

    Storage.  [Rlp] is [rlp/encode.go] and [rlp/raw.go]: the encoder with two buffers gives the
    documented format, and what it gives is read back.  [TrieEncoding], [TrieNode], [Trie],
    [TrieHash], [TrieCommit], [TrieDatabase] and [TrieProof] are the package [trie].  [TrieSpec]
    is the tree and the map that nodes stand for.  [TrieProps] shows
    that the operations are those of a map and keep the minimal form; [TrieStore] and
    [TrieCommitProps] that a committed trie is read back; [TrieFlush], [TrieRefs] and
    [TrieGc] that the linked list and the counts of the database are right, so that nothing
    that is needed is dropped; [TrieDisk] that moving nodes to disk changes nothing of what
    is read and that a committed root survives a restart; [TrieProof] that proofs are
    sound, and complete for tries that are not empty.  [TrieTheorems] states the results, [TrieExamples] applies them.

    Transaction pool.  [Heap] is the package [container/heap]; [TxTypes] is
    [core/types/transaction.go]; [TxList] and [TxPriced] are [core/tx_list.go],
    [core/tx_noncer.go] and the lookup of [core/tx_pool.go]; [HeaderRules] the rules on base
    fee and gas limit; [TxPool] the pool; [TxOrder] the order of the miner.  [TxListProps]
    shows that the list of an account refines a map from nonces;
    [TxPricedProps] that the heaps hold all remote transactions and give the cheapest;
    [TxPoolOps] has the invariant of the pool, and with [TxPoolLimits], [TxPoolAdd] and
    [TxPoolReorg] shows that every operation keeps it, when it panics, and what it does to the
    pending transactions.  [TxPoolTheorems] states the results: in every reachable state the
    indexes of the pool agree; while the head advances, the pending transactions of an
    account can be executed one after the other; the miner gets them by price and nonce;
    the limits hold after truncation; which transactions are taken, and which make the pool
    panic.  [TxPoolExamples]
    applies them and holds counterexamples.

    ** Bounds and fuel

    The loop of the interpreter has the gas of the contract, plus one, as fuel:
    [Run_terminates] shows that every round that goes on takes gas, so the fuel never runs
    out.  1025 interpreters are nested, since a call deeper than 1024 fails before it runs
    code; [EVMInterpreter_recursion] shows that the result is a fixed point of the code's
    recursion.  The analysis of jump destinations has the length of the code as fuel,
    and its correctness theorem covers all code.

    A walk in a trie takes at most two steps per nibble of the key, the one to a node and
    the one that loads it, and its fuel is that; the theorems show that it is enough for
    every trie, and likewise for [VerifyProof].  The recursion of [Dereference] and [Commit]
    of the database follows references, which have no cycles: the theorems give a bound for
    the fuel and hold for all fuel above it.  [Cap] takes an entry of the flush list per
    round.  The queues of a node of the consensus protocol have their lengths as fuel, as
    have the loops of heaps and lists.  In the pool, the rounds that cut lists of accounts
    are bounded by the lengths of the lists, the choice of cheap transactions by the two
    heaps, the walk back over blocks by their numbers, and the loop of the miner by the
    transactions left; a walk over blocks that runs out of fuel counts as a panic, and the
    theorems of the pool say that the operations return.  All other
    recursion is structural.

    ** What is not modelled

    The state keeps finite maps in the place of its tries, and reads succeed; the theorems
    about the trie show that a trie is such a map.  Of the trie: the cache of clean nodes,
    iterators, range proofs, synchronization.  Of RLP: the choice of an encoder by
    reflection and the decoder into Go values.  Of the pool: the file of local
    transactions, the channels between its goroutines (an operation runs under the lock, as
    one step), metrics.  Of consensus: QBFT, which the code no longer starts (the goroutine that
    begins the round at its first height runs before the next event), the assembly
    and verification of headers, the insertion of blocks and the choice of the chain.  The
    bodies of the precompiled contracts, JSON, tracing and logging, the abort flag of the
    interpreter, networking, RPC, accounts and the command-line tools are input and output,
    cryptography or tooling.  Code of the repository that no caller reaches is left out. *)
From stdpp Require Export base numbers list gmap sets sorting.
From Stdlib Require Export ZArith Lia Permutation Sorted.

Open Scope Z_scope.

Declare Scope erbie_scope.
Delimit Scope erbie_scope with erbie.

Create HintDb erbie.

Notation Address := Z (only parsing).
Notation Hash := Z (only parsing).

(** ** Machine integers *)

Definition u8 (z : Z) : Z := z mod 2 ^ 8.
Definition u64 (z : Z) : Z := z mod 2 ^ 64.
Definition i64 (z : Z) : Z := let z := u64 z in if z <? 2 ^ 63 then z else z - 2 ^ 64.

(** ** Addresses *)

Definition AddressMax : Z := 2 ^ 160 - 1.
Definition BigToAddress (b : Z) : Address := Z.abs b mod 2 ^ 160.

(** ** [sort.Sort]

    [sort.Sort] is modelled by the insertion sort Go runs on short slices: each
    element moves left while it is less than its left neighbour.  The prefix is
    kept reversed, so the head of [racc] is the element next to the new one.
    [sort_unique] below shows that on a slice with distinct keys every sorting
    algorithm gives this result. *)

Section Sort.
  Context {A : Type} (less : A -> A -> bool).

Fixpoint sort_insert (x : A) (racc : list A) : list A :=
  match racc with
  | [] => [x]
  | y :: r => if less x y then y :: sort_insert x r else x :: y :: r
  end.

Definition sort_Sort (l : list A) : list A :=
  reverse (foldl (fun racc x => sort_insert x racc) [] l).

(** The order a slice is sorted by, as a relation. *)
Definition lt_of (x y : A) : Prop := less x y = true.

Definition strictly_sorted : list A -> Prop := StronglySorted lt_of.

Lemma sort_insert_Permutation x racc : sort_insert x racc ≡ₚ x :: racc.
Proof.
  induction racc as [|y r IH]; simpl; [done|].
  destruct (less x y); [|done]. rewrite IH. constructor.
Qed.

Lemma foldl_sort_insert_Permutation l racc :
  foldl (fun racc x => sort_insert x racc) racc l ≡ₚ l ++ racc.
Proof.
  revert racc. induction l as [|x l IH]; intros racc; simpl; [done|].
  rewrite IH, sort_insert_Permutation. symmetry. apply Permutation_middle.
Qed.

Lemma sort_Sort_Permutation l : sort_Sort l ≡ₚ l.
Proof.
  unfold sort_Sort. rewrite reverse_Permutation, foldl_sort_insert_Permutation.
  by rewrite app_nil_r.
Qed.
End Sort.

(** A comparison that is a strict order and decides between any two elements
    with different keys. *)
Class KeyOrder {A : Type} (less : A -> A -> bool) (key : A -> Z) : Prop := {
  ko_irrefl : forall x, less x x = false;
  ko_trans : forall x y z, less x y = true -> less y z = true -> less x z = true;
  ko_total : forall x y, key x <> key y -> less x y = true \/ less y x = true;
}.

Section SortSpec.
  Context {A : Type} {less : A -> A -> bool} {key : A -> Z} `{!KeyOrder less key}.

Let lt := lt_of less.

Lemma ko_asym x y : less x y = true -> less y x = false.
Proof.
  intros Hxy. destruct (less y x) eqn:Hyx; [|done].
  pose proof (ko_trans x y x Hxy Hyx) as H. by rewrite ko_irrefl in H.
Qed.

Lemma StronglySorted_snoc (R : A -> A -> Prop) l x :
  StronglySorted R l -> Forall (fun y => R y x) l -> StronglySorted R (l ++ [x]).
Proof.
  induction 1 as [|y l Hs IH Hy]; simpl; intros Hx; [by repeat constructor|].
  inversion_clear Hx. constructor; [by apply IH|]. apply Forall_app. auto.
Qed.

Lemma StronglySorted_reverse (R : A -> A -> Prop) l :
  StronglySorted (flip R) l -> StronglySorted R (reverse l).
Proof.
  induction 1 as [|x l Hs IH Hx]; [constructor|].
  rewrite reverse_cons. apply StronglySorted_snoc; [done|].
  by rewrite Forall_reverse.
Qed.

Lemma sort_insert_sorted x racc :
  Forall (fun y => key x <> key y) racc ->
  StronglySorted (flip lt) racc -> StronglySorted (flip lt) (sort_insert less x racc).
Proof.
  induction racc as [|y r IH]; simpl; intros Hk Hs; [by repeat constructor|].
  inversion_clear Hk as [|? ? Hxy Hk']. apply StronglySorted_inv in Hs as [Hs Hy].
  destruct (less x y) eqn:Hless.
  - constructor; [by apply IH|].
    rewrite sort_insert_Permutation. by constructor.
  - assert (Hyx : less y x = true) by (destruct (ko_total x y Hxy); congruence).
    constructor; [by constructor|]. constructor; [done|].
    eapply Forall_impl; [exact Hy|]. intros z Hz. exact (ko_trans z y x Hz Hyx).
Qed.

Lemma foldl_sort_insert_sorted l racc :
  NoDup (key <$> (l ++ racc)) -> StronglySorted (flip lt) racc ->
  StronglySorted (flip lt) (foldl (fun racc x => sort_insert less x racc) racc l).
Proof.
  revert racc. induction l as [|x l IH]; intros racc Hnd Hs; simpl; [done|].
  simpl in Hnd. apply NoDup_cons in Hnd as [Hx Hnd]. apply IH.
  - rewrite sort_insert_Permutation, <- Permutation_middle. by apply NoDup_cons.
  - apply sort_insert_sorted; [|done]. apply Forall_forall. intros y Hy Heq.
    apply Hx. rewrite Heq. apply list_elem_of_fmap_2, elem_of_app. by right.
Qed.

(** Sorting a slice with distinct keys gives a strictly sorted slice. *)
Lemma sort_Sort_sorted l : NoDup (key <$> l) -> strictly_sorted less (sort_Sort less l).
Proof.
  intros Hnd. apply StronglySorted_reverse, foldl_sort_insert_sorted.
  - by rewrite app_nil_r.
  - constructor.
Qed.

(** A slice has at most one strictly sorted permutation, whatever computes it. *)
Lemma sort_unique l1 l2 :
  strictly_sorted less l1 -> strictly_sorted less l2 -> l1 ≡ₚ l2 -> l1 = l2.
Proof.
  intros Hs1. revert l2. induction Hs1 as [|x l1 Hs1 IH Hx]; intros l2 Hs2 Hp.
  { apply Permutation_nil_l in Hp. done. }
  destruct l2 as [|y l2]; [by apply Permutation_nil_r in Hp|].
  apply StronglySorted_inv in Hs2 as [Hs2 Hy].
  rewrite Forall_forall in Hx, Hy.
  assert (x = y) as <-.
  { assert (Hin : x ∈ y :: l2) by (rewrite <- Hp; left).
    assert (Hin' : y ∈ x :: l1) by (rewrite Hp; left).
    apply elem_of_cons in Hin as [|Hin]; [done|].
    apply elem_of_cons in Hin' as [|Hin']; [done|].
    pose proof (ko_asym _ _ (Hx _ Hin')) as H. pose proof (Hy _ Hin) as H'.
    unfold lt_of in H'. congruence. }
  f_equal. apply IH; [done|]. by apply Permutation_cons_inv in Hp.
Qed.

Lemma sort_Sort_id l : strictly_sorted less l -> NoDup (key <$> l) -> sort_Sort less l = l.
Proof.
  intros Hs Hnd. apply sort_unique; [by apply sort_Sort_sorted|done|].
  apply sort_Sort_Permutation.
Qed.
End SortSpec.
