(* ===== verification/KeyedList.v ===== *)
(** Slices of records identified by a key.

    The validator list, the creator list, the pledge lists and the active-miner
    list of [core/types] are all Go slices searched with a [for range] loop that
    stops at the first element with the wanted address, then updated in place,
    extended at the end, or cut with [append(l[:i], l[i+1:]...)].  This file holds
    the theory of these loops: the slice as a finite map from addresses
    ([kmap]), the effect of each update on it, and sums over a slice. *)
From S2P Require Import Prelude.
From stdpp Require Import list.

Open Scope Z_scope.

(** ** Sums over slices *)

Definition sumZ {A : Type} (f : A -> Z) (l : list A) : Z := foldr (fun x s => f x + s) 0 l.

Section Sum.
  Context {A : Type} (f : A -> Z).

Lemma sumZ_cons x l : sumZ f (x :: l) = f x + sumZ f l.
Proof. done. Qed.

Lemma sumZ_app l1 l2 : sumZ f (l1 ++ l2) = sumZ f l1 + sumZ f l2.
Proof. induction l1 as [|x l1 IH]; simpl; [done|]. rewrite IH. lia. Qed.

Lemma sumZ_snoc l x : sumZ f (l ++ [x]) = sumZ f l + f x.
Proof. rewrite sumZ_app. simpl. lia. Qed.

#[export] Instance sumZ_Permutation : Proper ((≡ₚ) ==> (=)) (sumZ f).
Proof. induction 1; simpl; lia. Qed.

Lemma sumZ_insert l i x y :
  l !! i = Some x -> sumZ f (<[i:=y]> l) = sumZ f l - f x + f y.
Proof.
  revert i. induction l as [|z l IH]; intros [|i]; simpl; intros H; simplify_eq; [lia|].
  rewrite (IH _ H). lia.
Qed.

Lemma sumZ_delete l i x : l !! i = Some x -> sumZ f (delete i l) = sumZ f l - f x.
Proof.
  revert i. induction l as [|z l IH]; intros [|i]; simpl; intros H; simplify_eq; [lia|].
  rewrite (IH _ H). lia.
Qed.

Lemma sumZ_nonneg l : Forall (fun x => 0 <= f x) l -> 0 <= sumZ f l.
Proof. induction 1; simpl; lia. Qed.

Lemma sumZ_elem_of_le l x : Forall (fun x => 0 <= f x) l -> x ∈ l -> f x <= sumZ f l.
Proof.
  induction 1 as [|y l Hy Hl IH]; intros Hx; [by apply elem_of_nil in Hx|].
  pose proof (sumZ_nonneg l Hl). simpl.
  apply elem_of_cons in Hx as [->|Hx]; [lia|]. specialize (IH Hx). lia.
Qed.

Lemma sumZ_ext g l : (forall x, x ∈ l -> f x = g x) -> sumZ f l = sumZ g l.
Proof.
  induction l as [|x l IH]; intros H; simpl; [done|].
  rewrite H, IH; [done| |left]. intros y Hy. apply H. by right.
Qed.

(** The loop [total := 0; for _, v := range l { total += f v }]. *)
Lemma foldl_sumZ l a : foldl (fun t x => t + f x) a l = a + sumZ f l.
Proof. revert a. induction l as [|x l IH]; intros a; simpl; [lia|]. rewrite IH. lia. Qed.
End Sum.

Lemma list_delete_insert_same {A : Type} (l : list A) (i : nat) (x : A) :
  delete i (<[i:=x]> l) = delete i l.
Proof. revert i. induction l as [|y l IH]; intros [|i]; simpl; [done..|]. by rewrite IH. Qed.

Lemma list_delete_ge {A : Type} (l : list A) (i : nat) :
  (length l <= i)%nat -> delete i l = l.
Proof.
  revert i. induction l as [|y l IH]; intros [|i]; simpl; intros; [done..|lia|].
  rewrite IH by lia. done.
Qed.

Lemma list_filter_ext {A : Type} (P Q : A -> Prop)
    `{HP : !forall x, Decision (P x), HQ : !forall x, Decision (Q x)} (l : list A) :
  (forall x, x ∈ l -> P x <-> Q x) -> filter P l = filter Q l.
Proof.
  induction l as [|x l IH]; intros Hl; [done|]. rewrite !filter_cons.
  rewrite IH by (intros y Hy; apply Hl; by right).
  pose proof (Hl x ltac:(left)) as Hx.
  destruct (decide (P x)), (decide (Q x)); tauto.
Qed.

Lemma sublist_fmap {A B : Type} (f : A -> B) (l1 l2 : list A) :
  l1 `sublist_of` l2 -> (f <$> l1) `sublist_of` (f <$> l2).
Proof. induction 1; simpl; by constructor. Qed.

(** ** A slice as a map from keys *)

Section Keyed.
  Context {A : Type} (key : A -> Z).

(** The first element with key [k] and its index: [for i, v := range l { if key v == k ...]. *)
Definition kfind (k : Z) (l : list A) : option (nat * A) :=
  list_find (fun v => key v = k) l.

Definition keys (l : list A) : list Z := key <$> l.

Definition kmap (l : list A) : gmap Z A := list_to_map ((fun v => (key v, v)) <$> l).

Lemma keys_app l1 l2 : keys (l1 ++ l2) = keys l1 ++ keys l2.
Proof. apply fmap_app. Qed.

Lemma kmap_fst l : ((fun v => (key v, v)) <$> l).*1 = keys l.
Proof. unfold keys. rewrite <- list_fmap_compose. done. Qed.

#[export] Instance keys_Permutation : Proper ((≡ₚ) ==> (≡ₚ)) keys.
Proof. intros l1 l2 H. unfold keys. by rewrite H. Qed.

Lemma kfind_Some k l i v :
  kfind k l = Some (i, v) ->
  l !! i = Some v /\ key v = k /\ (forall j w, l !! j = Some w -> (j < i)%nat -> key w <> k).
Proof. unfold kfind. rewrite list_find_Some. done. Qed.

Lemma kfind_None k l : kfind k l = None <-> k ∉ keys l.
Proof.
  unfold kfind, keys. rewrite list_find_None, Forall_forall. split.
  - intros H Hk. apply list_elem_of_fmap in Hk as (v & -> & Hv). by apply (H v).
  - intros H v Hv Heq. apply H. apply list_elem_of_fmap. eauto.
Qed.

Lemma kfind_is_Some k l : k ∈ keys l -> exists i v, kfind k l = Some (i, v).
Proof.
  intros Hk. destruct (kfind k l) as [[i v]|] eqn:E; [eauto|].
  by apply kfind_None in E.
Qed.

Lemma kmap_Permutation l1 l2 : NoDup (keys l1) -> l1 ≡ₚ l2 -> kmap l1 = kmap l2.
Proof.
  intros Hnd Hp. unfold kmap. apply list_to_map_proper.
  - by rewrite kmap_fst.
  - by rewrite Hp.
Qed.

Lemma kmap_lookup_None l k : kmap l !! k = None <-> k ∉ keys l.
Proof.
  unfold kmap. rewrite <- kmap_fst. split.
  - apply not_elem_of_list_to_map_2.
  - apply not_elem_of_list_to_map_1.
Qed.

Lemma kmap_lookup_Some l k v :
  NoDup (keys l) -> kmap l !! k = Some v <-> v ∈ l /\ key v = k.
Proof.
  intros Hnd. unfold kmap. rewrite <- elem_of_list_to_map by by rewrite kmap_fst.
  rewrite list_elem_of_fmap. split.
  - intros (w & ? & ?). by simplify_eq.
  - intros [? <-]. eauto.
Qed.

Lemma kmap_find l k : kmap l !! k = snd <$> kfind k l.
Proof.
  unfold kmap, kfind. induction l as [|v l IH]; [done|].
  rewrite fmap_cons, list_to_map_cons. cbn [list_find].
  destruct (decide (key v = k)) as [->|Hne].
  - by rewrite lookup_insert_eq.
  - rewrite lookup_insert_ne, IH by done. by destruct (list_find _ l) as [[]|].
Qed.

Lemma kmap_snoc l v : key v ∉ keys l -> kmap (l ++ [v]) = <[key v:=v]> (kmap l).
Proof.
  intros Hv. unfold kmap. rewrite fmap_app. simpl.
  rewrite list_to_map_snoc; [done|]. by rewrite kmap_fst.
Qed.

Lemma keys_insert l i v w : l !! i = Some v -> key w = key v -> keys (<[i:=w]> l) = keys l.
Proof.
  intros Hi Hk. unfold keys. rewrite list_fmap_insert, Hk.
  apply list_insert_id. by rewrite list_lookup_fmap, Hi.
Qed.

Lemma kmap_insert l i v w :
  NoDup (keys l) -> l !! i = Some v -> key w = key v ->
  kmap (<[i:=w]> l) = <[key v:=w]> (kmap l).
Proof.
  intros Hnd Hi Hk.
  assert (Hp : l ≡ₚ v :: delete i l) by by apply delete_Permutation.
  assert (Hp' : <[i:=w]> l ≡ₚ w :: delete i l).
  { rewrite <- (list_delete_insert_same l i w).
    apply delete_Permutation, list_lookup_insert_eq. by eapply lookup_lt_Some. }
  rewrite (kmap_Permutation _ _ ltac:(by erewrite keys_insert) Hp').
  rewrite (kmap_Permutation _ _ Hnd Hp).
  unfold kmap. simpl. by rewrite Hk, insert_insert_eq.
Qed.

Lemma keys_delete_NoDup l i : NoDup (keys l) -> NoDup (keys (delete i l)).
Proof.
  intros Hnd. destruct (l !! i) as [v|] eqn:Hi.
  - rewrite (delete_Permutation l i v Hi) in Hnd. by apply NoDup_cons in Hnd as [_ ?].
  - by rewrite list_delete_ge by by apply lookup_ge_None.
Qed.

Lemma kmap_delete l i v :
  NoDup (keys l) -> l !! i = Some v -> kmap (delete i l) = delete (key v) (kmap l).
Proof.
  intros Hnd Hi. pose proof (delete_Permutation l i v Hi) as Hp.
  rewrite (kmap_Permutation _ _ Hnd Hp).
  rewrite Hp in Hnd. apply NoDup_cons in Hnd as [Hv _].
  unfold kmap at 2. simpl. fold (kmap (delete i l)).
  rewrite delete_insert_id; [done|]. by apply kmap_lookup_None.
Qed.
End Keyed.

Lemma partial_alter_case {V : Type} (f : option V -> option V) (i : Z) (m : gmap Z V) :
  partial_alter f i m =
  match f (m !! i) with Some x => <[i:=x]> m | None => delete i m end.
Proof.
  apply map_eq. intros j. destruct (decide (i = j)) as [->|Hne].
  - rewrite lookup_partial_alter_eq.
    destruct (f (m !! j)); by rewrite ?lookup_insert_eq, ?lookup_delete_eq.
  - rewrite lookup_partial_alter_ne by done.
    destruct (f (m !! i)); by rewrite ?lookup_insert_ne, ?lookup_delete_ne by done.
Qed.

(** ** Keyed slices kept sorted

    The lists that end every update with [sort.Sort]: one entry per key, strictly
    sorted, and so a canonical form of the finite map they stand for. *)

Section SortedKeyed.
  Context {A : Type} (less : A -> A -> bool) (key : A -> Z) `{!KeyOrder less key}.

Definition sorted_wf (l : list A) : Prop := NoDup (keys key l) /\ strictly_sorted less l.

Lemma sort_keys l : keys key (sort_Sort less l) ≡ₚ keys key l.
Proof. by rewrite sort_Sort_Permutation. Qed.

Lemma sort_wf l : NoDup (keys key l) -> sorted_wf (sort_Sort less l).
Proof. intros Hnd. split; [by rewrite sort_keys|]. by apply (sort_Sort_sorted (key := key)). Qed.

Lemma sort_kmap l : NoDup (keys key l) -> kmap key (sort_Sort less l) = kmap key l.
Proof. intros Hnd. apply kmap_Permutation; [by rewrite sort_keys|]. apply sort_Sort_Permutation. Qed.

Lemma sort_sum f l : sumZ f (sort_Sort less l) = sumZ f l.
Proof. by rewrite sort_Sort_Permutation. Qed.

(** The three shapes an update takes before the final sort. *)
Lemma sorted_insert_spec l i v w :
  NoDup (keys key l) -> l !! i = Some v -> key w = key v ->
  sorted_wf (sort_Sort less (<[i:=w]> l)) /\
  kmap key (sort_Sort less (<[i:=w]> l)) = <[key v := w]> (kmap key l).
Proof.
  intros Hnd Hi Hw.
  assert (Hnd' : NoDup (keys key (<[i:=w]> l))) by by erewrite keys_insert.
  split; [by apply sort_wf|]. by rewrite sort_kmap, (kmap_insert _ _ _ _ _ Hnd Hi Hw).
Qed.

Lemma sorted_snoc_spec l w :
  NoDup (keys key l) -> key w ∉ keys key l ->
  sorted_wf (sort_Sort less (l ++ [w])) /\
  kmap key (sort_Sort less (l ++ [w])) = <[key w := w]> (kmap key l).
Proof.
  intros Hnd Hw.
  assert (Hnd' : NoDup (keys key (l ++ [w]))).
  { rewrite keys_app, Permutation_app_comm. by apply NoDup_cons. }
  split; [by apply sort_wf|]. by rewrite sort_kmap, kmap_snoc.
Qed.

Lemma sorted_delete_spec l i v :
  NoDup (keys key l) -> l !! i = Some v ->
  sorted_wf (sort_Sort less (delete i l)) /\
  kmap key (sort_Sort less (delete i l)) = delete (key v) (kmap key l).
Proof.
  intros Hnd Hi. pose proof (keys_delete_NoDup key l i Hnd) as Hnd'.
  split; [by apply sort_wf|]. by rewrite sort_kmap, (kmap_delete _ _ _ _ Hnd Hi).
Qed.

(** The order of the slice carries no information. *)
Lemma sorted_wf_canonical l1 l2 :
  sorted_wf l1 -> sorted_wf l2 -> kmap key l1 = kmap key l2 -> l1 = l2.
Proof.
  intros [Hnd1 Hs1] [Hnd2 Hs2] Heq. apply (sort_unique (key := key) l1 l2 Hs1 Hs2).
  apply NoDup_Permutation; [by eapply NoDup_fmap_1..|]. intros v.
  pose proof (kmap_lookup_Some key l1 (key v) v Hnd1) as H1.
  pose proof (kmap_lookup_Some key l2 (key v) v Hnd2) as H2.
  rewrite Heq in H1. split; intros Hv; [apply H2, H1|apply H1, H2]; done.
Qed.
End SortedKeyed.

(** One update of a sorted slice against the update of its map. *)
Ltac sorted_update less key :=
  first
    [ by apply (sorted_insert_spec less key); [| |autorewrite with erbie]
    | by apply (sorted_snoc_spec less key)
    | by apply (sorted_delete_spec less key)
    | split; [done|symmetry; apply delete_id; by apply kmap_lookup_None]
    | case_match; sorted_update less key ].
