(* ===== verification/Common.v ===== *)
(** Bytes, hexadecimal strings, addresses and keys: [common/bytes.go],
    [common/types.go], and the parts of [crypto/crypto.go] the chain logic calls.

    A byte is an integer in [0, 256), a byte slice or a Go string is a list of
    bytes.  A [common.Address] (20 bytes) and a [common.Hash] (32 bytes) are
    modelled by their big-endian value, so [addr.Hash().Big()] is the address
    itself.  The elliptic curve and Keccak come from packages outside the
    repository: they are the fields of the class [Crypto]. *)
From S2P Require Import Prelude.
From stdpp Require Export strings.

Open Scope Z_scope.

Notation bytes := (list Z) (only parsing).

(** ** Outcomes of Go functions *)

(** An [error] value is represented by its message. *)
Notation error := string (only parsing).

(** What a call gives: a value, a returned error, or a run-time panic. *)
Inductive outcome (A : Type) : Type :=
| Ret (a : A)
| Err (e : error)
| Panic.
Arguments Ret {A} _.
Arguments Err {A} _.
Arguments Panic {A}.

Definition outcome_bind {A B : Type} (f : A -> outcome B) (o : outcome A) : outcome B :=
  match o with
  | Ret a => f a
  | Err e => Err e
  | Panic => Panic
  end.

#[export] Instance outcome_mret : MRet outcome := fun A => @Ret A.
#[export] Instance outcome_mbind : MBind outcome := fun A B => @outcome_bind A B.

(** ** Big-endian bytes *)

(** [new(big.Int).SetBytes(b)] *)
Definition SetBytes (b : bytes) : Z := foldl (fun a x => a * 256 + x) 0 b.

(** The [n] low-order bytes of [z], big-endian: [Address.Bytes], [Hash.Bytes]. *)
Fixpoint be_bytes (n : nat) (z : Z) : bytes :=
  match n with
  | O => []
  | S n => be_bytes n (z / 256) ++ [z mod 256]
  end.

Definition Hash_Bytes (h : Hash) : bytes := be_bytes 32 h.
Definition Address_Bytes (a : Address) : bytes := be_bytes 20 a.

(** [a.SetBytes] on a zero address: the last 20 bytes, right-aligned. *)
Definition BytesToAddress (b : bytes) : Address :=
  SetBytes (if (20 <? Z.of_nat (length b)) then drop (length b - 20) b else b).

Definition BytesToHash (b : bytes) : Hash :=
  SetBytes (if (32 <? Z.of_nat (length b)) then drop (length b - 32) b else b).

(** ** Hexadecimal *)

Definition fromHexChar (c : Z) : option Z :=
  if (48 <=? c) && (c <=? 57) then Some (c - 48)
  else if (97 <=? c) && (c <=? 102) then Some (c - 97 + 10)
  else if (65 <=? c) && (c <=? 70) then Some (c - 65 + 10)
  else None.

(** [h, _ := hex.DecodeString(str)]: the bytes decoded before the first error. *)
Fixpoint Hex2Bytes (s : bytes) : bytes :=
  match s with
  | a :: b :: s' =>
      match fromHexChar a, fromHexChar b with
      | Some x, Some y => (16 * x + y) :: Hex2Bytes s'
      | _, _ => []
      end
  | _ => []
  end.

Definition has0xPrefix (s : bytes) : bool :=
  match s with
  | 48 :: 120 :: _ => true
  | 48 :: 88 :: _ => true
  | _ => false
  end.

Definition FromHex (s : bytes) : bytes :=
  let s := if has0xPrefix s then drop 2 s else s in
  let s := if Nat.odd (length s) then 48 :: s else s in
  Hex2Bytes s.

Definition HexToAddress (s : bytes) : Address := BytesToAddress (FromHex s).

(** ** Keys *)

Class Crypto : Type := {
  (** [crypto.Keccak256] of one slice *)
  Keccak256 : bytes -> bytes;
  (** [crypto.PubkeyToAddress] of the point [ScalarBaseMult d] *)
  PrivToAddress : Z -> Address;
}.

Definition secp256k1N : Z :=
  0xfffffffffffffffffffffffffffffffebaaedce6af48a03bbfd25e8cd0364141.

(** [crypto.HexToECDSA] on the hexadecimal form of a hash: always 32 bytes of
    valid digits, so only the two range checks of [toECDSA] can fail. *)
Definition toECDSA (d : Hash) : outcome Z :=
  if secp256k1N <=? d then Err "invalid private key, >=N"
  else if d <=? 0 then Err "invalid private key, zero or negative"
  else Ret d.

(** ** Lemmas *)

Definition byte_ok (x : Z) : Prop := 0 <= x < 256.

Lemma SetBytes_app a b :
  SetBytes (a ++ b) = SetBytes a * 256 ^ Z.of_nat (length b) + SetBytes b.
Proof.
  unfold SetBytes. rewrite foldl_app. generalize (foldl (fun a x => a * 256 + x) 0 a) as z.
  induction b as [|x b IH] using rev_ind; intros z; simpl; [lia|].
  rewrite !foldl_app, length_app, Nat2Z.inj_add. simpl.
  rewrite IH, Z.pow_add_r by lia. lia.
Qed.

Lemma SetBytes_bound b : Forall byte_ok b -> 0 <= SetBytes b < 256 ^ Z.of_nat (length b).
Proof.
  induction b as [|x b IH] using rev_ind; intros H; [done|].
  apply Forall_app in H as [Hb Hx]. inversion_clear Hx as [|? ? Hx' _]. unfold byte_ok in Hx'.
  rewrite SetBytes_app, length_app, Nat2Z.inj_add, Z.pow_add_r by lia.
  specialize (IH Hb). unfold SetBytes at 2 4. simpl. lia.
Qed.

Lemma length_be_bytes n z : length (be_bytes n z) = n.
Proof. revert z. induction n as [|n IH]; intros z; simpl; [done|]. rewrite length_app, IH. simpl. lia. Qed.

Lemma be_bytes_ok n z : Forall byte_ok (be_bytes n z).
Proof.
  revert z. induction n as [|n IH]; intros z; simpl; [done|].
  apply Forall_app. split; [done|]. repeat constructor; apply Z.mod_pos_bound; lia.
Qed.

Lemma SetBytes_be_bytes n z : SetBytes (be_bytes n z) = z mod 256 ^ Z.of_nat n.
Proof.
  revert z. induction n as [|n IH]; intros z; [by rewrite Z.mod_1_r|].
  cbn [be_bytes]. rewrite SetBytes_app, IH. unfold SetBytes. simpl length. simpl foldl.
  rewrite (Nat2Z.inj_succ n), (Z.pow_succ_r 256 (Z.of_nat n)) by lia.
  rewrite Z.rem_mul_r by lia. lia.
Qed.

(** Cropping from the left is reduction modulo 2^160. *)
Lemma BytesToAddress_mod b : Forall byte_ok b -> BytesToAddress b = SetBytes b mod 2 ^ 160.
Proof.
  intros Hb. unfold BytesToAddress. change (2 ^ 160) with (256 ^ Z.of_nat 20).
  case (Z.ltb_spec 20 (Z.of_nat (length b))) as [Hlt|Hge].
  - replace (SetBytes b) with (SetBytes (take (length b - 20) b ++ drop (length b - 20) b))
      by by rewrite take_drop.
    rewrite SetBytes_app, length_drop.
    replace (length b - (length b - 20))%nat with 20%nat by lia.
    rewrite Z.add_comm, Z.mod_add by done. symmetry. apply Z.mod_small.
    pose proof (SetBytes_bound (drop (length b - 20) b) ltac:(by apply Forall_drop)) as H.
    rewrite length_drop in H.
    by replace (length b - (length b - 20))%nat with 20%nat in H by lia.
  - symmetry. apply Z.mod_small. pose proof (SetBytes_bound b Hb) as [H1 H2].
    split; [done|]. eapply Z.lt_le_trans; [exact H2|]. apply Z.pow_le_mono_r; lia.
Qed.
