(* ===== verification/Params.v ===== *)
(** Economic parameters of the chain: [core/types/economic_params.go], with the
    coefficient constant of [core/types/emptyblock.go]. *)
From S2P Require Import Prelude Common.

Open Scope Z_scope.

Definition MintDeepStorageAddress : Address := 1.
Definition ValidatorStorageAddress : Address := 2.
Definition StakerStorageAddress : Address := 3.
Definition VoteContractAddress : Address := 0x10.

Definition VoteAmountEachBlock : Z := 800000000000000000.
Definition DREBlockReward : Z := 543600000000000000.
Definition PercentageValidatorReward : Z := 7.
Definition ReduceRewardPeriod : Z := 365 * 720 * 24.
Definition ExchangePeriod : Z := 6160.

Definition SNFTL0 : Z := 30000000000000000.
Definition SNFTL1 : Z := 60000000000000000.
Definition SNFTL2 : Z := 180000000000000000.
Definition SNFTL3 : Z := 1000000000000000000.

Definition CancelDayPledgedInterval : Z := 720 * 24 * 30.
Definition ConsensusValidatorsNum : Z := 11.
Definition ValidatorRewardNum : Z := 7.
Definition StakerRewardNum : Z := 4.

(** ["erbie:"] *)
Definition TransactionType : bytes := [101; 114; 98; 105; 101; 58].
Definition TransactionTypeLen : Z := 6.

Definition StakerBase : Z := 350 * 1000000000000000000.
Definition ValidatorBase : Z := 35000 * 1000000000000000000.

Definition DEFAULT_VALIDATOR_COEFFICIENT : Z := 70.
Definition VALIDATOR_COEFFICIENT : Z := 70.
