(* ===== verification/Wormholes.v ===== *)
(** The payload of the chain's own transactions and the injected collections:
    [core/types/nfttypes.go]. *)
From S2P Require Import Prelude Common Params.

Open Scope Z_scope.

(** ** Payload *)

Record Wormholes : Type := mkWormholes {
  wh_Type : Z;   (* uint8 *)
  wh_CSBTAddress : bytes;
  wh_ProxyAddress : bytes;
  wh_ProxySign : bytes;
  wh_Creator : bytes;
  wh_Version : bytes;
}.

(** ["v0.0.1"] *)
Definition WormholesVersion : bytes := [118; 48; 46; 48; 46; 49].

Definition wh_CheckFormat (w : Wormholes) : outcome unit :=
  if (1 <=? wh_Type w) && (wh_Type w <=? 5) then Ret tt else Err "not exist nft type".

Definition WormholesTx1 : Z := 42000.
Definition WormholesTx2 : Z := 42000.
Definition WormholesTx3 : Z := 63000.
Definition WormholesTx4 : Z := 42000.
Definition WormholesTx5 : Z := 42000.

Definition wh_TxGas (w : Wormholes) : outcome Z :=
  match wh_Type w with
  | 1 => Ret WormholesTx1
  | 2 => Ret WormholesTx2
  | 3 => Ret WormholesTx3
  | 4 => Ret WormholesTx4
  | 5 => Ret WormholesTx5
  | _ => Err "not exist nft type"
  end.

(** ** Injected collections *)

Record InjectedOfficialNFT : Type := mkInjectedOfficialNFT {
  in_Dir : bytes;
  in_StartIndex : Z;
  in_Number : Z;
  in_Royalty : Z;
  in_Creator : bytes;
  in_Address : Address;
  in_VoteWeight : Z;
}.

Notation InjectedOfficialNFTList := (list InjectedOfficialNFT) (only parsing).

(** 0x8000000000000000000000000000000000000000 *)
Definition maskB : Z := 2 ^ 159.

Definition in_end (n : InjectedOfficialNFT) : Z := in_StartIndex n + in_Number n.

Fixpoint inl_GetInjectedInfo_from (addrInt : Z) (l : InjectedOfficialNFTList) : option InjectedOfficialNFT :=
  match l with
  | [] => None
  | n :: l =>
      if in_StartIndex n =? addrInt then Some n
      else if (in_StartIndex n <? addrInt) && (addrInt <? in_end n) then Some n
      else inl_GetInjectedInfo_from addrInt l
  end.

Definition inl_GetInjectedInfo (addr : Address) (l : InjectedOfficialNFTList) : option InjectedOfficialNFT :=
  inl_GetInjectedInfo_from (addr - maskB) l.

(** [index] stays zero when every element has expired. *)
Definition inl_DeleteExpireElem (num : Z) (l : InjectedOfficialNFTList) : InjectedOfficialNFTList :=
  match list_find (fun n => num < in_end n + maskB) l with
  | Some (index, _) => drop index l
  | None => l
  end.

Definition inl_RemainderNum (addrInt : Z) (l : InjectedOfficialNFTList) : Z :=
  foldl (fun sum n =>
    if addrInt <=? in_StartIndex n then u64 (sum + in_Number n)
    else
      let tempInt := in_end n + maskB in
      if addrInt <=? tempInt then u64 (sum + u64 (tempInt - addrInt)) else sum) 0 l.

Definition inl_MaxIndex (l : InjectedOfficialNFTList) : Z :=
  foldl (fun max n => if max <? in_end n then in_end n else max) 0 l.

Definition inl_DeepCopy (l : InjectedOfficialNFTList) : InjectedOfficialNFTList := l.

(** * Properties *)

(** The payload check and the gas table agree: a payload passes [CheckFormat]
    exactly when [TxGas] prices it, at 42000 gas or 63000 for a cancelled pledge. *)
Theorem CheckFormat_TxGas (w : Wormholes) :
  (wh_CheckFormat w = Ret tt <-> exists g, wh_TxGas w = Ret g) /\
  (forall g, wh_TxGas w = Ret g -> g = if wh_Type w =? 3 then 63000 else 42000).
Proof.
  unfold wh_CheckFormat, wh_TxGas. split.
  - split.
    + destruct (Z.leb_spec 1 (wh_Type w)), (Z.leb_spec (wh_Type w) 5); simpl; try done. intros _.
      assert (wh_Type w = 1 \/ wh_Type w = 2 \/ wh_Type w = 3 \/ wh_Type w = 4 \/ wh_Type w = 5)
        as [->|[->|[->|[->| ->]]]] by lia; eauto.
    + intros [g Hg]. repeat case_match; simplify_eq; lia || done.
  - intros g. repeat case_match; intros [= <-]; lia || done.
Qed.
