(* ===== verification/Rewards.v ===== *)
(** The block reward and its deflation: [GetRewardAmount] and [GetExchangAmount] of
    [core/state/statedb.go].

    They compute with [math.Pow] on [float64] and with [big.Float].  A positive
    binary float is a pair of a mantissa and an exponent, and rounding is to the
    nearest value with the given number of mantissa bits, ties to even. *)
From S2P Require Import Prelude Common Params.

Open Scope Z_scope.

(** ** Binary floats *)

Record float : Type := mkFloat { f_man : Z; f_exp : Z }.   (* f_man * 2 ^ f_exp *)

(** Shift out the low [sh] bits, to nearest, ties to even. *)
Definition round_shift (sh m : Z) : Z :=
  let q := m / 2 ^ sh in
  let r := m mod 2 ^ sh in
  if (2 ^ (sh - 1) <? r) || ((r =? 2 ^ (sh - 1)) && Z.odd q) then q + 1 else q.

Definition round_bits (prec : Z) (x : float) : float :=
  let sh := Z.log2 (f_man x) + 1 - prec in
  if sh <=? 0 then x else mkFloat (round_shift sh (f_man x)) (f_exp x + sh).

Definition mul_prec (prec : Z) (x y : float) : float :=
  round_bits prec (mkFloat (f_man x * f_man y) (f_exp x + f_exp y)).

(** [float64] multiplication away from underflow: the factors below stay above
    2^-64. *)
Definition fmul : float -> float -> float := mul_prec 53.

Definition lt_half (x : float) : bool := Z.log2 (f_man x) + f_exp x <? -1.

(** [math.Ldexp(frac, exp)]: below the normal range the result is rounded to a
    multiple of 2^-1074, and to zero when the exponent is under -1075. *)
Definition Ldexp (x : float) (e : Z) : float :=
  let top := Z.log2 (f_man x) + f_exp x + e in
  if top <? -1075 then mkFloat 0 0
  else if (top <? -1022) && (f_exp x + e <? -1074)
       then mkFloat (round_shift (-1074 - (f_exp x + e)) (f_man x)) (-1074)
       else mkFloat (f_man x) (f_exp x + e).

(** The loop of [math.Pow] on the bits of [i], with [x1 * 2 ^ xe] the current square
    and [a1 * 2 ^ ae] the product so far.  An [int64] has at most 63 bits. *)
Fixpoint pow_loop (fuel : nat) (i : Z) (a1 : float) (ae : Z) (x1 : float) (xe : Z) : float * Z :=
  match fuel with
  | O => (a1, ae)
  | S fuel =>
      if i =? 0 then (a1, ae)
      else if (xe <? - 2 ^ 12) || (2 ^ 12 <? xe) then (a1, ae + xe)
      else
        let '(a1, ae) := if Z.odd i then (fmul a1 x1, ae + xe) else (a1, ae) in
        let x1 := fmul x1 x1 in
        let xe := 2 * xe in
        let '(x1, xe) := if lt_half x1 then (mkFloat (f_man x1) (f_exp x1 + 1), xe - 1) else (x1, xe) in
        pow_loop fuel (i / 2) a1 ae x1 xe
  end.

Definition one : float := mkFloat 1 0.

(** [math.Pow(x, n)] for [x] in [1/2, 1) and a non-negative integer [n] below 2^63;
    [Frexp x] is then [(x, 0)]. *)
Definition Pow (x : float) (n : Z) : float :=
  if n =? 0 then one
  else if n =? 1 then x
  else let '(a1, ae) := pow_loop 64 n one 0 x 0 in Ldexp a1 ae.

(** [0.85] as a [float64] *)
Definition DeflationRate : float := mkFloat 7656119366529843 (-53).

(** [new(big.Float).Mul(big.NewFloat(x), new(big.Float).SetInt(n))]: the precision is
    that of the integer, at least 64 bits. *)
Definition bigfloat_mul (x : float) (n : Z) : float :=
  mul_prec (Z.max 64 (Z.log2 n + 1)) x (mkFloat n 0).

(** Truncation to an integer. *)
Definition trunc (x : float) : Z :=
  if 0 <=? f_exp x then f_man x * 2 ^ f_exp x else f_man x / 2 ^ (- f_exp x).

(** ** Rewards *)

(** [Uint64] saturates. *)
Definition GetRewardAmount (blocknumber initamount : Z) : Z :=
  let times := blocknumber / ReduceRewardPeriod in
  let rewardratio := Pow DeflationRate times in
  Z.min (trunc (bigfloat_mul rewardratio initamount)) (2 ^ 64 - 1).

Definition GetExchangAmount (nftaddress initamount : Z) : Z :=
  let nftInt := (nftaddress - 2 ^ 159) / 4096 in
  let times := u64 (Z.abs nftInt) / ExchangePeriod in
  trunc (bigfloat_mul (Pow DeflationRate times) initamount).

Definition calculateExchangeAmount (level mergenumber : Z) : Z :=
  mergenumber * (if level =? 0 then SNFTL0 else if level =? 1 then SNFTL1
                 else if level =? 2 then SNFTL2 else SNFTL3).

(** * Properties *)

(** ** Rounding *)

Lemma round_shift_le sh m c :
  0 < sh -> 0 <= m -> m <= c * 2 ^ sh -> 0 <= round_shift sh m <= c.
Proof.
  intros Hsh Hm Hc. unfold round_shift.
  assert (Hp : 0 < 2 ^ sh) by (apply Z.pow_pos_nonneg; lia).
  assert (Hh : 0 < 2 ^ (sh - 1)) by (apply Z.pow_pos_nonneg; lia).
  pose proof (Z.div_mod m (2 ^ sh) ltac:(lia)) as Hdm.
  pose proof (Z.mod_pos_bound m (2 ^ sh) Hp) as Hr.
  assert (Hq : 0 <= m / 2 ^ sh) by (apply Z.div_pos; lia).
  assert (Hqc : m / 2 ^ sh <= c) by nia.
  destruct ((2 ^ (sh - 1) <? m mod 2 ^ sh) || _) eqn:E; [|lia].
  destruct (Z.eq_dec (m / 2 ^ sh) c) as [Heq|]; [|lia].
  assert (m mod 2 ^ sh = 0) as H0 by nia. rewrite H0 in E. lia.
Qed.

(** The float is between zero and one. *)
Definition unit_float (x : float) : Prop :=
  0 <= f_man x /\ f_exp x <= 0 /\ f_man x <= 2 ^ (- f_exp x).

Lemma log2_le_pow m k : 0 <= k -> 0 <= m -> m <= 2 ^ k -> Z.log2 m <= k.
Proof.
  intros Hk Hm Hle. rewrite <- (Z.log2_pow2 k) by lia. by apply Z.log2_le_mono.
Qed.

Lemma fmul_unit x y : unit_float x -> unit_float y -> unit_float (fmul x y).
Proof.
  intros (Hx1 & Hx2 & Hx3) (Hy1 & Hy2 & Hy3). unfold fmul, mul_prec, round_bits, unit_float. simpl.
  set (p := f_man x * f_man y). set (e := f_exp x + f_exp y).
  assert (Hp : 0 <= p) by (unfold p; lia).
  assert (Hle : p <= 2 ^ (- e)).
  { unfold p, e. replace (- (f_exp x + f_exp y)) with (- f_exp x + - f_exp y) by lia.
    rewrite Z.pow_add_r by lia. by apply Z.mul_le_mono_nonneg. }
  pose proof (log2_le_pow p (- e) ltac:(lia) Hp Hle) as Hlog.
  destruct (Z.leb_spec (Z.log2 p + 1 - 53) 0) as [|Hsh]; simpl; [split_and!; [done|lia|done]|].
  set (sh := Z.log2 p + 1 - 53) in *.
  destruct (round_shift_le sh p (2 ^ (- (e + sh)))) as [H1 H2]; [lia|lia| |split_and!; [done|lia|done]].
  rewrite <- Z.pow_add_r by lia. by replace (- (e + sh) + sh) with (- e) by lia.
Qed.

Lemma pow_loop_unit fuel i a1 ae x1 xe :
  unit_float a1 -> unit_float x1 -> ae <= 0 -> xe <= 0 ->
  let '(a, e) := pow_loop fuel i a1 ae x1 xe in unit_float a /\ e <= 0.
Proof.
  revert i a1 ae x1 xe. induction fuel as [|fuel IH]; intros i a1 ae x1 xe Ha Hx Hae Hxe; cbn [pow_loop]; [done|].
  destruct (i =? 0); [done|].
  destruct (_ || _); [split; [done|lia]|].
  assert (Hsq : unit_float (fmul x1 x1)) by by apply fmul_unit.
  assert (Hhalf : lt_half (fmul x1 x1) = true ->
    unit_float (mkFloat (f_man (fmul x1 x1)) (f_exp (fmul x1 x1) + 1))).
  { unfold lt_half. intros Hlt%Z.ltb_lt. destruct Hsq as (H1 & H2 & H3).
    pose proof (Z.log2_nonneg (f_man (fmul x1 x1))). unfold unit_float. simpl. split_and!; [done|lia|].
    destruct (Z.eq_dec (f_man (fmul x1 x1)) 0) as [->|Hne]; [apply Z.pow_nonneg; lia|].
    apply Z.lt_le_incl. apply Z.log2_lt_pow2; lia. }
  destruct (Z.odd i), (lt_half (fmul x1 x1)); apply IH; auto using fmul_unit; lia.
Qed.

Lemma Ldexp_unit x e : unit_float x -> e <= 0 -> unit_float (Ldexp x e).
Proof.
  intros (H1 & H2 & H3) He. unfold Ldexp.
  assert (Hm : f_man x <= 2 ^ (- (f_exp x + e))).
  { etransitivity; [exact H3|]. apply Z.pow_le_mono_r; lia. }
  destruct (_ <? -1075); [done|].
  destruct (_ && _) eqn:E; unfold unit_float; simpl; [|split_and!; [done|lia|done]].
  apply andb_prop in E as [_ E]. apply Z.ltb_lt in E.
  destruct (round_shift_le (-1074 - (f_exp x + e)) (f_man x) (2 ^ 1074)) as [H4 H5]; [lia|lia| |by split_and!].
  rewrite <- Z.pow_add_r by lia. by replace (1074 + (-1074 - (f_exp x + e))) with (- (f_exp x + e)) by lia.
Qed.

Lemma Pow_unit x n : unit_float x -> unit_float (Pow x n).
Proof.
  intros Hx. unfold Pow. destruct (n =? 0); [done|]. destruct (n =? 1); [done|].
  pose proof (pow_loop_unit 64 n one 0 x 0) as H. destruct (pow_loop 64 n one 0 x 0) as [a e].
  destruct H as [Ha He]; [done|done|lia|lia|]. by apply Ldexp_unit.
Qed.

(** A ratio of at most one, rounding included, never increases the amount. *)
Lemma bigfloat_mul_le x n : unit_float x -> 0 <= n -> 0 <= trunc (bigfloat_mul x n) <= n.
Proof.
  intros (H1 & H2 & H3) Hn. unfold bigfloat_mul, mul_prec, round_bits, trunc. simpl.
  rewrite Z.add_0_r. set (p := f_man x * n). set (e := f_exp x) in *.
  assert (Hp : 0 <= p <= n * 2 ^ (- e)) by (unfold p; nia).
  set (sh := Z.log2 p + 1 - _).
  assert (Htr : forall m k, k <= 0 -> 0 <= m <= n * 2 ^ (- k) ->
    0 <= (if 0 <=? k then m * 2 ^ k else m / 2 ^ (- k)) <= n).
  { intros m k Hk Hm. destruct (Z.leb_spec 0 k) as [Hk0|Hk0].
    - assert (k = 0) as -> by lia. simpl in *. lia.
    - assert (0 < 2 ^ (- k)) by (apply Z.pow_pos_nonneg; lia). split; [apply Z.div_pos; lia|].
      apply Z.div_le_upper_bound; lia. }
  destruct (Z.leb_spec sh 0) as [|Hsh]; simpl; [by apply Htr|].
  assert (Hle : sh <= - e).
  { destruct (Z.eq_dec p 0) as [Hp0|Hp0]; [unfold sh in *; rewrite Hp0 in *; simpl in *; lia|].
    pose proof (Z.log2_le_mono p (n * 2 ^ (- e)) ltac:(lia)) as Hlog.
    rewrite Z.log2_mul_pow2 in Hlog by nia. unfold sh. lia. }
  apply Htr; [lia|]. apply round_shift_le; [lia|lia|].
  replace (n * 2 ^ (- (e + sh)) * 2 ^ sh) with (n * 2 ^ (- e)); [lia|].
  rewrite <- Z.mul_assoc, <- Z.pow_add_r by lia. do 2 f_equal. lia.
Qed.

Lemma GetRewardAmount_range blocknumber initamount :
  0 <= initamount -> 0 <= blocknumber -> 0 <= GetRewardAmount blocknumber initamount <= initamount.
Proof.
  intros Hinit Hbn. unfold GetRewardAmount.
  assert (Hu : unit_float DeflationRate) by (unfold unit_float; simpl; lia).
  pose proof (bigfloat_mul_le _ initamount (Pow_unit _ (blocknumber / ReduceRewardPeriod) Hu) Hinit). lia.
Qed.

(** Whatever the block number, the deflated reward is never negative and never
    exceeds the initial reward: the rounding of the floating-point power, of its
    product with the amount and the final truncation cannot create tokens.  The
    first period pays the initial reward exactly. *)
Theorem GetRewardAmount_bounds (blocknumber initamount : Z) :
  0 <= initamount -> 0 <= blocknumber ->
  0 <= GetRewardAmount blocknumber initamount <= initamount /\
  (blocknumber < ReduceRewardPeriod -> initamount < 2 ^ 64 ->
   GetRewardAmount blocknumber initamount = initamount).
Proof.
  intros Hinit Hbn. split; [by apply GetRewardAmount_range|]. unfold GetRewardAmount.
  intros Hfirst Hsmall. rewrite (Z.div_small blocknumber) by lia.
  change (Pow DeflationRate 0) with one. unfold bigfloat_mul, mul_prec, round_bits. simpl f_man. simpl f_exp.
  rewrite Z.mul_1_l. destruct (Z.leb_spec (Z.log2 initamount + 1 - Z.max 64 (Z.log2 initamount + 1)) 0); [|lia].
  unfold trunc. simpl. lia.
Qed.

Lemma GetRewardAmount_bounds_witness :
  0 <= GetRewardAmount (3 * ReduceRewardPeriod) DREBlockReward <= DREBlockReward.
Proof. apply (GetRewardAmount_bounds (3 * ReduceRewardPeriod) DREBlockReward); unfold DREBlockReward, ReduceRewardPeriod; lia. Defined.

(** The reward of the chain falls strictly from every yearly period to the next
    over the first forty periods; the last token unit is paid in the 251st period and
    nothing in the 252nd. *)
Theorem GetRewardAmount_schedule :
  (forall k, 0 <= k < 40 ->
     GetRewardAmount ((k + 1) * ReduceRewardPeriod) DREBlockReward
     < GetRewardAmount (k * ReduceRewardPeriod) DREBlockReward) /\
  GetRewardAmount (251 * ReduceRewardPeriod) DREBlockReward = 1 /\
  GetRewardAmount (252 * ReduceRewardPeriod) DREBlockReward = 0.
Proof.
  split_and!; [|by vm_compute|by vm_compute].
  assert (H : forallb (fun k => GetRewardAmount ((k + 1) * ReduceRewardPeriod) DREBlockReward
                                <? GetRewardAmount (k * ReduceRewardPeriod) DREBlockReward)
                (seqZ 0 40) = true) by by vm_compute.
  rewrite forallb_forall in H. intros k Hk.
  assert (In k (seqZ 0 40)) as Hin by (apply list_elem_of_In, elem_of_seqZ; lia).
  specialize (H k Hin). lia.
Qed.
