(* ===== verification/Validators.v ===== *)
(** The validator list: [core/types/validator_account.go].

    [Validator] and the methods of [*ValidatorList] (prefix [vl_]).  The receiver
    is passed and returned explicitly.  Every caller that keeps a list works on a
    [DeepCopy], so the in-place updates of the [*big.Int] balances are updates of
    the list value. *)
From S2P Require Import Prelude KeyedList Common Params.

Open Scope Z_scope.

(** ** Data *)

Record Validator : Type := mkValidator {
  v_Addr : Address;
  v_Balance : Z;
  v_Proxy : Address;
  v_Weight : option (list Z);   (* [None] is the nil slice *)
}.

Notation ValidatorList := (list Validator) (only parsing).

#[export] Instance Validator_eq_dec : EqDecision Validator.
Proof. solve_decision. Defined.

Definition NewValidator (addr : Address) (balance : Z) (proxy : Address) : Validator :=
  mkValidator addr balance proxy None.

(** The zero value [&Validator{}], whose [Balance] is nil. *)
Definition zeroValidator : Validator := mkValidator 0 0 0 None.

Definition with_balance (b : Z) (v : Validator) : Validator :=
  mkValidator (v_Addr v) b (v_Proxy v) (v_Weight v).
Definition with_proxy (p : Address) (v : Validator) : Validator :=
  mkValidator (v_Addr v) (v_Balance v) p (v_Weight v).
Definition with_weight (w : option (list Z)) (v : Validator) : Validator :=
  mkValidator (v_Addr v) (v_Balance v) (v_Proxy v) w.

(** [if proxy != empty { v.Proxy = proxy }] *)
Definition set_proxy (p : Address) (v : Validator) : Validator :=
  if p =? 0 then v else with_proxy p v.

(** ** Sorting *)

Definition vl_Less (a b : Validator) : bool :=
  if v_Balance a =? v_Balance b then v_Addr b <? v_Addr a
  else v_Balance b <? v_Balance a.

Definition vl_sort : ValidatorList -> ValidatorList := sort_Sort vl_Less.

(** ** Updates of the list *)

Definition vl_AddValidator (addr : Address) (balance : Z) (proxy : Address)
    (vl : ValidatorList) : bool * ValidatorList :=
  match kfind v_Addr addr vl with
  | Some (i, v) =>
      (true, vl_sort (<[i := set_proxy proxy (with_balance (v_Balance v + balance) v)]> vl))
  | None => (true, vl_sort (vl ++ [NewValidator addr balance proxy]))
  end.

Definition vl_AddValidatorAmount (addr : Address) (balance : Z)
    (vl : ValidatorList) : bool * ValidatorList :=
  match kfind v_Addr addr vl with
  | Some (i, v) => (true, vl_sort (<[i := with_balance (v_Balance v + balance) v]> vl))
  | None => (true, vl)
  end.

Definition vl_RemoveValidator (addr : Address) (balance : Z)
    (vl : ValidatorList) : bool * ValidatorList :=
  match kfind v_Addr addr vl with
  | Some (i, v) =>
      let v' := with_balance (v_Balance v - balance) v in
      if v_Balance v' <? ValidatorBase then (true, vl_sort (delete i vl))
      else (true, vl_sort (<[i := v']> vl))
  | None => (false, vl)
  end.

Definition vl_SetValidatorAmount (addr : Address) (balance : Z) (proxy : Address)
    (vl : ValidatorList) : bool * ValidatorList :=
  match kfind v_Addr addr vl with
  | Some (i, v) => (true, vl_sort (<[i := set_proxy proxy (with_balance balance v)]> vl))
  | None => (true, vl_sort (vl ++ [NewValidator addr balance proxy]))
  end.

Definition vl_ResetRemoveValidator (addr : Address) (vl : ValidatorList) : bool * ValidatorList :=
  match kfind v_Addr addr vl with
  | Some (i, _) => (true, vl_sort (delete i vl))
  | None => (false, vl)
  end.

Definition NewValidatorList (validators : list Validator) : ValidatorList :=
  foldl (fun vl v => snd (vl_AddValidator (v_Addr v) (v_Balance v) (v_Proxy v) vl)) [] validators.

Definition vl_AddAddrRange (addr : Address) (weight : list Z) (vl : ValidatorList) : ValidatorList :=
  (fun v => if (v_Addr v =? addr) || (v_Proxy v =? addr)
            then with_weight (Some weight) v else v) <$> vl.

(** A weight slice is rebuilt element by element: an empty one comes back nil. *)
Definition copy_weight (w : option (list Z)) : option (list Z) :=
  match w with
  | Some (x :: l) => Some (x :: l)
  | _ => None
  end.

Definition vl_DeepCopy (vl : ValidatorList) : ValidatorList :=
  (fun v => mkValidator (v_Addr v) (v_Balance v) (v_Proxy v) (copy_weight (v_Weight v))) <$> vl.

(** ** Queries *)

Definition vl_Len (vl : ValidatorList) : Z := Z.of_nat (length vl).
Definition vl_Size (vl : ValidatorList) : Z := Z.of_nat (length vl).

(** [int(math.Ceil(float64(size)/3)) - 1]; the division is exact enough for any
    size below 2^51. *)
Definition vl_F (vl : ValidatorList) : Z := (vl_Size vl + 2) / 3 - 1.

Definition vl_TotalStakeBalance (vl : ValidatorList) : Z :=
  foldl (fun total v => total + v_Balance v) 0 vl.

Definition vl_TargetSize (vl : ValidatorList) : Z :=
  50 * foldl (fun total v => total + v_Balance v) 0 vl / 100.

(** The validator an address stands for: the first one with that address or proxy. *)
Definition vl_match (addr : Address) (v : Validator) : Prop := v_Addr v = addr \/ v_Proxy v = addr.

#[export] Instance vl_match_dec addr v : Decision (vl_match addr v).
Proof. unfold vl_match. apply _. Defined.

Definition vl_StakeBalance (addr : Address) (vl : ValidatorList) : Z :=
  match list_find (vl_match addr) vl with
  | Some (_, v) => v_Balance v
  | None => 0
  end.

Definition vl_ConvertToAddress (vl : ValidatorList) : list Address := v_Addr <$> vl.

Definition vl_ConvertToBigInt (validators : list Validator) : list Z := v_Addr <$> validators.

Definition vl_Exist (addr : Address) (vl : ValidatorList) : bool :=
  existsb (fun v => (v_Addr v =? addr) || (v_Proxy v =? addr)) vl.

Definition vl_ExistProxy (addr : Address) (vl : ValidatorList) : bool :=
  existsb (fun v => (v_Addr v =? addr) && negb (v_Proxy v =? 0)) vl.

Definition vl_GetProxy (delegate : Address) (vl : ValidatorList) : Address * bool :=
  match list_find (fun v => v_Addr v = delegate /\ v_Proxy v <> 0) vl with
  | Some (_, v) => (v_Proxy v, true)
  | None => (0, false)
  end.

Definition vl_ExistAdderRange (addr : Address) (vl : ValidatorList) : bool :=
  existsb (fun v => ((v_Addr v =? addr) || (v_Proxy v =? addr))
                    && match v_Weight v with Some _ => true | None => false end) vl.

Definition vl_GetByAddress (addr : Address) (vl : ValidatorList) : Z :=
  match list_find (vl_match addr) vl with
  | Some (i, _) => Z.of_nat i
  | None => -1
  end.

Definition vl_GetByIndex (i : Z) (vl : ValidatorList) : Validator :=
  if vl_Len vl <=? i then zeroValidator
  else default zeroValidator (vl !! Z.to_nat i).

Definition vl_GetValidatorByAddr (addr : Address) (vl : ValidatorList) : Validator :=
  match kfind v_Addr addr vl with
  | Some (_, v) => v
  | None => zeroValidator
  end.

Definition vl_GetValidatorAddr (addr : Address) (vl : ValidatorList) : Address :=
  match list_find (vl_match addr) vl with
  | Some (_, v) => v_Addr v
  | None => 0
  end.

(** ** The registry the list implements

    The contract of the list is a finite map from addresses to validators; the
    order of the slice is then determined by the map. *)

Inductive vl_op : Type :=
| OpAdd (addr : Address) (balance : Z) (proxy : Address)
| OpAddAmount (addr : Address) (balance : Z)
| OpRemove (addr : Address) (balance : Z)
| OpSet (addr : Address) (balance : Z) (proxy : Address)
| OpReset (addr : Address).

Definition vl_run (op : vl_op) (vl : ValidatorList) : ValidatorList :=
  snd match op with
      | OpAdd a b p => vl_AddValidator a b p vl
      | OpAddAmount a b => vl_AddValidatorAmount a b vl
      | OpRemove a b => vl_RemoveValidator a b vl
      | OpSet a b p => vl_SetValidatorAmount a b p vl
      | OpReset a => vl_ResetRemoveValidator a vl
      end.

Definition op_addr (op : vl_op) : Address :=
  match op with
  | OpAdd a _ _ | OpAddAmount a _ | OpRemove a _ | OpSet a _ _ | OpReset a => a
  end.

(** What an operation does to the entry of its address. *)
Definition op_entry (op : vl_op) (o : option Validator) : option Validator :=
  match op, o with
  | OpAdd _ b p, Some v => Some (set_proxy p (with_balance (v_Balance v + b) v))
  | OpAdd a b p, None => Some (NewValidator a b p)
  | OpAddAmount _ b, Some v => Some (with_balance (v_Balance v + b) v)
  | OpRemove _ b, Some v =>
      if v_Balance v - b <? ValidatorBase then None
      else Some (with_balance (v_Balance v - b) v)
  | OpSet _ b p, Some v => Some (set_proxy p (with_balance b v))
  | OpSet a b p, None => Some (NewValidator a b p)
  | _, _ => None
  end.

Definition registry_run (op : vl_op) (m : gmap Address Validator) : gmap Address Validator :=
  partial_alter (op_entry op) (op_addr op) m.

(** The invariant: one entry per address, in decreasing order of stake. *)
Definition vl_wf : ValidatorList -> Prop := sorted_wf vl_Less v_Addr.

#[export] Instance vl_Less_KeyOrder : KeyOrder vl_Less v_Addr.
Proof.
  split; unfold vl_Less.
  - intros x. rewrite Z.eqb_refl. apply Z.ltb_irrefl.
  - intros x y z. repeat case_match; lia.
  - intros x y Hne. rewrite (Z.eqb_sym (v_Balance y)).
    destruct (Z.eqb_spec (v_Balance x) (v_Balance y)); lia.
Qed.

Lemma DeepCopy_keys l : keys v_Addr (vl_DeepCopy l) = keys v_Addr l.
Proof. unfold keys, vl_DeepCopy. rewrite <- list_fmap_compose. by apply list_fmap_ext. Qed.

Lemma set_proxy_addr p v : v_Addr (set_proxy p v) = v_Addr v.
Proof. unfold set_proxy. by destruct (p =? 0). Qed.

Lemma set_proxy_balance p v : v_Balance (set_proxy p v) = v_Balance v.
Proof. unfold set_proxy. by destruct (p =? 0). Qed.

#[export] Hint Rewrite set_proxy_addr set_proxy_balance : erbie.

(** Every operation keeps the invariant and acts on the registry as specified. *)
Lemma vl_run_refines op vl :
  vl_wf vl ->
  vl_wf (vl_run op vl) /\ kmap v_Addr (vl_run op vl) = registry_run op (kmap v_Addr vl).
Proof.
  intros Hwf. pose proof (proj1 Hwf) as Hnd. unfold registry_run. rewrite partial_alter_case, kmap_find.
  destruct op as [a b p|a b|a b|a b p|a]; simpl;
    unfold vl_run, vl_AddValidator, vl_AddValidatorAmount, vl_RemoveValidator,
      vl_SetValidatorAmount, vl_ResetRemoveValidator;
    (destruct (kfind v_Addr a vl) as [[i v]|] eqn:Hf;
     [apply kfind_Some in Hf as (Hi & <- & _) | apply kfind_None in Hf]); simpl.
  all: sorted_update vl_Less v_Addr.
Qed.

Lemma vl_TotalStakeBalance_sum vl : vl_TotalStakeBalance vl = sumZ v_Balance vl.
Proof. unfold vl_TotalStakeBalance. rewrite foldl_sumZ. lia. Qed.

Definition entry_stake (o : option Validator) : Z :=
  match o with Some v => v_Balance v | None => 0 end.

(** The total stake changes by the change of the operation's own entry. *)
Lemma vl_run_total op vl :
  vl_TotalStakeBalance (vl_run op vl) =
  vl_TotalStakeBalance vl
  - entry_stake (kmap v_Addr vl !! op_addr op)
  + entry_stake (op_entry op (kmap v_Addr vl !! op_addr op)).
Proof.
  rewrite !vl_TotalStakeBalance_sum, kmap_find.
  destruct op as [a b p|a b|a b|a b p|a]; simpl;
    unfold vl_run, vl_AddValidator, vl_AddValidatorAmount, vl_RemoveValidator,
      vl_SetValidatorAmount, vl_ResetRemoveValidator;
    (destruct (kfind v_Addr a vl) as [[i v]|] eqn:Hf;
     [apply kfind_Some in Hf as (Hi & _ & _) | pose proof I as Hi]); simpl;
    repeat case_match; simpl; unfold vl_sort; rewrite ?sort_sum, ?sumZ_snoc;
    rewrite ?(sumZ_insert _ _ _ _ _ Hi), ?(sumZ_delete _ _ _ _ Hi), ?set_proxy_balance;
    simpl; lia.
Qed.

(** ** What the registry guarantees *)

(** The list and the registry after a sequence of operations from the empty list. *)
Definition vl_history (ops : list vl_op) : ValidatorList :=
  foldl (fun vl op => vl_run op vl) [] ops.

Definition registry_history (ops : list vl_op) : gmap Address Validator :=
  foldl (fun m op => registry_run op m) ∅ ops.

Lemma vl_history_refines ops :
  vl_wf (vl_history ops) /\ kmap v_Addr (vl_history ops) = registry_history ops.
Proof.
  unfold vl_history, registry_history.
  induction ops as [|op ops [IHw IHm]] using rev_ind.
  { split; [|done]. split; constructor. }
  rewrite !foldl_app. simpl. destruct (vl_run_refines op _ IHw) as [Hw ->].
  split; [done|]. by rewrite IHm.
Qed.

(** C33. After any sequence of [AddValidator], [AddValidatorAmount], [RemoveValidator],
    [SetValidatorAmount] and [ResetRemoveValidator] from the empty list, the slice has
    one entry per address, is in decreasing order of stake, and holds exactly the
    entries of the finite map on which each operation rewrites its own address. *)
Theorem ValidatorList_refines_registry (ops : list vl_op) :
  NoDup (keys v_Addr (vl_history ops)) /\
  strictly_sorted vl_Less (vl_history ops) /\
  kmap v_Addr (vl_history ops) = registry_history ops.
Proof. destruct (vl_history_refines ops) as [[Hnd Hs] Hm]. done. Qed.

(** Histories that leave the same registry leave the same slice, element by
    element: nodes that apply the updates of a block in different orders agree on the
    list, and so on its encoding, whenever the orders agree on the registry. *)
Theorem ValidatorList_canonical (ops1 ops2 : list vl_op) :
  registry_history ops1 = registry_history ops2 -> vl_history ops1 = vl_history ops2.
Proof.
  intros Heq. destruct (vl_history_refines ops1) as [Hw1 Hm1], (vl_history_refines ops2) as [Hw2 Hm2].
  apply (sorted_wf_canonical vl_Less v_Addr); [done..|]. congruence.
Qed.

Lemma ValidatorList_canonical_witness :
  vl_history [OpAdd 5 ValidatorBase 0; OpAdd 7 (2 * ValidatorBase) 9; OpAddAmount 5 3] =
  vl_history [OpAdd 7 ValidatorBase 9; OpAdd 5 3 0; OpAdd 7 ValidatorBase 0; OpAddAmount 5 ValidatorBase].
Proof. apply ValidatorList_canonical. vm_compute. reflexivity. Defined.

(** An operation moves [TotalStakeBalance] by exactly the change of the stake of
    its own entry; [RemoveValidator] of an entry that falls under [ValidatorBase]
    takes the whole remaining stake out of the total. *)
Theorem TotalStakeBalance_step (op : vl_op) (ops : list vl_op) :
  vl_TotalStakeBalance (vl_run op (vl_history ops)) =
  vl_TotalStakeBalance (vl_history ops)
  - entry_stake (registry_history ops !! op_addr op)
  + entry_stake (op_entry op (registry_history ops !! op_addr op)).
Proof. rewrite vl_run_total. by rewrite (proj2 (vl_history_refines ops)). Qed.
