(* ===== verification/Selection.v ===== *)
(** How the consensus committee is drawn from the validator list: the address
    ranges, collection, make-up and random-selection methods of
    [core/types/validator_account.go] (methods of [*ValidatorList], prefix [vl_])
    and the ranking of [core/types/stake_account.go]. *)
From S2P Require Import Prelude KeyedList Common Params Validators.

Open Scope Z_scope.

(** ** Address ranges *)

(** [minValue] and [maxValue], the ends of the ring of 160-bit addresses. *)
Definition minValue : Z := 0.
Definition maxValue : Z := 0xffffffffffffffffffffffffffffffffffffffff.

(** The two branches that end both range calculations. *)
Definition assign_range (address : Address) (rangeLength : Z) (vl : ValidatorList) : ValidatorList :=
  let addrNo := address in
  let vl := if maxValue <? rangeLength
            then vl_AddAddrRange address [minValue; maxValue] vl else vl in
  if addrNo + rangeLength <? maxValue
  then vl_AddAddrRange address [addrNo; addrNo + rangeLength] vl
  else let modValue := (addrNo + rangeLength) mod maxValue in
       vl_AddAddrRange address [addrNo; maxValue; minValue; modValue] vl.

(** A zero total makes [big.Int.Div] panic. *)
Definition vl_CalculateAddressRange (address : Address) (stakeAmt : Z)
    (vl : ValidatorList) : outcome ValidatorList :=
  let totalAmt := vl_TotalStakeBalance vl in
  if totalAmt =? 0 then Panic
  else Ret (assign_range address ((7 * (stakeAmt * maxValue)) / totalAmt) vl).

Definition vl_CalculateAddressRangeV2 (address : Address) (stakeAmt weight : Z)
    (vl : ValidatorList) : outcome ValidatorList :=
  let totalAmt := vl_TotalStakeBalance vl in
  if totalAmt =? 0 then Panic
  else Ret (assign_range address ((weight * (stakeAmt * maxValue)) / totalAmt * 10) vl).

(** ** Ranking by distance

    [rankByWordCount] puts the entries of a Go map into a slice, in the
    unspecified iteration order of the map, and sorts it with the reversed
    comparison of the values: any permutation with decreasing values can come
    out, so the functions that use it are relations. *)

Record Pair : Type := mkPair { p_Key : Z; p_Value : Z }.

Definition rankByWordCount (wordFrequencies : list Pair) (pl : list Pair) : Prop :=
  pl ≡ₚ wordFrequencies /\ StronglySorted (fun p q => p_Value q <= p_Value p) pl.

(** The distance of [v] from the drop point [x] on the ring. *)
Definition ring_distance (x v : Z) : Z :=
  let sub1 := Z.abs (v - x) in
  let sub2 := maxValue - sub1 in
  if sub1 <? sub2 then sub1 else sub2.

(** [common.BytesToAddress(randomHash[12:]).Hash().Big()] *)
Definition drop_point (randomHash : Hash) : Z := randomHash mod 2 ^ 160.

Definition first_k (k : Z) (pl : list Pair) : list Address :=
  (fun p => BigToAddress (p_Key p)) <$> take (Z.to_nat k) pl.

Definition vl_ValidatorByDistance (addr : list Z) (k : Z) (randomHash : Hash)
    (res : list Address) : Prop :=
  exists pl, rankByWordCount ((fun v => mkPair v (ring_distance (drop_point randomHash) v)) <$> addr) pl
             /\ res = first_k k pl.

(** The total stake is the divisor: zero panics, and no result is related. *)
Definition vl_ValidatorByDistanceAndWeight (addr : list Z) (k : Z) (randomHash : Hash)
    (vl : ValidatorList) (res : list Address) : Prop :=
  vl_TotalStakeBalance vl <> 0 /\
  exists pl, rankByWordCount
      ((fun v => mkPair v (ring_distance (drop_point randomHash) v
                           * vl_StakeBalance (BigToAddress v) vl / vl_TotalStakeBalance vl)) <$> addr) pl
    /\ res = first_k k pl.

(** ** Collection around the drop point *)

(** [point.Cmp(lo) > 0 && point.Cmp(hi) < 0] *)
Definition within (point lo hi : Z) : bool := (lo <? point) && (point <? hi).

Definition covers (point : Z) (v : Validator) : bool :=
  match v_Weight v with
  | Some [a; b] => within point a b
  | Some [a; b; c; d] => within point a b || within point c d
  | _ => false
  end.

(** The loop of [CollectValidators] with its counter. *)
Fixpoint collect (point k count : Z) (vl : ValidatorList) : list Address :=
  match vl with
  | [] => []
  | v :: vl' =>
      if count =? k then []
      else if covers point v then v_Addr v :: collect point k (count + 1) vl'
      else collect point k count vl'
  end.

Section Draw.
  Context {CR : Crypto}.

Definition vl_CollectValidators (randomHash : Hash) (k : Z) (vl : ValidatorList) : outcome (list Address) :=
  d ← toECDSA randomHash;
  Ret (collect (PrivToAddress d) k 0 vl).

Definition vl_CollectValidatorsV3 (randomHash : Hash) (vl : ValidatorList) : outcome (list Address) :=
  d ← toECDSA randomHash;
  Ret (v_Addr <$> filter (fun v => covers (PrivToAddress d) v = true) vl).

(** ** Make-up *)

(** The loop that fills a short collection with validators it lacks. *)
Definition make_up (vl : ValidatorList) (validators : list Address) (diffCount : Z) : list Address :=
  fst (foldl (fun '(validators, diffCount) v =>
         let flg := existsb (fun vv => vv =? v_Addr v) validators in
         if negb flg && (0 <? diffCount) then (validators ++ [v_Addr v], diffCount - 1)
         else (validators, diffCount)) (validators, diffCount) vl).

Definition vl_RandomValidatorV2 (k : Z) (randomHash : Hash) (vl : ValidatorList) : list Address :=
  match vl_CollectValidators randomHash k vl with
  | Ret validators => make_up vl validators (k - Z.of_nat (length validators))
  | _ => []
  end.

(** [Balance * weight] of each validator; an index past [weights] panics. *)
Fixpoint weighted (vl : ValidatorList) (weights : list Z) (newValSet : ValidatorList)
    : outcome ValidatorList :=
  match vl, weights with
  | [], _ => Ret newValSet
  | v :: vl', w :: weights' =>
      weighted vl' weights' (snd (vl_AddValidator (v_Addr v) (v_Balance v * w) 0 newValSet))
  | _ :: _, [] => Panic
  end.

(** The pass over neighbours of equal weight; [a] is the element at index [i]. *)
Fixpoint swap_pass (randomAmt : Z) (a : Validator) (rest : list Validator) : list Validator :=
  match rest with
  | [] => [a]
  | b :: rest' =>
      if (v_Balance a =? v_Balance b)
         && (Z.abs (randomAmt - v_Addr a) <? Z.abs (randomAmt - v_Addr b))
      then b :: swap_pass randomAmt a rest'
      else a :: swap_pass randomAmt b rest'
  end.

Definition swap_equal (randomAmt : Z) (vl : ValidatorList) : ValidatorList :=
  match vl with
  | [] => []
  | a :: rest => swap_pass randomAmt a rest
  end.

Definition vl_MakeUpValidators (validators : list Address) (weights : list Z) (randomHash : Hash)
    (diffCount : Z) (vl : ValidatorList) : outcome (list Address) :=
  newValSet ← weighted vl weights [];
  Ret (make_up (swap_equal randomHash newValSet) validators diffCount).

(** ** Weighted random choice *)

Fixpoint selectAddress_from (sum rand : Z) (vl : ValidatorList) : outcome Address :=
  match vl with
  | [] => Err "select address error"
  | v :: vl' =>
      let sum := sum + v_Balance v in
      if rand <=? sum then Ret (v_Addr v) else selectAddress_from sum rand vl'
  end.

Definition vl_selectAddress (rand : Z) (vl : ValidatorList) : outcome Address :=
  selectAddress_from 0 rand vl.

(** The [num] rounds of the selection on the working copy. *)
Fixpoint select_rounds (num : nat) (hash : bytes) (tempValidators : ValidatorList)
    : outcome (list Address) :=
  match num with
  | O => Ret []
  | S num =>
      let total := vl_TotalStakeBalance tempValidators in
      let hash := Keccak256 hash in
      if total =? 0 then Panic
      else
        address ← vl_selectAddress (SetBytes hash mod total) tempValidators;
        rest ← select_rounds num hash
                 (snd (vl_RemoveValidator address (vl_StakeBalance address tempValidators)
                         tempValidators));
        Ret (address :: rest)
  end.

Definition vl_SelectRandom11AddressV2 (num : Z) (hash : bytes) (vl : ValidatorList)
    : outcome (list Address) :=
  let tempValidators := vl_DeepCopy vl in
  if Z.of_nat (length tempValidators) <? num then Ret (v_Addr <$> tempValidators)
  else select_rounds (Z.to_nat num) hash tempValidators.

(** The validators of the given addresses, in the order of the addresses. *)
Definition pick_validators (validators : list Address) (vl : ValidatorList) : ValidatorList :=
  omap (fun a => snd <$> kfind v_Addr a vl) validators.

(** An error of the last step is dropped and leaves a nil slice. *)
Definition vl_RandomValidatorV4 (k : Z) (randomHash : Hash) (weights : list Z)
    (vl : ValidatorList) : outcome (list Address) :=
  if negb (Nat.eqb (length vl) (length weights)) then Err "RandomValidatorV4 invalid length"
  else
    validators ← vl_CollectValidatorsV3 randomHash vl;
    let diffCount := k - Z.of_nat (length validators) in
    validators ← (if 0 <? diffCount
                  then vl_MakeUpValidators validators weights randomHash diffCount vl
                  else Ret validators);
    match vl_SelectRandom11AddressV2 k (Hash_Bytes randomHash) (pick_validators validators vl) with
    | Ret selected => Ret selected
    | Err _ => Ret []
    | Panic => Panic
    end.

(** ** The earlier selection by repeated addresses *)

Record BalanceInfo : Type := mkBalanceInfo { bi_Address : Address; bi_Balance : Z }.

Definition vl_InitAddressArr (balanceInfos : list BalanceInfo) : list Address :=
  mjoin ((fun bi => replicate (Z.to_nat (u64 (Z.abs (bi_Balance bi / 7000000000000000000000))))
                              (bi_Address bi)) <$> balanceInfos).

(** [startIndex] is the first index of [address], [endIndex] the last one if there
    are at least two, and both start at zero. *)
Definition delete_bounds (addressArray : list Address) (address : Address) : nat * nat :=
  let '(_, startIndex, _, endIndex) :=
    foldl (fun '(i, startIndex, startFlag, endIndex) v =>
             if v =? address then
               if (startFlag : bool) then (S i, i, false, endIndex)
               else (S i, startIndex, startFlag, i)
             else (S i, startIndex, startFlag, endIndex))
      (0%nat, 0%nat, true, 0%nat) addressArray in
  (startIndex, endIndex).

Definition vl_DeleteAddress (addressArray : list Address) (address : Address) : list Address :=
  let '(startIndex, endIndex) := delete_bounds addressArray address in
  take startIndex addressArray ++ drop (S endIndex) addressArray.

Definition vl_RandomSelectAddress (addressArray : list Address) (hash : bytes) : outcome Address :=
  if Nat.eqb (length addressArray) 0 then Panic
  else match addressArray !! Z.to_nat (SetBytes hash mod Z.of_nat (length addressArray)) with
       | Some a => Ret a
       | None => Panic
       end.

Fixpoint vl_SelectRandom11Address (num : nat) (addressArray : list Address) (hash : bytes)
    : outcome (list Address) :=
  match num with
  | O => Ret []
  | S num =>
      let hash := Keccak256 hash in
      address ← vl_RandomSelectAddress addressArray hash;
      rest ← vl_SelectRandom11Address num (vl_DeleteAddress addressArray address) hash;
      Ret (address :: rest)
  end.

Definition vl_RandomValidatorV3 (k : Z) (randomHash : Hash) (vl : ValidatorList)
    : outcome (list Address) :=
  match vl_CollectValidatorsV3 randomHash vl with
  | Ret validators =>
      let validators := make_up vl validators (k - Z.of_nat (length validators)) in
      let balanceInfos := (fun a => mkBalanceInfo a (vl_StakeBalance a vl)) <$> validators in
      vl_SelectRandom11Address (Z.to_nat k) (vl_InitAddressArr balanceInfos) (Hash_Bytes randomHash)
  | _ => Ret []
  end.
End Draw.

(** * Properties *)

(** ** Make-up *)

Lemma make_up_foldl vl validators d :
  make_up vl validators d =
  fst (foldl (fun '(validators, diffCount) v =>
         let flg := existsb (fun vv => vv =? v_Addr v) validators in
         if negb flg && (0 <? diffCount) then (validators ++ [v_Addr v], diffCount - 1)
         else (validators, diffCount)) (validators, d) vl).
Proof. done. Qed.

Lemma existsb_eqb_elem_of (a : Z) l : existsb (fun x => x =? a) l = true <-> a ∈ l.
Proof.
  rewrite existsb_exists, list_elem_of_In. split.
  - intros (x & Hx & ->%Z.eqb_eq). done.
  - intros H. exists a. by rewrite Z.eqb_refl.
Qed.

(** Make-up appends the first missing addresses of the list, at most [d] of them. *)
Lemma make_up_spec vl validators d :
  NoDup (keys v_Addr vl) ->
  make_up vl validators d =
  validators ++ take (Z.to_nat d) (filter (fun a => a ∉ validators) (keys v_Addr vl)).
Proof.
  rewrite make_up_foldl. revert validators d.
  induction vl as [|v vl IH]; intros vs d Hnd; simpl; [by rewrite firstn_nil, app_nil_r|].
  apply NoDup_cons in Hnd as [Hv Hnd]. rewrite filter_cons.
  pose proof (existsb_eqb_elem_of (v_Addr v) vs) as Hex.
  destruct (existsb _ vs) eqn:E; simpl.
  - rewrite decide_False by (intros H; apply H; by apply Hex). by apply IH.
  - rewrite decide_True by (intros H; apply Hex in H; congruence).
    destruct (Z.ltb_spec 0 d) as [Hd|Hd].
    + rewrite IH by done. rewrite <- app_assoc. f_equal.
      replace (Z.to_nat d) with (S (Z.to_nat (d - 1))) by lia. simpl. f_equal. f_equal.
      apply list_filter_ext. intros x Hx.
      rewrite elem_of_app, list_elem_of_singleton. split; [tauto|].
      intros H [?|?]; [done|]. subst. done.
    + rewrite IH by done. by replace (Z.to_nat d) with 0%nat by lia.
Qed.

(** ** One weighted choice *)

Lemma selectAddress_from_spec sum rand vl :
  match selectAddress_from sum rand vl with
  | Ret a => exists i v, vl !! i = Some v /\ v_Addr v = a
      /\ rand <= sum + sumZ v_Balance (take (S i) vl)
      /\ (forall j, (0 < j <= i)%nat -> sum + sumZ v_Balance (take j vl) < rand)
  | Err _ => forall j, (0 < j <= length vl)%nat -> sum + sumZ v_Balance (take j vl) < rand
  | Panic => False
  end.
Proof.
  revert sum. induction vl as [|v vl IH]; intros sum; simpl; [lia|].
  destruct (Z.leb_spec rand (sum + v_Balance v)) as [Hle|Hgt].
  - exists 0%nat, v. simpl. repeat split; [lia|lia].
  - specialize (IH (sum + v_Balance v)).
    destruct (selectAddress_from _ _ vl) as [a| |]; [|intros [|j] Hj; [lia|]|done].
    + destruct IH as (i & w & Hi & Ha & Hle & Hlt). exists (S i), w. simpl in *.
      repeat split; [done|done|lia|]. intros [|j] Hj; [lia|]. simpl.
      destruct j as [|j]; [simpl; lia|]. specialize (Hlt (S j) ltac:(lia)). simpl in *. lia.
    + simpl. destruct j as [|j]; [simpl; lia|]. specialize (IH (S j) ltac:(lia)). lia.
Qed.

(** A choice below the total stake always succeeds with a listed validator. *)
Lemma selectAddress_total rand vl :
  vl <> [] -> rand <= sumZ v_Balance vl ->
  exists i v, vl !! i = Some v /\ vl_selectAddress rand vl = Ret (v_Addr v).
Proof.
  intros Hne Hr. unfold vl_selectAddress. pose proof (selectAddress_from_spec 0 rand vl) as H.
  destruct (selectAddress_from 0 rand vl) as [a| |]; [|exfalso|done].
  - destruct H as (i & v & Hi & <- & _). eauto.
  - specialize (H (length vl)). rewrite firstn_all in H.
    assert (0 < length vl)%nat by (destruct vl; simpl; [done|lia]). lia.
Qed.

(** ** Removal of the chosen validator *)

Definition stakes_positive (vl : ValidatorList) : Prop := Forall (fun v => 0 < v_Balance v) vl.

(** The stake looked up for an address covers the stake of its own entry. *)
Definition stake_dominates (vl : ValidatorList) : Prop :=
  forall v, v ∈ vl -> v_Balance v <= vl_StakeBalance (v_Addr v) vl.

Lemma strictly_sorted_le vl i j v w :
  strictly_sorted vl_Less vl -> vl !! i = Some v -> vl !! j = Some w -> (i <= j)%nat ->
  v_Balance w <= v_Balance v.
Proof.
  intros Hs Hi Hj Hij. destruct (decide (i = j)) as [->|Hne]; [simplify_eq; lia|].
  assert (vl_Less v w = true) as Hl.
  { revert i j Hi Hj Hij Hne. induction Hs as [|x l Hs IH Hx]; intros [|i] [|j] Hi Hj Hij Hne;
      simplify_eq/=; try lia.
    - rewrite Forall_forall in Hx. apply Hx. by eapply list_elem_of_lookup_2.
    - apply (IH i j); [done|done|lia|lia]. }
  revert Hl. unfold vl_Less. case_match; lia.
Qed.

(** In a sorted list the first validator matching an address or proxy comes no
    later than the validator with that address, so its stake is at least as large. *)
Lemma sorted_stake_dominates vl : strictly_sorted vl_Less vl -> stake_dominates vl.
Proof.
  intros Hs v Hv. apply list_elem_of_lookup in Hv as [j Hj]. unfold vl_StakeBalance.
  destruct (list_find (vl_match (v_Addr v)) vl) as [[i w]|] eqn:E.
  - apply list_find_Some in E as (Hi & _ & Hmin).
    apply (strictly_sorted_le vl i j w v Hs Hi Hj).
    destruct (decide (i <= j)%nat) as [|Hgt]; [done|].
    exfalso. apply (Hmin j v Hj); [lia|by left].
  - exfalso. apply list_find_None in E. rewrite Forall_forall in E.
    apply (E v); [by eapply list_elem_of_lookup_2|by left].
Qed.

(** Without a proxy that is another validator's address the lookup is exact. *)
Definition no_foreign_proxy (vl : ValidatorList) : Prop :=
  forall v w, v ∈ vl -> w ∈ vl -> v_Proxy v = v_Addr w -> v = w.

Lemma no_foreign_stake vl v :
  NoDup (keys v_Addr vl) -> no_foreign_proxy vl -> v ∈ vl ->
  vl_StakeBalance (v_Addr v) vl = v_Balance v.
Proof.
  intros Hnd Hnf Hv. unfold vl_StakeBalance.
  destruct (list_find (vl_match (v_Addr v)) vl) as [[i w]|] eqn:E.
  - apply list_find_Some in E as (Hi & Hm & _). assert (Hw : w ∈ vl) by by eapply list_elem_of_lookup_2.
    destruct Hm as [Ha|Hp]; [|by rewrite (Hnf w v Hw Hv Hp)].
    pose proof (kmap_lookup_Some v_Addr vl (v_Addr v)) as Hk.
    pose proof (proj2 (Hk v Hnd) (conj Hv eq_refl)). pose proof (proj2 (Hk w Hnd) (conj Hw Ha)).
    congruence.
  - exfalso. apply list_find_None in E. rewrite Forall_forall in E. apply (E v Hv). by left.
Qed.

Lemma remove_selected vl v :
  NoDup (keys v_Addr vl) -> stake_dominates vl -> v ∈ vl ->
  exists i, vl !! i = Some v /\
    snd (vl_RemoveValidator (v_Addr v) (vl_StakeBalance (v_Addr v) vl) vl) = vl_sort (delete i vl).
Proof.
  intros Hnd Hdom Hv. pose proof (Hdom v Hv) as Hle. unfold vl_RemoveValidator.
  destruct (kfind_is_Some v_Addr (v_Addr v) vl) as (i & w & Hf).
  { by apply list_elem_of_fmap_2. }
  rewrite Hf. apply kfind_Some in Hf as (Hi & Hw & _).
  assert (w = v) as ->.
  { pose proof (kmap_lookup_Some v_Addr vl (v_Addr v)) as Hk.
    pose proof (proj2 (Hk v Hnd) (conj Hv eq_refl)).
    pose proof (proj2 (Hk w Hnd) (conj (list_elem_of_lookup_2 _ _ _ Hi) Hw)). congruence. }
  exists i. split; [done|]. simpl.
  destruct (Z.ltb_spec (v_Balance v - vl_StakeBalance (v_Addr v) vl) ValidatorBase) as [|Hge]; [done|].
  unfold ValidatorBase in Hge. lia.
Qed.

Lemma keys_delete_Permutation vl i v :
  vl !! i = Some v -> keys v_Addr vl ≡ₚ v_Addr v :: keys v_Addr (delete i vl).
Proof. intros Hi. by rewrite (delete_Permutation vl i v Hi) at 1. Qed.

Section Rounds.
  Context {CR : Crypto}.

Lemma select_rounds_correct num hash vl :
  NoDup (keys v_Addr vl) -> stakes_positive vl -> stake_dominates vl -> (num <= length vl)%nat ->
  exists res, select_rounds num hash vl = Ret res
    /\ length res = num /\ NoDup res /\ (forall a, a ∈ res -> a ∈ keys v_Addr vl).
Proof.
  revert hash vl. induction num as [|num IH]; intros hash vl Hnd Hpos Hdom Hlen; simpl.
  { exists []. split_and!; [done|done|constructor|]. intros a Ha. by apply elem_of_nil in Ha. }
  rewrite vl_TotalStakeBalance_sum.
  assert (Hne : vl <> []) by (destruct vl; simpl in *; [lia|done]).
  assert (0 < sumZ v_Balance vl) as Htot.
  { destruct vl as [|v vl]; [done|]. inversion_clear Hpos as [|? ? Hv Hrest]. simpl.
    enough (0 <= sumZ v_Balance vl) by lia.
    apply sumZ_nonneg. eapply Forall_impl; [exact Hrest|]. simpl. lia. }
  rewrite (proj2 (Z.eqb_neq _ _)) by lia.
  destruct (selectAddress_total (SetBytes (Keccak256 hash) mod sumZ v_Balance vl) vl Hne)
    as (j & v & Hj & Hsel).
  { pose proof (Z.mod_pos_bound (SetBytes (Keccak256 hash)) _ Htot). lia. }
  rewrite Hsel. simpl.
  destruct (remove_selected vl v Hnd Hdom (list_elem_of_lookup_2 _ _ _ Hj)) as (i & Hi & ->).
  pose proof (keys_delete_Permutation vl i v Hi) as Hk.
  destruct (sorted_delete_spec vl_Less v_Addr vl i v Hnd Hi) as [[Hnd' Hs'] _].
  pose proof (delete_Permutation vl i v Hi) as Hp.
  destruct (IH (Keccak256 hash) (vl_sort (delete i vl))) as (res & -> & Hl & Hndr & Hin).
  - done.
  - unfold stakes_positive, vl_sort in *. rewrite sort_Sort_Permutation.
    rewrite Hp in Hpos. by inversion_clear Hpos.
  - by apply sorted_stake_dominates.
  - unfold vl_sort. rewrite sort_Sort_Permutation. rewrite Hp in Hlen. simpl in Hlen. lia.
  - exists (v_Addr v :: res). simpl. split_and!; [done|lia| |].
    + apply NoDup_cons. split; [|done]. intros Hv%Hin. rewrite (sort_keys vl_Less v_Addr) in Hv.
      rewrite Hk in Hnd. by apply NoDup_cons in Hnd as [? _].
    + intros a [->|Ha]%elem_of_cons; rewrite Hk; [left|right].
      rewrite <- (sort_keys vl_Less v_Addr). by apply Hin.
Qed.

(** ** Selection on a copy *)

Lemma DeepCopy_StakeBalance a vl : vl_StakeBalance a (vl_DeepCopy vl) = vl_StakeBalance a vl.
Proof.
  unfold vl_StakeBalance. induction vl as [|v vl IH]; simpl; [done|].
  destruct (decide (vl_match a v)) as [Hm|Hm].
  - by rewrite decide_True.
  - rewrite decide_False by done. fold (vl_DeepCopy vl).
    destruct (list_find _ (vl_DeepCopy vl)) as [[]|], (list_find _ vl) as [[]|]; simpl in *; done.
Qed.

Lemma select_copy_correct num hash vl :
  NoDup (keys v_Addr vl) -> stakes_positive vl -> stake_dominates vl -> 0 <= num ->
  exists res, vl_SelectRandom11AddressV2 num hash vl = Ret res
    /\ Z.of_nat (length res) = Z.min num (Z.of_nat (length vl))
    /\ NoDup res /\ (forall a, a ∈ res -> a ∈ keys v_Addr vl).
Proof.
  intros Hnd Hpos Hdom Hnum. unfold vl_SelectRandom11AddressV2.
  assert (Hlen : length (vl_DeepCopy vl) = length vl) by apply length_fmap.
  rewrite Hlen. destruct (Z.ltb_spec (Z.of_nat (length vl)) num) as [Hlt|Hge].
  - exists (keys v_Addr vl). change (v_Addr <$> vl_DeepCopy vl) with (keys v_Addr (vl_DeepCopy vl)).
    rewrite DeepCopy_keys. split_and!; [done| |done|done].
    unfold keys. rewrite length_fmap. lia.
  - destruct (select_rounds_correct (Z.to_nat num) hash (vl_DeepCopy vl)) as (res & -> & Hl & Hr & Hin).
    + by rewrite DeepCopy_keys.
    + unfold stakes_positive, vl_DeepCopy in *. apply Forall_fmap. exact Hpos.
    + intros v Hv. rewrite DeepCopy_StakeBalance. unfold vl_DeepCopy in Hv.
      apply list_elem_of_fmap in Hv as (w & -> & Hw). exact (Hdom w Hw).
    + lia.
    + rewrite DeepCopy_keys in Hin. exists res. split_and!; [done|lia|done|done].
Qed.

(** ** The committee *)

Lemma pick_validators_spec vs vl :
  NoDup (keys v_Addr vl) -> (forall a, a ∈ vs -> a ∈ keys v_Addr vl) ->
  keys v_Addr (pick_validators vs vl) = vs /\ (forall v, v ∈ pick_validators vs vl -> v ∈ vl).
Proof.
  intros Hnd. unfold pick_validators. induction vs as [|a vs IH]; intros Hin; simpl.
  { split; [done|]. intros v Hv. by apply elem_of_nil in Hv. }
  destruct (kfind_is_Some v_Addr a vl (Hin a ltac:(left))) as (i & w & Hf).
  rewrite Hf. simpl. apply kfind_Some in Hf as (Hi & <- & _).
  destruct IH as [IHk IHin]; [intros b Hb; apply Hin; by right|].
  split; [unfold keys in *; simpl; by f_equal|].
  intros v [->|Hv]%elem_of_cons; [by eapply list_elem_of_lookup_2|by apply IHin].
Qed.

Lemma weighted_spec vl ws acc :
  length ws = length vl -> NoDup (keys v_Addr acc ++ keys v_Addr vl) ->
  exists r, weighted vl ws acc = Ret r /\ keys v_Addr r ≡ₚ keys v_Addr acc ++ keys v_Addr vl.
Proof.
  revert ws acc. induction vl as [|v vl IH]; intros [|w ws] acc Hlen Hnd; simplify_eq/=.
  - exists acc. by rewrite app_nil_r.
  - assert (Hk : keys v_Addr (snd (vl_AddValidator (v_Addr v) (v_Balance v * w) 0 acc))
                 ≡ₚ keys v_Addr acc ++ [v_Addr v]).
    { unfold vl_AddValidator. rewrite (proj2 (kfind_None _ _ _)).
      - simpl. rewrite (sort_keys vl_Less v_Addr), keys_app. done.
      - intros Hv. apply NoDup_app in Hnd as (_ & Hd & _). apply (Hd _ Hv). left. }
    destruct (IH ws (snd (vl_AddValidator (v_Addr v) (v_Balance v * w) 0 acc)) Hlen) as (r & Hr & Hkr).
    + rewrite Hk, <- app_assoc. done.
    + exists r. split; [done|]. rewrite Hkr, Hk, <- app_assoc. done.
Qed.

Lemma swap_pass_Permutation r a rest : swap_pass r a rest ≡ₚ a :: rest.
Proof.
  revert a. induction rest as [|b rest IH]; intros a; simpl; [done|].
  case_match; rewrite IH; constructor. done.
Qed.

Lemma swap_equal_Permutation r vl : swap_equal r vl ≡ₚ vl.
Proof. destruct vl; simpl; [done|]. apply swap_pass_Permutation. Qed.

Lemma split_members (vs l : list Z) :
  NoDup vs -> NoDup l -> (forall a, a ∈ vs -> a ∈ l) -> l ≡ₚ vs ++ filter (fun a => a ∉ vs) l.
Proof.
  intros Hvs Hl Hin. apply NoDup_Permutation; [done| |].
  - apply NoDup_app. split_and!; [done| |by apply NoDup_filter].
    intros a Ha [? _]%list_elem_of_filter. done.
  - intros a. rewrite elem_of_app, list_elem_of_filter.
    pose proof (Hin a). destruct (decide (a ∈ vs)); tauto.
Qed.

(** The candidates handed to the final selection: all collected validators, and
    at least [k] of them when the list has as many. *)
Lemma candidates_spec k vs ws h vl :
  NoDup (keys v_Addr vl) -> length vl = length ws -> NoDup vs ->
  (forall a, a ∈ vs -> a ∈ keys v_Addr vl) ->
  exists vs',
    (if 0 <? k - Z.of_nat (length vs)
     then vl_MakeUpValidators vs ws h (k - Z.of_nat (length vs)) vl else Ret vs) = Ret vs'
    /\ NoDup vs' /\ (forall a, a ∈ vs' -> a ∈ keys v_Addr vl)
    /\ Z.min k (Z.of_nat (length vs')) = Z.min k (Z.of_nat (length vl)).
Proof.
  intros Hnd Hlen Hvs Hin.
  assert (Hle : (length vs <= length vl)%nat).
  { replace (length vl) with (length (keys v_Addr vl)) by apply length_fmap.
    apply submseteq_length, NoDup_submseteq; done. }
  destruct (Z.ltb_spec 0 (k - Z.of_nat (length vs))) as [Hd|Hd].
  2:{ exists vs. split_and!; [done|done|done|lia]. }
  unfold vl_MakeUpValidators.
  destruct (weighted_spec vl ws [] ltac:(done) Hnd) as (r & -> & Hk). simpl in Hk |- *.
  set (l := keys v_Addr (swap_equal h r)).
  assert (Hl : l ≡ₚ keys v_Addr vl) by (unfold l; by rewrite swap_equal_Permutation, Hk).
  assert (Hndl : NoDup l) by by rewrite Hl.
  rewrite make_up_spec by done. fold l.
  pose proof (split_members vs l Hvs Hndl ltac:(intros a Ha; rewrite Hl; by apply Hin)) as Hsplit.
  set (fl := filter (fun a => a ∉ vs) l) in *.
  set (d := Z.to_nat (k - Z.of_nat (length vs))).
  exists (vs ++ take d fl). split; [done|].
  assert (Hlens : length vl = (length vs + length fl)%nat).
  { rewrite <- length_app, <- Hsplit, Hl. unfold keys. by rewrite length_fmap. }
  split_and!.
  - rewrite Hsplit in Hndl. rewrite <- (take_drop d fl), app_assoc in Hndl.
    by apply NoDup_app in Hndl as [? _].
  - intros a [Ha|Ha]%elem_of_app; [by apply Hin|].
    rewrite <- Hl, Hsplit. apply elem_of_app. right.
    apply elem_of_take in Ha as (i & Hi & _). by eapply list_elem_of_lookup_2.
  - rewrite length_app, length_take. lia.
Qed.

Lemma no_foreign_pick vs vl :
  NoDup (keys v_Addr vl) -> (forall a, a ∈ vs -> a ∈ keys v_Addr vl) -> NoDup vs ->
  no_foreign_proxy vl -> stake_dominates (pick_validators vs vl).
Proof.
  intros Hnd Hin Hvs Hnf. destruct (pick_validators_spec vs vl Hnd Hin) as [Hk Hsub].
  intros v Hv. rewrite no_foreign_stake; [lia|by rewrite Hk| |done].
  intros w1 w2 H1 H2 Hp. apply Hnf; auto.
Qed.

(** The committee drawn by [RandomValidatorV4] has exactly
    [min k (number of validators)] members, all different and all on the list, for
    every hash function, random hash in the key range and coefficient vector of the
    right length, provided every stake is positive and no validator's proxy is the
    address of another validator. *)
Lemma RandomValidatorV4_draw (k h : Z) (ws : list Z) (vl : ValidatorList) :
  NoDup (keys v_Addr vl) -> stakes_positive vl -> no_foreign_proxy vl ->
  length vl = length ws -> 0 <= k -> 0 < h < secp256k1N ->
  exists res, vl_RandomValidatorV4 k h ws vl = Ret res
    /\ Z.of_nat (length res) = Z.min k (Z.of_nat (length vl))
    /\ NoDup res /\ (forall a, a ∈ res -> a ∈ keys v_Addr vl).
Proof.
  intros Hnd Hpos Hnf Hlen Hk [Hh0 HhN]. unfold vl_RandomValidatorV4.
  rewrite (proj2 (Nat.eqb_eq _ _) Hlen). simpl.
  unfold vl_CollectValidatorsV3, toECDSA.
  rewrite (proj2 (Z.leb_gt _ _) HhN), (proj2 (Z.leb_gt _ _) Hh0). simpl.
  set (vs := v_Addr <$> filter _ vl).
  assert (NoDup vs /\ forall a, a ∈ vs -> a ∈ keys v_Addr vl) as [Hvs Hin].
  { assert (Hsub : vs `sublist_of` keys v_Addr vl)
      by (unfold vs, keys; apply sublist_fmap, sublist_filter).
    split; [by eapply sublist_NoDup|]. intros a Ha. by eapply elem_of_sublist. }
  destruct (candidates_spec k vs ws h vl Hnd Hlen Hvs Hin) as (vs' & -> & Hvs' & Hin' & Hmin). simpl.
  destruct (pick_validators_spec vs' vl Hnd Hin') as [Hkeys Hsub].
  assert (Hpl : length (pick_validators vs' vl) = length vs').
  { rewrite <- Hkeys at 2. unfold keys. by rewrite length_fmap. }
  destruct (select_copy_correct k (Hash_Bytes h) (pick_validators vs' vl))
    as (res & -> & Hl & Hr & Hsel).
  - by rewrite Hkeys.
  - apply Forall_forall. intros v Hv%Hsub. unfold stakes_positive in Hpos.
    rewrite Forall_forall in Hpos. by apply Hpos.
  - by apply no_foreign_pick.
  - done.
  - exists res. rewrite Hkeys in Hsel. split_and!; [done|lia|done|auto].
Qed.

(** On a list kept in order by the list operations, the weighted draw
    [SelectRandom11AddressV2] succeeds and returns [min num (length)] different
    listed validators, whatever the hash function and whatever proxies are set. *)
Theorem SelectRandom11AddressV2_correct (num : Z) (hash : bytes) (vl : ValidatorList) :
  vl_wf vl -> stakes_positive vl -> 0 <= num ->
  exists res, vl_SelectRandom11AddressV2 num hash vl = Ret res
    /\ Z.of_nat (length res) = Z.min num (Z.of_nat (length vl))
    /\ NoDup res /\ (forall a, a ∈ res -> a ∈ keys v_Addr vl).
Proof.
  intros [Hnd Hs] Hpos Hnum. apply select_copy_correct; [done|done| |done].
  by apply sorted_stake_dominates.
Qed.
End Rounds.

(** ** Concrete instances *)

(** A hash function with a constant value and a key map with a constant address. *)
Definition constCrypto (hash point : Z) : Crypto :=
  {| Keccak256 := fun _ => be_bytes 32 hash; PrivToAddress := fun _ => point |}.

Definition twoValidators : ValidatorList :=
  [mkValidator 2 (2 * ValidatorBase) 7 None; mkValidator 1 ValidatorBase 0 (Some [0; 9])].

Lemma twoValidators_no_foreign : no_foreign_proxy twoValidators.
Proof.
  intros v w Hv Hw. unfold twoValidators in *. rewrite !elem_of_cons, elem_of_nil in Hv, Hw.
  destruct Hv as [->|[->|[]]], Hw as [->|[->|[]]]; simpl; lia.
Qed.

Lemma twoValidators_wf : vl_wf twoValidators /\ stakes_positive twoValidators.
Proof. split; [split|]; repeat constructor; set_solver by lia. Qed.

Lemma RandomValidatorV4_draw_witness :
  exists res, vl_RandomValidatorV4 (CR := constCrypto 11 5) 1 7 [70; 70] twoValidators = Ret res
    /\ Z.of_nat (length res) = Z.min 1 (Z.of_nat (length twoValidators))
    /\ NoDup res /\ (forall a, a ∈ res -> a ∈ keys v_Addr twoValidators).
Proof.
  apply (RandomValidatorV4_draw (CR := constCrypto 11 5) 1 7 [70; 70] twoValidators);
    [apply twoValidators_wf|apply twoValidators_wf|apply twoValidators_no_foreign
    |reflexivity|lia|unfold secp256k1N; lia].
Defined.

Lemma SelectRandom11AddressV2_correct_witness :
  exists res, vl_SelectRandom11AddressV2 (CR := constCrypto 11 5) 2 [1; 2] twoValidators = Ret res
    /\ Z.of_nat (length res) = Z.min 2 (Z.of_nat (length twoValidators))
    /\ NoDup res /\ (forall a, a ∈ res -> a ∈ keys v_Addr twoValidators).
Proof.
  apply (SelectRandom11AddressV2_correct (CR := constCrypto 11 5) 2 [1; 2] twoValidators);
    [apply twoValidators_wf|apply twoValidators_wf|lia].
Defined.

(** Eleven validators; the proxy of validator 10 is validator 20. *)
Definition proxiedValidators : ValidatorList :=
  mkValidator 20 (3 * ValidatorBase) 0 None
  :: ((fun a => mkValidator a ValidatorBase 0 None) <$> [109; 108; 107; 106; 105; 104; 103; 102; 101])
  ++ [mkValidator 10 ValidatorBase 20 (Some [0; maxValue])].

(** The condition on proxies of the committee theorem is needed.  There is an ordered list of
    eleven validators with full stakes, in which one validator's proxy is another
    validator, and a draw of eleven on it that names that validator twice: the stake
    subtracted for the drawn validator is the stake of the validator it is proxy
    of, and leaves it on the list. *)
Theorem RandomValidatorV4_repeats :
  exists (CR : Crypto) (h : Z) (ws : list Z) (vl : ValidatorList) (res : list Address),
    vl_wf vl /\ Forall (fun v => ValidatorBase <= v_Balance v) vl
    /\ length vl = 11%nat /\ length ws = 11%nat /\ 0 < h < secp256k1N
    /\ vl_RandomValidatorV4 11 h ws vl = Ret res /\ ~ NoDup res.
Proof.
  exists (constCrypto (ValidatorBase + 1) 5), 7, (replicate 11 70), proxiedValidators.
  eexists. split_and!; [split| | | | | |vm_compute; reflexivity|].
  - apply (bool_decide_unpack _). vm_compute. done.
  - unfold strictly_sorted, proxiedValidators. repeat constructor.
  - unfold proxiedValidators, ValidatorBase. repeat constructor; simpl; lia.
  - done.
  - done.
  - lia.
  - unfold secp256k1N; lia.
  - apply (bool_decide_unpack _). vm_compute. done.
Qed.

(** ** Ranking *)

Definition ranked (p q : Pair) : Prop := p_Value q <= p_Value p.

#[export] Instance ranked_dec p q : Decision (ranked p q).
Proof. unfold ranked. apply _. Defined.

Lemma rankByWordCount_exists l : exists pl, rankByWordCount l pl.
Proof.
  exists (merge_sort ranked l). split; [apply merge_sort_Permutation|].
  assert (Transitive ranked) by (intros ???; unfold ranked; lia).
  assert (Total ranked) by (intros ??; unfold ranked; lia).
  by apply (StronglySorted_merge_sort ranked).
Qed.

Lemma StronglySorted_app_le {A : Type} (R : A -> A -> Prop) l1 l2 :
  StronglySorted R (l1 ++ l2) -> forall x y, x ∈ l1 -> y ∈ l2 -> R x y.
Proof.
  induction l1 as [|z l1 IH]; simpl; intros Hs x y Hx Hy; [by apply not_elem_of_nil in Hx|].
  apply StronglySorted_inv in Hs as [Hs Hz]. apply elem_of_cons in Hx as [->|Hx]; [|by eauto].
  rewrite Forall_forall in Hz. apply Hz, elem_of_app. by right.
Qed.

(** The first [k] of a ranking of [addr] by [f]: the rest ranks no higher. *)
Lemma first_k_spec (f : Z -> Z) addr pl k :
  rankByWordCount ((fun v => mkPair v (f v)) <$> addr) pl ->
  exists chosen others,
    addr ≡ₚ chosen ++ others /\ first_k k pl = BigToAddress <$> chosen /\
    length chosen = Nat.min (Z.to_nat k) (length addr) /\
    forall c o, c ∈ chosen -> o ∈ others -> f o <= f c.
Proof.
  intros [Hp Hs]. apply Permutation_map_inv in Hp as (l & -> & Hl).
  exists (take (Z.to_nat k) l), (drop (Z.to_nat k) l). rewrite take_drop.
  split_and!; [done| | |].
  - unfold first_k. change (map ?f l) with (f <$> l).
    rewrite <- fmap_take, <- list_fmap_compose. done.
  - by rewrite length_take, <- (Permutation_length Hl).
  - intros c o Hc Ho. rewrite <- (take_drop (Z.to_nat k) l) in Hs.
    change (map ?f (?l1 ++ ?l2)) with (f <$> (l1 ++ l2)) in Hs. rewrite fmap_app in Hs.
    apply (StronglySorted_app_le _ _ _ Hs (mkPair c (f c)) (mkPair o (f o)));
      by apply (list_elem_of_fmap_2 (fun v => mkPair v (f v))).
Qed.

(** [ValidatorByDistance] always has a result, and every result it can give (the
    order of equal distances is the iteration order of a Go map) consists of the
    [k] addresses FARTHEST from the drop point: no address left out is farther than
    one that is returned. *)
Theorem ValidatorByDistance_farthest (addr : list Z) (k : Z) (randomHash : Hash) :
  (exists res, vl_ValidatorByDistance addr k randomHash res) /\
  forall res, vl_ValidatorByDistance addr k randomHash res ->
  exists chosen others,
    addr ≡ₚ chosen ++ others /\ res = BigToAddress <$> chosen /\
    length chosen = Nat.min (Z.to_nat k) (length addr) /\
    forall c o, c ∈ chosen -> o ∈ others ->
      ring_distance (drop_point randomHash) o <= ring_distance (drop_point randomHash) c.
Proof.
  split.
  - edestruct rankByWordCount_exists as [pl Hpl]. by exists (first_k k pl), pl.
  - intros res (pl & Hpl & ->). by apply first_k_spec.
Qed.

(** ** Address ranges *)

(** [CalculateAddressRangeV2] on a list whose total stake is not zero gives every
    validator of the address (or with that proxy) the arc of the ring that starts
    at the address and has the computed length, open at both ends, and touches no
    other entry; a length of a whole turn or more only counts modulo the turn. *)
Theorem CalculateAddressRangeV2_arc (address : Address) (stakeAmt weight : Z) (vl : ValidatorList) :
  vl_TotalStakeBalance vl <> 0 ->
  let len := weight * (stakeAmt * maxValue) / vl_TotalStakeBalance vl * 10 in
  exists vl', vl_CalculateAddressRangeV2 address stakeAmt weight vl = Ret vl' /\
    forall i v, vl !! i = Some v ->
    exists v', vl' !! i = Some v' /\
      (v_Addr v', v_Balance v', v_Proxy v') = (v_Addr v, v_Balance v, v_Proxy v) /\
      (~ vl_match address v -> v' = v) /\
      (vl_match address v -> forall point,
         covers point v' = true <->
         if decide (address + len < maxValue) then address < point < address + len
         else address < point < maxValue \/ 0 < point < (address + len) mod maxValue).
Proof.
  intros Htot len. unfold vl_CalculateAddressRangeV2.
  rewrite (proj2 (Z.eqb_neq _ _) Htot). eexists. split; [done|].
  intros i v Hi. fold len. unfold assign_range.
  assert (Hadd : forall w l u, l !! i = Some u ->
    vl_AddAddrRange address w l !! i =
    Some (if decide (vl_match address u) then with_weight (Some w) u else u)).
  { intros w l u Hu. unfold vl_AddAddrRange. rewrite list_lookup_fmap, Hu. simpl. f_equal.
    unfold vl_match. case_decide; case_match; try done; lia. }
  set (vl1 := if maxValue <? len then _ else vl).
  assert (exists u, vl1 !! i = Some u /\
    (v_Addr u, v_Balance u, v_Proxy u) = (v_Addr v, v_Balance v, v_Proxy v) /\
    (~ vl_match address v -> u = v)) as (u & Hu & Heq & Hsame).
  { unfold vl1. destruct (maxValue <? len); [rewrite (Hadd _ _ v Hi)|eauto].
    eexists. split; [done|]. by case_decide. }
  assert (Hm : vl_match address u <-> vl_match address v).
  { unfold vl_match. simplify_eq. split; intros [?|?]; (left; congruence) || (right; congruence). }
  destruct (Z.ltb_spec (address + len) maxValue) as [Hlt|Hge];
    (eexists; split; [by apply Hadd|]); (case_decide as Hmu; (split; [exact Heq|]);
     (split; [intros; tauto|]); intros Hmv point; [|tauto]);
    unfold covers; simpl; unfold within, minValue; [rewrite decide_True by lia|rewrite decide_False by lia]; lia.
Qed.

Lemma CalculateAddressRangeV2_arc_witness :
  exists vl', vl_CalculateAddressRangeV2 5 ValidatorBase 70 twoValidators = Ret vl'.
Proof.
  destruct (CalculateAddressRangeV2_arc 5 ValidatorBase 70 twoValidators) as (vl' & H & _);
    [vm_compute; discriminate|by exists vl'].

Defined.

(** A validator whose range is longer than the whole ring is meant to get all of
    it ([minValue, maxValue]), but the following branch overwrites that range: there
    is a list and a point of the ring, other than the validator's own address, that
    the validator does not cover. *)
Theorem CalculateAddressRangeV2_full_turn_lost :
  exists vl address stakeAmt weight vl' v point,
    maxValue < weight * (stakeAmt * maxValue) / vl_TotalStakeBalance vl * 10 /\
    vl_CalculateAddressRangeV2 address stakeAmt weight vl = Ret vl' /\
    vl_GetValidatorByAddr address vl' = v /\ v_Addr v = address /\
    minValue < point < maxValue /\ point <> address /\ covers point v = false.
Proof.
  exists [mkValidator (3 * 2 ^ 158) (15 * ValidatorBase) 0 None; mkValidator 7 (85 * ValidatorBase) 0 None],
    (3 * 2 ^ 158), (15 * ValidatorBase), 1.
  eexists _, _, (2 ^ 159).
  split; [vm_compute; reflexivity|]. split; [vm_compute; reflexivity|].
  split; [vm_compute; reflexivity|]. split; [reflexivity|].
  split; [split; vm_compute; reflexivity|]. split; [vm_compute; discriminate|vm_compute; reflexivity].
Qed.

(** ** The repeated addresses of [RandomValidatorV3] *)

Definition bounds_step (address : Address) : nat * nat * bool * nat -> Address -> nat * nat * bool * nat :=
  fun '(i, startIndex, startFlag, endIndex) v =>
    if v =? address then
      if (startFlag : bool) then (S i, i, false, endIndex)
      else (S i, startIndex, startFlag, i)
    else (S i, startIndex, startFlag, endIndex).

Lemma bounds_step_other a l i s f e :
  a ∉ l -> foldl (bounds_step a) (i, s, f, e) l = ((i + length l)%nat, s, f, e).
Proof.
  revert i. induction l as [|x l IH]; intros i Ha; simpl; [by rewrite Nat.add_0_r|].
  apply not_elem_of_cons in Ha as [Hx Ha].
  rewrite (proj2 (Z.eqb_neq x a)) by done. rewrite IH by done.
  by replace (S i + length l)%nat with (i + S (length l))%nat by lia.
Qed.

Lemma bounds_step_block a n i s e :
  foldl (bounds_step a) (i, s, false, e) (replicate n a) =
  ((i + n)%nat, s, false, if n is O then e else (i + n - 1)%nat).
Proof.
  revert i e. induction n as [|n IH]; intros i e; simpl; [by rewrite Nat.add_0_r|].
  rewrite Z.eqb_refl, IH.
  replace (S i + n)%nat with (i + S n)%nat by lia.
  destruct n; [by replace i with (i + 1 - 1)%nat at 2 by lia|done].
Qed.

(** [DeleteAddress] takes out the whole block of an address that occurs at least
    twice, which is how [InitAddressArr] lays the addresses out.  An address with a
    single occurrence is not taken out: the end index stays zero, and unless it
    stands at the front the array even grows. *)
Theorem DeleteAddress_block (a : Address) (pre post : list Address) (n : nat) :
  a ∉ pre -> a ∉ post ->
  vl_DeleteAddress (pre ++ replicate (2 + n) a ++ post) a = pre ++ post /\
  vl_DeleteAddress (pre ++ replicate 1 a ++ post) a = pre ++ tail (pre ++ a :: post).
Proof.
  intros Hpre Hpost.
  assert (Hb : forall m, delete_bounds (pre ++ replicate (S m) a ++ post) a =
    (length pre, if m is O then 0%nat else (length pre + m)%nat)).
  { intros m. unfold delete_bounds. change (fun '(_, _, _, _) => _) with (bounds_step a).
    rewrite !foldl_app, bounds_step_other by done. simpl.
    rewrite Z.eqb_refl, bounds_step_block, bounds_step_other by done.
    destruct m; f_equal; lia. }
  unfold vl_DeleteAddress. change (2 + n)%nat with (S (S n)).
  split; rewrite Hb, take_app_length; [f_equal|by destruct pre].
  rewrite (app_assoc pre), drop_app_ge by (rewrite length_app, length_replicate; lia).
  rewrite length_app, length_replicate. by replace (_ - _)%nat with 0%nat by lia.
Qed.

Lemma DeleteAddress_block_witness :
  vl_DeleteAddress [4; 4; 4; 7; 7; 9] 7 = [4; 4; 4; 9] /\
  vl_DeleteAddress [4; 4; 4; 7; 9] 7 = [4; 4; 4; 4; 4; 7; 9].
Proof. apply (DeleteAddress_block 7 [4; 4; 4] [9] 0); set_solver. Defined.
