(* ===== verification/Stakers.v ===== *)
(** The list of CSBT creators, the pledge lists of an account and the pool of
    active miners: [core/types/stake_account.go], [core/types/stake_extension.go],
    [core/types/validator_extension.go], [core/types/account_extension.go] and
    [core/types/active_miner_pool.go].

    Prefixes: [sl_] for [*StakerList], [sel_] for [*StakersExtensionList], [vel_]
    for [*ValidatorsExtensionList], [aml_] for [*ActiveMinerList]. *)
From S2P Require Import Prelude KeyedList Common Params Validators Selection.

Open Scope Z_scope.

(** ** StakerList *)

Record Staker : Type := mkStaker { s_Addr : Address; s_Balance : Z }.

Notation StakerList := (list Staker) (only parsing).

#[export] Instance Staker_eq_dec : EqDecision Staker.
Proof. solve_decision. Defined.

Definition NewStaker (addr : Address) (balance : Z) : Staker := mkStaker addr balance.

Definition sl_Less (a b : Staker) : bool := s_Addr a <? s_Addr b.

Definition sl_sort : StakerList -> StakerList := sort_Sort sl_Less.

Definition sl_AddStaker (addr : Address) (balance : Z) (sl : StakerList) : bool * StakerList :=
  match kfind s_Addr addr sl with
  | Some (i, v) => (true, sl_sort (<[i := mkStaker (s_Addr v) (s_Balance v + balance)]> sl))
  | None => (true, sl_sort (sl ++ [NewStaker addr balance]))
  end.

Definition sl_RemoveStaker (addr : Address) (balance : Z) (sl : StakerList) : bool * StakerList :=
  match kfind s_Addr addr sl with
  | Some (i, v) =>
      if balance <? s_Balance v
      then (true, sl_sort (<[i := mkStaker (s_Addr v) (s_Balance v - balance)]> sl))
      else (true, sl_sort (delete i sl))
  | None => (false, sl)
  end.

Definition sl_CancelStaker (addr : Address) (sl : StakerList) : bool * StakerList :=
  match kfind s_Addr addr sl with
  | Some (i, _) => (true, sl_sort (delete i sl))
  | None => (false, sl)
  end.

Definition sl_IsExist (addr : Address) (sl : StakerList) : bool :=
  existsb (fun v => s_Addr v =? addr) sl.

Definition sl_Len (sl : StakerList) : Z := Z.of_nat (length sl).

Definition sl_TotalStakeBalance (sl : StakerList) : Z :=
  foldl (fun total v => total + s_Balance v) 0 sl.

Definition sl_StakeBalance (address : Address) (sl : StakerList) : Z :=
  match kfind s_Addr address sl with
  | Some (_, st) => s_Balance st
  | None => 0
  end.

(** The total stake is the divisor: zero panics, and no result is related. *)
Definition sl_ValidatorByDistanceAndWeight (addr : list Z) (k : Z) (randomHash : Hash)
    (sl : StakerList) (res : list Address) : Prop :=
  sl_TotalStakeBalance sl <> 0 /\
  exists pl, rankByWordCount
      ((fun v => mkPair v (ring_distance (drop_point randomHash) v
                           * sl_StakeBalance (BigToAddress v) sl / sl_TotalStakeBalance sl)) <$> addr) pl
    /\ res = first_k k pl.

Definition sl_DeepCopy (sl : StakerList) : StakerList :=
  (fun s => mkStaker (s_Addr s) (s_Balance s)) <$> sl.

Fixpoint sl_selectAddress_from (sum rand : Z) (sl : StakerList) : outcome Address :=
  match sl with
  | [] => Err "select address error"
  | s :: sl' =>
      let sum := sum + s_Balance s in
      if rand <=? sum then Ret (s_Addr s) else sl_selectAddress_from sum rand sl'
  end.

Definition sl_selectAddress (rand : Z) (sl : StakerList) : outcome Address :=
  sl_selectAddress_from 0 rand sl.

Definition sl_GetByIndex (i : Z) (sl : StakerList) : Staker :=
  if sl_Len sl <=? i then mkStaker 0 0 else default (mkStaker 0 0) (sl !! Z.to_nat i).

Definition HashToBigIntSilce (addrs : list Address) : list Z := addrs.

Definition SortAddr (addrs : list Address) : list Z := sort_Sort Z.ltb addrs.

Section SelectStakers.
  Context {CR : Crypto}.

(** The [num] rounds of the selection on the working copy. *)
Fixpoint sl_select_rounds (num : nat) (hash : bytes) (tempStakers : StakerList)
    : outcome (list Address) :=
  match num with
  | O => Ret []
  | S num =>
      let total := sl_TotalStakeBalance tempStakers in
      let hash := Keccak256 hash in
      if total =? 0 then Panic
      else
        address ← sl_selectAddress (SetBytes hash mod total) tempStakers;
        rest ← sl_select_rounds num hash
                 (snd (sl_RemoveStaker address (sl_StakeBalance address tempStakers) tempStakers));
        Ret (address :: rest)
  end.

Definition sl_SelectRandom4Address (num : Z) (hash : bytes) (sl : StakerList)
    : outcome (list Address) :=
  let tempStakers := sl_DeepCopy sl in
  if Z.of_nat (length tempStakers) <? num then Ret (s_Addr <$> tempStakers)
  else sl_select_rounds (Z.to_nat num) hash tempStakers.
End SelectStakers.

(** ** Pledge lists

    [StakerExtension] and [ValidatorExtension] have the same fields, and their lists
    the same methods, so one record and one set of loops serve both. *)

Record Pledge : Type := mkPledge { pl_Addr : Address; pl_Balance : Z; pl_BlockNumber : Z }.

#[export] Instance Pledge_eq_dec : EqDecision Pledge.
Proof. solve_decision. Defined.

Notation StakerExtension := Pledge (only parsing).
Notation ValidatorExtension := Pledge (only parsing).
Notation StakersExtensionList := (list Pledge) (only parsing).
Notation ValidatorsExtensionList := (list Pledge) (only parsing).

Definition add_pledge (addr : Address) (balance blocknumber : Z) (l : list Pledge) : bool * list Pledge :=
  match kfind pl_Addr addr l with
  | Some (i, v) => (true, <[i := mkPledge (pl_Addr v) (pl_Balance v + balance) blocknumber]> l)
  | None => (true, l ++ [mkPledge addr balance blocknumber])
  end.

Definition remove_pledge (addr : Address) (balance : Z) (l : list Pledge) : bool * list Pledge :=
  match kfind pl_Addr addr l with
  | Some (i, v) =>
      if balance <? pl_Balance v
      then (true, <[i := mkPledge (pl_Addr v) (pl_Balance v - balance) (pl_BlockNumber v)]> l)
      else (true, delete i l)
  | None => (false, l)
  end.

Definition cancel_pledge (addr : Address) (l : list Pledge) : bool * list Pledge :=
  match kfind pl_Addr addr l with
  | Some (i, _) => (true, delete i l)
  | None => (false, l)
  end.

Definition pledge_copy (l : list Pledge) : list Pledge :=
  (fun s => mkPledge (pl_Addr s) (pl_Balance s) (pl_BlockNumber s)) <$> l.

Definition pledge_exists (addr : Address) (l : list Pledge) : bool :=
  existsb (fun s => pl_Addr s =? addr) l.

Definition pledge_balance (addr : Address) (l : list Pledge) : Z :=
  match kfind pl_Addr addr l with
  | Some (_, s) => pl_Balance s
  | None => 0
  end.

Definition sel_AddStakerPledge := add_pledge.
Definition sel_RemoveStakerPledge := remove_pledge.
Definition sel_CancelStakerPledge := cancel_pledge.
Definition sel_DeepCopy := pledge_copy.
Definition sel_IsExist := pledge_exists.
Definition sel_GetBalance := pledge_balance.
Definition sel_GetLen (sl : StakersExtensionList) : Z := Z.of_nat (length sl).

Definition vel_AddValidatorPledge := add_pledge.
Definition vel_RemoveValidatorPledge := remove_pledge.
Definition vel_CancelValidatorPledge := cancel_pledge.
Definition vel_DeepCopy := pledge_copy.
Definition vel_IsExist := pledge_exists.
Definition vel_GetBalance := pledge_balance.
Definition vel_GetLen (vl : ValidatorsExtensionList) : Z := Z.of_nat (length vl).
Definition vel_GetAllBalance (vl : ValidatorsExtensionList) : Z :=
  foldl (fun totalBalance s => totalBalance + pl_Balance s) 0 vl.

(** ** Account extensions *)

Record MintDeep : Type := mkMintDeep {
  md_UserMint : option Z;       (* [None] is the nil pointer, here and below *)
  md_OfficialMint : option Z;
}.

Record WormholesExtension : Type := mkWormholesExtension {
  w_PledgedBalance : option Z;
  w_PledgedBlockNumber : option Z;
  w_Coefficient : Z;
  w_StakerExtension : StakersExtensionList;
  w_ValidatorExtension : ValidatorsExtensionList;
  w_ValidatorProxy : Address;
}.

Definition set_w_PledgedBalance (x : option Z) (r : WormholesExtension) : WormholesExtension :=
  mkWormholesExtension x (w_PledgedBlockNumber r) (w_Coefficient r) (w_StakerExtension r)
    (w_ValidatorExtension r) (w_ValidatorProxy r).
Definition set_w_PledgedBlockNumber (x : option Z) (r : WormholesExtension) : WormholesExtension :=
  mkWormholesExtension (w_PledgedBalance r) x (w_Coefficient r) (w_StakerExtension r)
    (w_ValidatorExtension r) (w_ValidatorProxy r).
Definition set_w_Coefficient (x : Z) (r : WormholesExtension) : WormholesExtension :=
  mkWormholesExtension (w_PledgedBalance r) (w_PledgedBlockNumber r) x (w_StakerExtension r)
    (w_ValidatorExtension r) (w_ValidatorProxy r).
Definition set_w_StakerExtension (x : StakersExtensionList) (r : WormholesExtension) : WormholesExtension :=
  mkWormholesExtension (w_PledgedBalance r) (w_PledgedBlockNumber r) (w_Coefficient r) x
    (w_ValidatorExtension r) (w_ValidatorProxy r).
Definition set_w_ValidatorExtension (x : ValidatorsExtensionList) (r : WormholesExtension) : WormholesExtension :=
  mkWormholesExtension (w_PledgedBalance r) (w_PledgedBlockNumber r) (w_Coefficient r)
    (w_StakerExtension r) x (w_ValidatorProxy r).
Definition set_w_ValidatorProxy (x : Address) (r : WormholesExtension) : WormholesExtension :=
  mkWormholesExtension (w_PledgedBalance r) (w_PledgedBlockNumber r) (w_Coefficient r)
    (w_StakerExtension r) (w_ValidatorExtension r) x.

Definition worm_DeepCopy (worm : WormholesExtension) : WormholesExtension :=
  mkWormholesExtension (w_PledgedBalance worm) (w_PledgedBlockNumber worm) (w_Coefficient worm)
    (sel_DeepCopy (w_StakerExtension worm)) (vel_DeepCopy (w_ValidatorExtension worm))
    (w_ValidatorProxy worm).

Record AccountCSBT : Type := mkAccountCSBT { csbt_Owner : Address; csbt_Creator : Address }.

Definition csbt_DeepCopy (csbt : AccountCSBT) : AccountCSBT :=
  mkAccountCSBT (csbt_Owner csbt) (csbt_Creator csbt).

Record AccountStaker : Type := mkAccountStaker {
  as_Mint : MintDeep;
  as_Validators : ValidatorList;
  as_CSBTCreators : StakerList;
}.

Definition staker_DeepCopy (staker : AccountStaker) : AccountStaker :=
  mkAccountStaker (mkMintDeep (md_UserMint (as_Mint staker)) (md_OfficialMint (as_Mint staker)))
    (vl_DeepCopy (as_Validators staker)) (sl_DeepCopy (as_CSBTCreators staker)).

(** ** ActiveMinerList *)

Record ActiveMiner : Type := mkActiveMiner { am_Address : Address; am_Balance : Z; am_Height : Z }.

Notation ActiveMinerList := (list ActiveMiner) (only parsing).

Definition NewActiveMiner (addr : Address) (balance height : Z) : ActiveMiner :=
  mkActiveMiner addr balance height.

Definition aml_Less (a b : ActiveMiner) : bool := am_Address a <? am_Address b.

Definition aml_sort : ActiveMinerList -> ActiveMinerList := sort_Sort aml_Less.

(** The stake of an address already in the pool is left as it was. *)
Definition aml_AddAndUpdateActiveAddr (addr : Address) (balance height : Z) (l : ActiveMinerList)
    : bool * ActiveMinerList :=
  match kfind am_Address addr l with
  | Some (i, v) => (true, aml_sort (<[i := mkActiveMiner (am_Address v) (am_Balance v) height]> l))
  | None => (true, aml_sort (l ++ [NewActiveMiner addr balance height]))
  end.

Definition aml_GetIndex (addr : Address) (l : ActiveMinerList) : bool * Z :=
  match kfind am_Address addr l with
  | Some (i, _) => (true, Z.of_nat i)
  | None => (false, -1)
  end.

Definition aml_RemoveActiveAddr (addr : Address) (l : ActiveMinerList) : outcome (bool * ActiveMinerList) :=
  match aml_GetIndex addr l with
  | (true, index) => Ret (true, delete (Z.to_nat index) l)
  | (false, _) => Err "RemoveActiveAddr: The address was not found"
  end.

Definition aml_ConvertToBigInt (validators l : ActiveMinerList) : list Z :=
  if Nat.eqb (length validators) 0 then am_Address <$> l else am_Address <$> validators.

Definition aml_TotalStakeBalance (l : ActiveMinerList) : Z :=
  foldl (fun total v => total + am_Balance v) 0 l.

Definition aml_StakeBalance (address : Address) (l : ActiveMinerList) : Z :=
  match kfind am_Address address l with
  | Some (_, v) => am_Balance v
  | None => 0
  end.

Definition aml_ValidatorByDistanceAndWeight (addr : list Z) (k : Z) (randomHash : Hash)
    (l : ActiveMinerList) (res : list Address) : Prop :=
  aml_TotalStakeBalance l <> 0 /\
  exists pl, rankByWordCount
      ((fun v => mkPair v (ring_distance (drop_point randomHash) v
                           * aml_StakeBalance (BigToAddress v) l / aml_TotalStakeBalance l)) <$> addr) pl
    /\ res = first_k k pl.

(** The inner loop of [InsertSort]: [current] moves left past every strictly larger
    stake of the prefix, whose last element is the head of [rprefix]. *)
Fixpoint insert_left (current : ActiveMiner) (rprefix : list ActiveMiner) : list ActiveMiner :=
  match rprefix with
  | [] => [current]
  | m :: r => if am_Balance current <? am_Balance m then m :: insert_left current r
              else current :: m :: r
  end.

Definition InsertSort (arr : ActiveMinerList) : outcome ActiveMinerList :=
  match arr with
  | [] | [_] => Err "active miners less than one"
  | m :: rest => Ret (reverse (foldl (fun rprefix current => insert_left current rprefix) [m] rest))
  end.

Definition aml_SortByPledgeAmount (l : ActiveMinerList) : outcome ActiveMinerList :=
  sorted ← InsertSort l; Ret sorted.

Definition aml_GetByAddress (addr : Address) (al : ActiveMinerList) : Z :=
  match kfind am_Address addr al with
  | Some (i, _) => Z.of_nat i
  | None => -1
  end.

Definition aml_GetByIndex (i : Z) (al : ActiveMinerList) : ActiveMiner :=
  if Z.of_nat (length al) <=? i then mkActiveMiner 0 0 0
  else default (mkActiveMiner 0 0 0) (al !! Z.to_nat i).

(** * Properties *)

(** ** The creator list *)

#[export] Instance sl_Less_KeyOrder : KeyOrder sl_Less s_Addr.
Proof. split; unfold sl_Less; intros; lia. Qed.

#[export] Instance aml_Less_KeyOrder : KeyOrder aml_Less am_Address.
Proof. split; unfold aml_Less; intros; lia. Qed.

Inductive sl_op : Type :=
| SOpAdd (addr : Address) (balance : Z)
| SOpRemove (addr : Address) (balance : Z)
| SOpCancel (addr : Address).

Definition sl_run (op : sl_op) (sl : StakerList) : StakerList :=
  snd match op with
      | SOpAdd a b => sl_AddStaker a b sl
      | SOpRemove a b => sl_RemoveStaker a b sl
      | SOpCancel a => sl_CancelStaker a sl
      end.

Definition sop_addr (op : sl_op) : Address :=
  match op with SOpAdd a _ | SOpRemove a _ | SOpCancel a => a end.

(** What an operation does to the entry of its address. *)
Definition sop_entry (op : sl_op) (o : option Staker) : option Staker :=
  match op, o with
  | SOpAdd a b, Some s => Some (mkStaker (s_Addr s) (s_Balance s + b))
  | SOpAdd a b, None => Some (mkStaker a b)
  | SOpRemove _ b, Some s =>
      if b <? s_Balance s then Some (mkStaker (s_Addr s) (s_Balance s - b)) else None
  | _, _ => None
  end.

(** The contract of the list: a map from addresses to entries. *)
Definition creators_run (op : sl_op) (m : gmap Address Staker) : gmap Address Staker :=
  partial_alter (sop_entry op) (sop_addr op) m.

Definition sl_wf : StakerList -> Prop := sorted_wf sl_Less s_Addr.

Lemma sl_run_refines op sl :
  sl_wf sl -> sl_wf (sl_run op sl) /\ kmap s_Addr (sl_run op sl) = creators_run op (kmap s_Addr sl).
Proof.
  intros Hwf. pose proof (proj1 Hwf) as Hnd. unfold creators_run. rewrite partial_alter_case, kmap_find.
  destruct op as [a b|a b|a]; simpl; unfold sl_run, sl_AddStaker, sl_RemoveStaker, sl_CancelStaker;
    (destruct (kfind s_Addr a sl) as [[i v]|] eqn:Hf;
     [apply kfind_Some in Hf as (Hi & <- & _) | apply kfind_None in Hf]); simpl.
  all: sorted_update sl_Less s_Addr.
Qed.

(** After any sequence of [AddStaker], [RemoveStaker] and [CancelStaker] from the
    empty list the creators are sorted by address without repetition, and hold exactly
    the entries of the map on which each operation rewrites its own address. *)
Theorem StakerList_refines_map (ops : list sl_op) :
  let sl := foldl (fun sl op => sl_run op sl) [] ops in
  NoDup (keys s_Addr sl) /\ strictly_sorted sl_Less sl /\
  kmap s_Addr sl = foldl (fun m op => creators_run op m) ∅ ops.
Proof.
  enough (sl_wf (foldl (fun sl op => sl_run op sl) [] ops) /\
          kmap s_Addr (foldl (fun sl op => sl_run op sl) [] ops) =
          foldl (fun m op => creators_run op m) ∅ ops) as [[? ?] ?] by done.
  induction ops as [|op ops [IHw IHm]] using rev_ind; [split; [split; constructor|done]|].
  rewrite !foldl_app. simpl. destruct (sl_run_refines op _ IHw) as [Hw ->]. by rewrite IHm.
Qed.

(** ** The draw of creators *)

Lemma sl_selectAddress_total sum rand sl :
  sl <> [] -> rand <= sum + sumZ s_Balance sl ->
  exists a, sl_selectAddress_from sum rand sl = Ret a /\ a ∈ keys s_Addr sl.
Proof.
  revert sum. induction sl as [|s sl IH]; intros sum Hne Hle; [done|]. simpl in *.
  destruct (Z.leb_spec rand (sum + s_Balance s)) as [|Hgt]; [exists (s_Addr s); split; [done|left]|].
  destruct sl as [|s' sl]; [simpl in *; lia|].
  destruct (IH (sum + s_Balance s)) as (a & -> & Ha); [done|lia|]. exists a. split; [done|by right].
Qed.

(** Taking its whole stake from a creator takes it off the list. *)
Lemma sl_remove_selected sl a :
  NoDup (keys s_Addr sl) -> a ∈ keys s_Addr sl ->
  exists i s, sl !! i = Some s /\ s_Addr s = a /\
    snd (sl_RemoveStaker a (sl_StakeBalance a sl) sl) = sl_sort (delete i sl).
Proof.
  intros Hnd Ha. destruct (kfind_is_Some s_Addr a sl Ha) as (i & s & Hf). exists i, s.
  unfold sl_RemoveStaker, sl_StakeBalance. rewrite Hf, Z.ltb_irrefl.
  apply kfind_Some in Hf as (Hi & Hs & _). done.
Qed.

Lemma sl_DeepCopy_id sl : sl_DeepCopy sl = sl.
Proof. unfold sl_DeepCopy. induction sl as [|[] sl IH]; [done|]. simpl. f_equal. exact IH. Qed.

Lemma pledge_copy_id l : pledge_copy l = l.
Proof. unfold pledge_copy. induction l as [|[] l IH]; [done|]. simpl. f_equal. exact IH. Qed.

Section Rounds.
  Context {CR : Crypto}.

Lemma sl_select_rounds_correct num hash sl :
  NoDup (keys s_Addr sl) -> Forall (fun s => 0 < s_Balance s) sl -> (num <= length sl)%nat ->
  exists res, sl_select_rounds num hash sl = Ret res
    /\ length res = num /\ NoDup res /\ (forall a, a ∈ res -> a ∈ keys s_Addr sl).
Proof.
  revert hash sl. induction num as [|num IH]; intros hash sl Hnd Hpos Hlen; simpl.
  { exists []. split_and!; [done|done|constructor|]. intros a Ha. by apply elem_of_nil in Ha. }
  assert (Htot : 0 < sl_TotalStakeBalance sl /\ sl <> []).
  { unfold sl_TotalStakeBalance. rewrite foldl_sumZ. destruct sl as [|s sl]; [simpl in *; lia|].
    inversion_clear Hpos as [|? ? Hs Hrest]. simpl. split; [|done].
    enough (0 <= sumZ s_Balance sl) by lia.
    apply sumZ_nonneg. eapply Forall_impl; [exact Hrest|]. simpl. lia. }
  destruct Htot as [Htot Hne]. rewrite (proj2 (Z.eqb_neq _ _)) by lia.
  destruct (sl_selectAddress_total 0 (SetBytes (Keccak256 hash) mod sl_TotalStakeBalance sl) sl Hne)
    as (a & Hsel & Ha).
  { pose proof (Z.mod_pos_bound (SetBytes (Keccak256 hash)) _ Htot) as Hm. revert Hm.
    unfold sl_TotalStakeBalance. rewrite foldl_sumZ. lia. }
  unfold sl_selectAddress. rewrite Hsel. simpl.
  destruct (sl_remove_selected sl a Hnd Ha) as (i & s & Hi & Hs & ->).
  pose proof (delete_Permutation sl i s Hi) as Hp.
  assert (Hk : keys s_Addr sl ≡ₚ a :: keys s_Addr (delete i sl)) by (rewrite Hp at 1; by rewrite <- Hs).
  unfold sl_sort. destruct (IH (Keccak256 hash) (sort_Sort sl_Less (delete i sl))) as (res & -> & Hl & Hr & Hin).
  - rewrite sort_keys. by apply keys_delete_NoDup.
  - rewrite sort_Sort_Permutation. rewrite Hp in Hpos. by inversion_clear Hpos.
  - rewrite sort_Sort_Permutation. rewrite Hp in Hlen. simpl in Hlen. lia.
  - rewrite Hk in Hnd. apply NoDup_cons in Hnd as [Hna _].
    exists (a :: res). simpl. split_and!; [done|lia| |].
    + apply NoDup_cons. split; [|done]. intros Hv%Hin. apply Hna. by rewrite <- (sort_keys sl_Less).
    + intros b [->|Hb]%elem_of_cons; rewrite Hk; [left|right]. rewrite <- (sort_keys sl_Less). by apply Hin.
Qed.

(** [SelectRandom4Address] on a creator list without repetition and with positive
    weights never fails: it returns exactly [min num (length)] different creators of
    the list, whatever the hash function. *)
Theorem SelectRandom4Address_correct (num : Z) (hash : bytes) (sl : StakerList) :
  NoDup (keys s_Addr sl) -> Forall (fun s => 0 < s_Balance s) sl -> 0 <= num ->
  exists res, sl_SelectRandom4Address num hash sl = Ret res
    /\ Z.of_nat (length res) = Z.min num (Z.of_nat (length sl))
    /\ NoDup res /\ (forall a, a ∈ res -> a ∈ keys s_Addr sl).
Proof.
  intros Hnd Hpos Hnum. unfold sl_SelectRandom4Address.
  rewrite sl_DeepCopy_id. destruct (Z.ltb_spec (Z.of_nat (length sl)) num) as [Hlt|Hge].
  - exists (keys s_Addr sl). unfold keys. rewrite length_fmap. split_and!; [done|lia|done|done].
  - destruct (sl_select_rounds_correct (Z.to_nat num) hash sl) as (res & -> & Hl & Hr & Hin); [done..|lia|].
    exists res. split_and!; [done|lia|done|done].
Qed.
End Rounds.

Lemma SelectRandom4Address_correct_witness :
  exists res, sl_SelectRandom4Address (CR := constCrypto 11 5) 2 [1; 2] [mkStaker 3 5; mkStaker 4 6; mkStaker 9 1] = Ret res
    /\ Z.of_nat (length res) = Z.min 2 3.
Proof.
  destruct (SelectRandom4Address_correct (CR := constCrypto 11 5) 2 [1; 2]
    [mkStaker 3 5; mkStaker 4 6; mkStaker 9 1]) as (res & H1 & H2 & _);
    [apply (bool_decide_unpack _); vm_compute; done|repeat constructor|lia|by exists res].
Defined.

(** ** Pledge lists *)

Lemma pledge_balance_map a l : pledge_balance a l = default 0 (pl_Balance <$> kmap pl_Addr l !! a).
Proof. unfold pledge_balance. rewrite kmap_find. by destruct (kfind pl_Addr a l) as [[]|]. Qed.

(** The total pledged on a list. *)
Definition pledge_total (l : list Pledge) : Z := sumZ pl_Balance l.

Lemma vel_GetAllBalance_total l : vel_GetAllBalance l = pledge_total l.
Proof. unfold vel_GetAllBalance. rewrite foldl_sumZ. done. Qed.

(** [AddStakerPledge] and [AddValidatorPledge]: the entry of the address gains the
    amount and the block number, every other entry is untouched. *)
Lemma add_pledge_spec a b n l :
  NoDup (keys pl_Addr l) ->
  let l' := snd (add_pledge a b n l) in
  NoDup (keys pl_Addr l') /\ pledge_total l' = pledge_total l + b /\
  kmap pl_Addr l' = <[a := mkPledge a (pledge_balance a l + b) n]> (kmap pl_Addr l).
Proof.
  intros Hnd l'. unfold l', add_pledge, pledge_total, pledge_balance.
  destruct (kfind pl_Addr a l) as [[i v]|] eqn:Hf; simpl.
  - apply kfind_Some in Hf as (Hi & <- & _).
    rewrite (keys_insert _ _ _ _ _ Hi), (sumZ_insert _ _ _ _ _ Hi), (kmap_insert _ _ _ _ _ Hnd Hi) by done.
    simpl. split_and!; [done|lia|done].
  - apply kfind_None in Hf. rewrite sumZ_snoc, keys_app, kmap_snoc by done.
    split_and!; [|done|done]. rewrite Permutation_app_comm. by apply NoDup_cons.
Qed.

(** [RemoveStakerPledge] and [RemoveValidatorPledge]: an entry whose whole balance,
    or more, is taken out disappears. *)
Lemma remove_pledge_spec a b l :
  NoDup (keys pl_Addr l) ->
  let l' := snd (remove_pledge a b l) in
  NoDup (keys pl_Addr l') /\
  pledge_total l' = pledge_total l - (if bool_decide (a ∈ keys pl_Addr l) then Z.min b (pledge_balance a l) else 0) /\
  kmap pl_Addr l' =
    partial_alter (fun o => v ← o; if b <? pl_Balance v
                                   then Some (mkPledge (pl_Addr v) (pl_Balance v - b) (pl_BlockNumber v))
                                   else None) a (kmap pl_Addr l).
Proof.
  intros Hnd l'. unfold l', remove_pledge, pledge_total, pledge_balance.
  rewrite partial_alter_case, kmap_find.
  destruct (kfind pl_Addr a l) as [[i v]|] eqn:Hf; simpl.
  - apply kfind_Some in Hf as (Hi & <- & _).
    rewrite bool_decide_true by (apply list_elem_of_fmap_2; by eapply list_elem_of_lookup_2).
    destruct (Z.ltb_spec b (pl_Balance v)); simpl.
    + rewrite (keys_insert _ _ _ _ _ Hi), (sumZ_insert _ _ _ _ _ Hi), (kmap_insert _ _ _ _ _ Hnd Hi) by done.
      simpl. split_and!; [done|lia|done].
    + rewrite (sumZ_delete _ _ _ _ Hi), (kmap_delete _ _ _ _ Hnd Hi).
      split_and!; [by apply keys_delete_NoDup|lia|done].
  - apply kfind_None in Hf. rewrite bool_decide_false by done.
    split_and!; [done|lia|]. symmetry. apply delete_id. by apply kmap_lookup_None.
Qed.

(** ** The pool of active miners *)

Definition am_le (a b : ActiveMiner) : Prop := am_Balance a <= am_Balance b.

Lemma insert_left_sorted c r :
  StronglySorted (flip am_le) r ->
  insert_left c r ≡ₚ c :: r /\ StronglySorted (flip am_le) (insert_left c r).
Proof.
  induction r as [|m r IH]; simpl; intros Hs; [by repeat constructor|].
  apply StronglySorted_inv in Hs as [Hs Hm]. destruct (IH Hs) as [Hp Hs'].
  destruct (Z.ltb_spec (am_Balance c) (am_Balance m)).
  - split; [rewrite Hp; constructor|]. constructor; [done|].
    rewrite Hp. constructor; [unfold flip, am_le; lia|done].
  - split; [done|]. constructor; [by constructor|]. constructor; [unfold flip, am_le; lia|].
    eapply Forall_impl; [exact Hm|]. unfold flip, am_le. simpl. lia.
Qed.

(** [InsertSort] rejects a pool of fewer than two miners and otherwise returns the
    same miners in non-decreasing order of stake. *)
Theorem InsertSort_sorts (arr : ActiveMinerList) :
  match InsertSort arr with
  | Ret res => (2 <= length arr)%nat /\ res ≡ₚ arr /\ StronglySorted am_le res
  | Err _ => (length arr < 2)%nat
  | Panic => False
  end.
Proof.
  unfold InsertSort. destruct arr as [|m [|m' rest]]; [simpl; lia..|].
  split; [simpl; lia|].
  assert (forall r, StronglySorted (flip am_le) r ->
    foldl (fun rprefix current => insert_left current rprefix) r (m' :: rest) ≡ₚ (m' :: rest) ++ r /\
    StronglySorted (flip am_le)
      (foldl (fun rprefix current => insert_left current rprefix) r (m' :: rest))) as H.
  { induction (m' :: rest) as [|c l IH]; simpl; intros r Hr; [done|].
    destruct (insert_left_sorted c r Hr) as [Hp Hs]. destruct (IH _ Hs) as [IHp IHs].
    split; [|done]. rewrite IHp, Hp. symmetry. apply Permutation_middle. }
  destruct (H [m]) as [Hp Hs]; [repeat constructor|]. split.
  - rewrite reverse_Permutation, Hp. apply Permutation_app_comm.
  - by apply StronglySorted_reverse.
Qed.
