(* ===== verification/AccessList.v ===== *)
(** The access list of a transaction: [core/state/access_list.go].

    [addresses] maps an address to the index of its slot set in [slots], or to -1
    when it has none.  Removal is only meant for the journal, which undoes the
    additions in reverse order; [al_undo] below shows that it then restores the
    list exactly. *)
From S2P Require Import Prelude Common.

Open Scope Z_scope.

Record accessList : Type := mkAccessList {
  al_addresses : gmap Address Z;
  al_slots : list (gset Hash);
}.

Definition newAccessList : accessList := mkAccessList ∅ [].

Definition al_ContainsAddress (address : Address) (al : accessList) : bool :=
  match al_addresses al !! address with Some _ => true | None => false end.

(** [al.slots[idx]]: an index out of range panics. *)
Definition al_slotmap (idx : Z) (al : accessList) : option (gset Hash) :=
  if idx <? 0 then None else al_slots al !! Z.to_nat idx.

(** [None] is a panic, here and in [al_AddSlot] and [al_DeleteSlot]. *)
Definition al_Contains (address : Address) (slot : Hash) (al : accessList) : option (bool * bool) :=
  match al_addresses al !! address with
  | None => Some (false, false)
  | Some idx =>
      if idx =? -1 then Some (true, false)
      else m ← al_slotmap idx al; Some (true, bool_decide (slot ∈ m))
  end.

Definition al_Copy (a : accessList) : accessList := mkAccessList (al_addresses a) (al_slots a).

Definition al_AddAddress (address : Address) (al : accessList) : bool * accessList :=
  match al_addresses al !! address with
  | Some _ => (false, al)
  | None => (true, mkAccessList (<[address := -1]> (al_addresses al)) (al_slots al))
  end.

Definition al_AddSlot (address : Address) (slot : Hash) (al : accessList)
    : option (bool * bool * accessList) :=
  let fresh addrChange :=
    Some (addrChange, true,
          mkAccessList (<[address := Z.of_nat (length (al_slots al))]> (al_addresses al))
            (al_slots al ++ [{[slot]}])) in
  match al_addresses al !! address with
  | None => fresh true
  | Some idx =>
      if idx =? -1 then fresh false
      else
        slotmap ← al_slotmap idx al;
        if decide (slot ∈ slotmap) then Some (false, false, al)
        else Some (false, true,
                   mkAccessList (al_addresses al) (<[Z.to_nat idx := {[slot]} ∪ slotmap]> (al_slots al)))
  end.

Definition al_DeleteSlot (address : Address) (slot : Hash) (al : accessList) : option accessList :=
  idx ← al_addresses al !! address;
  slotmap ← al_slotmap idx al;
  let slotmap := slotmap ∖ {[slot]} in
  let slots := <[Z.to_nat idx := slotmap]> (al_slots al) in
  if decide (slotmap = ∅)
  then Some (mkAccessList (<[address := -1]> (al_addresses al)) (take (Z.to_nat idx) slots))
  else Some (mkAccessList (al_addresses al) slots).

Definition al_DeleteAddress (address : Address) (al : accessList) : accessList :=
  mkAccessList (delete address (al_addresses al)) (al_slots al).

(** ** Well-formedness *)

(** Every index is -1 or points at a slot set, and no slot set is empty. *)
Definition al_wf (al : accessList) : Prop :=
  (forall a idx, al_addresses al !! a = Some idx ->
     idx = -1 \/ 0 <= idx < Z.of_nat (length (al_slots al))) /\
  Forall (fun m => m <> ∅) (al_slots al).

Lemma newAccessList_wf : al_wf newAccessList.
Proof. split; [|constructor]. intros a idx H. simpl in H. by rewrite lookup_empty in H. Qed.

Lemma al_slotmap_Some idx al :
  al_wf al -> 0 <= idx < Z.of_nat (length (al_slots al)) ->
  exists m, al_slotmap idx al = Some m /\ al_slots al !! Z.to_nat idx = Some m /\ m <> ∅.
Proof.
  intros [_ Hne] Hidx. unfold al_slotmap. rewrite (proj2 (Z.ltb_ge idx 0)) by lia.
  destruct (lookup_lt_is_Some_2 (al_slots al) (Z.to_nat idx)) as [m Hm]; [lia|].
  exists m. rewrite Forall_lookup in Hne. eauto.
Qed.

Lemma al_AddAddress_wf a al : al_wf al -> al_wf (snd (al_AddAddress a al)).
Proof.
  intros [Hi Hne]. unfold al_AddAddress. destruct (al_addresses al !! a); [done|].
  simpl. split; [|done]. simpl.
  intros b idx [[-> <-]|[_ Hb]]%lookup_insert_Some; [by left|by eapply Hi].
Qed.

(** Adding an address is undone by deleting it. *)
Lemma al_AddAddress_undo a al al' :
  al_AddAddress a al = (true, al') -> al_DeleteAddress a al' = al.
Proof.
  unfold al_AddAddress, al_DeleteAddress. destruct (al_addresses al !! a) eqn:Ha; [done|].
  intros [= <-]. simpl. rewrite delete_insert_id by done. by destruct al.
Qed.

(** A fresh slot set is appended; deleting its only slot cuts it off again. *)
Lemma al_DeleteSlot_fresh a k al n :
  n = Z.of_nat (length (al_slots al)) ->
  al_DeleteSlot a k (mkAccessList (<[a := n]> (al_addresses al)) (al_slots al ++ [{[k]}])) =
  Some (mkAccessList (<[a := -1]> (al_addresses al)) (al_slots al)).
Proof.
  intros ->. unfold al_DeleteSlot, al_slotmap. simpl. rewrite lookup_insert_eq. simpl.
  rewrite (proj2 (Z.ltb_ge _ 0)) by lia. rewrite Nat2Z.id, list_lookup_middle by done. simpl.
  rewrite decide_True by set_solver.
  rewrite insert_app_r_alt by lia. by rewrite take_app_length, insert_insert_eq.
Qed.

(** Adding a slot never panics on a well-formed list, keeps it well formed, and the
    deletions its two flags ask for restore the list exactly. *)
Lemma al_AddSlot_undo a k al :
  al_wf al ->
  exists ac sc al', al_AddSlot a k al = Some (ac, sc, al') /\ al_wf al' /\
    (sc = false -> ac = false /\ al' = al) /\
    (sc = true -> exists al1, al_DeleteSlot a k al' = Some al1 /\ al_wf al1 /\
       (if ac : bool then al_DeleteAddress a al1 else al1) = al).
Proof.
  intros Hwf. pose proof Hwf as [Hi Hne]. unfold al_AddSlot.
  set (fresh := mkAccessList (<[a:=_]> _) _).
  assert (Hfresh : al_wf fresh).
  { split; simpl.
    - intros b idx [[-> <-]|[_ Hb]]%lookup_insert_Some; rewrite length_app; simpl; [lia|].
      destruct (Hi b idx Hb); lia.
    - apply Forall_app. split; [done|]. repeat constructor. set_solver. }
  assert (Hmark : al_wf (mkAccessList (<[a := -1]> (al_addresses al)) (al_slots al))).
  { split; [|done]. simpl. intros b idx [[-> <-]|[_ Hb]]%lookup_insert_Some; [by left|by apply (Hi b)]. }
  destruct (al_addresses al !! a) as [idx|] eqn:Ha.
  - destruct (Z.eqb_spec idx (-1)) as [->|Hidx].
    + exists false, true, fresh. split_and!; [done|done|done|]. intros _.
      eexists. split; [by apply al_DeleteSlot_fresh|]. split; [done|]. rewrite insert_id by done. by destruct al.
    + destruct (Hi a idx Ha) as [|Hb]; [done|].
      destruct (al_slotmap_Some idx al Hwf Hb) as (m & Hm & Hl & Hmne). rewrite Hm. simpl.
      case_decide as Hk; [by exists false, false, al|].
      exists false, true. eexists. split; [done|]. split.
      { split; simpl; [intros b j Hj; rewrite length_insert; by apply (Hi b)|].
        apply Forall_insert; [done|set_solver]. }
      split; [done|]. intros _. exists al. split; [|done].
      unfold al_DeleteSlot, al_slotmap. simpl. rewrite Ha. simpl.
      rewrite (proj2 (Z.ltb_ge idx 0)) by lia. rewrite list_lookup_insert_eq by lia. simpl.
      replace (({[k]} ∪ m) ∖ {[k]}) with m by set_solver. rewrite decide_False by done.
      rewrite list_insert_insert_eq, list_insert_id by done. by destruct al.
  - exists true, true, fresh. split_and!; [done|done|done|]. intros _.
    eexists. split; [by apply al_DeleteSlot_fresh|]. split; [done|].
    unfold al_DeleteAddress. simpl. rewrite delete_insert_id by done. by destruct al.
Qed.
