(* ===== verification/StateTypes.v ===== *)
(** The world state and its journal, the data: [core/state/state_object.go],
    [core/state/statedb.go] and [core/state/journal.go].

    A trie is represented by the finite map it stores, and a storage root by the
    map of the trie it is the root of; [emptyRoot] is the empty map.  Reads of the
    database, the tries and the snapshot layer succeed, so the memoised [dbErr] is
    not part of the state; nor are the prefetcher and the timers, and the two
    buffers [snapAccounts] and [snapStorage], which are only written.

    A [*stateObject] is represented by its address: the live object is looked up in
    [stateObjects], and a dereference of a missing one is a panic.  Methods that
    change the state are computations in the monad [M], a function from the state to
    the result and the new state, or to [None] if the code panics. *)
From S2P Require Import Prelude KeyedList Common Params Validators Stakers AccessList.

Open Scope Z_scope.

Notation Storage := (gmap Hash Hash) (only parsing).

(** ** Accounts

    [newObject] replaces a nil balance, a nil code hash and a zero root by the empty
    ones; an [Account] has them in this normal form. *)

Record Account : Type := mkAccount {
  a_Nonce : Z;
  a_Balance : Z;
  a_Root : Storage;   (* the storage trie with this root *)
  a_CodeHash : Hash;
  a_Worm : option WormholesExtension;
  a_Csbt : option AccountCSBT;
  a_Staker : option AccountStaker;
  a_Extra : option bytes;
}.

Definition set_a_Nonce (x : Z) (r : Account) : Account :=
  mkAccount x (a_Balance r) (a_Root r) (a_CodeHash r) (a_Worm r) (a_Csbt r) (a_Staker r)
    (a_Extra r).
Definition set_a_Balance (x : Z) (r : Account) : Account :=
  mkAccount (a_Nonce r) x (a_Root r) (a_CodeHash r) (a_Worm r) (a_Csbt r) (a_Staker r) (a_Extra r).
Definition set_a_Root (x : Storage) (r : Account) : Account :=
  mkAccount (a_Nonce r) (a_Balance r) x (a_CodeHash r) (a_Worm r) (a_Csbt r) (a_Staker r)
    (a_Extra r).
Definition set_a_CodeHash (x : Hash) (r : Account) : Account :=
  mkAccount (a_Nonce r) (a_Balance r) (a_Root r) x (a_Worm r) (a_Csbt r) (a_Staker r) (a_Extra r).
Definition set_a_Worm (x : option WormholesExtension) (r : Account) : Account :=
  mkAccount (a_Nonce r) (a_Balance r) (a_Root r) (a_CodeHash r) x (a_Csbt r) (a_Staker r)
    (a_Extra r).
Definition set_a_Csbt (x : option AccountCSBT) (r : Account) : Account :=
  mkAccount (a_Nonce r) (a_Balance r) (a_Root r) (a_CodeHash r) (a_Worm r) x (a_Staker r)
    (a_Extra r).
Definition set_a_Staker (x : option AccountStaker) (r : Account) : Account :=
  mkAccount (a_Nonce r) (a_Balance r) (a_Root r) (a_CodeHash r) (a_Worm r) (a_Csbt r) x
    (a_Extra r).
Definition set_a_Extra (x : option bytes) (r : Account) : Account :=
  mkAccount (a_Nonce r) (a_Balance r) (a_Root r) (a_CodeHash r) (a_Worm r) (a_Csbt r) (a_Staker r)
    x.

(** ** State objects *)

Record stateObject : Type := mkStateObject {
  so_address : Address;
  so_data : Account;
  so_trie : option Storage;
  so_code : option bytes;
  so_originStorage : Storage;
  so_pendingStorage : Storage;
  so_dirtyStorage : Storage;
  so_fakeStorage : option Storage;
  so_dirtyCode : bool;
  so_suicided : bool;
  so_deleted : bool;
}.

Definition set_so_address (x : Address) (r : stateObject) : stateObject :=
  mkStateObject x (so_data r) (so_trie r) (so_code r) (so_originStorage r) (so_pendingStorage r)
    (so_dirtyStorage r) (so_fakeStorage r) (so_dirtyCode r) (so_suicided r) (so_deleted r).
Definition set_so_data (x : Account) (r : stateObject) : stateObject :=
  mkStateObject (so_address r) x (so_trie r) (so_code r) (so_originStorage r)
    (so_pendingStorage r) (so_dirtyStorage r) (so_fakeStorage r) (so_dirtyCode r) (so_suicided r)
    (so_deleted r).
Definition set_so_trie (x : option Storage) (r : stateObject) : stateObject :=
  mkStateObject (so_address r) (so_data r) x (so_code r) (so_originStorage r)
    (so_pendingStorage r) (so_dirtyStorage r) (so_fakeStorage r) (so_dirtyCode r) (so_suicided r)
    (so_deleted r).
Definition set_so_code (x : option bytes) (r : stateObject) : stateObject :=
  mkStateObject (so_address r) (so_data r) (so_trie r) x (so_originStorage r)
    (so_pendingStorage r) (so_dirtyStorage r) (so_fakeStorage r) (so_dirtyCode r) (so_suicided r)
    (so_deleted r).
Definition set_so_originStorage (x : Storage) (r : stateObject) : stateObject :=
  mkStateObject (so_address r) (so_data r) (so_trie r) (so_code r) x (so_pendingStorage r)
    (so_dirtyStorage r) (so_fakeStorage r) (so_dirtyCode r) (so_suicided r) (so_deleted r).
Definition set_so_pendingStorage (x : Storage) (r : stateObject) : stateObject :=
  mkStateObject (so_address r) (so_data r) (so_trie r) (so_code r) (so_originStorage r) x
    (so_dirtyStorage r) (so_fakeStorage r) (so_dirtyCode r) (so_suicided r) (so_deleted r).
Definition set_so_dirtyStorage (x : Storage) (r : stateObject) : stateObject :=
  mkStateObject (so_address r) (so_data r) (so_trie r) (so_code r) (so_originStorage r)
    (so_pendingStorage r) x (so_fakeStorage r) (so_dirtyCode r) (so_suicided r) (so_deleted r).
Definition set_so_fakeStorage (x : option Storage) (r : stateObject) : stateObject :=
  mkStateObject (so_address r) (so_data r) (so_trie r) (so_code r) (so_originStorage r)
    (so_pendingStorage r) (so_dirtyStorage r) x (so_dirtyCode r) (so_suicided r) (so_deleted r).
Definition set_so_dirtyCode (x : bool) (r : stateObject) : stateObject :=
  mkStateObject (so_address r) (so_data r) (so_trie r) (so_code r) (so_originStorage r)
    (so_pendingStorage r) (so_dirtyStorage r) (so_fakeStorage r) x (so_suicided r) (so_deleted r).
Definition set_so_suicided (x : bool) (r : stateObject) : stateObject :=
  mkStateObject (so_address r) (so_data r) (so_trie r) (so_code r) (so_originStorage r)
    (so_pendingStorage r) (so_dirtyStorage r) (so_fakeStorage r) (so_dirtyCode r) x (so_deleted r).
Definition set_so_deleted (x : bool) (r : stateObject) : stateObject :=
  mkStateObject (so_address r) (so_data r) (so_trie r) (so_code r) (so_originStorage r)
    (so_pendingStorage r) (so_dirtyStorage r) (so_fakeStorage r) (so_dirtyCode r) (so_suicided r)
    x.

(** ** Journal *)

Record Log : Type := mkLog {
  l_Address : Address;
  l_Topics : list Hash;
  l_Data : bytes;
  l_BlockNumber : Z;
  l_TxHash : Hash;
  l_TxIndex : Z;
  l_Index : Z;
}.

Inductive journalEntry : Type :=
| createObjectChange (account : Address)
| resetObjectChange (prev : stateObject) (prevdestruct : bool)
| suicideChange (account : Address) (prev : bool) (prevbalance : Z)
| balanceChange (account : Address) (prev : Z)
| nonceChange (account : Address) (prev : Z)
| storageChange (account : Address) (key prevalue : Hash)
| codeChange (account : Address) (prevcode : option bytes) (prevhash : Hash)
| refundChange (prev : Z)
| addLogChange (txhash : Hash)
| addPreimageChange (hash : Hash)
| touchChange (account : Address)
| accessListAddAccountChange (address : Address)
| accessListAddSlotChange (address : Address) (slot : Hash)
| nftOwnerChange (nftAddr : Address) (oldOwner : Address)
| nftInfoChange (address : Address) (oldOwner oldCreator : Address)
| pledgedBalanceChange (account : Address) (prev : Z)
| pledgedBlockNumberChange (account : Address) (prev : Z)
| coefficientChange (account : Address) (prev : Z)
| extraChange (account : Address) (prev : bytes)
| userMintChange (account : Address) (prev : Z)
| officialMintChange (account : Address) (prev : Z)
| validatorsChange (account : Address) (oldValidators : ValidatorList)
| stakersChange (account : Address) (oldStakers : StakerList)
| stakerExtensionChange (account : Address) (oldStakerExtension : StakersExtensionList)
| validatorExtensionChange (account : Address) (oldValidatorExtension : ValidatorsExtensionList)
| validatorProxyChange (account : Address) (oldValidatorProxy : Address).

(** [entries] is kept with the newest entry first. *)
Record journal : Type := mkJournal {
  j_entries : list journalEntry;
  j_dirties : gmap Address Z;
}.

Definition newJournal : journal := mkJournal [] ∅.

Record revision : Type := mkRevision { r_id : Z; r_journalIndex : nat }.

(** ** The state database *)

Record StateDB : Type := mkStateDB {
  sdb_codes : gmap Hash bytes;   (* the code store of [db] *)
  sdb_trie : gmap Address Account;   (* the account trie *)
  sdb_snap : option (gmap Address Account);   (* the snapshot layer, if any *)
  sdb_snapDestructs : gset Address;
  sdb_stateObjects : gmap Address stateObject;
  sdb_stateObjectsPending : gset Address;
  sdb_stateObjectsDirty : gset Address;
  sdb_refund : Z;
  sdb_thash : Hash;
  sdb_txIndex : Z;
  sdb_logs : gmap Hash (list Log);
  sdb_logSize : Z;
  sdb_preimages : gmap Hash bytes;
  sdb_accessList : accessList;
  sdb_journal : journal;
  sdb_validRevisions : list revision;
  sdb_nextRevisionId : Z;
}.

Definition set_sdb_codes (x : gmap Hash bytes) (r : StateDB) : StateDB :=
  mkStateDB x (sdb_trie r) (sdb_snap r) (sdb_snapDestructs r) (sdb_stateObjects r)
    (sdb_stateObjectsPending r) (sdb_stateObjectsDirty r) (sdb_refund r) (sdb_thash r)
    (sdb_txIndex r) (sdb_logs r) (sdb_logSize r) (sdb_preimages r) (sdb_accessList r)
    (sdb_journal r) (sdb_validRevisions r) (sdb_nextRevisionId r).
Definition set_sdb_trie (x : gmap Address Account) (r : StateDB) : StateDB :=
  mkStateDB (sdb_codes r) x (sdb_snap r) (sdb_snapDestructs r) (sdb_stateObjects r)
    (sdb_stateObjectsPending r) (sdb_stateObjectsDirty r) (sdb_refund r) (sdb_thash r)
    (sdb_txIndex r) (sdb_logs r) (sdb_logSize r) (sdb_preimages r) (sdb_accessList r)
    (sdb_journal r) (sdb_validRevisions r) (sdb_nextRevisionId r).
Definition set_sdb_snap (x : option (gmap Address Account)) (r : StateDB) : StateDB :=
  mkStateDB (sdb_codes r) (sdb_trie r) x (sdb_snapDestructs r) (sdb_stateObjects r)
    (sdb_stateObjectsPending r) (sdb_stateObjectsDirty r) (sdb_refund r) (sdb_thash r)
    (sdb_txIndex r) (sdb_logs r) (sdb_logSize r) (sdb_preimages r) (sdb_accessList r)
    (sdb_journal r) (sdb_validRevisions r) (sdb_nextRevisionId r).
Definition set_sdb_snapDestructs (x : gset Address) (r : StateDB) : StateDB :=
  mkStateDB (sdb_codes r) (sdb_trie r) (sdb_snap r) x (sdb_stateObjects r)
    (sdb_stateObjectsPending r) (sdb_stateObjectsDirty r) (sdb_refund r) (sdb_thash r)
    (sdb_txIndex r) (sdb_logs r) (sdb_logSize r) (sdb_preimages r) (sdb_accessList r)
    (sdb_journal r) (sdb_validRevisions r) (sdb_nextRevisionId r).
Definition set_sdb_stateObjects (x : gmap Address stateObject) (r : StateDB) : StateDB :=
  mkStateDB (sdb_codes r) (sdb_trie r) (sdb_snap r) (sdb_snapDestructs r) x
    (sdb_stateObjectsPending r) (sdb_stateObjectsDirty r) (sdb_refund r) (sdb_thash r)
    (sdb_txIndex r) (sdb_logs r) (sdb_logSize r) (sdb_preimages r) (sdb_accessList r)
    (sdb_journal r) (sdb_validRevisions r) (sdb_nextRevisionId r).
Definition set_sdb_stateObjectsPending (x : gset Address) (r : StateDB) : StateDB :=
  mkStateDB (sdb_codes r) (sdb_trie r) (sdb_snap r) (sdb_snapDestructs r) (sdb_stateObjects r) x
    (sdb_stateObjectsDirty r) (sdb_refund r) (sdb_thash r) (sdb_txIndex r) (sdb_logs r)
    (sdb_logSize r) (sdb_preimages r) (sdb_accessList r) (sdb_journal r) (sdb_validRevisions r)
    (sdb_nextRevisionId r).
Definition set_sdb_stateObjectsDirty (x : gset Address) (r : StateDB) : StateDB :=
  mkStateDB (sdb_codes r) (sdb_trie r) (sdb_snap r) (sdb_snapDestructs r) (sdb_stateObjects r)
    (sdb_stateObjectsPending r) x (sdb_refund r) (sdb_thash r) (sdb_txIndex r) (sdb_logs r)
    (sdb_logSize r) (sdb_preimages r) (sdb_accessList r) (sdb_journal r) (sdb_validRevisions r)
    (sdb_nextRevisionId r).
Definition set_sdb_refund (x : Z) (r : StateDB) : StateDB :=
  mkStateDB (sdb_codes r) (sdb_trie r) (sdb_snap r) (sdb_snapDestructs r) (sdb_stateObjects r)
    (sdb_stateObjectsPending r) (sdb_stateObjectsDirty r) x (sdb_thash r) (sdb_txIndex r)
    (sdb_logs r) (sdb_logSize r) (sdb_preimages r) (sdb_accessList r) (sdb_journal r)
    (sdb_validRevisions r) (sdb_nextRevisionId r).
Definition set_sdb_thash (x : Hash) (r : StateDB) : StateDB :=
  mkStateDB (sdb_codes r) (sdb_trie r) (sdb_snap r) (sdb_snapDestructs r) (sdb_stateObjects r)
    (sdb_stateObjectsPending r) (sdb_stateObjectsDirty r) (sdb_refund r) x (sdb_txIndex r)
    (sdb_logs r) (sdb_logSize r) (sdb_preimages r) (sdb_accessList r) (sdb_journal r)
    (sdb_validRevisions r) (sdb_nextRevisionId r).
Definition set_sdb_txIndex (x : Z) (r : StateDB) : StateDB :=
  mkStateDB (sdb_codes r) (sdb_trie r) (sdb_snap r) (sdb_snapDestructs r) (sdb_stateObjects r)
    (sdb_stateObjectsPending r) (sdb_stateObjectsDirty r) (sdb_refund r) (sdb_thash r) x
    (sdb_logs r) (sdb_logSize r) (sdb_preimages r) (sdb_accessList r) (sdb_journal r)
    (sdb_validRevisions r) (sdb_nextRevisionId r).
Definition set_sdb_logs (x : gmap Hash (list Log)) (r : StateDB) : StateDB :=
  mkStateDB (sdb_codes r) (sdb_trie r) (sdb_snap r) (sdb_snapDestructs r) (sdb_stateObjects r)
    (sdb_stateObjectsPending r) (sdb_stateObjectsDirty r) (sdb_refund r) (sdb_thash r)
    (sdb_txIndex r) x (sdb_logSize r) (sdb_preimages r) (sdb_accessList r) (sdb_journal r)
    (sdb_validRevisions r) (sdb_nextRevisionId r).
Definition set_sdb_logSize (x : Z) (r : StateDB) : StateDB :=
  mkStateDB (sdb_codes r) (sdb_trie r) (sdb_snap r) (sdb_snapDestructs r) (sdb_stateObjects r)
    (sdb_stateObjectsPending r) (sdb_stateObjectsDirty r) (sdb_refund r) (sdb_thash r)
    (sdb_txIndex r) (sdb_logs r) x (sdb_preimages r) (sdb_accessList r) (sdb_journal r)
    (sdb_validRevisions r) (sdb_nextRevisionId r).
Definition set_sdb_preimages (x : gmap Hash bytes) (r : StateDB) : StateDB :=
  mkStateDB (sdb_codes r) (sdb_trie r) (sdb_snap r) (sdb_snapDestructs r) (sdb_stateObjects r)
    (sdb_stateObjectsPending r) (sdb_stateObjectsDirty r) (sdb_refund r) (sdb_thash r)
    (sdb_txIndex r) (sdb_logs r) (sdb_logSize r) x (sdb_accessList r) (sdb_journal r)
    (sdb_validRevisions r) (sdb_nextRevisionId r).
Definition set_sdb_accessList (x : accessList) (r : StateDB) : StateDB :=
  mkStateDB (sdb_codes r) (sdb_trie r) (sdb_snap r) (sdb_snapDestructs r) (sdb_stateObjects r)
    (sdb_stateObjectsPending r) (sdb_stateObjectsDirty r) (sdb_refund r) (sdb_thash r)
    (sdb_txIndex r) (sdb_logs r) (sdb_logSize r) (sdb_preimages r) x (sdb_journal r)
    (sdb_validRevisions r) (sdb_nextRevisionId r).
Definition set_sdb_journal (x : journal) (r : StateDB) : StateDB :=
  mkStateDB (sdb_codes r) (sdb_trie r) (sdb_snap r) (sdb_snapDestructs r) (sdb_stateObjects r)
    (sdb_stateObjectsPending r) (sdb_stateObjectsDirty r) (sdb_refund r) (sdb_thash r)
    (sdb_txIndex r) (sdb_logs r) (sdb_logSize r) (sdb_preimages r) (sdb_accessList r) x
    (sdb_validRevisions r) (sdb_nextRevisionId r).
Definition set_sdb_validRevisions (x : list revision) (r : StateDB) : StateDB :=
  mkStateDB (sdb_codes r) (sdb_trie r) (sdb_snap r) (sdb_snapDestructs r) (sdb_stateObjects r)
    (sdb_stateObjectsPending r) (sdb_stateObjectsDirty r) (sdb_refund r) (sdb_thash r)
    (sdb_txIndex r) (sdb_logs r) (sdb_logSize r) (sdb_preimages r) (sdb_accessList r)
    (sdb_journal r) x (sdb_nextRevisionId r).
Definition set_sdb_nextRevisionId (x : Z) (r : StateDB) : StateDB :=
  mkStateDB (sdb_codes r) (sdb_trie r) (sdb_snap r) (sdb_snapDestructs r) (sdb_stateObjects r)
    (sdb_stateObjectsPending r) (sdb_stateObjectsDirty r) (sdb_refund r) (sdb_thash r)
    (sdb_txIndex r) (sdb_logs r) (sdb_logSize r) (sdb_preimages r) (sdb_accessList r)
    (sdb_journal r) (sdb_validRevisions r) x.

(** ** Computations *)

Definition M (A : Type) : Type := StateDB -> option (A * StateDB).

#[export] Instance M_ret : MRet M := fun A x s => Some (x, s).
#[export] Instance M_bind : MBind M := fun A B f m s =>
  match m s with
  | Some (x, s') => f x s'
  | None => None
  end.

(** A panic. *)
Definition panic {A : Type} : M A := fun _ => None.

Definition gets {A : Type} (f : StateDB -> A) : M A := fun s => Some (f s, s).

Definition modify (f : StateDB -> StateDB) : M unit := fun s => Some (tt, f s).

(** A nil pointer dereferenced. *)
Definition deref {A : Type} (o : option A) : M A :=
  match o with
  | Some x => mret x
  | None => panic
  end.

Fixpoint mapM_ {A : Type} (f : A -> M unit) (l : list A) : M unit :=
  match l with
  | [] => mret tt
  | x :: l => _ ← f x; mapM_ f l
  end.

(** A Go [error] result: [None] is nil. *)
Notation goerror := (option string) (only parsing).
