(* ===== verification/State.v ===== *)
(** The world state and its journal, the operations: state objects ([so_], methods
    of [*stateObject]), journal entries, and the general methods of [*StateDB]
    ([sdb_]).  The staking and token methods of [*StateDB] are in [Staking]. *)
From S2P Require Import Prelude KeyedList Common Params Validators Stakers AccessList StateTypes.

Open Scope Z_scope.

Section State.
  Context {CR : Crypto}.

(** [crypto.Keccak256(nil)], as a hash *)
Definition emptyCodeHash : Hash := BytesToHash (Keccak256 []).

(** [Account{}], in normal form *)
Definition zeroAccount : Account := mkAccount 0 0 ∅ emptyCodeHash None None None None.

(** The copy makes the [Extra] slice non-nil. *)
Definition newObject (address : Address) (data : Account) : stateObject :=
  mkStateObject address
    (mkAccount (a_Nonce data) (a_Balance data) (a_Root data) (a_CodeHash data)
       (worm_DeepCopy <$> a_Worm data) (csbt_DeepCopy <$> a_Csbt data)
       (staker_DeepCopy <$> a_Staker data) (Some (default [] (a_Extra data))))
    None None ∅ ∅ ∅ None false false false.

Definition is_nil {A : Type} (o : option A) : bool :=
  match o with None => true | Some _ => false end.

Definition so_empty (s : stateObject) : bool :=
  (a_Nonce (so_data s) =? 0) && (a_Balance (so_data s) =? 0)
  && (a_CodeHash (so_data s) =? emptyCodeHash)
  && is_nil (a_Worm (so_data s)) && is_nil (a_Csbt (so_data s))
  && is_nil (a_Staker (so_data s)) && is_nil (a_Extra (so_data s)).

(** ** Objects in the state *)

(** Dereference of the object of an address, and its replacement. *)
Definition obj (a : Address) : M stateObject := fun s =>
  match sdb_stateObjects s !! a with Some o => Some (o, s) | None => None end.

Definition put (a : Address) (o : stateObject) : M unit :=
  modify (fun s => set_sdb_stateObjects (<[a := o]> (sdb_stateObjects s)) s).

Definition upd (a : Address) (f : stateObject -> stateObject) : M unit :=
  o ← obj a; put a (f o).

Definition upd_data (a : Address) (f : Account -> Account) : M unit :=
  upd a (fun o => set_so_data (f (so_data o)) o).

(** [s.data.Worm], [s.data.Csbt], [s.data.Staker] dereferenced, and assignments to
    their fields. *)
Definition worm (a : Address) : M WormholesExtension := o ← obj a; deref (a_Worm (so_data o)).
Definition csbt (a : Address) : M AccountCSBT := o ← obj a; deref (a_Csbt (so_data o)).
Definition stk (a : Address) : M AccountStaker := o ← obj a; deref (a_Staker (so_data o)).

Definition upd_worm (a : Address) (f : WormholesExtension -> WormholesExtension) : M unit :=
  w ← worm a; upd_data a (set_a_Worm (Some (f w))).
Definition upd_csbt (a : Address) (f : AccountCSBT -> AccountCSBT) : M unit :=
  c ← csbt a; upd_data a (set_a_Csbt (Some (f c))).
Definition upd_stk (a : Address) (f : AccountStaker -> AccountStaker) : M unit :=
  k ← stk a; upd_data a (set_a_Staker (Some (f k))).

(** ** The journal *)

Definition dirtied (e : journalEntry) : option Address :=
  match e with
  | createObjectChange a | suicideChange a _ _ | touchChange a | balanceChange a _
  | nonceChange a _ | codeChange a _ _ | storageChange a _ _
  | nftOwnerChange a _ | nftInfoChange a _ _ | pledgedBalanceChange a _
  | pledgedBlockNumberChange a _ | coefficientChange a _ | extraChange a _
  | userMintChange a _ | officialMintChange a _ | validatorsChange a _ | stakersChange a _
  | stakerExtensionChange a _ | validatorExtensionChange a _ | validatorProxyChange a _ => Some a
  | resetObjectChange _ _ | refundChange _ | addLogChange _ | addPreimageChange _
  | accessListAddAccountChange _ | accessListAddSlotChange _ _ => None
  end.

Definition dirties_inc (a : Address) (m : gmap Address Z) : gmap Address Z :=
  <[a := default 0 (m !! a) + 1]> m.

Definition dirties_dec (a : Address) (m : gmap Address Z) : gmap Address Z :=
  let n := default 0 (m !! a) - 1 in
  if n =? 0 then delete a m else <[a := n]> m.

Definition journal_append (e : journalEntry) : M unit :=
  modify (fun s =>
    let j := sdb_journal s in
    set_sdb_journal
      (mkJournal (e :: j_entries j)
         (match dirtied e with Some a => dirties_inc a (j_dirties j) | None => j_dirties j end)) s).

Definition journal_dirty (a : Address) : M unit :=
  modify (fun s =>
    set_sdb_journal (mkJournal (j_entries (sdb_journal s)) (dirties_inc a (j_dirties (sdb_journal s)))) s).

Definition journal_length (s : StateDB) : nat := length (j_entries (sdb_journal s)).

(** ** Storage of an object *)

Definition ripemd : Address := 3.

Definition so_markSuicided (a : Address) : M unit := upd a (set_so_suicided true).

Definition so_touch (a : Address) : M unit :=
  _ ← journal_append (touchChange a);
  if a =? ripemd then journal_dirty a else mret tt.

Definition so_getTrie (o : stateObject) : Storage := default (a_Root (so_data o)) (so_trie o).

(** The value of a storage key in the layers below the object. *)
Definition backing_slot (s : StateDB) (o : stateObject) (key : Hash) : Hash :=
  match sdb_snap s with
  | Some m => default 0 (acc ← m !! so_address o; a_Root acc !! key)
  | None => default 0 (so_getTrie o !! key)
  end.

(** With a snapshot, an object destructed in this block has no older storage, and
    the zero that stands for it is not cached. *)
Definition so_GetCommittedState (a : Address) (key : Hash) : M Hash := fun s =>
  match obj a s with
  | None => None
  | Some (o, _) =>
      match so_fakeStorage o with
      | Some fake => Some (default 0 (fake !! key), s)
      | None =>
          match so_pendingStorage o !! key, so_originStorage o !! key with
          | Some value, _ => Some (value, s)
          | None, Some value => Some (value, s)
          | None, None =>
              if bool_decide (is_Some (sdb_snap s)) && bool_decide (a ∈ sdb_snapDestructs s)
              then Some (0, s)
              else
                let value := backing_slot s o key in
                (_ ← put a (set_so_originStorage (<[key := value]> (so_originStorage o)) o);
                 mret value) s
          end
      end
  end.

Definition so_GetState (a : Address) (key : Hash) : M Hash :=
  o ← obj a;
  match so_fakeStorage o with
  | Some fake => mret (default 0 (fake !! key))
  | None =>
      match so_dirtyStorage o !! key with
      | Some value => mret value
      | None => so_GetCommittedState a key
      end
  end.

Definition so_setState (a : Address) (key value : Hash) : M unit :=
  upd a (fun o => set_so_dirtyStorage (<[key := value]> (so_dirtyStorage o)) o).

Definition so_SetState (a : Address) (key value : Hash) : M unit :=
  o ← obj a;
  match so_fakeStorage o with
  | Some fake => upd a (set_so_fakeStorage (Some (<[key := value]> fake)))
  | None =>
      prev ← so_GetState a key;
      if prev =? value then mret tt
      else
        _ ← journal_append (storageChange a key prev);
        so_setState a key value
  end.

Definition so_SetStorage (a : Address) (storage : Storage) : M unit :=
  upd a (fun o => set_so_fakeStorage (Some (storage ∪ default ∅ (so_fakeStorage o))) o).

(** ** Writing the storage of an object *)

Definition so_finalise (o : stateObject) : stateObject :=
  set_so_dirtyStorage ∅ (set_so_pendingStorage (so_dirtyStorage o ∪ so_pendingStorage o) o).

(** The pending entries that differ from the original value. *)
Definition changed_slots (o : stateObject) : Storage :=
  filter (fun kv => kv.2 <> default 0 (so_originStorage o !! kv.1)) (so_pendingStorage o).

(** The trie returned is nil when it has not been loaded and nothing changed. *)
Definition so_updateTrie (o : stateObject) : option Storage * stateObject :=
  let o := so_finalise o in
  if bool_decide (so_pendingStorage o = ∅) then (so_trie o, o)
  else
    let changed := changed_slots o in
    let tr := filter (fun kv => kv.2 <> 0) changed ∪ (so_getTrie o ∖ changed) in
    (Some tr,
     set_so_trie (Some tr) (set_so_pendingStorage ∅
       (set_so_originStorage (changed ∪ so_originStorage o) o))).

Definition so_updateRoot (o : stateObject) : stateObject :=
  match so_updateTrie o with
  | (None, o) => o
  | (Some tr, o) => set_so_data (set_a_Root tr (so_data o)) o
  end.

(** Committing a trie keeps its contents and returns its root. *)
Definition so_CommitTrie (o : stateObject) : stateObject := so_updateRoot o.

Definition so_deepCopy (s : stateObject) : stateObject :=
  let o := newObject (so_address s) (so_data s) in
  mkStateObject (so_address o) (so_data o) (so_trie s) (so_code s)
    (so_originStorage s) (so_pendingStorage s) (so_dirtyStorage s) (so_fakeStorage o)
    (so_dirtyCode s) (so_suicided s) (so_deleted s).

(** ** Balance, code and nonce *)

Definition so_Balance (a : Address) : M Z := o ← obj a; mret (a_Balance (so_data o)).

Definition so_setBalance (a : Address) (amount : Z) : M unit := upd_data a (set_a_Balance amount).

Definition so_SetBalance (a : Address) (amount : Z) : M unit :=
  prev ← so_Balance a;
  _ ← journal_append (balanceChange a prev);
  so_setBalance a amount.

Definition so_AddBalance (a : Address) (amount : Z) : M unit :=
  if amount =? 0 then
    o ← obj a;
    if so_empty o then so_touch a else mret tt
  else
    b ← so_Balance a; so_SetBalance a (b + amount).

Definition so_SubBalance (a : Address) (amount : Z) : M unit :=
  if amount =? 0 then mret tt
  else b ← so_Balance a; so_SetBalance a (b - amount).

(** The code of an object, loaded from the code store unless cached. *)
Definition code_of (s : StateDB) (o : stateObject) : option bytes :=
  match so_code o with
  | Some code => Some code
  | None => if a_CodeHash (so_data o) =? emptyCodeHash then None
            else sdb_codes s !! a_CodeHash (so_data o)
  end.

Definition so_Code (a : Address) : M (option bytes) :=
  o ← obj a;
  code ← gets (fun s => code_of s o);
  _ ← upd a (set_so_code code);
  mret code.

Definition so_CodeSize (a : Address) : M Z :=
  o ← obj a;
  code ← gets (fun s => code_of s o);
  mret (Z.of_nat (length (default [] code))).

Definition so_setCode (a : Address) (codeHash : Hash) (code : option bytes) : M unit :=
  upd a (fun o => set_so_dirtyCode true
                    (set_so_data (set_a_CodeHash codeHash (so_data o)) (set_so_code code o))).

Definition so_SetCode (a : Address) (codeHash : Hash) (code : option bytes) : M unit :=
  prevcode ← so_Code a;
  o ← obj a;
  _ ← journal_append (codeChange a prevcode (a_CodeHash (so_data o)));
  so_setCode a codeHash code.

Definition so_setNonce (a : Address) (nonce : Z) : M unit := upd_data a (set_a_Nonce nonce).

Definition so_SetNonce (a : Address) (nonce : Z) : M unit :=
  o ← obj a;
  _ ← journal_append (nonceChange a (a_Nonce (so_data o)));
  so_setNonce a nonce.

(** ** CSBT data *)

Definition so_setOwner (a : Address) (newOwner : Address) : M unit :=
  upd_csbt a (fun c => mkAccountCSBT newOwner (csbt_Creator c)).

Definition so_SetOwner (a : Address) (newOwner : Address) : M unit :=
  c ← csbt a;
  _ ← journal_append (nftOwnerChange a (csbt_Owner c));
  so_setOwner a newOwner.

Definition so_ChangeNFTOwner (a : Address) (newOwner : Address) : M unit :=
  c ← csbt a;
  if csbt_Owner c =? newOwner then mret tt else so_SetOwner a newOwner.

Definition so_NFTOwner (a : Address) : M Address := c ← csbt a; mret (csbt_Owner c).

Definition so_setNFTInfo (a : Address) (owner creator : Address) : M unit :=
  upd_csbt a (fun _ => mkAccountCSBT owner creator).

Definition so_SetNFTInfo (a : Address) (owner creator : Address) : M unit :=
  c ← csbt a;
  _ ← journal_append (nftInfoChange a (csbt_Owner c) (csbt_Creator c));
  so_setNFTInfo a owner creator.

Definition so_setJournalNFTInfo (a : Address) (owner creator : Address) : M unit :=
  upd_csbt a (fun _ => mkAccountCSBT owner creator).

Definition so_cleanNFT (a : Address) : M unit := upd_csbt a (fun _ => mkAccountCSBT 0 0).

Definition so_CleanNFT (a : Address) : M unit :=
  c ← csbt a;
  _ ← journal_append (nftInfoChange a (csbt_Owner c) (csbt_Creator c));
  so_cleanNFT a.

Definition so_GetNFTInfo (a : Address) : M (Address * Address) :=
  c ← csbt a; mret (csbt_Owner c, csbt_Creator c).

Definition so_GetCreator (a : Address) : M Address := c ← csbt a; mret (csbt_Creator c).

(** ** Pledges *)

Definition so_setStakerPledge (a : Address) (stakers : StakersExtensionList) : M unit :=
  upd_worm a (set_w_StakerExtension stakers).

Definition so_SetStakerPledge (a : Address) (newStakers : StakersExtensionList) : M unit :=
  w ← worm a;
  _ ← journal_append (stakerExtensionChange a (w_StakerExtension w));
  so_setStakerPledge a newStakers.

Definition so_StakerPledge (a : Address) (addr : Address) (amount blocknumber : Z) : M unit :=
  w ← worm a;
  so_SetStakerPledge a
    (snd (sel_AddStakerPledge addr amount blocknumber (sel_DeepCopy (w_StakerExtension w)))).

Definition so_RemoveStakerPledge (a : Address) (addr : Address) (amount : Z) : M unit :=
  w ← worm a;
  so_SetStakerPledge a (snd (sel_RemoveStakerPledge addr amount (sel_DeepCopy (w_StakerExtension w)))).

Definition so_StakerPledgeLength (a : Address) : M Z :=
  w ← worm a; mret (Z.of_nat (length (sel_DeepCopy (w_StakerExtension w)))).

Definition so_GetStakerExtension (a : Address) : M StakersExtensionList :=
  w ← worm a; mret (w_StakerExtension w).

Definition so_setValidatorExtension (a : Address) (stakers : ValidatorsExtensionList) : M unit :=
  upd_worm a (set_w_ValidatorExtension stakers).

Definition so_SetValidatorExtension (a : Address) (newStakers : ValidatorsExtensionList) : M unit :=
  w ← worm a;
  _ ← journal_append (validatorExtensionChange a (w_ValidatorExtension w));
  so_setValidatorExtension a newStakers.

Definition so_AddValidatorExtension (a : Address) (addr : Address) (amount blocknumber : Z) : M unit :=
  w ← worm a;
  so_SetValidatorExtension a
    (snd (vel_AddValidatorPledge addr amount blocknumber (vel_DeepCopy (w_ValidatorExtension w)))).

Definition so_RemoveValidatorExtension (a : Address) (addr : Address) (amount : Z) : M unit :=
  w ← worm a;
  so_SetValidatorExtension a
    (snd (vel_RemoveValidatorPledge addr amount (vel_DeepCopy (w_ValidatorExtension w)))).

Definition so_ValidatorExtensionLength (a : Address) : M Z :=
  w ← worm a; mret (Z.of_nat (length (vel_DeepCopy (w_ValidatorExtension w)))).

Definition so_GetValidatorExtension (a : Address) : M ValidatorsExtensionList :=
  w ← worm a; mret (w_ValidatorExtension w).

(** ** Pledged balance and block number *)

Definition so_PledgedBalance (a : Address) : M Z := w ← worm a; mret (default 0 (w_PledgedBalance w)).

Definition so_PledgedBlockNumber (a : Address) : M Z :=
  w ← worm a; mret (default 0 (w_PledgedBlockNumber w)).

Definition so_StakerPledgedBlockNumber (a : Address) (addr : Address) : M Z :=
  w ← worm a;
  mret (match w_PledgedBlockNumber w with
        | None => 0
        | Some _ =>
            match kfind pl_Addr addr (w_StakerExtension w) with
            | Some (_, value) => pl_BlockNumber value
            | None => 0
            end
        end).

Definition so_setPledgedBalance (a : Address) (amount : Z) : M unit :=
  upd_worm a (set_w_PledgedBalance (Some amount)).

(** A nil balance is first replaced by zero, outside the journal. *)
Definition so_SetPledgedBalance (a : Address) (amount : Z) : M unit :=
  _ ← upd_worm a (fun w => set_w_PledgedBalance (Some (default 0 (w_PledgedBalance w))) w);
  w ← worm a;
  _ ← journal_append (pledgedBalanceChange a (default 0 (w_PledgedBalance w)));
  so_setPledgedBalance a amount.

Definition so_AddPledgedBalance (a : Address) (amount : Z) : M unit :=
  if amount =? 0 then mret tt
  else pledgedBalance ← so_PledgedBalance a; so_SetPledgedBalance a (pledgedBalance + amount).

Definition so_SubPledgedBalance (a : Address) (amount : Z) : M unit :=
  if amount =? 0 then mret tt
  else pledgedBalance ← so_PledgedBalance a; so_SetPledgedBalance a (pledgedBalance - amount).

Definition so_setPledgedBlockNumber (a : Address) (blocknumber : Z) : M unit :=
  upd_worm a (set_w_PledgedBlockNumber (Some blocknumber)).

Definition so_SetPledgedBlockNumber (a : Address) (blocknumber : Z) : M unit :=
  _ ← upd_worm a (fun w => set_w_PledgedBlockNumber (Some (default 0 (w_PledgedBlockNumber w))) w);
  w ← worm a;
  _ ← journal_append (pledgedBlockNumberChange a (default 0 (w_PledgedBlockNumber w)));
  so_setPledgedBlockNumber a blocknumber.

(** ** Coefficient, proxy and extra data *)

Definition so_Coefficient (a : Address) : M Z := w ← worm a; mret (w_Coefficient w).

Definition so_setCoefficient (a : Address) (coe : Z) : M unit := upd_worm a (set_w_Coefficient coe).

Definition so_SetCoefficient (a : Address) (coe : Z) : M unit :=
  w ← worm a;
  _ ← journal_append (coefficientChange a (w_Coefficient w));
  so_setCoefficient a coe.

Definition so_AddCoefficient (a : Address) (coe : Z) : M unit :=
  so_SetCoefficient a VALIDATOR_COEFFICIENT.

(** [uint8] arithmetic; the subtraction does not wrap below its guard. *)
Definition so_SubCoefficient (a : Address) (coe : Z) : M unit :=
  c ← so_Coefficient a;
  let result :=
    if c <? coe then 1
    else let preSub := u8 (c - coe) in if 1 <=? preSub then preSub else 1 in
  so_SetCoefficient a result.

Definition so_RemoveCoefficient (a : Address) : M unit := so_SetCoefficient a 0.

Definition so_GetValidatorProxy (a : Address) : M Address := w ← worm a; mret (w_ValidatorProxy w).

Definition so_setValidatorProxy (a : Address) (newValidatorProxy : Address) : M unit :=
  upd_worm a (set_w_ValidatorProxy newValidatorProxy).

Definition so_SetValidatorProxy (a : Address) (newValidatorProxy : Address) : M unit :=
  w ← worm a;
  _ ← journal_append (validatorProxyChange a (w_ValidatorProxy w));
  so_setValidatorProxy a newValidatorProxy.

Definition so_GetAccountInfo (a : Address) : M Account := o ← obj a; mret (so_data o).

Definition so_setExtra (a : Address) (extra : option bytes) : M unit := upd_data a (set_a_Extra extra).

Definition so_SetExtra (a : Address) (extra : option bytes) : M unit :=
  o ← obj a;
  _ ← journal_append (extraChange a (default [] (a_Extra (so_data o))));
  so_setExtra a extra.

(** ** Mint counters

    A nil counter is dereferenced by [new(big.Int).Set]. *)

Definition so_UserMint (a : Address) : M (option Z) :=
  o ← obj a;
  mret (match a_Staker (so_data o) with Some k => md_UserMint (as_Mint k) | None => Some 0 end).

Definition so_OfficialMint (a : Address) : M (option Z) :=
  o ← obj a;
  mret (match a_Staker (so_data o) with Some k => md_OfficialMint (as_Mint k) | None => Some 0 end).

Definition so_setUserMint (a : Address) (amount : Z) : M unit :=
  upd_stk a (fun k => mkAccountStaker (mkMintDeep (Some amount) (md_OfficialMint (as_Mint k)))
                        (as_Validators k) (as_CSBTCreators k)).

Definition so_SetUserMint (a : Address) (amount : Z) : M unit :=
  k ← stk a;
  prev ← deref (md_UserMint (as_Mint k));
  _ ← journal_append (userMintChange a prev);
  so_setUserMint a amount.

Definition so_AddUserMint (a : Address) (amount : Z) : M unit :=
  if amount =? 0 then mret tt
  else m ← so_UserMint a; u ← deref m; so_SetUserMint a (u + amount).

Definition so_setOfficialMint (a : Address) (amount : Z) : M unit :=
  upd_stk a (fun k => mkAccountStaker (mkMintDeep (md_UserMint (as_Mint k)) (Some amount))
                        (as_Validators k) (as_CSBTCreators k)).

Definition so_SetOfficialMint (a : Address) (amount : Z) : M unit :=
  k ← stk a;
  prev ← deref (md_OfficialMint (as_Mint k));
  _ ← journal_append (officialMintChange a prev);
  so_setOfficialMint a amount.

Definition so_AddOfficialMint (a : Address) (amount : Z) : M unit :=
  if amount =? 0 then mret tt
  else m ← so_OfficialMint a; u ← deref m; so_SetOfficialMint a (u + amount).

(** ** Validators and creators *)

Definition so_setValidators (a : Address) (validators : ValidatorList) : M unit :=
  upd_stk a (fun k => mkAccountStaker (as_Mint k) validators (as_CSBTCreators k)).

Definition so_SetValidators (a : Address) (validators : ValidatorList) : M unit :=
  k ← stk a;
  _ ← journal_append (validatorsChange a (as_Validators k));
  so_setValidators a validators.

(** The five methods that apply a list operation to a copy and store it if it
    reports success. *)
Definition update_validators (a : Address) (f : ValidatorList -> bool * ValidatorList) : M bool :=
  k ← stk a;
  match f (vl_DeepCopy (as_Validators k)) with
  | (false, _) => mret false
  | (true, newValidators) => _ ← so_SetValidators a newValidators; mret true
  end.

Definition so_AddValidatorAmount (a : Address) (addr : Address) (balance : Z) : M bool :=
  update_validators a (vl_AddValidatorAmount addr balance).
Definition so_AddValidator (a : Address) (addr : Address) (balance : Z) (proxy : Address) : M bool :=
  update_validators a (vl_AddValidator addr balance proxy).
Definition so_RemoveValidator (a : Address) (addr : Address) (balance : Z) : M bool :=
  update_validators a (vl_RemoveValidator addr balance).
Definition so_SetValidatorAmount (a : Address) (addr : Address) (balance : Z) (proxy : Address) : M bool :=
  update_validators a (vl_SetValidatorAmount addr balance proxy).
Definition so_ResetemoveValidator (a : Address) (addr : Address) : M bool :=
  update_validators a (vl_ResetRemoveValidator addr).

(** [None] is the nil pointer. *)
Definition so_GetValidators (a : Address) : M (option ValidatorList) :=
  o ← obj a; mret (as_Validators <$> a_Staker (so_data o)).

Definition so_setStakers (a : Address) (stakers : StakerList) : M unit :=
  upd_stk a (fun k => mkAccountStaker (as_Mint k) (as_Validators k) stakers).

Definition so_SetStakers (a : Address) (stakers : StakerList) : M unit :=
  k ← stk a;
  _ ← journal_append (stakersChange a (as_CSBTCreators k));
  so_setStakers a stakers.

Definition so_AddStaker (a : Address) (addr : Address) (balance : Z) : M unit :=
  k ← stk a; so_SetStakers a (snd (sl_AddStaker addr balance (sl_DeepCopy (as_CSBTCreators k)))).
Definition so_RemoveStaker (a : Address) (addr : Address) (balance : Z) : M unit :=
  k ← stk a; so_SetStakers a (snd (sl_RemoveStaker addr balance (sl_DeepCopy (as_CSBTCreators k)))).
Definition so_CancelStaker (a : Address) (addr : Address) : M unit :=
  k ← stk a; so_SetStakers a (snd (sl_CancelStaker addr (sl_DeepCopy (as_CSBTCreators k)))).

Definition so_GetStakers (a : Address) : M (option StakerList) :=
  o ← obj a; mret (as_CSBTCreators <$> a_Staker (so_data o)).
End State.

(** Running a computation that reads and writes objects. *)
Ltac run_obj := unfold mbind, M_bind, obj, deref, gets, put, modify, mret, M_ret, panic in *; simpl in *.

(** The first step of a sequence whose run is assumed to succeed. *)
Ltac run_bind x s H :=
  unfold mbind at 1, M_bind at 1;
  lazymatch goal with
  | |- match ?e with Some _ => _ | None => _ end = _ -> _ => destruct e as [[x s]|] eqn:H; [|discriminate]
  end.
