(* ===== verification/StateDB.v ===== *)
(** The general methods of [*StateDB] ([core/state/statedb.go], prefix [sdb_]), the
    [revert] methods of the journal entries and [journal.revert]
    ([core/state/journal.go]). *)
From S2P Require Import Prelude KeyedList Common Params Wormholes Validators Stakers AccessList StateTypes State.

Open Scope Z_scope.

Section StateDB.
  Context {CR : Crypto}.

(** [New]: the tries and the snapshot layer are given by their contents. *)
Definition sdb_New (codes : gmap Hash bytes) (trie : gmap Address Account)
    (snap : option (gmap Address Account)) : StateDB :=
  mkStateDB codes trie snap ∅ ∅ ∅ ∅ 0 0 0 ∅ 0 ∅ newAccessList newJournal [] 0.

(** ** Logs, preimages and refunds *)

Definition sdb_AddLog (log : Log) : M unit :=
  thash ← gets sdb_thash;
  _ ← journal_append (addLogChange thash);
  modify (fun s =>
    let log := mkLog (l_Address log) (l_Topics log) (l_Data log) (l_BlockNumber log)
                 thash (sdb_txIndex s) (sdb_logSize s) in
    set_sdb_logSize (sdb_logSize s + 1)
      (set_sdb_logs (<[thash := default [] (sdb_logs s !! thash) ++ [log]]> (sdb_logs s)) s)).

Definition sdb_AddPreimage (hash : Hash) (preimage : bytes) : M unit :=
  p ← gets (fun s => sdb_preimages s !! hash);
  match p with
  | Some _ => mret tt
  | None =>
      _ ← journal_append (addPreimageChange hash);
      modify (fun s => set_sdb_preimages (<[hash := preimage]> (sdb_preimages s)) s)
  end.

Definition sdb_AddRefund (gas : Z) : M unit :=
  r ← gets sdb_refund;
  _ ← journal_append (refundChange r);
  modify (set_sdb_refund (u64 (r + gas))).

Definition sdb_SubRefund (gas : Z) : M unit :=
  r ← gets sdb_refund;
  _ ← journal_append (refundChange r);
  if r <? gas then panic else modify (set_sdb_refund (r - gas)).

(** The counter is a [uint64]. *)
Definition sdb_GetRefund : M Z := gets (fun s => u64 (sdb_refund s)).

(** ** Finding and creating objects *)

(** What the snapshot layer, or else the trie, has for an address. *)
Definition backing_account (s : StateDB) (a : Address) : option Account :=
  match sdb_snap s with
  | Some m => m !! a
  | None => sdb_trie s !! a
  end.

Definition sdb_setStateObject (o : stateObject) : M unit := put (so_address o) o.

Definition sdb_getDeletedStateObject (addr : Address) : M (option stateObject) := fun s =>
  match sdb_stateObjects s !! addr with
  | Some o => Some (Some o, s)
  | None =>
      match backing_account s addr with
      | None => Some (None, s)
      | Some data =>
          let o := newObject addr data in
          (_ ← sdb_setStateObject o; mret (Some o)) s
      end
  end.

Definition sdb_getStateObject (addr : Address) : M (option stateObject) :=
  o ← sdb_getDeletedStateObject addr;
  mret (match o with
        | Some o => if so_deleted o then None else Some o
        | None => None
        end).

(** The results are the addresses of the new object and of the previous one. *)
Definition sdb_createObject (addr : Address) : M (Address * option stateObject) :=
  prev ← sdb_getDeletedStateObject addr;
  s ← gets id;
  let withSnap := bool_decide (is_Some (sdb_snap s)) in
  let prevdestruct :=
    match prev with
    | Some _ => withSnap && bool_decide (addr ∈ sdb_snapDestructs s)
    | None => false
    end in
  _ ← (match prev with
       | Some _ => if withSnap && negb prevdestruct
                   then modify (fun s => set_sdb_snapDestructs ({[addr]} ∪ sdb_snapDestructs s) s)
                   else mret tt
       | None => mret tt
       end);
  _ ← journal_append (match prev with
                      | None => createObjectChange addr
                      | Some o => resetObjectChange o prevdestruct
                      end);
  _ ← sdb_setStateObject (newObject addr zeroAccount);
  mret (addr, match prev with
              | Some o => if so_deleted o then None else Some o
              | None => None
              end).

(** The four [GetOrNew] methods return the pointer, that is the address. *)
Definition sdb_GetOrNewStateObject (addr : Address) : M unit :=
  o ← sdb_getStateObject addr;
  match o with
  | None => _ ← sdb_createObject addr; mret tt
  | Some _ => mret tt
  end.

Definition sdb_GetOrNewNFTStateObject (addr : Address) : M unit :=
  o ← sdb_getStateObject addr;
  _ ← (match o with
       | None =>
           _ ← sdb_createObject addr;
           _ ← upd_data addr (set_a_Worm None);
           upd_data addr (set_a_Csbt (Some (mkAccountCSBT 0 0)))
       | Some _ => mret tt
       end);
  o ← obj addr;
  match a_Csbt (so_data o) with
  | None => upd_data addr (set_a_Csbt (Some (mkAccountCSBT 0 0)))
  | Some _ => mret tt
  end.

(** [&types.WormholesExtension{}] *)
Definition zeroWorm : WormholesExtension := mkWormholesExtension None None 0 [] [] 0.

(** The end of [GetOrNewAccountStateObject]: a nil extension and nil numbers in it are
    initialised, outside the journal. *)
Definition init_worm (addr : Address) : M unit :=
  o ← obj addr;
  _ ← (match a_Worm (so_data o) with
       | None => upd_data addr (set_a_Worm (Some zeroWorm))
       | Some _ => mret tt
       end);
  _ ← upd_worm addr (fun w => set_w_PledgedBlockNumber (Some (default 0 (w_PledgedBlockNumber w))) w);
  upd_worm addr (fun w => set_w_PledgedBalance (Some (default 0 (w_PledgedBalance w))) w).

Definition sdb_GetOrNewAccountStateObject (addr : Address) : M unit :=
  o ← sdb_getStateObject addr;
  _ ← (match o with
       | None =>
           '(_, prev) ← sdb_createObject addr;
           _ ← (match prev with
                | Some p => so_setBalance addr (a_Balance (so_data p))
                | None => mret tt
                end);
           _ ← upd_data addr (set_a_Worm (Some zeroWorm));
           upd_data addr (set_a_Csbt None)
       | Some _ => mret tt
       end);
  init_worm addr.

(** The extension a storage account starts with: the mint account has its counters. *)
Definition initStaker (addr : Address) : AccountStaker :=
  mkAccountStaker
    (if addr =? MintDeepStorageAddress then mkMintDeep (Some 1) (Some maskB) else mkMintDeep None None)
    [] [].

Definition sdb_GetOrNewStakerStateObject (addr : Address) : M unit :=
  o ← sdb_getStateObject addr;
  _ ← (match o with
       | None => _ ← sdb_createObject addr; upd_data addr (set_a_Staker (Some (initStaker addr)))
       | Some _ => mret tt
       end);
  o ← obj addr;
  match a_Staker (so_data o) with
  | None => upd_data addr (set_a_Staker (Some (initStaker addr)))
  | Some _ => mret tt
  end.

Definition sdb_CreateAccount (addr : Address) : M unit := sdb_GetOrNewAccountStateObject addr.
Definition sdb_CreateNFTAccount (addr : Address) : M unit := sdb_GetOrNewNFTStateObject addr.
Definition sdb_CreateStakerAccount (addr : Address) : M unit := sdb_GetOrNewStakerStateObject addr.

(** ** Queries *)

Definition sdb_Exist (addr : Address) : M bool :=
  o ← sdb_getStateObject addr; mret (negb (is_nil o)).

Definition sdb_Empty (addr : Address) : M bool :=
  o ← sdb_getStateObject addr;
  mret (match o with Some o => so_empty o | None => true end).

(** A query of the object of an address, with the value for a missing one. *)
Definition query {A : Type} (addr : Address) (dflt : A) (f : M A) : M A :=
  o ← sdb_getStateObject addr;
  match o with Some _ => f | None => mret dflt end.

Definition sdb_GetBalance (addr : Address) : M Z := query addr 0 (so_Balance addr).
Definition sdb_GetNonce (addr : Address) : M Z :=
  query addr 0 (o ← obj addr; mret (a_Nonce (so_data o))).
Definition sdb_GetCode (addr : Address) : M (option bytes) := query addr None (so_Code addr).
Definition sdb_GetCodeSize (addr : Address) : M Z := query addr 0 (so_CodeSize addr).
Definition sdb_GetCodeHash (addr : Address) : M Hash :=
  query addr 0 (o ← obj addr; mret (a_CodeHash (so_data o))).
Definition sdb_GetState (addr : Address) (hash : Hash) : M Hash := query addr 0 (so_GetState addr hash).
Definition sdb_GetCommittedState (addr : Address) (hash : Hash) : M Hash :=
  query addr 0 (so_GetCommittedState addr hash).
Definition sdb_HasSuicided (addr : Address) : M bool :=
  query addr false (o ← obj addr; mret (so_suicided o)).

(** ** Setters *)

Definition sdb_AddBalance (addr : Address) (amount : Z) : M unit :=
  _ ← sdb_GetOrNewAccountStateObject addr; so_AddBalance addr amount.
Definition sdb_SubBalance (addr : Address) (amount : Z) : M unit :=
  _ ← sdb_GetOrNewAccountStateObject addr; so_SubBalance addr amount.
Definition sdb_SetBalance (addr : Address) (amount : Z) : M unit :=
  _ ← sdb_GetOrNewAccountStateObject addr; so_SetBalance addr amount.
Definition sdb_SetNonce (addr : Address) (nonce : Z) : M unit :=
  _ ← sdb_GetOrNewAccountStateObject addr; so_SetNonce addr nonce.
Definition sdb_SetCode (addr : Address) (code : option bytes) : M unit :=
  _ ← sdb_GetOrNewAccountStateObject addr;
  so_SetCode addr (BytesToHash (Keccak256 (default [] code))) code.
Definition sdb_SetState (addr : Address) (key value : Hash) : M unit :=
  _ ← sdb_GetOrNewAccountStateObject addr; so_SetState addr key value.
Definition sdb_SetStorage (addr : Address) (storage : Storage) : M unit :=
  _ ← sdb_GetOrNewAccountStateObject addr; so_SetStorage addr storage.

Definition sdb_Suicide (addr : Address) : M bool :=
  o ← sdb_getStateObject addr;
  match o with
  | None => mret false
  | Some o =>
      _ ← journal_append (suicideChange addr (so_suicided o) (a_Balance (so_data o)));
      _ ← so_markSuicided addr;
      _ ← so_setBalance addr 0;
      mret true
  end.

(** ** Access list *)

Definition sdb_AddAddressToAccessList (addr : Address) : M unit :=
  al ← gets sdb_accessList;
  match al_AddAddress addr al with
  | (true, al) =>
      _ ← modify (set_sdb_accessList al);
      journal_append (accessListAddAccountChange addr)
  | (false, _) => mret tt
  end.

Definition sdb_AddSlotToAccessList (addr : Address) (slot : Hash) : M unit :=
  al ← gets sdb_accessList;
  '(addrMod, slotMod, al) ← deref (al_AddSlot addr slot al);
  _ ← modify (set_sdb_accessList al);
  _ ← (if addrMod : bool then journal_append (accessListAddAccountChange addr) else mret tt);
  if slotMod : bool then journal_append (accessListAddSlotChange addr slot) else mret tt.

Definition sdb_AddressInAccessList (addr : Address) : M bool :=
  gets (fun s => al_ContainsAddress addr (sdb_accessList s)).

Definition sdb_SlotInAccessList (addr : Address) (slot : Hash) : M (bool * bool) :=
  al ← gets sdb_accessList; deref (al_Contains addr slot al).

Definition sdb_PrepareAccessList (sender : Address) (dst : option Address) (precompiles : list Address)
    (list : list (Address * list Hash)) : M unit :=
  _ ← sdb_AddAddressToAccessList sender;
  _ ← (match dst with Some d => sdb_AddAddressToAccessList d | None => mret tt end);
  _ ← mapM_ sdb_AddAddressToAccessList precompiles;
  mapM_ (fun '(address, storageKeys) =>
           _ ← sdb_AddAddressToAccessList address;
           mapM_ (sdb_AddSlotToAccessList address) storageKeys) list.

(** ** Reverting *)

(** [s.getStateObject(a).set...]: a nil object panics. *)
Definition revert_object (a : Address) (f : M unit) : M unit :=
  o ← sdb_getStateObject a;
  match o with Some _ => f | None => panic end.

Definition revert_entry (e : journalEntry) : M unit :=
  match e with
  | createObjectChange a =>
      modify (fun s => set_sdb_stateObjectsDirty (sdb_stateObjectsDirty s ∖ {[a]})
                         (set_sdb_stateObjects (delete a (sdb_stateObjects s)) s))
  | resetObjectChange prev prevdestruct =>
      _ ← sdb_setStateObject prev;
      modify (fun s => if negb prevdestruct && bool_decide (is_Some (sdb_snap s))
                       then set_sdb_snapDestructs (sdb_snapDestructs s ∖ {[so_address prev]}) s
                       else s)
  | suicideChange a prev prevbalance =>
      o ← sdb_getStateObject a;
      match o with
      | Some _ => _ ← upd a (set_so_suicided prev); so_setBalance a prevbalance
      | None => mret tt
      end
  | touchChange _ => mret tt
  | balanceChange a prev => revert_object a (so_setBalance a prev)
  | nonceChange a prev => revert_object a (so_setNonce a prev)
  | codeChange a prevcode prevhash => revert_object a (so_setCode a prevhash prevcode)
  | storageChange a key prevalue => revert_object a (so_setState a key prevalue)
  | refundChange prev => modify (set_sdb_refund prev)
  | addLogChange txhash =>
      logs ← gets (fun s => default [] (sdb_logs s !! txhash));
      _ ← modify (fun s =>
            set_sdb_logs (if Nat.eqb (length logs) 1 then delete txhash (sdb_logs s)
                          else <[txhash := take (length logs - 1) logs]> (sdb_logs s)) s);
      modify (fun s => set_sdb_logSize (sdb_logSize s - 1) s)
  | addPreimageChange hash =>
      modify (fun s => set_sdb_preimages (delete hash (sdb_preimages s)) s)
  | accessListAddAccountChange a =>
      modify (fun s => set_sdb_accessList (al_DeleteAddress a (sdb_accessList s)) s)
  | accessListAddSlotChange a slot =>
      al ← gets sdb_accessList;
      al ← deref (al_DeleteSlot a slot al);
      modify (set_sdb_accessList al)
  | nftOwnerChange a oldOwner => revert_object a (so_setOwner a oldOwner)
  | nftInfoChange a oldOwner oldCreator => revert_object a (so_setJournalNFTInfo a oldOwner oldCreator)
  | pledgedBalanceChange a prev => revert_object a (so_setPledgedBalance a prev)
  | pledgedBlockNumberChange a prev => revert_object a (so_setPledgedBlockNumber a prev)
  | coefficientChange a prev => revert_object a (so_setCoefficient a prev)
  | extraChange a prev => revert_object a (so_setExtra a (Some prev))
  | userMintChange a prev => revert_object a (so_setUserMint a prev)
  | officialMintChange a prev => revert_object a (so_setOfficialMint a prev)
  | validatorsChange a old => revert_object a (so_setValidators a old)
  | stakersChange a old => revert_object a (so_setStakers a old)
  | stakerExtensionChange a old => revert_object a (so_setStakerPledge a old)
  | validatorExtensionChange a old => revert_object a (so_setValidatorExtension a old)
  | validatorProxyChange a old => revert_object a (so_setValidatorProxy a old)
  end.

(** The body of the loop of [journal.revert]. *)
Definition revert_step (e : journalEntry) : M unit :=
  _ ← revert_entry e;
  match dirtied e with
  | Some a => modify (fun s =>
      set_sdb_journal (mkJournal (j_entries (sdb_journal s)) (dirties_dec a (j_dirties (sdb_journal s)))) s)
  | None => mret tt
  end.

(** The entries above [snapshot] are undone, newest first, then cut off. *)
Definition journal_revert (snapshot : nat) : M unit :=
  n ← gets (fun s => journal_length s - snapshot)%nat;
  es ← gets (fun s => take n (j_entries (sdb_journal s)));
  _ ← mapM_ revert_step es;
  modify (fun s => set_sdb_journal (mkJournal (drop n (j_entries (sdb_journal s)))
                                      (j_dirties (sdb_journal s))) s).

Definition sdb_Snapshot : M Z := fun s =>
  let id := sdb_nextRevisionId s in
  Some (id, set_sdb_validRevisions (sdb_validRevisions s ++ [mkRevision id (journal_length s)])
              (set_sdb_nextRevisionId (id + 1) s)).

(** [sort.Search] finds the first revision whose id is at least [revid]. *)
Definition sdb_RevertToSnapshot (revid : Z) : M unit :=
  revs ← gets sdb_validRevisions;
  match list_find (fun r => revid <= r_id r) revs with
  | Some (idx, r) =>
      if negb (r_id r =? revid) then panic
      else
        _ ← journal_revert (r_journalIndex r);
        modify (fun s => set_sdb_validRevisions (take idx (sdb_validRevisions s)) s)
  | None => panic
  end.

(** ** Between transactions *)

Definition sdb_Prepare (thash : Hash) (ti : Z) : M unit :=
  modify (fun s => set_sdb_accessList newAccessList (set_sdb_txIndex ti (set_sdb_thash thash s))).

Definition sdb_clearJournalAndRefund : M unit :=
  modify (fun s =>
    let s := if Nat.eqb (journal_length s) 0 then s
             else set_sdb_refund 0 (set_sdb_journal newJournal s) in
    set_sdb_validRevisions [] s).

(** Maps are iterated in some order; the steps of the loops below are independent. *)
Definition sdb_finalise_one (deleteEmptyObjects : bool) (addr : Address) : M unit :=
  o ← gets (fun s => sdb_stateObjects s !! addr);
  match o with
  | None => mret tt
  | Some o =>
      _ ← (if so_suicided o || (deleteEmptyObjects && so_empty o)
           then
             _ ← put addr (set_so_deleted true o);
             modify (fun s => match sdb_snap s with
                              | Some _ => set_sdb_snapDestructs ({[addr]} ∪ sdb_snapDestructs s) s
                              | None => s
                              end)
           else put addr (so_finalise o));
      modify (fun s => set_sdb_stateObjectsDirty ({[addr]} ∪ sdb_stateObjectsDirty s)
                         (set_sdb_stateObjectsPending ({[addr]} ∪ sdb_stateObjectsPending s) s))
  end.

Definition sdb_Finalise (deleteEmptyObjects : bool) : M unit :=
  dirty ← gets (fun s => elements (dom (j_dirties (sdb_journal s)) : gset Address));
  _ ← mapM_ (sdb_finalise_one deleteEmptyObjects) dirty;
  sdb_clearJournalAndRefund.

(** What decoding the encoding of an account gives: nil integers come back as zero,
    and nil slices as empty ones. *)
Definition rlp_account (d : Account) : Account :=
  mkAccount (a_Nonce d) (a_Balance d) (a_Root d) (a_CodeHash d)
    ((fun w => set_w_PledgedBalance (Some (default 0 (w_PledgedBalance w)))
                 (set_w_PledgedBlockNumber (Some (default 0 (w_PledgedBlockNumber w))) w)) <$> a_Worm d)
    (a_Csbt d)
    ((fun k => mkAccountStaker
                 (mkMintDeep (Some (default 0 (md_UserMint (as_Mint k))))
                    (Some (default 0 (md_OfficialMint (as_Mint k)))))
                 ((fun v => with_weight (Some (default [] (v_Weight v))) v) <$> as_Validators k)
                 (as_CSBTCreators k)) <$> a_Staker d)
    (Some (default [] (a_Extra d))).

(** Negative integers have no encoding. *)
Definition rlp_encodable (d : Account) : bool :=
  let nonneg o := 0 <=? default 0 o in
  (0 <=? a_Balance d)
  && match a_Worm d with
     | Some w =>
         nonneg (w_PledgedBalance w) && nonneg (w_PledgedBlockNumber w)
         && forallb (fun p => (0 <=? pl_Balance p) && (0 <=? pl_BlockNumber p))
              (w_StakerExtension w ++ w_ValidatorExtension w)
     | None => true
     end
  && match a_Staker d with
     | Some k =>
         nonneg (md_UserMint (as_Mint k)) && nonneg (md_OfficialMint (as_Mint k))
         && forallb (fun v => (0 <=? v_Balance v) && forallb (Z.leb 0) (default [] (v_Weight v))) (as_Validators k)
         && forallb (fun x => 0 <=? s_Balance x) (as_CSBTCreators k)
     | None => true
     end.

(** The trie stores the encoding of the account. *)
Definition sdb_updateStateObject (o : stateObject) : M unit :=
  if rlp_encodable (so_data o)
  then modify (fun s => set_sdb_trie (<[so_address o := rlp_account (so_data o)]> (sdb_trie s)) s)
  else panic.

Definition sdb_deleteStateObject (o : stateObject) : M unit :=
  modify (fun s => set_sdb_trie (delete (so_address o) (sdb_trie s)) s).

Definition sdb_IntermediateRoot (deleteEmptyObjects : bool) : M (gmap Address Account) :=
  _ ← sdb_Finalise deleteEmptyObjects;
  pending ← gets (fun s => elements (sdb_stateObjectsPending s));
  _ ← mapM_ (fun addr => o ← obj addr;
                         if so_deleted o then mret tt else put addr (so_updateRoot o)) pending;
  _ ← mapM_ (fun addr => o ← obj addr;
                         if so_deleted o then sdb_deleteStateObject o else sdb_updateStateObject o) pending;
  _ ← modify (set_sdb_stateObjectsPending ∅);
  gets sdb_trie.

(** The root is the committed account trie. *)
Definition sdb_Commit (deleteEmptyObjects : bool) : M (gmap Address Account) :=
  _ ← sdb_IntermediateRoot deleteEmptyObjects;
  dirty ← gets (fun s => elements (sdb_stateObjectsDirty s));
  _ ← mapM_ (fun addr =>
        o ← obj addr;
        if so_deleted o then mret tt
        else
          _ ← (match so_code o with
               | Some code =>
                   if so_dirtyCode o then
                     _ ← modify (fun s => set_sdb_codes (<[a_CodeHash (so_data o) := code]> (sdb_codes s)) s);
                     upd addr (set_so_dirtyCode false)
                   else mret tt
               | None => mret tt
               end);
          upd addr so_CommitTrie) dirty;
  _ ← modify (set_sdb_stateObjectsDirty ∅);
  _ ← modify (fun s => set_sdb_snapDestructs ∅ (set_sdb_snap None s));
  gets sdb_trie.

(** The copied objects: those of the journal, then the pending and dirty ones. *)
Definition sdb_Copy (s : StateDB) : option StateDB :=
  let dirties : gset Address := dom (j_dirties (sdb_journal s)) in
  let journalled : gset Address := dirties ∩ dom (sdb_stateObjects s) in
  let wanted := journalled ∪ sdb_stateObjectsPending s ∪ sdb_stateObjectsDirty s in
  if decide (wanted ⊆ dom (sdb_stateObjects s)) then
    Some (mkStateDB (sdb_codes s) (sdb_trie s) (sdb_snap s) (sdb_snapDestructs s)
            (so_deepCopy <$> filter (fun kv => kv.1 ∈ wanted) (sdb_stateObjects s))
            (journalled ∪ sdb_stateObjectsPending s) (journalled ∪ sdb_stateObjectsDirty s)
            (sdb_refund s) 0 0 (sdb_logs s) (sdb_logSize s) (sdb_preimages s)
            (al_Copy (sdb_accessList s)) newJournal [] 0)
  else None.
End StateDB.
