(* ===== verification/StateRevert.v ===== *)
(** [RevertToSnapshot] undoes every journalled change.

    The state an undone entry leads to need not be equal to the one before the
    entry: objects stay loaded, an account extension that was created lazily stays,
    and an overwritten storage slot stays in the dirty map with its old value.
    [sdb_le s t] says that [t] shows the same accounts as [s], possibly with more
    loaded.  [J] is the class of computations that can be undone: it is closed under
    sequencing, and every operation of the state belongs to it. *)
From S2P Require Import Prelude KeyedList Common Params Validators Stakers AccessList StateTypes State StateDB.

Open Scope Z_scope.

Section Revert.
  Context {CR : Crypto}.

(** ** What a state shows *)

(** The object of an address, live or as it would be loaded. *)
Definition lookup_obj (s : StateDB) (a : Address) : option stateObject :=
  match sdb_stateObjects s !! a with
  | Some o => Some o
  | None => newObject a <$> backing_account s a
  end.

Definition worm_norm (o : option WormholesExtension) : WormholesExtension :=
  let w := default zeroWorm o in
  set_w_PledgedBalance (Some (default 0 (w_PledgedBalance w)))
    (set_w_PledgedBlockNumber (Some (default 0 (w_PledgedBlockNumber w))) w).

Definition csbt_norm (o : option AccountCSBT) : AccountCSBT := default (mkAccountCSBT 0 0) o.

Definition stk_norm (a : Address) (o : option AccountStaker) : AccountStaker := default (initStaker a) o.

(** The committed and the current value of a storage slot. *)
Definition committed (s : StateDB) (o : stateObject) (key : Hash) : Hash :=
  match so_pendingStorage o !! key, so_originStorage o !! key with
  | Some value, _ => value
  | None, Some value => value
  | None, None =>
      if bool_decide (is_Some (sdb_snap s)) && bool_decide (so_address o ∈ sdb_snapDestructs s)
      then 0 else backing_slot s o key
  end.

Definition slot (s : StateDB) (o : stateObject) (key : Hash) : Hash :=
  match so_dirtyStorage o !! key with
  | Some value => value
  | None => committed s o key
  end.

(** The object [o'] of [t] shows what the object [o] of [s] shows. *)
Record obj_le (s : StateDB) (o : stateObject) (t : StateDB) (o' : stateObject) : Prop := {
  ole_address : so_address o' = so_address o;
  ole_deleted : so_deleted o' = so_deleted o;
  ole_suicided : so_suicided o' = so_suicided o;
  ole_nonce : a_Nonce (so_data o') = a_Nonce (so_data o);
  ole_balance : a_Balance (so_data o') = a_Balance (so_data o);
  ole_root : a_Root (so_data o') = a_Root (so_data o);
  ole_codehash : a_CodeHash (so_data o') = a_CodeHash (so_data o);
  ole_worm : worm_norm (a_Worm (so_data o')) = worm_norm (a_Worm (so_data o));
  ole_csbt : csbt_norm (a_Csbt (so_data o')) = csbt_norm (a_Csbt (so_data o));
  ole_staker : stk_norm (so_address o) (a_Staker (so_data o')) = stk_norm (so_address o) (a_Staker (so_data o));
  ole_extra : default [] (a_Extra (so_data o')) = default [] (a_Extra (so_data o));
  ole_committed : forall k, committed t o' k = committed s o k;
  ole_slot : forall k, slot t o' k = slot s o k;
  ole_code : code_of t o' = code_of s o;
  ole_has_worm : is_Some (a_Worm (so_data o)) -> is_Some (a_Worm (so_data o'));
  ole_has_csbt : is_Some (a_Csbt (so_data o)) -> is_Some (a_Csbt (so_data o'));
  ole_has_staker : is_Some (a_Staker (so_data o)) -> is_Some (a_Staker (so_data o'));
}.

Definition opt_le (s : StateDB) (x : option stateObject) (t : StateDB) (y : option stateObject) : Prop :=
  match x, y with
  | Some o, Some o' => obj_le s o t o'
  | None, None => True
  | _, _ => False
  end.

(** The parts of a state other than its objects and its journal. *)
Definition rest (s : StateDB) :=
  (sdb_codes s, sdb_trie s, sdb_snap s, sdb_snapDestructs s,
   (sdb_refund s, sdb_thash s, sdb_txIndex s, sdb_logs s, sdb_logSize s, sdb_preimages s, sdb_accessList s)).

Definition sdb_le (s t : StateDB) : Prop :=
  rest t = rest s /\ forall a, opt_le s (lookup_obj s a) t (lookup_obj t a).

#[export] Instance sdb_le_refl : Reflexive sdb_le.
Proof. intros s. split; [done|]. intros a. destruct (lookup_obj s a); simpl; [|done]. by split. Qed.

Lemma obj_le_trans s o t o' u o'' : obj_le s o t o' -> obj_le t o' u o'' -> obj_le s o u o''.
Proof.
  intros [] []. split; try congruence; try (intros; congruence); auto.
Qed.

#[export] Instance sdb_le_trans : Transitive sdb_le.
Proof.
  intros s t u [Hst Host] [Htu Hotu]. split; [congruence|]. intros a.
  specialize (Host a). specialize (Hotu a). unfold opt_le in *.
  destruct (lookup_obj s a), (lookup_obj t a), (lookup_obj u a); try done.
  by eapply obj_le_trans.
Qed.

(** ** Well-formed states *)

Definition obj_ok (a : Address) (o : stateObject) : Prop :=
  so_address o = a /\ so_fakeStorage o = None.

(** Objects are filed under their address and have no debugging storage; the access
    list is well formed; no transaction has an empty list of logs. *)
Definition sdb_wf (s : StateDB) : Prop :=
  (forall a o, sdb_stateObjects s !! a = Some o -> obj_ok a o) /\
  al_wf (sdb_accessList s) /\
  (forall h, sdb_logs s !! h <> Some []).

Lemma lookup_obj_ok s a o : sdb_wf s -> lookup_obj s a = Some o -> obj_ok a o.
Proof.
  intros [Hwf _]. unfold lookup_obj. destruct (sdb_stateObjects s !! a) eqn:Ha.
  - intros [= <-]. by apply Hwf.
  - intros [d [_ ->]]%fmap_Some. done.
Qed.

(** The account exists. *)
Definition alive (s : StateDB) (a : Address) : Prop :=
  exists o, lookup_obj s a = Some o /\ so_deleted o = false.

(** ** Computations that can be undone *)

Definition entries (s : StateDB) : list journalEntry := j_entries (sdb_journal s).

(** The identifiers of the valid revisions are in the past. *)
Definition revs_ok (s : StateDB) : Prop :=
  Forall (fun r => r_id r < sdb_nextRevisionId s) (sdb_validRevisions s).

(** The revisions taken since [s] have new identifiers. *)
Definition revs_extend (s s' : StateDB) : Prop :=
  exists vs, sdb_validRevisions s' = sdb_validRevisions s ++ vs
    /\ Forall (fun r => sdb_nextRevisionId s <= r_id r < sdb_nextRevisionId s') vs
    /\ sdb_nextRevisionId s <= sdb_nextRevisionId s'.

Lemma revs_extend_ok s s' : revs_extend s s' -> revs_ok s -> revs_ok s'.
Proof.
  intros (vs & Hv & Hf & Hn) Hok. unfold revs_ok in *. rewrite Hv. apply Forall_app. split.
  - eapply Forall_impl; [exact Hok|]. simpl. lia.
  - eapply Forall_impl; [exact Hf|]. simpl. lia.
Qed.

Definition same_journal (s t : StateDB) : Prop :=
  entries t = entries s /\ sdb_validRevisions t = sdb_validRevisions s
  /\ sdb_nextRevisionId t = sdb_nextRevisionId s.

Definition undone (s s' : StateDB) (es : list journalEntry) : Prop :=
  forall t, sdb_wf t -> sdb_le s' t ->
  exists t', mapM_ revert_step es t = Some (tt, t') /\ sdb_wf t' /\ sdb_le s t' /\ same_journal t t'.

Definition Jspec (s s' : StateDB) : Prop :=
  sdb_wf s' /\ (forall a, alive s a -> alive s' a) /\ revs_extend s s' /\
  exists es, entries s' = es ++ entries s /\ undone s s' es.

(** The precondition of a computation that uses the objects of the addresses [L]. *)
Definition live (L : list Address) (s : StateDB) : Prop :=
  revs_ok s /\ forall a, a ∈ L -> alive s a.

Definition J {A : Type} (L : list Address) (m : M A) : Prop :=
  forall s x s', sdb_wf s -> live L s -> m s = Some (x, s') -> Jspec s s'.

Lemma live_obj L s a o :
  live L s -> a ∈ L -> sdb_stateObjects s !! a = Some o -> so_deleted o = false.
Proof.
  intros [_ HL] Ha Ho. destruct (HL a Ha) as (o' & Ho' & Hd). unfold lookup_obj in Ho'.
  rewrite Ho in Ho'. congruence.
Qed.

Lemma live_Jspec L s s' : live L s -> Jspec s s' -> live L s'.
Proof. intros [Hr HL] (_ & Ha & Hrev & _). split; [by eapply revs_extend_ok|]. auto. Qed.

Lemma mapM_app {A : Type} (f : A -> M unit) l1 l2 s :
  mapM_ f (l1 ++ l2) s = match mapM_ f l1 s with Some (_, s') => mapM_ f l2 s' | None => None end.
Proof.
  revert s. induction l1 as [|x l1 IH]; intros s; simpl; [done|].
  unfold mbind, M_bind. destruct (f x s) as [[? s']|]; [apply IH|done].
Qed.

Lemma same_journal_trans s t u : same_journal s t -> same_journal t u -> same_journal s u.
Proof. intros (?&?&?) (?&?&?). split_and!; congruence. Qed.

Lemma revs_extend_refl s s' :
  sdb_validRevisions s' = sdb_validRevisions s -> sdb_nextRevisionId s' = sdb_nextRevisionId s ->
  revs_extend s s'.
Proof. intros H1 H2. exists []. rewrite app_nil_r. split_and!; [done|constructor|lia]. Qed.

(** A step that only loads or normalises needs no undoing. *)
Lemma Jspec_quiet s s' :
  sdb_wf s' -> sdb_le s s' -> same_journal s s' -> (forall a, alive s a -> alive s' a) -> Jspec s s'.
Proof.
  intros Hwf Hle (He & Hv & Hn) Ha. split_and!; [done|done|by apply revs_extend_refl|].
  exists []. split; [done|]. intros t Ht Hlt. exists t.
  split_and!; [done|done|by transitivity s'|done].
Qed.

Lemma Jspec_trans s1 s2 s3 : Jspec s1 s2 -> Jspec s2 s3 -> Jspec s1 s3.
Proof.
  intros (Hw2 & Ha2 & (v2 & Hv2 & Hf2 & Hn2) & e2 & He2 & Hu2)
    (Hw3 & Ha3 & (v3 & Hv3 & Hf3 & Hn3) & e3 & He3 & Hu3).
  split_and!; [done|auto| |].
  - exists (v2 ++ v3). rewrite Hv3, Hv2, app_assoc. split_and!; [done| |lia].
    apply Forall_app. split; [eapply Forall_impl; [exact Hf2|]|eapply Forall_impl; [exact Hf3|]]; simpl; lia.
  - exists (e3 ++ e2). rewrite He3, He2, app_assoc. split; [done|]. intros t Ht Hle.
    destruct (Hu3 t Ht Hle) as (t2 & Hr3 & Hwt2 & Hle2 & Hj2).
    destruct (Hu2 t2 Hwt2 Hle2) as (t1 & Hr2 & Hwt1 & Hle1 & Hj1).
    exists t1. rewrite mapM_app, Hr3. split_and!; [done|done|done|by eapply same_journal_trans].
Qed.

(** ** Closure *)

Lemma J_ret {A : Type} L (x : A) : J L (mret x).
Proof. intros s y s' Hwf _ [= <- <-]. by apply Jspec_quiet. Qed.

Lemma J_bind {A B : Type} L (m : M A) (f : A -> M B) :
  J L m -> (forall x, J L (f x)) -> J L (m ≫= f).
Proof.
  intros Hm Hf s y s' Hwf HL. unfold mbind, M_bind.
  destruct (m s) as [[x s1]|] eqn:Hs; [|done]. intros Hfs.
  pose proof (Hm s x s1 Hwf HL Hs) as H1.
  eapply Jspec_trans; [exact H1|]. eapply (Hf x); [apply H1|by eapply live_Jspec|done].
Qed.

Lemma J_gets {A : Type} L (f : StateDB -> A) : J L (gets f).
Proof. intros s y s' Hwf _ [= <- <-]. by apply Jspec_quiet. Qed.

Lemma J_panic {A : Type} L : J L (@panic A).
Proof. intros s y s' _ _ [=]. Qed.

Lemma J_deref {A : Type} L (o : option A) : J L (deref o).
Proof. destruct o; [apply J_ret|apply J_panic]. Qed.

Lemma J_mapM {A : Type} L (f : A -> M unit) l : (forall x, J L (f x)) -> J L (mapM_ f l).
Proof.
  intros Hf. induction l as [|x l IH]; simpl; [apply J_ret|]. by apply J_bind.
Qed.

(** ** Replacing one object *)

Definition set_obj (a : Address) (o : stateObject) (s : StateDB) : StateDB :=
  set_sdb_stateObjects (<[a := o]> (sdb_stateObjects s)) s.

Lemma set_obj_lookup a o s : sdb_stateObjects (set_obj a o s) !! a = Some o.
Proof. apply lookup_insert_eq. Qed.

Lemma set_obj_lookup_obj a o s : lookup_obj (set_obj a o s) a = Some o.
Proof. unfold lookup_obj. by rewrite set_obj_lookup. Qed.

Lemma set_obj_lookup_obj_ne a b o s : a <> b -> lookup_obj (set_obj a o s) b = lookup_obj s b.
Proof. intros Hne. unfold lookup_obj. simpl. by rewrite lookup_insert_ne. Qed.

Lemma set_obj_twice a o o' s : set_obj a o (set_obj a o' s) = set_obj a o s.
Proof. unfold set_obj, set_sdb_stateObjects. simpl. by rewrite insert_insert_eq. Qed.

Lemma set_obj_id a o s : sdb_stateObjects s !! a = Some o -> set_obj a o s = s.
Proof. intros H. unfold set_obj. rewrite insert_id by done. by destruct s. Qed.

Lemma lookup_obj_live s a o : sdb_stateObjects s !! a = Some o -> lookup_obj s a = Some o.
Proof. unfold lookup_obj. by intros ->. Qed.

(** Loading: the object found ends up in the live set. *)
Lemma getDeletedStateObject_run s a :
  sdb_getDeletedStateObject a s =
  match lookup_obj s a with
  | Some o => Some (Some o, set_obj a o s)
  | None => Some (None, s)
  end.
Proof.
  unfold sdb_getDeletedStateObject, lookup_obj.
  destruct (sdb_stateObjects s !! a) as [o|] eqn:Ha; [by rewrite (set_obj_id a o s)|].
  by destruct (backing_account s a).
Qed.

Lemma getStateObject_run s a :
  sdb_getStateObject a s =
  match lookup_obj s a with
  | Some o => Some (if so_deleted o then None else Some o, set_obj a o s)
  | None => Some (None, s)
  end.
Proof.
  unfold sdb_getStateObject, mbind, M_bind. rewrite getDeletedStateObject_run.
  by destruct (lookup_obj s a).
Qed.

(** What an object shows depends on the state through [rest] only. *)
Lemma slot_rest s t o k : rest t = rest s -> slot t o k = slot s o k /\ committed t o k = committed s o k.
Proof.
  intros [= Hc Ht Hs Hd _ _ _ _ _ _ _]. unfold slot, committed, backing_slot. by rewrite Hs, Hd.
Qed.

Lemma code_of_rest s t o : rest t = rest s -> code_of t o = code_of s o.
Proof. intros [= Hc _ _ _ _ _ _ _ _ _ _]. unfold code_of. by rewrite Hc. Qed.

Lemma obj_le_rest s s' t t' o o' :
  rest s' = rest s -> rest t' = rest t -> obj_le s o t o' -> obj_le s' o t' o'.
Proof.
  intros Hs Ht []. split; try done.
  - intros k. rewrite (proj2 (slot_rest s s' o k Hs)), (proj2 (slot_rest t t' o' k Ht)). done.
  - intros k. rewrite (proj1 (slot_rest s s' o k Hs)), (proj1 (slot_rest t t' o' k Ht)). done.
  - by rewrite (code_of_rest s s' o Hs), (code_of_rest t t' o' Ht).
Qed.

Lemma obj_le_refl s t o : rest t = rest s -> obj_le s o t o.
Proof. intros Ht. eapply (obj_le_rest s s s t); [done|done|]. by split. Qed.

Lemma backing_rest s t a : rest t = rest s -> backing_account t a = backing_account s a.
Proof. intros [= _ Htr Hs _ _ _ _ _ _ _ _]. unfold backing_account. by rewrite Hs, Htr. Qed.

Lemma opt_le_rest s s' t t' x y :
  rest s' = rest s -> rest t' = rest t -> opt_le s x t y -> opt_le s' x t' y.
Proof. intros Hs Ht. destruct x, y; simpl; [|done..]. by apply obj_le_rest. Qed.

Lemma opt_le_refl s t x : rest t = rest s -> opt_le s x t x.
Proof. intros Ht. destruct x; simpl; [by apply obj_le_refl|done]. Qed.

(** Two states with the same objects and the same rest show the same. *)
Lemma sdb_le_same s t :
  rest t = rest s -> sdb_stateObjects t = sdb_stateObjects s -> sdb_le s t.
Proof.
  intros Hr Ho. split; [done|]. intros a.
  replace (lookup_obj t a) with (lookup_obj s a); [by apply opt_le_refl|].
  unfold lookup_obj. by rewrite Ho, (backing_rest s t a Hr).
Qed.

Lemma sdb_le_set_obj s a o o1 :
  lookup_obj s a = Some o -> obj_le s o s o1 -> sdb_le s (set_obj a o1 s).
Proof.
  intros Ho Hle. split; [done|]. intros b. destruct (decide (a = b)) as [<-|Hne].
  - rewrite Ho, set_obj_lookup_obj. by apply (obj_le_rest s s s (set_obj a o1 s)).
  - rewrite set_obj_lookup_obj_ne by done. by apply opt_le_refl.
Qed.

Lemma sdb_wf_set_obj s a o : sdb_wf s -> obj_ok a o -> sdb_wf (set_obj a o s).
Proof.
  intros (Hwf & Hal & Hl) Ho. split_and!; [|done|done].
  intros b o'. simpl. intros [[<- <-]|[_ Hb]]%lookup_insert_Some; [done|by apply Hwf].
Qed.

Lemma alive_set_obj s a o b : so_deleted o = false -> alive s b -> alive (set_obj a o s) b.
Proof.
  intros Hd (o' & Hb & Hdel). destruct (decide (a = b)) as [<-|Hne].
  - exists o. by rewrite set_obj_lookup_obj.
  - exists o'. by rewrite set_obj_lookup_obj_ne.
Qed.

Lemma alive_le s t a : sdb_le s t -> alive s a -> alive t a.
Proof.
  intros [_ Hle] (o & Ho & Hd). specialize (Hle a). rewrite Ho in Hle. unfold opt_le in Hle.
  destruct (lookup_obj t a) as [o'|] eqn:Ho'; [|done].
  exists o'. split; [done|]. by rewrite (ole_deleted _ _ _ _ Hle).
Qed.

(** Replacing a live object by one that shows the same is quiet. *)
Lemma Jspec_set_obj s a o o1 :
  sdb_wf s -> lookup_obj s a = Some o -> obj_ok a o1 -> obj_le s o s o1 -> Jspec s (set_obj a o1 s).
Proof.
  intros Hwf Ho Hok Hle. assert (Hl : sdb_le s (set_obj a o1 s)) by by eapply sdb_le_set_obj.
  apply Jspec_quiet; [by apply sdb_wf_set_obj|done|done|]. intros b. by apply alive_le.
Qed.

Lemma J_getDeletedStateObject L a : J L (sdb_getDeletedStateObject a).
Proof.
  intros s x s' Hwf _. rewrite getDeletedStateObject_run.
  destruct (lookup_obj s a) as [o|] eqn:Ho; intros [= <- <-]; [|by apply Jspec_quiet].
  eapply Jspec_set_obj; [done|done|by eapply lookup_obj_ok|by apply obj_le_refl].
Qed.

Lemma J_getStateObject L a : J L (sdb_getStateObject a).
Proof. apply J_bind; [apply J_getDeletedStateObject|]. intros x. apply J_ret. Qed.

Lemma J_obj L a : J L (obj a).
Proof. intros s x s' Hwf _. unfold obj. destruct (_ !! a); [|done]. intros [= <- <-]. by apply Jspec_quiet. Qed.

(** ** Journalled changes of one object *)

Definition add_entry (e : journalEntry) (s : StateDB) : StateDB :=
  set_sdb_journal
    (mkJournal (e :: entries s)
       (match dirtied e with
        | Some a => dirties_inc a (j_dirties (sdb_journal s))
        | None => j_dirties (sdb_journal s)
        end)) s.

Lemma journal_append_run e s : journal_append e s = Some (tt, add_entry e s).
Proof. done. Qed.

(** A partial change of the object of an address. *)
Definition edit (a : Address) (ed : stateObject -> option stateObject) : M unit := fun s =>
  match sdb_stateObjects s !! a with
  | Some o => match ed o with Some o1 => Some (tt, set_obj a o1 s) | None => None end
  | None => None
  end.

(** The bookkeeping around [revert_entry] touches the dirty counters only. *)
Lemma revert_step_run e t t1 :
  revert_entry e t = Some (tt, t1) ->
  exists t2, revert_step e t = Some (tt, t2) /\ rest t2 = rest t1 /\
    sdb_stateObjects t2 = sdb_stateObjects t1 /\ same_journal t1 t2.
Proof.
  intros H. unfold revert_step, mbind, M_bind. rewrite H.
  destruct (dirtied e); (eexists; split; [done|]); done.
Qed.

Lemma sdb_wf_same s t :
  rest t = rest s -> sdb_stateObjects t = sdb_stateObjects s -> sdb_wf s -> sdb_wf t.
Proof.
  intros [= _ _ _ _ _ _ _ Hl _ _ Hal] Ho. unfold sdb_wf. by rewrite Ho, Hl, Hal.
Qed.

(** Undoing one entry, given what [revert_entry] does. *)
Lemma undone_one s s' e :
  (forall t, sdb_wf t -> sdb_le s' t ->
     exists t', revert_entry e t = Some (tt, t') /\ sdb_wf t' /\ sdb_le s t' /\ same_journal t t') ->
  undone s s' [e].
Proof.
  intros H t Hwf Hle. destruct (H t Hwf Hle) as (t1 & Hr & Hw1 & Hle1 & Hj1).
  destruct (revert_step_run e t t1 Hr) as (t2 & Hs & Hr2 & Ho2 & Hj2).
  exists t2. simpl. unfold mbind, M_bind. rewrite Hs.
  split_and!; [done|by eapply sdb_wf_same| |by eapply same_journal_trans].
  transitivity t1; [done|]. by apply sdb_le_same.
Qed.

Lemma revert_object_run a t o f :
  lookup_obj t a = Some o -> so_deleted o = false ->
  revert_object a f t = f (set_obj a o t).
Proof.
  intros Ho Hd. unfold revert_object, mbind, M_bind. by rewrite getStateObject_run, Ho, Hd.
Qed.

(** The object at [a] goes from [o] to [o1] with the entry [e], and the change [ued]
    of the entry leads any object that shows [o1] to one that shows [o]. *)
Lemma Jspec_edit_gen s a o o1 e ued :
  sdb_wf s -> sdb_stateObjects s !! a = Some o -> so_deleted o = false ->
  obj_ok a o1 -> so_deleted o1 = false ->
  (forall t o', lookup_obj t a = Some o' -> so_deleted o' = false ->
     revert_entry e t = edit a ued (set_obj a o' t)) ->
  (forall t o', rest t = rest s -> obj_ok a o' -> obj_le s o1 t o' ->
     exists o'', ued o' = Some o'' /\ obj_ok a o'' /\ obj_le s o t o'') ->
  Jspec s (set_obj a o1 (add_entry e s)).
Proof.
  intros Hwf Ho Hd Hok1 Hd1 Hrev Hback. set (s' := set_obj a o1 (add_entry e s)).
  split_and!; [by apply (sdb_wf_set_obj s)|intros b; by apply (alive_set_obj s)|by apply revs_extend_refl|].
  exists [e]. split; [done|]. apply undone_one. intros t Ht [Hr Hle].
  pose proof (Hle a) as Ha. unfold s' in Ha. rewrite set_obj_lookup_obj in Ha. fold s' in Ha.
  destruct (lookup_obj t a) as [o'|] eqn:Ho'; [|done]. simpl in Ha.
  pose proof (lookup_obj_ok t a o' Ht Ho') as Hok'.
  destruct (Hback t o') as (o'' & Hu & Hok'' & Hle''); [done|done|by apply (obj_le_rest s' s t t)|].
  rewrite (Hrev t o') by (done || by rewrite (ole_deleted _ _ _ _ Ha)).
  unfold edit. rewrite set_obj_lookup, Hu, set_obj_twice.
  exists (set_obj a o'' t). split_and!; [done|by apply sdb_wf_set_obj| |done].
  split; [done|]. intros b. destruct (decide (a = b)) as [<-|Hne].
  - rewrite (lookup_obj_live s a o Ho), set_obj_lookup_obj. by apply (obj_le_rest s s t (set_obj a o'' t)).
  - rewrite (set_obj_lookup_obj_ne a b o'' t Hne). specialize (Hle b).
    unfold s' in Hle. rewrite (set_obj_lookup_obj_ne a b) in Hle by done.
    by apply (opt_le_rest s' s t (set_obj a o'' t)).
Qed.

Lemma Jspec_edit s a o o1 e ued :
  sdb_wf s -> sdb_stateObjects s !! a = Some o -> so_deleted o = false ->
  obj_ok a o1 -> so_deleted o1 = false ->
  (forall t, revert_entry e t = revert_object a (edit a ued) t) ->
  (forall t o', rest t = rest s -> obj_ok a o' -> obj_le s o1 t o' ->
     exists o'', ued o' = Some o'' /\ obj_ok a o'' /\ obj_le s o t o'') ->
  Jspec s (set_obj a o1 (add_entry e s)).
Proof.
  intros Hwf Ho Hd Hok Hd1 Hrev Hback. eapply Jspec_edit_gen; [done..| |exact Hback].
  intros t o' Ho' Hd'. by rewrite Hrev, (revert_object_run a t o').
Qed.

(** ** Changes of the account data *)

Definition ed_data (f : Account -> Account) (o : stateObject) : option stateObject :=
  Some (set_so_data (f (so_data o)) o).
Definition ed_worm (h : WormholesExtension -> WormholesExtension) (o : stateObject) : option stateObject :=
  w ← a_Worm (so_data o); Some (set_so_data (set_a_Worm (Some (h w)) (so_data o)) o).
Definition ed_csbt (h : AccountCSBT -> AccountCSBT) (o : stateObject) : option stateObject :=
  c ← a_Csbt (so_data o); Some (set_so_data (set_a_Csbt (Some (h c)) (so_data o)) o).
Definition ed_stk (h : AccountStaker -> AccountStaker) (o : stateObject) : option stateObject :=
  k ← a_Staker (so_data o); Some (set_so_data (set_a_Staker (Some (h k)) (so_data o)) o).

Lemma upd_edit a f s : upd a f s = edit a (fun o => Some (f o)) s.
Proof. unfold upd, edit. run_obj. by destruct (_ !! a). Qed.

Lemma upd_data_edit a f s : upd_data a f s = edit a (ed_data f) s.
Proof. apply upd_edit. Qed.

Lemma upd_worm_edit a h s : upd_worm a h s = edit a (ed_worm h) s.
Proof.
  unfold upd_worm, worm, upd_data, upd, edit, ed_worm. run_obj.
  destruct (sdb_stateObjects s !! a) as [o|] eqn:Ho; [|done].
  destruct (a_Worm (so_data o)); simpl; [|done]. by rewrite Ho.
Qed.

Lemma upd_csbt_edit a h s : upd_csbt a h s = edit a (ed_csbt h) s.
Proof.
  unfold upd_csbt, csbt, upd_data, upd, edit, ed_csbt. run_obj.
  destruct (sdb_stateObjects s !! a) as [o|] eqn:Ho; [|done].
  destruct (a_Csbt (so_data o)); simpl; [|done]. by rewrite Ho.
Qed.

Lemma upd_stk_edit a h s : upd_stk a h s = edit a (ed_stk h) s.
Proof.
  unfold upd_stk, stk, upd_data, upd, edit, ed_stk. run_obj.
  destruct (sdb_stateObjects s !! a) as [o|] eqn:Ho; [|done].
  destruct (a_Staker (so_data o)); simpl; [|done]. by rewrite Ho.
Qed.

Lemma revert_object_ext a f g : (forall s, f s = g s) -> forall t, revert_object a f t = revert_object a g t.
Proof.
  intros H t. unfold revert_object, mbind, M_bind.
  destruct (sdb_getStateObject a t) as [[[o|] t']|]; [apply H|done..].
Qed.

(** The storage and the code do not depend on the other account data. *)
Lemma slot_set_data s o d k :
  a_Root d = a_Root (so_data o) ->
  slot s (set_so_data d o) k = slot s o k /\ committed s (set_so_data d o) k = committed s o k.
Proof.
  intros Hr. unfold slot, committed, backing_slot, so_getTrie. simpl. by rewrite Hr.
Qed.

Lemma code_of_set_data s o d :
  a_CodeHash d = a_CodeHash (so_data o) -> code_of s (set_so_data d o) = code_of s o.
Proof. intros Hc. unfold code_of. simpl. by rewrite Hc. Qed.

(** The account data [d] shows what [d0] shows, leaving out root and code hash. *)
Definition data_le (a : Address) (d0 d : Account) : Prop :=
  a_Nonce d = a_Nonce d0 /\ a_Balance d = a_Balance d0 /\
  worm_norm (a_Worm d) = worm_norm (a_Worm d0) /\ csbt_norm (a_Csbt d) = csbt_norm (a_Csbt d0) /\
  stk_norm a (a_Staker d) = stk_norm a (a_Staker d0) /\
  default [] (a_Extra d) = default [] (a_Extra d0) /\
  (is_Some (a_Worm d0) -> is_Some (a_Worm d)) /\ (is_Some (a_Csbt d0) -> is_Some (a_Csbt d)) /\
  (is_Some (a_Staker d0) -> is_Some (a_Staker d)).

Lemma obj_le_data s o t o' : obj_le s o t o' -> data_le (so_address o) (so_data o) (so_data o').
Proof. intros []. by split_and!. Qed.

(** If [o'] shows [o] with other account data, then [o'] with data that shows the
    data of [o] shows [o]. *)
Lemma obj_le_restore s o d1 t o' d2 :
  a_Root d1 = a_Root (so_data o) -> a_CodeHash d1 = a_CodeHash (so_data o) ->
  obj_le s (set_so_data d1 o) t o' ->
  a_Root d2 = a_Root (so_data o') -> a_CodeHash d2 = a_CodeHash (so_data o') ->
  data_le (so_address o) (so_data o) d2 ->
  obj_le s o t (set_so_data d2 o').
Proof.
  intros Hr1 Hc1 [] Hr2 Hc2 (?&?&?&?&?&?&?&?&?). simpl in *. split; simpl; try done; try congruence.
  - intros k. rewrite (proj2 (slot_set_data t o' d2 k Hr2)), ole_committed0.
    apply (slot_set_data s o d1 k Hr1).
  - intros k. rewrite (proj1 (slot_set_data t o' d2 k Hr2)), ole_slot0.
    apply (slot_set_data s o d1 k Hr1).
  - rewrite (code_of_set_data t o' d2 Hc2), ole_code0. by apply code_of_set_data.
Qed.

Lemma set_so_data_id o : set_so_data (so_data o) o = o.
Proof. by destruct o. Qed.

(** ** The journalled setters of an extension *)

Lemma J_worm L a (m : M unit) E h g :
  a ∈ L ->
  (forall s, m s = (w ← worm a; _ ← journal_append (E w); upd_worm a h) s) ->
  (forall w t, revert_entry (E w) t = revert_object a (upd_worm a (g w)) t) ->
  (forall w w', worm_norm (Some w') = worm_norm (Some (h w)) ->
                worm_norm (Some (g w w')) = worm_norm (Some w)) ->
  J L m.
Proof.
  intros Ha Hm Hrev Hback s x s' Hwf HL. rewrite Hm. unfold worm. run_obj.
  destruct (sdb_stateObjects s !! a) as [o|] eqn:Ho; [|done]. pose proof (live_obj L s a o HL Ha Ho) as Hd.
  destruct (a_Worm (so_data o)) as [w|] eqn:Hw; simpl; [|done].
  rewrite upd_worm_edit. unfold edit. simpl. rewrite Ho. unfold ed_worm. rewrite Hw. simpl.
  intros [= <- <-]. pose proof (proj1 Hwf a o Ho) as [Hoa Hof].
  eapply (Jspec_edit s a o _ (E w) (ed_worm (g w))); [done|done|done|done|done| |].
  - intros t. rewrite Hrev. apply revert_object_ext. intros. apply upd_worm_edit.
  - intros t o' Ht Hok Hle. pose proof (ole_has_worm _ _ _ _ Hle) as [w' Hw']; [by eexists|].
    unfold ed_worm. rewrite Hw'. eexists. split; [done|]. split; [done|].
    eapply obj_le_restore; [| |exact Hle|done|done|]; [done|done|].
    pose proof (obj_le_data _ _ _ _ Hle) as (?&?&Hn&?&?&?&?&?&?). simpl in *. rewrite Hw' in Hn.
    split_and!; try done; simpl. rewrite Hw. by apply Hback.
Qed.

Lemma J_csbt L a (m : M unit) E h g :
  a ∈ L ->
  (forall s, m s = (c ← csbt a; _ ← journal_append (E c); upd_csbt a h) s) ->
  (forall c t, revert_entry (E c) t = revert_object a (upd_csbt a (g c)) t) ->
  (forall c, g c (h c) = c) ->
  J L m.
Proof.
  intros Ha Hm Hrev Hback s x s' Hwf HL. rewrite Hm. unfold csbt. run_obj.
  destruct (sdb_stateObjects s !! a) as [o|] eqn:Ho; [|done]. pose proof (live_obj L s a o HL Ha Ho) as Hd.
  destruct (a_Csbt (so_data o)) as [c|] eqn:Hc; simpl; [|done].
  rewrite upd_csbt_edit. unfold edit. simpl. rewrite Ho. unfold ed_csbt. rewrite Hc. simpl.
  intros [= <- <-]. pose proof (proj1 Hwf a o Ho) as [Hoa Hof].
  eapply (Jspec_edit s a o _ (E c) (ed_csbt (g c))); [done|done|done|done|done| |].
  - intros t. rewrite Hrev. apply revert_object_ext. intros. apply upd_csbt_edit.
  - intros t o' Ht Hok Hle. pose proof (ole_has_csbt _ _ _ _ Hle) as [c' Hc']; [by eexists|].
    unfold ed_csbt. rewrite Hc'. eexists. split; [done|]. split; [done|].
    eapply obj_le_restore; [| |exact Hle|done|done|]; [done|done|].
    pose proof (obj_le_data _ _ _ _ Hle) as (?&?&?&Hn&?&?&?&?&?). simpl in *. rewrite Hc' in Hn.
    simpl in Hn. subst c'. split_and!; try done; simpl. rewrite Hc, Hback. done.
Qed.

Lemma J_stk L a (m : M unit) E h g :
  a ∈ L ->
  (forall s, m s = (k ← stk a; e ← E k; _ ← journal_append e; upd_stk a h) s) ->
  (forall s k e s', E k s = Some (e, s') -> s' = s /\
     (forall t, revert_entry e t = revert_object a (upd_stk a (g k)) t) /\ g k (h k) = k) ->
  J L m.
Proof.
  intros Ha Hm Hrev s x s' Hwf HL. rewrite Hm. unfold stk. run_obj.
  destruct (sdb_stateObjects s !! a) as [o|] eqn:Ho; [|done]. pose proof (live_obj L s a o HL Ha Ho) as Hd.
  destruct (a_Staker (so_data o)) as [k|] eqn:Hk; simpl; [|done].
  destruct (E k s) as [[e s1]|] eqn:He; [|done].
  destruct (Hrev s k e s1 He) as (-> & Hre & Hback).
  rewrite upd_stk_edit. unfold edit. simpl. rewrite Ho. unfold ed_stk. rewrite Hk. simpl.
  intros [= <- <-]. pose proof (proj1 Hwf a o Ho) as [Hoa Hof].
  eapply (Jspec_edit s a o _ e (ed_stk (g k))); [done|done|done|done|done| |].
  - intros t. rewrite Hre. apply revert_object_ext. intros. apply upd_stk_edit.
  - intros t o' Ht Hok Hle. pose proof (ole_has_staker _ _ _ _ Hle) as [k' Hk']; [by eexists|].
    unfold ed_stk. rewrite Hk'. eexists. split; [done|]. split; [done|].
    eapply obj_le_restore; [| |exact Hle|done|done|]; [done|done|].
    pose proof (obj_le_data _ _ _ _ Hle) as (?&?&?&?&Hn&?&?&?&?). simpl in *. rewrite Hk' in Hn.
    simpl in Hn. subst k'. split_and!; try done; simpl. rewrite Hk, Hback. done.
Qed.

Section Setters.
  Context (L : list Address) (a : Address) (Ha : a ∈ L).

Ltac worm_setter h g :=
  eapply (J_worm L a _ _ h g Ha);
  [intros s; reflexivity | intros w t; reflexivity
  | intros [] []; unfold worm_norm, set_w_PledgedBalance, set_w_PledgedBlockNumber, set_w_Coefficient,
      set_w_StakerExtension, set_w_ValidatorExtension, set_w_ValidatorProxy; simpl; congruence].

Lemma J_SetStakerPledge l : J L (so_SetStakerPledge a l).
Proof. worm_setter (set_w_StakerExtension l) (fun w => set_w_StakerExtension (w_StakerExtension w)). Qed.

Lemma J_SetValidatorExtension l : J L (so_SetValidatorExtension a l).
Proof. worm_setter (set_w_ValidatorExtension l) (fun w => set_w_ValidatorExtension (w_ValidatorExtension w)). Qed.

Lemma J_SetCoefficient c : J L (so_SetCoefficient a c).
Proof. worm_setter (set_w_Coefficient c) (fun w => set_w_Coefficient (w_Coefficient w)). Qed.

Lemma J_SetValidatorProxy p : J L (so_SetValidatorProxy a p).
Proof. worm_setter (set_w_ValidatorProxy p) (fun w => set_w_ValidatorProxy (w_ValidatorProxy w)). Qed.

(** Normalising an extension in place is quiet. *)
Lemma J_upd_worm_norm h :
  (forall w, worm_norm (Some (h w)) = worm_norm (Some w)) -> J L (upd_worm a h).
Proof.
  intros Hh s x s' Hwf HL. rewrite upd_worm_edit. unfold edit, ed_worm.
  destruct (sdb_stateObjects s !! a) as [o|] eqn:Ho; [|done].
  destruct (a_Worm (so_data o)) as [w|] eqn:Hw; simpl; [|done]. intros [= <- <-].
  eapply (Jspec_set_obj s a o); [done|by apply lookup_obj_live|by apply (proj1 Hwf a o Ho)|].
  eapply (obj_le_restore s o (so_data o)); [done|done| |done|done|].
  - rewrite set_so_data_id. by apply obj_le_refl.
  - split_and!; try done; simpl. rewrite Hw. apply Hh.
Qed.

Lemma J_SetPledgedBalance n : J L (so_SetPledgedBalance a n).
Proof.
  apply J_bind; [by apply J_upd_worm_norm|]. intros _.
  worm_setter (set_w_PledgedBalance (Some n))
    (fun w => set_w_PledgedBalance (Some (default 0 (w_PledgedBalance w)))).
Qed.

Lemma J_SetPledgedBlockNumber n : J L (so_SetPledgedBlockNumber a n).
Proof.
  apply J_bind; [by apply J_upd_worm_norm|]. intros _.
  worm_setter (set_w_PledgedBlockNumber (Some n))
    (fun w => set_w_PledgedBlockNumber (Some (default 0 (w_PledgedBlockNumber w)))).
Qed.

Lemma J_SetOwner n : J L (so_SetOwner a n).
Proof.
  eapply (J_csbt L a _ _ (fun c => mkAccountCSBT n (csbt_Creator c))
            (fun c c' => mkAccountCSBT (csbt_Owner c) (csbt_Creator c')) Ha); [reflexivity..|].
  by intros [].
Qed.

Lemma J_SetNFTInfo o c : J L (so_SetNFTInfo a o c).
Proof.
  eapply (J_csbt L a _ _ (fun _ => mkAccountCSBT o c)
            (fun c _ => mkAccountCSBT (csbt_Owner c) (csbt_Creator c)) Ha); [reflexivity..|].
  by intros [].
Qed.

Lemma J_CleanNFT : J L (so_CleanNFT a).
Proof.
  eapply (J_csbt L a _ _ (fun _ => mkAccountCSBT 0 0)
            (fun c _ => mkAccountCSBT (csbt_Owner c) (csbt_Creator c)) Ha); [reflexivity..|].
  by intros [].
Qed.

Lemma J_SetValidators l : J L (so_SetValidators a l).
Proof.
  eapply (J_stk L a _ (fun k => mret (validatorsChange a (as_Validators k)))
            _ (fun k k' => mkAccountStaker (as_Mint k') (as_Validators k) (as_CSBTCreators k')) Ha); [reflexivity|].
  intros s [] e s' [= <- <-]. by split_and!.
Qed.

Lemma J_SetStakers l : J L (so_SetStakers a l).
Proof.
  eapply (J_stk L a _ (fun k => mret (stakersChange a (as_CSBTCreators k)))
            _ (fun k k' => mkAccountStaker (as_Mint k') (as_Validators k') (as_CSBTCreators k)) Ha); [reflexivity|].
  intros s [] e s' [= <- <-]. by split_and!.
Qed.

(** The mint counters: [prev] is the counter that was dereferenced. *)
Lemma J_SetUserMint n : J L (so_SetUserMint a n).
Proof.
  eapply (J_stk L a _ (fun k => p ← deref (md_UserMint (as_Mint k)); mret (userMintChange a p)) _
            (fun k k' => mkAccountStaker (mkMintDeep (Some (default 0 (md_UserMint (as_Mint k))))
                                            (md_OfficialMint (as_Mint k')))
                           (as_Validators k') (as_CSBTCreators k')) Ha).
  - intros s. unfold so_SetUserMint. unfold mbind, M_bind. destruct (stk a s) as [[k s1]|]; [|done].
    by destruct (md_UserMint (as_Mint k)).
  - intros s [[[u|] om] vs cs] e s' [= <- <-]. by split_and!.
Qed.

Lemma J_SetOfficialMint n : J L (so_SetOfficialMint a n).
Proof.
  eapply (J_stk L a _ (fun k => p ← deref (md_OfficialMint (as_Mint k)); mret (officialMintChange a p)) _
            (fun k k' => mkAccountStaker (mkMintDeep (md_UserMint (as_Mint k'))
                                            (Some (default 0 (md_OfficialMint (as_Mint k)))))
                           (as_Validators k') (as_CSBTCreators k')) Ha).
  - intros s. unfold so_SetOfficialMint. unfold mbind, M_bind. destruct (stk a s) as [[k s1]|]; [|done].
    by destruct (md_OfficialMint (as_Mint k)).
  - intros s [[um [u|]] vs cs] e s' [= <- <-]. by split_and!.
Qed.
End Setters.

(** ** Balance, nonce and extra data *)

Lemma J_data L a (m : M unit) E f g :
  a ∈ L ->
  (forall s, m s = (o ← obj a; _ ← journal_append (E (so_data o)); upd_data a f) s) ->
  (forall d t, revert_entry (E d) t = revert_object a (upd_data a (g d)) t) ->
  (forall d, a_Root (f d) = a_Root d /\ a_CodeHash (f d) = a_CodeHash d) ->
  (forall d0 d, a_Root (g d0 d) = a_Root d /\ a_CodeHash (g d0 d) = a_CodeHash d) ->
  (forall b d0 d, data_le b (f d0) d -> data_le b d0 (g d0 d)) ->
  J L m.
Proof.
  intros Ha Hm Hrev Hf Hg Hback s x s' Hwf HL. rewrite Hm. run_obj.
  destruct (sdb_stateObjects s !! a) as [o|] eqn:Ho; [|done]. pose proof (live_obj L s a o HL Ha Ho) as Hd.
  rewrite upd_data_edit. unfold edit. simpl. rewrite Ho. simpl. intros [= <- <-].
  pose proof (proj1 Hwf a o Ho) as [Hoa Hof].
  eapply (Jspec_edit s a o _ (E (so_data o)) (ed_data (g (so_data o)))); [done|done|done|done|done| |].
  - intros t. rewrite Hrev. apply revert_object_ext. intros. apply upd_data_edit.
  - intros t o' Ht Hok Hle. eexists. split; [done|]. split; [done|].
    eapply obj_le_restore; [| |exact Hle| | |]; [by apply Hf|by apply Hf|by apply Hg|by apply Hg|].
    apply Hback. exact (obj_le_data _ _ _ _ Hle).
Qed.

Lemma J_SetBalance L a n : a ∈ L -> J L (so_SetBalance a n).
Proof.
  intros Ha. eapply (J_data L a _ (fun d => balanceChange a (a_Balance d)) (set_a_Balance n)
    (fun d0 => set_a_Balance (a_Balance d0)) Ha); [|done..|].
  - intros s. unfold so_SetBalance, so_Balance. run_obj. by destruct (_ !! a).
  - intros b d0 d (?&?&?&?&?&?&?&?&?). by split_and!.
Qed.

Lemma J_SetNonce L a n : a ∈ L -> J L (so_SetNonce a n).
Proof.
  intros Ha. eapply (J_data L a _ (fun d => nonceChange a (a_Nonce d)) (set_a_Nonce n)
    (fun d0 => set_a_Nonce (a_Nonce d0)) Ha); [done..|].
  intros b d0 d (?&?&?&?&?&?&?&?&?). by split_and!.
Qed.

Lemma J_SetExtra L a e : a ∈ L -> J L (so_SetExtra a e).
Proof.
  intros Ha. eapply (J_data L a _ (fun d => extraChange a (default [] (a_Extra d))) (set_a_Extra e)
    (fun d0 => set_a_Extra (Some (default [] (a_Extra d0)))) Ha); [done..|].
  intros b d0 d (?&?&?&?&?&?&?&?&?). by split_and!.
Qed.

(** ** Entries that do not touch objects *)

Lemma rest_le s t : rest t = rest s -> sdb_stateObjects t = sdb_stateObjects s -> sdb_le s t.
Proof. apply sdb_le_same. Qed.

(** [s'] is [s] with another [rest] and one more entry; the entry brings it back. *)
Lemma Jspec_rest s s' e (f : StateDB -> StateDB) :
  sdb_wf s' -> sdb_stateObjects s' = sdb_stateObjects s -> entries s' = e :: entries s ->
  sdb_validRevisions s' = sdb_validRevisions s -> sdb_nextRevisionId s' = sdb_nextRevisionId s ->
  sdb_codes s' = sdb_codes s -> sdb_trie s' = sdb_trie s -> sdb_snap s' = sdb_snap s ->
  sdb_snapDestructs s' = sdb_snapDestructs s ->
  (forall t, sdb_wf t -> rest t = rest s' -> revert_entry e t = Some (tt, f t) /\
     sdb_wf (f t) /\ rest (f t) = rest s /\ sdb_stateObjects (f t) = sdb_stateObjects t /\ same_journal t (f t)) ->
  Jspec s s'.
Proof.
  intros Hwf Ho He Hv Hn Hc Htr Hsn Hsd Hrev.
  split_and!; [done| |by apply revs_extend_refl|].
  { intros a (o & Ha & Hd). exists o. split; [|done]. rewrite <- Ha.
    unfold lookup_obj, backing_account. by rewrite Ho, Hsn, Htr. }
  exists [e]. split; [done|]. apply undone_one. intros t Ht [Hr Hle].
  destruct (Hrev t Ht Hr) as (Hre & Hwt & Hrt & Hot & Hj). exists (f t). split_and!; [done|done| |done].
  split; [done|]. intros a. specialize (Hle a).
  assert (Hb : forall u, sdb_codes u = sdb_codes s -> sdb_trie u = sdb_trie s -> sdb_snap u = sdb_snap s ->
    sdb_snapDestructs u = sdb_snapDestructs s -> forall o, obj_le s o u o).
  { intros u Huc Hut Hus Hud o. split; try done.
    - intros k. unfold committed, backing_slot. by rewrite Hus, Hud.
    - intros k. unfold slot, committed, backing_slot. by rewrite Hus, Hud.
    - unfold code_of. by rewrite Huc. }
  assert (Hls : lookup_obj s' a = lookup_obj s a).
  { unfold lookup_obj, backing_account. by rewrite Ho, Hsn, Htr. }
  unfold rest in Hr, Hrt. injection Hr as Hr1 Hr2 Hr3 Hr4 _ _ _ _ _ _ _.
  injection Hrt as Ht1 Ht2 Ht3 Ht4 _ _ _ _ _ _ _.
  assert (Hlt : lookup_obj (f t) a = lookup_obj t a).
  { unfold lookup_obj, backing_account. by rewrite Hot, Ht2, Ht3, Hr2, Hr3, Htr, Hsn. }
  rewrite Hls in Hle. rewrite Hlt. unfold opt_le in *.
  destruct (lookup_obj s a) as [o|], (lookup_obj t a) as [o'|]; try done.
  eapply obj_le_trans; [by apply (Hb s')|]. eapply obj_le_trans; [exact Hle|].
  split; try done.
  - intros k. unfold committed, backing_slot. by rewrite Ht3, Ht4, Hr3, Hr4, Hsn, Hsd.
  - intros k. unfold slot, committed, backing_slot. by rewrite Ht3, Ht4, Hr3, Hr4, Hsn, Hsd.
  - unfold code_of. by rewrite Ht1, Hr1, Hc.
Qed.

Lemma J_AddRefund L g : J L (sdb_AddRefund g).
Proof.
  intros s x s' Hwf _ [= <- <-].
  apply (Jspec_rest s _ (refundChange (sdb_refund s)) (set_sdb_refund (sdb_refund s))); try done.
  intros t Ht Hr. unfold rest in *. simpl in *. split_and!; try done; congruence.
Qed.

Lemma J_SubRefund L g : J L (sdb_SubRefund g).
Proof.
  intros s x s' Hwf _. unfold sdb_SubRefund. run_obj. destruct (_ <? _); [done|]. intros [= <- <-].
  apply (Jspec_rest s _ (refundChange (sdb_refund s)) (set_sdb_refund (sdb_refund s))); try done.
  intros t Ht Hr. unfold rest in *. simpl in *. split_and!; try done; congruence.
Qed.

Lemma log_undo (logs : gmap Hash (list Log)) h l :
  (forall k, logs !! k <> Some []) ->
  (if Nat.eqb (length (default [] (logs !! h) ++ [l])) 1
   then delete h (<[h := default [] (logs !! h) ++ [l]]> logs)
   else <[h := take (length (default [] (logs !! h) ++ [l]) - 1) (default [] (logs !! h) ++ [l])]>
          (<[h := default [] (logs !! h) ++ [l]]> logs)) = logs.
Proof.
  intros Hne. rewrite length_app. simpl. destruct (logs !! h) as [ls|] eqn:Hl; simpl.
  - destruct ls as [|l0 ls]; [by apply Hne in Hl|].
    replace (length (l0 :: ls) + 1 =? 1)%nat with false by (symmetry; apply Nat.eqb_neq; simpl; lia).
    rewrite insert_insert_eq, Nat.add_sub, take_app_length. by apply insert_id.
  - rewrite delete_insert_eq. by apply delete_id.
Qed.

Lemma J_AddLog L l : J L (sdb_AddLog l).
Proof.
  intros s x s' Hwf _ [= <- <-]. pose proof Hwf as (Hobj & Hal & Hl).
  set (l' := mkLog _ _ _ _ _ _ _).
  apply (Jspec_rest s _ (addLogChange (sdb_thash s))
    (fun t => set_sdb_logSize (sdb_logSize s) (set_sdb_logs (sdb_logs s) t))); try done.
  - split_and!; [done|done|]. intros h. simpl.
    intros [[_ H]|[_ H]]%lookup_insert_Some; [by apply app_nil in H as [_ ?]|by apply Hl in H].
  - intros t (Ht1 & Ht2 & Ht3) Hr. unfold rest in *. simpl in *.
    injection Hr as ? ? ? ? ? ? ? Hlogs Hsz ? ?.
    split_and!; try done; [|congruence].
    run_obj. rewrite Hlogs, Hsz, lookup_insert_eq. simpl. rewrite (log_undo (sdb_logs s) (sdb_thash s) l' Hl).
    by replace (sdb_logSize s + 1 - 1) with (sdb_logSize s) by lia.
Qed.

Lemma J_AddPreimage L h p : J L (sdb_AddPreimage h p).
Proof.
  intros s x s' Hwf _. unfold sdb_AddPreimage. run_obj.
  destruct (sdb_preimages s !! h) eqn:Hp; intros [= <- <-]; [by apply Jspec_quiet|].
  apply (Jspec_rest s _ (addPreimageChange h)
    (fun t => set_sdb_preimages (delete h (sdb_preimages t)) t)); try done.
  intros t Ht Hr. unfold rest in *. simpl in *. injection Hr as ? ? ? ? ? ? ? ? ? Hpre ?.
  split_and!; try done. rewrite Hpre, delete_insert_id by done. congruence.
Qed.

Lemma J_AddAddressToAccessList L a : J L (sdb_AddAddressToAccessList a).
Proof.
  intros s x s' Hwf _. unfold sdb_AddAddressToAccessList. run_obj.
  destruct (al_AddAddress a (sdb_accessList s)) as [[] al] eqn:Hal; intros [= <- <-]; [|by apply Jspec_quiet].
  pose proof Hwf as (Hobj & Hwal & Hl).
  apply (Jspec_rest s _ (accessListAddAccountChange a)
    (set_sdb_accessList (sdb_accessList s))); try done.
  - split_and!; [done| |done]. simpl. replace al with (snd (al_AddAddress a (sdb_accessList s))) by by rewrite Hal.
    by apply al_AddAddress_wf.
  - intros t (? & ? & ?) Hr. unfold rest in *. simpl in *. injection Hr as ? ? ? ? ? ? ? ? ? ? Hal2.
    run_obj. rewrite Hal2, (al_AddAddress_undo _ _ _ Hal). split_and!; try done. congruence.
Qed.

(** One slot may take two entries, for the address and for the slot. *)
Lemma J_AddSlotToAccessList L a k : J L (sdb_AddSlotToAccessList a k).
Proof.
  intros s x s' Hwf _. unfold sdb_AddSlotToAccessList. run_obj. pose proof Hwf as (Hobj & Hwal & Hl).
  destruct (al_AddSlot_undo a k (sdb_accessList s) Hwal) as (ac & sc & al & -> & Hwf' & Hno & Hyes). simpl.
  destruct sc; simpl.
  2:{ destruct Hno as [-> ->]; [done|]. intros [= <- <-]. apply Jspec_quiet; [done| |done|done]. by apply sdb_le_same. }
  destruct Hyes as (al1 & Hdel & Hwf1 & Hback); [done|].
  assert (Hslot : forall s1, sdb_wf s1 -> sdb_accessList s1 = al1 ->
    Jspec s1 (add_entry (accessListAddSlotChange a k) (set_sdb_accessList al s1))).
  { intros s1 (? & ? & ?) Hal1.
    apply (Jspec_rest s1 _ (accessListAddSlotChange a k) (set_sdb_accessList al1)); try done.
    intros t (? & ? & ?) Hr. unfold rest in *. simpl in *. injection Hr as ? ? ? ? ? ? ? ? ? ? Hal2.
    run_obj. rewrite Hal2, Hdel. split_and!; try done; congruence. }
  destruct ac; intros [= <- <-]; simpl in Hback.
  - set (s1 := add_entry (accessListAddAccountChange a) (set_sdb_accessList al1 s)).
    assert (Hw1 : sdb_wf s1) by by split_and!.
    eapply (Jspec_trans s s1); [|exact (Hslot s1 Hw1 eq_refl)].
    apply (Jspec_rest s s1 (accessListAddAccountChange a) (set_sdb_accessList (sdb_accessList s))); try done.
    intros t (? & ? & ?) Hr. unfold rest in *. simpl in *. injection Hr as ? ? ? ? ? ? ? ? ? ? Hal2.
    run_obj. rewrite Hal2, Hback. split_and!; try done; congruence.
  - subst al1. by apply (Hslot s).
Qed.

(** ** Touching, storage, code and self-destruction *)

Lemma J_touch L a : J L (so_touch a).
Proof.
  intros s x s' Hwf _ Hrun.
  assert (Hs' : rest s' = rest s /\ sdb_stateObjects s' = sdb_stateObjects s /\
    entries s' = touchChange a :: entries s /\ sdb_validRevisions s' = sdb_validRevisions s /\
    sdb_nextRevisionId s' = sdb_nextRevisionId s).
  { revert Hrun. unfold so_touch. run_obj. destruct (a =? ripemd); by intros [= <- <-]. }
  destruct Hs' as (Hr & Ho & He & Hv & Hn).
  split_and!; [by eapply sdb_wf_same|intros b; apply alive_le; by apply sdb_le_same|by apply revs_extend_refl|].
  exists [touchChange a]. split; [done|]. apply undone_one. intros t Ht Hle.
  exists t. split_and!; [done|done| |done]. transitivity s'; [by apply sdb_le_same|done].
Qed.

Lemma J_AddBalance L a n : a ∈ L -> J L (so_AddBalance a n).
Proof.
  intros Ha. unfold so_AddBalance. destruct (n =? 0).
  - apply J_bind; [apply J_obj|]. intros o. destruct (so_empty o); [apply J_touch|apply J_ret].
  - apply J_bind; [apply J_bind; [apply J_obj|intros; apply J_ret]|]. intros b. by apply J_SetBalance.
Qed.

Lemma J_SubBalance L a n : a ∈ L -> J L (so_SubBalance a n).
Proof.
  intros Ha. unfold so_SubBalance. destruct (n =? 0); [apply J_ret|].
  apply J_bind; [apply J_bind; [apply J_obj|intros; apply J_ret]|]. intros b. by apply J_SetBalance.
Qed.

(** Caching a slot changes nothing that shows. *)
Lemma obj_le_cache s a o k :
  obj_ok a o -> so_pendingStorage o !! k = None -> so_originStorage o !! k = None ->
  ~ (is_Some (sdb_snap s) /\ a ∈ sdb_snapDestructs s) ->
  obj_le s o s (set_so_originStorage (<[k := backing_slot s o k]> (so_originStorage o)) o).
Proof.
  intros [Hoa _] Hp Ho Hd.
  assert (Hc : forall j, committed s (set_so_originStorage (<[k := backing_slot s o k]> (so_originStorage o)) o) j
                         = committed s o j).
  { intros j. unfold committed. simpl. destruct (so_pendingStorage o !! j) eqn:Hpj; [done|].
    destruct (decide (k = j)) as [<-|Hne].
    - rewrite lookup_insert_eq, Ho, Hoa.
      destruct (bool_decide (is_Some (sdb_snap s))) eqn:E1, (bool_decide (a ∈ sdb_snapDestructs s)) eqn:E2;
        simpl; try done.
      destruct Hd. by split; eapply bool_decide_eq_true.
    - by rewrite lookup_insert_ne. }
  split; try done. intros j. unfold slot. simpl. by rewrite Hc.
Qed.

(** Reading a slot, as committed or as it is now, gives its value and leaves an object
    that shows the same. *)
Lemma GetCommittedState_run s a o k :
  obj_ok a o -> sdb_stateObjects s !! a = Some o ->
  exists o1, so_GetCommittedState a k s = Some (committed s o k, set_obj a o1 s) /\ obj_ok a o1 /\ obj_le s o s o1.
Proof.
  intros Hok Ho. pose proof Hok as [Hoa Hf]. unfold so_GetCommittedState, committed. run_obj. rewrite Ho, Hf, Hoa.
  assert (Hsame : forall v : Hash, exists o1, Some (v, s) = Some (v, set_obj a o1 s) /\ obj_ok a o1 /\ obj_le s o s o1).
  { intros v. exists o. rewrite (set_obj_id a o s Ho). split_and!; [done|done|by apply obj_le_refl]. }
  destruct (so_pendingStorage o !! k) eqn:Hp; [apply Hsame|].
  destruct (so_originStorage o !! k) eqn:Hor; [apply Hsame|].
  destruct (bool_decide (is_Some (sdb_snap s)) && bool_decide (a ∈ sdb_snapDestructs s)) eqn:E; [apply Hsame|].
  eexists. split; [reflexivity|]. split; [done|]. apply (obj_le_cache s a); [done..|].
  intros [H1 H2]. apply andb_false_iff in E as [E|E]; apply bool_decide_eq_false in E; done.
Qed.

Lemma GetState_run s a o k :
  obj_ok a o -> sdb_stateObjects s !! a = Some o ->
  exists o1, so_GetState a k s = Some (slot s o k, set_obj a o1 s) /\ obj_ok a o1 /\ obj_le s o s o1.
Proof.
  intros Hok Ho. pose proof Hok as [Hoa Hf]. unfold so_GetState, slot. run_obj. rewrite Ho, Hf.
  destruct (so_dirtyStorage o !! k); [|by apply GetCommittedState_run].
  exists o. rewrite (set_obj_id a o s Ho). split_and!; [done|done|by apply obj_le_refl].
Qed.

Lemma J_GetCommittedState L a k : J L (so_GetCommittedState a k).
Proof.
  intros s x s' Hwf _ Hrun. destruct (sdb_stateObjects s !! a) as [o|] eqn:Ho.
  - destruct (GetCommittedState_run s a o k) as (o1 & Hr & Hok & Hle); [by apply (proj1 Hwf)|done|].
    rewrite Hr in Hrun. simplify_eq.
    by eapply Jspec_set_obj; [|apply lookup_obj_live| |].
  - revert Hrun. unfold so_GetCommittedState. run_obj. by rewrite Ho.
Qed.

Lemma J_GetState L a k : J L (so_GetState a k).
Proof.
  intros s x s' Hwf _ Hrun. destruct (sdb_stateObjects s !! a) as [o|] eqn:Ho.
  - destruct (GetState_run s a o k) as (o1 & Hr & Hok & Hle); [by apply (proj1 Hwf)|done|].
    rewrite Hr in Hrun. simplify_eq.
    by eapply Jspec_set_obj; [|apply lookup_obj_live| |].
  - revert Hrun. unfold so_GetState. run_obj. by rewrite Ho.
Qed.

Lemma slot_set_dirty s o k v j :
  slot s (set_so_dirtyStorage (<[k := v]> (so_dirtyStorage o)) o) j =
  if decide (j = k) then v else slot s o j.
Proof.
  unfold slot. simpl. case_decide as E; [subst; by rewrite lookup_insert_eq|by rewrite lookup_insert_ne].
Qed.

Lemma J_SetState L a k v : a ∈ L -> J L (so_SetState a k v).
Proof.
  intros Ha s x s' Hwf HL. destruct (sdb_stateObjects s !! a) as [o|] eqn:Ho.
  2:{ unfold so_SetState. run_obj. by rewrite Ho. }
  pose proof (live_obj L s a o HL Ha Ho) as Hd.
  pose proof (proj1 Hwf a o Ho) as Hok. pose proof Hok as [Hoa Hf].
  destruct (GetState_run s a o k Hok Ho) as (o1 & Hget & Hok1 & Hle1).
  unfold so_SetState. run_obj. rewrite Ho, Hf, Hget.
  assert (Hq : Jspec s (set_obj a o1 s)) by (by eapply Jspec_set_obj; [|apply lookup_obj_live| |]).
  destruct (Z.eqb_spec (slot s o k) v) as [_|Hne]; [by intros [= <- <-]|].
  unfold so_setState, upd. run_obj. rewrite lookup_insert_eq. intros [= <- <-].
  eapply Jspec_trans; [exact Hq|].
  apply (Jspec_edit (set_obj a o1 s) a o1
    (set_so_dirtyStorage (<[k := v]> (so_dirtyStorage o1)) o1) (storageChange a k (slot s o k))
    (fun o' => Some (set_so_dirtyStorage (<[k := slot s o k]> (so_dirtyStorage o')) o'))).
  - by apply sdb_wf_set_obj.
  - apply set_obj_lookup.
  - by rewrite (ole_deleted _ _ _ _ Hle1).
  - done.
  - simpl. by rewrite (ole_deleted _ _ _ _ Hle1).
  - intros t. simpl. apply revert_object_ext. intros u. apply upd_edit.
  - intros t o' Ht Hok' Hle. eexists. split; [done|]. split; [done|].
    destruct Hle. simpl in *. split; try done.
    intros j. rewrite slot_set_dirty. case_decide as E.
    + subst j. rewrite <- (ole_slot _ _ _ _ Hle1). done.
    + rewrite ole_slot0, slot_set_dirty. by case_decide.
Qed.

Lemma J_SetCode L a h c : a ∈ L -> J L (so_SetCode a h c).
Proof.
  intros Ha s x s' Hwf HL. destruct (sdb_stateObjects s !! a) as [o|] eqn:Ho.
  2:{ unfold so_SetCode, so_Code. run_obj. by rewrite Ho. }
  pose proof (live_obj L s a o HL Ha Ho) as Hd.
  pose proof (proj1 Hwf a o Ho) as Hok. pose proof Hok as [Hoa Hf].
  unfold so_SetCode, so_Code, so_setCode, upd. run_obj.
  repeat (rewrite ?Ho, ?lookup_insert_eq; simpl).
  set (o1 := set_so_code (code_of s o) o). intros [= <- <-].
  assert (Hc1 : forall u, sdb_codes u = sdb_codes s -> code_of u o1 = code_of s o).
  { intros u Hu. unfold code_of, o1. simpl. rewrite Hu. unfold code_of.
    destruct (so_code o); [done|]. repeat case_match; done. }
  assert (Hle1 : obj_le s o s o1) by (split; try done; by apply Hc1).
  eapply (Jspec_trans s (set_obj a o1 s)); [by eapply Jspec_set_obj; [|apply lookup_obj_live| |]|].
  apply (Jspec_edit (set_obj a o1 s) a o1
    (set_so_dirtyCode true (set_so_data (set_a_CodeHash h (so_data o1)) (set_so_code c o1)))
    (codeChange a (code_of s o) (a_CodeHash (so_data o)))
    (fun o' => Some (set_so_dirtyCode true
       (set_so_data (set_a_CodeHash (a_CodeHash (so_data o)) (so_data o')) (set_so_code (code_of s o) o')))));
    [by apply sdb_wf_set_obj|apply set_obj_lookup|done|done|done| |].
  - intros t. simpl. apply revert_object_ext. intros u. apply upd_edit.
  - intros t o' Ht Hok' Hle. eexists. split; [done|]. split; [done|].
    destruct Hle. simpl in *.
    split; try done.
    rewrite (Hc1 (set_obj a o1 s) eq_refl). unfold code_of. simpl.
    injection Ht as Hcd _ _ _ _ _ _ _ _ _ _. rewrite Hcd. simpl.
    destruct (so_code o); [done|]. repeat case_match; done.
Qed.

Lemma J_Suicide L a : J L (sdb_Suicide a).
Proof.
  intros s x s' Hwf _. unfold sdb_Suicide, mbind, M_bind. rewrite getStateObject_run.
  destruct (lookup_obj s a) as [o|] eqn:Ho; run_obj; [|intros [= <- <-]; by apply Jspec_quiet].
  pose proof (lookup_obj_ok s a o Hwf Ho) as Hok. pose proof Hok as [Hoa Hf].
  assert (Hq : Jspec s (set_obj a o s)).
  { eapply Jspec_set_obj; [done|done|done|by apply obj_le_refl]. }
  destruct (so_deleted o) eqn:Hd; run_obj; [by intros [= <- <-]|].
  unfold so_markSuicided, so_setBalance, upd_data, upd. run_obj.
  repeat (rewrite ?lookup_insert_eq; simpl). rewrite insert_insert_eq. intros [= <- <-]. eapply Jspec_trans; [exact Hq|].
  apply (Jspec_edit_gen (set_obj a o s) a o
    (set_so_data (set_a_Balance 0 (so_data o)) (set_so_suicided true o))
    (suicideChange a (so_suicided o) (a_Balance (so_data o)))
    (fun o' => Some (set_so_data (set_a_Balance (a_Balance (so_data o)) (so_data o'))
                       (set_so_suicided (so_suicided o) o'))));
    [by apply sdb_wf_set_obj|apply set_obj_lookup|done|done|done| |].
  - intros t o' Ho' Hd'. simpl. unfold mbind, M_bind. rewrite getStateObject_run, Ho', Hd'.
    unfold so_setBalance, upd_data, upd, edit. run_obj. repeat (rewrite ?lookup_insert_eq; simpl).
    unfold set_obj, set_sdb_stateObjects. simpl. by rewrite !insert_insert_eq.
  - intros t o' Ht Hok' Hle. eexists. split; [done|]. split; [done|]. destruct Hle. simpl in *.
    by split.
Qed.

(** ** Creating objects *)

(** Marking [a] as destructed does not matter to the objects of other addresses. *)
Lemma obj_le_env s s' t t' o o' :
  sdb_codes s' = sdb_codes s -> sdb_snap s' = sdb_snap s ->
  (so_address o ∈ sdb_snapDestructs s' <-> so_address o ∈ sdb_snapDestructs s) ->
  sdb_codes t' = sdb_codes t -> sdb_snap t' = sdb_snap t ->
  (so_address o' ∈ sdb_snapDestructs t' <-> so_address o' ∈ sdb_snapDestructs t) ->
  obj_le s o t o' -> obj_le s' o t' o'.
Proof.
  intros Hc Hs Hd Hc' Hs' Hd' [].
  assert (H1 : forall k, committed s' o k = committed s o k).
  { intros k. unfold committed, backing_slot. by rewrite Hs, (bool_decide_ext _ _ Hd). }
  assert (H2 : forall k, committed t' o' k = committed t o' k).
  { intros k. unfold committed, backing_slot. by rewrite Hs', (bool_decide_ext _ _ Hd'). }
  split; try done.
  - intros k. by rewrite H1, H2.
  - intros k. specialize (ole_slot0 k). unfold slot in *. by rewrite H1, H2.
  - unfold code_of in *. by rewrite Hc, Hc'.
Qed.

Lemma Jspec_create s a :
  sdb_wf s -> lookup_obj s a = None ->
  Jspec s (set_obj a (newObject a zeroAccount) (add_entry (createObjectChange a) s)).
Proof.
  intros Hwf Hn. set (s' := set_obj _ _ _).
  split_and!; [by apply (sdb_wf_set_obj s)|intros b; by apply (alive_set_obj s)|by apply revs_extend_refl|].
  exists [createObjectChange a]. split; [done|]. apply undone_one. intros t (Ht1 & Ht2 & Ht3) [Hr Hle].
  eexists. split; [reflexivity|]. split; [|split; [|done]].
  { split_and!; [|done|done]. intros b o. simpl. intros [_ Hb]%lookup_delete_Some. by apply Ht1. }
  split; [done|]. intros b. destruct (decide (a = b)) as [<-|Hne].
  - rewrite Hn. unfold lookup_obj in *. simpl. rewrite lookup_delete_eq.
    destruct (sdb_stateObjects s !! a); [done|].
    change (backing_account _ a) with (backing_account t a).
    rewrite (backing_rest s t a Hr). by destruct (backing_account s a).
  - specialize (Hle b). unfold s' in Hle. rewrite set_obj_lookup_obj_ne in Hle by done. fold s' in Hle.
    set (t' := set_sdb_stateObjectsDirty _ _).
    assert (Hlt : lookup_obj t' b = lookup_obj t b) by (unfold lookup_obj; simpl; by rewrite lookup_delete_ne).
    rewrite Hlt. eapply (opt_le_rest s' s t); [done|done|exact Hle].
Qed.

(** A deleted object is replaced; the entry keeps it. *)
Lemma Jspec_reset s a o pd :
  sdb_wf s -> lookup_obj s a = Some o ->
  pd = bool_decide (is_Some (sdb_snap s)) && bool_decide (a ∈ sdb_snapDestructs s) ->
  Jspec s (set_obj a (newObject a zeroAccount)
             (add_entry (resetObjectChange o pd)
                (if bool_decide (is_Some (sdb_snap s)) && negb pd
                 then set_sdb_snapDestructs ({[a]} ∪ sdb_snapDestructs s) s else s))).
Proof.
  intros Hwf Ho Hpd. pose proof (lookup_obj_ok s a o Hwf Ho) as [Hoa Hof].
  set (s1 := if _ && _ then _ else _).
  assert (Hs1 : sdb_codes s1 = sdb_codes s /\ sdb_snap s1 = sdb_snap s /\ sdb_trie s1 = sdb_trie s /\
    sdb_stateObjects s1 = sdb_stateObjects s /\ sdb_journal s1 = sdb_journal s /\
    sdb_validRevisions s1 = sdb_validRevisions s /\ sdb_nextRevisionId s1 = sdb_nextRevisionId s /\
    sdb_accessList s1 = sdb_accessList s /\ sdb_logs s1 = sdb_logs s /\
    (forall b, b <> a -> b ∈ sdb_snapDestructs s1 <-> b ∈ sdb_snapDestructs s)).
  { unfold s1. case_match; split_and!; simpl; try done. set_solver. }
  destruct Hs1 as (Hc1 & Hn1 & Htr1 & Ho1 & Hj1 & Hv1 & Hi1 & Hal1 & Hlg1 & Hd1).
  assert (Hwf1 : sdb_wf s1) by (unfold sdb_wf; by rewrite Ho1, Hal1, Hlg1).
  set (s' := set_obj _ _ _).
  split_and!; [by apply (sdb_wf_set_obj s1)| |by apply revs_extend_refl|].
  { intros b (ob & Hb & Hdb). apply (alive_set_obj s1); [done|]. exists ob. split; [|done]. rewrite <- Hb.
    unfold lookup_obj, backing_account. by rewrite Ho1, Hn1, Htr1. }
  exists [resetObjectChange o pd]. split; [unfold entries; simpl; unfold entries; by rewrite Hj1|].
  apply undone_one. intros t Ht [Hr Hle]. eexists. split; [reflexivity|].
  set (t' := if negb pd && _ then _ else _).
  assert (Ht' : rest t' = rest s /\ sdb_stateObjects t' = <[a:=o]> (sdb_stateObjects t) /\ same_journal t t').
  { injection Hr as R1 R2 R3 R4 R5 R6 R7 R8 R9 R10 R11. simpl in R3. subst t'. rewrite Hoa. simpl. rewrite R3, Hn1.
    unfold s1 in *. clear s1. subst pd.
    destruct (bool_decide (is_Some (sdb_snap s))) eqn:Es; simpl in *;
      [destruct (bool_decide (a ∈ sdb_snapDestructs s)) eqn:Ed; simpl in *|].
    all: split_and!; try done; unfold rest; simpl; try congruence.
    rewrite R1, R2, R4, R5, R6, R7, R8, R9, R10, R11. simpl. apply bool_decide_eq_false in Ed.
    rewrite R3. repeat f_equal. set_solver. }
  destruct Ht' as (Hrt & Hot & Hjt). pose proof Ht as (Ht1 & Ht2 & Ht3).
  pose proof Hrt as [= T1 T2 T3 T4 _ _ _ T8 _ _ T11]. pose proof Hr as [= R1 R2 R3 R4 _ _ _ _ _ _ _].
  simpl in R1, R2, R3, R4. pose proof Hwf as (_ & Hal & Hlg).
  assert (Hwt' : sdb_wf t').
  { unfold sdb_wf. rewrite Hot, T8, T11. split_and!; [|done|done].
    intros b ob [[<- <-]|[_ Hb]]%lookup_insert_Some; [done|by apply Ht1]. }
  split_and!; [done| |done]. split; [done|]. intros b. destruct (decide (a = b)) as [<-|Hne].
  - rewrite Ho. unfold lookup_obj. rewrite Hot, lookup_insert_eq. by apply obj_le_refl.
  - specialize (Hle b). unfold s' in Hle. rewrite set_obj_lookup_obj_ne in Hle by done. fold s' in Hle.
    assert (Hls : lookup_obj (add_entry (resetObjectChange o pd) s1) b = lookup_obj s b).
    { unfold lookup_obj, backing_account. simpl. by rewrite Ho1, Hn1, Htr1. }
    assert (Hlt : lookup_obj t' b = lookup_obj t b).
    { unfold lookup_obj, backing_account. rewrite Hot, lookup_insert_ne by done.
      by rewrite T2, T3, R2, R3, Htr1, Hn1. }
    rewrite Hls in Hle. rewrite Hlt. unfold opt_le in *.
    destruct (lookup_obj s b) as [ob|] eqn:Hb, (lookup_obj t b) as [ob'|] eqn:Hb'; try done.
    pose proof (lookup_obj_ok _ _ _ Hwf Hb) as [Hab _]. pose proof (lookup_obj_ok _ _ _ Ht Hb') as [Hab' _].
    apply (obj_le_env s' s t t'); try congruence; [done|done| |].
    + rewrite Hab. simpl. symmetry. by apply Hd1.
    + rewrite Hab', T4, R4. symmetry. by apply Hd1.
Qed.

Lemma createObject_run s a :
  sdb_createObject a s =
  match lookup_obj s a with
  | None => Some ((a, None), set_obj a (newObject a zeroAccount) (add_entry (createObjectChange a) s))
  | Some o =>
      let s0 := set_obj a o s in
      let pd := bool_decide (is_Some (sdb_snap s0)) && bool_decide (a ∈ sdb_snapDestructs s0) in
      Some ((a, if so_deleted o then None else Some o),
            set_obj a (newObject a zeroAccount)
              (add_entry (resetObjectChange o pd)
                 (if bool_decide (is_Some (sdb_snap s0)) && negb pd
                  then set_sdb_snapDestructs ({[a]} ∪ sdb_snapDestructs s0) s0 else s0)))
  end.
Proof.
  unfold sdb_createObject, mbind, M_bind. rewrite getDeletedStateObject_run.
  destruct (lookup_obj s a) as [o|] eqn:Ho; [|done]. run_obj.
  destruct (bool_decide (is_Some (sdb_snap s))); simpl; [|done].
  by destruct (bool_decide (a ∈ sdb_snapDestructs s)).
Qed.

Lemma Jspec_createObject s a r s' : sdb_wf s -> sdb_createObject a s = Some (r, s') -> Jspec s s'.
Proof.
  intros Hwf. rewrite createObject_run. destruct (lookup_obj s a) as [o|] eqn:Ho; intros [= <- <-].
  - pose proof (lookup_obj_ok s a o Hwf Ho) as Hok.
    eapply (Jspec_trans s (set_obj a o s)); [eapply Jspec_set_obj; [done|done|done|by apply obj_le_refl]|].
    apply (Jspec_reset (set_obj a o s)); [by apply sdb_wf_set_obj|apply set_obj_lookup_obj|done].
  - by apply Jspec_create.
Qed.

(** ** The [GetOrNew] methods

    They never panic: the object is found or created, then the extension the caller
    needs is filled in. *)

(** The state and the object after finding or creating. *)
Definition ensure (a : Address) (s : StateDB) : StateDB * stateObject :=
  match lookup_obj s a with
  | None =>
      (set_obj a (newObject a zeroAccount) (add_entry (createObjectChange a) s), newObject a zeroAccount)
  | Some o =>
      let s0 := set_obj a o s in
      let pd := bool_decide (is_Some (sdb_snap s0)) && bool_decide (a ∈ sdb_snapDestructs s0) in
      if so_deleted o
      then (set_obj a (newObject a zeroAccount)
              (add_entry (resetObjectChange o pd)
                 (if bool_decide (is_Some (sdb_snap s0)) && negb pd
                  then set_sdb_snapDestructs ({[a]} ∪ sdb_snapDestructs s0) s0 else s0)),
            newObject a zeroAccount)
      else (s0, o)
  end.

Lemma ensure_spec s a :
  sdb_wf s ->
  let '(s1, o) := ensure a s in
  Jspec s s1 /\ sdb_stateObjects s1 !! a = Some o /\ so_deleted o = false /\ obj_ok a o.
Proof.
  intros Hwf. pose proof (Jspec_createObject s a) as Hc. rewrite createObject_run in Hc. unfold ensure.
  destruct (lookup_obj s a) as [o|] eqn:Ho; [destruct (so_deleted o) eqn:Hd|].
  - split_and!; [by eapply Hc|apply set_obj_lookup|done|done].
  - pose proof (lookup_obj_ok s a o Hwf Ho) as Hok.
    split_and!; [|apply set_obj_lookup|done|done].
    eapply Jspec_set_obj; [done|done|done|by apply obj_le_refl].
  - split_and!; [by eapply Hc|apply set_obj_lookup|done|done].
Qed.

Definition fill_account (o : stateObject) : stateObject :=
  set_so_data (set_a_Worm (Some (worm_norm (a_Worm (so_data o)))) (so_data o)) o.
Definition fill_nft (o : stateObject) : stateObject :=
  set_so_data (set_a_Csbt (Some (csbt_norm (a_Csbt (so_data o)))) (so_data o)) o.
Definition fill_staker (a : Address) (o : stateObject) : stateObject :=
  set_so_data (set_a_Staker (Some (stk_norm a (a_Staker (so_data o)))) (so_data o)) o.

Definition filled (a : Address) (fill : stateObject -> stateObject) (s : StateDB) : StateDB :=
  set_obj a (fill (ensure a s).2) (ensure a s).1.

Definition found (a : Address) (s : StateDB) : bool :=
  match lookup_obj s a with Some o => negb (so_deleted o) | None => false end.

(** The two ways a [GetOrNew] method finds its object, in one equation. *)
Lemma getStateObject_ensure {B : Type} s a (new : Address * option stateObject -> M unit) (k : M B) :
  (o ← sdb_getStateObject a;
   _ ← (match o with None => r ← sdb_createObject a; new r | Some _ => mret tt end); k) s =
  (if found a s then k else _ ← new (a, None); k) (ensure a s).1.
Proof.
  unfold mbind at 1, M_bind at 1. rewrite getStateObject_run. unfold ensure, found.
  destruct (lookup_obj s a) as [o|] eqn:Ho; [destruct (so_deleted o) eqn:Hd|]; simpl.
  - unfold mbind, M_bind. rewrite createObject_run, set_obj_lookup_obj, Hd. simpl.
    unfold set_obj, set_sdb_stateObjects. simpl. rewrite !insert_insert_eq. done.
  - done.
  - unfold mbind, M_bind. by rewrite createObject_run, Ho.
Qed.

Lemma ensure_new s a : found a s = false -> (ensure a s).2 = newObject a zeroAccount.
Proof.
  unfold ensure, found. destruct (lookup_obj s a) as [o|]; [|done]. by destruct (so_deleted o).
Qed.

Lemma ensure_lookup s a : sdb_stateObjects (ensure a s).1 !! a = Some (ensure a s).2.
Proof.
  unfold ensure. destruct (lookup_obj s a) as [o|] eqn:Ho; [destruct (so_deleted o) eqn:Hd|]; apply set_obj_lookup.
Qed.

Lemma obj_run s a o : sdb_stateObjects s !! a = Some o -> obj a s = Some (o, s).
Proof. intros H. unfold obj. by rewrite H. Qed.

Lemma upd_data_run s a o f :
  sdb_stateObjects s !! a = Some o ->
  upd_data a f s = Some (tt, set_obj a (set_so_data (f (so_data o)) o) s).
Proof. intros H. rewrite upd_data_edit. unfold edit. by rewrite H. Qed.

Lemma upd_worm_run s a o w h :
  sdb_stateObjects s !! a = Some o -> a_Worm (so_data o) = Some w ->
  upd_worm a h s = Some (tt, set_obj a (set_so_data (set_a_Worm (Some (h w)) (so_data o)) o) s).
Proof. intros H Hw. rewrite upd_worm_edit. unfold edit, ed_worm. by rewrite H, Hw. Qed.

Lemma init_worm_run s a o :
  sdb_stateObjects s !! a = Some o -> init_worm a s = Some (tt, set_obj a (fill_account o) s).
Proof.
  intros Ho. unfold init_worm, mbind, M_bind. rewrite (obj_run s a o Ho). unfold fill_account, worm_norm.
  destruct (a_Worm (so_data o)) as [w|] eqn:Hw.
  - unfold mret, M_ret. rewrite (upd_worm_run s a o w _ Ho Hw).
    erewrite upd_worm_run; [|apply set_obj_lookup|done]. by rewrite set_obj_twice.
  - rewrite (upd_data_run s a o _ Ho).
    erewrite upd_worm_run; [|apply set_obj_lookup|done].
    erewrite upd_worm_run; [|apply set_obj_lookup|done]. by rewrite !set_obj_twice.
Qed.

Lemma GetOrNewAccount_run s a :
  sdb_GetOrNewAccountStateObject a s = Some (tt, filled a fill_account s).
Proof.
  pose proof (ensure_lookup s a) as Hl. unfold sdb_GetOrNewAccountStateObject.
  etransitivity; [apply (getStateObject_ensure s a)|].
  destruct (found a s) eqn:Hf; [by apply init_worm_run|].
  unfold filled. rewrite (ensure_new s a Hf) in *. unfold mbind, M_bind, mret, M_ret.
  rewrite (upd_data_run _ a _ _ Hl). erewrite upd_data_run by apply set_obj_lookup.
  erewrite init_worm_run by apply set_obj_lookup. by rewrite !set_obj_twice.
Qed.

Lemma GetOrNewNFT_run s a : sdb_GetOrNewNFTStateObject a s = Some (tt, filled a fill_nft s).
Proof.
  pose proof (ensure_lookup s a) as Hl. unfold sdb_GetOrNewNFTStateObject.
  etransitivity; [apply (getStateObject_ensure s a)|].
  unfold filled, fill_nft. destruct (found a s) eqn:Hf.
  - unfold mbind, M_bind. rewrite (obj_run _ a _ Hl).
    destruct (a_Csbt (so_data (ensure a s).2)) as [c|] eqn:Hc; [|by rewrite (upd_data_run _ a _ _ Hl)].
    simpl. rewrite (set_obj_id a); [done|]. rewrite Hl. f_equal.
    destruct (ensure a s).2 as [? []]; simpl in *. by subst.
  - rewrite (ensure_new s a Hf) in *. unfold mbind, M_bind.
    rewrite (upd_data_run _ a _ _ Hl). erewrite upd_data_run by apply set_obj_lookup.
    erewrite obj_run by apply set_obj_lookup. simpl. by rewrite set_obj_twice.
Qed.

Lemma GetOrNewStaker_run s a : sdb_GetOrNewStakerStateObject a s = Some (tt, filled a (fill_staker a) s).
Proof.
  pose proof (ensure_lookup s a) as Hl. unfold sdb_GetOrNewStakerStateObject.
  etransitivity; [apply (getStateObject_ensure s a)|].
  unfold filled, fill_staker. destruct (found a s) eqn:Hf.
  - unfold mbind, M_bind. rewrite (obj_run _ a _ Hl).
    destruct (a_Staker (so_data (ensure a s).2)) as [c|] eqn:Hc; [|by rewrite (upd_data_run _ a _ _ Hl)].
    simpl. rewrite (set_obj_id a); [done|]. rewrite Hl. f_equal.
    destruct (ensure a s).2 as [? []]; simpl in *. by subst.
  - rewrite (ensure_new s a Hf) in *. unfold mbind, M_bind.
    rewrite (upd_data_run _ a _ _ Hl).
    erewrite obj_run by apply set_obj_lookup. simpl. done.
Qed.

Lemma filled_spec s a fill :
  sdb_wf s ->
  (forall t o, obj_ok a o -> obj_ok a (fill o) /\ obj_le t o t (fill o)) ->
  Jspec s (filled a fill s) /\ alive (filled a fill s) a.
Proof.
  intros Hwf Hfill. unfold filled. pose proof (ensure_spec s a Hwf) as He.
  destruct (ensure a s) as [s1 o]. simpl. destruct He as (HJ & Ho & Hd & Hok).
  destruct (Hfill s1 o Hok) as [Hok' Hle]. split.
  - eapply Jspec_trans; [exact HJ|]. eapply Jspec_set_obj; [apply HJ|by apply lookup_obj_live|done|done].
  - exists (fill o). rewrite set_obj_lookup_obj, (ole_deleted _ _ _ _ Hle). done.
Qed.

Lemma obj_le_fill s o d :
  a_Root d = a_Root (so_data o) -> a_CodeHash d = a_CodeHash (so_data o) ->
  data_le (so_address o) (so_data o) d -> obj_le s o s (set_so_data d o).
Proof.
  intros Hr Hc Hd. eapply (obj_le_restore s o (so_data o)); [done|done| |done|done|done].
  rewrite set_so_data_id. by apply obj_le_refl.
Qed.

Lemma fill_account_le a t o : obj_ok a o -> obj_ok a (fill_account o) /\ obj_le t o t (fill_account o).
Proof.
  intros Hok. split; [done|]. apply obj_le_fill; [done|done|].
  by split_and!.
Qed.

Lemma fill_nft_le a t o : obj_ok a o -> obj_ok a (fill_nft o) /\ obj_le t o t (fill_nft o).
Proof.
  intros Hok. split; [done|]. apply obj_le_fill; [done|done|]. by split_and!.
Qed.

Lemma fill_staker_le a t o : obj_ok a o -> obj_ok a (fill_staker a o) /\ obj_le t o t (fill_staker a o).
Proof.
  intros [Hoa Hof]. split; [done|]. apply obj_le_fill; [done|done|]. rewrite Hoa. by split_and!.
Qed.

(** After a [GetOrNew] method the rest of the code may use the object. *)
Lemma J_new {B : Type} L a (new : M unit) fill (k : M B) :
  (forall s, new s = Some (tt, filled a fill s)) ->
  (forall t o, obj_ok a o -> obj_ok a (fill o) /\ obj_le t o t (fill o)) ->
  J (a :: L) k -> J L (_ ← new; k).
Proof.
  intros Hnew Hfill Hk s x s' Hwf HL. unfold mbind, M_bind. rewrite Hnew. intros Hrun.
  destruct (filled_spec s a fill Hwf Hfill) as [HJ Ha].
  eapply Jspec_trans; [exact HJ|]. apply (Hk _ x); [apply HJ| |done].
  destruct (live_Jspec L s _ HL HJ) as [Hr HL']. split; [done|].
  intros b [->|Hb]%elem_of_cons; [done|by apply HL'].
Qed.

Lemma J_newAccount {B : Type} L a (k : M B) :
  J (a :: L) k -> J L (_ ← sdb_GetOrNewAccountStateObject a; k).
Proof. apply (J_new L a _ fill_account); [intros; apply GetOrNewAccount_run|apply fill_account_le]. Qed.

Lemma J_newNFT {B : Type} L a (k : M B) :
  J (a :: L) k -> J L (_ ← sdb_GetOrNewNFTStateObject a; k).
Proof. apply (J_new L a _ fill_nft); [intros; apply GetOrNewNFT_run|apply fill_nft_le]. Qed.

Lemma J_newStaker {B : Type} L a (k : M B) :
  J (a :: L) k -> J L (_ ← sdb_GetOrNewStakerStateObject a; k).
Proof. apply (J_new L a _ (fill_staker a)); [intros; apply GetOrNewStaker_run|apply fill_staker_le]. Qed.

(** ** Snapshots *)

Lemma Snapshot_Jspec s : sdb_wf s -> Jspec s (set_sdb_validRevisions
    (sdb_validRevisions s ++ [mkRevision (sdb_nextRevisionId s) (journal_length s)])
    (set_sdb_nextRevisionId (sdb_nextRevisionId s + 1) s)).
Proof.
  intros Hwf. set (s1 := set_sdb_validRevisions _ _).
  assert (Hle : sdb_le s s1) by by apply sdb_le_same.
  split_and!; [done|intros a; by apply alive_le| |].
  - eexists. split; [done|]. simpl. split; [|lia]. repeat constructor; simpl; lia.
  - exists []. split; [done|]. intros t Ht Hlt. exists t. split_and!; [done|done|by transitivity s1|done].
Qed.

Lemma J_Snapshot L : J L sdb_Snapshot.
Proof. intros s x s' Hwf _ [= <- <-]. by apply Snapshot_Jspec. Qed.

Lemma list_find_revision vs id n vs' :
  Forall (fun r => r_id r < id) vs ->
  list_find (fun r => id <= r_id r) (vs ++ mkRevision id n :: vs') = Some (length vs, mkRevision id n).
Proof.
  induction 1 as [|r vs Hr _ IH]; simpl; [by rewrite decide_True by done|].
  rewrite decide_False by lia. by rewrite IH.
Qed.

(** Reverting to a revision after a computation that can be undone succeeds, and the
    state shows what it showed when the revision was taken. *)
Lemma RevertToSnapshot_run s id s1 s2 :
  sdb_wf s -> revs_ok s -> sdb_Snapshot s = Some (id, s1) -> Jspec s1 s2 ->
  exists s3, sdb_RevertToSnapshot id s2 = Some (tt, s3) /\ sdb_wf s3 /\ sdb_le s s3 /\
    entries s3 = entries s /\ sdb_validRevisions s3 = sdb_validRevisions s /\
    sdb_nextRevisionId s <= sdb_nextRevisionId s3.
Proof.
  intros Hwf Hok [= Hid Hs1] (Hw2 & _ & (vs & Hv & _ & Hn) & es & He & Hu).
  assert (Hle1 : sdb_le s s1 /\ sdb_le s1 s) by (rewrite <- Hs1; split; by apply sdb_le_same).
  assert (He1 : entries s1 = entries s) by by rewrite <- Hs1.
  assert (Hn1 : sdb_nextRevisionId s1 = id + 1) by (rewrite <- Hs1; simpl; lia).
  assert (Hv1 : sdb_validRevisions s1 = sdb_validRevisions s ++ [mkRevision id (journal_length s)])
    by by rewrite <- Hs1, <- Hid.
  destruct (Hu s2 Hw2) as (t & Hrun & Hwt & Hlt & Het & Hvt & Hnt); [done|].
  assert (Hlen : (journal_length s2 - journal_length s)%nat = length es).
  { unfold journal_length. fold (entries s2) (entries s). rewrite He, He1, length_app. lia. }
  unfold sdb_RevertToSnapshot, mbind, M_bind, gets.
  rewrite Hv, Hv1, <- app_assoc. simpl. rewrite list_find_revision by by rewrite <- Hid. simpl.
  rewrite Z.eqb_refl. simpl. unfold journal_revert, mbind, M_bind, gets. simpl. rewrite Hlen.
  fold (entries s2). rewrite He, take_app_length, Hrun. simpl.
  eexists. split; [reflexivity|]. simpl. fold (entries t).
  rewrite Het, He, He1, Hvt, Hv, Hv1, <- app_assoc, take_app_length, drop_app_length, Hnt.
  split_and!; [by eapply sdb_wf_same| |done|done|lia].
  transitivity s1; [apply Hle1|]. transitivity t; [done|]. by apply sdb_le_same.
Qed.

(** Running a computation and reverting it, as the interpreter does on a failed call,
    can itself be undone. *)
Definition attempt {A : Type} (m : M A) (ok : A -> bool) : M A :=
  id ← sdb_Snapshot;
  x ← m;
  _ ← (if ok x then mret tt else sdb_RevertToSnapshot id);
  mret x.

Lemma J_attempt {A : Type} L (m : M A) ok : J L m -> J L (attempt m ok).
Proof.
  intros Hm s x s' Hwf HL. unfold attempt, mbind, M_bind.
  destruct (sdb_Snapshot s) as [[id s1]|] eqn:Hs; [|done].
  pose proof (J_Snapshot L s id s1 Hwf HL Hs) as H1.
  destruct (m s1) as [[y s2]|] eqn:Hms; [|done].
  pose proof (Hm s1 y s2 (proj1 H1) (live_Jspec L s s1 HL H1) Hms) as H2.
  destruct (ok y); [intros [= <- <-]; by eapply Jspec_trans|].
  destruct (RevertToSnapshot_run s id s1 s2 Hwf (proj1 HL) Hs H2) as (s3 & -> & Hw3 & Hle & He & Hv & Hn).
  intros [= <- <-]. split_and!; [done|intros a; by apply alive_le| |].
  - exists []. rewrite app_nil_r. split_and!; [done|constructor|done].
  - exists []. split; [done|]. intros t Ht Hlt. exists t. split_and!; [done|done|by transitivity s3|done].
Qed.
End Revert.
