(* ===== verification/Staking.v ===== *)
(** The staking, reward and token methods of [*StateDB] ([core/state/statedb.go],
    prefix [sdb_]).

    The [GetOrNew] methods never return nil, so the nil tests of their callers are
    left out.  A method with an [error] result returns [None] for nil; the changes
    made before an error stay. *)
From S2P Require Import Prelude KeyedList Common Params Wormholes Rewards Validators Stakers AccessList StateTypes State StateDB.

Open Scope Z_scope.

Section Staking.
  Context {CR : Crypto}.

(** ** CSBT ownership *)

Definition sdb_GetNFTOwner (nftAddr : Address) : M Address :=
  _ ← sdb_GetOrNewNFTStateObject nftAddr; so_NFTOwner nftAddr.

Definition sdb_ChangeNFTOwner (nftAddr newOwner : Address) (level : Z) (blocknumber : Z) : M unit :=
  _ ← sdb_GetOrNewNFTStateObject nftAddr; so_ChangeNFTOwner nftAddr newOwner.

Definition sdb_GetNFTOwner16 (nftAddr : Address) : M Address :=
  _ ← sdb_GetOrNewNFTStateObject nftAddr; so_NFTOwner nftAddr.

Definition sdb_GetNFTInfo (nftAddr : Address) : M (Address * Address) :=
  _ ← sdb_GetOrNewNFTStateObject nftAddr; so_GetNFTInfo nftAddr.

Definition sdb_GetNFTCreator (addr : Address) : M Address :=
  _ ← sdb_GetOrNewNFTStateObject addr; so_GetCreator addr.

Definition sdb_IsExistNFT (addr : Address) : M bool :=
  _ ← sdb_GetOrNewNFTStateObject addr;
  owner ← so_NFTOwner addr; mret (negb (owner =? 0)).

Definition sdb_GetOfficialMint : M Z :=
  _ ← sdb_GetOrNewStakerStateObject MintDeepStorageAddress;
  m ← so_OfficialMint MintDeepStorageAddress; deref m.

Definition sdb_GetUserMint : M Z :=
  _ ← sdb_GetOrNewStakerStateObject MintDeepStorageAddress;
  m ← so_UserMint MintDeepStorageAddress; deref m.

(** The high bit of the first byte of the address. *)
Definition sdb_IsOfficialNFT (nftAddress : Address) : bool :=
  Z.land 128 (nftAddress / 2 ^ 152) =? 128.

(** ** Block rewards *)

(** One creator: the next CSBT address goes to it, and the counter moves on. *)
Definition mint_one (awardee : Address) : M unit :=
  m ← so_OfficialMint MintDeepStorageAddress;
  officialMint ← deref m;
  let nftAddr := BigToAddress officialMint in
  _ ← sdb_GetOrNewNFTStateObject nftAddr;
  _ ← so_SetNFTInfo nftAddr awardee awardee;
  so_AddOfficialMint MintDeepStorageAddress 1.

Definition sdb_CreateNFTByOfficial16 (validators exchangers : list Address) (blocknumber : Z)
    (hash : bytes) : M unit :=
  let rewardAmount := GetRewardAmount (u64 blocknumber) DREBlockReward in
  _ ← mapM_ (fun owner => _ ← sdb_GetOrNewAccountStateObject owner;
                          so_AddBalance owner rewardAmount) validators;
  _ ← sdb_GetOrNewStakerStateObject MintDeepStorageAddress;
  mapM_ mint_one exchangers.

(** The stakers of one validator, with the sum already paid.  A zero divisor panics. *)
Fixpoint pay_stakers (owner : Address) (sumStakerReward sumStakerBalance : Z)
    (stakers : ValidatorsExtensionList) (actualSumStakerReward : Z) : M Z :=
  match stakers with
  | [] => mret actualSumStakerReward
  | staker :: stakers =>
      if pl_Addr staker =? owner
      then pay_stakers owner sumStakerReward sumStakerBalance stakers actualSumStakerReward
      else if sumStakerBalance =? 0 then panic
      else
        let stakerReward := sumStakerReward * pl_Balance staker / sumStakerBalance in
        _ ← sdb_GetOrNewAccountStateObject (pl_Addr staker);
        _ ← so_AddBalance (pl_Addr staker) stakerReward;
        pay_stakers owner sumStakerReward sumStakerBalance stakers (actualSumStakerReward + stakerReward)
  end.

Definition distribute_one (sumStakerReward : Z) (owner : Address) : M unit :=
  _ ← sdb_GetOrNewAccountStateObject owner;
  stakerList ← so_GetValidatorExtension owner;
  let ownerStakerBalance := vel_GetBalance owner stakerList in
  let sumStakerBalance := vel_GetAllBalance stakerList - ownerStakerBalance in
  actualSumStakerReward ← pay_stakers owner sumStakerReward sumStakerBalance stakerList 0;
  so_SubBalance owner actualSumStakerReward.

Definition sdb_DistributeRewardsToStakers (validators : list Address) (blocknumber : Z) : M unit :=
  let rewardAmount := GetRewardAmount (u64 blocknumber) DREBlockReward in
  let stakersPercentage := 100 - PercentageValidatorReward in
  let sumStakerReward := rewardAmount * stakersPercentage / 100 in
  mapM_ (distribute_one sumStakerReward) validators.

(** ** Pledging *)

(** The validator list of the storage account, which the code dereferences. *)
Definition validator_list : M ValidatorList :=
  v ← so_GetValidators ValidatorStorageAddress; deref v.

Definition sdb_PledgeToken (address : Address) (amount : option Z) (proxy : Address)
    (blocknumber : Z) : M goerror :=
  let amount := default 0 amount in
  _ ← sdb_GetOrNewAccountStateObject address;
  _ ← sdb_GetOrNewStakerStateObject ValidatorStorageAddress;
  validators ← validator_list;
  if existsb (fun v => negb (v_Proxy v =? 0) && negb (v_Addr v =? address) && (v_Proxy v =? proxy)) validators
  then mret (Some "cannot delegate repeatedly")
  else
    _ ← so_AddValidator ValidatorStorageAddress address amount proxy;
    _ ← so_SubBalance address amount;
    _ ← so_AddPledgedBalance address amount;
    _ ← so_SetPledgedBlockNumber address blocknumber;
    mret None.

Definition sdb_StakerPledge (from address : Address) (amount blocknumber : Z) (wh : Wormholes) : M goerror :=
  _ ← sdb_GetOrNewAccountStateObject address;
  _ ← sdb_GetOrNewAccountStateObject from;
  let newProxy := match wh_ProxyAddress wh with [] => 0 | s => HexToAddress s end in
  _ ← so_SubBalance from amount;
  _ ← so_StakerPledge from address amount blocknumber;
  _ ← so_AddPledgedBalance address amount;
  _ ← (if from =? address then so_SetValidatorProxy address newProxy else mret tt);
  _ ← so_AddValidatorExtension address from amount blocknumber;
  _ ← so_SetPledgedBlockNumber from blocknumber;
  mret None.

Definition sdb_MinerConsign (address proxy : Address) : M goerror :=
  _ ← sdb_GetOrNewAccountStateObject address;
  _ ← sdb_GetOrNewStakerStateObject ValidatorStorageAddress;
  validators ← validator_list;
  if negb (existsb (fun v => address =? v_Addr v) validators)
  then mret (Some "no repeated pledge")
  else if existsb (fun v => negb (v_Proxy v =? 0) && (v_Proxy v =? proxy)) validators
  then mret (Some "cannot delegate repeatedly")
  else
    _ ← so_AddValidator ValidatorStorageAddress address 0 proxy;
    mret None.

Definition sdb_MinerBecome (address proxy : Address) : M goerror :=
  _ ← sdb_GetOrNewAccountStateObject address;
  _ ← sdb_GetOrNewStakerStateObject ValidatorStorageAddress;
  pledged ← so_PledgedBalance address;
  _ ← so_AddValidator ValidatorStorageAddress address pledged proxy;
  mret None.

(** ** Coefficients *)

Definition sdb_GetCoefficient (addr : Address) : M Z :=
  _ ← sdb_GetOrNewAccountStateObject addr; so_Coefficient addr.
Definition sdb_AddValidatorCoefficient (addr : Address) (coe : Z) : M unit :=
  _ ← sdb_GetOrNewAccountStateObject addr; so_AddCoefficient addr coe.
Definition sdb_SubValidatorCoefficient (addr : Address) (coe : Z) : M unit :=
  _ ← sdb_GetOrNewAccountStateObject addr; so_SubCoefficient addr coe.
Definition sdb_RemoveValidatorCoefficient (addr : Address) : M unit :=
  _ ← sdb_GetOrNewAccountStateObject addr; so_RemoveCoefficient addr.
Definition sdb_GetValidatorCoefficient (addr : Address) : M Z :=
  _ ← sdb_GetOrNewAccountStateObject addr; so_Coefficient addr.

Definition sdb_PunishEvilValidators (evilValidators : list Address) (blocknumber : Z) : M goerror :=
  _ ← mapM_ (fun evil => sdb_SubValidatorCoefficient evil DEFAULT_VALIDATOR_COEFFICIENT) evilValidators;
  mret None.

(** ** Becoming a validator *)

Definition sdb_ResetMinerBecome (address : Address) : M goerror :=
  _ ← sdb_GetOrNewAccountStateObject address;
  _ ← sdb_GetOrNewStakerStateObject ValidatorStorageAddress;
  _ ← so_ResetemoveValidator ValidatorStorageAddress address;
  pledged ← so_PledgedBalance address;
  if pledged <? ValidatorBase then mret None
  else
    proxy ← so_GetValidatorProxy address;
    validators ← validator_list;
    if negb (proxy =? 0) && vl_Exist proxy validators
    then mret (Some "cannot have the same proxy")
    else
      coefficient ← sdb_GetValidatorCoefficient address;
      _ ← (if coefficient =? 0 then sdb_AddValidatorCoefficient address VALIDATOR_COEFFICIENT
           else mret tt);
      _ ← so_SetValidatorAmount ValidatorStorageAddress address pledged proxy;
      mret None.

(** ** Cancelling *)

Definition sdb_CancelPledgedToken (address : Address) (amount : Z) : M unit :=
  _ ← sdb_GetOrNewAccountStateObject address;
  _ ← sdb_GetOrNewStakerStateObject ValidatorStorageAddress;
  _ ← so_RemoveValidator ValidatorStorageAddress address amount;
  _ ← so_SubPledgedBalance address amount;
  so_AddBalance address amount.

(** One staker of a validator that leaves gets its pledge back. *)
Definition revocate_one (addr : Address) (staker : ValidatorExtension) : M unit :=
  _ ← sdb_GetOrNewAccountStateObject (pl_Addr staker);
  _ ← so_RemoveStakerPledge (pl_Addr staker) addr (pl_Balance staker);
  _ ← so_AddBalance (pl_Addr staker) (pl_Balance staker);
  _ ← so_SubPledgedBalance addr (pl_Balance staker);
  _ ← so_RemoveValidator ValidatorStorageAddress addr (pl_Balance staker);
  mret tt.

Definition sdb_RevocateAllStakers (addr : Address) (blocknumber : Z) : M unit :=
  _ ← sdb_GetOrNewAccountStateObject addr;
  stakers ← so_GetValidatorExtension addr;
  _ ← sdb_GetOrNewStakerStateObject ValidatorStorageAddress;
  _ ← mapM_ (revocate_one addr) stakers;
  so_SetValidatorExtension addr [].

(** [coebaseErb], the price of one point of the coefficient *)
Definition coebaseErb : Z := 100000000000000000.

(** What all three ways of cancelling do to the two accounts and the list. *)
Definition cancel_entries (from address : Address) (amount : Z) : M unit :=
  _ ← so_RemoveStakerPledge from address amount;
  _ ← so_RemoveValidatorExtension address from amount;
  _ ← so_SubPledgedBalance address amount;
  _ ← so_RemoveValidator ValidatorStorageAddress address amount;
  mret tt.

Definition sdb_NewCancelStakerPledge (from address : Address) (amount blocknumber : Z) : M goerror :=
  _ ← sdb_GetOrNewAccountStateObject address;
  _ ← sdb_GetOrNewAccountStateObject from;
  _ ← sdb_GetOrNewStakerStateObject ValidatorStorageAddress;
  if from =? address then
    coefficient ← so_Coefficient address;
    let punishErb := if coefficient =? 0 then 0 else VALIDATOR_COEFFICIENT - coefficient in
    let punishErb' := punishErb * coebaseErb in
    if (0 <? punishErb) && (amount <? punishErb')
    then mret (Some "cancel pledge for insufficient punish amount")
    else
      _ ← (if 0 <? punishErb then
             _ ← so_AddBalance from (amount - punishErb');
             _ ← sdb_GetOrNewAccountStateObject 0;
             _ ← so_AddBalance 0 punishErb';
             so_SetCoefficient from VALIDATOR_COEFFICIENT
           else so_AddBalance from amount);
      validators ← so_GetStakerExtension from;
      let pledgedAmount := sel_GetBalance from validators in
      _ ← cancel_entries from address amount;
      _ ← (if pledgedAmount =? amount then sdb_RevocateAllStakers address blocknumber else mret tt);
      mret None
  else
    _ ← so_AddBalance from amount;
    _ ← cancel_entries from address amount;
    mret None.

(** ** Queries *)

Definition sdb_GetStakerStorageAddress : M (option StakerList) :=
  _ ← sdb_GetOrNewStakerStateObject StakerStorageAddress; so_GetStakers StakerStorageAddress.

Definition sdb_GetPledgedTime (from addr : Address) : M Z :=
  _ ← sdb_GetOrNewAccountStateObject from; so_StakerPledgedBlockNumber from addr.

Definition sdb_GetStakerPledged (from addr : Address) : M StakerExtension :=
  _ ← sdb_GetOrNewAccountStateObject from;
  l ← so_GetStakerExtension from;
  mret (match kfind pl_Addr addr l with
        | Some (_, value) => value
        | None => mkPledge 0 0 0
        end).

Definition sdb_GetPledgedBalance (addr : Address) : M Z :=
  _ ← sdb_GetOrNewAccountStateObject addr; so_PledgedBalance addr.

Definition sdb_GetStakerPledgedBalance (from addr : Address) : M Z :=
  _ ← sdb_GetOrNewAccountStateObject from;
  l ← so_GetStakerExtension from;
  mret (match kfind pl_Addr addr l with
        | Some (_, value) => pl_Balance value
        | None => 0
        end).

Definition sdb_GetAccountInfo (addr : Address) : M Account :=
  _ ← sdb_GetOrNewStateObject addr; so_GetAccountInfo addr.

Definition sdb_GetStakers (addr : Address) : M (option StakerList) :=
  _ ← sdb_GetOrNewStakerStateObject addr; so_GetStakers addr.

Definition sdb_GetValidators (addr : Address) : M (option ValidatorList) :=
  _ ← sdb_GetOrNewStakerStateObject addr; so_GetValidators addr.

Definition sdb_ChangeValidatorProxy (addr newValidatorProxy : Address) : M unit :=
  _ ← sdb_GetOrNewAccountStateObject addr; so_SetValidatorProxy addr newValidatorProxy.

Definition sdb_GetValidatorProxy (addr : Address) : M Address :=
  _ ← sdb_GetOrNewAccountStateObject addr; so_GetValidatorProxy addr.
End Staking.
