(* ===== verification/StateView.v ===== *)
(** What the accounts look like to the staking code.

    [view s a] is the account of [a] with its extensions in normal form: an account
    that does not exist, and an extension not yet created, show as empty.  The
    [GetOrNew] methods do not change views, so the state refines a function from
    addresses to views on which every setter is a one-point update.  [T V A S m x W]
    says that [m], started in a state that shows [V], does not panic, returns [x] and
    ends in a state that shows [W]; [A] and [S] are the addresses whose account and
    storage extensions are present. *)
From S2P Require Import Prelude KeyedList Common Params Validators Stakers AccessList StateTypes State StateDB StateRevert.

Open Scope Z_scope.

Record AccountView : Type := mkView {
  vw_Nonce : Z;
  vw_Balance : Z;
  vw_CodeHash : Hash;
  vw_Worm : WormholesExtension;
  vw_Csbt : AccountCSBT;
  vw_Staker : AccountStaker;
}.

Definition vw_set_Balance (n : Z) (v : AccountView) : AccountView :=
  mkView (vw_Nonce v) n (vw_CodeHash v) (vw_Worm v) (vw_Csbt v) (vw_Staker v).
Definition vw_set_Nonce (n : Z) (v : AccountView) : AccountView :=
  mkView n (vw_Balance v) (vw_CodeHash v) (vw_Worm v) (vw_Csbt v) (vw_Staker v).
Definition vw_set_Worm (w : WormholesExtension) (v : AccountView) : AccountView :=
  mkView (vw_Nonce v) (vw_Balance v) (vw_CodeHash v) w (vw_Csbt v) (vw_Staker v).
Definition vw_set_Csbt (c : AccountCSBT) (v : AccountView) : AccountView :=
  mkView (vw_Nonce v) (vw_Balance v) (vw_CodeHash v) (vw_Worm v) c (vw_Staker v).
Definition vw_set_Staker (k : AccountStaker) (v : AccountView) : AccountView :=
  mkView (vw_Nonce v) (vw_Balance v) (vw_CodeHash v) (vw_Worm v) (vw_Csbt v) k.

(** All accounts, and the change of one. *)
Notation views := (Address -> AccountView) (only parsing).

Definition vset (a : Address) (x : AccountView) (V : views) : views :=
  fun b => if decide (b = a) then x else V b.

Section View.
  Context {CR : Crypto}.

Definition view_of (a : Address) (d : Account) : AccountView :=
  mkView (a_Nonce d) (a_Balance d) (a_CodeHash d) (worm_norm (a_Worm d)) (csbt_norm (a_Csbt d))
    (stk_norm a (a_Staker d)).

Definition view (s : StateDB) (a : Address) : AccountView :=
  match lookup_obj s a with
  | Some o => view_of a (if so_deleted o then zeroAccount else so_data o)
  | None => view_of a zeroAccount
  end.

(** ** Presence of extensions *)

(** An account extension as [GetOrNewAccountStateObject] leaves it. *)
Definition normal (w : WormholesExtension) : Prop := worm_norm (Some w) = w.

Definition has_data (P : Account -> Prop) (s : StateDB) (a : Address) : Prop :=
  exists o, sdb_stateObjects s !! a = Some o /\ so_deleted o = false /\ P (so_data o).

Definition acc_in (d : Account) : Prop := a_Worm d = Some (worm_norm (a_Worm d)).
Definition stk_in (d : Account) : Prop := is_Some (a_Staker d).
Definition csbt_in (d : Account) : Prop := is_Some (a_Csbt d).

(** The addresses a computation may dereference, by extension. *)
Record ext : Type := mkExt { e_acc : list Address; e_stk : list Address; e_csbt : list Address }.

Record shows (s : StateDB) (V : views) (E : ext) : Prop := {
  sh_wf : sdb_wf s;
  sh_view : forall a, view s a = V a;
  sh_acc : forall a, a ∈ e_acc E -> has_data acc_in s a;
  sh_stk : forall a, a ∈ e_stk E -> has_data stk_in s a;
  sh_csbt : forall a, a ∈ e_csbt E -> has_data csbt_in s a;
}.

Definition T {A : Type} (V : views) (E : ext) (m : M A) (x : A) (W : views) : Prop :=
  forall s, shows s V E -> exists s', m s = Some (x, s') /\ shows s' W E.

(** ** Structure *)

Lemma T_ret {A : Type} V E (x : A) : T V E (mret x) x V.
Proof. intros s Hs. by exists s. Qed.

Lemma T_bind {A B : Type} V E (m : M A) (f : A -> M B) x y W X :
  T V E m x W -> T W E (f x) y X -> T V E (m ≫= f) y X.
Proof.
  intros Hm Hf s Hs. destruct (Hm s Hs) as (s1 & Hr & Hs1).
  destruct (Hf s1 Hs1) as (s2 & Hr2 & Hs2). exists s2. unfold mbind, M_bind. by rewrite Hr.
Qed.

Lemma shows_ext s V W E : (forall a, V a = W a) -> shows s V E -> shows s W E.
Proof. intros H []. split; try done. intros a. by rewrite sh_view0. Qed.

(** Equal views are interchangeable on both sides. *)
Lemma T_ext {A : Type} V V' E (m : M A) x W W' :
  (forall a, V a = V' a) -> (forall a, W a = W' a) -> T V E m x W -> T V' E m x W'.
Proof.
  intros HV HW Hm s Hs. destruct (Hm s) as (s' & Hr & Hs').
  - eapply shows_ext; [|exact Hs]. intros a. by rewrite HV.
  - exists s'. split; [done|]. by eapply shows_ext.
Qed.

(** ** Replacing one object *)

(** [s'] is [s] with the object [o] at [a], whatever happened to the journal. *)
Definition replaced (s : StateDB) (a : Address) (o : stateObject) (s' : StateDB) : Prop :=
  sdb_stateObjects s' = <[a := o]> (sdb_stateObjects s) /\
  (forall b, backing_account s' b = backing_account s b) /\
  sdb_accessList s' = sdb_accessList s /\ sdb_logs s' = sdb_logs s.

Lemma view_replaced s a o s' b :
  replaced s a o s' -> so_deleted o = false ->
  view s' b = if decide (b = a) then view_of a (so_data o) else view s b.
Proof.
  intros (Ho & Hb & _) Hd. unfold view, lookup_obj. rewrite Ho, Hb.
  case_decide as Hab; [subst; by rewrite lookup_insert_eq, Hd|by rewrite lookup_insert_ne].
Qed.

(** A computation that replaces the object at [a] by one with the same presence of
    extensions updates the view of [a] alone. *)
Lemma shows_replaced s V E a o o1 s1 x :
  shows s V E ->
  (forall o', sdb_stateObjects s !! a = Some o' -> so_deleted o' = false -> o' = o) ->
  replaced s a o1 s1 -> obj_ok a o1 -> so_deleted o1 = false ->
  (acc_in (so_data o) -> acc_in (so_data o1)) ->
  (stk_in (so_data o) -> stk_in (so_data o1)) ->
  (csbt_in (so_data o) -> csbt_in (so_data o1)) ->
  view_of a (so_data o1) = x ->
  shows s1 (vset a x V) E.
Proof.
  intros [] Ho Hrep Hok1 Hd1 Hw Hk Hc Hx. pose proof Hrep as (Hobj & _ & Hal & Hlg).
  assert (Hkeep : forall P b, (P (so_data o) -> P (so_data o1)) -> has_data P s b -> has_data P s1 b).
  { intros P b Himp (ob & Hb & Hdb & HP). unfold has_data. rewrite Hobj.
    destruct (decide (a = b)) as [<-|Hne].
    - exists o1. rewrite lookup_insert_eq. rewrite (Ho ob Hb Hdb) in HP. auto.
    - exists ob. by rewrite lookup_insert_ne. }
  split; eauto.
  - destruct sh_wf0 as (H1 & H2 & H3). unfold sdb_wf. rewrite Hobj, Hal, Hlg. split_and!; [|done|done].
    intros b ob [[<- <-]|[_ Hb]]%lookup_insert_Some; [done|by apply H1].
  - intros b. rewrite (view_replaced s a o1 s1 b Hrep Hd1). unfold vset. case_decide; [done|apply sh_view0].
Qed.

Lemma replaced_set_obj s a o : replaced s a o (set_obj a o s).
Proof. done. Qed.
Lemma replaced_add_entry s a o e : replaced s a o (set_obj a o (add_entry e s)).
Proof. done. Qed.

(** The object behind a present extension holds exactly the view. *)
Lemma shows_acc s V E a :
  shows s V E -> a ∈ e_acc E ->
  exists o, sdb_stateObjects s !! a = Some o /\ so_deleted o = false /\ obj_ok a o /\
    view_of a (so_data o) = V a /\ a_Worm (so_data o) = Some (vw_Worm (V a)) /\ normal (vw_Worm (V a)).
Proof.
  intros [] Ha. destruct (sh_acc0 a Ha) as (o & Ho & Hd & Hw). exists o.
  specialize (sh_view0 a). unfold view, lookup_obj in sh_view0. rewrite Ho, Hd in sh_view0.
  rewrite <- sh_view0. split_and!; try done. by apply (proj1 sh_wf0).
Qed.

Lemma shows_stk s V E a :
  shows s V E -> a ∈ e_stk E ->
  exists o, sdb_stateObjects s !! a = Some o /\ so_deleted o = false /\ obj_ok a o /\
    view_of a (so_data o) = V a /\ a_Staker (so_data o) = Some (vw_Staker (V a)).
Proof.
  intros [] Ha. destruct (sh_stk0 a Ha) as (o & Ho & Hd & [k Hk]). exists o.
  specialize (sh_view0 a). unfold view, lookup_obj in sh_view0. rewrite Ho, Hd in sh_view0.
  rewrite <- sh_view0. split_and!; try done; [by apply (proj1 sh_wf0)|]. unfold view_of. by rewrite Hk.
Qed.

Lemma shows_csbt s V E a :
  shows s V E -> a ∈ e_csbt E ->
  exists o, sdb_stateObjects s !! a = Some o /\ so_deleted o = false /\ obj_ok a o /\
    view_of a (so_data o) = V a /\ a_Csbt (so_data o) = Some (vw_Csbt (V a)).
Proof.
  intros [] Ha. destruct (sh_csbt0 a Ha) as (o & Ho & Hd & [k Hk]). exists o.
  specialize (sh_view0 a). unfold view, lookup_obj in sh_view0. rewrite Ho, Hd in sh_view0.
  rewrite <- sh_view0. split_and!; try done; [by apply (proj1 sh_wf0)|]. unfold view_of. by rewrite Hk.
Qed.

(** ** Setters *)

(** Setters of the account extension: what they do on a normal one decides. *)
Lemma T_worm V E a (m : M unit) h :
  a ∈ e_acc E ->
  (forall w, normal w -> normal (h w)) ->
  (forall s o w, sdb_stateObjects s !! a = Some o -> a_Worm (so_data o) = Some w -> normal w ->
     exists s', m s = Some (tt, s') /\ replaced s a (set_so_data (set_a_Worm (Some (h w)) (so_data o)) o) s') ->
  T V E m tt (vset a (vw_set_Worm (h (vw_Worm (V a))) (V a)) V).
Proof.
  intros Ha Hh Hm s Hs. destruct (shows_acc s V E a Hs Ha) as (o & Ho & Hd & Hok & Hv & Hw & Hn).
  destruct (Hm s o _ Ho Hw Hn) as (s' & Hr & Hrep). exists s'. split; [done|].
  pose proof (Hh _ Hn) as Hn'. unfold normal in Hn'.
  eapply shows_replaced; [exact Hs|by intros; simplify_eq|exact Hrep|done|done| |done|done|].
  - intros _. unfold acc_in. simpl. by rewrite Hn'.
  - transitivity (vw_set_Worm (h (vw_Worm (V a))) (view_of a (so_data o))); [|by rewrite Hv].
    unfold view_of, vw_set_Worm. simpl. by rewrite Hn'.
Qed.

Lemma T_stk V E a (m : M unit) h :
  a ∈ e_stk E ->
  (forall s o, sdb_stateObjects s !! a = Some o -> a_Staker (so_data o) = Some (vw_Staker (V a)) ->
     exists s', m s = Some (tt, s') /\
       replaced s a (set_so_data (set_a_Staker (Some (h (vw_Staker (V a)))) (so_data o)) o) s') ->
  T V E m tt (vset a (vw_set_Staker (h (vw_Staker (V a))) (V a)) V).
Proof.
  intros Ha Hm s Hs. destruct (shows_stk s V E a Hs Ha) as (o & Ho & Hd & Hok & Hv & Hk).
  destruct (Hm s o Ho Hk) as (s' & Hr & Hrep). exists s'. split; [done|].
  eapply shows_replaced; [exact Hs|by intros; simplify_eq|exact Hrep|done|done|done| |done|].
  - by eexists.
  - transitivity (vw_set_Staker (h (vw_Staker (V a))) (view_of a (so_data o))); [done|by rewrite Hv].
Qed.

Lemma T_csbt V E a (m : M unit) h :
  a ∈ e_csbt E ->
  (forall s o, sdb_stateObjects s !! a = Some o -> a_Csbt (so_data o) = Some (vw_Csbt (V a)) ->
     exists s', m s = Some (tt, s') /\
       replaced s a (set_so_data (set_a_Csbt (Some (h (vw_Csbt (V a)))) (so_data o)) o) s') ->
  T V E m tt (vset a (vw_set_Csbt (h (vw_Csbt (V a))) (V a)) V).
Proof.
  intros Ha Hm s Hs. destruct (shows_csbt s V E a Hs Ha) as (o & Ho & Hd & Hok & Hv & Hk).
  destruct (Hm s o Ho Hk) as (s' & Hr & Hrep). exists s'. split; [done|].
  eapply shows_replaced; [exact Hs|by intros; simplify_eq|exact Hrep|done|done|done|done| |].
  - by eexists.
  - transitivity (vw_set_Csbt (h (vw_Csbt (V a))) (view_of a (so_data o))); [done|by rewrite Hv].
Qed.

(** The balance and the nonce. *)
Lemma T_data V E a (m : M unit) f v :
  a ∈ e_acc E ->
  (forall s o, sdb_stateObjects s !! a = Some o -> view_of a (so_data o) = V a ->
     exists s', m s = Some (tt, s') /\ replaced s a (set_so_data (f (so_data o)) o) s') ->
  (forall d, a_Worm (f d) = a_Worm d /\ a_Staker (f d) = a_Staker d /\ a_Csbt (f d) = a_Csbt d) ->
  (forall d, view_of a d = V a -> view_of a (f d) = v) ->
  T V E m tt (vset a v V).
Proof.
  intros Ha Hm Hf Hv' s Hs. destruct (shows_acc s V E a Hs Ha) as (o & Ho & Hd & Hok & Hv & _).
  destruct (Hm s o Ho Hv) as (s' & Hr & Hrep). exists s'. split; [done|].
  destruct (Hf (so_data o)) as (Hw & Hk & Hc).
  eapply shows_replaced; [exact Hs|by intros; simplify_eq|exact Hrep|done|done| | | |by apply Hv'];
    unfold acc_in, stk_in, csbt_in; simpl; congruence.
Qed.

(** ** Finding or creating *)

Lemma ensure_replaced s a : replaced s a (ensure a s).2 (ensure a s).1.
Proof.
  unfold ensure, replaced. destruct (lookup_obj s a) as [o|]; [|done].
  destruct (so_deleted o); [|done]. simpl.
  destruct (_ && negb _); simpl; by rewrite insert_insert_eq.
Qed.

Lemma ensure_view s a : view_of a (so_data (ensure a s).2) = view s a.
Proof.
  unfold ensure, view. destruct (lookup_obj s a) as [o|]; [|done]. by destruct (so_deleted o).
Qed.

Lemma vset_id V a v b : v = V a -> vset a v V b = V b.
Proof. intros ->. unfold vset. by case_decide; subst. Qed.

(** Filling in an extension with its normal form shows nothing. *)
Lemma shows_filled s V E a fill :
  shows s V E ->
  (forall o, obj_ok a o -> obj_ok a (fill o) /\ so_deleted (fill o) = so_deleted o /\
     view_of a (so_data (fill o)) = view_of a (so_data o) /\
     (acc_in (so_data o) -> acc_in (so_data (fill o))) /\
     (stk_in (so_data o) -> stk_in (so_data (fill o))) /\
     (csbt_in (so_data o) -> csbt_in (so_data (fill o)))) ->
  shows (filled a fill s) V E /\
  exists o, sdb_stateObjects (filled a fill s) !! a = Some (fill o) /\ so_deleted (fill o) = false.
Proof.
  intros Hs Hfill. pose proof (ensure_spec s a (sh_wf _ _ _ Hs)) as He.
  pose proof (ensure_replaced s a) as (Hr1 & Hr2 & Hr3 & Hr4). pose proof (ensure_view s a) as Hv.
  assert (Hfound : forall o', sdb_stateObjects s !! a = Some o' -> so_deleted o' = false -> o' = (ensure a s).2).
  { intros o' Ho' Hd'. unfold ensure, lookup_obj. by rewrite Ho', Hd'. }
  unfold filled. destruct (ensure a s) as [s1 o]. simpl in *. destruct He as (_ & Ho & Hd & Hok).
  destruct (Hfill o Hok) as (Hok' & Hd' & Hv' & Hw & Hk & Hc). split.
  - eapply (shows_ext _ (vset a (V a) V)); [intros b; by apply vset_id|].
    eapply shows_replaced; [exact Hs|exact Hfound| |done|congruence|done|done|done|].
    + unfold replaced. simpl. by rewrite Hr1, insert_insert_eq.
    + rewrite Hv', Hv. apply Hs.
  - exists o. split; [apply set_obj_lookup|congruence].
Qed.

Definition add_acc (a : Address) (E : ext) : ext := mkExt (a :: e_acc E) (e_stk E) (e_csbt E).
Definition add_stk (a : Address) (E : ext) : ext := mkExt (e_acc E) (a :: e_stk E) (e_csbt E).
Definition add_csbt (a : Address) (E : ext) : ext := mkExt (e_acc E) (e_stk E) (a :: e_csbt E).

Lemma worm_norm_idem o : worm_norm (Some (worm_norm o)) = worm_norm o.
Proof. done. Qed.

Lemma T_newAccount {A : Type} V E a (k : M A) x W :
  T V (add_acc a E) k x W -> T V E (_ ← sdb_GetOrNewAccountStateObject a; k) x W.
Proof.
  intros Hk s Hs. destruct (shows_filled s V E a fill_account Hs) as [Hs1 (o & Ho & Hd)].
  { intros o Hok. by split_and!. }
  unfold mbind, M_bind. rewrite GetOrNewAccount_run.
  destruct (Hk (filled a fill_account s)) as (s' & Hr & []).
  - destruct Hs1. split; try done. intros b [->|Hb]%elem_of_cons; [|by apply sh_acc0]. by exists (fill_account o).
  - exists s'. split; [done|]. simpl in *. split; auto.
    intros b Hb. apply sh_acc0. by apply elem_of_cons; right.
Qed.

Lemma T_newStaker {A : Type} V E a (k : M A) x W :
  T V (add_stk a E) k x W -> T V E (_ ← sdb_GetOrNewStakerStateObject a; k) x W.
Proof.
  intros Hk s Hs. destruct (shows_filled s V E a (fill_staker a) Hs) as [Hs1 (o & Ho & Hd)].
  { intros o Hok. split_and!; try done. intros _. by eexists. }
  unfold mbind, M_bind. rewrite GetOrNewStaker_run.
  destruct (Hk (filled a (fill_staker a) s)) as (s' & Hr & []).
  - destruct Hs1. split; try done. intros b [->|Hb]%elem_of_cons; [|by apply sh_stk0].
    exists (fill_staker a o). split_and!; [done|done|by eexists].
  - exists s'. split; [done|]. simpl in *. split; auto.
    intros b Hb. apply sh_stk0. by apply elem_of_cons; right.
Qed.

Lemma T_newNFT {A : Type} V E a (k : M A) x W :
  T V (add_csbt a E) k x W -> T V E (_ ← sdb_GetOrNewNFTStateObject a; k) x W.
Proof.
  intros Hk s Hs. destruct (shows_filled s V E a fill_nft Hs) as [Hs1 (o & Ho & Hd)].
  { intros o Hok. split_and!; try done. intros _. by eexists. }
  unfold mbind, M_bind. rewrite GetOrNewNFT_run.
  destruct (Hk (filled a fill_nft s)) as (s' & Hr & []).
  - destruct Hs1. split; try done. intros b [->|Hb]%elem_of_cons; [|by apply sh_csbt0].
    exists (fill_nft o). split_and!; [done|done|by eexists].
  - exists s'. split; [done|]. simpl in *. split; auto.
    intros b Hb. apply sh_csbt0. by apply elem_of_cons; right.
Qed.

(** ** One-point updates *)

Definition addbal (a : Address) (n : Z) (V : views) : views :=
  vset a (vw_set_Balance (vw_Balance (V a) + n) (V a)) V.
Definition updw (a : Address) (h : WormholesExtension -> WormholesExtension) (V : views) : views :=
  vset a (vw_set_Worm (h (vw_Worm (V a))) (V a)) V.
Definition updk (a : Address) (h : AccountStaker -> AccountStaker) (V : views) : views :=
  vset a (vw_set_Staker (h (vw_Staker (V a))) (V a)) V.
Definition updc (a : Address) (h : AccountCSBT -> AccountCSBT) (V : views) : views :=
  vset a (vw_set_Csbt (h (vw_Csbt (V a))) (V a)) V.

(** ** Reading *)

Lemma T_get_worm V E a : a ∈ e_acc E -> T V E (worm a) (vw_Worm (V a)) V.
Proof.
  intros Ha s Hs. destruct (shows_acc s V E a Hs Ha) as (o & Ho & _ & _ & _ & Hw & _).
  exists s. unfold worm. run_obj. by rewrite Ho, Hw.
Qed.

Lemma T_get_stk V E a : a ∈ e_stk E -> T V E (stk a) (vw_Staker (V a)) V.
Proof.
  intros Ha s Hs. destruct (shows_stk s V E a Hs Ha) as (o & Ho & _ & _ & _ & Hw).
  exists s. unfold stk. run_obj. by rewrite Ho, Hw.
Qed.

Lemma T_get_csbt V E a : a ∈ e_csbt E -> T V E (csbt a) (vw_Csbt (V a)) V.
Proof.
  intros Ha s Hs. destruct (shows_csbt s V E a Hs Ha) as (o & Ho & _ & _ & _ & Hw).
  exists s. unfold csbt. run_obj. by rewrite Ho, Hw.
Qed.

Lemma T_Balance V E a : a ∈ e_acc E -> T V E (so_Balance a) (vw_Balance (V a)) V.
Proof.
  intros Ha s Hs. destruct (shows_acc s V E a Hs Ha) as (o & Ho & _ & _ & Hv & _).
  exists s. unfold so_Balance. run_obj. rewrite Ho. by rewrite <- Hv.
Qed.

(** Binds whose first part only reads. *)
Lemma T_worm_bind {A : Type} V E a (f : WormholesExtension -> M A) x W :
  a ∈ e_acc E -> T V E (f (vw_Worm (V a))) x W -> T V E (w ← worm a; f w) x W.
Proof. intros Ha Hf. eapply T_bind; [by apply T_get_worm|done]. Qed.

Lemma T_stk_bind {A : Type} V E a (f : AccountStaker -> M A) x W :
  a ∈ e_stk E -> T V E (f (vw_Staker (V a))) x W -> T V E (w ← stk a; f w) x W.
Proof. intros Ha Hf. eapply T_bind; [by apply T_get_stk|done]. Qed.

Lemma T_csbt_bind {A : Type} V E a (f : AccountCSBT -> M A) x W :
  a ∈ e_csbt E -> T V E (f (vw_Csbt (V a))) x W -> T V E (w ← csbt a; f w) x W.
Proof. intros Ha Hf. eapply T_bind; [by apply T_get_csbt|done]. Qed.

(** ** Writing *)

Lemma T_same V E (m : M unit) W :
  (forall s, shows s V E -> exists s', m s = Some (tt, s') /\ sdb_stateObjects s' = sdb_stateObjects s /\
     sdb_snap s' = sdb_snap s /\ sdb_trie s' = sdb_trie s /\
     sdb_accessList s' = sdb_accessList s /\ sdb_logs s' = sdb_logs s) ->
  (forall a, V a = W a) -> T V E m tt W.
Proof.
  intros Hm HV s Hs. destruct (Hm s Hs) as (s' & Hr & Ho & Hsn & Htr & Hal & Hlg). exists s'. split; [done|].
  eapply shows_ext; [exact HV|]. destruct Hs. split; unfold has_data, sdb_wf, view, lookup_obj, backing_account;
    rewrite ?Ho, ?Hal, ?Hlg, ?Hsn, ?Htr; done.
Qed.

Lemma T_SetBalance V E a n : a ∈ e_acc E -> T V E (so_SetBalance a n) tt (vset a (vw_set_Balance n (V a)) V).
Proof.
  intros Ha. eapply (T_data V E a _ (set_a_Balance n)); [done| |done|].
  - intros s o Ho _. unfold so_SetBalance, so_Balance, so_setBalance, upd_data, upd. run_obj. rewrite Ho. simpl. rewrite Ho.
    eexists. split; [done|apply replaced_add_entry].
  - intros d <-. done.
Qed.

Lemma T_AddBalance V E a n : a ∈ e_acc E -> T V E (so_AddBalance a n) tt (addbal a n V).
Proof.
  intros Ha. unfold so_AddBalance. destruct (n =? 0) eqn:Hn.
  - apply Z.eqb_eq in Hn as ->. apply T_same.
    + intros s Hs. destruct (shows_acc s V E a Hs Ha) as (o & Ho & _). run_obj. rewrite Ho.
      destruct (so_empty o); [unfold so_touch; run_obj; destruct (a =? ripemd)|]; by eexists.
    + intros b. symmetry. apply vset_id. rewrite Z.add_0_r. by destruct (V a).
  - eapply T_bind; [by apply T_Balance|by apply T_SetBalance].
Qed.

Lemma T_SubBalance V E a n : a ∈ e_acc E -> T V E (so_SubBalance a n) tt (addbal a (- n) V).
Proof.
  intros Ha. unfold so_SubBalance. destruct (n =? 0) eqn:Hn.
  - apply Z.eqb_eq in Hn as ->. eapply T_ext; [done| |apply T_ret].
    intros b. symmetry. apply vset_id. rewrite Z.add_0_r. by destruct (V a).
  - eapply T_bind; [by apply T_Balance|by apply T_SetBalance].
Qed.

Lemma T_SetNonce V E a n : a ∈ e_acc E -> T V E (so_SetNonce a n) tt (vset a (vw_set_Nonce n (V a)) V).
Proof.
  intros Ha. eapply (T_data V E a _ (set_a_Nonce n)); [done| |done|].
  - intros s o Ho _. unfold so_SetNonce, so_setNonce, upd_data, upd. run_obj. rewrite Ho. simpl. rewrite Ho.
    eexists. split; [done|apply replaced_add_entry].
  - intros d <-. done.
Qed.

(** The setters of the account extension that read it, journal and write. *)
Lemma T_worm_set V E a h (e : WormholesExtension -> journalEntry) :
  a ∈ e_acc E -> (forall w, normal w -> normal (h w)) ->
  T V E (w ← worm a; _ ← journal_append (e w); upd_worm a h) tt (updw a h V).
Proof.
  intros Ha Hh. apply T_worm; [done|done|]. intros s o w Ho Hw _. unfold worm. run_obj.
  rewrite Ho. simpl. rewrite Hw. rewrite (upd_worm_run _ a o w); [|done..].
  eexists. split; [done|apply replaced_add_entry].
Qed.

(** Normal extensions are closed under the field setters. *)
Lemma normal_iff w : normal w <-> is_Some (w_PledgedBalance w) /\ is_Some (w_PledgedBlockNumber w).
Proof.
  destruct w as [[?|] [?|] ? ? ? ?]; unfold normal, worm_norm; simpl; split;
    first [done | by intros [[]%is_Some_None ?] | by intros [? []%is_Some_None] | by eauto].
Qed.
End View.

#[export] Hint Resolve T_get_worm T_get_stk T_get_csbt T_Balance T_SetBalance T_AddBalance T_SubBalance
  T_SetNonce : erbie.
