(* ===== verification/World.v ===== *)
(** The world as the staking code sees it: one function from addresses per quantity.

    [world] is the abstract state of the staking component, [world_of s] the one a
    concrete state implements.  [TW w E m x w'] refines a computation on the state to
    a step from [w] to [w'] that returns [x]; there is one rule per method of a state
    object, so that the methods of [*StateDB] are refined by chaining rules. *)
From S2P Require Import Prelude KeyedList Common Params Wormholes Validators Stakers AccessList StateTypes State StateDB StateRevert StateView.

Open Scope Z_scope.

Record world : Type := mkWorld {
  wd_nonce : Address -> Z;
  wd_bal : Address -> Z;
  wd_codehash : Address -> Hash;
  wd_pledged : Address -> Z;                       (* PledgedBalance *)
  wd_since : Address -> Z;                         (* PledgedBlockNumber *)
  wd_coef : Address -> Z;                          (* Coefficient *)
  wd_sext : Address -> StakersExtensionList;       (* pledges made by the account *)
  wd_vext : Address -> ValidatorsExtensionList;    (* pledges received by the account *)
  wd_proxy : Address -> Address;
  wd_csbt : Address -> AccountCSBT;
  wd_mint : Address -> MintDeep;
  wd_vals : Address -> ValidatorList;
  wd_creators : Address -> StakerList;
}.

(** Change of a function at one point. *)
Definition fset {A : Type} (a : Address) (x : A) (f : Address -> A) : Address -> A :=
  fun b => if decide (b = a) then x else f b.

Lemma fset_eq {A : Type} a (x : A) f : fset a x f a = x.
Proof. unfold fset. by rewrite decide_True. Qed.

Lemma fset_ne {A : Type} a b (x : A) f : b <> a -> fset a x f b = f b.
Proof. intros. unfold fset. by rewrite decide_False. Qed.

Lemma fset_twice {A : Type} a (x y : A) f b : fset a x (fset a y f) b = fset a x f b.
Proof. unfold fset. by case_decide. Qed.

Definition wset_nonce (a : Address) (x : Z) (w : world) : world :=
  mkWorld (fset a x (wd_nonce w)) (wd_bal w) (wd_codehash w) (wd_pledged w) (wd_since w)
    (wd_coef w) (wd_sext w) (wd_vext w) (wd_proxy w) (wd_csbt w) (wd_mint w) (wd_vals w)
    (wd_creators w).
Definition wset_bal (a : Address) (x : Z) (w : world) : world :=
  mkWorld (wd_nonce w) (fset a x (wd_bal w)) (wd_codehash w) (wd_pledged w) (wd_since w)
    (wd_coef w) (wd_sext w) (wd_vext w) (wd_proxy w) (wd_csbt w) (wd_mint w) (wd_vals w)
    (wd_creators w).
Definition wset_pledged (a : Address) (x : Z) (w : world) : world :=
  mkWorld (wd_nonce w) (wd_bal w) (wd_codehash w) (fset a x (wd_pledged w)) (wd_since w)
    (wd_coef w) (wd_sext w) (wd_vext w) (wd_proxy w) (wd_csbt w) (wd_mint w) (wd_vals w)
    (wd_creators w).
Definition wset_since (a : Address) (x : Z) (w : world) : world :=
  mkWorld (wd_nonce w) (wd_bal w) (wd_codehash w) (wd_pledged w) (fset a x (wd_since w))
    (wd_coef w) (wd_sext w) (wd_vext w) (wd_proxy w) (wd_csbt w) (wd_mint w) (wd_vals w)
    (wd_creators w).
Definition wset_coef (a : Address) (x : Z) (w : world) : world :=
  mkWorld (wd_nonce w) (wd_bal w) (wd_codehash w) (wd_pledged w) (wd_since w)
    (fset a x (wd_coef w)) (wd_sext w) (wd_vext w) (wd_proxy w) (wd_csbt w) (wd_mint w)
    (wd_vals w) (wd_creators w).
Definition wset_sext (a : Address) (x : StakersExtensionList) (w : world) : world :=
  mkWorld (wd_nonce w) (wd_bal w) (wd_codehash w) (wd_pledged w) (wd_since w) (wd_coef w)
    (fset a x (wd_sext w)) (wd_vext w) (wd_proxy w) (wd_csbt w) (wd_mint w) (wd_vals w)
    (wd_creators w).
Definition wset_vext (a : Address) (x : ValidatorsExtensionList) (w : world) : world :=
  mkWorld (wd_nonce w) (wd_bal w) (wd_codehash w) (wd_pledged w) (wd_since w) (wd_coef w)
    (wd_sext w) (fset a x (wd_vext w)) (wd_proxy w) (wd_csbt w) (wd_mint w) (wd_vals w)
    (wd_creators w).
Definition wset_proxy (a : Address) (x : Address) (w : world) : world :=
  mkWorld (wd_nonce w) (wd_bal w) (wd_codehash w) (wd_pledged w) (wd_since w) (wd_coef w)
    (wd_sext w) (wd_vext w) (fset a x (wd_proxy w)) (wd_csbt w) (wd_mint w) (wd_vals w)
    (wd_creators w).
Definition wset_csbt (a : Address) (x : AccountCSBT) (w : world) : world :=
  mkWorld (wd_nonce w) (wd_bal w) (wd_codehash w) (wd_pledged w) (wd_since w) (wd_coef w)
    (wd_sext w) (wd_vext w) (wd_proxy w) (fset a x (wd_csbt w)) (wd_mint w) (wd_vals w)
    (wd_creators w).
Definition wset_mint (a : Address) (x : MintDeep) (w : world) : world :=
  mkWorld (wd_nonce w) (wd_bal w) (wd_codehash w) (wd_pledged w) (wd_since w) (wd_coef w)
    (wd_sext w) (wd_vext w) (wd_proxy w) (wd_csbt w) (fset a x (wd_mint w)) (wd_vals w)
    (wd_creators w).
Definition wset_vals (a : Address) (x : ValidatorList) (w : world) : world :=
  mkWorld (wd_nonce w) (wd_bal w) (wd_codehash w) (wd_pledged w) (wd_since w) (wd_coef w)
    (wd_sext w) (wd_vext w) (wd_proxy w) (wd_csbt w) (wd_mint w) (fset a x (wd_vals w))
    (wd_creators w).
Definition wset_creators (a : Address) (x : StakerList) (w : world) : world :=
  mkWorld (wd_nonce w) (wd_bal w) (wd_codehash w) (wd_pledged w) (wd_since w) (wd_coef w)
    (wd_sext w) (wd_vext w) (wd_proxy w) (wd_csbt w) (wd_mint w) (wd_vals w)
    (fset a x (wd_creators w)).

Definition add_bal (a : Address) (n : Z) (w : world) : world := wset_bal a (wd_bal w a + n) w.
Definition add_pledged (a : Address) (n : Z) (w : world) : world := wset_pledged a (wd_pledged w a + n) w.

(** ** The accounts of a world *)

Definition acct (w : world) (a : Address) : AccountView :=
  mkView (wd_nonce w a) (wd_bal w a) (wd_codehash w a)
    (mkWormholesExtension (Some (wd_pledged w a)) (Some (wd_since w a)) (wd_coef w a) (wd_sext w a)
       (wd_vext w a) (wd_proxy w a))
    (wd_csbt w a) (mkAccountStaker (wd_mint w a) (wd_vals w a) (wd_creators w a)).

Section World.
  Context {CR : Crypto}.

Definition world_of (s : StateDB) : world :=
  let worm a := vw_Worm (view s a) in
  let stk a := vw_Staker (view s a) in
  mkWorld (fun a => vw_Nonce (view s a)) (fun a => vw_Balance (view s a)) (fun a => vw_CodeHash (view s a))
    (fun a => default 0 (w_PledgedBalance (worm a))) (fun a => default 0 (w_PledgedBlockNumber (worm a)))
    (fun a => w_Coefficient (worm a)) (fun a => w_StakerExtension (worm a))
    (fun a => w_ValidatorExtension (worm a)) (fun a => w_ValidatorProxy (worm a))
    (fun a => vw_Csbt (view s a)) (fun a => as_Mint (stk a)) (fun a => as_Validators (stk a))
    (fun a => as_CSBTCreators (stk a)).

Lemma view_acct s a : view s a = acct (world_of s) a.
Proof.
  assert (H : normal (vw_Worm (view s a))) by (unfold view; destruct (lookup_obj s a); done).
  unfold acct. simpl. destruct (view s a) as [? ? ? w ? []]; simpl in *. f_equal.
  destruct w as [[?|] [?|] ? ? ? ?]; done.
Qed.

Definition TW {A : Type} (w : world) (E : ext) (m : M A) (x : A) (w' : world) : Prop :=
  T (acct w) E m x (acct w').

(** Two worlds that agree everywhere. *)
Definition weq (w w' : world) : Prop := forall a, acct w a = acct w' a.

#[export] Instance weq_equiv : Equivalence weq.
Proof. unfold weq. split; [done|intros ? ? H a; by rewrite H|intros ? ? ? H1 H2 a; by rewrite H1]. Qed.

#[export] Instance TW_Proper {A : Type} : Proper (weq ==> (=) ==> (=) ==> (=) ==> weq ==> iff) (@TW A).
Proof.
  intros w1 w2 Hw E ? <- m ? <- x ? <- w3 w4 Hw'.
  split; apply T_ext; intros a; by rewrite ?Hw, ?Hw'.
Qed.

(** From the refinement to the state: no panic, the result, and the new world. *)
Lemma TW_run {A : Type} (m : M A) x w' s :
  sdb_wf s -> TW (world_of s) (mkExt [] [] []) m x w' ->
  exists s', m s = Some (x, s') /\ sdb_wf s' /\ weq (world_of s') w'.
Proof.
  intros Hwf Hm. destruct (Hm s) as (s' & Hr & Hs').
  { split; simpl; try done; try (by intros ? ?%elem_of_nil). apply view_acct. }
  exists s'. split_and!; [done|apply Hs'|]. intros a. rewrite <- view_acct. apply Hs'.
Qed.

(** ** Structure *)

Lemma TW_ret {A : Type} w E (x : A) : TW w E (mret x) x w.
Proof. apply T_ret. Qed.

Lemma TW_bind {A B : Type} w E (m : M A) (f : A -> M B) x y w1 w2 :
  TW w E m x w1 -> TW w1 E (f x) y w2 -> TW w E (m ≫= f) y w2.
Proof. apply T_bind. Qed.

Lemma TW_worm {A : Type} w E a (f : WormholesExtension -> M A) x w' :
  a ∈ e_acc E -> TW w E (f (vw_Worm (acct w a))) x w' -> TW w E (w ← worm a; f w) x w'.
Proof. apply T_worm_bind. Qed.
Lemma TW_stk {A : Type} w E a (f : AccountStaker -> M A) x w' :
  a ∈ e_stk E -> TW w E (f (vw_Staker (acct w a))) x w' -> TW w E (w ← stk a; f w) x w'.
Proof. apply T_stk_bind. Qed.
Lemma TW_csbt {A : Type} w E a (f : AccountCSBT -> M A) x w' :
  a ∈ e_csbt E -> TW w E (f (vw_Csbt (acct w a))) x w' -> TW w E (w ← csbt a; f w) x w'.
Proof. apply T_csbt_bind. Qed.

Lemma TW_newAccount {A : Type} w E a (k : M A) x w' :
  TW w (add_acc a E) k x w' -> TW w E (_ ← sdb_GetOrNewAccountStateObject a; k) x w'.
Proof. apply T_newAccount. Qed.
Lemma TW_newStaker {A : Type} w E a (k : M A) x w' :
  TW w (add_stk a E) k x w' -> TW w E (_ ← sdb_GetOrNewStakerStateObject a; k) x w'.
Proof. apply T_newStaker. Qed.
Lemma TW_newNFT {A : Type} w E a (k : M A) x w' :
  TW w (add_csbt a E) k x w' -> TW w E (_ ← sdb_GetOrNewNFTStateObject a; k) x w'.
Proof. apply T_newNFT. Qed.

(** ** Balances *)

Ltac world_eq :=
  let b := fresh "b" in
  intros b; unfold acct, addbal, updw, updk, updc, vset, add_bal, add_pledged, wset_nonce, wset_bal,
    wset_pledged, wset_since, wset_coef, wset_sext, wset_vext, wset_proxy, wset_csbt, wset_mint, wset_vals,
    wset_creators, fset; simpl; try case_decide; subst; simpl; try done.

Lemma TW_AddBalance w E a n : a ∈ e_acc E -> TW w E (so_AddBalance a n) tt (add_bal a n w).
Proof. intros Ha. eapply T_ext; [done| |by apply T_AddBalance]. world_eq. Qed.

Lemma TW_SubBalance w E a n : a ∈ e_acc E -> TW w E (so_SubBalance a n) tt (add_bal a (- n) w).
Proof. intros Ha. eapply T_ext; [done| |by apply T_SubBalance]. world_eq. Qed.

Lemma TW_SetNonce w E a n : a ∈ e_acc E -> TW w E (so_SetNonce a n) tt (wset_nonce a n w).
Proof. intros Ha. eapply T_ext; [done| |by apply T_SetNonce]. world_eq. Qed.

(** ** The account extension *)

Ltac worm_rule h :=
  eapply T_ext; [done| |eapply (T_worm_set _ _ _ h); [done|]]; [world_eq|];
  intros ?; rewrite !normal_iff; simpl; intuition eauto.

Lemma TW_SetStakerPledge w E a l : a ∈ e_acc E -> TW w E (so_SetStakerPledge a l) tt (wset_sext a l w).
Proof. intros Ha. worm_rule (set_w_StakerExtension l). Qed.

Lemma TW_SetValidatorExtension w E a l :
  a ∈ e_acc E -> TW w E (so_SetValidatorExtension a l) tt (wset_vext a l w).
Proof. intros Ha. worm_rule (set_w_ValidatorExtension l). Qed.

Lemma TW_SetCoefficient w E a c : a ∈ e_acc E -> TW w E (so_SetCoefficient a c) tt (wset_coef a c w).
Proof. intros Ha. worm_rule (set_w_Coefficient c). Qed.

Lemma TW_SetValidatorProxy w E a p : a ∈ e_acc E -> TW w E (so_SetValidatorProxy a p) tt (wset_proxy a p w).
Proof. intros Ha. worm_rule (set_w_ValidatorProxy p). Qed.

(** The two setters that first replace a nil number. *)
Lemma TW_SetPledgedBalance w E a n :
  a ∈ e_acc E -> TW w E (so_SetPledgedBalance a n) tt (wset_pledged a n w).
Proof.
  intros Ha. eapply T_ext; [done| |eapply (T_worm _ _ a _ (set_w_PledgedBalance (Some n))); [done|..]].
  - world_eq.
  - intros x. rewrite !normal_iff. simpl. intuition eauto.
  - intros s o x Ho Hx _. unfold so_SetPledgedBalance, so_setPledgedBalance, worm, mbind, M_bind.
    rewrite (upd_worm_run s a o x _ Ho Hx), (obj_run _ _ _ (set_obj_lookup a _ s)). simpl.
    erewrite upd_worm_run; [|apply set_obj_lookup|done].
    eexists. split; [done|]. unfold replaced. simpl. by rewrite insert_insert_eq.
Qed.

Lemma TW_SetPledgedBlockNumber w E a n :
  a ∈ e_acc E -> TW w E (so_SetPledgedBlockNumber a n) tt (wset_since a n w).
Proof.
  intros Ha. eapply T_ext; [done| |eapply (T_worm _ _ a _ (set_w_PledgedBlockNumber (Some n))); [done|..]].
  - world_eq.
  - intros x. rewrite !normal_iff. simpl. intuition eauto.
  - intros s o x Ho Hx _. unfold so_SetPledgedBlockNumber, so_setPledgedBlockNumber, worm, mbind, M_bind.
    rewrite (upd_worm_run s a o x _ Ho Hx), (obj_run _ _ _ (set_obj_lookup a _ s)). simpl.
    erewrite upd_worm_run; [|apply set_obj_lookup|done].
    eexists. split; [done|]. unfold replaced. simpl. by rewrite insert_insert_eq.
Qed.

Lemma TW_PledgedBalance w E a : a ∈ e_acc E -> TW w E (so_PledgedBalance a) (wd_pledged w a) w.
Proof. intros Ha. apply TW_worm; [done|]. apply TW_ret. Qed.
Lemma TW_Coefficient w E a : a ∈ e_acc E -> TW w E (so_Coefficient a) (wd_coef w a) w.
Proof. intros Ha. apply TW_worm; [done|]. apply TW_ret. Qed.
Lemma TW_GetValidatorProxy w E a : a ∈ e_acc E -> TW w E (so_GetValidatorProxy a) (wd_proxy w a) w.
Proof. intros Ha. apply TW_worm; [done|]. apply TW_ret. Qed.
Lemma TW_GetStakerExtension w E a : a ∈ e_acc E -> TW w E (so_GetStakerExtension a) (wd_sext w a) w.
Proof. intros Ha. apply TW_worm; [done|]. apply TW_ret. Qed.
Lemma TW_GetValidatorExtension w E a : a ∈ e_acc E -> TW w E (so_GetValidatorExtension a) (wd_vext w a) w.
Proof. intros Ha. apply TW_worm; [done|]. apply TW_ret. Qed.

Lemma TW_AddPledgedBalance w E a n :
  a ∈ e_acc E -> TW w E (so_AddPledgedBalance a n) tt (add_pledged a n w).
Proof.
  intros Ha. unfold so_AddPledgedBalance. destruct (n =? 0) eqn:Hn.
  - apply Z.eqb_eq in Hn as ->. eapply T_ext; [done| |apply T_ret]. world_eq. by rewrite Z.add_0_r.
  - eapply TW_bind; [by apply TW_PledgedBalance|by apply TW_SetPledgedBalance].
Qed.

Lemma TW_SubPledgedBalance w E a n :
  a ∈ e_acc E -> TW w E (so_SubPledgedBalance a n) tt (add_pledged a (- n) w).
Proof.
  intros Ha. unfold so_SubPledgedBalance. destruct (n =? 0) eqn:Hn.
  - apply Z.eqb_eq in Hn as ->. eapply T_ext; [done| |apply T_ret]. world_eq. by rewrite Z.add_0_r.
  - eapply TW_bind; [by apply TW_PledgedBalance|by apply TW_SetPledgedBalance].
Qed.

Lemma TW_StakerPledge w E a b n t :
  a ∈ e_acc E -> TW w E (so_StakerPledge a b n t) tt (wset_sext a (add_pledge b n t (wd_sext w a)).2 w).
Proof.
  intros Ha. unfold so_StakerPledge, sel_AddStakerPledge, sel_DeepCopy. apply TW_worm; [done|].
  rewrite pledge_copy_id. by apply TW_SetStakerPledge.
Qed.

Lemma TW_RemoveStakerPledge w E a b n :
  a ∈ e_acc E -> TW w E (so_RemoveStakerPledge a b n) tt (wset_sext a (remove_pledge b n (wd_sext w a)).2 w).
Proof.
  intros Ha. unfold so_RemoveStakerPledge, sel_RemoveStakerPledge, sel_DeepCopy. apply TW_worm; [done|].
  rewrite pledge_copy_id. by apply TW_SetStakerPledge.
Qed.

Lemma TW_AddValidatorExtension w E a b n t :
  a ∈ e_acc E -> TW w E (so_AddValidatorExtension a b n t) tt (wset_vext a (add_pledge b n t (wd_vext w a)).2 w).
Proof.
  intros Ha. unfold so_AddValidatorExtension, vel_AddValidatorPledge, vel_DeepCopy. apply TW_worm; [done|].
  rewrite pledge_copy_id. by apply TW_SetValidatorExtension.
Qed.

Lemma TW_RemoveValidatorExtension w E a b n :
  a ∈ e_acc E -> TW w E (so_RemoveValidatorExtension a b n) tt (wset_vext a (remove_pledge b n (wd_vext w a)).2 w).
Proof.
  intros Ha. unfold so_RemoveValidatorExtension, vel_RemoveValidatorPledge, vel_DeepCopy.
  apply TW_worm; [done|]. rewrite pledge_copy_id. by apply TW_SetValidatorExtension.
Qed.

(** ** The storage extension *)

Lemma TW_SetValidators w E a l : a ∈ e_stk E -> TW w E (so_SetValidators a l) tt (wset_vals a l w).
Proof.
  intros Ha. eapply T_ext; [done| |eapply (T_stk _ _ a _ (fun k => mkAccountStaker (as_Mint k) l (as_CSBTCreators k))); [done|]].
  - world_eq.
  - intros s o Ho Hk. unfold so_SetValidators, so_setValidators, stk, mbind, M_bind.
    rewrite (obj_run _ _ _ Ho), Hk. simpl. rewrite upd_stk_edit. unfold edit, ed_stk. simpl. rewrite Ho, Hk.
    eexists. split; [done|apply replaced_add_entry].
Qed.

(** An operation on the validator list, as the five methods apply it: on a copy that
    is kept if the operation reports success. *)
Definition apply_list (f : ValidatorList -> bool * ValidatorList) (l : ValidatorList) : ValidatorList :=
  match f (vl_DeepCopy l) with (true, l') => l' | (false, _) => l end.

Lemma TW_update_validators w E a f :
  a ∈ e_stk E ->
  TW w E (update_validators a f) (f (vl_DeepCopy (wd_vals w a))).1
    (wset_vals a (apply_list f (wd_vals w a)) w).
Proof.
  intros Ha. unfold update_validators, apply_list. apply TW_stk; [done|]. simpl.
  destruct (f (vl_DeepCopy (wd_vals w a))) as [[|] l] eqn:He; simpl.
  - eapply TW_bind; [by apply TW_SetValidators|apply TW_ret].
  - eapply T_ext; [done| |apply T_ret]. world_eq.
Qed.

(** The nil pointer is excluded by the presence of the extension. *)
Lemma TW_GetValidators w E a : a ∈ e_stk E -> TW w E (so_GetValidators a) (Some (wd_vals w a)) w.
Proof.
  intros Ha s Hs. destruct (shows_stk _ _ _ _ Hs Ha) as (o & Ho & _ & _ & _ & Hk). exists s.
  unfold so_GetValidators. run_obj. by rewrite Ho, Hk.
Qed.

Lemma TW_OfficialMint w E a : a ∈ e_stk E -> TW w E (so_OfficialMint a) (md_OfficialMint (wd_mint w a)) w.
Proof.
  intros Ha s Hs. destruct (shows_stk _ _ _ _ Hs Ha) as (o & Ho & _ & _ & _ & Hk). exists s.
  unfold so_OfficialMint. run_obj. by rewrite Ho, Hk.
Qed.

Lemma TW_SetOfficialMint w E a n p :
  a ∈ e_stk E -> md_OfficialMint (wd_mint w a) = Some p ->
  TW w E (so_SetOfficialMint a n) tt (wset_mint a (mkMintDeep (md_UserMint (wd_mint w a)) (Some n)) w).
Proof.
  intros Ha Hp. eapply T_ext; [done| |eapply (T_stk _ _ a _ (fun k =>
    mkAccountStaker (mkMintDeep (md_UserMint (as_Mint k)) (Some n)) (as_Validators k) (as_CSBTCreators k))); [done|]].
  - world_eq.
  - intros s o Ho Hk. unfold so_SetOfficialMint, so_setOfficialMint, stk, mbind, M_bind.
    rewrite (obj_run _ _ _ Ho), Hk. simpl. rewrite Hp. simpl.
    rewrite upd_stk_edit. unfold edit, ed_stk. simpl. rewrite Ho, Hk.
    eexists. split; [done|apply replaced_add_entry].
Qed.

Lemma TW_AddOfficialMint w E a n p :
  a ∈ e_stk E -> md_OfficialMint (wd_mint w a) = Some p -> n <> 0 ->
  TW w E (so_AddOfficialMint a n) tt (wset_mint a (mkMintDeep (md_UserMint (wd_mint w a)) (Some (p + n))) w).
Proof.
  intros Ha Hp Hn. unfold so_AddOfficialMint. rewrite (proj2 (Z.eqb_neq n 0) Hn).
  eapply TW_bind; [by apply TW_OfficialMint|]. rewrite Hp.
  eapply TW_bind; [apply TW_ret|]. by eapply TW_SetOfficialMint.
Qed.

(** ** CSBT data *)

Lemma TW_csbt_set w E a h (e : AccountCSBT -> journalEntry) :
  a ∈ e_csbt E ->
  TW w E (c ← csbt a; _ ← journal_append (e c); upd_csbt a h) tt (wset_csbt a (h (wd_csbt w a)) w).
Proof.
  intros Ha. eapply T_ext; [done| |eapply (T_csbt _ _ a _ h); [done|]].
  - world_eq.
  - intros s o Ho Hc. unfold csbt, mbind, M_bind.
    rewrite (obj_run _ _ _ Ho), Hc. simpl. rewrite upd_csbt_edit. unfold edit, ed_csbt. simpl. rewrite Ho, Hc.
    eexists. split; [done|apply replaced_add_entry].
Qed.

Lemma TW_SetNFTInfo w E a o c :
  a ∈ e_csbt E -> TW w E (so_SetNFTInfo a o c) tt (wset_csbt a (mkAccountCSBT o c) w).
Proof. intros Ha. by eapply (TW_csbt_set w E a (fun _ => mkAccountCSBT o c)). Qed.

Lemma TW_ChangeNFTOwner w E a o :
  a ∈ e_csbt E ->
  TW w E (so_ChangeNFTOwner a o) tt (wset_csbt a (mkAccountCSBT o (csbt_Creator (wd_csbt w a))) w).
Proof.
  intros Ha. unfold so_ChangeNFTOwner. apply TW_csbt; [done|]. simpl. destruct (_ =? o) eqn:Ho.
  - apply Z.eqb_eq in Ho as <-. eapply T_ext; [done| |apply T_ret]. world_eq. by destruct (wd_csbt w a).
  - by eapply (TW_csbt_set w E a (fun c => mkAccountCSBT o (csbt_Creator c))).
Qed.

Lemma TW_NFTOwner w E a : a ∈ e_csbt E -> TW w E (so_NFTOwner a) (csbt_Owner (wd_csbt w a)) w.
Proof. intros Ha. apply TW_csbt; [done|]. apply TW_ret. Qed.
End World.

(** The rules, for [eauto] and for the tactic that chains them. *)
#[export] Hint Resolve TW_ret TW_AddBalance TW_SubBalance TW_SetNonce TW_SetStakerPledge
  TW_SetValidatorExtension TW_SetCoefficient TW_SetValidatorProxy TW_SetPledgedBalance
  TW_SetPledgedBlockNumber TW_PledgedBalance TW_Coefficient TW_GetValidatorProxy
  TW_GetStakerExtension TW_GetValidatorExtension TW_AddPledgedBalance TW_SubPledgedBalance
  TW_StakerPledge TW_RemoveStakerPledge TW_AddValidatorExtension TW_RemoveValidatorExtension
  TW_SetValidators TW_update_validators TW_GetValidators TW_OfficialMint TW_SetNFTInfo
  TW_ChangeNFTOwner TW_NFTOwner : erbie.

(** Membership in the lists of present extensions. *)
Ltac ext_in := simpl; rewrite ?elem_of_cons; tauto.

#[export] Hint Extern 1 (_ ∈ e_acc _) => ext_in : erbie.
#[export] Hint Extern 1 (_ ∈ e_stk _) => ext_in : erbie.
#[export] Hint Extern 1 (_ ∈ e_csbt _) => ext_in : erbie.

(** One rule of a sequence: open the next object, or run the next method. *)
Ltac tw_step :=
  first [ apply TW_newAccount | apply TW_newStaker | apply TW_newNFT
        | eapply TW_bind; [solve [eauto with erbie]|cbv beta] ].
