(* ===== verification/Ledger.v ===== *)
(** The staking ledger.

    Every pledge is recorded twice, in the [StakerExtension] of the account that
    pledges and in the [ValidatorExtension] of the account it pledges to, whose
    [PledgedBalance] is their sum; the validator list repeats that sum for every
    account over [ValidatorBase].  This file refines the staking methods of
    [*StateDB] to steps on [world] and shows that they keep the three records
    consistent ([ledger]) and neither create nor destroy currency ([supply]). *)
From S2P Require Import Prelude KeyedList Common Params Wormholes Rewards Validators Stakers AccessList StateTypes State StateDB StateRevert Staking StateView World.

Open Scope Z_scope.

(** ** Pledge lists as balances *)

Lemma pledge_balance_add c a b n l :
  NoDup (keys pl_Addr l) ->
  pledge_balance c (add_pledge a b n l).2 = if decide (c = a) then pledge_balance a l + b else pledge_balance c l.
Proof.
  intros Hnd. destruct (add_pledge_spec a b n l Hnd) as (_ & _ & Hm).
  rewrite pledge_balance_map, Hm. case_decide as Hc.
  - subst. by rewrite lookup_insert_eq.
  - rewrite lookup_insert_ne by done. by rewrite <- pledge_balance_map.
Qed.

Lemma pledge_balance_missing a l : a ∉ keys pl_Addr l -> pledge_balance a l = 0.
Proof. intros H. unfold pledge_balance. by rewrite (proj2 (kfind_None pl_Addr a l) H). Qed.

(** Removing at most the recorded pledge. *)
Lemma remove_pledge_exact a b l :
  NoDup (keys pl_Addr l) -> Forall (fun p => 0 < pl_Balance p) l -> 0 <= b <= pledge_balance a l ->
  let l' := (remove_pledge a b l).2 in
  NoDup (keys pl_Addr l') /\ Forall (fun p => 0 < pl_Balance p) l' /\
  pledge_total l' = pledge_total l - b /\
  forall c, pledge_balance c l' = if decide (c = a) then pledge_balance a l - b else pledge_balance c l.
Proof.
  intros Hnd Hpos Hb l'. destruct (remove_pledge_spec a b l Hnd) as (Hnd' & Ht & Hm). fold l' in Hnd', Ht, Hm.
  split_and!; [done| | |].
  - unfold l', remove_pledge. destruct (kfind pl_Addr a l) as [[i v]|] eqn:Hf; [|done].
    apply kfind_Some in Hf as (Hi & _ & _). destruct (b <? pl_Balance v) eqn:Hlt; simpl.
    + apply Forall_insert; [done|]. simpl. lia.
    + by apply Forall_delete.
  - rewrite Ht. case_bool_decide as Hin; [lia|]. rewrite pledge_balance_missing in Hb by done. lia.
  - intros c. rewrite pledge_balance_map, Hm. destruct (decide (c = a)) as [->|Hc].
    + rewrite pledge_balance_map in Hb |- *. rewrite lookup_partial_alter_eq.
      destruct (kmap pl_Addr l !! a) as [v|]; simpl in *; [|lia]. destruct (b <? pl_Balance v) eqn:?; simpl; lia.
    + rewrite lookup_partial_alter_ne by done. by rewrite pledge_balance_map.
Qed.

(** Removing the whole pledge of an address, or more. *)
Lemma remove_pledge_all a b l c :
  NoDup (keys pl_Addr l) -> pledge_balance a l <= b ->
  NoDup (keys pl_Addr (remove_pledge a b l).2) /\
  pledge_balance c (remove_pledge a b l).2 = if decide (c = a) then 0 else pledge_balance c l.
Proof.
  intros Hnd Hb. destruct (remove_pledge_spec a b l Hnd) as (Hnd' & _ & Hm). split; [done|].
  rewrite pledge_balance_map, Hm. destruct (decide (c = a)) as [->|Hc].
  - rewrite pledge_balance_map in Hb. rewrite lookup_partial_alter_eq.
    destruct (kmap pl_Addr l !! a) as [v|]; simpl in *; [|done]. destruct (b <? pl_Balance v) eqn:?; simpl; lia.
  - rewrite lookup_partial_alter_ne by done. by rewrite pledge_balance_map.
Qed.

(** ** The validator list as stakes *)

Definition stakes (l : ValidatorList) : gmap Address Z := v_Balance <$> kmap v_Addr l.

Lemma DeepCopy_wf l : vl_wf l -> vl_wf (vl_DeepCopy l).
Proof.
  intros [Hnd Hs]. split; [by rewrite DeepCopy_keys|]. clear Hnd.
  induction Hs as [|v l Hs IH Hv]; simpl; constructor; [done|].
  apply Forall_fmap. eapply Forall_impl; [exact Hv|]. done.
Qed.

Lemma DeepCopy_stakes l : stakes (vl_DeepCopy l) = stakes l.
Proof.
  unfold stakes. apply map_eq. intros a. rewrite !lookup_fmap, !kmap_find. unfold kfind.
  induction l as [|v l IH]; [done|]. simpl. destruct (decide (v_Addr v = a)); [done|].
  destruct (list_find _ l) as [[]|], (list_find _ (vl_DeepCopy l)) as [[]|]; simpl in *; congruence.
Qed.

(** The methods that keep the result of an operation act on stakes as its map. *)
Lemma apply_list_stakes op f l :
  vl_wf l -> (forall l, (f l).2 = vl_run op l) -> (forall l, (f l).1 = false -> (f l).2 = l) ->
  vl_wf (apply_list f l) /\
  stakes (apply_list f l) = v_Balance <$> registry_run op (kmap v_Addr (vl_DeepCopy l)).
Proof.
  intros Hwf Hop Hfalse. destruct (vl_run_refines op _ (DeepCopy_wf l Hwf)) as [Hw <-].
  unfold apply_list. pose proof (Hop (vl_DeepCopy l)) as Ho. pose proof (Hfalse (vl_DeepCopy l)) as Hf.
  destruct (f (vl_DeepCopy l)) as [[|] l']; simpl in *; [by subst|].
  split; [done|]. rewrite <- Ho, (Hf eq_refl). symmetry. apply DeepCopy_stakes.
Qed.

Lemma stakes_remove a n l :
  vl_wf l ->
  vl_wf (apply_list (vl_RemoveValidator a n) l) /\
  stakes (apply_list (vl_RemoveValidator a n) l) =
    partial_alter (fun o => b ← o; if b - n <? ValidatorBase then None else Some (b - n)) a (stakes l).
Proof.
  intros Hwf. destruct (apply_list_stakes (OpRemove a n) (vl_RemoveValidator a n) l Hwf) as [Hw ->]; [done| |].
  { intros l'. unfold vl_RemoveValidator. destruct (kfind _ _ _) as [[]|]; [by case_match|done]. }
  split; [done|]. rewrite <- (DeepCopy_stakes l). unfold registry_run, stakes. simpl.
  apply map_eq. intros c. rewrite !lookup_fmap. destruct (decide (a = c)) as [<-|Hne].
  - rewrite !lookup_partial_alter_eq, lookup_fmap. destruct (_ !! a) as [v|]; simpl; [|done]. by case_match.
  - by rewrite !lookup_partial_alter_ne, lookup_fmap.
Qed.

Lemma stakes_reset a l :
  vl_wf l ->
  vl_wf (apply_list (vl_ResetRemoveValidator a) l) /\
  stakes (apply_list (vl_ResetRemoveValidator a) l) = delete a (stakes l).
Proof.
  intros Hwf. destruct (apply_list_stakes (OpReset a) (vl_ResetRemoveValidator a) l Hwf) as [Hw ->]; [done| |].
  { intros l'. unfold vl_ResetRemoveValidator. by destruct (kfind _ _ _) as [[]|]. }
  split; [done|]. rewrite <- (DeepCopy_stakes l). unfold registry_run, stakes. simpl.
  by rewrite <- fmap_delete.
Qed.

Lemma stakes_set a n p l :
  vl_wf l ->
  vl_wf (apply_list (vl_SetValidatorAmount a n p) l) /\
  stakes (apply_list (vl_SetValidatorAmount a n p) l) = <[a := n]> (stakes l).
Proof.
  intros Hwf. destruct (apply_list_stakes (OpSet a n p) (vl_SetValidatorAmount a n p) l Hwf) as [Hw ->]; [done| |].
  { intros l'. unfold vl_SetValidatorAmount. by destruct (kfind _ _ _) as [[]|]. }
  split; [done|]. rewrite <- (DeepCopy_stakes l). unfold registry_run, stakes. simpl.
  apply map_eq. intros c. rewrite lookup_fmap. destruct (decide (a = c)) as [<-|Hne].
  - rewrite lookup_partial_alter_eq, lookup_insert_eq. destruct (_ !! a); simpl; [|done].
    by rewrite set_proxy_balance.
  - by rewrite lookup_partial_alter_ne, lookup_insert_ne, lookup_fmap.
Qed.

(** ** The invariant *)

Definition pos_pledges (l : list Pledge) : Prop := Forall (fun p => 0 < pl_Balance p) l.

(** The two sides of every pledge agree, and the pledged balance is the sum of what
    was pledged to the account. *)
Record pledges (w : world) : Prop := {
  pg_sext : forall a, NoDup (keys pl_Addr (wd_sext w a)) /\ pos_pledges (wd_sext w a);
  pg_vext : forall a, NoDup (keys pl_Addr (wd_vext w a)) /\ pos_pledges (wd_vext w a);
  pg_sides : forall a b, pledge_balance b (wd_sext w a) = pledge_balance a (wd_vext w b);
  pg_total : forall a, wd_pledged w a = pledge_total (wd_vext w a);
}.

Notation validators w := (wd_vals w ValidatorStorageAddress).

(** The list is sorted, and an address on it other than [x] has its pledged balance
    as stake, at least [ValidatorBase]. *)
Definition listed_but (x : option Address) (w : world) : Prop :=
  vl_wf (validators w) /\
  forall a b, stakes (validators w) !! a = Some b -> x <> Some a -> b = wd_pledged w a /\ ValidatorBase <= b.

Definition listed : world -> Prop := listed_but None.

Definition ledger (w : world) : Prop := pledges w /\ listed w.

(** All the currency of a set of accounts, free or pledged to them. *)
Definition wealth (w : world) (a : Address) : Z := wd_bal w a + wd_pledged w a.
Definition supply (l : list Address) (w : world) : Z := sumZ (wealth w) l.

(** ** Sums *)

Lemma sumZ_fset (f : Address -> Z) a x l :
  NoDup l -> a ∈ l -> sumZ (fset a x f) l = sumZ f l - f a + x.
Proof.
  induction 1 as [|b l Hb Hnd IH]; [by intros ?%elem_of_nil|]. intros [->|Ha]%elem_of_cons; simpl.
  - rewrite fset_eq, (sumZ_ext (fset b x f) f); [lia|]. intros c Hc. apply fset_ne. congruence.
  - rewrite IH, fset_ne by (done || congruence). lia.
Qed.

Lemma supply_split l w : supply l w = sumZ (wd_bal w) l + sumZ (wd_pledged w) l.
Proof. unfold supply, wealth. induction l; simpl; lia. Qed.

Lemma supply_add_bal l a n w : NoDup l -> a ∈ l -> supply l (add_bal a n w) = supply l w + n.
Proof. intros Hnd Ha. rewrite !supply_split. simpl. rewrite sumZ_fset by done. lia. Qed.

Lemma supply_add_pledged l a n w : NoDup l -> a ∈ l -> supply l (add_pledged a n w) = supply l w + n.
Proof. intros Hnd Ha. rewrite !supply_split. simpl. rewrite sumZ_fset by done. lia. Qed.

(** The other quantities carry no currency. *)
Lemma supply_eq l w w' :
  (forall a, wd_bal w' a = wd_bal w a) -> (forall a, wd_pledged w' a = wd_pledged w a) ->
  supply l w' = supply l w.
Proof. intros H1 H2. apply sumZ_ext. intros a _. unfold wealth. by rewrite H1, H2. Qed.

(** ** Keeping the invariant *)

(** A new or larger pledge of [n] by [from] to [to]. *)
Lemma pledges_pledge w w' from to n t :
  pledges w -> 0 <= n -> 0 < n + pledge_balance to (wd_sext w from) ->
  (forall a, wd_sext w' a = fset from (add_pledge to n t (wd_sext w from)).2 (wd_sext w) a) ->
  (forall a, wd_vext w' a = fset to (add_pledge from n t (wd_vext w to)).2 (wd_vext w) a) ->
  (forall a, wd_pledged w' a = fset to (wd_pledged w to + n) (wd_pledged w) a) ->
  pledges w'.
Proof.
  intros [Hs Hv Hsd Ht] Hn Hpos Hs' Hv' Hp'.
  assert (Hadd : forall a l, NoDup (keys pl_Addr l) /\ pos_pledges l -> 0 < n + pledge_balance a l ->
    NoDup (keys pl_Addr (add_pledge a n t l).2) /\ pos_pledges (add_pledge a n t l).2).
  { intros a l [Hnd Hl] Ha. split; [by apply add_pledge_spec|]. unfold add_pledge, pledge_balance in *.
    destruct (kfind pl_Addr a l) as [[i v]|] eqn:Hf; simpl.
    - apply Forall_insert; [done|]. simpl. lia.
    - apply Forall_app. split; [done|]. repeat constructor. simpl. lia. }
  split.
  - intros a. rewrite Hs'. unfold fset. case_decide; [by apply Hadd|apply Hs].
  - intros a. rewrite Hv'. unfold fset. case_decide; [|apply Hv]. apply Hadd; [apply Hv|]. by rewrite <- Hsd.
  - intros a b. rewrite Hs', Hv'. unfold fset.
    pose proof (pledge_balance_add b to n t _ (proj1 (Hs from))) as H1.
    pose proof (pledge_balance_add a from n t _ (proj1 (Hv to))) as H2.
    repeat case_decide; subst; rewrite ?H1, ?H2; repeat case_decide; subst; try done; rewrite ?Hsd; done.
  - intros a. rewrite Hp', Hv'. unfold fset. case_decide; [|apply Ht].
    rewrite (proj1 (proj2 (add_pledge_spec from n t _ (proj1 (Hv to))))). subst. by rewrite Ht.
Qed.

(** A pledge of [from] to [to] reduced by [n]. *)
Lemma pledges_cancel w w' from to n :
  pledges w -> 0 <= n <= pledge_balance to (wd_sext w from) ->
  (forall a, wd_sext w' a = fset from (remove_pledge to n (wd_sext w from)).2 (wd_sext w) a) ->
  (forall a, wd_vext w' a = fset to (remove_pledge from n (wd_vext w to)).2 (wd_vext w) a) ->
  (forall a, wd_pledged w' a = fset to (wd_pledged w to - n) (wd_pledged w) a) ->
  pledges w'.
Proof.
  intros [Hs Hv Hsd Ht] Hn Hs' Hv' Hp'.
  destruct (Hs from) as [Hs1 Hs2], (Hv to) as [Hv1 Hv2].
  destruct (remove_pledge_exact to n _ Hs1 Hs2 Hn) as (Hsn & Hsp & _ & Hsb).
  rewrite Hsd in Hn. destruct (remove_pledge_exact from n _ Hv1 Hv2 Hn) as (Hvn & Hvp & Hvt & Hvb).
  split.
  - intros a. rewrite Hs'. unfold fset. by case_decide.
  - intros a. rewrite Hv'. unfold fset. by case_decide.
  - intros a b. rewrite Hs', Hv'. unfold fset.
    repeat case_decide; subst; rewrite ?Hsb, ?Hvb; repeat case_decide; subst; try done; rewrite ?Hsd; done.
  - intros a. rewrite Hp', Hv'. unfold fset. case_decide; [|apply Ht]. rewrite Hvt. subst. by rewrite Ht.
Qed.

Lemma pledges_eq w w' :
  pledges w -> (forall a, wd_sext w' a = wd_sext w a) -> (forall a, wd_vext w' a = wd_vext w a) ->
  (forall a, wd_pledged w' a = wd_pledged w a) -> pledges w'.
Proof.
  intros [] Hs Hv Hp. split; intros; rewrite ?Hs, ?Hv, ?Hp; auto.
Qed.

Lemma listed_eq x w w' :
  listed_but x w -> validators w' = validators w -> (forall a, wd_pledged w' a = wd_pledged w a) ->
  listed_but x w'.
Proof. intros [Hw Hl] Hv Hp. unfold listed_but. rewrite Hv. split; [done|]. intros. rewrite Hp. auto. Qed.

(** The pledged balance and the stake shrink together. *)
Lemma listed_remove w w' a n :
  listed w -> validators w' = apply_list (vl_RemoveValidator a n) (validators w) ->
  (forall b, wd_pledged w' b = fset a (wd_pledged w a - n) (wd_pledged w) b) -> listed w'.
Proof.
  intros [Hw Hl] Hv Hp. unfold listed, listed_but. rewrite Hv.
  destruct (stakes_remove a n _ Hw) as [Hw' ->]. split; [done|]. intros c b Hc _. rewrite Hp.
  destruct (decide (a = c)) as [<-|Hne].
  - rewrite lookup_partial_alter_eq in Hc. rewrite fset_eq.
    destruct (stakes (validators w) !! a) as [b0|] eqn:Hb0; simpl in Hc; [|done].
    destruct (Hl a b0 Hb0) as [-> _]; [done|]. destruct (_ <? _) eqn:Hlt in Hc; simplify_eq. lia.
  - rewrite lookup_partial_alter_ne in Hc by done. rewrite fset_ne by done. by apply Hl.
Qed.

(** * The staking methods on the world *)

Definition wStakerPledge (from to : Address) (n t : Z) (proxy : Address) (w : world) : world :=
  let w := add_bal from (- n) w in
  let w := wset_sext from (add_pledge to n t (wd_sext w from)).2 w in
  let w := add_pledged to n w in
  let w := if from =? to then wset_proxy to proxy w else w in
  let w := wset_vext to (add_pledge from n t (wd_vext w to)).2 w in
  wset_since from t w.

Definition set_validators (f : ValidatorList -> bool * ValidatorList) (w : world) : world :=
  wset_vals ValidatorStorageAddress (apply_list f (validators w)) w.

Definition wResetMinerBecome (a : Address) (w : world) : goerror * world :=
  let w := set_validators (vl_ResetRemoveValidator a) w in
  if wd_pledged w a <? ValidatorBase then (None, w)
  else if negb (wd_proxy w a =? 0) && vl_Exist (wd_proxy w a) (validators w)
  then (Some "cannot have the same proxy", w)
  else
    let w := if wd_coef w a =? 0 then wset_coef a VALIDATOR_COEFFICIENT w else w in
    (None, set_validators (vl_SetValidatorAmount a (wd_pledged w a) (wd_proxy w a)) w).

Definition wCancelEntries (from to : Address) (n : Z) (w : world) : world :=
  let w := wset_sext from (remove_pledge to n (wd_sext w from)).2 w in
  let w := wset_vext to (remove_pledge from n (wd_vext w to)).2 w in
  let w := add_pledged to (- n) w in
  set_validators (vl_RemoveValidator to n) w.

Definition wRevocateOne (to : Address) (w : world) (p : ValidatorExtension) : world :=
  let w := wset_sext (pl_Addr p) (remove_pledge to (pl_Balance p) (wd_sext w (pl_Addr p))).2 w in
  let w := add_bal (pl_Addr p) (pl_Balance p) w in
  let w := add_pledged to (- pl_Balance p) w in
  set_validators (vl_RemoveValidator to (pl_Balance p)) w.

Definition wRevocateAll (to : Address) (w : world) : world :=
  wset_vext to [] (foldl (wRevocateOne to) w (wd_vext w to)).

(** The points an account has lost, and their price. *)
Definition lost_points (w : world) (a : Address) : Z :=
  if wd_coef w a =? 0 then 0 else VALIDATOR_COEFFICIENT - wd_coef w a.

Definition wNewCancel (from to : Address) (n : Z) (w : world) : goerror * world :=
  if from =? to then
    let fine := lost_points w to * coebaseErb in
    if (0 <? lost_points w to) && (n <? fine)
    then (Some "cancel pledge for insufficient punish amount", w)
    else
      let w := if 0 <? lost_points w to
               then wset_coef from VALIDATOR_COEFFICIENT (add_bal 0 fine (add_bal from (n - fine) w))
               else add_bal from n w in
      let all := pledge_balance from (wd_sext w from) =? n in
      let w := wCancelEntries from to n w in
      (None, if all then wRevocateAll to w else w)
  else (None, wCancelEntries from to n (add_bal from n w)).

Section Ledger.
  Context {CR : Crypto}.

(** ** The methods refine the steps *)

Lemma TW_mapM {A : Type} w E (f : A -> M unit) g l :
  (forall w x, x ∈ l -> TW w E (f x) tt (g w x)) -> TW w E (mapM_ f l) tt (foldl g w l).
Proof.
  revert w. induction l as [|x l IH]; intros w Hf; simpl; [apply TW_ret|].
  eapply TW_bind; [apply Hf; by left|]. apply IH. intros. apply Hf. by right.
Qed.

Lemma StakerPledge_refines w E from to n t wh :
  TW w E (sdb_StakerPledge from to n t wh) None
    (wStakerPledge from to n t (match wh_ProxyAddress wh with [] => 0 | s => HexToAddress s end) w).
Proof.
  unfold sdb_StakerPledge, wStakerPledge. do 5 tw_step.
  destruct (from =? to); repeat tw_step; apply TW_ret.
Qed.

Lemma TW_GetValidatorCoefficient w E a : TW w E (sdb_GetValidatorCoefficient a) (wd_coef w a) w.
Proof. apply TW_newAccount. eauto with erbie. Qed.

Lemma TW_AddValidatorCoefficient w E a c :
  TW w E (sdb_AddValidatorCoefficient a c) tt (wset_coef a VALIDATOR_COEFFICIENT w).
Proof. apply TW_newAccount. apply TW_SetCoefficient. ext_in. Qed.

Lemma TW_validator_list w E :
  ValidatorStorageAddress ∈ e_stk E -> TW w E validator_list (validators w) w.
Proof. intros Hv. eapply TW_bind; [by apply TW_GetValidators|]. apply TW_ret. Qed.

Lemma TW_set_validators w E f :
  ValidatorStorageAddress ∈ e_stk E ->
  exists b, TW w E (update_validators ValidatorStorageAddress f) b (set_validators f w).
Proof. eexists. by apply TW_update_validators. Qed.

Lemma ResetMinerBecome_refines w E a :
  TW w E (sdb_ResetMinerBecome a) (wResetMinerBecome a w).1 (wResetMinerBecome a w).2.
Proof.
  unfold sdb_ResetMinerBecome, wResetMinerBecome, so_ResetemoveValidator, so_SetValidatorAmount.
  do 2 tw_step. tw_step. fold (set_validators (vl_ResetRemoveValidator a) w). tw_step.
  set (w1 := set_validators (vl_ResetRemoveValidator a) w).
  destruct (wd_pledged w1 a <? ValidatorBase); [apply TW_ret|].
  tw_step. eapply TW_bind; [apply TW_validator_list; ext_in|]. cbv beta.
  destruct (negb (wd_proxy w1 a =? 0) && vl_Exist (wd_proxy w1 a) (validators w1)); [apply TW_ret|].
  eapply TW_bind; [apply TW_GetValidatorCoefficient|]. cbv beta.
  destruct (wd_coef w1 a =? 0); simpl.
  - eapply TW_bind; [apply TW_AddValidatorCoefficient|]. tw_step. apply TW_ret.
  - tw_step. tw_step. apply TW_ret.
Qed.

Lemma cancel_entries_refines w E from to n :
  from ∈ e_acc E -> to ∈ e_acc E -> ValidatorStorageAddress ∈ e_stk E ->
  TW w E (cancel_entries from to n) tt (wCancelEntries from to n w).
Proof. intros. unfold cancel_entries, wCancelEntries, so_RemoveValidator. repeat tw_step. apply TW_ret. Qed.

Lemma RevocateAllStakers_refines w E a t : TW w E (sdb_RevocateAllStakers a t) tt (wRevocateAll a w).
Proof.
  unfold sdb_RevocateAllStakers, wRevocateAll. do 3 tw_step.
  eapply TW_bind; [apply (TW_mapM _ _ _ (wRevocateOne a))|apply TW_SetValidatorExtension; ext_in].
  intros w1 p _. unfold revocate_one, wRevocateOne, so_RemoveValidator. repeat tw_step. apply TW_ret.
Qed.

Lemma NewCancelStakerPledge_refines w E from to n t :
  TW w E (sdb_NewCancelStakerPledge from to n t) (wNewCancel from to n w).1 (wNewCancel from to n w).2.
Proof.
  unfold sdb_NewCancelStakerPledge, wNewCancel. do 3 tw_step.
  destruct (from =? to) eqn:Heq.
  - tw_step. fold (lost_points w to). set (fine := lost_points w to * coebaseErb).
    destruct ((0 <? lost_points w to) && (n <? fine)); [apply TW_ret|]. simpl.
    set (w1 := if 0 <? lost_points w to then wset_coef _ _ _ else _).
    eapply (TW_bind _ _ _ _ tt _ w1); [unfold w1; destruct (0 <? lost_points w to)|].
    + repeat tw_step. apply TW_SetCoefficient. ext_in.
    + apply TW_AddBalance. ext_in.
    + tw_step. eapply TW_bind; [apply cancel_entries_refines; ext_in|]. unfold sel_GetBalance.
      destruct (pledge_balance from (wd_sext w1 from) =? n).
      * eapply TW_bind; [apply RevocateAllStakers_refines|]. apply TW_ret.
      * tw_step. apply TW_ret.
  - tw_step. eapply TW_bind; [apply cancel_entries_refines; ext_in|]. apply TW_ret.
Qed.
End Ledger.

(** ** The steps keep the invariant and the supply *)

Lemma StakerPledge_ledger w from to n t p :
  ledger w -> 0 <= n -> 0 < n + pledge_balance to (wd_sext w from) ->
  pledges (wStakerPledge from to n t p w) /\ listed_but (Some to) (wStakerPledge from to n t p w).
Proof.
  intros [Hp [Hw Hl]] Hn Hpos. unfold wStakerPledge. split.
  - eapply (pledges_pledge w _ from to n t); [done..| | |]; intros a; by destruct (from =? to).
  - assert (Hv : forall w', validators w' = validators w ->
      (forall a, wd_pledged w' a = fset to (wd_pledged w to + n) (wd_pledged w) a) -> listed_but (Some to) w').
    { intros w' Hv' Hp'. unfold listed_but. rewrite Hv'. split; [done|]. intros a b Hb Ha.
      rewrite Hp', fset_ne by congruence. by apply Hl. }
    apply Hv; intros; by destruct (from =? to).
Qed.

Lemma StakerPledge_supply l w from to n t p :
  NoDup l -> from ∈ l -> to ∈ l -> supply l (wStakerPledge from to n t p w) = supply l w.
Proof.
  intros Hnd Hf Ht. transitivity (supply l (add_pledged to n (add_bal from (- n) w))).
  - apply supply_eq; intros a; unfold wStakerPledge; by destruct (from =? to).
  - rewrite supply_add_pledged, supply_add_bal by done. lia.
Qed.

(** [ResetMinerBecome] lists its account with its pledged balance, or takes it off
    the list, also when it reports an error. *)
Lemma ResetMinerBecome_ledger w a :
  pledges w -> listed_but (Some a) w -> ledger (wResetMinerBecome a w).2.
Proof.
  intros Hp [Hw Hl]. destruct (stakes_reset a _ Hw) as [Hw1 Hs1].
  assert (H1 : ledger (set_validators (vl_ResetRemoveValidator a) w)).
  { split; [by eapply pledges_eq|]. unfold listed, listed_but. simpl. rewrite fset_eq, Hs1. split; [done|].
    intros c b [Hne Hc]%lookup_delete_Some _. apply Hl; congruence. }
  unfold wResetMinerBecome. set (w1 := set_validators (vl_ResetRemoveValidator a) w) in *. clearbody w1.
  destruct (Z.ltb_spec (wd_pledged w1 a) ValidatorBase) as [|Hbase]; [done|].
  destruct (negb _ && _); [done|]. simpl.
  set (w2 := if wd_coef w1 a =? 0 then wset_coef a VALIDATOR_COEFFICIENT w1 else w1).
  assert (H2 : validators w2 = validators w1 /\ (forall b, wd_pledged w2 b = wd_pledged w1 b) /\ pledges w2).
  { unfold w2. destruct (wd_coef w1 a =? 0); [|by destruct H1]. split_and!; [done|done|].
    eapply pledges_eq; [apply H1|done..]. }
  clearbody w2. destruct H2 as (Hv2 & Hp2 & Hpl2). split; [by eapply pledges_eq|]. destruct H1 as [_ [Hw1' Hl1]].
  unfold listed, listed_but. simpl. rewrite fset_eq, Hv2.
  destruct (stakes_set a (wd_pledged w2 a) (wd_proxy w2 a) _ Hw1') as [Hw3 ->]. split; [done|].
  intros c b [[<- <-]|[Hne Hc]]%lookup_insert_Some _; rewrite Hp2; [done|by apply Hl1].
Qed.

Lemma ResetMinerBecome_supply l w a : supply l (wResetMinerBecome a w).2 = supply l w.
Proof.
  apply supply_eq; intros b; unfold wResetMinerBecome;
    (destruct (_ <? ValidatorBase); [done|]); (destruct (negb _ && _); [done|]); simpl;
    by destruct (wd_coef _ a =? 0).
Qed.

Lemma CancelEntries_ledger w from to n :
  ledger w -> 0 <= n <= pledge_balance to (wd_sext w from) -> ledger (wCancelEntries from to n w).
Proof.
  intros [Hp Hl] Hn. split.
  - eapply (pledges_cancel w _ from to n); done.
  - eapply (listed_remove w _ to n); [done| |done]. unfold wCancelEntries, set_validators. simpl. apply fset_eq.
Qed.

Lemma CancelEntries_supply l w from to n :
  NoDup l -> to ∈ l -> supply l (wCancelEntries from to n w) = supply l w - n.
Proof.
  intros Hnd Ht. transitivity (supply l (add_pledged to (- n) w)); [by apply supply_eq|].
  rewrite supply_add_pledged by done. lia.
Qed.

Lemma RevocateOne_supply l w to p :
  NoDup l -> to ∈ l -> pl_Addr p ∈ l -> supply l (wRevocateOne to w p) = supply l w.
Proof.
  intros Hnd Ht Hp. transitivity (supply l (add_pledged to (- pl_Balance p) (add_bal (pl_Addr p) (pl_Balance p) w))).
  - by apply supply_eq.
  - rewrite supply_add_pledged, supply_add_bal by done. lia.
Qed.

Lemma RevocateAll_supply l w to :
  NoDup l -> to ∈ l -> (forall a, a ∈ keys pl_Addr (wd_vext w to) -> a ∈ l) ->
  supply l (wRevocateAll to w) = supply l w.
Proof.
  intros Hnd Ht Hk. unfold wRevocateAll.
  assert (H : forall ps w, (forall a, a ∈ keys pl_Addr ps -> a ∈ l) ->
    supply l (foldl (wRevocateOne to) w ps) = supply l w).
  { induction ps as [|p ps IH]; intros w1 Hps; simpl; [done|]. rewrite IH.
    - apply RevocateOne_supply; [done|done|]. apply Hps. by left.
    - intros a Ha. apply Hps. by right. }
  rewrite <- (H (wd_vext w to) w Hk). by apply supply_eq.
Qed.

(** The stakers of [to] before the loop, which [ps] still lists. *)
Definition owed (to : Address) (ps : list Pledge) (w : world) : Prop :=
  NoDup (keys pl_Addr ps) /\
  (forall a, NoDup (keys pl_Addr (wd_sext w a)) /\ pos_pledges (wd_sext w a)) /\
  (forall a, pledge_balance to (wd_sext w a) = pledge_balance a ps).

Lemma pledge_balance_cons a p ps :
  pledge_balance a (p :: ps) = if decide (a = pl_Addr p) then pl_Balance p else pledge_balance a ps.
Proof.
  unfold pledge_balance, kfind. simpl. destruct (decide (pl_Addr p = a)), (decide (a = pl_Addr p)); try congruence.
  by destruct (list_find _ ps) as [[]|].
Qed.

Lemma pledge_balance_nonneg a ps : pos_pledges ps -> 0 <= pledge_balance a ps.
Proof. induction 1; [done|]. rewrite pledge_balance_cons. case_decide; lia. Qed.

Lemma RevocateOne_owed to p ps w :
  owed to (p :: ps) w -> owed to ps (wRevocateOne to w p) /\
  forall a b, b <> to -> pledge_balance b (wd_sext (wRevocateOne to w p) a) = pledge_balance b (wd_sext w a).
Proof.
  intros (Hnd & Hs & Hb). apply NoDup_cons in Hnd as [Hp Hnd].
  assert (Hbal : pledge_balance to (wd_sext w (pl_Addr p)) = pl_Balance p).
  { rewrite Hb, pledge_balance_cons. by rewrite decide_True. }
  destruct (Hs (pl_Addr p)) as [Hsn Hsp].
  pose proof (fun c => remove_pledge_all to (pl_Balance p) _ c Hsn ltac:(lia)) as Hrem.
  unfold owed. simpl. split; [split; [done|split]|].
  - intros a. unfold fset. case_decide; [|apply Hs]. split; [by apply (Hrem a)|].
    unfold remove_pledge. destruct (kfind pl_Addr to _) as [[i v]|] eqn:Hf; [|done].
    destruct (_ <? _) eqn:Hlt; simpl; [|by apply Forall_delete]. apply Forall_insert; [done|]. simpl. lia.
  - intros a. unfold fset. case_decide as Ha.
    + subst. rewrite (proj2 (Hrem to)), decide_True by done. symmetry. by apply pledge_balance_missing.
    + rewrite Hb, pledge_balance_cons. by rewrite decide_False.
  - intros a b Hne. unfold fset. case_decide as Ha; [|done]. subst.
    by rewrite (proj2 (Hrem b)), decide_False.
Qed.

(** What the loop of [RevocateAllStakers] does: every staker gets its pledge back. *)
Lemma RevocateLoop_spec to ps w :
  owed to ps w ->
  let w' := foldl (wRevocateOne to) w ps in
  owed to [] w' /\
  (forall a b, b <> to -> pledge_balance b (wd_sext w' a) = pledge_balance b (wd_sext w a)) /\
  (forall a, wd_bal w' a = wd_bal w a + pledge_balance a ps) /\
  (forall a, wd_pledged w' a = fset to (wd_pledged w to - pledge_total ps) (wd_pledged w) a) /\
  (forall a, wd_vext w' a = wd_vext w a) /\
  (listed w -> listed w').
Proof.
  revert w. induction ps as [|p ps IH]; intros w Ho.
  - split_and!; try done; intros a; simpl; unfold fset; try case_decide; subst;
      cbn; lia.
  - destruct (RevocateOne_owed to p ps w Ho) as [Ho1 Hb1]. cbn [foldl].
    destruct (IH _ Ho1) as (H1 & H2 & H3 & H4 & H5 & H6). split_and!.
    + done.
    + intros a b Hne. by rewrite H2, Hb1.
    + intros a. rewrite H3, pledge_balance_cons. simpl. unfold fset. case_decide as Ha; [|done].
      subst. rewrite (pledge_balance_missing (pl_Addr p)); [lia|]. by destruct Ho as [[? _]%NoDup_cons _].
    + intros a. rewrite H4. simpl. unfold fset. repeat case_decide; subst; simpl in *; unfold pledge_total; simpl; lia.
    + done.
    + intros Hl. apply H6. eapply (listed_remove w _ to (pl_Balance p)); [done| |done].
      unfold wRevocateOne, set_validators. simpl. apply fset_eq.
Qed.

(** [RevocateAllStakers]: afterwards nothing is pledged to the account, and whoever
    had pledged to it has the pledge back. *)
Lemma RevocateAll_spec w to :
  ledger w ->
  ledger (wRevocateAll to w) /\
  (forall a, wd_bal (wRevocateAll to w) a = wd_bal w a + pledge_balance to (wd_sext w a)) /\
  wd_pledged (wRevocateAll to w) to = 0 /\
  (forall a, pledge_balance to (wd_sext (wRevocateAll to w) a) = 0).
Proof.
  intros [[Hs Hv Hsd Ht] Hl].
  assert (Ho : owed to (wd_vext w to) w) by (split_and!; [apply Hv|apply Hs|intros; apply Hsd]).
  destruct (RevocateLoop_spec _ _ _ Ho) as ((_ & Hs1 & Hz) & Hs2 & Hb & Hp & Hx & Hl1). unfold wRevocateAll.
  set (w1 := foldl (wRevocateOne to) w (wd_vext w to)) in *. clearbody w1.
  assert (Hp0 : wd_pledged w1 to = 0) by (rewrite Hp, fset_eq, Ht; lia).
  split_and!; [split|intros a; simpl; by rewrite Hb, Hsd|done|done].
  - split; simpl; [done| | |]; intros a; unfold fset.
    + case_decide; [split; constructor|rewrite Hx; apply Hv].
    + intros b. case_decide as Hab; [subst; by rewrite Hz|]. by rewrite Hs2, Hx.
    + case_decide as Ha; [by subst|]. rewrite Hx, Hp, fset_ne by done. apply Ht.
  - by eapply listed_eq; [apply Hl1|..].
Qed.

Lemma ledger_eq w w' :
  ledger w -> (forall a, wd_sext w' a = wd_sext w a) -> (forall a, wd_vext w' a = wd_vext w a) ->
  (forall a, wd_pledged w' a = wd_pledged w a) -> validators w' = validators w -> ledger w'.
Proof. intros [Hp Hl] ? ? ? ?. split; [by eapply pledges_eq|by eapply listed_eq]. Qed.

(** The stakers whose accounts a cancellation may touch. *)
Definition touches (l : list Address) (from to : Address) (w : world) : Prop :=
  NoDup l /\ from ∈ l /\ to ∈ l /\ 0 ∈ l /\ forall a, a ∈ keys pl_Addr (wd_vext w to) -> a ∈ l.

(** What is paid out on a self-cancellation, before the entries change. *)
Lemma payout_spec w from n :
  let fine := lost_points w from * coebaseErb in
  let w1 := if 0 <? lost_points w from
            then wset_coef from VALIDATOR_COEFFICIENT (add_bal 0 fine (add_bal from (n - fine) w))
            else add_bal from n w in
  (forall a, wd_sext w1 a = wd_sext w a) /\ (forall a, wd_vext w1 a = wd_vext w a) /\
  (forall a, wd_pledged w1 a = wd_pledged w a) /\ validators w1 = validators w /\
  (forall l, NoDup l -> from ∈ l -> 0 ∈ l -> supply l w1 = supply l w + n).
Proof.
  intros fine w1. unfold w1. destruct (0 <? lost_points w from); split_and!; try done; intros l Hnd Hf H0.
  - transitivity (supply l (add_bal 0 fine (add_bal from (n - fine) w))); [by apply supply_eq|].
    rewrite !supply_add_bal by done. lia.
  - by rewrite supply_add_bal.
Qed.

Lemma remove_pledge_keys a n l x :
  x ∈ keys pl_Addr (remove_pledge a n l).2 -> x ∈ keys pl_Addr l.
Proof.
  unfold remove_pledge, kfind. destruct (list_find _ l) as [[i v]|] eqn:Hf; [|done].
  apply list_find_Some in Hf as (Hi & _). destruct (n <? pl_Balance v); simpl.
  - by rewrite (keys_insert _ _ _ _ _ Hi).
  - unfold keys. intros (p & -> & Hp)%list_elem_of_fmap. apply list_elem_of_fmap_2.
    eapply elem_of_submseteq; [exact Hp|]. apply submseteq_delete.
Qed.

Lemma NewCancel_ledger w from to n :
  ledger w -> 0 <= n <= pledge_balance to (wd_sext w from) ->
  ledger (wNewCancel from to n w).2 /\
  forall l, touches l from to w -> supply l (wNewCancel from to n w).2 = supply l w.
Proof.
  intros Hl Hn. unfold wNewCancel. destruct (Z.eqb_spec from to) as [<-|Hne].
  - destruct (payout_spec w from n) as (Hs & Hv & Hp & Hvl & Hsup). cbv zeta in *.
    destruct ((0 <? lost_points w from) && (n <? _)); [done|].
    set (w1 := if 0 <? lost_points w from then wset_coef _ _ _ else _) in *. clearbody w1.
    assert (Hl1 : ledger w1) by by eapply ledger_eq.
    assert (Hn1 : 0 <= n <= pledge_balance from (wd_sext w1 from)) by by rewrite Hs.
    pose proof (CancelEntries_ledger w1 from from n Hl1 Hn1) as Hl2. cbn [snd].
    destruct (pledge_balance from (wd_sext w1 from) =? n).
    + split; [by apply RevocateAll_spec|]. intros l (Hnd & Hf & _ & H0 & Hk).
      rewrite RevocateAll_supply, CancelEntries_supply, Hsup; [lia|done..|].
      intros a Ha. apply Hk. rewrite <- Hv. simpl in Ha. rewrite fset_eq in Ha. by eapply remove_pledge_keys.
    + split; [done|]. intros l (Hnd & Hf & _ & H0 & Hk). rewrite CancelEntries_supply, Hsup by done. lia.
  - cbn [snd]. split.
    + apply CancelEntries_ledger; [by eapply ledger_eq|done].
    + intros l (Hnd & Hf & Ht & _). rewrite CancelEntries_supply, supply_add_bal by done. lia.
Qed.

(** ** Worlds that agree *)

Lemma weq_fields w w' :
  weq w w' ->
  (forall a, wd_bal w' a = wd_bal w a) /\ (forall a, wd_sext w' a = wd_sext w a) /\
  (forall a, wd_vext w' a = wd_vext w a) /\ (forall a, wd_pledged w' a = wd_pledged w a) /\
  (forall a, wd_vals w' a = wd_vals w a) /\ (forall a, wd_coef w' a = wd_coef w a) /\
  (forall a, wd_csbt w' a = wd_csbt w a) /\ (forall a, wd_mint w' a = wd_mint w a) /\
  (forall a, wd_nonce w' a = wd_nonce w a) /\ (forall a, wd_proxy w' a = wd_proxy w a).
Proof. intros H. split_and!; intros a; specialize (H a); unfold acct in H; congruence. Qed.

#[export] Instance ledger_Proper : Proper (weq ==> iff) ledger.
Proof.
  assert (H : forall w w', weq w w' -> ledger w -> ledger w').
  { intros w w' (?&?&?&?&?&_)%weq_fields Hl. by eapply ledger_eq. }
  intros w w' Hw. split; [by apply H|]. apply H. by symmetry.
Qed.

#[export] Instance supply_Proper l : Proper (weq ==> (=)) (supply l).
Proof. intros w w' (?&?&?&?&_)%weq_fields. symmetry. by apply supply_eq. Qed.

#[export] Instance add_bal_Proper a n : Proper (weq ==> weq) (add_bal a n).
Proof.
  intros w w' Hw b. pose proof (Hw b) as Hb. pose proof (Hw a) as Ha. unfold acct in *. simpl.
  unfold fset. case_decide; subst; congruence.
Qed.
