(* ===== verification/BlockRewards.v ===== *)
(** The rewards of a block: [CreateNFTByOfficial16] pays the validators and gives
    each chosen creator the next CSBT address, [DistributeRewardsToStakers] passes
    most of a validator's reward on to those who pledged to it. *)
From S2P Require Import Prelude KeyedList Common Params Wormholes Rewards Validators Stakers AccessList StateTypes State StateDB StateRevert Staking StateView World Ledger.

Open Scope Z_scope.

(** * Steps on the world *)

(** How often an address occurs in a list of addresses. *)
Definition times (a : Address) (l : list Address) : Z := Z.of_nat (length (filter (fun b => b = a) l)).

Definition wPayAll (r : Z) (w : world) (l : list Address) : world := foldl (fun w a => add_bal a r w) w l.

(** One creator gets the CSBT address [p]. *)
Definition wMintOne (p : Z) (awardee : Address) (w : world) : world :=
  let w := wset_csbt (BigToAddress p) (mkAccountCSBT awardee awardee) w in
  wset_mint MintDeepStorageAddress
    (mkMintDeep (md_UserMint (wd_mint w MintDeepStorageAddress)) (Some (p + 1))) w.

Fixpoint wMintAll (p : Z) (l : list Address) (w : world) : world :=
  match l with
  | [] => w
  | a :: l => wMintAll (p + 1) l (wMintOne p a w)
  end.

(** The share of one pledge, and the steps of the loop over the stakers. *)
Definition share (R S : Z) (p : Pledge) : Z := R * pl_Balance p / S.

Definition wPayStaker (owner : Address) (R S : Z) (w : world) (p : Pledge) : world :=
  if pl_Addr p =? owner then w else add_bal (pl_Addr p) (share R S p) w.

Definition paid (owner : Address) (R S : Z) (l : list Pledge) : Z :=
  sumZ (fun p => if pl_Addr p =? owner then 0 else share R S p) l.

(** What others pledged to an account. *)
Definition others_total (w : world) (owner : Address) : Z :=
  pledge_total (wd_vext w owner) - pledge_balance owner (wd_vext w owner).

Definition wDistributeOne (R : Z) (w : world) (owner : Address) : world :=
  let l := wd_vext w owner in
  let S := others_total w owner in
  add_bal owner (- paid owner R S l) (foldl (wPayStaker owner R S) w l).

Lemma times_cons a b l : times a (b :: l) = (if decide (a = b) then 1 else 0) + times a l.
Proof. unfold times. rewrite filter_cons. destruct (decide (b = a)), (decide (a = b)); simpl; congruence || lia. Qed.

Lemma PayAll_bal r l w a : wd_bal (wPayAll r w l) a = wd_bal w a + r * times a l.
Proof.
  revert w. induction l as [|b l IH]; intros w; [unfold times; simpl; lia|].
  cbn [wPayAll foldl]. unfold wPayAll in IH. rewrite IH, times_cons. simpl. unfold fset.
  destruct (decide (a = b)) as [->|]; lia.
Qed.

(** [w'] differs from [w] in balances alone. *)
Definition same_but_bal (w w' : world) : Prop :=
  (forall a, wd_sext w' a = wd_sext w a) /\ (forall a, wd_vext w' a = wd_vext w a) /\
  (forall a, wd_pledged w' a = wd_pledged w a) /\ (forall a, wd_vals w' a = wd_vals w a) /\
  (forall a, wd_coef w' a = wd_coef w a) /\ (forall a, wd_csbt w' a = wd_csbt w a) /\
  (forall a, wd_mint w' a = wd_mint w a).

#[export] Instance same_but_bal_trans : Transitive same_but_bal.
Proof.
  intros w1 w2 w3 (?&?&?&?&?&?&?) (?&?&?&?&?&?&?).
  split_and!; intros a; congruence.
Qed.

Lemma PayAll_same r l w : same_but_bal w (wPayAll r w l).
Proof.
  revert w. induction l as [|b l IH]; intros w; [done|].
  transitivity (add_bal b r w); [done|apply IH].
Qed.

Lemma MintAll_spec p l w :
  0 <= p -> p + Z.of_nat (length l) <= 2 ^ 160 ->
  let w' := wMintAll p l w in
  (forall i e, l !! i = Some e -> wd_csbt w' (p + Z.of_nat i) = mkAccountCSBT e e) /\
  (forall a, a < p \/ p + Z.of_nat (length l) <= a -> wd_csbt w' a = wd_csbt w a) /\
  (md_OfficialMint (wd_mint w MintDeepStorageAddress) = Some p ->
   md_OfficialMint (wd_mint w' MintDeepStorageAddress) = Some (p + Z.of_nat (length l))) /\
  (forall a, wd_bal w' a = wd_bal w a) /\ (forall a, wd_sext w' a = wd_sext w a) /\
  (forall a, wd_vext w' a = wd_vext w a) /\ (forall a, wd_pledged w' a = wd_pledged w a) /\
  (forall a, wd_vals w' a = wd_vals w a).
Proof.
  revert p w. induction l as [|e l IH]; intros p w Hp Hmax; cbn [wMintAll].
  { split_and!; try done. intros H. by rewrite Z.add_0_r. }
  cbn [length] in Hmax. destruct (IH (p + 1) (wMintOne p e w)) as (H1 & H2 & H3 & H4); [lia..|].
  assert (Hb : BigToAddress p = p) by (unfold BigToAddress; rewrite Z.abs_eq, Z.mod_small; lia).
  split_and!; try (apply H4).
  - intros [|i] e' Hi; simpl in Hi; simplify_eq.
    + rewrite H2 by lia. simpl. rewrite Hb, Z.add_0_r. apply fset_eq.
    + rewrite <- (H1 i e' Hi). f_equal. lia.
  - intros a Ha. cbn [length] in Ha. rewrite H2 by lia. simpl. apply fset_ne. lia.
  - intros _. rewrite H3; [f_equal; cbn [length]; lia|]. unfold wMintOne. cbn [wd_mint wset_mint]. by rewrite fset_eq.
Qed.

(** ** Sharing a reward *)

Lemma PayStakers_spec owner R S l w :
  NoDup (keys pl_Addr l) ->
  let w' := foldl (wPayStaker owner R S) w l in
  same_but_bal w w' /\
  forall a, wd_bal w' a = wd_bal w a + if decide (a = owner) then 0 else R * pledge_balance a l / S.
Proof.
  revert w. induction l as [|p l IH]; intros w Hnd; cbn [foldl].
  { split; [done|]. intros a. case_decide; [lia|]. cbn. rewrite Z.mul_0_r, Zdiv_0_l. lia. }
  apply NoDup_cons in Hnd as [Hp Hnd]. destruct (IH (wPayStaker owner R S w p) Hnd) as [H1 H2]. split.
  - etransitivity; [|exact H1]. unfold wPayStaker. by destruct (_ =? owner).
  - intros a. rewrite H2, pledge_balance_cons. unfold wPayStaker.
    destruct (Z.eqb_spec (pl_Addr p) owner) as [Heq|Hne]; simpl; unfold fset.
    + destruct (decide (a = owner)); [done|]. by rewrite (decide_False (P := a = pl_Addr p)) by congruence.
    + destruct (decide (a = pl_Addr p)) as [->|]; [|done]. rewrite !decide_False by done.
      rewrite (pledge_balance_missing (pl_Addr p)) by done. rewrite Z.mul_0_r, Zdiv_0_l. unfold share. lia.
Qed.

(** The shares never exceed what is to be shared. *)
Lemma paid_bounds owner R S l :
  0 <= R -> 0 < S -> pos_pledges l -> NoDup (keys pl_Addr l) ->
  0 <= paid owner R S l /\ S * paid owner R S l <= R * (pledge_total l - pledge_balance owner l).
Proof.
  intros HR HS Hpos Hnd. unfold paid, pledge_total.
  induction l as [|p l IH]; [cbn; lia|].
  apply Forall_cons in Hpos as [Hp Hpos]. apply NoDup_cons in Hnd as [Hk Hnd].
  specialize (IH Hpos Hnd). rewrite pledge_balance_cons. rewrite !sumZ_cons.
  destruct (Z.eqb_spec (pl_Addr p) owner) as [Heq|Hne].
  - rewrite decide_True by done. rewrite pledge_balance_missing in IH by (by rewrite <- Heq). lia.
  - rewrite decide_False by done.
    assert (0 <= share R S p) by (apply Z.div_pos; nia).
    assert (S * share R S p <= R * pl_Balance p) by by apply Z.mul_div_le. split; [lia|].
    rewrite Z.mul_add_distr_l, <- Z.add_sub_assoc, (Z.mul_add_distr_l R). lia.
Qed.

(** One validator: the stakers get their shares and the owner pays them. *)
Lemma DistributeOne_spec R w owner :
  pledges w -> 0 <= R ->
  let S := others_total w owner in
  let w' := wDistributeOne R w owner in
  same_but_bal w w' /\
  (forall a, a <> owner -> wd_bal w' a = wd_bal w a + R * pledge_balance a (wd_vext w owner) / S) /\
  wd_bal w' owner = wd_bal w owner - paid owner R S (wd_vext w owner).
Proof.
  intros [_ Hv _ _] HR. destruct (Hv owner) as [Hnd _].
  destruct (PayStakers_spec owner R (others_total w owner) _ w Hnd) as [H1 H2]. unfold wDistributeOne.
  set (w1 := foldl _ w _) in *. clearbody w1. cbv zeta. split_and!.
  - etransitivity; [exact H1|done].
  - intros a Ha. simpl. by rewrite fset_ne, H2, decide_False.
  - simpl. rewrite fset_eq, H2, decide_True by done. lia.
Qed.

(** Nobody else pledged, or the others pledged a positive amount. *)
Lemma others_total_pos w owner :
  pledges w ->
  0 < others_total w owner \/ others_total w owner = 0 /\ Forall (fun p => pl_Addr p = owner) (wd_vext w owner).
Proof.
  intros [_ Hv _ _]. destruct (Hv owner) as [Hnd Hpos]. unfold others_total, pledge_total.
  induction (wd_vext w owner) as [|p l IH]; [right; cbn; split; [lia|constructor]|].
  apply NoDup_cons in Hnd as [Hk Hnd]. apply Forall_cons in Hpos as [Hp Hpos].
  pose proof (sumZ_nonneg pl_Balance l) as Hsum.
  rewrite pledge_balance_cons. rewrite !sumZ_cons.
  destruct (decide (owner = pl_Addr p)) as [->|Hne].
  - rewrite (pledge_balance_missing (pl_Addr p)) in IH by done.
    destruct (IH Hnd Hpos) as [IH1|[IH1 IH2]]; [left; lia|right]. split; [lia|]. by constructor.
  - destruct (IH Hnd Hpos) as [IH1|[IH1 IH2]]; left; lia.
Qed.

Lemma paid_le owner R w :
  pledges w -> 0 <= R -> 0 <= paid owner R (others_total w owner) (wd_vext w owner) <= R.
Proof.
  intros Hp HR. destruct (pg_vext _ Hp owner) as [Hnd Hpos].
  destruct (others_total_pos w owner Hp) as [HS|[_ Hall]].
  - destruct (paid_bounds owner R _ _ HR HS Hpos Hnd) as [H1 H2]. fold (others_total w owner) in H2. nia.
  - replace (paid _ _ _ _) with 0; [lia|]. unfold paid. clear Hnd Hpos.
    induction Hall as [|p l Hp' _ IH]; [done|]. rewrite sumZ_cons, (proj2 (Z.eqb_eq _ _) Hp'). exact IH.
Qed.

Section BlockRewards.
  Context {CR : Crypto}.

Lemma TW_pay_stakers w E owner R S l n :
  S <> 0 \/ Forall (fun p => pl_Addr p = owner) l ->
  TW w E (pay_stakers owner R S l n) (n + paid owner R S l) (foldl (wPayStaker owner R S) w l).
Proof.
  revert w E n. induction l as [|p l IH]; intros w E n HS; cbn [pay_stakers foldl].
  { unfold paid. simpl. rewrite Z.add_0_r. apply TW_ret. }
  assert (HS' : S <> 0 \/ Forall (fun p => pl_Addr p = owner) l).
  { destruct HS as [HS|HS]; [by left|right]. by apply Forall_cons in HS as []. }
  unfold wPayStaker at 2, paid. rewrite sumZ_cons. fold (paid owner R S l).
  destruct (Z.eqb_spec (pl_Addr p) owner) as [|Hne]; [apply IH; done|].
  destruct (Z.eqb_spec S 0) as [->|_].
  { destruct HS as [?|HS]; [done|]. by apply Forall_cons in HS as []. }
  do 2 tw_step. rewrite Z.add_assoc. by apply IH.
Qed.

Lemma TW_distribute_one w E R owner :
  pledges w -> TW w E (distribute_one R owner) tt (wDistributeOne R w owner).
Proof.
  intros Hp. unfold distribute_one, wDistributeOne. do 2 tw_step. unfold vel_GetBalance.
  rewrite vel_GetAllBalance_total. fold (others_total w owner).
  eapply TW_bind; [apply TW_pay_stakers|apply TW_SubBalance; ext_in].
  destruct (others_total_pos w owner Hp) as [?|[_ ?]]; [left; lia|by right].
Qed.

(** A loop over validators, with an invariant of the world. *)
Lemma TW_distribute w E R l :
  pledges w -> 0 <= R ->
  TW w E (mapM_ (distribute_one R) l) tt (foldl (wDistributeOne R) w l) /\
  same_but_bal w (foldl (wDistributeOne R) w l).
Proof.
  revert w. induction l as [|a l IH]; intros w Hp HR; cbn [mapM_ foldl]; [split; [apply TW_ret|done]|].
  destruct (DistributeOne_spec R w a Hp HR) as [Hsame _].
  destruct (IH (wDistributeOne R w a)) as [H1 H2]; [|done|].
  { destruct Hsame as (?&?&?&_). by eapply pledges_eq. }
  split; [|by etransitivity]. eapply TW_bind; [by apply TW_distribute_one|exact H1].
Qed.

Lemma TW_mint_all w E p l :
  MintDeepStorageAddress ∈ e_stk E -> md_OfficialMint (wd_mint w MintDeepStorageAddress) = Some p ->
  TW w E (mapM_ mint_one l) tt (wMintAll p l w).
Proof.
  intros HE. revert p w. induction l as [|a l IH]; intros p w Hp; cbn [mapM_ wMintAll]; [apply TW_ret|].
  eapply TW_bind; [|apply IH].
  - unfold mint_one, wMintOne. tw_step. rewrite Hp. eapply TW_bind; [apply TW_ret|]. do 2 tw_step.
    by apply (TW_AddOfficialMint _ _ _ 1 p).
  - unfold wMintOne. cbn [wd_mint wset_mint]. by rewrite fset_eq.
Qed.

Lemma TW_pay_validators w E r l :
  TW w E (mapM_ (fun owner => _ ← sdb_GetOrNewAccountStateObject owner; so_AddBalance owner r) l) tt (wPayAll r w l).
Proof. apply TW_mapM. intros w1 a _. tw_step. apply TW_AddBalance. ext_in. Qed.

(** The reward of a block height. *)
Definition block_reward (blocknumber : Z) : Z := GetRewardAmount (u64 blocknumber) DREBlockReward.

Lemma CreateNFTByOfficial16_refines w E vs es t hash p :
  md_OfficialMint (wd_mint w MintDeepStorageAddress) = Some p ->
  TW w E (sdb_CreateNFTByOfficial16 vs es t hash) tt (wMintAll p es (wPayAll (block_reward t) w vs)).
Proof.
  intros Hp. unfold sdb_CreateNFTByOfficial16. eapply TW_bind; [apply TW_pay_validators|]. tw_step.
  apply TW_mint_all; [ext_in|]. destruct (PayAll_same (block_reward t) vs w) as (_&_&_&_&_&_&Hm).
  unfold block_reward in Hm. by rewrite Hm.
Qed.
End BlockRewards.

(** ** Conservation *)

Lemma PayStakers_supply l owner R S ps w :
  NoDup l -> (forall a, a ∈ keys pl_Addr ps -> a ∈ l) ->
  supply l (foldl (wPayStaker owner R S) w ps) = supply l w + paid owner R S ps.
Proof.
  intros Hnd. revert w. induction ps as [|p ps IH]; intros w Hk; [unfold paid; simpl; lia|].
  cbn [foldl]. rewrite IH by (intros a Ha; apply Hk; by right). unfold paid. rewrite sumZ_cons.
  unfold wPayStaker. destruct (pl_Addr p =? owner); [lia|].
  rewrite supply_add_bal by (done || (apply Hk; by left)). lia.
Qed.

Lemma DistributeOne_supply l R w owner :
  NoDup l -> owner ∈ l -> (forall a, a ∈ keys pl_Addr (wd_vext w owner) -> a ∈ l) ->
  supply l (wDistributeOne R w owner) = supply l w.
Proof.
  intros Hnd Ho Hk. unfold wDistributeOne. rewrite supply_add_bal, PayStakers_supply by done. lia.
Qed.

(** What the reward round of validator [v] does to the balance of [a]. *)
Definition gain (R : Z) (w : world) (a v : Address) : Z :=
  if decide (a = v) then - paid v R (others_total w v) (wd_vext w v)
  else R * pledge_balance a (wd_vext w v) / others_total w v.

Lemma Distribute_spec R l w :
  pledges w -> 0 <= R ->
  (forall a, wd_bal (foldl (wDistributeOne R) w l) a = wd_bal w a + sumZ (gain R w a) l) /\
  (forall u, NoDup u -> (forall v, v ∈ l -> v ∈ u /\ forall a, a ∈ keys pl_Addr (wd_vext w v) -> a ∈ u) ->
     supply u (foldl (wDistributeOne R) w l) = supply u w).
Proof.
  intros Hp HR. revert w Hp. induction l as [|v l IH]; intros w Hp; cbn [foldl].
  { split; [intros a; simpl; lia|done]. }
  destruct (DistributeOne_spec R w v Hp HR) as (Hsame & Hne & Heq).
  pose proof Hsame as (Hs & Hx & Hpl & _).
  assert (Hp1 : pledges (wDistributeOne R w v)) by by eapply pledges_eq.
  destruct (IH _ Hp1) as [H1 H2]. split.
  - intros a. assert (Hg : wd_bal (wDistributeOne R w v) a = wd_bal w a + gain R w a v).
    { unfold gain. case_decide as Ha; [subst; lia|by apply Hne]. }
    rewrite H1, sumZ_cons, (sumZ_ext _ (gain R w a)); [lia|].
    intros u _. unfold gain, others_total. by rewrite Hx.
  - intros u Hu Hk. rewrite H2; [|done|].
    + destruct (Hk v) as [Hv1 Hv2]; [by left|]. by apply DistributeOne_supply.
    + intros v' Hv'. rewrite Hx. apply Hk. by right.
Qed.

(** * Properties *)

Section Properties.
  Context {CR : Crypto}.

(** C31. [CreateNFTByOfficial16] never panics on a well-formed state whose mint counter
    [p] leaves room below 2^160.  It pays every validator the block reward once per
    occurrence, makes the i-th chosen creator the owner and creator of the CSBT with
    address [p + i], touches no other CSBT, moves the counter to [p + n], and keeps the
    staking ledger. *)
Theorem CreateNFTByOfficial16_correct (s : StateDB) (vs es : list Address) (t p : Z) (hash : bytes) :
  sdb_wf s ->
  md_OfficialMint (wd_mint (world_of s) MintDeepStorageAddress) = Some p ->
  0 <= p -> p + Z.of_nat (length es) <= 2 ^ 160 ->
  exists s', sdb_CreateNFTByOfficial16 vs es t hash s = Some (tt, s') /\ sdb_wf s' /\
    (forall i e, es !! i = Some e -> wd_csbt (world_of s') (p + Z.of_nat i) = mkAccountCSBT e e) /\
    (forall a, a < p \/ p + Z.of_nat (length es) <= a -> wd_csbt (world_of s') a = wd_csbt (world_of s) a) /\
    md_OfficialMint (wd_mint (world_of s') MintDeepStorageAddress) = Some (p + Z.of_nat (length es)) /\
    (forall a, wd_bal (world_of s') a = wd_bal (world_of s) a + block_reward t * times a vs) /\
    (ledger (world_of s) -> ledger (world_of s')).
Proof.
  intros Hwf Hp H0 Hmax. set (w := world_of s) in *. set (w1 := wPayAll (block_reward t) w vs).
  destruct (PayAll_same (block_reward t) vs w) as (Hs & Hx & Hpl & Hvl & Hco & Hcs & Hm).
  destruct (TW_run (sdb_CreateNFTByOfficial16 vs es t hash) tt (wMintAll p es w1) s Hwf) as (s' & Hr & Hwf' & Hw').
  { by apply CreateNFTByOfficial16_refines. }
  destruct (MintAll_spec p es w1 H0 Hmax) as (M1 & M2 & M3 & M4 & M5 & M6 & M7 & M8).
  apply weq_fields in Hw' as (W1 & W2 & W3 & W4 & W5 & _ & W7 & W8 & _).
  exists s'. split_and!; [done|done|..].
  - intros i e Hi. rewrite <- W7. by apply M1.
  - intros a Ha. rewrite <- W7, M2 by done. apply Hcs.
  - rewrite <- W8. apply M3. unfold w1. by rewrite Hm.
  - intros a. rewrite <- W1, M4. apply PayAll_bal.
  - intros Hl. eapply ledger_eq; [exact Hl|..]; intros.
    + by rewrite <- W2, M5.
    + by rewrite <- W3, M6.
    + by rewrite <- W4, M7.
    + rewrite <- W5, M8. apply Hvl.
Qed.

(** C30. [DistributeRewardsToStakers] never panics on a well-formed state whose pledges
    are consistent: the divisor of every share is positive.  The balance of an account
    changes by its share of the reward of each listed validator it pledged to, minus
    what it hands out as a validator itself, which is at most the stakers' part of its
    reward; nothing but balances changes, and over any set of accounts that contains
    the validators and their stakers no currency is created or lost. *)
Theorem DistributeRewardsToStakers_correct (s : StateDB) (vs : list Address) (t : Z) :
  sdb_wf s -> pledges (world_of s) ->
  let R := block_reward t * (100 - PercentageValidatorReward) / 100 in
  exists s', sdb_DistributeRewardsToStakers vs t s = Some (tt, s') /\ sdb_wf s' /\
    same_but_bal (world_of s) (world_of s') /\
    (forall a, wd_bal (world_of s') a = wd_bal (world_of s) a + sumZ (gain R (world_of s) a) vs) /\
    (forall a, wd_bal (world_of s) a - R * times a vs <= wd_bal (world_of s') a) /\
    (forall u, NoDup u ->
       (forall v, v ∈ vs -> v ∈ u /\ forall a, a ∈ keys pl_Addr (wd_vext (world_of s) v) -> a ∈ u) ->
       supply u (world_of s') = supply u (world_of s)).
Proof.
  intros Hwf Hp R. set (w := world_of s) in *.
  assert (HR : 0 <= R).
  { unfold R, block_reward. destruct (GetRewardAmount_range (u64 t) DREBlockReward) as [? _];
      [unfold DREBlockReward; lia|by apply Z.mod_pos_bound|]. unfold PercentageValidatorReward. apply Z.div_pos; lia. }
  destruct (TW_distribute w (mkExt [] [] []) R vs Hp HR) as [Htw Hsame].
  destruct (Distribute_spec R vs w Hp HR) as [Hbal Hsup].
  destruct (TW_run _ _ _ _ Hwf Htw) as (s' & Hr & Hwf' & Hw'). exists s'.
  split_and!; [done|done| | | |intros u Hu Hk; rewrite Hw'; by apply Hsup].
  all: apply weq_fields in Hw' as (W1 & W2 & W3 & W4 & W5 & W6 & W7 & W8 & _).
  - destruct Hsame as (?&?&?&?&?&?&?). split_and!; intros a; congruence.
  - intros a. by rewrite <- W1, Hbal.
  - intros a. rewrite <- W1, Hbal. clear -Hp HR. induction vs as [|v vs IH]; [unfold times; simpl; lia|].
    rewrite sumZ_cons, times_cons, Z.mul_add_distr_l. unfold gain at 1. case_decide as Ha.
    + pose proof (paid_le v R w Hp HR). lia.
    + assert (0 <= R * pledge_balance a (wd_vext w v) / others_total w v); [|lia].
      assert (0 <= pledge_balance a (wd_vext w v)) by by apply pledge_balance_nonneg, Hp.
      destruct (others_total_pos w v Hp) as [?|[-> _]]; [apply Z.div_pos; nia|by rewrite Zdiv_0_r].
Qed.
End Properties.
