(* ===== verification/Evm.v ===== *)
(** Message calls: the functions of [core/evm.go] the virtual machine calls through
    its [BlockContext], and [HandleCSBT], [Call], [CallCode], [DelegateCall],
    [StaticCall], [Create] and [Create2] of [core/vm/evm.go].

    The byte-code interpreter, the precompiled contracts, [json.Unmarshal] of the
    payload and the hash of a contract address are the fields of the class [Machine]:
    the model is parametric in them.  The interpreter of the code is built on it in
    [Interpreter].  Errors are identified by their message.  The tracer hooks and logging
    are left out.

    The second part is about gas: if the interpreter never returns more than it was given
    ([GasMachine]), no message call does. *)
From stdpp Require Import strings.
From S2P Require Import Prelude KeyedList Common Params Wormholes Rewards Validators Stakers AccessList StateTypes State StateDB Staking.

Open Scope Z_scope.

(** ** Errors ([core/vm/errors.go]) *)

Definition ErrOutOfGas : string := "out of gas".
Definition ErrCodeStoreOutOfGas : string := "contract creation code storage out of gas".
Definition ErrDepth : string := "max call depth exceeded".
Definition ErrInsufficientBalance : string := "insufficient balance for transfer".
Definition ErrContractAddressCollision : string := "contract address collision".
Definition ErrExecutionReverted : string := "execution reverted".
Definition ErrMaxCodeSizeExceeded : string := "max code size exceeded".
Definition ErrInvalidCode : string := "invalid code: must not begin with 0xef".
Definition ErrNotOwner : string := "not the owner of the csbt".
Definition ErrNotExistNFTType : string := "not exist nft type".
Definition ErrWormholesFormat : string := "wormholes format error, can't unmarshal".
Definition ErrNotMoreThan100ERB : string := "not more than 700 ERB".
Definition ErrTooCloseToCancel : string := "too close to cancel".
Definition ErrNotCreator : string := "not csbt creator".

(** ** Contracts ([core/vm/contract.go]) *)

(** A caller is an account, or a running contract. *)
Record ContractRef : Type := mkContractRef {
  cr_Address : Address;
  cr_contract : option (Address * option Z);   (* of a contract: its [CallerAddress] and value *)
}.

Definition AccountRef (a : Address) : ContractRef := mkContractRef a None.

Record Contract : Type := mkContract {
  c_CallerAddress : Address;
  c_caller : ContractRef;
  c_self : Address;
  c_Code : bytes;
  c_CodeHash : Hash;
  c_CodeAddr : option Address;
  c_Gas : Z;
  c_value : option Z;   (* nil until [AsDelegate] *)
}.

Definition NewContract (caller : ContractRef) (object : Address) (value : option Z) (gas : Z) : Contract :=
  mkContract (cr_Address caller) caller object [] 0 None gas value.

(** The type assertion panics on a caller that is not a contract. *)
Definition c_AsDelegate (c : Contract) : option Contract :=
  match cr_contract (c_caller c) with
  | Some (callerAddress, value) =>
      Some (mkContract callerAddress (c_caller c) (c_self c) (c_Code c) (c_CodeHash c) (c_CodeAddr c)
              (c_Gas c) value)
  | None => None
  end.

(** A running contract as a caller. *)
Definition c_Ref (c : Contract) : ContractRef := mkContractRef (c_self c) (Some (c_CallerAddress c, c_value c)).

Definition c_SetCallCode (addr : Address) (hash : Hash) (code : bytes) (c : Contract) : Contract :=
  mkContract (c_CallerAddress c) (c_caller c) (c_self c) code hash (Some addr) (c_Gas c) (c_value c).

Definition c_UseGas (gas : Z) (left : Z) : bool * Z :=
  if left <? gas then (false, left) else (true, left - gas).

(** ** The machine *)

(** What a message call sees of the block, the configuration and the chain rules. *)
Record EVM : Type := mkEVM {
  evm_BlockNumber : Z;
  evm_Coinbase : Address;
  evm_BaseFee : Z;
  evm_depth : Z;
  evm_NoRecursion : bool;
  evm_NoBaseFee : bool;
  evm_IsHomestead : bool;
  evm_IsEIP158 : bool;
  evm_IsIstanbul : bool;
  evm_IsBerlin : bool;
  evm_IsLondon : bool;
  evm_IsEIP150 : bool;
  evm_IsByzantium : bool;
  evm_IsConstantinople : bool;
  evm_IsPetersburg : bool;
  evm_Origin : Address;
  evm_GasPrice : Z;
  evm_GasLimit : Z;
  evm_Time : Z;
  evm_Difficulty : Z;
  evm_ChainID : Z;
  evm_GetHash : Z -> Hash;
  evm_EnablePreimageRecording : bool;
  evm_readOnly : bool;   (* the flag [readOnly] of the interpreter *)
}.

(** Entering a frame: [Run] increments the depth and sets the read-only flag; both
    are restored when it returns. *)
Definition evm_enter (readOnly : bool) (evm : EVM) : EVM :=
  mkEVM (evm_BlockNumber evm) (evm_Coinbase evm) (evm_BaseFee evm) (evm_depth evm + 1)
    (evm_NoRecursion evm) (evm_NoBaseFee evm) (evm_IsHomestead evm) (evm_IsEIP158 evm)
    (evm_IsIstanbul evm) (evm_IsBerlin evm) (evm_IsLondon evm) (evm_IsEIP150 evm)
    (evm_IsByzantium evm) (evm_IsConstantinople evm) (evm_IsPetersburg evm) (evm_Origin evm)
    (evm_GasPrice evm) (evm_GasLimit evm) (evm_Time evm) (evm_Difficulty evm) (evm_ChainID evm)
    (evm_GetHash evm) (evm_EnablePreimageRecording evm) (readOnly || evm_readOnly evm).

(** A precompiled contract: its price and its code. *)
Record PrecompiledContract : Type := mkPrecompiled {
  pc_RequiredGas : bytes -> Z;
  pc_Run : bytes -> bytes * goerror;
}.

(** The price is a [uint64]. *)
Definition RunPrecompiledContract (p : PrecompiledContract) (input : bytes) (suppliedGas : Z) : bytes * Z * goerror :=
  let gasCost := u64 (pc_RequiredGas p input) in
  if suppliedGas <? gasCost then ([], 0, Some ErrOutOfGas)
  else let '(output, err) := pc_Run p input in (output, suppliedGas - gasCost, err).

(** [UnmarshalWormholes] is [json.Unmarshal] into the payload, [None] on an error;
    [precompile] finds the precompiled contract of an address; [Run] is [EVMInterpreter.Run], which returns the output, the gas left
    in the contract and the error; [CreateAddress] hashes a creator and its nonce,
    [CreateAddress2] a creator, a salt and the hash of the code;
    [ActivePrecompiles] lists the addresses of the precompiled contracts. *)
Class Machine : Type := {
  UnmarshalWormholes : bytes -> option Wormholes;
  precompile : EVM -> Address -> option PrecompiledContract;
  Run : EVM -> Contract -> bytes -> bool -> M (bytes * Z * goerror);
  CreateAddress : Address -> Z -> Address;
  CreateAddress2 : Address -> Z -> bytes -> Address;
  ActivePrecompiles : EVM -> list Address;
}.

Definition CallCreateDepth : Z := 1024.
Definition MaxCodeSize : Z := 24576.
Definition CreateDataGas : Z := 200.

Section Evm.
  Context {CR : Crypto} {MA : Machine}.

(** ** Functions of [core/evm.go] *)

Definition CanTransfer (addr : Address) (amount : Z) : M bool :=
  b ← sdb_GetBalance addr; mret (amount <=? b).

Definition Transfer (sender recipient : Address) (amount : Z) : M unit :=
  _ ← sdb_SubBalance sender amount; sdb_AddBalance recipient amount.

(** Go's [strings.HasPrefix] for the prefixes 0x and 0X *)
Definition has_0x (s : bytes) : bool :=
  match s with 48 :: 120 :: _ | 48 :: 88 :: _ => true | _ => false end.

(** A short address stands for the first of its family: zeros fill it up. *)
Definition GetNftAddressAndLevel (nftAddress : bytes) : outcome (Address * Z) :=
  if 42 <? Z.of_nat (length nftAddress) then Err "nft address is too long"
  else if has_0x nftAddress then
    let level := (42 - length nftAddress)%nat in
    Ret (HexToAddress (nftAddress ++ replicate level 48), Z.of_nat level)
  else Err "nft address is not to start with 0x".

Definition VerifyCSBTOwner (nftAddr : bytes) (owner : Address) : M bool :=
  match GetNftAddressAndLevel nftAddr with
  | Ret (address, _) => o ← sdb_GetNFTOwner16 address; mret (o =? owner)
  | _ => mret false
  end.

Definition TransferCSBT (nftAddr : bytes) (newOwner : Address) (blocknumber : Z) : M goerror :=
  match GetNftAddressAndLevel nftAddr with
  | Ret (address, level) => _ ← sdb_ChangeNFTOwner address newOwner level blocknumber; mret None
  | Err e => mret (Some e)
  | Panic => panic
  end.

Definition IsExistOtherPledged (address : Address) : M bool :=
  pledgeBalance ← sdb_GetPledgedBalance address;
  stakerBalance ← sdb_GetStakerPledgedBalance address address;
  mret (if pledgeBalance =? 0 then false else negb (pledgeBalance =? stakerBalance)).

Definition VerifyPledgedBalance (addr : Address) (amount : Z) : M bool :=
  b ← sdb_GetPledgedBalance addr; mret (amount <=? b).

Definition VerifyStakerPledgedBalance (from addr : Address) (amount : Z) : M bool :=
  b ← sdb_GetStakerPledgedBalance from addr; mret (amount <=? b).

Definition IsExistStakerStorageAddress (address : Address) : M bool :=
  l ← sdb_GetStakerStorageAddress; l ← deref l; mret (sl_IsExist address l).

Definition VerifyCancelValidatorPledgedBalance (addr : Address) (amount : Z) : M bool :=
  own ← sdb_GetStakerPledged addr addr;
  total ← sdb_GetPledgedBalance addr;
  own' ← sdb_GetStakerPledged addr addr;
  mret (total - pl_Balance own' <=? pl_Balance own - amount).

(** The coefficient is a [uint8], and so is the difference. *)
Definition RecoverValidatorCoefficient (address : Address) : M goerror :=
  balance ← sdb_GetPledgedBalance address;
  if balance <=? 0 then mret (Some "not a validator")
  else
    coe ← sdb_GetValidatorCoefficient address;
    if coe =? 0 then mret (Some "Get validator coefficient error")
    else
      let needRecoverCoe := u8 (VALIDATOR_COEFFICIENT - coe) in
      if 0 <? needRecoverCoe then
        let recoverAmount := needRecoverCoe * 100000000000000000 in
        b ← sdb_GetBalance address;
        if b <? recoverAmount then mret (Some ErrInsufficientBalance)
        else
          _ ← sdb_SubBalance address recoverAmount;
          _ ← sdb_AddBalance 0 recoverAmount;
          _ ← sdb_AddValidatorCoefficient address needRecoverCoe;
          mret None
      else mret None.

(** ** The chain's own transactions *)

(** The gas is returned unchanged on every path, so the error is all there is to
    return. *)
Definition HandleCSBT (evm : EVM) (caller addr : Address) (wormholes : Wormholes) (value : Z) : M goerror :=
  match wh_CheckFormat wormholes with
  | Err e => mret (Some e)
  | Panic => panic
  | Ret _ =>
      match wh_Type wormholes with
      | 1 =>
          owner ← VerifyCSBTOwner (wh_CSBTAddress wormholes) caller;
          if owner : bool then
            creator ← IsExistStakerStorageAddress caller;
            if negb creator then mret (Some ErrNotCreator)
            else TransferCSBT (wh_CSBTAddress wormholes) addr (evm_BlockNumber evm)
          else mret (Some ErrNotOwner)
      | 2 =>
          owner ← VerifyCSBTOwner (wh_CSBTAddress wormholes) addr;
          if owner : bool then _ ← Transfer caller addr value; mret None
          else mret (Some ErrNotOwner)
      | 3 =>
          stakerpledged ← sdb_GetStakerPledged caller addr;
          if (pl_Balance stakerpledged <? StakerBase) && (value <? StakerBase)
          then mret (Some ErrNotMoreThan100ERB)
          else
            ok ← CanTransfer caller value;
            if ok : bool then
              err ← sdb_StakerPledge caller addr value (evm_BlockNumber evm) wormholes;
              match err with
              | Some e => mret (Some e)
              | None => sdb_ResetMinerBecome addr
              end
            else mret (Some ErrInsufficientBalance)
      | 4 =>
          stakerpledged ← sdb_GetStakerPledged caller addr;
          let pledgedBalance := pl_Balance stakerpledged in
          if negb (pledgedBalance =? value) && (pledgedBalance - value <? StakerBase)
          then mret (Some "the after revocation is less than 700ERB")
          else if CancelDayPledgedInterval <=? evm_BlockNumber evm - pl_BlockNumber stakerpledged
          then sdb_NewCancelStakerPledge caller addr value (evm_BlockNumber evm)
          else mret (Some ErrTooCloseToCancel)
      | 5 => RecoverValidatorCoefficient caller
      | _ => mret (Some ErrNotExistNFTType)
      end
  end.

(** ** Message calls *)

(** Output, gas left and error of a call. *)
Notation result := (bytes * Z * goerror)%type (only parsing).

(** The payload of an input: absent, malformed, or decoded. *)
Definition payload (input : bytes) : outcome (option Wormholes) :=
  if (TransactionTypeLen <? Z.of_nat (length input))
     && bool_decide (take (Z.to_nat TransactionTypeLen) input = TransactionType)
  then match UnmarshalWormholes (drop (Z.to_nat TransactionTypeLen) input) with
       | Some w => Ret (Some w)
       | None => Err ErrWormholesFormat
       end
  else Ret None.

(** The balance check in front of a call. *)
Definition can_pay (nft : option Wormholes) (caller addr : Address) (value : Z) : M bool :=
  if match nft with Some w => wh_Type w =? 4 | None => false end then
    pledgedBalance ← sdb_GetStakerPledgedBalance caller addr;
    if negb (pledgedBalance =? value) && (0 <? value)
    then VerifyStakerPledgedBalance caller addr (value + StakerBase)
    else mret true
  else if negb (value =? 0) then CanTransfer caller value
  else mret true.

(** An error reverts to the snapshot, and takes the gas unless the code asked for it. *)
Definition close (snapshot : Z) (r : result) : M result :=
  let '(ret, gas, err) := r in
  match err with
  | None => mret (ret, gas, None)
  | Some e =>
      _ ← sdb_RevertToSnapshot snapshot;
      mret (ret, if bool_decide (e = ErrExecutionReverted) then gas else 0, Some e)
  end.

Definition Call (evm : EVM) (caller : ContractRef) (addr : Address) (input : bytes) (gas value : Z) : M result :=
  if evm_NoRecursion evm && (0 <? evm_depth evm) then mret ([], gas, None)
  else if CallCreateDepth <? evm_depth evm then mret ([], gas, Some ErrDepth)
  else
    match payload input with
    | Err e => mret ([], gas, Some e)
    | Panic => panic
    | Ret nft =>
        ok ← can_pay nft (cr_Address caller) addr value;
        if negb ok then mret ([], gas, Some ErrInsufficientBalance)
        else
          snapshot ← sdb_Snapshot;
          exist ← sdb_Exist addr;
          _ ← (if negb exist then sdb_CreateAccount addr else mret tt);
          err ← (match nft with
                 | Some w => HandleCSBT evm (cr_Address caller) addr w value
                 | None => _ ← Transfer (cr_Address caller) addr value; mret None
                 end);
          match err with
          | Some e => mret ([], gas, Some e)
          | None =>
              r ← (match precompile evm addr with
                   | Some p => mret (RunPrecompiledContract p input gas)
                   | None =>
                       code ← sdb_GetCode addr;
                       match default [] code with
                       | [] => mret ([], gas, None)
                       | c :: code =>
                           hash ← sdb_GetCodeHash addr;
                           Run evm (c_SetCallCode addr hash (c :: code)
                                      (NewContract caller addr (Some value) gas)) input false
                       end
                   end);
              close snapshot r
          end
    end.

(** The checks all four kinds of calls start with. *)
Definition guarded (evm : EVM) (gas : Z) (m : M result) : M result :=
  if evm_NoRecursion evm && (0 <? evm_depth evm) then mret ([], gas, None)
  else if CallCreateDepth <? evm_depth evm then mret ([], gas, Some ErrDepth)
  else m.

(** Running the code of [addr] in the given contract, or its precompiled contract. *)
Definition run_code (evm : EVM) (addr : Address) (contract : option Contract) (input : bytes) (gas : Z)
    (readOnly : bool) : M result :=
  match precompile evm addr with
  | Some p => mret (RunPrecompiledContract p input gas)
  | None =>
      contract ← deref contract;
      hash ← sdb_GetCodeHash addr;
      code ← sdb_GetCode addr;
      Run evm (c_SetCallCode addr hash (default [] code) contract) input readOnly
  end.

Definition CallCode (evm : EVM) (caller : ContractRef) (addr : Address) (input : bytes) (gas value : Z) : M result :=
  guarded evm gas (
    ok ← CanTransfer (cr_Address caller) value;
    if negb ok then mret ([], gas, Some ErrInsufficientBalance)
    else
      snapshot ← sdb_Snapshot;
      r ← run_code evm addr (Some (NewContract caller (cr_Address caller) (Some value) gas)) input gas false;
      close snapshot r).

Definition DelegateCall (evm : EVM) (caller : ContractRef) (addr : Address) (input : bytes) (gas : Z) : M result :=
  guarded evm gas (
    snapshot ← sdb_Snapshot;
    r ← run_code evm addr (c_AsDelegate (NewContract caller (cr_Address caller) None gas)) input gas false;
    close snapshot r).

Definition StaticCall (evm : EVM) (caller : ContractRef) (addr : Address) (input : bytes) (gas : Z) : M result :=
  guarded evm gas (
    snapshot ← sdb_Snapshot;
    _ ← sdb_AddBalance addr 0;
    r ← run_code evm addr (Some (NewContract caller addr (Some 0) gas)) input gas true;
    close snapshot r).

(** ** Contract creation *)

(** What becomes of the output of the deployment code. *)
Definition deploy (evm : EVM) (address : Address) (r : result) : M result :=
  let '(ret, gas, err) := r in
  match err with
  | Some e => mret (ret, gas, Some e)
  | None =>
      if evm_IsEIP158 evm && (MaxCodeSize <? Z.of_nat (length ret))
      then mret (ret, gas, Some ErrMaxCodeSizeExceeded)
      else if match ret with 0xEF :: _ => evm_IsLondon evm | _ => false end
      then mret (ret, gas, Some ErrInvalidCode)
      else
        match c_UseGas (u64 (Z.of_nat (length ret) * CreateDataGas)) gas with
        | (true, gas) => _ ← sdb_SetCode address (Some ret); mret (ret, gas, None)
        | (false, gas) => mret (ret, gas, Some ErrCodeStoreOutOfGas)
        end
  end.

Definition create (evm : EVM) (caller : ContractRef) (code : bytes) (hash : Hash) (gas value : Z)
    (address : Address) : M (bytes * Address * Z * goerror) :=
  if CallCreateDepth <? evm_depth evm then mret ([], 0, gas, Some ErrDepth)
  else
    ok ← CanTransfer (cr_Address caller) value;
    if negb ok then mret ([], 0, gas, Some ErrInsufficientBalance)
    else
      nonce ← sdb_GetNonce (cr_Address caller);
      _ ← sdb_SetNonce (cr_Address caller) (u64 (nonce + 1));
      _ ← (if evm_IsBerlin evm then sdb_AddAddressToAccessList address else mret tt);
      contractHash ← sdb_GetCodeHash address;
      nonce ← sdb_GetNonce address;
      if negb (nonce =? 0) || (negb (contractHash =? 0) && negb (contractHash =? emptyCodeHash))
      then mret ([], 0, 0, Some ErrContractAddressCollision)
      else
        snapshot ← sdb_Snapshot;
        _ ← sdb_CreateAccount address;
        _ ← (if evm_IsEIP158 evm then sdb_SetNonce address 1 else mret tt);
        _ ← Transfer (cr_Address caller) address value;
        if evm_NoRecursion evm && (0 <? evm_depth evm) then mret ([], address, gas, None)
        else
          let contract := mkContract (cr_Address caller) caller address code hash (Some address) gas (Some value) in
          r ← Run evm contract [] false;
          '(ret, gas, err) ← deploy evm address r;
          match err with
          | None => mret (ret, address, gas, None)
          | Some e =>
              if evm_IsHomestead evm || negb (bool_decide (e = ErrCodeStoreOutOfGas)) then
                _ ← sdb_RevertToSnapshot snapshot;
                mret (ret, address, if bool_decide (e = ErrExecutionReverted) then gas else 0, Some e)
              else mret (ret, address, gas, Some e)
          end.

Definition Create (evm : EVM) (caller : ContractRef) (code : bytes) (gas value : Z)
    : M (bytes * Address * Z * goerror) :=
  nonce ← sdb_GetNonce (cr_Address caller);
  create evm caller code 0 gas value (CreateAddress (cr_Address caller) nonce).

Definition Create2 (evm : EVM) (caller : ContractRef) (code : bytes) (gas endowment salt : Z)
    : M (bytes * Address * Z * goerror) :=
  let hash := Keccak256 code in
  create evm caller code (BytesToHash hash) gas endowment (CreateAddress2 (cr_Address caller) salt hash).
End Evm.

(** * The gas of message calls

    [GasMachine] is what the interpreter promises about gas: it never returns more than
    it was given.  Then no message call does. *)

(** The fork rules come in order: the rules of Berlin and London include the price changes
    of EIP-150. *)
Definition rules_ordered (evm : EVM) : Prop :=
  evm_IsLondon evm || evm_IsBerlin evm = true -> evm_IsEIP150 evm = true.

Class GasMachine {CR : Crypto} (MA : Machine) : Prop :=
  Run_gas : forall evm c i ro s ret left err s',
    rules_ordered evm -> 0 <= c_Gas c < 2 ^ 64 ->
    Run evm c i ro s = Some ((ret, left, err), s') -> 0 <= left <= c_Gas c.

Section Gas.
  Context {CR : Crypto} {MA : Machine} {GM : GasMachine MA}.

(** ** Calls never return more gas than they got *)

Definition gas_within {A : Type} (lo hi : Z) (m : M (bytes * Z * A)) : Prop :=
  forall s ret left x s', m s = Some ((ret, left, x), s') -> lo <= left <= hi.

Lemma within_ret {A : Type} lo hi ret left (x : A) : lo <= left <= hi -> gas_within lo hi (mret (ret, left, x)).
Proof. by intros H s r l y s' [= <- <- <- <-]. Qed.

Lemma within_bind {A B : Type} lo hi (m : M B) (f : B -> M (bytes * Z * A)) :
  (forall x, gas_within lo hi (f x)) -> gas_within lo hi (m ≫= f).
Proof.
  intros Hf s ret left y s'. unfold mbind, M_bind. destruct (m s) as [[x s1]|]; [|done]. apply Hf.
Qed.

(** A bind whose first part decides the gas. *)
Lemma within_bind' {A B : Type} lo hi (m : M (bytes * Z * B)) (f : bytes * Z * B -> M (bytes * Z * A)) :
  gas_within lo hi m -> (forall ret left x, lo <= left <= hi -> gas_within lo hi (f (ret, left, x))) -> gas_within lo hi (m ≫= f).
Proof.
  intros Hm Hf s ret left y s'. unfold mbind, M_bind. destruct (m s) as [[[[r l] x] s1]|] eqn:Hr; [|done].
  intros H. eapply Hf; [by eapply Hm|exact H].
Qed.

Lemma within_close gas id ret left err : 0 <= left <= gas -> gas_within 0 gas (close id (ret, left, err)).
Proof.
  intros H. unfold close. destruct err as [e|]; [|by apply within_ret].
  apply within_bind. intros []. apply within_ret. case_bool_decide; lia.
Qed.

Lemma RunPrecompiledContract_gas p input gas : 0 <= gas -> 0 <= (RunPrecompiledContract p input gas).1.2 <= gas.
Proof.
  intros Hg. unfold RunPrecompiledContract. destruct (gas <? _) eqn:Hlt; [simpl; lia|].
  destruct (pc_Run p input) as [out err]. simpl.
  assert (0 <= u64 (pc_RequiredGas p input)) by by apply Z.mod_pos_bound. lia.
Qed.

Lemma within_precompiled p input gas :
  0 <= gas -> gas_within 0 gas (mret (RunPrecompiledContract p input gas)).
Proof.
  intros Hg. pose proof (RunPrecompiledContract_gas p input gas Hg) as H.
  destruct (RunPrecompiledContract p input gas) as [[]]. by apply within_ret.
Qed.

Lemma Call_gas evm caller addr input gas value :
  rules_ordered evm -> 0 <= gas < 2 ^ 64 -> gas_within 0 gas (Call evm caller addr input gas value).
Proof.
  intros Ho Hg. unfold Call. destruct (_ && _); [apply within_ret; lia|].
  destruct (_ <? _); [apply within_ret; lia|].
  destruct (payload input) as [nft|e|]; [|apply within_ret; lia|by intros s].
  apply within_bind. intros ok. destruct (negb ok); [apply within_ret; lia|].
  do 3 (apply within_bind; intros ?). apply within_bind. intros [e|]; [apply within_ret; lia|].
  apply within_bind'; [|intros; by apply within_close].
  destruct (precompile evm addr) as [p|].
  - apply within_precompiled. lia.
  - apply within_bind. intros code. destruct (default [] code) as [|c rest]; [apply within_ret; lia|].
    apply within_bind. intros hash s ret left err s' Hr. eapply (Run_gas evm _ input false s) in Hr; done.
Qed.

Lemma run_code_gas evm addr c input gas ro :
  rules_ordered evm -> 0 <= gas < 2 ^ 64 -> (forall c', c = Some c' -> c_Gas c' = gas) ->
  gas_within 0 gas (run_code evm addr c input gas ro).
Proof.
  intros Ho Hg Hc. unfold run_code. destruct (precompile evm addr) as [p|]; [apply within_precompiled; lia|].
  destruct c as [c|]; [|by intros s]. simpl. specialize (Hc c eq_refl).
  unfold mbind at 1, M_bind at 1. simpl. do 2 (apply within_bind; intros ?). intros s ret left err s' Hr.
  rewrite <- Hc in Hg |- *. by eapply Run_gas in Hr.
Qed.

(** The calls that only run code: guarded, under a snapshot. *)
Lemma guarded_gas evm gas m : 0 <= gas -> gas_within 0 gas m -> gas_within 0 gas (guarded evm gas m).
Proof. intros Hg Hm. unfold guarded. do 2 (case_match; [apply within_ret; lia|]). done. Qed.

Lemma snapshot_gas gas (m : Z -> M (bytes * Z * goerror)) :
  (forall id, gas_within 0 gas (m id)) -> gas_within 0 gas (id ← sdb_Snapshot; r ← m id; close id r).
Proof. intros Hm. apply within_bind. intros id. apply within_bind'; [done|]. intros. by apply within_close. Qed.

Lemma CallCode_gas evm caller addr input gas value :
  rules_ordered evm -> 0 <= gas < 2 ^ 64 -> gas_within 0 gas (CallCode evm caller addr input gas value).
Proof.
  intros Ho Hg. apply guarded_gas; [lia|]. apply within_bind. intros ok.
  destruct (negb ok); [apply within_ret; lia|]. apply snapshot_gas. intros id.
  apply run_code_gas; [done|done|]. by intros c [= <-].
Qed.

Lemma DelegateCall_gas evm caller addr input gas :
  rules_ordered evm -> 0 <= gas < 2 ^ 64 -> gas_within 0 gas (DelegateCall evm caller addr input gas).
Proof.
  intros Ho Hg. apply guarded_gas; [lia|]. apply snapshot_gas. intros id. apply run_code_gas; [done|done|].
  intros c. unfold c_AsDelegate. destruct (cr_contract _) as [[? ?]|]; [|done]. by intros [= <-].
Qed.

Lemma StaticCall_gas evm caller addr input gas :
  rules_ordered evm -> 0 <= gas < 2 ^ 64 -> gas_within 0 gas (StaticCall evm caller addr input gas).
Proof.
  intros Ho Hg. apply guarded_gas; [lia|]. apply within_bind. intros id. apply within_bind. intros _.
  apply within_bind'; [|intros; by apply within_close]. apply run_code_gas; [done|done|]. by intros c [= <-].
Qed.

Lemma deploy_gas evm a ret gas err :
  0 <= gas -> gas_within 0 gas (deploy evm a (ret, gas, err)).
Proof.
  intros Hg. unfold deploy. destruct err as [e|]; [apply within_ret; lia|].
  destruct (_ && _); [apply within_ret; lia|]. 
  match goal with |- gas_within _ _ (if ?b then _ else _) => destruct b end; [apply within_ret; lia|].
  unfold c_UseGas. destruct (gas <? _) eqn:Hlt; [apply within_ret; lia|].
  apply within_bind. intros []. apply within_ret.
  assert (0 <= u64 (Z.of_nat (length ret) * CreateDataGas)) by by apply Z.mod_pos_bound. lia.
Qed.

(** The gas is the third result of a creation. *)
Lemma create_gas evm caller code hash gas value a s ret addr left err s' :
  rules_ordered evm -> 0 <= gas < 2 ^ 64 -> create evm caller code hash gas value a s = Some ((ret, addr, left, err), s') -> 0 <= left <= gas.
Proof.
  intros Ho Hg. set (P := fun m : M (bytes * Address * Z * goerror) =>
    forall s ret addr left err s', m s = Some ((ret, addr, left, err), s') -> 0 <= left <= gas).
  assert (Hret : forall r ad l e, 0 <= l <= gas -> P (mret (r, ad, l, e))).
  { intros r ad l e Hl s0 ? ? ? ? ? Heq. unfold mret, M_ret in Heq. congruence. }
  assert (Hbind : forall (B : Type) (m : M B) f, (forall x, P (f x)) -> P (m ≫= f)).
  { intros B m f Hf s0 ? ? ? ? ?. unfold mbind, M_bind. destruct (m s0) as [[x s1]|]; [|done]. apply Hf. }
  assert (Hbind' : forall m f, gas_within 0 gas m ->
    (forall ret left (x : goerror), 0 <= left <= gas -> P (f (ret, left, x))) -> P (m ≫= f)).
  { intros m f Hm Hf s0 ? ? ? ? ?. unfold mbind, M_bind. destruct (m s0) as [[[[r l] x] s1]|] eqn:Hr; [|done].
    apply Hf. by eapply Hm. }
  assert (H : P (create evm caller code hash gas value a)); [|apply H].
  unfold create. destruct (_ <? _); [apply Hret; lia|]. apply Hbind. intros ok.
  destruct (negb ok); [apply Hret; lia|]. do 5 (apply Hbind; intros ?).
  destruct (_ || _); [apply Hret; lia|]. do 4 (apply Hbind; intros ?). destruct (_ && _); [apply Hret; lia|].
  apply Hbind'; [intros s0 r l e s1 Hr; by eapply Run_gas in Hr|].
  intros r l e Hl. apply Hbind'; [|intros r1 l1 [e1|] Hl1; [|by apply Hret]].
  - intros s0 ? ? ? ? Hd. pose proof (deploy_gas evm a r l e (proj1 Hl) _ _ _ _ _ Hd). lia.
  - destruct (_ || _); [|by apply Hret]. apply Hbind. intros []. apply Hret. case_bool_decide; lia.
Qed.


Lemma Create_gas evm caller code gas value s ret addr left err s' :
  rules_ordered evm -> 0 <= gas < 2 ^ 64 ->
  Create evm caller code gas value s = Some ((ret, addr, left, err), s') -> 0 <= left <= gas.
Proof.
  intros Ho Hg. unfold Create, mbind, M_bind. destruct (sdb_GetNonce _ s) as [[n s2]|]; [|done].
  by apply create_gas.
Qed.
End Gas.
