(* ===== verification/Machine.v ===== *)
(** The data of the byte-code interpreter: words, stack and memory
    ([core/vm/stack.go], [core/vm/memory.go]), the helpers of [core/vm/common.go], and
    the context an instruction runs in ([ScopeContext] of [core/vm/interpreter.go]).

    A stack is the list of its words with the top first, so that [Back(n)] is the n-th
    element.  The arithmetic of the package uint256 is the class [Uint256]; a word is an
    integer, and the conversions of that package are conversions of integers. *)
From stdpp Require Import strings.
From S2P Require Import Prelude Common Params Wormholes StateTypes Evm.

Open Scope Z_scope.

(** ** Words *)

(** The operations of [uint256.Int] that compute; the receiver of the Go method is the
    result. *)
Class Uint256 : Type := {
  u_Add : Z -> Z -> Z;
  u_Sub : Z -> Z -> Z;
  u_Mul : Z -> Z -> Z;
  u_Div : Z -> Z -> Z;
  u_SDiv : Z -> Z -> Z;
  u_Mod : Z -> Z -> Z;
  u_SMod : Z -> Z -> Z;
  u_Exp : Z -> Z -> Z;
  u_ExtendSign : Z -> Z -> Z;
  u_Not : Z -> Z;
  u_And : Z -> Z -> Z;
  u_Or : Z -> Z -> Z;
  u_Xor : Z -> Z -> Z;
  u_Byte : Z -> Z -> Z;
  u_AddMod : Z -> Z -> Z -> Z;
  u_MulMod : Z -> Z -> Z -> Z;
  u_Lsh : Z -> Z -> Z;
  u_Rsh : Z -> Z -> Z;
  u_SRsh : Z -> Z -> Z;
  u_Slt : Z -> Z -> bool;
  u_Sgt : Z -> Z -> bool;
}.

Definition word_max : Z := 2 ^ 256.
Definition word_ok (x : Z) : Prop := 0 <= x < word_max.

(** [SetBytes], [SetFromBig] and [FromBig] keep 256 bits. *)
Definition u_SetBytes (b : bytes) : Z := SetBytes b mod word_max.
Definition u_SetFromBig (z : Z) : Z := z mod word_max.
Definition u_IsUint64 (x : Z) : bool := x <? 2 ^ 64.
(** The low 64 bits, and whether there are more. *)
Definition u_Uint64WithOverflow (x : Z) : Z * bool := (u64 x, negb (u_IsUint64 x)).
Definition u_Bytes20 (x : Z) : Address := x mod 2 ^ 160.
(** The sign bit. *)
Definition u_negative (x : Z) : bool := 2 ^ 255 <=? x.
Definition u_BitLen (x : Z) : Z := if x =? 0 then 0 else Z.log2 x + 1.
Definition of_bool (b : bool) : Z := if b then 1 else 0.

(** ** Integers of the run time *)

(** [math.SafeAdd] and [math.SafeMul]: the result and whether it overflowed. *)
Definition SafeAdd (x y : Z) : Z * bool := (u64 (x + y), 2 ^ 64 <=? x + y).
Definition SafeMul (x y : Z) : Z * bool := (u64 (x * y), 2 ^ 64 <=? x * y).

(** ** [core/vm/common.go] *)

Definition calcMemSize64WithUint (off length64 : Z) : Z * bool :=
  if length64 =? 0 then (0, false)
  else
    let '(offset64, overflow) := u_Uint64WithOverflow off in
    if overflow then (0, true)
    else let val := u64 (offset64 + length64) in (val, val <? offset64).

Definition calcMemSize64 (off l : Z) : Z * bool :=
  if negb (u_IsUint64 l) then (0, true) else calcMemSize64WithUint off (u64 l).

Definition RightPadBytes (slice : bytes) (l : Z) : bytes :=
  slice ++ replicate (Z.to_nat l - length slice) 0.

(** The bytes from [start] up to [end_], both inside the slice. *)
Definition subslice (data : bytes) (start end_ : Z) : bytes :=
  take (Z.to_nat (end_ - start)) (drop (Z.to_nat start) data).

Definition getData (data : bytes) (start size : Z) : option bytes :=
  let length := Z.of_nat (length data) in
  let start := if length <? start then length else start in
  let end_ := u64 (start + size) in
  let end_ := if length <? end_ then length else end_ in
  if end_ <? start then None else Some (RightPadBytes (subslice data start end_) (i64 size)).

Definition toWordSize (size : Z) : Z :=
  if 2 ^ 64 - 1 - 31 <? size then (2 ^ 64 - 1) / 32 + 1 else (size + 31) / 32.

(** ** Memory *)

Record Memory : Type := mkMemory { mem_store : bytes; mem_lastGasCost : Z }.

Definition NewMemory : Memory := mkMemory [] 0.

Definition mem_Len (m : Memory) : Z := Z.of_nat (length (mem_store m)).

(** [copy(store[offset:offset+size], value)] *)
Definition copy_into (store : bytes) (offset size : Z) (value : bytes) : bytes :=
  let value := take (Z.to_nat size) value in
  take (Z.to_nat offset) store ++ value ++ drop (Z.to_nat offset + length value) store.

Definition mem_Set (offset size : Z) (value : bytes) (m : Memory) : option Memory :=
  if 0 <? size then
    let end_ := u64 (offset + size) in
    if (mem_Len m <? end_) || (end_ <? offset) then None
    else Some (mkMemory (copy_into (mem_store m) offset size value) (mem_lastGasCost m))
  else Some m.

Definition mem_Set32 (offset val : Z) (m : Memory) : option Memory :=
  let end_ := u64 (offset + 32) in
  if (mem_Len m <? end_) || (end_ <? offset) then None
  else Some (mkMemory (copy_into (mem_store m) offset 32 (be_bytes 32 val)) (mem_lastGasCost m)).

Definition mem_Resize (size : Z) (m : Memory) : Memory :=
  if mem_Len m <? size
  then mkMemory (mem_store m ++ replicate (Z.to_nat (size - mem_Len m)) 0) (mem_lastGasCost m)
  else m.

(** [GetPtr] and [GetCopy].  A slice expression that goes over the length is taken to
    panic, although Go only panics over the capacity: the memory is resized before it
    is read. *)
Definition mem_GetPtr (offset size : Z) (m : Memory) : option bytes :=
  if size =? 0 then Some []
  else if offset <? mem_Len m then
    if (offset <? 0) || (size <? 0) || (mem_Len m <? offset + size) then None
    else Some (subslice (mem_store m) offset (offset + size))
  else Some [].

(** ** Frames *)

(** What changes while a contract runs: the program counter, the stack, the memory, the
    gas left in the contract, the output of the last call, and the gas the next call
    gets ([callGasTemp]). *)
Record frame : Type := mkFrame {
  f_pc : Z;
  f_stack : list Z;
  f_mem : Memory;
  f_gas : Z;
  f_returnData : bytes;
  f_callGasTemp : Z;
}.

Definition set_f_pc (x : Z) (f : frame) : frame :=
  mkFrame x (f_stack f) (f_mem f) (f_gas f) (f_returnData f) (f_callGasTemp f).
Definition set_f_stack (x : list Z) (f : frame) : frame :=
  mkFrame (f_pc f) x (f_mem f) (f_gas f) (f_returnData f) (f_callGasTemp f).
Definition set_f_mem (x : Memory) (f : frame) : frame :=
  mkFrame (f_pc f) (f_stack f) x (f_gas f) (f_returnData f) (f_callGasTemp f).
Definition set_f_gas (x : Z) (f : frame) : frame :=
  mkFrame (f_pc f) (f_stack f) (f_mem f) x (f_returnData f) (f_callGasTemp f).
Definition set_f_returnData (x : bytes) (f : frame) : frame :=
  mkFrame (f_pc f) (f_stack f) (f_mem f) (f_gas f) x (f_callGasTemp f).
Definition set_f_callGasTemp (x : Z) (f : frame) : frame :=
  mkFrame (f_pc f) (f_stack f) (f_mem f) (f_gas f) (f_returnData f) x.

(** The message calls an instruction can make. *)
Record Calls : Type := mkCalls {
  k_Call : EVM -> ContractRef -> Address -> bytes -> Z -> Z -> M (bytes * Z * goerror);
  k_CallCode : EVM -> ContractRef -> Address -> bytes -> Z -> Z -> M (bytes * Z * goerror);
  k_DelegateCall : EVM -> ContractRef -> Address -> bytes -> Z -> M (bytes * Z * goerror);
  k_StaticCall : EVM -> ContractRef -> Address -> bytes -> Z -> M (bytes * Z * goerror);
  k_Create : EVM -> ContractRef -> bytes -> Z -> Z -> M (bytes * Address * Z * goerror);
  k_Create2 : EVM -> ContractRef -> bytes -> Z -> Z -> Z -> M (bytes * Address * Z * goerror);
}.

(** What does not change: the machine with the depth of the frame, the contract (its
    gas is in the frame) and its input. *)
Record ScopeContext : Type := mkScope {
  x_evm : EVM;
  x_contract : Contract;
  x_input : bytes;
  x_calls : Calls;
}.

Definition ErrInvalidJump : string := "invalid jump destination".
Definition ErrWriteProtection : string := "write protection".
Definition ErrReturnDataOutOfBounds : string := "return data out of bounds".
Definition ErrGasUint64Overflow : string := "gas uint64 overflow".
Definition ErrStackUnderflow : string := "stack underflow".
Definition ErrStackOverflow : string := "stack limit reached".
Definition ErrInvalidOpCode : string := "invalid opcode".

(** [err == e] *)
Definition err_is (err : goerror) (e : string) : bool := bool_decide (err = Some e).

(** The result of an instruction: output and error. *)
Definition executionFunc : Type := ScopeContext -> frame -> M (frame * bytes * goerror).
(** The dynamic gas of an instruction, given the memory size it needs. *)
Definition gasFunc : Type := ScopeContext -> frame -> Z -> M (outcome Z * frame).
(** The memory size an instruction needs, and whether it overflowed. *)
Definition memorySizeFunc : Type := list Z -> option (Z * bool).
