(* ===== verification/Analysis.v ===== *)
(** Jump destinations: the bit vector of [core/vm/analysis.go] and the checks of
    [core/vm/contract.go] that read it.

    The bit of a position is set when the byte there is data of a PUSH.  [is_data] is the
    reference: one pass over the code that skips the data of each PUSH. *)
From S2P Require Import Prelude Common StateTypes Evm Machine.

Open Scope Z_scope.

(** ** The bit vector *)

Notation bitvec := (list Z) (only parsing).

Definition set2BitsMask : Z := 0xC000.
Definition set3BitsMask : Z := 0xE000.
Definition set4BitsMask : Z := 0xF000.
Definition set5BitsMask : Z := 0xF800.
Definition set6BitsMask : Z := 0xFC00.
Definition set7BitsMask : Z := 0xFE00.

(** [bits[i] |= v] and [bits[i] = v]; an index out of range panics. *)
Definition or_at (i v : Z) (bits : bitvec) : option bitvec :=
  b ← bits !! Z.to_nat i; Some (<[Z.to_nat i := Z.lor b v]> bits).
Definition assign_at (i v : Z) (bits : bitvec) : option bitvec :=
  _ ← bits !! Z.to_nat i; Some (<[Z.to_nat i := v]> bits).

Definition lookup8 (k : Z) : Z := Z.shiftr 0x80 k.

Definition bits_set1 (pos : Z) (bits : bitvec) : option bitvec :=
  or_at (pos / 8) (lookup8 (pos mod 8)) bits.

Definition bits_setN (flag pos : Z) (bits : bitvec) : option bitvec :=
  let a := Z.shiftr flag (pos mod 8) in
  bits ← or_at (pos / 8) (u8 (Z.shiftr a 8)) bits;
  let b := u8 a in
  if b =? 0 then Some bits else assign_at (pos / 8 + 1) b bits.

Definition bits_set8 (pos : Z) (bits : bitvec) : option bitvec :=
  let a := u8 (Z.shiftr 0xFF (pos mod 8)) in
  bits ← or_at (pos / 8) a bits;
  assign_at (pos / 8 + 1) (255 - a) bits.

Definition bits_set16 (pos : Z) (bits : bitvec) : option bitvec :=
  let a := u8 (Z.shiftr 0xFF (pos mod 8)) in
  bits ← or_at (pos / 8) a bits;
  bits ← assign_at (pos / 8 + 1) 0xFF bits;
  assign_at (pos / 8 + 2) (255 - a) bits.

Definition codeSegment (pos : Z) (bits : bitvec) : option bool :=
  b ← bits !! Z.to_nat (pos / 8);
  Some (Z.land b (Z.shiftr 0x80 (pos mod 8)) =? 0).

(** ** Collecting the data locations *)

(** The two inner loops.  A PUSH has at most 32 bytes of data, so two and one rounds. *)
Fixpoint mark16 (fuel : nat) (numbits pc : Z) (bits : bitvec) : option (Z * Z * bitvec) :=
  match fuel with
  | O => Some (numbits, pc, bits)
  | S fuel =>
      if 16 <=? numbits then bits ← bits_set16 pc bits; mark16 fuel (numbits - 16) (pc + 16) bits
      else Some (numbits, pc, bits)
  end.

Fixpoint mark8 (fuel : nat) (numbits pc : Z) (bits : bitvec) : option (Z * Z * bitvec) :=
  match fuel with
  | O => Some (numbits, pc, bits)
  | S fuel =>
      if 8 <=? numbits then bits ← bits_set8 pc bits; mark8 fuel (numbits - 8) (pc + 8) bits
      else Some (numbits, pc, bits)
  end.

(** The final switch. *)
Definition mark_rest (numbits pc : Z) (bits : bitvec) : option (Z * bitvec) :=
  match numbits with
  | 1 => bits ← bits_set1 pc bits; Some (pc + 1, bits)
  | 2 => bits ← bits_setN set2BitsMask pc bits; Some (pc + 2, bits)
  | 3 => bits ← bits_setN set3BitsMask pc bits; Some (pc + 3, bits)
  | 4 => bits ← bits_setN set4BitsMask pc bits; Some (pc + 4, bits)
  | 5 => bits ← bits_setN set5BitsMask pc bits; Some (pc + 5, bits)
  | 6 => bits ← bits_setN set6BitsMask pc bits; Some (pc + 6, bits)
  | 7 => bits ← bits_setN set7BitsMask pc bits; Some (pc + 7, bits)
  | _ => Some (pc, bits)
  end.

Definition mark_push (numbits pc : Z) (bits : bitvec) : option (Z * bitvec) :=
  '(numbits, pc, bits) ←
    (if 8 <=? numbits then
       '(numbits, pc, bits) ← mark16 2 numbits pc bits; mark8 1 numbits pc bits
     else Some (numbits, pc, bits));
  mark_rest numbits pc bits.

(** Every round moves [pc] forward, so as many rounds as there are bytes are enough. *)
Fixpoint codeBitmapInternal (fuel : nat) (code : bytes) (pc : Z) (bits : bitvec) : option bitvec :=
  match fuel with
  | O => Some bits
  | S fuel =>
      match code !! Z.to_nat pc with
      | None => Some bits
      | Some op =>
          let pc := pc + 1 in
          if (op <? 0x60) || (0x7f <? op) then codeBitmapInternal fuel code pc bits
          else '(pc, bits) ← mark_push (op - 0x60 + 1) pc bits; codeBitmapInternal fuel code pc bits
      end
  end.

Definition codeBitmap (code : bytes) : option bitvec :=
  codeBitmapInternal (length code) code 0 (replicate (length code / 8 + 1 + 4) 0).

(** ** Checks of a jump *)

Definition isCode (c : Contract) (udest : Z) : option bool :=
  analysis ← codeBitmap (c_Code c); codeSegment udest analysis.

Definition validJumpdest (c : Contract) (dest : Z) : option bool :=
  let '(udest, overflow) := u_Uint64WithOverflow dest in
  if overflow || (Z.of_nat (length (c_Code c)) <=? udest) then Some false
  else
    op ← c_Code c !! Z.to_nat udest;
    if negb (op =? 0x5b) then Some false else isCode c udest.

(** ** Reference *)

(** How many bytes of data follow an opcode. *)
Definition push_size (op : Z) : nat := if (op <? 0x60) || (0x7f <? op) then 0 else Z.to_nat (op - 0x5f).

Fixpoint data_from (skip : nat) (code : bytes) : list bool :=
  match code with
  | [] => []
  | op :: code =>
      match skip with
      | O => false :: data_from (push_size op) code
      | S skip => true :: data_from skip code
      end
  end.

(** The byte at a position is data of a PUSH. *)
Definition is_data (code : bytes) (pos : nat) : bool := default false (data_from 0 code !! pos).

(** * Properties *)

(** ** Bits *)

Definition bit (bits : bitvec) (i : Z) : bool :=
  Z.testbit (default 0 (bits !! Z.to_nat (i / 8))) (7 - i mod 8).

Lemma land_pow2 b k : 0 <= k -> (Z.land b (2 ^ k) =? 0) = negb (Z.testbit b k).
Proof.
  intros Hk. replace (Z.land b (2 ^ k)) with (if Z.testbit b k then 2 ^ k else 0).
  - pose proof (Z.pow_pos_nonneg 2 k). destruct (Z.testbit b k); simpl; lia.
  - apply Z.bits_inj'. intros j Hj. rewrite Z.land_spec, Z.pow2_bits_eqb by done.
    destruct (Z.eqb_spec k j) as [<-|Hne].
    + destruct (Z.testbit b k) eqn:E; simpl; [|by rewrite Z.testbit_0_l].
      rewrite Z.pow2_bits_eqb by done. by rewrite Z.eqb_refl.
    + rewrite andb_false_r. destruct (Z.testbit b k); [|by rewrite Z.testbit_0_l].
      rewrite Z.pow2_bits_eqb by done. by apply Z.eqb_neq.
Qed.

(** The positions within a byte. *)
Lemma mod8_cases i : i mod 8 ∈ [0; 1; 2; 3; 4; 5; 6; 7].
Proof. pose proof (Z.mod_pos_bound i 8 ltac:(lia)). rewrite !elem_of_cons. lia. Qed.

Lemma codeSegment_bit pos bits :
  (Z.to_nat (pos / 8) < length bits)%nat -> codeSegment pos bits = Some (negb (bit bits pos)).
Proof.
  intros Hl. apply lookup_lt_is_Some in Hl as [b Hb]. unfold codeSegment, bit. rewrite Hb. simpl. f_equal.
  rewrite <- land_pow2 by (pose proof (Z.mod_pos_bound pos 8); lia). do 2 f_equal.
  pose proof (mod8_cases pos) as Hin. set (r := pos mod 8) in *.
  repeat (apply elem_of_cons in Hin as [->|Hin]; [done|]). by apply elem_of_nil in Hin.
Qed.

(** ** Writing *)

Lemma or_at_bit q x bits :
  0 <= q < Z.of_nat (length bits) ->
  exists bits', or_at q x bits = Some bits' /\ length bits' = length bits /\
    forall i, 0 <= i -> bit bits' i = bit bits i || ((i / 8 =? q) && Z.testbit x (7 - i mod 8)).
Proof.
  intros Hq. destruct (lookup_lt_is_Some_2 bits (Z.to_nat q) ltac:(lia)) as [b Hb].
  exists (<[Z.to_nat q := Z.lor b x]> bits). unfold or_at. rewrite Hb. split; [done|].
  split; [apply length_insert|]. intros i Hi. unfold bit.
  pose proof (Z.div_pos i 8 Hi ltac:(lia)). destruct (Z.eqb_spec (i / 8) q) as [->|Hne].
  - rewrite list_lookup_insert_eq by (by eapply lookup_lt_Some). rewrite Hb. simpl. apply Z.lor_spec.
  - rewrite list_lookup_insert_ne by lia. by rewrite orb_false_r.
Qed.

Lemma assign_at_bit q y bits :
  0 <= q < Z.of_nat (length bits) ->
  exists bits', assign_at q y bits = Some bits' /\ length bits' = length bits /\
    forall i, 0 <= i -> bit bits' i = if i / 8 =? q then Z.testbit y (7 - i mod 8) else bit bits i.
Proof.
  intros Hq. destruct (lookup_lt_is_Some_2 bits (Z.to_nat q) ltac:(lia)) as [b Hb].
  exists (<[Z.to_nat q := y]> bits). unfold assign_at. rewrite Hb. split; [done|].
  split; [apply length_insert|]. intros i Hi. unfold bit.
  pose proof (Z.div_pos i 8 Hi ltac:(lia)). destruct (Z.eqb_spec (i / 8) q) as [->|Hne].
  - by rewrite list_lookup_insert_eq by (by eapply lookup_lt_Some).
  - by rewrite list_lookup_insert_ne by lia.
Qed.

(** The byte [v], written [k] bytes after the one of a position with offset [r], has the
    bits of the [n] positions from there. *)
Definition pattern (n r k v : Z) : bool :=
  forallb (fun j => Bool.eqb (Z.testbit v (7 - j)) ((r <=? 8 * k + j) && (8 * k + j <? r + n)))
    [0; 1; 2; 3; 4; 5; 6; 7].

Lemma pattern_spec n r k v j :
  pattern n r k v = true -> j ∈ [0; 1; 2; 3; 4; 5; 6; 7] ->
  Z.testbit v (7 - j) = (r <=? 8 * k + j) && (8 * k + j <? r + n).
Proof.
  unfold pattern. rewrite forallb_forall. intros H Hj.
  apply list_elem_of_In, H in Hj. by apply Bool.eqb_prop in Hj.
Qed.

(** Exactly the bits from [pc] on, [n] of them, are new in [bits']. *)
Definition marks (n pc : Z) (bits bits' : bitvec) : Prop :=
  length bits' = length bits /\
  forall i, 0 <= i -> bit bits' i = bit bits i || ((pc <=? i) && (i <? pc + n)).

Definition clean (pc : Z) (bits : bitvec) : Prop := forall i, pc <= i -> bit bits i = false.

Section Writing.
  Context (n pc : Z) (bits : bitvec) (Hpc : 0 <= pc) (Hn : 0 < n) (Hclean : clean pc bits).

Lemma position i : 0 <= i -> i = 8 * (i / 8) + i mod 8 /\ 0 <= i / 8 /\ 0 <= i mod 8 < 8.
Proof.
  intros Hi. pose proof (Z.div_mod i 8 ltac:(lia)). pose proof (Z.mod_pos_bound i 8 ltac:(lia)).
  pose proof (Z.div_pos i 8 Hi ltac:(lia)). lia.
Qed.

Lemma write1 x :
  pattern n (pc mod 8) 0 x = true -> pc mod 8 + n <= 8 -> (pc + n) / 8 < Z.of_nat (length bits) ->
  exists bits', or_at (pc / 8) x bits = Some bits' /\ marks n pc bits bits'.
Proof.
  intros Hx Hr Hl. pose proof (position pc Hpc) as (Hd & ? & ?).
  assert (pc / 8 <= (pc + n) / 8) by (apply Z.div_le_mono; lia).
  destruct (or_at_bit (pc / 8) x bits ltac:(lia)) as (bits' & Ho & Hlen & Hbit).
  exists bits'. split; [done|]. split; [done|]. intros i Hi. rewrite Hbit by done.
  pose proof (position i Hi) as (Hdi & ? & ?). f_equal. destruct (Z.eqb_spec (i / 8) (pc / 8)) as [Heq|Hne]; simpl.
  - rewrite (pattern_spec _ _ _ _ _ Hx (mod8_cases i)). lia.
  - lia.
Qed.

(** The second byte is assigned: its bits were clear. *)
Lemma write2 x y :
  pattern n (pc mod 8) 0 x = true -> pattern n (pc mod 8) 1 y = true -> pc mod 8 + n <= 16 ->
  pc / 8 + 1 < Z.of_nat (length bits) ->
  exists bits1 bits', or_at (pc / 8) x bits = Some bits1 /\ assign_at (pc / 8 + 1) y bits1 = Some bits' /\
    marks n pc bits bits'.
Proof.
  intros Hx Hy Hr Hl. pose proof (position pc Hpc) as (Hd & ? & ?).
  destruct (or_at_bit (pc / 8) x bits ltac:(lia)) as (bits1 & Ho & Hlen & Hbit).
  destruct (assign_at_bit (pc / 8 + 1) y bits1 ltac:(lia)) as (bits' & Ha & Hlen' & Hbit').
  exists bits1, bits'. split; [done|]. split; [done|]. split; [congruence|]. intros i Hi.
  rewrite Hbit', Hbit by done. pose proof (position i Hi) as (Hdi & ? & ?).
  destruct (Z.eqb_spec (i / 8) (pc / 8 + 1)) as [Heq|Hne].
  - rewrite (pattern_spec _ _ _ _ _ Hy (mod8_cases i)), (Hclean i) by lia. lia.
  - f_equal. destruct (Z.eqb_spec (i / 8) (pc / 8)) as [Heq|Hne']; simpl; [|lia].
    rewrite (pattern_spec _ _ _ _ _ Hx (mod8_cases i)). lia.
Qed.

Lemma write3 x y z :
  pattern n (pc mod 8) 0 x = true -> pattern n (pc mod 8) 1 y = true -> pattern n (pc mod 8) 2 z = true ->
  pc mod 8 + n <= 24 -> pc / 8 + 2 < Z.of_nat (length bits) ->
  exists bits1 bits2 bits', or_at (pc / 8) x bits = Some bits1 /\ assign_at (pc / 8 + 1) y bits1 = Some bits2 /\
    assign_at (pc / 8 + 2) z bits2 = Some bits' /\ marks n pc bits bits'.
Proof.
  intros Hx Hy Hz Hr Hl. pose proof (position pc Hpc) as (Hd & ? & ?).
  destruct (or_at_bit (pc / 8) x bits ltac:(lia)) as (bits1 & Ho & Hlen & Hbit).
  destruct (assign_at_bit (pc / 8 + 1) y bits1 ltac:(lia)) as (bits2 & Ha & Hlen' & Hbit').
  destruct (assign_at_bit (pc / 8 + 2) z bits2 ltac:(lia)) as (bits' & Ha' & Hlen'' & Hbit'').
  exists bits1, bits2, bits'. split; [done|]. split; [done|]. split; [done|]. split; [congruence|]. intros i Hi.
  rewrite Hbit'', Hbit', Hbit by done. pose proof (position i Hi) as (Hdi & ? & ?).
  destruct (Z.eqb_spec (i / 8) (pc / 8 + 2)) as [Heq|Hne].
  { rewrite (pattern_spec _ _ _ _ _ Hz (mod8_cases i)), (Hclean i) by lia. lia. }
  destruct (Z.eqb_spec (i / 8) (pc / 8 + 1)) as [Heq|Hne'].
  - rewrite (pattern_spec _ _ _ _ _ Hy (mod8_cases i)), (Hclean i) by lia. lia.
  - f_equal. destruct (Z.eqb_spec (i / 8) (pc / 8)) as [Heq|Hne'']; simpl; [|lia].
    rewrite (pattern_spec _ _ _ _ _ Hx (mod8_cases i)). lia.
Qed.
End Writing.

(** Case analysis on the offset of [pc] in its byte. *)
Ltac mod8 pc H :=
  pose proof (mod8_cases pc) as H;
  let r := fresh "r" in let Hr := fresh "Hr" in
  remember (pc mod 8) as r eqn:Hr;
  repeat (apply elem_of_cons in H as [->|H]; [|]); [..|by apply elem_of_nil in H].

Lemma set8_marks pc bits :
  0 <= pc -> clean pc bits -> (pc + 8) / 8 < Z.of_nat (length bits) ->
  exists bits', bits_set8 pc bits = Some bits' /\ marks 8 pc bits bits'.
Proof.
  intros Hpc Hc Hl. replace (pc + 8) with (pc + 1 * 8) in Hl by lia. rewrite Z.div_add in Hl by lia.
  pose proof (Z.mod_pos_bound pc 8 ltac:(lia)).
  unfold bits_set8. set (a := u8 (Z.shiftr 255 (pc mod 8))).
  destruct (write2 8 pc bits Hpc Hc a (255 - a)) as (b1 & b2 & Ho & Ha & Hm).
  1,2: unfold a; mod8 pc Hin; reflexivity.
  1,2: lia.
  exists b2. by rewrite Ho.
Qed.

Lemma set16_marks pc bits :
  0 <= pc -> clean pc bits -> (pc + 16) / 8 < Z.of_nat (length bits) ->
  exists bits', bits_set16 pc bits = Some bits' /\ marks 16 pc bits bits'.
Proof.
  intros Hpc Hc Hl. replace (pc + 16) with (pc + 2 * 8) in Hl by lia. rewrite Z.div_add in Hl by lia.
  pose proof (Z.mod_pos_bound pc 8 ltac:(lia)).
  unfold bits_set16. set (a := u8 (Z.shiftr 255 (pc mod 8))).
  destruct (write3 16 pc bits Hpc Hc a 255 (255 - a)) as (b1 & b2 & b3 & Ho & Ha & Ha' & Hm).
  1,2,3: unfold a; mod8 pc Hin; reflexivity.
  1,2: lia.
  exists b3. rewrite Ho. simpl. by rewrite Ha.
Qed.

Lemma set1_marks pc bits :
  0 <= pc -> clean pc bits -> (pc + 1) / 8 < Z.of_nat (length bits) ->
  exists bits', bits_set1 pc bits = Some bits' /\ marks 1 pc bits bits'.
Proof.
  intros Hpc Hc Hl. pose proof (Z.mod_pos_bound pc 8 ltac:(lia)).
  destruct (write1 1 pc bits Hpc ltac:(lia) (lookup8 (pc mod 8))) as (b1 & Ho & Hm); [|lia|done|by exists b1].
  mod8 pc Hin; reflexivity.
Qed.

(** The flag of [setN] is the mask of its [n] leading bits; when all of them fall into
    the first byte, the second one is left alone. *)
Lemma setN_marks n flag pc bits :
  (n, flag) ∈ [(2, set2BitsMask); (3, set3BitsMask); (4, set4BitsMask); (5, set5BitsMask);
               (6, set6BitsMask); (7, set7BitsMask)] ->
  0 <= pc -> clean pc bits -> (pc + n) / 8 < Z.of_nat (length bits) ->
  exists bits', bits_setN flag pc bits = Some bits' /\ marks n pc bits bits'.
Proof.
  intros Hin Hpc Hc Hl. pose proof (position pc Hpc) as (Hd & ? & ?).
  set (a := Z.shiftr flag (pc mod 8)).
  assert (Hpat : pattern n (pc mod 8) 0 (u8 (Z.shiftr a 8)) = true /\ pattern n (pc mod 8) 1 (u8 a) = true /\
                 0 < n < 8 /\ (u8 a =? 0) = (pc mod 8 + n <=? 8)).
  { unfold a. mod8 pc Hin'; clear -Hin;
      repeat (apply elem_of_cons in Hin as [[= -> ->]|Hin]; [done|]); by apply elem_of_nil in Hin. }
  destruct Hpat as (Hp0 & Hp1 & Hn & Hb). unfold bits_setN. fold a. rewrite Hb.
  destruct (Z.leb_spec (pc mod 8 + n) 8).
  - destruct (write1 n pc bits Hpc (proj1 Hn) (u8 (Z.shiftr a 8)) Hp0) as (b1 & Ho & Hm); [done|done|].
    exists b1. by rewrite Ho.
  - assert (pc / 8 + 1 <= (pc + n) / 8) by (apply Z.div_le_lower_bound; lia).
    destruct (write2 n pc bits Hpc Hc _ _ Hp0 Hp1) as (b1 & b2 & Ho & Ha & Hm); [lia|lia|].
    exists b2. rewrite Ho. by simpl.
Qed.

Lemma marks_trans m n pc bits bits1 bits2 :
  0 <= m -> 0 <= n -> marks m pc bits bits1 -> marks n (pc + m) bits1 bits2 -> marks (m + n) pc bits bits2.
Proof.
  intros Hm Hn [Hl1 H1] [Hl2 H2]. split; [congruence|]. intros i Hi. rewrite H2, H1 by done.
  rewrite <- orb_assoc. f_equal. lia.
Qed.

Lemma marks_clean n pc bits bits' : 0 <= pc -> 0 <= n -> clean pc bits -> marks n pc bits bits' -> clean (pc + n) bits'.
Proof. intros Hpc Hn Hc [_ Hm] i Hi. rewrite Hm, Hc by lia. simpl. lia. Qed.

Lemma mark_rest_marks numbits pc bits :
  0 <= numbits < 8 -> 0 <= pc -> clean pc bits -> (pc + numbits) / 8 < Z.of_nat (length bits) ->
  exists bits', mark_rest numbits pc bits = Some (pc + numbits, bits') /\ marks numbits pc bits bits'.
Proof.
  intros Hn Hpc Hc Hl. assert (Hin : numbits ∈ [0; 1; 2; 3; 4; 5; 6; 7]) by (rewrite !elem_of_cons; lia).
  apply elem_of_cons in Hin as [->|Hin].
  { exists bits. simpl. rewrite Z.add_0_r. split; [done|]. split; [done|]. intros i _. destruct (bit bits i); simpl; lia. }
  apply elem_of_cons in Hin as [->|Hin].
  { destruct (set1_marks pc bits Hpc Hc Hl) as (b & Hb & Hm). exists b. simpl. by rewrite Hb. }
  assert (HN : forall flag, (numbits, flag) ∈ [(2, set2BitsMask); (3, set3BitsMask); (4, set4BitsMask);
      (5, set5BitsMask); (6, set6BitsMask); (7, set7BitsMask)] ->
    mark_rest numbits pc bits = (bits ← bits_setN flag pc bits; Some (pc + numbits, bits)) ->
    exists bits', mark_rest numbits pc bits = Some (pc + numbits, bits') /\ marks numbits pc bits bits').
  { intros flag Hf ->. destruct (setN_marks numbits flag pc bits Hf Hpc Hc Hl) as (b & -> & Hm). by exists b. }
  repeat (apply elem_of_cons in Hin as [->|Hin];
    [eapply HN; [|reflexivity]; rewrite !elem_of_cons; tauto|]).
  by apply elem_of_nil in Hin.
Qed.

(** Both inner loops mark the bits they count off. *)
Lemma marks_0 pc bits : marks 0 pc bits bits.
Proof. split; [done|]. intros i _. destruct (bit bits i); simpl; lia. Qed.

Lemma loop_marks (w : Z) (set : Z -> bitvec -> option bitvec)
    (loop : nat -> Z -> Z -> bitvec -> option (Z * Z * bitvec)) :
  0 < w ->
  (forall numbits pc bits, loop 0%nat numbits pc bits = Some (numbits, pc, bits)) ->
  (forall fuel numbits pc bits, loop (S fuel) numbits pc bits =
     if w <=? numbits then bits ← set pc bits; loop fuel (numbits - w) (pc + w) bits
     else Some (numbits, pc, bits)) ->
  (forall pc bits, 0 <= pc -> clean pc bits -> (pc + w) / 8 < Z.of_nat (length bits) ->
     exists bits', set pc bits = Some bits' /\ marks w pc bits bits') ->
  forall fuel numbits pc bits,
  0 <= numbits -> 0 <= pc -> clean pc bits -> (pc + numbits) / 8 < Z.of_nat (length bits) ->
  exists m bits', loop fuel numbits pc bits = Some (numbits - m, pc + m, bits') /\ marks m pc bits bits' /\
    0 <= m <= numbits /\ (numbits < w * (Z.of_nat fuel + 1) -> numbits - m < w).
Proof.
  intros Hw H0 HS Hset fuel. induction fuel as [|fuel IH]; intros numbits pc bits Hn Hpc Hc Hl.
  - exists 0, bits. rewrite H0, Z.sub_0_r, Z.add_0_r. split; [done|]. split; [apply marks_0|]. lia.
  - rewrite HS. destruct (Z.leb_spec w numbits) as [Hle|Hlt].
    + assert ((pc + w) / 8 <= (pc + numbits) / 8) by (apply Z.div_le_mono; lia).
      destruct (Hset pc bits Hpc Hc ltac:(lia)) as (b1 & Hb1 & Hm1). rewrite Hb1. cbn [mbind option_bind].
      pose proof (proj1 Hm1) as Hlen.
      destruct (IH (numbits - w) (pc + w) b1) as (m & b2 & Hb2 & Hm2 & Hm & Hlt); [lia|lia| | |].
      { by eapply (marks_clean w); [..|exact Hm1]; [|lia|]. }
      { rewrite Hlen. by replace (pc + w + (numbits - w)) with (pc + numbits) by lia. }
      exists (w + m), b2. rewrite Hb2. split; [do 3 f_equal; lia|].
      split; [eapply marks_trans; [lia|lia|exact Hm1|exact Hm2]|]. lia.
    + exists 0, bits. rewrite Z.sub_0_r, Z.add_0_r. split; [done|]. split; [apply marks_0|]. lia.
Qed.

Definition mark16_marks := loop_marks 16 bits_set16 mark16 ltac:(lia) ltac:(done) ltac:(done) set16_marks.
Definition mark8_marks := loop_marks 8 bits_set8 mark8 ltac:(lia) ltac:(done) ltac:(done) set8_marks.

Lemma mark_push_marks numbits pc bits :
  0 <= numbits <= 32 -> 0 <= pc -> clean pc bits -> (pc + numbits) / 8 < Z.of_nat (length bits) ->
  exists bits', mark_push numbits pc bits = Some (pc + numbits, bits') /\ marks numbits pc bits bits'.
Proof.
  intros Hn Hpc Hc Hl. unfold mark_push. destruct (Z.leb_spec 8 numbits) as [Hle|Hlt].
  - destruct (mark16_marks 2 numbits pc bits) as (m & b1 & -> & Hm1 & Hm & Hlt16); [lia|done|done|done|].
    cbn [mbind option_bind]. pose proof (proj1 Hm1) as Hl1.
    pose proof (marks_clean m pc bits b1 Hpc ltac:(lia) Hc Hm1) as Hc1.
    destruct (mark8_marks 1 (numbits - m) (pc + m) b1) as (m' & b2 & -> & Hm2 & Hm' & Hlt); [lia|lia|done| |].
    { rewrite Hl1. by replace (pc + m + (numbits - m)) with (pc + numbits) by lia. }
    cbn [mbind option_bind].
    pose proof (marks_trans m m' pc bits b1 b2 ltac:(lia) ltac:(lia) Hm1 Hm2) as Hm12.
    pose proof (marks_clean (m + m') pc bits b2 Hpc ltac:(lia) Hc Hm12) as Hc2.
    replace (pc + m + m') with (pc + (m + m')) by lia.
    destruct (mark_rest_marks (numbits - m - m') (pc + (m + m')) b2) as (b3 & -> & Hm3); [lia|lia|done| |].
    { rewrite (proj1 Hm12). by replace (pc + (m + m') + (numbits - m - m')) with (pc + numbits) by lia. }
    exists b3. split; [do 2 f_equal; lia|]. replace numbits with (m + m' + (numbits - m - m')) at 1 by lia.
    eapply marks_trans; [lia|lia|exact Hm12|exact Hm3].
  - cbn [mbind option_bind]. apply mark_rest_marks; [lia|done|done|done].
Qed.

(** ** The reference, from an instruction on *)

Lemma data_from_skip n code :
  data_from n code = replicate (n `min` length code) true ++ data_from 0 (drop n code).
Proof.
  revert n. induction code as [|op code IH]; intros [|n]; simpl; [done|done|done|]. by rewrite IH.
Qed.

(** At [pc] an instruction starts. *)
Definition aligned (code : bytes) (pc : nat) : Prop :=
  forall j, data_from 0 code !! (pc + j)%nat = data_from 0 (drop pc code) !! j.

Lemma aligned_0 code : aligned code 0.
Proof. intros j. by rewrite drop_0. Qed.

Lemma aligned_next code pc op :
  aligned code pc -> code !! pc = Some op ->
  is_data code pc = false /\ aligned code (pc + 1 + push_size op) /\
  forall i, (pc < i < pc + 1 + push_size op)%nat -> (i < length code)%nat -> is_data code i = true.
Proof.
  intros Ha Hop. pose proof (drop_S code op pc Hop) as Hd.
  assert (Hat : forall j, data_from 0 code !! (pc + j)%nat =
    (false :: replicate (push_size op `min` length (drop (S pc) code)) true
       ++ data_from 0 (drop (push_size op) (drop (S pc) code))) !! j).
  { intros j. rewrite Ha, Hd. simpl. by rewrite data_from_skip. }
  assert (Hl : length (drop (S pc) code) = (length code - S pc)%nat) by apply length_drop.
  split; [|split].
  - unfold is_data. replace pc with (pc + 0)%nat by lia. by rewrite Hat.
  - intros j. replace (pc + 1 + push_size op + j)%nat with (pc + S (push_size op + j))%nat by lia.
    rewrite Hat. simpl. rewrite drop_drop. replace (S pc + push_size op)%nat with (pc + 1 + push_size op)%nat by lia.
    destruct (decide (push_size op <= length code - S pc)%nat) as [Hle|Hgt].
    + rewrite lookup_app_r by (rewrite length_replicate; lia). rewrite length_replicate. f_equal. lia.
    + rewrite (drop_ge code (pc + 1 + push_size op)) by lia. simpl. rewrite app_nil_r. by apply lookup_ge_None_2; rewrite length_replicate; lia.
  - intros i Hi Hlt. unfold is_data. replace i with (pc + S (i - S pc))%nat by lia. rewrite Hat. simpl.
    rewrite lookup_app_l by (rewrite length_replicate; lia). by rewrite lookup_replicate_2 by lia.
Qed.

(** ** The whole pass *)

(** Before [pc] the bits are those of the reference, from [pc] on they are clear. *)
Definition analysed (code : bytes) (pc : nat) (bits : bitvec) : Prop :=
  length bits = (length code / 8 + 1 + 4)%nat /\ (pc <= length code + 32)%nat /\ aligned code pc /\
  clean (Z.of_nat pc) bits /\
  forall i, (i < pc)%nat -> (i < length code)%nat -> bit bits (Z.of_nat i) = is_data code i.

Lemma analysed_step code pc op bits :
  analysed code pc bits -> code !! pc = Some op ->
  exists bits', (if (op <? 0x60) || (0x7f <? op) then Some (Z.of_nat pc + 1, bits)
                 else mark_push (op - 0x60 + 1) (Z.of_nat pc + 1) bits)
    = Some (Z.of_nat (pc + 1 + push_size op), bits') /\ analysed code (pc + 1 + push_size op) bits'.
Proof.
  intros (Hl & Hpc & Ha & Hc & Hb) Hop. destruct (aligned_next code pc op Ha Hop) as (H0 & Ha' & Hd).
  pose proof (lookup_lt_Some _ _ _ Hop) as Hlt.
  assert (Hpush : exists bits', (if (op <? 0x60) || (0x7f <? op) then Some (Z.of_nat pc + 1, bits)
      else mark_push (op - 0x60 + 1) (Z.of_nat pc + 1) bits) = Some (Z.of_nat (pc + 1 + push_size op), bits') /\
      marks (Z.of_nat (push_size op)) (Z.of_nat pc + 1) bits bits' /\ (push_size op <= 32)%nat).
  { unfold push_size. destruct (_ || _) eqn:E.
    - exists bits. split; [do 2 f_equal; lia|]. split; [apply marks_0|lia].
    - destruct (mark_push_marks (op - 0x60 + 1) (Z.of_nat pc + 1) bits) as (b & -> & Hm); [lia|lia| | |].
      + intros i Hi. apply Hc. lia.
      + rewrite Hl. apply (Z.le_lt_trans _ ((Z.of_nat (length code) + 32) / 8)); [apply Z.div_le_mono; lia|].
        replace (Z.of_nat (length code) + 32) with (Z.of_nat (length code) + 4 * 8) by lia.
        rewrite Z.div_add, !Nat2Z.inj_add, Nat2Z.inj_div by lia. lia.
      + exists b. split; [do 2 f_equal; lia|]. split; [|lia]. by replace (Z.of_nat (Z.to_nat (op - 95))) with (op - 96 + 1) by lia. }
  destruct Hpush as (bits' & -> & Hm & Hp). exists bits'. split; [done|].
  pose proof Hm as [Hlen Hbit]. split; [congruence|]. split; [lia|]. split; [done|]. split.
  - intros i Hi. rewrite Hbit, Hc by lia. simpl. lia.
  - intros i Hi Hil. rewrite Hbit by lia. destruct (decide (i < pc)%nat) as [Hlt'|Hge].
    + rewrite Hb by done. destruct (is_data code i); simpl; lia.
    + rewrite Hc by lia. destruct (decide (i = pc)) as [->|Hne]; [rewrite H0; simpl; lia|].
      rewrite Hd by lia. simpl. lia.
Qed.

Lemma codeBitmapInternal_analysed fuel code pc bits :
  analysed code pc bits -> (length code <= pc + fuel)%nat ->
  exists bits' pc', codeBitmapInternal fuel code (Z.of_nat pc) bits = Some bits' /\
    analysed code pc' bits' /\ (length code <= pc')%nat.
Proof.
  revert pc bits. induction fuel as [|fuel IH]; intros pc bits Ha Hf; simpl; [by exists bits, pc; split_and!; [..|lia]|].
  rewrite Nat2Z.id. destruct (code !! pc) as [op|] eqn:Hop.
  - destruct (analysed_step code pc op bits Ha Hop) as (b & Hb & Ha').
    destruct (IH (pc + 1 + push_size op)%nat b Ha' ltac:(lia)) as (b' & pc' & Hr & H').
    exists b', pc'. split; [|done]. destruct (_ || _).
    + injection Hb as Hpc <-. by rewrite Hpc.
    + rewrite Hb. exact Hr.
  - exists bits, pc. apply lookup_ge_None in Hop. done.
Qed.

(** C32. The bit vector of jump destinations is right: on every code [codeBitmap] writes
    inside its vector, and marks a position of the code exactly when the byte there is
    data of a PUSH instruction, so that [validJumpdest] accepts exactly the JUMPDEST
    bytes at which an instruction starts. *)
Theorem codeBitmap_correct (c : Contract) (dest : Z) :
  0 <= dest ->
  (exists bits, codeBitmap (c_Code c) = Some bits /\
     forall pos, (pos < length (c_Code c))%nat ->
       codeSegment (Z.of_nat pos) bits = Some (negb (is_data (c_Code c) pos))) /\
  validJumpdest c dest = Some (bool_decide (dest < 2 ^ 64 /\ c_Code c !! Z.to_nat dest = Some 0x5b)
                               && negb (is_data (c_Code c) (Z.to_nat dest))).
Proof.
  intros Hdest. set (code := c_Code c).
  assert (Hbits : exists bits, codeBitmap code = Some bits /\ forall pos, (pos < length code)%nat ->
      codeSegment (Z.of_nat pos) bits = Some (negb (is_data code pos))).
  { destruct (codeBitmapInternal_analysed (length code) code 0 (replicate (length code / 8 + 1 + 4) 0))
      as (bits & pc & Hr & (Hl & _ & _ & _ & Hb) & Hpc); [|lia|].
    - split; [apply length_replicate|]. split; [lia|]. split; [apply aligned_0|]. split; [|intros; lia].
      intros i Hi. unfold bit. destruct (replicate _ _ !! _) as [z|] eqn:E; [|apply Z.testbit_0_l].
      apply lookup_replicate_1 in E as [-> _]. apply Z.testbit_0_l.
    - exists bits. split; [done|]. intros pos Hpos. rewrite codeSegment_bit; [by rewrite Hb by lia|].
      rewrite Hl. apply Nat2Z.inj_lt. rewrite Z2Nat.id by (apply Z.div_pos; lia).
      assert (Z.of_nat pos / 8 <= Z.of_nat (length code) / 8) by (apply Z.div_le_mono; lia).
      rewrite !Nat2Z.inj_add, Nat2Z.inj_div. lia. }
  split; [done|]. destruct Hbits as (bits & Hr & Hseg). unfold validJumpdest, isCode, u_Uint64WithOverflow, u_IsUint64.
  fold code. destruct (Z.ltb_spec dest (2 ^ 64)) as [Hlt|Hge]; simpl.
  - assert (Hu : u64 dest = dest) by (apply Z.mod_small; lia). rewrite Hu.
    destruct (Z.leb_spec (Z.of_nat (length code)) dest) as [Hout|Hin].
    + rewrite bool_decide_eq_false_2; [done|]. intros [_ Hop%lookup_lt_Some]. lia.
    + destruct (lookup_lt_is_Some_2 code (Z.to_nat dest) ltac:(lia)) as [op Hop]. rewrite Hop. simpl.
      destruct (Z.eqb_spec op 0x5b) as [->|Hne]; simpl.
      * rewrite bool_decide_eq_true_2 by done. rewrite Hr. simpl.
        rewrite <- (Z2Nat.id dest) at 1 by done. by rewrite Hseg by lia.
      * rewrite bool_decide_eq_false_2; [done|]. intros [_ [= ->]]. done.
  - rewrite bool_decide_eq_false_2; [done|]. lia.
Qed.

Definition jumpContract : Contract := NewContract (AccountRef 1) 2 None 0.

(** PUSH2 0x5b5b JUMPDEST: only the last byte is a destination. *)
Lemma codeBitmap_correct_witness :
  validJumpdest (c_SetCallCode 2 0 [0x61; 0x5b; 0x5b; 0x5b] jumpContract) 3 = Some true /\
  validJumpdest (c_SetCallCode 2 0 [0x61; 0x5b; 0x5b; 0x5b] jumpContract) 2 = Some false.
Proof.
  split.
  - rewrite (proj2 (codeBitmap_correct (c_SetCallCode 2 0 [0x61; 0x5b; 0x5b; 0x5b] jumpContract) 3 ltac:(lia))). reflexivity.
  - rewrite (proj2 (codeBitmap_correct (c_SetCallCode 2 0 [0x61; 0x5b; 0x5b; 0x5b] jumpContract) 2 ltac:(lia))). reflexivity.
Defined.
