(* ===== verification/Instructions.v ===== *)
(** The instructions: [core/vm/instructions.go], with the three of [core/vm/eips.go].

    An instruction takes the frame to the next one, with an output and an error; popping
    an empty stack panics.  The byte-code table ([JumpTable]) checks the height of the
    stack before. *)
From stdpp Require Import strings.
From S2P Require Import Prelude Common Params ProtocolParams Wormholes StateTypes State StateDB Staking Evm Machine Analysis.

Open Scope Z_scope.

Section Instructions.
  Context {CR : Crypto} {U : Uint256}.

(** ** Shapes *)

(** The instruction is done, without output. *)
Definition next (fr : frame) : M (frame * bytes * goerror) := mret (fr, [], None).

(** Pop one, two or three operands and leave a result in their place. *)
Definition unary (f : Z -> Z) : executionFunc := fun sc fr =>
  match f_stack fr with
  | x :: st => next (set_f_stack (f x :: st) fr)
  | _ => panic
  end.

Definition binary (f : Z -> Z -> Z) : executionFunc := fun sc fr =>
  match f_stack fr with
  | x :: y :: st => next (set_f_stack (f x y :: st) fr)
  | _ => panic
  end.

Definition ternary (f : Z -> Z -> Z -> Z) : executionFunc := fun sc fr =>
  match f_stack fr with
  | x :: y :: z :: st => next (set_f_stack (f x y z :: st) fr)
  | _ => panic
  end.

(** Push a value the context gives. *)
Definition pushes (f : ScopeContext -> frame -> Z) : executionFunc := fun sc fr =>
  next (set_f_stack (f sc fr :: f_stack fr) fr).

(** Replace the top by what the state says of it. *)
Definition asks (f : Z -> M Z) : executionFunc := fun sc fr =>
  match f_stack fr with
  | x :: st => y ← f x; next (set_f_stack (y :: st) fr)
  | _ => panic
  end.

(** ** Arithmetic and comparison *)

Definition opAdd : executionFunc := binary u_Add.
Definition opSub : executionFunc := binary u_Sub.
Definition opMul : executionFunc := binary u_Mul.
Definition opDiv : executionFunc := binary u_Div.
Definition opSdiv : executionFunc := binary u_SDiv.
Definition opMod : executionFunc := binary u_Mod.
Definition opSmod : executionFunc := binary u_SMod.
Definition opExp : executionFunc := binary u_Exp.
Definition opSignExtend : executionFunc := binary (fun back num => u_ExtendSign num back).
Definition opNot : executionFunc := unary u_Not.
Definition opLt : executionFunc := binary (fun x y => of_bool (x <? y)).
Definition opGt : executionFunc := binary (fun x y => of_bool (y <? x)).
Definition opSlt : executionFunc := binary (fun x y => of_bool (u_Slt x y)).
Definition opSgt : executionFunc := binary (fun x y => of_bool (u_Sgt x y)).
Definition opEq : executionFunc := binary (fun x y => of_bool (x =? y)).
Definition opIszero : executionFunc := unary (fun x => of_bool (x =? 0)).
Definition opAnd : executionFunc := binary u_And.
Definition opOr : executionFunc := binary u_Or.
Definition opXor : executionFunc := binary u_Xor.
Definition opByte : executionFunc := binary (fun th val => u_Byte val th).
Definition opAddmod : executionFunc := ternary (fun x y z => if z =? 0 then 0 else u_AddMod x y z).
Definition opMulmod : executionFunc := ternary u_MulMod.
Definition opSHL : executionFunc := binary (fun shift value => if shift <? 256 then u_Lsh value (u64 shift) else 0).
Definition opSHR : executionFunc := binary (fun shift value => if shift <? 256 then u_Rsh value (u64 shift) else 0).
Definition opSAR : executionFunc := binary (fun shift value =>
  if 256 <? shift then (if negb (u_negative value) then 0 else word_max - 1)
  else u_SRsh value (u64 shift)).

Definition opSha3 : executionFunc := fun sc fr =>
  match f_stack fr with
  | offset :: size :: st =>
      data ← deref (mem_GetPtr (i64 offset) (i64 size) (f_mem fr));
      let hash := BytesToHash (Keccak256 data) in
      _ ← (if evm_EnablePreimageRecording (x_evm sc) then sdb_AddPreimage hash data else mret tt);
      next (set_f_stack (hash :: st) fr)
  | _ => panic
  end.

(** ** Context *)

Definition opAddress : executionFunc := pushes (fun sc _ => c_self (x_contract sc)).
Definition opBalance : executionFunc := asks (fun slot => b ← sdb_GetBalance (u_Bytes20 slot); mret (u_SetFromBig b)).
Definition opOrigin : executionFunc := pushes (fun sc _ => evm_Origin (x_evm sc)).
Definition opCaller : executionFunc := pushes (fun sc _ => c_CallerAddress (x_contract sc)).
Definition opCallValue : executionFunc := fun sc fr =>
  v ← deref (c_value (x_contract sc)); next (set_f_stack (u_SetFromBig v :: f_stack fr) fr).

Definition opCallDataLoad : executionFunc := fun sc fr =>
  match f_stack fr with
  | x :: st =>
      let '(offset, overflow) := u_Uint64WithOverflow x in
      if negb overflow then
        data ← deref (getData (x_input sc) offset 32); next (set_f_stack (u_SetBytes data :: st) fr)
      else next (set_f_stack (0 :: st) fr)
  | _ => panic
  end.

Definition opCallDataSize : executionFunc := pushes (fun sc _ => Z.of_nat (length (x_input sc))).

(** The offset of a copy, saturated. *)
Definition offset64 (x : Z) : Z :=
  let '(offset, overflow) := u_Uint64WithOverflow x in if overflow then 2 ^ 64 - 1 else offset.

(** Write [data] to the memory and drop the operands. *)
Definition store (memOffset size : Z) (data : bytes) (st : list Z) (fr : frame) : M (frame * bytes * goerror) :=
  m ← deref (mem_Set memOffset size data (f_mem fr)); next (set_f_stack st (set_f_mem m fr)).

Definition opCallDataCopy : executionFunc := fun sc fr =>
  match f_stack fr with
  | memOffset :: dataOffset :: length :: st =>
      data ← deref (getData (x_input sc) (offset64 dataOffset) (u64 length));
      store (u64 memOffset) (u64 length) data st fr
  | _ => panic
  end.

Definition opReturnDataSize : executionFunc := pushes (fun _ fr => Z.of_nat (length (f_returnData fr))).

Definition opReturnDataCopy : executionFunc := fun sc fr =>
  match f_stack fr with
  | memOffset :: dataOffset :: length :: st =>
      let '(offset64, overflow) := u_Uint64WithOverflow dataOffset in
      if overflow then mret (set_f_stack st fr, [], Some ErrReturnDataOutOfBounds)
      else
        let '(end64, overflow) := u_Uint64WithOverflow (u_Add dataOffset length) in
        if overflow || (Z.of_nat (List.length (f_returnData fr)) <? end64)
        then mret (set_f_stack st fr, [], Some ErrReturnDataOutOfBounds)
        else if end64 <? offset64 then panic
        else store (u64 memOffset) (u64 length) (subslice (f_returnData fr) offset64 end64) st fr
  | _ => panic
  end.

Definition opExtCodeSize : executionFunc := asks (fun slot => n ← sdb_GetCodeSize (u_Bytes20 slot); mret (u64 n)).
Definition opCodeSize : executionFunc := pushes (fun sc _ => Z.of_nat (length (c_Code (x_contract sc)))).

Definition opCodeCopy : executionFunc := fun sc fr =>
  match f_stack fr with
  | memOffset :: codeOffset :: length :: st =>
      data ← deref (getData (c_Code (x_contract sc)) (offset64 codeOffset) (u64 length));
      store (u64 memOffset) (u64 length) data st fr
  | _ => panic
  end.

Definition opExtCodeCopy : executionFunc := fun sc fr =>
  match f_stack fr with
  | a :: memOffset :: codeOffset :: length :: st =>
      code ← sdb_GetCode (u_Bytes20 a);
      data ← deref (getData (default [] code) (offset64 codeOffset) (u64 length));
      store (u64 memOffset) (u64 length) data st fr
  | _ => panic
  end.

Definition opExtCodeHash : executionFunc := asks (fun slot =>
  empty ← sdb_Empty (u_Bytes20 slot);
  if empty : bool then mret 0 else sdb_GetCodeHash (u_Bytes20 slot)).

Definition opGasprice : executionFunc := pushes (fun sc _ => u_SetFromBig (evm_GasPrice (x_evm sc))).

Definition opBlockhash : executionFunc := fun sc fr =>
  match f_stack fr with
  | num :: st =>
      let '(num64, overflow) := u_Uint64WithOverflow num in
      let upper := u64 (evm_BlockNumber (x_evm sc)) in
      let lower := if upper <? 257 then 0 else upper - 256 in
      next (set_f_stack ((if negb overflow && (lower <=? num64) && (num64 <? upper)
                          then evm_GetHash (x_evm sc) num64 else 0) :: st) fr)
  | _ => panic
  end.

Definition opCoinbase : executionFunc := pushes (fun sc _ => evm_Coinbase (x_evm sc)).
Definition opTimestamp : executionFunc := pushes (fun sc _ => u_SetFromBig (evm_Time (x_evm sc))).
Definition opNumber : executionFunc := pushes (fun sc _ => u_SetFromBig (evm_BlockNumber (x_evm sc))).
Definition opDifficulty : executionFunc := pushes (fun sc _ => u_SetFromBig (evm_Difficulty (x_evm sc))).
Definition opGasLimit : executionFunc := pushes (fun sc _ => evm_GasLimit (x_evm sc)).
Definition opChainID : executionFunc := pushes (fun sc _ => u_SetFromBig (evm_ChainID (x_evm sc))).
Definition opBaseFee : executionFunc := pushes (fun sc _ => u_SetFromBig (evm_BaseFee (x_evm sc))).
Definition opSelfBalance : executionFunc := fun sc fr =>
  b ← sdb_GetBalance (c_self (x_contract sc)); next (set_f_stack (u_SetFromBig b :: f_stack fr) fr).

(** ** Stack, memory, storage and flow *)

Definition opPop : executionFunc := fun sc fr =>
  match f_stack fr with _ :: st => next (set_f_stack st fr) | _ => panic end.

Definition opMload : executionFunc := fun sc fr =>
  match f_stack fr with
  | v :: st =>
      data ← deref (mem_GetPtr (i64 v) 32 (f_mem fr)); next (set_f_stack (u_SetBytes data :: st) fr)
  | _ => panic
  end.

Definition opMstore : executionFunc := fun sc fr =>
  match f_stack fr with
  | mStart :: val :: st =>
      m ← deref (mem_Set32 (u64 mStart) val (f_mem fr)); next (set_f_stack st (set_f_mem m fr))
  | _ => panic
  end.

(** An assignment to one byte of the memory. *)
Definition mem_SetByte (off b : Z) (m : Memory) : option Memory :=
  if off <? mem_Len m then Some (mkMemory (<[Z.to_nat off := b]> (mem_store m)) (mem_lastGasCost m)) else None.

Definition opMstore8 : executionFunc := fun sc fr =>
  match f_stack fr with
  | off :: val :: st =>
      m ← deref (mem_SetByte (u64 off) (u8 val) (f_mem fr)); next (set_f_stack st (set_f_mem m fr))
  | _ => panic
  end.

Definition opSload : executionFunc := fun sc fr =>
  match f_stack fr with
  | loc :: st => val ← sdb_GetState (c_self (x_contract sc)) loc; next (set_f_stack (val :: st) fr)
  | _ => panic
  end.

Definition opSstore : executionFunc := fun sc fr =>
  match f_stack fr with
  | loc :: val :: st => _ ← sdb_SetState (c_self (x_contract sc)) loc val; next (set_f_stack st fr)
  | _ => panic
  end.

Definition opJump : executionFunc := fun sc fr =>
  match f_stack fr with
  | pos :: st =>
      ok ← deref (validJumpdest (x_contract sc) pos);
      if negb ok then mret (set_f_stack st fr, [], Some ErrInvalidJump)
      else next (set_f_pc (u64 pos) (set_f_stack st fr))
  | _ => panic
  end.

Definition opJumpi : executionFunc := fun sc fr =>
  match f_stack fr with
  | pos :: cond :: st =>
      if negb (cond =? 0) then
        ok ← deref (validJumpdest (x_contract sc) pos);
        if negb ok then mret (set_f_stack st fr, [], Some ErrInvalidJump)
        else next (set_f_pc (u64 pos) (set_f_stack st fr))
      else next (set_f_pc (u64 (f_pc fr + 1)) (set_f_stack st fr))
  | _ => panic
  end.

Definition opJumpdest : executionFunc := fun sc fr => next fr.
Definition opPc : executionFunc := pushes (fun _ fr => f_pc fr).
Definition opMsize : executionFunc := pushes (fun _ fr => mem_Len (f_mem fr)).
Definition opGas : executionFunc := pushes (fun _ fr => f_gas fr).

Definition opPush1 : executionFunc := fun sc fr =>
  let pc := u64 (f_pc fr + 1) in
  next (set_f_pc pc (set_f_stack (default 0 (c_Code (x_contract sc) !! Z.to_nat pc) :: f_stack fr) fr)).

(** The program counter points into the code, so its conversion to [int] is exact. *)
Definition makePush (size pushByteSize : Z) : executionFunc := fun sc fr =>
  let codeLen := Z.of_nat (length (c_Code (x_contract sc))) in
  let startMin := Z.min codeLen (f_pc fr + 1) in
  let endMin := Z.min codeLen (startMin + pushByteSize) in
  let integer := u_SetBytes (RightPadBytes (subslice (c_Code (x_contract sc)) startMin endMin) pushByteSize) in
  next (set_f_pc (u64 (f_pc fr + size)) (set_f_stack (integer :: f_stack fr) fr)).

Definition makeDup (size : nat) : executionFunc := fun sc fr =>
  x ← deref (f_stack fr !! (size - 1)%nat); next (set_f_stack (x :: f_stack fr) fr).

(** The top and the element [size] below it change places. *)
Definition makeSwap (size : nat) : executionFunc := fun sc fr =>
  top ← deref (f_stack fr !! 0%nat);
  x ← deref (f_stack fr !! size);
  next (set_f_stack (<[0%nat := x]> (<[size := top]> (f_stack fr))) fr).

(** ** Calls *)

(** What a call leaves: success or not on the stack, the output in the memory unless the
    call failed otherwise than by a revert, and the gas it returns. *)
Definition after_call (retOffset retSize : Z) (st : list Z) (fr : frame) (res : bytes * Z * goerror)
    : M (frame * bytes * goerror) :=
  let '(ret, returnGas, err) := res in
  m ← (if is_nil err || err_is err ErrExecutionReverted
       then deref (mem_Set (u64 retOffset) (u64 retSize) ret (f_mem fr)) else mret (f_mem fr));
  mret (set_f_gas (u64 (f_gas fr + returnGas))
          (set_f_mem m (set_f_stack (of_bool (is_nil err) :: st) fr)), ret, None).

(** The gas of a call that carries a value is raised by the stipend. *)
Definition stipend (value gas : Z) : Z := if negb (value =? 0) then u64 (gas + CallStipend) else gas.

Definition opCall : executionFunc := fun sc fr =>
  match f_stack fr with
  | _ :: addr :: value :: inOffset :: inSize :: retOffset :: retSize :: st =>
      args ← deref (mem_GetPtr (i64 inOffset) (i64 inSize) (f_mem fr));
      res ← k_Call (x_calls sc) (x_evm sc) (c_Ref (x_contract sc)) (u_Bytes20 addr) args
              (stipend value (f_callGasTemp fr)) value;
      after_call retOffset retSize st fr res
  | _ => panic
  end.

Definition opCallCode : executionFunc := fun sc fr =>
  match f_stack fr with
  | _ :: addr :: value :: inOffset :: inSize :: retOffset :: retSize :: st =>
      args ← deref (mem_GetPtr (i64 inOffset) (i64 inSize) (f_mem fr));
      res ← k_CallCode (x_calls sc) (x_evm sc) (c_Ref (x_contract sc)) (u_Bytes20 addr) args
              (stipend value (f_callGasTemp fr)) value;
      after_call retOffset retSize st fr res
  | _ => panic
  end.

Definition opDelegateCall : executionFunc := fun sc fr =>
  match f_stack fr with
  | _ :: addr :: inOffset :: inSize :: retOffset :: retSize :: st =>
      args ← deref (mem_GetPtr (i64 inOffset) (i64 inSize) (f_mem fr));
      res ← k_DelegateCall (x_calls sc) (x_evm sc) (c_Ref (x_contract sc)) (u_Bytes20 addr) args
              (f_callGasTemp fr);
      after_call retOffset retSize st fr res
  | _ => panic
  end.

Definition opStaticCall : executionFunc := fun sc fr =>
  match f_stack fr with
  | _ :: addr :: inOffset :: inSize :: retOffset :: retSize :: st =>
      args ← deref (mem_GetPtr (i64 inOffset) (i64 inSize) (f_mem fr));
      res ← k_StaticCall (x_calls sc) (x_evm sc) (c_Ref (x_contract sc)) (u_Bytes20 addr) args
              (f_callGasTemp fr);
      after_call retOffset retSize st fr res
  | _ => panic
  end.

(** What a creation leaves: the new address or zero on the stack, and the gas it returns. *)
Definition after_create (failed : goerror -> bool) (gas : Z) (st : list Z) (fr : frame)
    (res : bytes * Address * Z * goerror) : M (frame * bytes * goerror) :=
  let '(ret, addr, returnGas, suberr) := res in
  mret (set_f_gas (u64 (snd (c_UseGas gas (f_gas fr)) + returnGas))
          (set_f_stack ((if failed suberr then 0 else addr) :: st) fr),
        if err_is suberr ErrExecutionReverted then ret else [], None).

Definition create_failed (IsHomestead : bool) (suberr : goerror) : bool :=
  if IsHomestead && err_is suberr ErrCodeStoreOutOfGas then true
  else negb (is_nil suberr) && negb (err_is suberr ErrCodeStoreOutOfGas).

Definition opCreate : executionFunc := fun sc fr =>
  match f_stack fr with
  | value :: offset :: size :: st =>
      input ← deref (mem_GetPtr (i64 offset) (i64 size) (f_mem fr));
      let gas := if evm_IsEIP150 (x_evm sc) then f_gas fr - f_gas fr / 64 else f_gas fr in
      res ← k_Create (x_calls sc) (x_evm sc) (c_Ref (x_contract sc)) input gas value;
      after_create (create_failed (evm_IsHomestead (x_evm sc))) gas st fr res
  | _ => panic
  end.

Definition opCreate2 : executionFunc := fun sc fr =>
  match f_stack fr with
  | endowment :: offset :: size :: salt :: st =>
      input ← deref (mem_GetPtr (i64 offset) (i64 size) (f_mem fr));
      let gas := f_gas fr - f_gas fr / 64 in
      res ← k_Create2 (x_calls sc) (x_evm sc) (c_Ref (x_contract sc)) input gas endowment salt;
      after_create (fun suberr => negb (is_nil suberr)) gas st fr res
  | _ => panic
  end.

(** ** Halting and logs *)

(** Return a part of the memory. *)
Definition output : executionFunc := fun sc fr =>
  match f_stack fr with
  | offset :: size :: st =>
      ret ← deref (mem_GetPtr (i64 offset) (i64 size) (f_mem fr)); mret (set_f_stack st fr, ret, None)
  | _ => panic
  end.

Definition opReturn : executionFunc := output.
Definition opRevert : executionFunc := output.
Definition opStop : executionFunc := fun sc fr => next fr.

Definition opSuicide : executionFunc := fun sc fr =>
  match f_stack fr with
  | beneficiary :: st =>
      balance ← sdb_GetBalance (c_self (x_contract sc));
      _ ← sdb_AddBalance (u_Bytes20 beneficiary) balance;
      _ ← sdb_Suicide (c_self (x_contract sc));
      next (set_f_stack st fr)
  | _ => panic
  end.

Definition makeLog (size : nat) : executionFunc := fun sc fr =>
  match f_stack fr with
  | mStart :: mSize :: st =>
      if (length st <? size)%nat then panic
      else
        d ← deref (mem_GetPtr (i64 mStart) (i64 mSize) (f_mem fr));
        _ ← sdb_AddLog (mkLog (c_self (x_contract sc)) (take size st) d
                          (u64 (evm_BlockNumber (x_evm sc))) 0 0 0);
        next (set_f_stack (drop size st) fr)
  | _ => panic
  end.

(** ** Tokens *)

(** The balance is not written: the account stays on the stack. *)
Definition opNBalanceOf : executionFunc := fun sc fr =>
  match f_stack fr with _ :: _ => next fr | _ => panic end.
Definition opNOwnerOf : executionFunc := asks (fun slot => sdb_GetNFTOwner16 (u_Bytes20 slot)).
Definition opNCreator : executionFunc := asks (fun slot => sdb_GetNFTCreator (u_Bytes20 slot)).
Definition opNIsExist : executionFunc := asks (fun slot =>
  isExist ← sdb_IsExistNFT (u_Bytes20 slot); mret (of_bool isExist)).

End Instructions.
