(* ===== verification/GasTable.v ===== *)
(** The gas of the instructions: [core/vm/gas_table.go], [core/vm/gas.go] and
    [core/vm/operations_acl.go], with the memory sizes of [core/vm/memory_table.go].

    A gas function may change the state (refunds, access list), the price paid for the
    memory, the gas set aside for a call and, for a moment, the gas of the contract, so
    it returns the frame. *)
From stdpp Require Import strings.
From S2P Require Import Prelude Common Params ProtocolParams Wormholes StateTypes State StateDB Staking Evm Machine.

Open Scope Z_scope.

(** ** Memory sizes *)

(** The size for an offset and a length given by their positions on the stack. *)
Definition size_at (off l : nat) : memorySizeFunc := fun st =>
  off ← st !! off; l ← st !! l; Some (calcMemSize64 off l).

Definition memorySha3 : memorySizeFunc := size_at 0 1.
Definition memoryCallDataCopy : memorySizeFunc := size_at 0 2.
Definition memoryReturnDataCopy : memorySizeFunc := size_at 0 2.
Definition memoryCodeCopy : memorySizeFunc := size_at 0 2.
Definition memoryExtCodeCopy : memorySizeFunc := size_at 1 3.
Definition memoryMLoad : memorySizeFunc := fun st => off ← st !! 0%nat; Some (calcMemSize64WithUint off 32).
Definition memoryMStore8 : memorySizeFunc := fun st => off ← st !! 0%nat; Some (calcMemSize64WithUint off 1).
Definition memoryMStore : memorySizeFunc := fun st => off ← st !! 0%nat; Some (calcMemSize64WithUint off 32).
Definition memoryCreate : memorySizeFunc := size_at 1 2.
Definition memoryCreate2 : memorySizeFunc := size_at 1 2.
Definition memoryReturn : memorySizeFunc := size_at 0 1.
Definition memoryRevert : memorySizeFunc := size_at 0 1.
Definition memoryLog : memorySizeFunc := size_at 0 1.

(** The larger of two sizes. *)
Definition larger (f g : memorySizeFunc) : memorySizeFunc := fun st =>
  '(x, overflow) ← f st;
  if overflow : bool then Some (0, true)
  else
    '(y, overflow) ← g st;
    if overflow : bool then Some (0, true)
    else if y <? x then Some (x, false) else Some (y, false).

Definition memoryCall : memorySizeFunc := larger (size_at 5 6) (size_at 3 4).
Definition memoryDelegateCall : memorySizeFunc := larger (size_at 4 5) (size_at 2 3).
Definition memoryStaticCall : memorySizeFunc := larger (size_at 4 5) (size_at 2 3).

(** ** Helpers of the gas functions *)

(** The fee for [words] words of memory. *)
Definition memory_fee (words : Z) : Z := u64 (u64 (words * MemoryGas) + u64 (words * words) / QuadCoeffDiv).

Definition memoryGasCost (mem : Memory) (newMemSize : Z) : outcome Z * Memory :=
  if newMemSize =? 0 then (Ret 0, mem)
  else if 0x1FFFFFFFE0 <? newMemSize then (Err ErrGasUint64Overflow, mem)
  else
    let newMemSizeWords := toWordSize newMemSize in
    let newMemSize := newMemSizeWords * 32 in
    if mem_Len mem <? newMemSize then
      let newTotalFee := memory_fee newMemSizeWords in
      (Ret (u64 (newTotalFee - mem_lastGasCost mem)), mkMemory (mem_store mem) newTotalFee)
    else (Ret 0, mem).

Definition callGas (isEip150 : bool) (availableGas base callCost : Z) : outcome Z :=
  let availableGas := u64 (availableGas - base) in
  let gas := availableGas - availableGas / 64 in
  if isEip150 && (negb (u_IsUint64 callCost) || (gas <? u64 callCost)) then Ret gas
  else if negb (u_IsUint64 callCost) then Err ErrGasUint64Overflow
  else Ret (u64 callCost).

(** [math.SafeAdd] and [math.SafeMul] with the error all callers return. *)
Definition safe_add (x y : Z) : outcome Z :=
  let '(z, overflow) := SafeAdd x y in if overflow then Err ErrGasUint64Overflow else Ret z.
Definition safe_mul (x y : Z) : outcome Z :=
  let '(z, overflow) := SafeMul x y in if overflow then Err ErrGasUint64Overflow else Ret z.
Definition to_uint64 (x : Z) : outcome Z :=
  let '(z, overflow) := u_Uint64WithOverflow x in if overflow then Err ErrGasUint64Overflow else Ret z.

Section GasTable.
  Context {CR : Crypto}.

(** Price the memory first, then go on with the fee. *)
Definition with_memory (memorySize : Z) (fr : frame) (k : Z -> frame -> M (outcome Z * frame))
    : M (outcome Z * frame) :=
  match memoryGasCost (f_mem fr) memorySize with
  | (Ret gas, m) => k gas (set_f_mem m fr)
  | (e, m) => mret (e, set_f_mem m fr)
  end.

Definition back (n : nat) (fr : frame) : M Z := deref (f_stack fr !! n).

(** ** Memory, copies and logs *)

Definition pureMemoryGascost : gasFunc := fun sc fr memorySize =>
  with_memory memorySize fr (fun gas fr => mret (Ret gas, fr)).

Definition gasReturn : gasFunc := pureMemoryGascost.
Definition gasRevert : gasFunc := pureMemoryGascost.
Definition gasMLoad : gasFunc := pureMemoryGascost.
Definition gasMStore8 : gasFunc := pureMemoryGascost.
Definition gasMStore : gasFunc := pureMemoryGascost.
Definition gasCreate : gasFunc := pureMemoryGascost.

(** The memory fee and a price for each word of the operand at [pos]. *)
Definition per_word (pos : nat) (price : Z) : gasFunc := fun sc fr memorySize =>
  with_memory memorySize fr (fun gas fr =>
    l ← back pos fr;
    mret ((l ← to_uint64 l; w ← safe_mul (toWordSize l) price; safe_add gas w), fr)).

Definition memoryCopierGas (stackpos : nat) : gasFunc := per_word stackpos CopyGas.
Definition gasCallDataCopy : gasFunc := memoryCopierGas 2.
Definition gasCodeCopy : gasFunc := memoryCopierGas 2.
Definition gasExtCodeCopy : gasFunc := memoryCopierGas 3.
Definition gasReturnDataCopy : gasFunc := memoryCopierGas 2.
Definition gasSha3 : gasFunc := per_word 1 Sha3WordGas.
Definition gasCreate2 : gasFunc := per_word 2 Sha3WordGas.

Definition makeGasLog (n : Z) : gasFunc := fun sc fr memorySize =>
  l ← back 1 fr;
  match to_uint64 l with
  | Ret requestedSize =>
      with_memory memorySize fr (fun gas fr =>
        mret ((gas ← safe_add gas LogGas; gas ← safe_add gas (n * LogTopicGas);
               memorySizeGas ← safe_mul requestedSize LogDataGas; safe_add gas memorySizeGas), fr))
  | e => mret (e, fr)
  end.

Definition gasExp (ExpByte : Z) : gasFunc := fun sc fr memorySize =>
  e ← back 1 fr;
  let expByteLen := (u_BitLen e + 7) / 8 in
  mret (safe_add (expByteLen * ExpByte) ExpGas, fr).
Definition gasExpFrontier : gasFunc := gasExp ExpByteFrontier.
Definition gasExpEIP158 : gasFunc := gasExp ExpByteEIP158.

(** ** Storage *)

(** The refunds of a write to a slot that was written before in the transaction. *)
Definition dirty_refunds (clear reset_clear reset : Z) (original current value : Hash) : M unit :=
  _ ← (if negb (original =? 0) then
         if current =? 0 then sdb_SubRefund clear
         else if value =? 0 then sdb_AddRefund clear
         else mret tt
       else mret tt);
  if original =? value then if original =? 0 then sdb_AddRefund reset_clear else sdb_AddRefund reset
  else mret tt.

(** The net-metered price of a write: for a write of the present value, for a new slot,
    for an old slot, and for a slot already written; with the refunds. *)
Definition net_metered (noop init clean dirty clear reset_clear reset : Z) (addr : Address)
    (slot current value : Hash) : M Z :=
  if current =? value then mret noop
  else
    original ← sdb_GetCommittedState addr slot;
    if original =? current then
      if original =? 0 then mret init
      else _ ← (if value =? 0 then sdb_AddRefund clear else mret tt); mret clean
    else _ ← dirty_refunds clear reset_clear reset original current value; mret dirty.

Definition gasSStore : gasFunc := fun sc fr memorySize =>
  let addr := c_self (x_contract sc) in
  y ← back 1 fr; x ← back 0 fr;
  current ← sdb_GetState addr x;
  if evm_IsPetersburg (x_evm sc) || negb (evm_IsConstantinople (x_evm sc)) then
    if (current =? 0) && negb (y =? 0) then mret (Ret SstoreSetGas, fr)
    else if negb (current =? 0) && (y =? 0) then
      _ ← sdb_AddRefund SstoreRefundGas; mret (Ret SstoreClearGas, fr)
    else mret (Ret SstoreResetGas, fr)
  else
    gas ← net_metered NetSstoreNoopGas NetSstoreInitGas NetSstoreCleanGas NetSstoreDirtyGas
            NetSstoreClearRefund NetSstoreResetClearRefund NetSstoreResetRefund addr x current y;
    mret (Ret gas, fr).

Definition gasSStoreEIP2200 : gasFunc := fun sc fr memorySize =>
  let addr := c_self (x_contract sc) in
  if f_gas fr <=? SstoreSentryGasEIP2200 then mret (Err "not enough gas for reentrancy sentry", fr)
  else
    y ← back 1 fr; x ← back 0 fr;
    current ← sdb_GetState addr x;
    gas ← net_metered SloadGasEIP2200 SstoreSetGasEIP2200 SstoreResetGasEIP2200 SloadGasEIP2200
            SstoreClearsScheduleRefundEIP2200 (SstoreSetGasEIP2200 - SloadGasEIP2200)
            (SstoreResetGasEIP2200 - SloadGasEIP2200) addr x current y;
    mret (Ret gas, fr).

(** A slot outside the access list costs more, and is put in the list. *)
Definition makeGasSStoreFunc (clearingRefund : Z) : gasFunc := fun sc fr memorySize =>
  let addr := c_self (x_contract sc) in
  if f_gas fr <=? SstoreSentryGasEIP2200 then mret (Err "not enough gas for reentrancy sentry", fr)
  else
    y ← back 1 fr; slot ← back 0 fr;
    current ← sdb_GetState addr slot;
    '(addrPresent, slotPresent) ← sdb_SlotInAccessList addr slot;
    cost ← (if negb slotPresent then
              _ ← sdb_AddSlotToAccessList addr slot;
              if negb addrPresent then panic else mret ColdSloadCostEIP2929
            else mret 0);
    gas ← net_metered WarmStorageReadCostEIP2929 SstoreSetGasEIP2200
            (SstoreResetGasEIP2200 - ColdSloadCostEIP2929) WarmStorageReadCostEIP2929 clearingRefund
            (SstoreSetGasEIP2200 - WarmStorageReadCostEIP2929)
            (SstoreResetGasEIP2200 - ColdSloadCostEIP2929 - WarmStorageReadCostEIP2929)
            addr slot current y;
    mret (Ret (cost + gas), fr).

Definition gasSStoreEIP2929 : gasFunc := makeGasSStoreFunc SstoreClearsScheduleRefundEIP2200.
Definition gasSStoreEIP3529 : gasFunc := makeGasSStoreFunc SstoreClearsScheduleRefundEIP3529.

Definition gasSLoadEIP2929 : gasFunc := fun sc fr memorySize =>
  let addr := c_self (x_contract sc) in
  slot ← back 0 fr;
  '(_, slotPresent) ← sdb_SlotInAccessList addr slot;
  if negb slotPresent then _ ← sdb_AddSlotToAccessList addr slot; mret (Ret ColdSloadCostEIP2929, fr)
  else mret (Ret WarmStorageReadCostEIP2929, fr).

(** ** Accounts *)

Definition gasExtCodeCopyEIP2929 : gasFunc := fun sc fr memorySize =>
  '(gas, fr) ← gasExtCodeCopy sc fr memorySize;
  match gas with
  | Ret gas =>
      a ← back 0 fr;
      warm ← sdb_AddressInAccessList (u_Bytes20 a);
      if negb warm then
        _ ← sdb_AddAddressToAccessList (u_Bytes20 a);
        mret (safe_add gas (ColdAccountAccessCostEIP2929 - WarmStorageReadCostEIP2929), fr)
      else mret (Ret gas, fr)
  | e => mret (e, fr)
  end.

Definition gasEip2929AccountCheck : gasFunc := fun sc fr memorySize =>
  a ← back 0 fr;
  warm ← sdb_AddressInAccessList (u_Bytes20 a);
  if negb warm then
    _ ← sdb_AddAddressToAccessList (u_Bytes20 a);
    mret (Ret (ColdAccountAccessCostEIP2929 - WarmStorageReadCostEIP2929), fr)
  else mret (Ret 0, fr).

(** ** Calls *)

(** The end of all call prices: what the callee gets is set aside and paid. *)
Definition pay_call (gas : outcome Z) (sc : ScopeContext) (fr : frame) : M (outcome Z * frame) :=
  match gas with
  | Ret gas =>
      callCost ← back 0 fr;
      match callGas (evm_IsEIP150 (x_evm sc)) (f_gas fr) gas callCost with
      | Ret callGasTemp => mret (safe_add gas callGasTemp, set_f_callGasTemp callGasTemp fr)
      | e => mret (e, set_f_callGasTemp 0 fr)
      end
  | e => mret (e, fr)
  end.

Definition gasCall : gasFunc := fun sc fr memorySize =>
  value ← back 2 fr; a ← back 1 fr;
  let transfersValue := negb (value =? 0) in
  let address := u_Bytes20 a in
  new ← (if evm_IsEIP158 (x_evm sc) then if transfersValue then sdb_Empty address else mret false
         else exist ← sdb_Exist address; mret (negb exist));
  let gas := (if new : bool then CallNewAccountGas else 0)
             + (if transfersValue then CallValueTransferGas else 0) in
  with_memory memorySize fr (fun memoryGas fr => pay_call (safe_add gas memoryGas) sc fr).

Definition gasCallCode : gasFunc := fun sc fr memorySize =>
  with_memory memorySize fr (fun memoryGas fr =>
    value ← back 2 fr;
    pay_call (safe_add (if negb (value =? 0) then CallValueTransferGas else 0) memoryGas) sc fr).

Definition gasDelegateCall : gasFunc := fun sc fr memorySize =>
  with_memory memorySize fr (fun gas fr => pay_call (Ret gas) sc fr).
Definition gasStaticCall : gasFunc := fun sc fr memorySize =>
  with_memory memorySize fr (fun gas fr => pay_call (Ret gas) sc fr).

(** A cold address is paid before the share of the callee is worked out; the payment is
    then put back and added to the price. *)
Definition makeCallVariantGasCallEIP2929 (oldCalculator : gasFunc) : gasFunc := fun sc fr memorySize =>
  a ← back 1 fr;
  warmAccess ← sdb_AddressInAccessList (u_Bytes20 a);
  let coldCost := ColdAccountAccessCostEIP2929 - WarmStorageReadCostEIP2929 in
  if warmAccess : bool then oldCalculator sc fr memorySize
  else
    _ ← sdb_AddAddressToAccessList (u_Bytes20 a);
    match c_UseGas coldCost (f_gas fr) with
    | (false, _) => mret (Err ErrOutOfGas, fr)
    | (true, rest) =>
        '(gas, fr) ← oldCalculator sc (set_f_gas rest fr) memorySize;
        match gas with
        | Ret gas => mret (Ret (u64 (gas + coldCost)), set_f_gas (u64 (f_gas fr + coldCost)) fr)
        | e => mret (e, fr)
        end
    end.

Definition gasCallEIP2929 : gasFunc := makeCallVariantGasCallEIP2929 gasCall.
Definition gasDelegateCallEIP2929 : gasFunc := makeCallVariantGasCallEIP2929 gasDelegateCall.
Definition gasStaticCallEIP2929 : gasFunc := makeCallVariantGasCallEIP2929 gasStaticCall.
Definition gasCallCodeEIP2929 : gasFunc := makeCallVariantGasCallEIP2929 gasCallCode.

(** ** Self-destruction *)

(** Whether the beneficiary is new: empty, and something is sent to it. *)
Definition empty_and_paid (address self : Address) : M bool :=
  empty ← sdb_Empty address;
  if empty : bool then balance ← sdb_GetBalance self; mret (negb (balance =? 0)) else mret false.

(** The refund for the first self-destruction of a contract. *)
Definition refund_suicide (self : Address) : M unit :=
  suicided ← sdb_HasSuicided self;
  if negb suicided then sdb_AddRefund SelfdestructRefundGas else mret tt.

Definition gasSelfdestruct : gasFunc := fun sc fr memorySize =>
  let self := c_self (x_contract sc) in
  gas ← (if evm_IsEIP150 (x_evm sc) then
           a ← back 0 fr;
           new ← (if evm_IsEIP158 (x_evm sc) then empty_and_paid (u_Bytes20 a) self
                  else exist ← sdb_Exist (u_Bytes20 a); mret (negb exist));
           mret (SelfdestructGasEIP150 + if new : bool then CreateBySelfdestructGas else 0)
         else mret 0);
  _ ← refund_suicide self;
  mret (Ret gas, fr).

Definition makeSelfdestructGasFn (refundsEnabled : bool) : gasFunc := fun sc fr memorySize =>
  let self := c_self (x_contract sc) in
  a ← back 0 fr;
  warm ← sdb_AddressInAccessList (u_Bytes20 a);
  _ ← (if negb warm then sdb_AddAddressToAccessList (u_Bytes20 a) else mret tt);
  new ← empty_and_paid (u_Bytes20 a) self;
  _ ← (if refundsEnabled then refund_suicide self else mret tt);
  mret (Ret ((if negb warm then ColdAccountAccessCostEIP2929 else 0)
             + if new : bool then CreateBySelfdestructGas else 0), fr).

Definition gasSelfdestructEIP2929 : gasFunc := makeSelfdestructGasFn true.
Definition gasSelfdestructEIP3529 : gasFunc := makeSelfdestructGasFn false.

End GasTable.
