(* ===== verification/JumpTable.v ===== *)
(** The byte-code tables: [core/vm/jump_table.go] and [core/vm/eips.go], with the opcodes of
    [core/vm/opcodes.go] and the stack limits of [core/vm/stack_table.go].

    A table maps an opcode to its operation.  The Go literal of an operation is written
    here as [op execute constantGas pops pushes], which fills in the stack limits,
    followed from the outside by the other fields it sets.  The second part is the induction
    over the tables by which a property is shown of all operations. *)
From stdpp Require Import strings.
From S2P Require Import Prelude Common Params ProtocolParams Wormholes StateTypes Evm Machine Instructions GasTable.

Open Scope Z_scope.

(** ** Opcodes *)

Module Op.

Definition STOP : Z := 0x00.
Definition ADD : Z := 0x01.
Definition MUL : Z := 0x02.
Definition SUB : Z := 0x03.
Definition DIV : Z := 0x04.
Definition SDIV : Z := 0x05.
Definition MOD : Z := 0x06.
Definition SMOD : Z := 0x07.
Definition ADDMOD : Z := 0x08.
Definition MULMOD : Z := 0x09.
Definition EXP : Z := 0x0a.
Definition SIGNEXTEND : Z := 0x0b.
Definition LT : Z := 0x10.
Definition GT : Z := 0x11.
Definition SLT : Z := 0x12.
Definition SGT : Z := 0x13.
Definition EQ : Z := 0x14.
Definition ISZERO : Z := 0x15.
Definition AND : Z := 0x16.
Definition OR : Z := 0x17.
Definition XOR : Z := 0x18.
Definition NOT : Z := 0x19.
Definition BYTE : Z := 0x1a.
Definition SHL : Z := 0x1b.
Definition SHR : Z := 0x1c.
Definition SAR : Z := 0x1d.
Definition SHA3 : Z := 0x20.
Definition ADDRESS : Z := 0x30.
Definition BALANCE : Z := 0x31.
Definition ORIGIN : Z := 0x32.
Definition CALLER : Z := 0x33.
Definition CALLVALUE : Z := 0x34.
Definition CALLDATALOAD : Z := 0x35.
Definition CALLDATASIZE : Z := 0x36.
Definition CALLDATACOPY : Z := 0x37.
Definition CODESIZE : Z := 0x38.
Definition CODECOPY : Z := 0x39.
Definition GASPRICE : Z := 0x3a.
Definition EXTCODESIZE : Z := 0x3b.
Definition EXTCODECOPY : Z := 0x3c.
Definition RETURNDATASIZE : Z := 0x3d.
Definition RETURNDATACOPY : Z := 0x3e.
Definition EXTCODEHASH : Z := 0x3f.
Definition BLOCKHASH : Z := 0x40.
Definition COINBASE : Z := 0x41.
Definition TIMESTAMP : Z := 0x42.
Definition NUMBER : Z := 0x43.
Definition DIFFICULTY : Z := 0x44.
Definition GASLIMIT : Z := 0x45.
Definition CHAINID : Z := 0x46.
Definition SELFBALANCE : Z := 0x47.
Definition BASEFEE : Z := 0x48.
Definition POP : Z := 0x50.
Definition MLOAD : Z := 0x51.
Definition MSTORE : Z := 0x52.
Definition MSTORE8 : Z := 0x53.
Definition SLOAD : Z := 0x54.
Definition SSTORE : Z := 0x55.
Definition JUMP : Z := 0x56.
Definition JUMPI : Z := 0x57.
Definition PC : Z := 0x58.
Definition MSIZE : Z := 0x59.
Definition GAS : Z := 0x5a.
Definition JUMPDEST : Z := 0x5b.
Definition PUSH1 : Z := 0x60.
Definition PUSH2 : Z := 0x61.
Definition PUSH3 : Z := 0x62.
Definition PUSH4 : Z := 0x63.
Definition PUSH5 : Z := 0x64.
Definition PUSH6 : Z := 0x65.
Definition PUSH7 : Z := 0x66.
Definition PUSH8 : Z := 0x67.
Definition PUSH9 : Z := 0x68.
Definition PUSH10 : Z := 0x69.
Definition PUSH11 : Z := 0x6a.
Definition PUSH12 : Z := 0x6b.
Definition PUSH13 : Z := 0x6c.
Definition PUSH14 : Z := 0x6d.
Definition PUSH15 : Z := 0x6e.
Definition PUSH16 : Z := 0x6f.
Definition PUSH17 : Z := 0x70.
Definition PUSH18 : Z := 0x71.
Definition PUSH19 : Z := 0x72.
Definition PUSH20 : Z := 0x73.
Definition PUSH21 : Z := 0x74.
Definition PUSH22 : Z := 0x75.
Definition PUSH23 : Z := 0x76.
Definition PUSH24 : Z := 0x77.
Definition PUSH25 : Z := 0x78.
Definition PUSH26 : Z := 0x79.
Definition PUSH27 : Z := 0x7a.
Definition PUSH28 : Z := 0x7b.
Definition PUSH29 : Z := 0x7c.
Definition PUSH30 : Z := 0x7d.
Definition PUSH31 : Z := 0x7e.
Definition PUSH32 : Z := 0x7f.
Definition DUP1 : Z := 0x80.
Definition DUP2 : Z := 0x81.
Definition DUP3 : Z := 0x82.
Definition DUP4 : Z := 0x83.
Definition DUP5 : Z := 0x84.
Definition DUP6 : Z := 0x85.
Definition DUP7 : Z := 0x86.
Definition DUP8 : Z := 0x87.
Definition DUP9 : Z := 0x88.
Definition DUP10 : Z := 0x89.
Definition DUP11 : Z := 0x8a.
Definition DUP12 : Z := 0x8b.
Definition DUP13 : Z := 0x8c.
Definition DUP14 : Z := 0x8d.
Definition DUP15 : Z := 0x8e.
Definition DUP16 : Z := 0x8f.
Definition SWAP1 : Z := 0x90.
Definition SWAP2 : Z := 0x91.
Definition SWAP3 : Z := 0x92.
Definition SWAP4 : Z := 0x93.
Definition SWAP5 : Z := 0x94.
Definition SWAP6 : Z := 0x95.
Definition SWAP7 : Z := 0x96.
Definition SWAP8 : Z := 0x97.
Definition SWAP9 : Z := 0x98.
Definition SWAP10 : Z := 0x99.
Definition SWAP11 : Z := 0x9a.
Definition SWAP12 : Z := 0x9b.
Definition SWAP13 : Z := 0x9c.
Definition SWAP14 : Z := 0x9d.
Definition SWAP15 : Z := 0x9e.
Definition SWAP16 : Z := 0x9f.
Definition LOG0 : Z := 0xa0.
Definition LOG1 : Z := 0xa1.
Definition LOG2 : Z := 0xa2.
Definition LOG3 : Z := 0xa3.
Definition LOG4 : Z := 0xa4.
Definition PUSH : Z := 0xb0.
Definition DUP : Z := 0xb1.
Definition SWAP : Z := 0xb2.
Definition NBALANCEOF : Z := 0xb6.
Definition NOWNEROF : Z := 0xb7.
Definition NTRANSFERFROM : Z := 0xb8.
Definition NAPPROVE : Z := 0xb9.
Definition NSETAPPROVALFORALL : Z := 0xba.
Definition NGETAPPROVED : Z := 0xbb.
Definition NISAPPROVEDFORALL : Z := 0xbc.
Definition NTOKENURI : Z := 0xbd.
Definition NMINT : Z := 0xbe.
Definition NNAME : Z := 0xbf.
Definition NSYMBOL : Z := 0xc0.
Definition NCREATOR : Z := 0xc1.
Definition NISEXIST : Z := 0xc2.
Definition NROALTYRATIO : Z := 0xc3.
Definition CREATE : Z := 0xf0.
Definition CALL : Z := 0xf1.
Definition CALLCODE : Z := 0xf2.
Definition RETURN : Z := 0xf3.
Definition DELEGATECALL : Z := 0xf4.
Definition CREATE2 : Z := 0xf5.
Definition STATICCALL : Z := 0xfa.
Definition REVERT : Z := 0xfd.
Definition SELFDESTRUCT : Z := 0xff.

End Op.

(** ** Operations *)

Definition GasQuickStep : Z := 2.
Definition GasFastestStep : Z := 3.
Definition GasFastStep : Z := 5.
Definition GasMidStep : Z := 8.
Definition GasSlowStep : Z := 10.
Definition GasExtStep : Z := 20.

Definition minStack (pops push : Z) : Z := pops.
Definition maxStack (pop push : Z) : Z := StackLimit + pop - push.

Record operation : Type := mkOperation {
  o_execute : executionFunc;
  o_constantGas : Z;
  o_dynamicGas : option gasFunc;
  o_minStack : Z;
  o_maxStack : Z;
  o_memorySize : option memorySizeFunc;
  o_halts : bool;
  o_jumps : bool;
  o_writes : bool;
  o_reverts : bool;
  o_returns : bool;
}.

Definition op (execute : executionFunc) (constantGas pops pushes : Z) : operation :=
  mkOperation execute constantGas None (minStack pops pushes) (maxStack pops pushes) None
    false false false false false.
Definition charging (gas : Z) (o : operation) : operation :=
  mkOperation (o_execute o) gas (o_dynamicGas o) (o_minStack o) (o_maxStack o) (o_memorySize o)
    (o_halts o) (o_jumps o) (o_writes o) (o_reverts o) (o_returns o).
Definition dynamic (g : gasFunc) (o : operation) : operation :=
  mkOperation (o_execute o) (o_constantGas o) (Some g) (o_minStack o) (o_maxStack o) (o_memorySize o)
    (o_halts o) (o_jumps o) (o_writes o) (o_reverts o) (o_returns o).
Definition sized (m : memorySizeFunc) (o : operation) : operation :=
  mkOperation (o_execute o) (o_constantGas o) (o_dynamicGas o) (o_minStack o) (o_maxStack o) (Some m)
    (o_halts o) (o_jumps o) (o_writes o) (o_reverts o) (o_returns o).
Definition halting (o : operation) : operation :=
  mkOperation (o_execute o) (o_constantGas o) (o_dynamicGas o) (o_minStack o) (o_maxStack o)
    (o_memorySize o) true (o_jumps o) (o_writes o) (o_reverts o) (o_returns o).
Definition jumping (o : operation) : operation :=
  mkOperation (o_execute o) (o_constantGas o) (o_dynamicGas o) (o_minStack o) (o_maxStack o)
    (o_memorySize o) (o_halts o) true (o_writes o) (o_reverts o) (o_returns o).
Definition writing (o : operation) : operation :=
  mkOperation (o_execute o) (o_constantGas o) (o_dynamicGas o) (o_minStack o) (o_maxStack o)
    (o_memorySize o) (o_halts o) (o_jumps o) true (o_reverts o) (o_returns o).
Definition reverting (o : operation) : operation :=
  mkOperation (o_execute o) (o_constantGas o) (o_dynamicGas o) (o_minStack o) (o_maxStack o)
    (o_memorySize o) (o_halts o) (o_jumps o) (o_writes o) true (o_returns o).
Definition returning (o : operation) : operation :=
  mkOperation (o_execute o) (o_constantGas o) (o_dynamicGas o) (o_minStack o) (o_maxStack o)
    (o_memorySize o) (o_halts o) (o_jumps o) (o_writes o) (o_reverts o) true.

(** A table, and the two ways it is changed. *)
Notation JumpTable := (gmap Z operation) (only parsing).

Definition define (code : Z) (o : operation) (jt : JumpTable) : JumpTable := <[code := o]> jt.
Definition adjust (code : Z) (f : operation -> operation) (jt : JumpTable) : JumpTable := alter f code jt.

Section JumpTable.
  Context {CR : Crypto} {U : Uint256}.

(** ** Frontier *)

(** Arithmetic. *)
Definition frontier_arithmetic : list (Z * operation) :=
  [(Op.STOP, halting (op opStop 0 0 0));
   (Op.ADD, op opAdd GasFastestStep 2 1);
   (Op.MUL, op opMul GasFastStep 2 1);
   (Op.SUB, op opSub GasFastestStep 2 1);
   (Op.DIV, op opDiv GasFastStep 2 1);
   (Op.SDIV, op opSdiv GasFastStep 2 1);
   (Op.MOD, op opMod GasFastStep 2 1);
   (Op.SMOD, op opSmod GasFastStep 2 1);
   (Op.ADDMOD, op opAddmod GasMidStep 3 1);
   (Op.MULMOD, op opMulmod GasMidStep 3 1);
   (Op.EXP, dynamic gasExpFrontier (op opExp 0 2 1));
   (Op.SIGNEXTEND, op opSignExtend GasFastStep 2 1)].

(** Comparison and bits. *)
Definition frontier_comparison : list (Z * operation) :=
  [(Op.LT, op opLt GasFastestStep 2 1);
   (Op.GT, op opGt GasFastestStep 2 1);
   (Op.SLT, op opSlt GasFastestStep 2 1);
   (Op.SGT, op opSgt GasFastestStep 2 1);
   (Op.EQ, op opEq GasFastestStep 2 1);
   (Op.ISZERO, op opIszero GasFastestStep 1 1);
   (Op.AND, op opAnd GasFastestStep 2 1);
   (Op.XOR, op opXor GasFastestStep 2 1);
   (Op.OR, op opOr GasFastestStep 2 1);
   (Op.NOT, op opNot GasFastestStep 1 1);
   (Op.BYTE, op opByte GasFastestStep 2 1)].

(** Hashing and context. *)
Definition frontier_context : list (Z * operation) :=
  [(Op.SHA3, dynamic gasSha3 (sized memorySha3 (op opSha3 Sha3Gas 2 1)));
   (Op.ADDRESS, op opAddress GasQuickStep 0 1);
   (Op.BALANCE, op opBalance BalanceGasFrontier 1 1);
   (Op.ORIGIN, op opOrigin GasQuickStep 0 1);
   (Op.CALLER, op opCaller GasQuickStep 0 1);
   (Op.CALLVALUE, op opCallValue GasQuickStep 0 1);
   (Op.CALLDATALOAD, op opCallDataLoad GasFastestStep 1 1);
   (Op.CALLDATASIZE, op opCallDataSize GasQuickStep 0 1);
   (Op.CALLDATACOPY, dynamic gasCallDataCopy (sized memoryCallDataCopy (op opCallDataCopy GasFastestStep 3 0)));
   (Op.CODESIZE, op opCodeSize GasQuickStep 0 1);
   (Op.CODECOPY, dynamic gasCodeCopy (sized memoryCodeCopy (op opCodeCopy GasFastestStep 3 0)));
   (Op.GASPRICE, op opGasprice GasQuickStep 0 1);
   (Op.EXTCODESIZE, op opExtCodeSize ExtcodeSizeGasFrontier 1 1);
   (Op.EXTCODECOPY, dynamic gasExtCodeCopy (sized memoryExtCodeCopy (op opExtCodeCopy ExtcodeCopyBaseFrontier 4 0)))].

(** The block. *)
Definition frontier_block : list (Z * operation) :=
  [(Op.BLOCKHASH, op opBlockhash GasExtStep 1 1);
   (Op.COINBASE, op opCoinbase GasQuickStep 0 1);
   (Op.TIMESTAMP, op opTimestamp GasQuickStep 0 1);
   (Op.NUMBER, op opNumber GasQuickStep 0 1);
   (Op.DIFFICULTY, op opDifficulty GasQuickStep 0 1);
   (Op.GASLIMIT, op opGasLimit GasQuickStep 0 1)].

(** Memory, storage and flow. *)
Definition frontier_storage : list (Z * operation) :=
  [(Op.POP, op opPop GasQuickStep 1 0);
   (Op.MLOAD, dynamic gasMLoad (sized memoryMLoad (op opMload GasFastestStep 1 1)));
   (Op.MSTORE, dynamic gasMStore (sized memoryMStore (op opMstore GasFastestStep 2 0)));
   (Op.MSTORE8, dynamic gasMStore8 (sized memoryMStore8 (op opMstore8 GasFastestStep 2 0)));
   (Op.SLOAD, op opSload SloadGasFrontier 1 1);
   (Op.SSTORE, dynamic gasSStore (writing (op opSstore 0 2 0)));
   (Op.JUMP, jumping (op opJump GasMidStep 1 0));
   (Op.JUMPI, jumping (op opJumpi GasSlowStep 2 0));
   (Op.PC, op opPc GasQuickStep 0 1);
   (Op.MSIZE, op opMsize GasQuickStep 0 1);
   (Op.GAS, op opGas GasQuickStep 0 1);
   (Op.JUMPDEST, op opJumpdest JumpdestGas 0 0)].

(** Constants of up to 16 bytes. *)
Definition frontier_push_low : list (Z * operation) :=
  [(Op.PUSH1, op opPush1 GasFastestStep 0 1);
   (Op.PUSH2, op (makePush 2 2) GasFastestStep 0 1);
   (Op.PUSH3, op (makePush 3 3) GasFastestStep 0 1);
   (Op.PUSH4, op (makePush 4 4) GasFastestStep 0 1);
   (Op.PUSH5, op (makePush 5 5) GasFastestStep 0 1);
   (Op.PUSH6, op (makePush 6 6) GasFastestStep 0 1);
   (Op.PUSH7, op (makePush 7 7) GasFastestStep 0 1);
   (Op.PUSH8, op (makePush 8 8) GasFastestStep 0 1);
   (Op.PUSH9, op (makePush 9 9) GasFastestStep 0 1);
   (Op.PUSH10, op (makePush 10 10) GasFastestStep 0 1);
   (Op.PUSH11, op (makePush 11 11) GasFastestStep 0 1);
   (Op.PUSH12, op (makePush 12 12) GasFastestStep 0 1);
   (Op.PUSH13, op (makePush 13 13) GasFastestStep 0 1);
   (Op.PUSH14, op (makePush 14 14) GasFastestStep 0 1);
   (Op.PUSH15, op (makePush 15 15) GasFastestStep 0 1);
   (Op.PUSH16, op (makePush 16 16) GasFastestStep 0 1)].

(** Constants of up to 32 bytes. *)
Definition frontier_push_high : list (Z * operation) :=
  [(Op.PUSH17, op (makePush 17 17) GasFastestStep 0 1);
   (Op.PUSH18, op (makePush 18 18) GasFastestStep 0 1);
   (Op.PUSH19, op (makePush 19 19) GasFastestStep 0 1);
   (Op.PUSH20, op (makePush 20 20) GasFastestStep 0 1);
   (Op.PUSH21, op (makePush 21 21) GasFastestStep 0 1);
   (Op.PUSH22, op (makePush 22 22) GasFastestStep 0 1);
   (Op.PUSH23, op (makePush 23 23) GasFastestStep 0 1);
   (Op.PUSH24, op (makePush 24 24) GasFastestStep 0 1);
   (Op.PUSH25, op (makePush 25 25) GasFastestStep 0 1);
   (Op.PUSH26, op (makePush 26 26) GasFastestStep 0 1);
   (Op.PUSH27, op (makePush 27 27) GasFastestStep 0 1);
   (Op.PUSH28, op (makePush 28 28) GasFastestStep 0 1);
   (Op.PUSH29, op (makePush 29 29) GasFastestStep 0 1);
   (Op.PUSH30, op (makePush 30 30) GasFastestStep 0 1);
   (Op.PUSH31, op (makePush 31 31) GasFastestStep 0 1);
   (Op.PUSH32, op (makePush 32 32) GasFastestStep 0 1)].

(** Copies. *)
Definition frontier_dup : list (Z * operation) :=
  [(Op.DUP1, op (makeDup 1) GasFastestStep 1 2);
   (Op.DUP2, op (makeDup 2) GasFastestStep 2 3);
   (Op.DUP3, op (makeDup 3) GasFastestStep 3 4);
   (Op.DUP4, op (makeDup 4) GasFastestStep 4 5);
   (Op.DUP5, op (makeDup 5) GasFastestStep 5 6);
   (Op.DUP6, op (makeDup 6) GasFastestStep 6 7);
   (Op.DUP7, op (makeDup 7) GasFastestStep 7 8);
   (Op.DUP8, op (makeDup 8) GasFastestStep 8 9);
   (Op.DUP9, op (makeDup 9) GasFastestStep 9 10);
   (Op.DUP10, op (makeDup 10) GasFastestStep 10 11);
   (Op.DUP11, op (makeDup 11) GasFastestStep 11 12);
   (Op.DUP12, op (makeDup 12) GasFastestStep 12 13);
   (Op.DUP13, op (makeDup 13) GasFastestStep 13 14);
   (Op.DUP14, op (makeDup 14) GasFastestStep 14 15);
   (Op.DUP15, op (makeDup 15) GasFastestStep 15 16);
   (Op.DUP16, op (makeDup 16) GasFastestStep 16 17)].

(** Exchanges. *)
Definition frontier_swap : list (Z * operation) :=
  [(Op.SWAP1, op (makeSwap 1) GasFastestStep 2 2);
   (Op.SWAP2, op (makeSwap 2) GasFastestStep 3 3);
   (Op.SWAP3, op (makeSwap 3) GasFastestStep 4 4);
   (Op.SWAP4, op (makeSwap 4) GasFastestStep 5 5);
   (Op.SWAP5, op (makeSwap 5) GasFastestStep 6 6);
   (Op.SWAP6, op (makeSwap 6) GasFastestStep 7 7);
   (Op.SWAP7, op (makeSwap 7) GasFastestStep 8 8);
   (Op.SWAP8, op (makeSwap 8) GasFastestStep 9 9);
   (Op.SWAP9, op (makeSwap 9) GasFastestStep 10 10);
   (Op.SWAP10, op (makeSwap 10) GasFastestStep 11 11);
   (Op.SWAP11, op (makeSwap 11) GasFastestStep 12 12);
   (Op.SWAP12, op (makeSwap 12) GasFastestStep 13 13);
   (Op.SWAP13, op (makeSwap 13) GasFastestStep 14 14);
   (Op.SWAP14, op (makeSwap 14) GasFastestStep 15 15);
   (Op.SWAP15, op (makeSwap 15) GasFastestStep 16 16);
   (Op.SWAP16, op (makeSwap 16) GasFastestStep 17 17)].

(** Logs. *)
Definition frontier_log : list (Z * operation) :=
  [(Op.LOG0, dynamic (makeGasLog 0) (sized memoryLog (writing (op (makeLog 0) 0 2 0))));
   (Op.LOG1, dynamic (makeGasLog 1) (sized memoryLog (writing (op (makeLog 1) 0 3 0))));
   (Op.LOG2, dynamic (makeGasLog 2) (sized memoryLog (writing (op (makeLog 2) 0 4 0))));
   (Op.LOG3, dynamic (makeGasLog 3) (sized memoryLog (writing (op (makeLog 3) 0 5 0))));
   (Op.LOG4, dynamic (makeGasLog 4) (sized memoryLog (writing (op (makeLog 4) 0 6 0))))].

(** Tokens. *)
Definition frontier_nft : list (Z * operation) :=
  [(Op.NBALANCEOF, op opNBalanceOf GasExtStep 1 1);
   (Op.NOWNEROF, op opNOwnerOf GasExtStep 1 1);
   (Op.NCREATOR, op opNCreator GasExtStep 1 1);
   (Op.NISEXIST, op opNIsExist GasExtStep 1 1)].

(** Calls and halting. *)
Definition frontier_call : list (Z * operation) :=
  [(Op.CREATE, dynamic gasCreate (sized memoryCreate (writing (returning (op opCreate CreateGas 3 1)))));
   (Op.CALL, dynamic gasCall (sized memoryCall (returning (op opCall CallGasFrontier 7 1))));
   (Op.CALLCODE, dynamic gasCallCode (sized memoryCall (returning (op opCallCode CallGasFrontier 7 1))));
   (Op.RETURN, dynamic gasReturn (sized memoryReturn (halting (op opReturn 0 2 0))));
   (Op.SELFDESTRUCT, dynamic gasSelfdestruct (halting (writing (op opSuicide 0 1 0))))].

Definition newFrontierInstructionSet : JumpTable :=
  list_to_map (frontier_arithmetic ++ frontier_comparison ++ frontier_context ++ frontier_block
    ++ frontier_storage ++ frontier_push_low ++ frontier_push_high ++ frontier_dup ++ frontier_swap
    ++ frontier_log ++ frontier_nft ++ frontier_call).

(** ** Later rules *)

Definition newHomesteadInstructionSet : JumpTable :=
  define Op.DELEGATECALL
    (dynamic gasDelegateCall (sized memoryDelegateCall (returning (op opDelegateCall CallGasFrontier 6 1))))
    newFrontierInstructionSet.

Definition newTangerineWhistleInstructionSet : JumpTable :=
  let jt := newHomesteadInstructionSet in
  let jt := adjust Op.BALANCE (charging BalanceGasEIP150) jt in
  let jt := adjust Op.EXTCODESIZE (charging ExtcodeSizeGasEIP150) jt in
  let jt := adjust Op.SLOAD (charging SloadGasEIP150) jt in
  let jt := adjust Op.EXTCODECOPY (charging ExtcodeCopyBaseEIP150) jt in
  let jt := adjust Op.CALL (charging CallGasEIP150) jt in
  let jt := adjust Op.CALLCODE (charging CallGasEIP150) jt in
  adjust Op.DELEGATECALL (charging CallGasEIP150) jt.

Definition newSpuriousDragonInstructionSet : JumpTable :=
  adjust Op.EXP (dynamic gasExpEIP158) newTangerineWhistleInstructionSet.

Definition newByzantiumInstructionSet : JumpTable :=
  let jt := newSpuriousDragonInstructionSet in
  let jt := define Op.STATICCALL
    (dynamic gasStaticCall (sized memoryStaticCall (returning (op opStaticCall CallGasEIP150 6 1)))) jt in
  let jt := define Op.RETURNDATASIZE (op opReturnDataSize GasQuickStep 0 1) jt in
  let jt := define Op.RETURNDATACOPY
    (dynamic gasReturnDataCopy (sized memoryReturnDataCopy (op opReturnDataCopy GasFastestStep 3 0))) jt in
  define Op.REVERT (dynamic gasRevert (sized memoryRevert (reverting (returning (op opRevert 0 2 0))))) jt.

Definition newConstantinopleInstructionSet : JumpTable :=
  let jt := newByzantiumInstructionSet in
  let jt := define Op.SHL (op opSHL GasFastestStep 2 1) jt in
  let jt := define Op.SHR (op opSHR GasFastestStep 2 1) jt in
  let jt := define Op.SAR (op opSAR GasFastestStep 2 1) jt in
  let jt := define Op.EXTCODEHASH (op opExtCodeHash ExtcodeHashGasConstantinople 1 1) jt in
  define Op.CREATE2
    (dynamic gasCreate2 (sized memoryCreate2 (writing (returning (op opCreate2 Create2Gas 4 1))))) jt.

Definition enable1344 (jt : JumpTable) : JumpTable := define Op.CHAINID (op opChainID GasQuickStep 0 1) jt.

Definition enable1884 (jt : JumpTable) : JumpTable :=
  let jt := adjust Op.SLOAD (charging SloadGasEIP1884) jt in
  let jt := adjust Op.BALANCE (charging BalanceGasEIP1884) jt in
  let jt := adjust Op.EXTCODEHASH (charging ExtcodeHashGasEIP1884) jt in
  define Op.SELFBALANCE (op opSelfBalance GasFastStep 0 1) jt.

Definition enable2200 (jt : JumpTable) : JumpTable :=
  adjust Op.SSTORE (dynamic gasSStoreEIP2200) (adjust Op.SLOAD (charging SloadGasEIP2200) jt).

Definition newIstanbulInstructionSet : JumpTable :=
  enable2200 (enable1884 (enable1344 newConstantinopleInstructionSet)).

Definition enable2929 (jt : JumpTable) : JumpTable :=
  let warm := charging WarmStorageReadCostEIP2929 in
  let jt := adjust Op.SSTORE (dynamic gasSStoreEIP2929) jt in
  let jt := adjust Op.SLOAD (fun o => dynamic gasSLoadEIP2929 (charging 0 o)) jt in
  let jt := adjust Op.EXTCODECOPY (fun o => dynamic gasExtCodeCopyEIP2929 (warm o)) jt in
  let jt := adjust Op.EXTCODESIZE (fun o => dynamic gasEip2929AccountCheck (warm o)) jt in
  let jt := adjust Op.EXTCODEHASH (fun o => dynamic gasEip2929AccountCheck (warm o)) jt in
  let jt := adjust Op.BALANCE (fun o => dynamic gasEip2929AccountCheck (warm o)) jt in
  let jt := adjust Op.CALL (fun o => dynamic gasCallEIP2929 (warm o)) jt in
  let jt := adjust Op.CALLCODE (fun o => dynamic gasCallCodeEIP2929 (warm o)) jt in
  let jt := adjust Op.STATICCALL (fun o => dynamic gasStaticCallEIP2929 (warm o)) jt in
  let jt := adjust Op.DELEGATECALL (fun o => dynamic gasDelegateCallEIP2929 (warm o)) jt in
  adjust Op.SELFDESTRUCT (fun o => dynamic gasSelfdestructEIP2929 (charging SelfdestructGasEIP150 o)) jt.

Definition newBerlinInstructionSet : JumpTable := enable2929 newIstanbulInstructionSet.

Definition enable3529 (jt : JumpTable) : JumpTable :=
  adjust Op.SELFDESTRUCT (dynamic gasSelfdestructEIP3529) (adjust Op.SSTORE (dynamic gasSStoreEIP3529) jt).

Definition enable3198 (jt : JumpTable) : JumpTable := define Op.BASEFEE (op opBaseFee GasQuickStep 0 1) jt.

Definition newLondonInstructionSet : JumpTable := enable3198 (enable3529 newBerlinInstructionSet).

(** The table of the rules in force ([NewEVMInterpreter] without extra EIPs). *)
Definition jump_table (evm : EVM) : JumpTable :=
  if evm_IsLondon evm then newLondonInstructionSet
  else if evm_IsBerlin evm then newBerlinInstructionSet
  else if evm_IsIstanbul evm then newIstanbulInstructionSet
  else if evm_IsConstantinople evm then newConstantinopleInstructionSet
  else if evm_IsByzantium evm then newByzantiumInstructionSet
  else if evm_IsEIP158 evm then newSpuriousDragonInstructionSet
  else if evm_IsEIP150 evm then newTangerineWhistleInstructionSet
  else if evm_IsHomestead evm then newHomesteadInstructionSet
  else newFrontierInstructionSet.

End JumpTable.

(** * Induction over the byte-code tables

    What holds of the entries of the first table and of
    the new entries, and is kept by the changes, holds of every entry of every table. *)

Section JumpTable.
  Context {CR : Crypto} {U : Uint256}.

(** The entries of the first table. *)
Definition first_entries : list (Z * operation) :=
  frontier_arithmetic ++ frontier_comparison ++ frontier_context ++ frontier_block
    ++ frontier_storage ++ frontier_push_low ++ frontier_push_high ++ frontier_dup ++ frontier_swap
    ++ frontier_log ++ frontier_nft ++ frontier_call.

(** The entries later tables add. *)
Definition new_entries : list (Z * operation) :=
  [(Op.DELEGATECALL, dynamic gasDelegateCall (sized memoryDelegateCall
                       (returning (op opDelegateCall CallGasFrontier 6 1))));
   (Op.STATICCALL, dynamic gasStaticCall (sized memoryStaticCall (returning (op opStaticCall CallGasEIP150 6 1))));
   (Op.RETURNDATASIZE, op opReturnDataSize GasQuickStep 0 1);
   (Op.RETURNDATACOPY, dynamic gasReturnDataCopy (sized memoryReturnDataCopy
                         (op opReturnDataCopy GasFastestStep 3 0)));
   (Op.REVERT, dynamic gasRevert (sized memoryRevert (reverting (returning (op opRevert 0 2 0)))));
   (Op.SHL, op opSHL GasFastestStep 2 1);
   (Op.SHR, op opSHR GasFastestStep 2 1);
   (Op.SAR, op opSAR GasFastestStep 2 1);
   (Op.EXTCODEHASH, op opExtCodeHash ExtcodeHashGasConstantinople 1 1);
   (Op.CREATE2, dynamic gasCreate2 (sized memoryCreate2 (writing (returning (op opCreate2 Create2Gas 4 1)))));
   (Op.CHAINID, op opChainID GasQuickStep 0 1);
   (Op.SELFBALANCE, op opSelfBalance GasFastStep 0 1);
   (Op.BASEFEE, op opBaseFee GasQuickStep 0 1)].

(** The changes later tables make: prices, and ways to work them out. *)
Definition new_prices : list (Z * Z) :=
  [(Op.BALANCE, BalanceGasEIP150); (Op.EXTCODESIZE, ExtcodeSizeGasEIP150); (Op.SLOAD, SloadGasEIP150);
   (Op.EXTCODECOPY, ExtcodeCopyBaseEIP150); (Op.CALL, CallGasEIP150); (Op.CALLCODE, CallGasEIP150);
   (Op.DELEGATECALL, CallGasEIP150); (Op.SLOAD, SloadGasEIP1884); (Op.BALANCE, BalanceGasEIP1884);
   (Op.EXTCODEHASH, ExtcodeHashGasEIP1884); (Op.SLOAD, SloadGasEIP2200)].

Definition new_gas : list (Z * gasFunc) :=
  [(Op.EXP, gasExpEIP158); (Op.SSTORE, gasSStoreEIP2200); (Op.SSTORE, gasSStoreEIP2929);
   (Op.SSTORE, gasSStoreEIP3529); (Op.SELFDESTRUCT, gasSelfdestructEIP3529)].

Definition new_both : list (Z * Z * gasFunc) :=
  let warm := WarmStorageReadCostEIP2929 in
  [(Op.SLOAD, 0, gasSLoadEIP2929); (Op.EXTCODECOPY, warm, gasExtCodeCopyEIP2929);
   (Op.EXTCODESIZE, warm, gasEip2929AccountCheck); (Op.EXTCODEHASH, warm, gasEip2929AccountCheck);
   (Op.BALANCE, warm, gasEip2929AccountCheck); (Op.CALL, warm, gasCallEIP2929);
   (Op.CALLCODE, warm, gasCallCodeEIP2929); (Op.STATICCALL, warm, gasStaticCallEIP2929);
   (Op.DELEGATECALL, warm, gasDelegateCallEIP2929);
   (Op.SELFDESTRUCT, SelfdestructGasEIP150, gasSelfdestructEIP2929)].

(** The rules before Berlin, and all of them. *)
Record early_rules (Q : Z -> operation -> Prop) : Prop := {
  tr_first : Forall (fun '(c, o) => Q c o) first_entries;
  tr_new : Forall (fun '(c, o) => Q c o) new_entries;
  tr_prices : Forall (fun '(c, g) => forall o, Q c o -> Q c (charging g o)) new_prices;
  tr_gas : Forall (fun '(c, f) => forall o, Q c o -> Q c (dynamic f o)) new_gas;
}.

Record table_rules (Q : Z -> operation -> Prop) : Prop := {
  tr_early : early_rules Q;
  tr_both : Forall (fun '(c, g, f) => forall o, Q c o -> Q c (dynamic f (charging g o))) new_both;
}.

Section Induction.
  Context (Q : Z -> operation -> Prop) (HQ : early_rules Q).

Lemma all_define c o jt : (c, o) ∈ new_entries -> map_Forall Q jt -> map_Forall Q (define c o jt).
Proof.
  intros Hin Hjt. apply map_Forall_insert_2; [|done].
  pose proof (tr_new Q HQ) as H. rewrite Forall_forall in H. exact (H _ Hin).
Qed.

Lemma all_alter c f jt : (forall o, Q c o -> Q c (f o)) -> map_Forall Q jt -> map_Forall Q (adjust c f jt).
Proof.
  intros Hf Hjt i o. unfold adjust. rewrite lookup_alter_Some.
  intros [(<- & o' & Ho' & ->)|(? & Ho)]; [by apply Hf, Hjt|by apply Hjt].
Qed.

Lemma all_price c g jt : (c, g) ∈ new_prices -> map_Forall Q jt -> map_Forall Q (adjust c (charging g) jt).
Proof.
  intros Hin. apply all_alter. pose proof (tr_prices Q HQ) as H. rewrite Forall_forall in H. exact (H _ Hin).
Qed.

Lemma all_gas c f jt : (c, f) ∈ new_gas -> map_Forall Q jt -> map_Forall Q (adjust c (dynamic f) jt).
Proof.
  intros Hin. apply all_alter. pose proof (tr_gas Q HQ) as H. rewrite Forall_forall in H. exact (H _ Hin).
Qed.

Lemma all_both c g f jt :
  table_rules Q -> (c, g, f) ∈ new_both -> map_Forall Q jt ->
  map_Forall Q (adjust c (fun o => dynamic f (charging g o)) jt).
Proof.
  intros HA Hin. apply all_alter. pose proof (tr_both Q HA) as H. rewrite Forall_forall in H. exact (H _ Hin).
Qed.

#[local] Ltac in_rules := repeat first [apply list_elem_of_here | apply list_elem_of_further].
#[local] Ltac by_rules :=
  repeat lazymatch goal with
    | |- map_Forall _ (define _ _ _) => apply all_define; [in_rules|]
    | |- map_Forall _ (adjust _ (charging _) _) => apply all_price; [in_rules|]
    | |- map_Forall _ (adjust _ (dynamic _) _) => apply all_gas; [in_rules|]
    | |- map_Forall _ (adjust _ _ _) => apply all_both; [assumption|in_rules|]
    end.

Lemma all_frontier : map_Forall Q newFrontierInstructionSet.
Proof.
  intros c o Ho. apply elem_of_list_to_map_2 in Ho.
  pose proof (tr_first Q HQ) as H. rewrite Forall_forall in H. exact (H _ Ho).
Qed.
Lemma all_homestead : map_Forall Q newHomesteadInstructionSet.
Proof. unfold newHomesteadInstructionSet. by_rules. apply all_frontier. Qed.
Lemma all_tangerine : map_Forall Q newTangerineWhistleInstructionSet.
Proof. unfold newTangerineWhistleInstructionSet. cbv zeta. by_rules. apply all_homestead. Qed.
Lemma all_spurious : map_Forall Q newSpuriousDragonInstructionSet.
Proof. unfold newSpuriousDragonInstructionSet. by_rules. apply all_tangerine. Qed.
Lemma all_byzantium : map_Forall Q newByzantiumInstructionSet.
Proof. unfold newByzantiumInstructionSet. cbv zeta. by_rules. apply all_spurious. Qed.
Lemma all_constantinople : map_Forall Q newConstantinopleInstructionSet.
Proof. unfold newConstantinopleInstructionSet. cbv zeta. by_rules. apply all_byzantium. Qed.
Lemma all_istanbul : map_Forall Q newIstanbulInstructionSet.
Proof.
  unfold newIstanbulInstructionSet, enable2200, enable1884, enable1344. cbv zeta. by_rules.
  apply all_constantinople.
Qed.
Lemma all_berlin : table_rules Q -> map_Forall Q newBerlinInstructionSet.
Proof. intros HA. unfold newBerlinInstructionSet, enable2929. cbv zeta. by_rules. apply all_istanbul. Qed.
Lemma all_london : table_rules Q -> map_Forall Q newLondonInstructionSet.
Proof. intros HA. unfold newLondonInstructionSet, enable3198, enable3529. by_rules. by apply all_berlin. Qed.

Lemma jump_table_early evm code o :
  evm_IsLondon evm || evm_IsBerlin evm = false -> jump_table evm !! code = Some o -> Q code o.
Proof.
  intros [HL HB]%orb_false_iff. unfold jump_table. rewrite HL, HB. repeat case_match; intros Ho;
    [eapply all_istanbul|eapply all_constantinople|eapply all_byzantium|eapply all_spurious
    |eapply all_tangerine|eapply all_homestead|eapply all_frontier]; exact Ho.
Qed.

Lemma jump_table_all evm code o : table_rules Q -> jump_table evm !! code = Some o -> Q code o.
Proof.
  intros HA Ho. destruct (evm_IsLondon evm || evm_IsBerlin evm) eqn:E; [|by eapply jump_table_early].
  revert Ho. unfold jump_table. destruct (evm_IsLondon evm); [by apply all_london|].
  simpl in E. rewrite E. by apply all_berlin.
Qed.
End Induction.
End JumpTable.
