(* ===== verification/Interpreter.v ===== *)
(** The interpreter: [core/vm/interpreter.go].

    [step] is one round of the loop of [Run]; [loop] is the loop, with fuel; [interpreter]
    ties the knot between [Run] and the message calls.  A round that does not end the
    run takes gas ([InterpreterGas]), so the gas is fuel enough.  Message calls fail
    beyond depth 1024, so 1025 nested interpreters are enough, as the second part shows.

    Left out: the tracer, the abort flag that another thread may set, and the extra EIPs
    of the configuration. *)
From stdpp Require Import strings.
From S2P Require Import Prelude Common Params ProtocolParams Wormholes StateTypes State StateDB Evm Machine Instructions GasTable JumpTable.

Open Scope Z_scope.

Definition GetOp (c : Contract) (n : Z) : Z := default 0 (c_Code c !! Z.to_nat n).

(** The message calls of a machine. *)
Definition calls_of {CR : Crypto} (MA : Machine) : Calls :=
  mkCalls Call CallCode DelegateCall StaticCall Create Create2.

Section Interpreter.
  Context {CR : Crypto} {U : Uint256}.

(** ** One round *)

(** A round ends with the frame and, when the run is over, its output and error. *)
Notation round := (frame * option (bytes * goerror))%type (only parsing).

Definition exit (fr : frame) (e : string) : M round := mret (fr, Some ([], Some e)).

(** Whether the operation would write in read-only mode. *)
Definition write_protected (sc : ScopeContext) (code : Z) (o : operation) (fr : frame) : M bool :=
  if evm_readOnly (x_evm sc) && evm_IsByzantium (x_evm sc) then
    if o_writes o then mret true
    else if code =? Op.CALL then value ← back 2 fr; mret (negb (value =? 0))
    else mret false
  else mret false.

(** The memory the operation needs, in whole words. *)
Definition memory_needed (o : operation) (st : list Z) : option (outcome Z) :=
  match o_memorySize o with
  | None => Some (Ret 0)
  | Some f =>
      '(memSize, overflow) ← f st;
      Some (if overflow : bool then Err ErrGasUint64Overflow else safe_mul (toWordSize memSize) 32)
  end.

(** The dynamic part of the gas; an error of the gas function counts as too little gas. *)
Definition use_dynamic_gas (sc : ScopeContext) (o : operation) (memorySize : Z) (fr : frame) : M (bool * frame) :=
  match o_dynamicGas o with
  | None => mret (true, fr)
  | Some f =>
      '(dynamicCost, fr) ← f sc fr memorySize;
      match dynamicCost with
      | Ret cost => let '(ok, rest) := c_UseGas cost (f_gas fr) in mret (ok, set_f_gas rest fr)
      | _ => mret (false, fr)
      end
  end.

Definition resize (memorySize : Z) (fr : frame) : frame :=
  if 0 <? memorySize then set_f_mem (mem_Resize memorySize (f_mem fr)) fr else fr.

(** The end of a round. *)
Definition conclude (o : operation) (fr : frame) (res : bytes) (err : goerror) : round :=
  let fr := if o_returns o then set_f_returnData res fr else fr in
  match err with
  | Some e => (fr, Some (res, Some e))
  | None =>
      if o_reverts o then (fr, Some (res, Some ErrExecutionReverted))
      else if o_halts o then (fr, Some (res, None))
      else if negb (o_jumps o) then (set_f_pc (u64 (f_pc fr + 1)) fr, None)
      else (fr, None)
  end.

(** Price, make room and execute. *)
Definition perform (sc : ScopeContext) (o : operation) (fr : frame) : M round :=
  match c_UseGas (o_constantGas o) (f_gas fr) with
  | (false, _) => exit fr ErrOutOfGas
  | (true, rest) =>
      let fr := set_f_gas rest fr in
      memorySize ← deref (memory_needed o (f_stack fr));
      match memorySize with
      | Ret memorySize =>
          '(ok, fr) ← use_dynamic_gas sc o memorySize fr;
          if negb ok then exit fr ErrOutOfGas
          else
            '(fr, res, err) ← o_execute o sc (resize memorySize fr);
            mret (conclude o fr res err)
      | _ => exit fr ErrGasUint64Overflow
      end
  end.

Definition step (jt : gmap Z operation) (sc : ScopeContext) (fr : frame) : M round :=
  let code := GetOp (x_contract sc) (f_pc fr) in
  match jt !! code with
  | None => exit fr ErrInvalidOpCode
  | Some o =>
      let sLen := Z.of_nat (length (f_stack fr)) in
      if sLen <? o_minStack o then exit fr ErrStackUnderflow
      else if o_maxStack o <? sLen then exit fr ErrStackOverflow
      else
        protected ← write_protected sc code o fr;
        if protected : bool then exit fr ErrWriteProtection
        else perform sc o fr
  end.

(** ** The loop *)

Fixpoint loop (fuel : nat) (jt : gmap Z operation) (sc : ScopeContext) (fr : frame)
    : M (bytes * Z * goerror) :=
  match fuel with
  | O => panic
  | S fuel =>
      '(fr, out) ← step jt sc fr;
      match out with
      | Some (ret, err) => mret (ret, f_gas fr, err)
      | None => loop fuel jt sc fr
      end
  end.

Definition start (c : Contract) : frame := mkFrame 0 [] NewMemory (c_Gas c) [] 0.

(** [EVMInterpreter.Run], given the message calls. *)
Definition RunWith (K : Calls) (evm : EVM) (c : Contract) (input : bytes) (readOnly : bool)
    : M (bytes * Z * goerror) :=
  let evm := evm_enter readOnly evm in
  match c_Code c with
  | [] => mret ([], c_Gas c, None)
  | _ => loop (S (Z.to_nat (c_Gas c))) (jump_table evm) (mkScope evm c input K) (start c)
  end.

(** ** The machine *)

(** A machine with another [Run]. *)
Definition with_Run (MA : Machine) (run : EVM -> Contract -> bytes -> bool -> M (bytes * Z * goerror)) : Machine :=
  {| UnmarshalWormholes := @UnmarshalWormholes MA; precompile := @precompile MA; Run := run;
     CreateAddress := @CreateAddress MA; CreateAddress2 := @CreateAddress2 MA;
     ActivePrecompiles := @ActivePrecompiles MA |}.

(** [d] nested interpreters over the machine [MA]. *)
Fixpoint interpreter (d : nat) (MA : Machine) : Machine :=
  match d with
  | O => MA
  | S d => with_Run MA (RunWith (calls_of (interpreter d MA)))
  end.

(** A machine without interpreter. *)
Definition no_interpreter (MA : Machine) : Machine := with_Run MA (fun _ _ _ _ => panic).

(** The machine of the code: its message calls and its interpreter call each other. *)
Definition EVMInterpreter (MA : Machine) : Machine := interpreter 1025 (no_interpreter MA).

End Interpreter.

(** * The nesting of interpreters

    A run depends on the message calls only at its own depth plus one, and a message call
    runs code only up to depth 1024; so 1025 nested interpreters behave as the code, in
    which [Run] and the message calls call each other without end. *)

(** [m] panics or does what [m'] does. *)
Definition below {A : Type} (m m' : M A) : Prop := forall s, m s = None \/ m s = m' s.

Lemma below_eq {A : Type} (m m' : M A) : (forall s, m s = m' s) -> below m m'.
Proof. intros H s. by right. Qed.

Lemma below_panic {A : Type} (m : M A) : below panic m.
Proof. intros s. by left. Qed.

Lemma below_antisym {A : Type} (m m' : M A) s : below m m' -> below m' m -> m s = m' s.
Proof. intros H H'. destruct (H s), (H' s); congruence. Qed.

Lemma below_bind {A B : Type} (m m' : M A) (f f' : A -> M B) : below m m' -> (forall x, below (f x) (f' x)) -> below (m ≫= f) (m' ≫= f').
Proof.
  intros Hm Hf s. unfold mbind, M_bind. destruct (Hm s) as [->| ->]; [by left|]. destruct (m' s) as [[x s1]|]; [apply Hf|by left].
Qed.

(** The calls that [evm] makes, one by one. *)
Record calls_below (evm : EVM) (K K' : Calls) : Prop := {
  cb_Call : forall c a i g v, below (k_Call K evm c a i g v) (k_Call K' evm c a i g v);
  cb_CallCode : forall c a i g v, below (k_CallCode K evm c a i g v) (k_CallCode K' evm c a i g v);
  cb_DelegateCall : forall c a i g, below (k_DelegateCall K evm c a i g) (k_DelegateCall K' evm c a i g);
  cb_StaticCall : forall c a i g, below (k_StaticCall K evm c a i g) (k_StaticCall K' evm c a i g);
  cb_Create : forall c i g v, below (k_Create K evm c i g v) (k_Create K' evm c i g v);
  cb_Create2 : forall c i g v salt, below (k_Create2 K evm c i g v salt) (k_Create2 K' evm c i g v salt);
}.

Section Interpreter.
  Context {CR : Crypto} {U : Uint256}.

(** ** A run depends on the calls at its depth only *)

Definition with_calls (K : Calls) (sc : ScopeContext) : ScopeContext :=
  mkScope (x_evm sc) (x_contract sc) (x_input sc) K.

Definition op_below (o : operation) : Prop :=
  (forall sc K fr, calls_below (x_evm sc) (x_calls sc) K -> below (o_execute o sc fr) (o_execute o (with_calls K sc) fr)) /\
  (forall f sc K fr ms s, o_dynamicGas o = Some f -> f (with_calls K sc) fr ms s = f sc fr ms s).

#[local] Ltac same := by apply below_eq.

#[local] Ltac call_below lemma :=
  intros sc K fr HK; unfold opCall, opCallCode, opDelegateCall, opStaticCall, opCreate, opCreate2; simpl;
  repeat (case_match; try same);
  (apply below_bind; [same|intros args]; apply below_bind; [by apply lemma|intros ?; same]).

Lemma op_below_op e g p q :
  (forall sc K fr, calls_below (x_evm sc) (x_calls sc) K -> below (e sc fr) (e (with_calls K sc) fr)) -> op_below (op e g p q).
Proof. by split. Qed.

Lemma op_below_dynamic f o : (forall sc K fr ms s, f (with_calls K sc) fr ms s = f sc fr ms s) -> op_below o -> op_below (dynamic f o).
Proof. intros Hf [He _]. split; [done|]. by intros ? ? ? ? ? ? [= <-]. Qed.

Lemma op_below_same o o' : o_execute o' = o_execute o -> o_dynamicGas o' = o_dynamicGas o -> op_below o -> op_below o'.
Proof. intros He Hd [H1 H2]. split; intros *; rewrite ?He, ?Hd; [apply H1|apply H2]. Qed.

#[local] Ltac operation :=
  lazymatch goal with
  | |- op_below (op opCall _ _ _) => apply op_below_op; call_below cb_Call
  | |- op_below (op opCallCode _ _ _) => apply op_below_op; call_below cb_CallCode
  | |- op_below (op opDelegateCall _ _ _) => apply op_below_op; call_below cb_DelegateCall
  | |- op_below (op opStaticCall _ _ _) => apply op_below_op; call_below cb_StaticCall
  | |- op_below (op opCreate _ _ _) => apply op_below_op; call_below cb_Create
  | |- op_below (op opCreate2 _ _ _) => apply op_below_op; call_below cb_Create2
  | |- op_below (op _ _ _ _) => apply op_below_op; intros sc K fr _; apply below_eq; reflexivity
  | |- op_below (dynamic _ _) => apply op_below_dynamic; [reflexivity|operation]
  | |- op_below (sized _ ?o) => apply (op_below_same o); [reflexivity|reflexivity|operation]
  | |- op_below (_ ?o) => apply (op_below_same o); [reflexivity|reflexivity|operation]
  end.

Lemma table_below : table_rules (fun _ => op_below).
Proof.
  split; [split|].
  - repeat apply Forall_cons_2; [..|by apply Forall_nil_2]. all: operation.
  - repeat apply Forall_cons_2; [..|by apply Forall_nil_2]. all: operation.
  - repeat apply Forall_cons_2; [..|by apply Forall_nil_2]; intros o Ho; by eapply op_below_same.
  - repeat apply Forall_cons_2; [..|by apply Forall_nil_2]; intros o Ho; by apply op_below_dynamic.
  - repeat apply Forall_cons_2; [..|by apply Forall_nil_2]; intros o Ho;
      (apply op_below_dynamic; [reflexivity|by eapply op_below_same]).
Qed.

Lemma perform_below sc K o fr :
  op_below o -> calls_below (x_evm sc) (x_calls sc) K -> below (perform sc o fr) (perform (with_calls K sc) o fr).
Proof.
  intros [He Hd] HK. unfold perform. destruct (c_UseGas _ _) as [[] rest]; [|same].
  apply below_bind; [same|]. intros [ms| |]; [|same..]. apply below_bind.
  - unfold use_dynamic_gas. destruct (o_dynamicGas o) as [f|] eqn:Ed; [|same]. apply below_bind; [|intros ?; same].
    apply below_eq. intros s. symmetry. by apply Hd.
  - intros [ok fr1]. destruct (negb ok); [same|]. apply below_bind; [by apply He|intros ?; same].
Qed.

Lemma step_below evm sc K fr :
  calls_below (x_evm sc) (x_calls sc) K -> below (step (jump_table evm) sc fr) (step (jump_table evm) (with_calls K sc) fr).
Proof.
  intros HK. unfold step. simpl. destruct (jump_table evm !! _) as [o|] eqn:Ho; [|same].
  pose proof (jump_table_all _ (tr_early _ table_below) evm _ o table_below Ho) as Hx.
  do 2 (destruct (_ <? _); [same|]). apply below_bind; [same|]. intros [|]; [same|]. by apply perform_below.
Qed.

Lemma loop_below evm fuel sc K fr :
  calls_below (x_evm sc) (x_calls sc) K ->
  below (loop fuel (jump_table evm) sc fr) (loop fuel (jump_table evm) (with_calls K sc) fr).
Proof.
  intros HK. revert fr. induction fuel as [|fuel IH]; intros fr; [same|]. simpl.
  apply below_bind; [by apply step_below|]. intros [fr1 [[ret err]|]]; [same|apply IH].
Qed.

Lemma RunWith_below K K' evm c i ro :
  calls_below (evm_enter ro evm) K K' -> below (RunWith K evm c i ro) (RunWith K' evm c i ro).
Proof.
  intros HK. unfold RunWith. destruct (c_Code c); [same|].
  by apply (loop_below _ _ (mkScope (evm_enter ro evm) c i K)).
Qed.

(** ** Calls run code up to depth 1024 only *)

Notation run := (EVM -> Contract -> bytes -> bool -> M (bytes * Z * goerror)) (only parsing).

Section Below.
  Context (MA : Machine) (r r' : run) (evm : EVM).
  Context (Hr : evm_depth evm <= CallCreateDepth -> forall c i ro, below (r evm c i ro) (r' evm c i ro)).

Lemma run_code_below addr c i g ro : evm_depth evm <= CallCreateDepth ->
  below (run_code (MA := with_Run MA r) evm addr c i g ro) (run_code (MA := with_Run MA r') evm addr c i g ro).
Proof.
  intros Hd. unfold run_code. simpl. destruct (precompile evm addr); [same|].
  do 3 (apply below_bind; [same|intros ?]). by apply Hr.
Qed.

Lemma guarded_below g (m m' : M (bytes * Z * goerror)) :
  (evm_depth evm <= CallCreateDepth -> below m m') -> below (guarded evm g m) (guarded evm g m').
Proof.
  intros Hm. unfold guarded. destruct (_ && _); [same|]. destruct (_ <? _) eqn:E; [same|].
  apply Hm. by apply Z.ltb_ge in E.
Qed.

Lemma Call_below c a i g v :
  below (Call (MA := with_Run MA r) evm c a i g v) (Call (MA := with_Run MA r') evm c a i g v).
Proof.
  unfold Call. destruct (_ && _); [same|]. destruct (_ <? _) eqn:E; [same|]. apply Z.ltb_ge in E.
  change (payload (MA := with_Run MA r') i) with (payload (MA := with_Run MA r) i).
  destruct (payload i) as [nft| |]; [|same..]. apply below_bind; [same|]. intros ok.
  destruct (negb ok); [same|]. do 3 (apply below_bind; [same|intros ?]). apply below_bind; [same|].
  intros [e|]; [same|]. apply below_bind; [|intros ?; same]. simpl. destruct (precompile evm a); [same|].
  apply below_bind; [same|]. intros code. destruct (default [] code); [same|].
  apply below_bind; [same|]. intros h. by apply Hr.
Qed.

Lemma create_below c code h g v a :
  below (create (MA := with_Run MA r) evm c code h g v a) (create (MA := with_Run MA r') evm c code h g v a).
Proof.
  unfold create. destruct (_ <? _) eqn:E; [same|]. apply Z.ltb_ge in E. apply below_bind; [same|]. intros ok.
  destruct (negb ok); [same|]. do 5 (apply below_bind; [same|intros ?]). destruct (_ || _); [same|].
  do 4 (apply below_bind; [same|intros ?]). destruct (_ && _); [same|]. by apply below_bind; [apply Hr|intros ?; same].
Qed.

Lemma calls_of_below : calls_below evm (calls_of (with_Run MA r)) (calls_of (with_Run MA r')).
Proof.
  split; intros; simpl.
  - apply Call_below.
  - apply guarded_below. intros Hd. apply below_bind; [same|]. intros ok. destruct (negb ok); [same|].
    apply below_bind; [same|]. intros id. by apply below_bind; [apply run_code_below|intros ?; same].
  - apply guarded_below. intros Hd. apply below_bind; [same|]. intros id. by apply below_bind; [apply run_code_below|intros ?; same].
  - apply guarded_below. intros Hd. do 2 (apply below_bind; [same|intros ?]). by apply below_bind; [apply run_code_below|intros ?; same].
  - unfold Create. apply below_bind; [same|]. intros n. apply create_below.
  - apply create_below.
Qed.
End Below.

(** ** The knot *)

Lemma interpreter_with_Run d MA r :
  interpreter d (with_Run MA r) = with_Run MA (Run (Machine := interpreter d (with_Run MA r))).
Proof. by destruct d. Qed.

Lemma interpreter_base d MA r r' evm : evm_depth evm + Z.of_nat d > CallCreateDepth ->
  forall c i ro, evm_depth evm <= CallCreateDepth ->
    below (Run (Machine := interpreter d (with_Run MA r)) evm c i ro) (Run (Machine := interpreter d (with_Run MA r')) evm c i ro).
Proof.
  revert evm. induction d as [|d IH]; intros evm Hd c i ro Hle; [lia|]. simpl. apply RunWith_below.
  rewrite (interpreter_with_Run d MA r), (interpreter_with_Run d MA r'). apply calls_of_below.
  intros Hle' c' i' ro'. apply IH; [simpl; lia|done].
Qed.

Lemma interpreter_shift d MA : interpreter (S d) MA = interpreter d (interpreter 1 MA).
Proof. induction d as [|d IH]; [done|]. cbn [interpreter] in *. by rewrite IH. Qed.

Lemma interpreter_calls d MA r r' evm ro :
  0 <= evm_depth evm -> CallCreateDepth <= Z.of_nat d ->
  calls_below (evm_enter ro evm) (calls_of (interpreter d (with_Run MA r))) (calls_of (interpreter d (with_Run MA r'))).
Proof.
  intros Hd Hn. rewrite (interpreter_with_Run d MA r), (interpreter_with_Run d MA r'). apply calls_of_below.
  intros Hle c i ro'. apply interpreter_base; [simpl in *; lia|done].
Qed.

Lemma interpreter_recursion d MA r evm c i ro s :
  0 <= evm_depth evm -> CallCreateDepth <= Z.of_nat d ->
  Run (Machine := interpreter (S d) (with_Run MA r)) evm c i ro s
  = RunWith (calls_of (interpreter (S d) (with_Run MA r))) evm c i ro s.
Proof.
  intros Hd Hn. transitivity (RunWith (calls_of (interpreter d (with_Run MA r))) evm c i ro s); [done|].
  rewrite interpreter_shift. change (interpreter 1 (with_Run MA r)) with (with_Run MA (RunWith (calls_of (with_Run MA r)))).
  by apply below_antisym; apply RunWith_below, interpreter_calls.
Qed.

(** * Properties *)

(** The interpreter and the message calls of the model call each other as those of
    the code do.  The machine [EVMInterpreter] is made of 1025 interpreters nested in one
    another over a machine that cannot run code; at any depth a frame can have, its [Run]
    is the loop of the interpreter with the message calls of the same machine, for every
    contract, input and state.  So nothing of the mutual recursion of [Run], [Call],
    [Create] and the other calls is cut off. *)
Theorem EVMInterpreter_recursion (MA : Machine) (evm : EVM) (c : Contract) (input : bytes) (readOnly : bool)
    (s : StateDB) :
  0 <= evm_depth evm ->
  Run (Machine := EVMInterpreter MA) evm c input readOnly s
  = RunWith (calls_of (EVMInterpreter MA)) evm c input readOnly s.
Proof. intros Hd. by apply (interpreter_recursion 1024). Qed.
End Interpreter.
