(* ===== verification/EvmLedger.v ===== *)
(** The chain's own transactions keep the staking ledger and the currency.

    [HandleCSBT] is refined to steps on [world], and every type of transaction is
    shown to run without panic, to keep the ledger invariant, to conserve the
    currency and to leave no account with a negative balance. *)
From stdpp Require Import strings.
From S2P Require Import Prelude KeyedList Common Params Wormholes Rewards Validators Stakers AccessList StateTypes State StateDB StateRevert Staking StateView World Ledger Evm.

Open Scope Z_scope.

Section EvmLedger.
  Context {CR : Crypto} {MA : Machine}.

(** ** Queries *)

(** Loading an object shows nothing new. *)
Lemma shows_load s V E a o : shows s V E -> lookup_obj s a = Some o -> shows (set_obj a o s) V E.
Proof.
  intros Hs Ho. destruct (so_deleted o) eqn:Hd.
  - assert (Hsame : sdb_stateObjects (set_obj a o s) = sdb_stateObjects s ->
      shows (set_obj a o s) V E).
    { intros Heq. replace (set_obj a o s) with s; [done|]. unfold set_obj in *. simpl in Heq.
      rewrite Heq. by destruct s. }
    apply Hsame. simpl. apply insert_id. unfold lookup_obj in Ho.
    destruct (sdb_stateObjects s !! a) as [o'|]; [done|]. by apply fmap_Some in Ho as (? & _ & ->).
  - eapply (shows_ext _ (vset a (V a) V)); [intros b; by apply vset_id|].
    eapply (shows_replaced s V E a o o); try done.
    + intros o' Ho' _. unfold lookup_obj in Ho. rewrite Ho' in Ho. congruence.
    + eapply lookup_obj_ok; [apply Hs|done].
    + rewrite <- (sh_view _ _ _ Hs a). unfold view. by rewrite Ho, Hd.
Qed.

Lemma TW_query {A : Type} w E a (dflt : A) (f : M A) (g : AccountView -> A) :
  g (view_of a zeroAccount) = dflt ->
  (forall s o, sdb_stateObjects s !! a = Some o -> f s = Some (g (view_of a (so_data o)), s)) ->
  TW w E (query a dflt f) (g (acct w a)) w.
Proof.
  intros H0 Hf s Hs. unfold query, mbind, M_bind. rewrite getStateObject_run.
  pose proof (sh_view _ _ _ Hs a) as Hv. unfold view in Hv.
  destruct (lookup_obj s a) as [o|] eqn:Ho.
  - exists (set_obj a o s). split; [|by apply shows_load].
    destruct (so_deleted o) eqn:Hd; [by rewrite <- Hv, H0|].
    rewrite (Hf _ o); [by rewrite Hv|apply set_obj_lookup].
  - exists s. split; [|done]. by rewrite <- Hv, H0.
Qed.

Lemma TW_GetBalance w E a : TW w E (sdb_GetBalance a) (wd_bal w a) w.
Proof.
  apply (TW_query w E a 0 (so_Balance a) vw_Balance); [done|].
  intros s o Ho. unfold so_Balance, mbind, M_bind. by rewrite (obj_run s a o Ho).
Qed.

Lemma TW_GetNonce w E a : TW w E (sdb_GetNonce a) (wd_nonce w a) w.
Proof.
  apply (TW_query w E a 0 _ vw_Nonce); [done|].
  intros s o Ho. unfold mbind, M_bind. by rewrite (obj_run s a o Ho).
Qed.

Lemma TW_CanTransfer w E a n : TW w E (CanTransfer a n) (n <=? wd_bal w a) w.
Proof. eapply TW_bind; [apply TW_GetBalance|]. apply TW_ret. Qed.

Lemma TW_sdb_AddBalance w E a n : TW w E (sdb_AddBalance a n) tt (add_bal a n w).
Proof. apply TW_newAccount, TW_AddBalance. ext_in. Qed.
Lemma TW_sdb_SubBalance w E a n : TW w E (sdb_SubBalance a n) tt (add_bal a (- n) w).
Proof. apply TW_newAccount, TW_SubBalance. ext_in. Qed.

Definition wTransfer (a b : Address) (n : Z) (w : world) : world := add_bal b n (add_bal a (- n) w).

Lemma TW_Transfer w E a b n : TW w E (Transfer a b n) tt (wTransfer a b n w).
Proof. eapply TW_bind; [apply TW_sdb_SubBalance|apply TW_sdb_AddBalance]. Qed.

Lemma TW_GetNFTOwner16 w E a : TW w E (sdb_GetNFTOwner16 a) (csbt_Owner (wd_csbt w a)) w.
Proof. apply TW_newNFT, TW_NFTOwner. ext_in. Qed.

Definition owns (w : world) (nft : bytes) (a : Address) : bool :=
  match GetNftAddressAndLevel nft with
  | Ret (c, _) => csbt_Owner (wd_csbt w c) =? a
  | _ => false
  end.

Lemma TW_VerifyCSBTOwner w E nft a : TW w E (VerifyCSBTOwner nft a) (owns w nft a) w.
Proof.
  unfold VerifyCSBTOwner, owns. destruct (GetNftAddressAndLevel nft) as [[c l]| |]; try apply TW_ret.
  eapply TW_bind; [apply TW_GetNFTOwner16|]. apply TW_ret.
Qed.

Definition wTransferCSBT (nft : bytes) (a : Address) (w : world) : goerror * world :=
  match GetNftAddressAndLevel nft with
  | Ret (c, _) => (None, wset_csbt c (mkAccountCSBT a (csbt_Creator (wd_csbt w c))) w)
  | Err e => (Some e, w)
  | Panic => (None, w)
  end.

Lemma GetNftAddressAndLevel_total nft : GetNftAddressAndLevel nft <> Panic.
Proof. unfold GetNftAddressAndLevel. by repeat case_match. Qed.

Lemma TW_TransferCSBT w E nft a t :
  TW w E (TransferCSBT nft a t) (wTransferCSBT nft a w).1 (wTransferCSBT nft a w).2.
Proof.
  unfold TransferCSBT, wTransferCSBT. pose proof (GetNftAddressAndLevel_total nft) as Hp.
  destruct (GetNftAddressAndLevel nft) as [[c l]| |]; [|apply TW_ret|done].
  eapply TW_bind; [apply TW_newNFT, TW_ChangeNFTOwner; ext_in|]. apply TW_ret.
Qed.

(** The pledge entry of [from] on [to], with the zero value for a missing one. *)
Definition entry (w : world) (from to : Address) : Pledge :=
  match kfind pl_Addr to (wd_sext w from) with
  | Some (_, value) => value
  | None => mkPledge 0 0 0
  end.

Lemma entry_balance w from to : pl_Balance (entry w from to) = pledge_balance to (wd_sext w from).
Proof. unfold entry, pledge_balance. by destruct (kfind _ _ _) as [[]|]. Qed.

Lemma TW_GetStakerPledged w E from to : TW w E (sdb_GetStakerPledged from to) (entry w from to) w.
Proof. apply TW_newAccount. eapply TW_bind; [apply TW_GetStakerExtension; ext_in|]. apply TW_ret. Qed.

Lemma TW_GetStakerPledgedBalance w E from to :
  TW w E (sdb_GetStakerPledgedBalance from to) (pledge_balance to (wd_sext w from)) w.
Proof. apply TW_newAccount. eapply TW_bind; [apply TW_GetStakerExtension; ext_in|]. apply TW_ret. Qed.

Lemma TW_GetPledgedBalance w E a : TW w E (sdb_GetPledgedBalance a) (wd_pledged w a) w.
Proof. apply TW_newAccount, TW_PledgedBalance. ext_in. Qed.

Lemma TW_GetStakers w E a : a ∈ e_stk E -> TW w E (so_GetStakers a) (Some (wd_creators w a)) w.
Proof.
  intros Ha s Hs. destruct (shows_stk _ _ _ _ Hs Ha) as (o & Ho & _ & _ & _ & Hk). exists s.
  unfold so_GetStakers. run_obj. by rewrite Ho, Hk.
Qed.

Lemma TW_IsExistStakerStorageAddress w E a :
  TW w E (IsExistStakerStorageAddress a) (sl_IsExist a (wd_creators w StakerStorageAddress)) w.
Proof.
  eapply TW_bind; [apply TW_newStaker, TW_GetStakers; ext_in|]. simpl.
  eapply TW_bind; [apply TW_ret|]. apply TW_ret.
Qed.

(** ** Recovering the coefficient *)

Definition wRecover (a : Address) (w : world) : goerror * world :=
  if wd_pledged w a <=? 0 then (Some "not a validator", w)
  else if wd_coef w a =? 0 then (Some "Get validator coefficient error", w)
  else
    let need := u8 (VALIDATOR_COEFFICIENT - wd_coef w a) in
    if 0 <? need then
      if wd_bal w a <? need * 100000000000000000 then (Some ErrInsufficientBalance, w)
      else (None, wset_coef a VALIDATOR_COEFFICIENT (wTransfer a 0 (need * 100000000000000000) w))
    else (None, w).

Lemma TW_Recover w E a : TW w E (RecoverValidatorCoefficient a) (wRecover a w).1 (wRecover a w).2.
Proof.
  unfold RecoverValidatorCoefficient, wRecover. eapply TW_bind; [apply TW_GetPledgedBalance|]. cbv beta.
  destruct (wd_pledged w a <=? 0); [apply TW_ret|].
  eapply TW_bind; [apply TW_GetValidatorCoefficient|]. cbv beta.
  destruct (wd_coef w a =? 0); [apply TW_ret|]. cbv zeta.
  destruct (0 <? _); [|apply TW_ret]. eapply TW_bind; [apply TW_GetBalance|]. cbv beta.
  destruct (wd_bal w a <? _); [apply TW_ret|].
  eapply TW_bind; [apply TW_sdb_SubBalance|]. eapply TW_bind; [apply TW_sdb_AddBalance|].
  eapply TW_bind; [apply TW_AddValidatorCoefficient|]. apply TW_ret.
Qed.

(** ** [HandleCSBT] on the world *)

Definition new_proxy (wh : Wormholes) : Address :=
  match wh_ProxyAddress wh with [] => 0 | s => HexToAddress s end.

Definition wHandleCSBT (evm : EVM) (caller addr : Address) (wh : Wormholes) (value : Z) (w : world)
    : goerror * world :=
  match wh_CheckFormat wh, wh_Type wh with
  | Ret _, 1 =>
      if owns w (wh_CSBTAddress wh) caller then
        if negb (sl_IsExist caller (wd_creators w StakerStorageAddress)) then (Some ErrNotCreator, w)
        else wTransferCSBT (wh_CSBTAddress wh) addr w
      else (Some ErrNotOwner, w)
  | Ret _, 2 =>
      if owns w (wh_CSBTAddress wh) addr then (None, wTransfer caller addr value w)
      else (Some ErrNotOwner, w)
  | Ret _, 3 =>
      if (pl_Balance (entry w caller addr) <? StakerBase) && (value <? StakerBase)
      then (Some ErrNotMoreThan100ERB, w)
      else if value <=? wd_bal w caller
      then wResetMinerBecome addr (wStakerPledge caller addr value (evm_BlockNumber evm) (new_proxy wh) w)
      else (Some ErrInsufficientBalance, w)
  | Ret _, 4 =>
      let p := entry w caller addr in
      if negb (pl_Balance p =? value) && (pl_Balance p - value <? StakerBase)
      then (Some "the after revocation is less than 700ERB", w)
      else if CancelDayPledgedInterval <=? evm_BlockNumber evm - pl_BlockNumber p
      then wNewCancel caller addr value w
      else (Some ErrTooCloseToCancel, w)
  | Ret _, 5 => wRecover caller w
  | Err e, _ => (Some e, w)
  | _, _ => (Some ErrNotExistNFTType, w)
  end.

Lemma HandleCSBT_refines w E evm caller addr wh value :
  TW w E (HandleCSBT evm caller addr wh value)
    (wHandleCSBT evm caller addr wh value w).1 (wHandleCSBT evm caller addr wh value w).2.
Proof.
  unfold HandleCSBT, wHandleCSBT. destruct (wh_CheckFormat wh) as [[]|e|] eqn:Hf; [|apply TW_ret|].
  2: { unfold wh_CheckFormat in Hf. by destruct (_ && _). }
  destruct (wh_Type wh) as [|[[[]|[]|]|[[]|[]|]|]|] eqn:Ht; try apply TW_ret.
  - apply TW_Recover.
  - eapply TW_bind; [apply TW_GetStakerPledged|]. cbv beta.
    destruct ((pl_Balance _ <? _) && _); [apply TW_ret|].
    eapply TW_bind; [apply TW_CanTransfer|]. cbv beta. destruct (value <=? wd_bal w caller); [|apply TW_ret].
    eapply TW_bind; [apply StakerPledge_refines|]. apply ResetMinerBecome_refines.
  - eapply TW_bind; [apply TW_GetStakerPledged|]. cbv beta zeta.
    destruct (negb _ && _); [apply TW_ret|]. destruct (_ <=? _); [|apply TW_ret].
    apply NewCancelStakerPledge_refines.
  - eapply TW_bind; [apply TW_VerifyCSBTOwner|]. cbv beta. destruct (owns _ _ _); [|apply TW_ret].
    eapply TW_bind; [apply TW_Transfer|]. apply TW_ret.
  - eapply TW_bind; [apply TW_VerifyCSBTOwner|]. cbv beta. destruct (owns _ _ _); [|apply TW_ret].
    eapply TW_bind; [apply TW_IsExistStakerStorageAddress|]. cbv beta.
    destruct (negb _); [apply TW_ret|]. apply TW_TransferCSBT.
Qed.
End EvmLedger.

(** ** What the steps keep *)

(** No account owes money. *)
Definition solvent (w : world) : Prop := forall a, 0 <= wd_bal w a.

Lemma supply_transfer l a b n w : NoDup l -> a ∈ l -> b ∈ l -> supply l (wTransfer a b n w) = supply l w.
Proof. intros. unfold wTransfer. rewrite !supply_add_bal by done. lia. Qed.

Lemma solvent_add a n w : solvent w -> 0 <= n -> solvent (add_bal a n w).
Proof. intros H Hn b. simpl. unfold fset. specialize (H b). case_decide; subst; lia. Qed.

Lemma solvent_sub a n w : solvent w -> n <= wd_bal w a -> solvent (add_bal a (- n) w).
Proof. intros H Hn b. simpl. unfold fset. specialize (H b). case_decide; subst; lia. Qed.

Lemma solvent_transfer a b n w : solvent w -> 0 <= n <= wd_bal w a -> solvent (wTransfer a b n w).
Proof. intros H Hn. apply solvent_add; [apply solvent_sub; [done|lia]|lia]. Qed.

Lemma solvent_eq w w' : solvent w -> (forall a, wd_bal w' a = wd_bal w a) -> solvent w'.
Proof. intros H He a. rewrite He. apply H. Qed.

Lemma Reset_bal a w b : wd_bal (wResetMinerBecome a w).2 b = wd_bal w b.
Proof.
  unfold wResetMinerBecome. destruct (_ <? ValidatorBase); [done|]. destruct (negb _ && _); [done|]. simpl.
  by destruct (wd_coef _ a =? 0).
Qed.

Lemma StakerPledge_solvent from to n t p w :
  solvent w -> n <= wd_bal w from -> solvent (wStakerPledge from to n t p w).
Proof.
  intros H Hn. eapply (solvent_eq (add_bal from (- n) w)); [by apply solvent_sub|].
  intros a. unfold wStakerPledge. by destruct (from =? to).
Qed.

Lemma NewCancel_solvent from to n w :
  solvent w -> ledger w -> 0 <= n <= pledge_balance to (wd_sext w from) -> solvent (wNewCancel from to n w).2.
Proof.
  intros H Hl Hn. unfold wNewCancel. destruct (Z.eqb_spec from to) as [<-|Hne].
  - destruct (payout_spec w from n) as (Hs & Hv & Hp & Hvl & _). cbv zeta in *.
    destruct ((0 <? lost_points w from) && (n <? _)) eqn:Hfine; [done|].
    set (w1 := if 0 <? lost_points w from then wset_coef _ _ _ else _) in *.
    assert (H1 : solvent w1).
    { unfold w1. destruct (0 <? lost_points w from) eqn:Hlp; simpl in Hfine; [|apply solvent_add; [done|lia]].
      eapply solvent_eq; [|done]. unfold coebaseErb in *. repeat apply solvent_add; [done|lia|lia]. }
    clearbody w1. assert (Hl1 : ledger w1) by by eapply ledger_eq. cbn [snd].
    assert (H2 : solvent (wCancelEntries from from n w1)) by by eapply solvent_eq.
    destruct (_ =? n); [|done]. intros a.
    pose proof (CancelEntries_ledger w1 from from n Hl1 ltac:(by rewrite Hs)) as Hl2.
    destruct (RevocateAll_spec _ from Hl2) as (_ & -> & _). specialize (H2 a).
    pose proof (pledge_balance_nonneg from _ (proj2 (pg_sext _ (proj1 Hl2) a))). lia.
  - cbn [snd]. eapply (solvent_eq (add_bal from n w)); [apply solvent_add; [done|lia]|done].
Qed.

Lemma transfer_csbt_same nft a w :
  (forall b, wd_bal (wTransferCSBT nft a w).2 b = wd_bal w b) /\
  (forall b, wd_sext (wTransferCSBT nft a w).2 b = wd_sext w b) /\
  (forall b, wd_vext (wTransferCSBT nft a w).2 b = wd_vext w b) /\
  (forall b, wd_pledged (wTransferCSBT nft a w).2 b = wd_pledged w b) /\
  (forall b, wd_vals (wTransferCSBT nft a w).2 b = wd_vals w b).
Proof. unfold wTransferCSBT. by destruct (GetNftAddressAndLevel nft) as [[]| |]. Qed.

(** The three invariants of a step from [w] to [w'], for the accounts [l]. *)
Definition keeps (l : list Address) (w w' : world) : Prop :=
  ledger w' /\ supply l w' = supply l w /\ solvent w'.

Lemma keeps_refl l w : ledger w -> solvent w -> keeps l w w.
Proof. done. Qed.

Lemma Recover_keeps l a w :
  NoDup l -> a ∈ l -> 0 ∈ l -> ledger w -> solvent w -> keeps l w (wRecover a w).2.
Proof.
  intros Hnd Ha H0 Hl Hs. pose proof (keeps_refl l w Hl Hs) as Hk. unfold wRecover.
  destruct (_ <=? 0); [done|]. destruct (_ =? 0); [done|]. destruct (0 <? _) eqn:Hneed; [|done].
  destruct (wd_bal w a <? _) eqn:Hb; [done|]. cbn [snd]. split_and!.
  - by eapply ledger_eq.
  - rewrite <- (supply_transfer l a 0 (u8 (VALIDATOR_COEFFICIENT - wd_coef w a) * 100000000000000000) w) by done.
    by apply supply_eq.
  - eapply (solvent_eq (wTransfer a 0 _ w)); [|done]. apply solvent_transfer; [done|]. lia.
Qed.

Lemma Pledge_keeps l evm caller addr value p w :
  NoDup l -> caller ∈ l -> addr ∈ l -> ledger w -> solvent w -> 0 <= value <= wd_bal w caller ->
  (pl_Balance (entry w caller addr) <? StakerBase) && (value <? StakerBase) = false ->
  keeps l w (wResetMinerBecome addr (wStakerPledge caller addr value (evm_BlockNumber evm) p w)).2.
Proof.
  intros Hnd Hc Ha Hl Hs Hv Hbase. rewrite entry_balance in Hbase. unfold StakerBase in Hbase.
  pose proof (pledge_balance_nonneg addr _ (proj2 (pg_sext _ (proj1 Hl) caller))) as Hpos.
  destruct (StakerPledge_ledger w caller addr value (evm_BlockNumber evm) p Hl) as [Hp Hb]; [lia|lia|].
  split_and!.
  - by apply ResetMinerBecome_ledger.
  - rewrite ResetMinerBecome_supply. by apply StakerPledge_supply.
  - eapply solvent_eq; [|intros b; apply Reset_bal]. apply StakerPledge_solvent; [done|lia].
Qed.

Lemma HandleCSBT_keeps l evm caller addr wh value w :
  touches l caller addr w -> ledger w -> solvent w -> 0 <= value ->
  (wh_Type wh = 2 -> value <= wd_bal w caller) ->
  keeps l w (wHandleCSBT evm caller addr wh value w).2.
Proof.
  intros Ht Hl Hs Hv H2. pose proof Ht as (Hnd & Hc & Ha & H0 & _).
  pose proof (keeps_refl l w Hl Hs) as Hk. unfold wHandleCSBT.
  destruct (wh_CheckFormat wh) as [[]|e|]; [|done|done].
  destruct (wh_Type wh) as [|[[[]|[]|]|[[]|[]|]|]|] eqn:Hty; try done.
  - by apply Recover_keeps.
  - destruct ((pl_Balance _ <? _) && _) eqn:Hbase; [done|]. destruct (Z.leb_spec value (wd_bal w caller)); [|done].
    by apply Pledge_keeps.
  - destruct (negb _ && _) eqn:Hbase; [done|]. destruct (_ <=? _); [|done].
    assert (Hn : 0 <= value <= pledge_balance addr (wd_sext w caller)).
    { rewrite <- entry_balance. unfold StakerBase in Hbase. lia. }
    destruct (NewCancel_ledger w caller addr value Hl Hn) as [H1 H3].
    split_and!; [done|by apply H3|by apply NewCancel_solvent].
  - destruct (owns _ _ _); [|done]. cbn [snd]. split_and!.
    + by eapply ledger_eq.
    + by apply supply_transfer.
    + apply solvent_transfer; [done|]. lia.
  - destruct (owns _ _ _); [|done]. destruct (negb _); [done|].
    destruct (transfer_csbt_same (wh_CSBTAddress wh) addr w) as (?&?&?&?&?). split_and!.
    + by eapply ledger_eq.
    + by apply supply_eq.
    + by eapply solvent_eq.
Qed.

(** * Properties *)

Section Properties.
  Context {CR : Crypto} {MA : Machine}.

(** C3. On a well-formed state whose staking ledger is consistent and in which no
    account has a negative balance, [HandleCSBT] runs every payload, well formed or
    not, without panic.  Afterwards the ledger is consistent again: each pledge is
    recorded with the same amount by the account that made it and the one that holds
    it, pledged balances are the sums of the recorded pledges, and the validator list
    is sorted and has the pledged balance of each listed account.  The free and
    pledged currency of any set of accounts containing the parties, the zero address
    and the stakers of [addr] is unchanged, and no balance is negative.  All this also
    holds when the transaction reports an error. *)
Theorem HandleCSBT_ledger (s : StateDB) (evm : EVM) (caller addr : Address) (wh : Wormholes) (value : Z) :
  sdb_wf s -> ledger (world_of s) -> solvent (world_of s) -> 0 <= value ->
  (wh_Type wh = 2 -> value <= wd_bal (world_of s) caller) ->
  exists err s', HandleCSBT evm caller addr wh value s = Some (err, s') /\ sdb_wf s' /\
    ledger (world_of s') /\ solvent (world_of s') /\
    forall l, touches l caller addr (world_of s) -> supply l (world_of s') = supply l (world_of s).
Proof.
  intros Hwf Hl Hs Hv H2. set (w := world_of s) in *.
  destruct (TW_run _ _ _ _ Hwf (HandleCSBT_refines w _ evm caller addr wh value)) as (s' & Hr & Hwf' & Hw').
  eexists _, s'. split; [exact Hr|]. split; [done|].
  assert (Hk : forall l, touches l caller addr w -> keeps l w (world_of s')).
  { intros l Hl'. destruct (HandleCSBT_keeps l evm caller addr wh value w Hl' Hl Hs Hv H2) as (K1 & K2 & K3).
    split_and!; [by rewrite Hw'|by rewrite Hw'|]. eapply solvent_eq; [exact K3|].
    apply weq_fields in Hw' as [Hb _]. intros a. by rewrite Hb. }
  set (l0 := remove_dups ([caller; addr; 0] ++ keys pl_Addr (wd_vext w addr))).
  assert (H0 : touches l0 caller addr w).
  { unfold touches, l0. split; [apply NoDup_remove_dups|]. rewrite !elem_of_remove_dups.
    split_and!; [set_solver..|]. intros a Ha. rewrite elem_of_remove_dups. set_solver. }
  destruct (Hk _ H0) as (K1 & _ & K3). split_and!; [done|done|]. intros l Hl'. apply (Hk l Hl').
Qed.
End Properties.
