(* ===== verification/Journalled.v ===== *)
(** Every public method of [*StateDB] that changes the state can be undone.

    [mutation] lists the methods, [prog] the programs an execution makes of them, with
    nested snapshots that are kept or reverted.  The interpreter, the block processor
    and the message calls change the state by such programs only. *)
From S2P Require Import Prelude KeyedList Common Params Wormholes Rewards Validators Selection Stakers AccessList StateTypes State StateDB StateRevert Staking StateView World.

Open Scope Z_scope.

(** ** Methods and programs *)

Inductive mutation : Type :=
| MAddBalance (a : Address) (n : Z)
| MSubBalance (a : Address) (n : Z)
| MSetBalance (a : Address) (n : Z)
| MSetNonce (a : Address) (n : Z)
| MSetCode (a : Address) (code : option bytes)
| MSetState (a : Address) (key value : Hash)
| MGetState (a : Address) (key : Hash)
| MSuicide (a : Address)
| MCreateAccount (a : Address)
| MCreateNFTAccount (a : Address)
| MCreateStakerAccount (a : Address)
| MAddLog (l : Log)
| MAddPreimage (h : Hash) (p : bytes)
| MAddRefund (g : Z)
| MSubRefund (g : Z)
| MAddAddressToAccessList (a : Address)
| MAddSlotToAccessList (a : Address) (slot : Hash)
| MChangeNFTOwner (nft owner : Address) (level t : Z)
| MCreateNFTByOfficial16 (vs es : list Address) (t : Z) (hash : bytes)
| MDistributeRewardsToStakers (vs : list Address) (t : Z)
| MPledgeToken (a : Address) (n : option Z) (proxy : Address) (t : Z)
| MStakerPledge (from to : Address) (n t : Z) (wh : Wormholes)
| MMinerConsign (a proxy : Address)
| MMinerBecome (a proxy : Address)
| MResetMinerBecome (a : Address)
| MCancelPledgedToken (a : Address) (n : Z)
| MNewCancelStakerPledge (from to : Address) (n t : Z)
| MRevocateAllStakers (a : Address) (t : Z)
| MAddValidatorCoefficient (a : Address) (c : Z)
| MSubValidatorCoefficient (a : Address) (c : Z)
| MRemoveValidatorCoefficient (a : Address)
| MPunishEvilValidators (vs : list Address) (t : Z)
| MChangeValidatorProxy (a proxy : Address).

(** A program; [PTry true] keeps the changes of its body, [PTry false] takes a snapshot
    before and reverts to it afterwards. *)
Inductive prog : Type :=
| PDo (m : mutation)
| PSkip
| PSeq (p q : prog)
| PTry (keep : bool) (p : prog).

Section Journalled.
  Context {CR : Crypto}.

Definition ignore {A : Type} (m : M A) : M unit := _ ← m; mret tt.

Definition run_mutation (m : mutation) : M unit :=
  match m with
  | MAddBalance a n => sdb_AddBalance a n
  | MSubBalance a n => sdb_SubBalance a n
  | MSetBalance a n => sdb_SetBalance a n
  | MSetNonce a n => sdb_SetNonce a n
  | MSetCode a c => sdb_SetCode a c
  | MSetState a k v => sdb_SetState a k v
  | MGetState a k => ignore (sdb_GetState a k)
  | MSuicide a => ignore (sdb_Suicide a)
  | MCreateAccount a => sdb_CreateAccount a
  | MCreateNFTAccount a => sdb_CreateNFTAccount a
  | MCreateStakerAccount a => sdb_CreateStakerAccount a
  | MAddLog l => sdb_AddLog l
  | MAddPreimage h p => sdb_AddPreimage h p
  | MAddRefund g => sdb_AddRefund g
  | MSubRefund g => sdb_SubRefund g
  | MAddAddressToAccessList a => sdb_AddAddressToAccessList a
  | MAddSlotToAccessList a k => sdb_AddSlotToAccessList a k
  | MChangeNFTOwner c o l t => sdb_ChangeNFTOwner c o l t
  | MCreateNFTByOfficial16 vs es t h => sdb_CreateNFTByOfficial16 vs es t h
  | MDistributeRewardsToStakers vs t => sdb_DistributeRewardsToStakers vs t
  | MPledgeToken a n p t => ignore (sdb_PledgeToken a n p t)
  | MStakerPledge f a n t wh => ignore (sdb_StakerPledge f a n t wh)
  | MMinerConsign a p => ignore (sdb_MinerConsign a p)
  | MMinerBecome a p => ignore (sdb_MinerBecome a p)
  | MResetMinerBecome a => ignore (sdb_ResetMinerBecome a)
  | MCancelPledgedToken a n => sdb_CancelPledgedToken a n
  | MNewCancelStakerPledge f a n t => ignore (sdb_NewCancelStakerPledge f a n t)
  | MRevocateAllStakers a t => sdb_RevocateAllStakers a t
  | MAddValidatorCoefficient a c => sdb_AddValidatorCoefficient a c
  | MSubValidatorCoefficient a c => sdb_SubValidatorCoefficient a c
  | MRemoveValidatorCoefficient a => sdb_RemoveValidatorCoefficient a
  | MPunishEvilValidators vs t => ignore (sdb_PunishEvilValidators vs t)
  | MChangeValidatorProxy a p => sdb_ChangeValidatorProxy a p
  end.

Fixpoint run_prog (p : prog) : M unit :=
  match p with
  | PDo m => run_mutation m
  | PSkip => mret tt
  | PSeq p q => _ ← run_prog p; run_prog q
  | PTry keep p => attempt (run_prog p) (fun _ => keep)
  end.
End Journalled.

(** ** Automation *)

Create HintDb jrnl.
#[export] Hint Unfold so_PledgedBalance so_PledgedBlockNumber so_StakerPledgedBlockNumber so_Coefficient
  so_GetValidatorProxy so_GetStakerExtension so_GetValidatorExtension so_NFTOwner so_GetNFTInfo so_GetCreator
  so_Balance so_UserMint so_OfficialMint so_GetValidators so_GetStakers worm csbt stk validator_list
  so_StakerPledge so_RemoveStakerPledge so_AddValidatorExtension so_RemoveValidatorExtension
  so_AddPledgedBalance so_SubPledgedBalance so_AddCoefficient so_SubCoefficient so_RemoveCoefficient
  so_ChangeNFTOwner so_AddUserMint so_AddOfficialMint update_validators so_AddValidatorAmount so_AddValidator
  so_RemoveValidator so_SetValidatorAmount so_ResetemoveValidator so_AddStaker so_RemoveStaker so_CancelStaker
  so_GetAccountInfo query ignore : jrnl.

Ltac in_list := rewrite ?elem_of_cons; tauto.

(** One step, by the shape of the computation: open an object, run a method, or look
    at what decides the rest. *)
Ltac j_step :=
  lazymatch goal with
  | |- J _ (mret _) => apply J_ret
  | |- J _ (gets _) => apply J_gets
  | |- J _ panic => apply J_panic
  | |- J _ (deref _) => apply J_deref
  | |- J _ (obj _) => apply J_obj
  | |- J _ (sdb_getStateObject _) => apply J_getStateObject
  | |- J _ (so_SetStakerPledge _ _) => apply J_SetStakerPledge; in_list
  | |- J _ (so_SetValidatorExtension _ _) => apply J_SetValidatorExtension; in_list
  | |- J _ (so_SetCoefficient _ _) => apply J_SetCoefficient; in_list
  | |- J _ (so_SetValidatorProxy _ _) => apply J_SetValidatorProxy; in_list
  | |- J _ (so_SetPledgedBalance _ _) => apply J_SetPledgedBalance; in_list
  | |- J _ (so_SetPledgedBlockNumber _ _) => apply J_SetPledgedBlockNumber; in_list
  | |- J _ (so_SetOwner _ _) => apply J_SetOwner; in_list
  | |- J _ (so_SetNFTInfo _ _ _) => apply J_SetNFTInfo; in_list
  | |- J _ (so_CleanNFT _) => apply J_CleanNFT; in_list
  | |- J _ (so_SetValidators _ _) => apply J_SetValidators; in_list
  | |- J _ (so_SetStakers _ _) => apply J_SetStakers; in_list
  | |- J _ (so_SetUserMint _ _) => apply J_SetUserMint; in_list
  | |- J _ (so_SetOfficialMint _ _) => apply J_SetOfficialMint; in_list
  | |- J _ (so_SetBalance _ _) => apply J_SetBalance; in_list
  | |- J _ (so_SetNonce _ _) => apply J_SetNonce; in_list
  | |- J _ (so_SetExtra _ _) => apply J_SetExtra; in_list
  | |- J _ (so_AddBalance _ _) => apply J_AddBalance; in_list
  | |- J _ (so_SubBalance _ _) => apply J_SubBalance; in_list
  | |- J _ (so_SetState _ _ _) => apply J_SetState; in_list
  | |- J _ (so_SetCode _ _ _) => apply J_SetCode; in_list
  | |- J _ (so_GetState _ _) => apply J_GetState
  | |- J _ (so_GetCommittedState _ _) => apply J_GetCommittedState
  | |- J _ (sdb_Suicide _) => apply J_Suicide
  | |- J _ (sdb_AddLog _) => apply J_AddLog
  | |- J _ (sdb_AddPreimage _ _) => apply J_AddPreimage
  | |- J _ (sdb_AddRefund _) => apply J_AddRefund
  | |- J _ (sdb_SubRefund _) => apply J_SubRefund
  | |- J _ (sdb_AddAddressToAccessList _) => apply J_AddAddressToAccessList
  | |- J _ (sdb_AddSlotToAccessList _ _) => apply J_AddSlotToAccessList
  | |- J _ sdb_Snapshot => apply J_Snapshot
  | |- J _ (mapM_ _ _) => apply J_mapM; intros ?
  | |- J _ (sdb_GetOrNewAccountStateObject _ ≫= _) => apply J_newAccount
  | |- J _ (sdb_GetOrNewNFTStateObject _ ≫= _) => apply J_newNFT
  | |- J _ (sdb_GetOrNewStakerStateObject _ ≫= _) => apply J_newStaker
  | |- J _ (_ ≫= _) => apply J_bind; [|intros ?]
  | |- J _ (match _ with _ => _ end) => case_match
  | |- _ => progress (autounfold with jrnl)
  end; cbv beta zeta.

Ltac journalled := repeat j_step.

Section JournalledProofs.
  Context {CR : Crypto}.

Lemma J_unit L (m : M unit) : J L (_ ← m; mret tt) -> J L m.
Proof.
  intros Hm s [] s' Hwf HL Hr. apply (Hm s tt s' Hwf HL). unfold mbind, M_bind. by rewrite Hr.
Qed.

Lemma J_CreateAccount L a : J L (sdb_CreateAccount a).
Proof. apply J_unit, J_newAccount, J_ret. Qed.
Lemma J_CreateNFTAccount L a : J L (sdb_CreateNFTAccount a).
Proof. apply J_unit, J_newNFT, J_ret. Qed.
Lemma J_CreateStakerAccount L a : J L (sdb_CreateStakerAccount a).
Proof. apply J_unit, J_newStaker, J_ret. Qed.

Lemma J_pay_stakers L owner R S l n : J L (pay_stakers owner R S l n).
Proof. revert L n. induction l as [|p l IH]; intros L n; simpl; journalled; apply IH. Qed.

Lemma J_RevocateAllStakers L a t : J L (sdb_RevocateAllStakers a t).
Proof. unfold sdb_RevocateAllStakers, revocate_one. journalled. Qed.

Lemma J_NewCancelStakerPledge L from to n t : J L (sdb_NewCancelStakerPledge from to n t).
Proof.
  unfold sdb_NewCancelStakerPledge, cancel_entries. journalled. all: apply J_RevocateAllStakers.
Qed.

Lemma J_ResetMinerBecome L a : J L (sdb_ResetMinerBecome a).
Proof.
  unfold sdb_ResetMinerBecome, sdb_GetValidatorCoefficient, sdb_AddValidatorCoefficient. journalled.
Qed.

Lemma J_StakerPledge L from to n t wh : J L (sdb_StakerPledge from to n t wh).
Proof. unfold sdb_StakerPledge. journalled. Qed.

Lemma J_mutation L m : J L (run_mutation m).
Proof.
  destruct m; cbn [run_mutation]; unfold ignore;
    try solve [apply J_CreateAccount | apply J_CreateNFTAccount | apply J_CreateStakerAccount
              | apply J_RevocateAllStakers | apply J_bind; [apply J_NewCancelStakerPledge|intros; apply J_ret]
              | apply J_bind; [apply J_ResetMinerBecome|intros; apply J_ret]
              | apply J_bind; [apply J_StakerPledge|intros; apply J_ret]];
    unfold sdb_AddBalance, sdb_SubBalance, sdb_SetBalance, sdb_SetNonce, sdb_SetCode, sdb_SetState, sdb_GetState,
      sdb_ChangeNFTOwner, sdb_CreateNFTByOfficial16, mint_one, sdb_DistributeRewardsToStakers, distribute_one,
      sdb_PledgeToken, sdb_MinerConsign, sdb_MinerBecome, sdb_CancelPledgedToken, sdb_AddValidatorCoefficient,
      sdb_SubValidatorCoefficient, sdb_RemoveValidatorCoefficient, sdb_PunishEvilValidators,
      sdb_SubValidatorCoefficient, sdb_ChangeValidatorProxy; journalled; try apply J_pay_stakers.
Qed.

Lemma J_prog L p : J L (run_prog p).
Proof.
  revert L. induction p as [m| |p IHp q IHq|keep p IHp]; intros L; cbn [run_prog].
  - apply J_mutation.
  - apply J_ret.
  - by apply J_bind.
  - by apply J_attempt.
Qed.

(** States that show the same objects are the same world. *)
Lemma sdb_le_view s t a : sdb_wf s -> sdb_le s t -> view t a = view s a.
Proof.
  intros Hwf [_ Hle]. specialize (Hle a). unfold view.
  destruct (lookup_obj s a) as [o|] eqn:Ho, (lookup_obj t a) as [o'|] eqn:Ho'; try done. simpl in Hle.
  destruct Hle. rewrite ole_deleted. destruct (so_deleted o); [done|].
  pose proof (lookup_obj_ok s a o Hwf Ho) as [Ha _]. rewrite Ha in ole_staker.
  unfold view_of. congruence.
Qed.

Lemma sdb_le_weq s t : sdb_wf s -> sdb_le s t -> weq (world_of t) (world_of s).
Proof. intros Hwf Hle a. rewrite <- !view_acct. by apply sdb_le_view. Qed.
End JournalledProofs.

(** * Properties *)

(** C1. After a snapshot, any sequence of public methods of the state, with snapshots of
    its own kept or reverted at any depth, can be undone: [RevertToSnapshot] finds the
    revision, no journal entry panics while it is reverted, and the resulting state
    shows what it showed when the snapshot was taken.  That is every account's nonce,
    balance, code, storage slots, token data, staking data and suicide flag, the logs,
    the refund counter, the preimages, the access list, the journal and the older
    revisions; loaded objects and lazily created empty extensions may stay. *)
Theorem RevertToSnapshot_restores {CR : Crypto} (p : prog) (s s1 s2 : StateDB) (id : Z) :
  sdb_wf s -> revs_ok s -> sdb_Snapshot s = Some (id, s1) -> run_prog p s1 = Some (tt, s2) ->
  exists s3, sdb_RevertToSnapshot id s2 = Some (tt, s3) /\ sdb_wf s3 /\ sdb_le s s3 /\
    entries s3 = entries s /\ sdb_validRevisions s3 = sdb_validRevisions s.
Proof.
  intros Hwf Hok Hs Hp. assert (HL : live [] s) by (split; [done|by intros ? ?%elem_of_nil]).
  pose proof (J_Snapshot [] s id s1 Hwf HL Hs) as H1.
  pose proof (J_prog [] p s1 tt s2 (proj1 H1) (live_Jspec [] s s1 HL H1) Hp) as H2.
  destruct (RevertToSnapshot_run s id s1 s2 Hwf Hok Hs H2) as (s3 & ? & ? & ? & ? & ? & _).
  by exists s3.
Qed.

(** A new state is well formed and has no revisions. *)
Lemma sdb_New_ok codes trie snap : sdb_wf (sdb_New codes trie snap) /\ revs_ok (sdb_New codes trie snap).
Proof. split; [|constructor]. split_and!; [done|apply newAccessList_wf|done]. Qed.

#[local] Instance demoCrypto : Crypto := constCrypto 11 5.

(** An account funds itself, pledges enough for a validator, which is listed; a storage
    slot is written inside a call that is reverted and one that is kept. *)
Definition demo_prog : prog :=
  PSeq (PDo (MAddBalance 101 (40000 * 10 ^ 18)))
    (PSeq (PDo (MStakerPledge 101 100 (36000 * 10 ^ 18) 5 (mkWormholes 3 [] [] [] [] [])))
       (PSeq (PDo (MResetMinerBecome 100))
          (PSeq (PTry false (PDo (MSetState 100 1 2)))
             (PTry true (PSeq (PDo (MSetState 100 1 3)) (PDo (MAddLog (mkLog 100 [] [] 0 0 0 0)))))))).

Lemma RevertToSnapshot_restores_witness :
  exists id s1 s2 s3,
    sdb_Snapshot (sdb_New ∅ ∅ None) = Some (id, s1) /\
    run_prog demo_prog s1 = Some (tt, s2) /\
    sdb_RevertToSnapshot id s2 = Some (tt, s3) /\
    sdb_le (sdb_New ∅ ∅ None) s3.
Proof.
  destruct (sdb_New_ok ∅ ∅ None) as [Hwf Hok].
  destruct (sdb_Snapshot (sdb_New ∅ ∅ None)) as [[id s1]|] eqn:Hs; [|done].
  destruct (run_prog demo_prog s1) as [[[] s2]|] eqn:Hr.
  - destruct (RevertToSnapshot_restores demo_prog _ s1 s2 id Hwf Hok Hs Hr)
      as (s3 & H3 & _ & Hle & _).
    by exists id, s1, s2, s3.
  - exfalso. injection Hs as <- <-. revert Hr. vm_compute. discriminate.
Defined.
