(* ===== verification/EvmRevert.v ===== *)
(** Message calls and the journal.

    The interpreter promises to change the state by journalled methods only
    ([JournalledMachine]); then every kind of call can be undone as a whole, and a
    failed call without a payload undoes itself. *)
From stdpp Require Import strings.
From S2P Require Import Prelude KeyedList Common Params Wormholes Rewards Validators Selection Stakers AccessList StateTypes State StateDB StateRevert Staking StateView World Ledger Evm EvmLedger Journalled.

Open Scope Z_scope.

(** ** The promise of the interpreter *)

Class JournalledMachine {CR : Crypto} (MA : Machine) : Prop :=
  Run_journalled : forall evm c input ro L, J L (Run evm c input ro).

(** A machine that runs programs of state methods keeps it. *)
Definition progMachine (um : bytes -> option Wormholes)
    (pre : EVM -> Address -> option PrecompiledContract)
    (code : EVM -> Contract -> bytes -> bool -> prog * (bytes * Z * goerror))
    (ca : Address -> Z -> Address) {CR : Crypto} : Machine :=
  {| UnmarshalWormholes := um; precompile := pre;
     Run := fun evm c i ro => _ ← run_prog (code evm c i ro).1; mret (code evm c i ro).2;
     CreateAddress := ca; CreateAddress2 := fun a _ _ => a; ActivePrecompiles := fun _ => [] |}.

#[export] Instance progMachine_journalled {CR : Crypto} um pre code ca :
  JournalledMachine (progMachine um pre code ca).
Proof. intros evm c i ro L. apply J_bind; [apply J_prog|intros; apply J_ret]. Qed.

Section EvmRevert.
  Context {CR : Crypto} {MA : Machine} {JM : JournalledMachine MA}.

(** ** Journalled parts of a call *)

#[local] Hint Unfold sdb_GetBalance sdb_GetNonce sdb_GetCodeHash sdb_GetCodeSize sdb_Exist CanTransfer Transfer
  sdb_AddBalance sdb_SubBalance sdb_SetNonce sdb_SetCode sdb_GetNFTOwner16 sdb_ChangeNFTOwner VerifyCSBTOwner
  TransferCSBT sdb_GetStakerPledged sdb_GetStakerPledgedBalance sdb_GetPledgedBalance
  sdb_GetStakerStorageAddress IsExistStakerStorageAddress VerifyStakerPledgedBalance
  sdb_GetValidatorCoefficient sdb_AddValidatorCoefficient RecoverValidatorCoefficient can_pay : jrnl.

Lemma J_so_Code L a : J L (so_Code a).
Proof.
  intros s x s' Hwf HL. unfold so_Code, mbind, M_bind. destruct (obj a s) as [[o s0]|] eqn:Ho; [|done].
  unfold obj in Ho. destruct (sdb_stateObjects s !! a) as [o'|] eqn:Hs; [|done]. injection Ho as <- <-.
  unfold gets. rewrite upd_edit. unfold edit. rewrite Hs. intros [= <- <-].
  eapply Jspec_set_obj; [done|by apply lookup_obj_live|exact (proj1 Hwf a o' Hs)|].
  split; try done. unfold code_of. simpl. destruct (so_code o'); [done|].
  destruct (_ =? emptyCodeHash); [done|]. by destruct (sdb_codes s !! _).
Qed.

Lemma J_GetCode L a : J L (sdb_GetCode a).
Proof. unfold sdb_GetCode, query. journalled. apply J_so_Code. Qed.

Lemma J_Transfer L a b n : J L (Transfer a b n).
Proof. journalled. Qed.

Lemma J_CanTransfer L a n : J L (CanTransfer a n).
Proof. journalled. Qed.

Lemma J_can_pay L nft a b n : J L (can_pay nft a b n).
Proof. journalled. Qed.

Lemma J_HandleCSBT L evm caller addr wh value : J L (HandleCSBT evm caller addr wh value).
Proof.
  unfold HandleCSBT. journalled;
    first [apply J_ResetMinerBecome | apply J_NewCancelStakerPledge | apply J_StakerPledge | idtac].
Qed.

Lemma J_run_code L evm addr c input gas ro : J L (run_code evm addr c input gas ro).
Proof. unfold run_code. journalled; [apply J_GetCode|apply Run_journalled]. Qed.

(** ** Code that runs under a snapshot *)

(** [m], run after the snapshot [id] was taken in [s] and some journalled code after
    it, leads to a state that can be undone to [s]. *)
Definition Jin {B : Type} (L : list Address) (s : StateDB) (id : Z) (m : M B) : Prop :=
  forall sid s1 x s2, sdb_wf s -> live L s -> sdb_Snapshot s = Some (id, sid) -> Jspec sid s1 ->
    m s1 = Some (x, s2) -> Jspec s s2.

Lemma Jin_bind {A B : Type} L s id (m : M A) (f : A -> M B) :
  J L m -> (forall x, Jin L s id (f x)) -> Jin L s id (m ≫= f).
Proof.
  intros Hm Hf sid s1 y s2 Hwf HL Hs H1. unfold mbind, M_bind.
  destruct (m s1) as [[x s1']|] eqn:Hr; [|done]. intros Hr2.
  pose proof (J_Snapshot L s id sid Hwf HL Hs) as H0.
  eapply (Hf x sid s1'); [done|done|done| |done].
  eapply Jspec_trans; [exact H1|]. eapply Hm; [apply H1| |exact Hr].
  eapply live_Jspec; [|exact H1]. by eapply live_Jspec.
Qed.

Lemma Jin_ret {A : Type} L s id (x : A) : Jin L s id (mret x).
Proof.
  intros sid s1 y s2 Hwf HL Hs H1 [= <- <-]. eapply Jspec_trans; [|exact H1]. by eapply (J_Snapshot L).
Qed.

(** A reverted state is the state of the snapshot, up to what was loaded. *)
Definition restored (s s' : StateDB) : Prop :=
  sdb_wf s' /\ sdb_le s s' /\ entries s' = entries s /\ sdb_validRevisions s' = sdb_validRevisions s /\
  sdb_nextRevisionId s <= sdb_nextRevisionId s'.

Lemma restored_Jspec s s' : restored s s' -> Jspec s s'.
Proof.
  intros (Hwf & Hle & He & Hv & Hn). split_and!; [done|intros a; by apply alive_le| |].
  - exists []. rewrite app_nil_r. split_and!; [done|constructor|done].
  - exists []. split; [done|]. intros t Ht Hlt. exists t. split_and!; [done|done|by transitivity s'|done].
Qed.

Lemma Revert_restored L s id sid s1 x s2 :
  sdb_wf s -> live L s -> sdb_Snapshot s = Some (id, sid) -> Jspec sid s1 ->
  sdb_RevertToSnapshot id s1 = Some (x, s2) -> restored s s2.
Proof.
  intros Hwf [Hok _] Hs H1 Hr.
  destruct (RevertToSnapshot_run s id sid s1 Hwf Hok Hs H1) as (s3 & Hr3 & ? & ? & ? & ? & ?).
  rewrite Hr in Hr3. injection Hr3 as _ ->. done.
Qed.

(** The end of a call: a failed one restores the state. *)
Lemma close_spec L s id sid s1 r x s2 :
  sdb_wf s -> live L s -> sdb_Snapshot s = Some (id, sid) -> Jspec sid s1 ->
  close id r s1 = Some (x, s2) ->
  match x.2 with None => s2 = s1 | Some _ => restored s s2 end.
Proof.
  intros Hwf HL Hs H1. destruct r as [[ret gas] [e|]]; simpl; [|by intros [= <- <-]].
  unfold mbind, M_bind. destruct (sdb_RevertToSnapshot id s1) as [[[] s3]|] eqn:Hr; [|done].
  intros [= <- <-]. by eapply Revert_restored.
Qed.

Lemma Jin_close L s id r : Jin L s id (close id r).
Proof.
  intros sid s1 x s2 Hwf HL Hs H1 Hc. pose proof (close_spec L s id sid s1 r x s2 Hwf HL Hs H1 Hc) as Hcl.
  destruct (x.2); [by apply restored_Jspec|]. subst.
  eapply Jspec_trans; [|exact H1]. by eapply (J_Snapshot L).
Qed.

Lemma J_snapshot {B : Type} L (k : Z -> M B) : (forall s id, Jin L s id (k id)) -> J L (id ← sdb_Snapshot; k id).
Proof.
  intros Hk s x s' Hwf HL. unfold mbind, M_bind.
  destruct (sdb_Snapshot s) as [[id sid]|] eqn:Hs; [|done]. intros Hr.
  pose proof (J_Snapshot L s id sid Hwf HL Hs) as H0.
  eapply (Hk s id sid sid x s' Hwf HL Hs); [|exact Hr]. apply Jspec_quiet; [apply H0|done|done|done].
Qed.

(** ** Whole calls can be undone *)

Lemma J_Call L evm caller addr input gas value : J L (Call evm caller addr input gas value).
Proof.
  unfold Call. destruct (_ && _); [apply J_ret|]. destruct (_ <? _); [apply J_ret|].
  destruct (payload input) as [nft|e|]; [|apply J_ret|apply J_panic].
  apply J_bind; [apply J_can_pay|]. intros ok. destruct (negb ok); [apply J_ret|].
  apply J_snapshot. intros s id. apply Jin_bind; [journalled|]. intros ex.
  apply Jin_bind; [destruct (negb ex); [apply J_CreateAccount|apply J_ret]|]. intros _.
  apply Jin_bind; [destruct nft; [apply J_HandleCSBT|]|].
  { apply J_bind; [apply J_Transfer|intros; apply J_ret]. }
  intros [e|]; [apply Jin_ret|]. apply Jin_bind; [|intros; apply Jin_close].
  destruct (precompile evm addr); [apply J_ret|]. apply J_bind; [apply J_GetCode|]. intros code.
  destruct (default [] code); [apply J_ret|]. apply J_bind; [journalled|intros; apply Run_journalled].
Qed.

Lemma J_CallCode L evm caller addr input gas value : J L (CallCode evm caller addr input gas value).
Proof.
  unfold CallCode, guarded. destruct (_ && _); [apply J_ret|]. destruct (_ <? _); [apply J_ret|].
  apply J_bind; [journalled|]. intros ok. destruct (negb ok); [apply J_ret|].
  apply J_snapshot. intros s id. apply Jin_bind; [apply J_run_code|intros; apply Jin_close].
Qed.

Lemma J_DelegateCall L evm caller addr input gas : J L (DelegateCall evm caller addr input gas).
Proof.
  unfold DelegateCall, guarded. destruct (_ && _); [apply J_ret|]. destruct (_ <? _); [apply J_ret|].
  apply J_snapshot. intros s id. apply Jin_bind; [apply J_run_code|intros; apply Jin_close].
Qed.

Lemma J_StaticCall L evm caller addr input gas : J L (StaticCall evm caller addr input gas).
Proof.
  unfold StaticCall, guarded. destruct (_ && _); [apply J_ret|]. destruct (_ <? _); [apply J_ret|].
  apply J_snapshot. intros s id. apply Jin_bind; [journalled|]. intros _.
  apply Jin_bind; [apply J_run_code|intros; apply Jin_close].
Qed.

Lemma J_deploy L evm a r : J L (deploy evm a r).
Proof. unfold deploy. journalled. Qed.

Lemma J_create L evm caller code hash gas value a : J L (create evm caller code hash gas value a).
Proof.
  unfold create. destruct (_ <? _); [apply J_ret|]. apply J_bind; [journalled|]. intros ok.
  destruct (negb ok); [apply J_ret|]. apply J_bind; [journalled|]. intros n.
  apply J_bind; [journalled|]. intros _. apply J_bind; [journalled|]. intros _.
  apply J_bind; [journalled|]. intros h. apply J_bind; [journalled|]. intros n'.
  destruct (_ || _); [apply J_ret|]. apply J_snapshot. intros s id.
  apply Jin_bind; [apply J_CreateAccount|]. intros _. apply Jin_bind; [journalled|]. intros _.
  apply Jin_bind; [apply J_Transfer|]. intros _. destruct (_ && _); [apply Jin_ret|].
  apply Jin_bind; [apply Run_journalled|]. intros r. apply Jin_bind; [apply J_deploy|].
  intros [[ret g] [e|]]; [|apply Jin_ret]. destruct (_ || _); [|apply Jin_ret].
  intros sid s1 x s2 Hwf HL Hs H1. unfold mbind, M_bind.
  destruct (sdb_RevertToSnapshot id s1) as [[[] s3]|] eqn:Hr; [|done]. intros [= <- <-].
  apply restored_Jspec. by eapply Revert_restored.
Qed.

(** ** Failed calls *)

(** The four kinds of calls, with the value where there is one. *)
Inductive call_kind : Type :=
| KCall (value : Z)
| KCallCode (value : Z)
| KDelegateCall
| KStaticCall.

Definition do_call (k : call_kind) (evm : EVM) (caller : ContractRef) (addr : Address) (input : bytes) (gas : Z)
    : M (bytes * Z * goerror) :=
  match k with
  | KCall value => Call evm caller addr input gas value
  | KCallCode value => CallCode evm caller addr input gas value
  | KDelegateCall => DelegateCall evm caller addr input gas
  | KStaticCall => StaticCall evm caller addr input gas
  end.

(** [m] fails only after restoring the state it started from. *)
Definition fails_clean {A : Type} (m : M (A * goerror)) : Prop :=
  forall s x e s', sdb_wf s -> revs_ok s -> m s = Some ((x, Some e), s') -> restored s s'.

Lemma restored_refl s : sdb_wf s -> restored s s.
Proof. intros Hwf. unfold restored. split_and!; [done|done|done|done|lia]. Qed.

Lemma restored_trans s1 s2 s3 : restored s1 s2 -> restored s2 s3 -> restored s1 s3.
Proof.
  intros (?&?&?&?&?) (?&?&?&?&?). unfold restored. split_and!; [done|by transitivity s2|congruence|congruence|lia].
Qed.

Lemma fails_ret {A : Type} (x : A) e : fails_clean (mret (x, e)).
Proof. intros s y e' s' Hwf _ [= _ _ <-]. by apply restored_refl. Qed.

Lemma live_nil s : revs_ok s -> live [] s.
Proof. intros Hok. split; [done|]. by intros ? ?%elem_of_nil. Qed.

(** Under a snapshot, what ends in [close] fails clean. *)
Lemma fails_close {A : Type} (body : M A) (r : A -> bytes * Z * goerror) :
  J [] body -> fails_clean (id ← sdb_Snapshot; x ← body; close id (r x)).
Proof.
  intros HJ s x e s' Hwf Hok. pose proof (live_nil s Hok) as HL. unfold mbind, M_bind.
  destruct (sdb_Snapshot s) as [[id sid]|] eqn:Hs; [|done].
  pose proof (J_Snapshot [] s id sid Hwf HL Hs) as H0.
  destruct (body sid) as [[y s1]|] eqn:Hb; [|done]. intros Hc.
  pose proof (HJ sid y s1 (proj1 H0) (live_Jspec [] s sid HL H0) Hb) as H1.
  exact (close_spec [] s id sid s1 (r y) _ s' Hwf HL Hs H1 Hc).
Qed.

Lemma fails_ext {A : Type} (m m' : M (A * goerror)) : (forall s, m s = m' s) -> fails_clean m' -> fails_clean m.
Proof. intros He H s x e s' Hwf Hok Hr. rewrite He in Hr. by eapply H. Qed.

(** A query in front only loads. *)
Lemma CanTransfer_restored a n s b s' : sdb_wf s -> CanTransfer a n s = Some (b, s') -> restored s s'.
Proof.
  intros Hwf. unfold CanTransfer, sdb_GetBalance, query, mbind, M_bind. rewrite getStateObject_run.
  destruct (lookup_obj s a) as [o|] eqn:Ho; [|intros [= _ <-]; by apply restored_refl].
  assert (Hr : restored s (set_obj a o s)).
  { unfold restored. split_and!; [by apply sdb_wf_set_obj; [|eapply lookup_obj_ok]| |done|done|simpl; lia].
    eapply sdb_le_set_obj; [done|by apply obj_le_refl]. }
  destruct (so_deleted o); [by intros [= _ <-]|].
  unfold so_Balance, mbind, M_bind. rewrite (obj_run _ a o) by apply set_obj_lookup. by intros [= _ <-].
Qed.

Lemma fails_CanTransfer {A : Type} a n (f : bool -> M (A * goerror)) :
  (forall b, fails_clean (f b)) -> fails_clean (b ← CanTransfer a n; f b).
Proof.
  intros Hf s x e s' Hwf Hok. unfold mbind at 1, M_bind at 1.
  destruct (CanTransfer a n s) as [[b s1]|] eqn:Hc; [|done]. intros Hr.
  pose proof (CanTransfer_restored a n s b s1 Hwf Hc) as H1. pose proof H1 as (Hw1 & _ & _ & Hv1 & Hn1).
  eapply restored_trans; [exact H1|]. eapply (Hf b); [done| |exact Hr].
  unfold revs_ok in *. rewrite Hv1. eapply Forall_impl; [exact Hok|]. simpl. lia.
Qed.

(** What an ordinary call does under its snapshot. *)
Definition plain_body (evm : EVM) (caller : ContractRef) (addr : Address) (input : bytes) (gas value : Z)
    : M (bytes * Z * goerror) :=
  exist ← sdb_Exist addr;
  _ ← (if negb exist then sdb_CreateAccount addr else mret tt);
  _ ← Transfer (cr_Address caller) addr value;
  match precompile evm addr with
  | Some p => mret (RunPrecompiledContract p input gas)
  | None =>
      code ← sdb_GetCode addr;
      match default [] code with
      | [] => mret ([], gas, None)
      | c :: code =>
          hash ← sdb_GetCodeHash addr;
          Run evm (c_SetCallCode addr hash (c :: code) (NewContract caller addr (Some value) gas)) input false
      end
  end.

Lemma J_plain_body L evm caller addr input gas value : J L (plain_body evm caller addr input gas value).
Proof.
  unfold plain_body. apply J_bind; [journalled|]. intros ex.
  apply J_bind; [destruct (negb ex); [apply J_CreateAccount|apply J_ret]|]. intros _.
  apply J_bind; [apply J_Transfer|]. intros _. destruct (precompile evm addr); [apply J_ret|].
  apply J_bind; [apply J_GetCode|]. intros code. destruct (default [] code); [apply J_ret|].
  apply J_bind; [journalled|intros; apply Run_journalled].
Qed.

(** Sequencing is associative. *)
Lemma M_assoc {A B C : Type} (m : M A) (f : A -> M B) (g : B -> M C) s :
  ((m ≫= f) ≫= g) s = (m ≫= (fun x => f x ≫= g)) s.
Proof. unfold mbind, M_bind. by destruct (m s) as [[]|]. Qed.

Lemma M_bind_ext {A B : Type} (m : M A) (f g : A -> M B) s :
  (forall x s, f x s = g x s) -> (m ≫= f) s = (m ≫= g) s.
Proof. intros H. unfold mbind, M_bind. destruct (m s) as [[]|]; [apply H|done]. Qed.

Lemma Call_plain evm caller addr input gas value s :
  payload input = Ret None -> 
  Call evm caller addr input gas value s =
  guarded evm gas
    (ok ← can_pay None (cr_Address caller) addr value;
     if negb ok then mret ([], gas, Some ErrInsufficientBalance)
     else id ← sdb_Snapshot; r ← plain_body evm caller addr input gas value; close id r) s.
Proof.
  intros Hp. unfold Call, guarded, plain_body. rewrite Hp.
  destruct (_ && _); [done|]. destruct (_ <? _); [done|]. apply M_bind_ext. intros ok s0.
  destruct (negb ok); [done|]. apply M_bind_ext. intros id s1. symmetry. rewrite M_assoc. symmetry.
  apply M_bind_ext. intros ex s2. symmetry. rewrite M_assoc. symmetry. apply M_bind_ext. intros _ s3.
  rewrite !M_assoc. apply M_bind_ext. intros _ s4. done.
Qed.

Lemma fails_call k evm caller addr input gas :
  (forall v, k = KCall v -> payload input = Ret None) -> fails_clean (do_call k evm caller addr input gas).
Proof.
  intros Hk. destruct k as [v|v| |]; simpl.
  - eapply fails_ext; [intros s; apply Call_plain, (Hk v eq_refl)|]. unfold guarded.
    destruct (_ && _); [apply fails_ret|]. destruct (_ <? _); [apply fails_ret|].
    unfold can_pay. destruct (negb (v =? 0)).
    + apply fails_CanTransfer. intros b. destruct (negb b); [apply fails_ret|].
      apply (fails_close _ (fun r => r)), J_plain_body.
    + eapply (fails_ext _ (id ← sdb_Snapshot; r ← plain_body evm caller addr input gas v; close id r)); [done|].
      apply (fails_close _ (fun r => r)), J_plain_body.
  - unfold CallCode, guarded. destruct (_ && _); [apply fails_ret|]. destruct (_ <? _); [apply fails_ret|].
    apply fails_CanTransfer. intros b. destruct (negb b); [apply fails_ret|].
    apply (fails_close _ (fun r => r)), J_run_code.
  - unfold DelegateCall, guarded. destruct (_ && _); [apply fails_ret|]. destruct (_ <? _); [apply fails_ret|].
    apply (fails_close _ (fun r => r)), J_run_code.
  - unfold StaticCall, guarded. destruct (_ && _); [apply fails_ret|]. destruct (_ <? _); [apply fails_ret|].
    eapply (fails_ext _ (id ← sdb_Snapshot;
      r ← (_ ← sdb_AddBalance addr 0;
           run_code evm addr (Some (NewContract caller addr (Some 0) gas)) input gas true); close id r)).
    + intros s. apply M_bind_ext. intros id s1. by rewrite M_assoc.
    + apply (fails_close _ (fun r => r)). apply J_bind; [journalled|intros; apply J_run_code].
Qed.

(** * Properties *)

(** C15. A call that fails leaves no trace: for [CallCode], [DelegateCall], [StaticCall]
    and a [Call] whose input is not one of the chain's own payloads, if the call returns
    an error then the state afterwards shows what it showed before, with the same
    journal and the same revisions.  The interpreter is only assumed to change the state
    through journalled methods. *)
Theorem failed_call_restores (k : call_kind) (evm : EVM) (caller : ContractRef) (addr : Address)
    (input : bytes) (gas : Z) (s s' : StateDB) (ret : bytes) (left : Z) (e : string) :
  sdb_wf s -> revs_ok s -> (forall v, k = KCall v -> payload input = Ret None) ->
  do_call k evm caller addr input gas s = Some ((ret, left, Some e), s') ->
  sdb_wf s' /\ sdb_le s s' /\ entries s' = entries s /\ sdb_validRevisions s' = sdb_validRevisions s.
Proof.
  intros Hwf Hok Hk Hr. destruct (fails_call k evm caller addr input gas Hk s _ e s' Hwf Hok Hr) as (?&?&?&?&_).
  done.
Qed.

(** Whatever a call or a contract creation did, an enclosing snapshot undoes it:
    after a snapshot and a call of any kind, also one of the chain's own transactions
    that failed half way, [RevertToSnapshot] does not panic and restores the state. *)
Theorem calls_undone (m : M unit) (s s1 s2 : StateDB) (id : Z) :
  (exists k evm caller addr input gas, m = ignore (do_call k evm caller addr input gas)) \/
  (exists evm caller code hash gas value a, m = ignore (create evm caller code hash gas value a)) ->
  sdb_wf s -> revs_ok s -> sdb_Snapshot s = Some (id, s1) -> m s1 = Some (tt, s2) ->
  exists s3, sdb_RevertToSnapshot id s2 = Some (tt, s3) /\ sdb_wf s3 /\ sdb_le s s3 /\
    entries s3 = entries s /\ sdb_validRevisions s3 = sdb_validRevisions s.
Proof.
  intros Hm Hwf Hok Hs Hr. pose proof (live_nil s Hok) as HL.
  assert (HJ : J [] m).
  { destruct Hm as [(k & evm & caller & addr & input & gas & ->)|(evm & caller & code & hash & gas & v & a & ->)];
      apply J_bind; try (intros; apply J_ret); [|apply J_create].
    destruct k; [apply J_Call|apply J_CallCode|apply J_DelegateCall|apply J_StaticCall]. }
  pose proof (J_Snapshot [] s id s1 Hwf HL Hs) as H1.
  pose proof (HJ s1 tt s2 (proj1 H1) (live_Jspec [] s s1 HL H1) Hr) as H2.
  destruct (RevertToSnapshot_run s id s1 s2 Hwf Hok Hs H2) as (s3 & ? & ? & ? & ? & ? & _).
  by exists s3.
Qed.
End EvmRevert.
