(* ===== verification/InterpreterRevert.v ===== *)
(** The interpreter and the journal: every instruction and every gas function changes the
    state by journalled methods only, and so does a whole run.  With it the interpreter
    keeps the promise [JournalledMachine] the message calls rely on. *)
From stdpp Require Import strings.
From S2P Require Import Prelude Common Params ProtocolParams Wormholes StateTypes State StateDB StateRevert Staking Evm Machine Analysis Instructions GasTable JumpTable Interpreter Journalled EvmRevert.

Open Scope Z_scope.

#[export] Hint Unfold sdb_GetBalance sdb_GetNonce sdb_GetCode sdb_GetCodeHash sdb_GetCodeSize so_CodeSize sdb_Exist
  sdb_Empty sdb_GetState sdb_GetCommittedState sdb_HasSuicided sdb_AddressInAccessList sdb_SlotInAccessList
  sdb_AddBalance sdb_SetState sdb_GetNFTOwner16 sdb_GetNFTCreator sdb_IsExistNFT : jrnl.
#[export] Hint Unfold next unary binary ternary pushes asks store after_call after_create output : jrnl.
#[export] Hint Unfold opAdd opSub opMul opDiv opSdiv opMod opSmod opExp opSignExtend opNot opLt opGt opSlt opSgt
  opEq opIszero opAnd opOr opXor opByte opAddmod opMulmod opSHL opSHR opSAR opSha3 opAddress opBalance opOrigin
  opCaller opCallValue opCallDataLoad opCallDataSize opCallDataCopy opReturnDataSize opReturnDataCopy
  opExtCodeSize opCodeSize opCodeCopy opExtCodeCopy opExtCodeHash opGasprice opBlockhash opCoinbase opTimestamp
  opNumber opDifficulty opGasLimit opChainID opBaseFee opSelfBalance opPop opMload opMstore opMstore8 opSload
  opSstore opJump opJumpi opJumpdest opPc opMsize opGas opPush1 makePush makeDup makeSwap opCall opCallCode
  opDelegateCall opStaticCall opCreate opCreate2 opReturn opRevert opStop opSuicide makeLog opNBalanceOf
  opNOwnerOf opNCreator opNIsExist : jrnl.
#[export] Hint Unfold with_memory back pureMemoryGascost gasReturn gasRevert gasMLoad gasMStore8 gasMStore
  gasCreate per_word memoryCopierGas gasCallDataCopy gasCodeCopy gasExtCodeCopy gasReturnDataCopy gasSha3
  gasCreate2 makeGasLog gasExp gasExpFrontier gasExpEIP158 dirty_refunds net_metered gasSStore gasSStoreEIP2200
  makeGasSStoreFunc gasSStoreEIP2929 gasSStoreEIP3529 gasSLoadEIP2929 gasExtCodeCopyEIP2929
  gasEip2929AccountCheck pay_call gasCall gasCallCode gasDelegateCall gasStaticCall
  makeCallVariantGasCallEIP2929 gasCallEIP2929 gasDelegateCallEIP2929 gasStaticCallEIP2929 gasCallCodeEIP2929
  empty_and_paid refund_suicide gasSelfdestruct makeSelfdestructGasFn gasSelfdestructEIP2929
  gasSelfdestructEIP3529 : jrnl.

(** Message calls that can be undone. *)
Record journalled_calls {CR : Crypto} (K : Calls) : Prop := {
  jc_Call : forall L evm c a i g v, J L (k_Call K evm c a i g v);
  jc_CallCode : forall L evm c a i g v, J L (k_CallCode K evm c a i g v);
  jc_DelegateCall : forall L evm c a i g, J L (k_DelegateCall K evm c a i g);
  jc_StaticCall : forall L evm c a i g, J L (k_StaticCall K evm c a i g);
  jc_Create : forall L evm c i g v, J L (k_Create K evm c i g v);
  jc_Create2 : forall L evm c i g v salt, J L (k_Create2 K evm c i g v salt);
}.

Section InterpreterRevert.
  Context {CR : Crypto} {U : Uint256}.

Lemma calls_of_journalled (MA : Machine) {JM : JournalledMachine MA} : journalled_calls (calls_of MA).
Proof.
  split; intros; simpl;
    [apply J_Call|apply J_CallCode|apply J_DelegateCall|apply J_StaticCall| |unfold Create2; apply J_create].
  unfold Create. journalled. apply J_create.
Qed.

(** ** Instructions *)

#[local] Ltac instruction HK :=
  first [apply J_so_Code | apply (jc_Call _ HK) | apply (jc_CallCode _ HK) | apply (jc_DelegateCall _ HK)
        | apply (jc_StaticCall _ HK) | apply (jc_Create _ HK) | apply (jc_Create2 _ HK)].

(** An operation whose instruction and whose price can be undone. *)
Definition op_journalled (o : operation) : Prop :=
  (forall sc fr L, journalled_calls (x_calls sc) -> J L (o_execute o sc fr)) /\
  (forall f sc fr ms L, o_dynamicGas o = Some f -> J L (f sc fr ms)).

Lemma op_journalled_op e g p q :
  (forall sc fr L, journalled_calls (x_calls sc) -> J L (e sc fr)) -> op_journalled (op e g p q).
Proof. by split. Qed.

Lemma op_journalled_dynamic f o :
  (forall sc fr ms L, J L (f sc fr ms)) -> op_journalled o -> op_journalled (dynamic f o).
Proof. intros Hf [He _]. split; [done|]. by intros ? ? ? ? ? [= <-]. Qed.

(** The other fields do not matter. *)
Lemma op_journalled_same o o' :
  o_execute o' = o_execute o -> o_dynamicGas o' = o_dynamicGas o -> op_journalled o -> op_journalled o'.
Proof. intros He Hd [H1 H2]. split; intros *; rewrite ?He, ?Hd; [apply H1|apply H2]. Qed.

#[local] Ltac operation :=
  lazymatch goal with
  | |- op_journalled (op _ _ _ _) => apply op_journalled_op; intros sc fr L HK; journalled; instruction HK
  | |- op_journalled (dynamic _ _) => apply op_journalled_dynamic; [intros sc fr ms L; by journalled|operation]
  | |- op_journalled (sized _ ?o) => apply (op_journalled_same o); [reflexivity|reflexivity|operation]
  | |- op_journalled (_ ?o) => apply (op_journalled_same o); [reflexivity|reflexivity|operation]
  end.

Lemma table_journalled : table_rules (fun _ => op_journalled).
Proof.
  split; [split|].
  - repeat apply Forall_cons_2; [..|by apply Forall_nil_2]. all: operation.
  - repeat apply Forall_cons_2; [..|by apply Forall_nil_2]. all: operation.
  - repeat apply Forall_cons_2; [..|by apply Forall_nil_2]; intros o Ho; by eapply op_journalled_same.
  - repeat apply Forall_cons_2; [..|by apply Forall_nil_2]; intros o Ho;
      (apply op_journalled_dynamic; [intros sc fr ms L; by journalled|done]).
  - repeat apply Forall_cons_2; [..|by apply Forall_nil_2]; intros o Ho;
      (apply op_journalled_dynamic; [intros sc fr ms L; by journalled|by eapply op_journalled_same]).
Qed.

(** ** Runs *)

Lemma J_step evm L sc fr : journalled_calls (x_calls sc) -> J L (step (jump_table evm) sc fr).
Proof.
  intros HK. unfold step. destruct (jump_table evm !! _) as [o|] eqn:Ho; [|apply J_ret].
  pose proof (jump_table_all _ (tr_early _ table_journalled) evm _ o table_journalled Ho) as [He Hd].
  do 2 (destruct (_ <? _); [apply J_ret|]). unfold write_protected, perform, use_dynamic_gas, exit.
  journalled; [by apply Hd|by apply He].
Qed.

Lemma J_loop evm fuel L sc fr : journalled_calls (x_calls sc) -> J L (loop fuel (jump_table evm) sc fr).
Proof.
  intros HK. revert fr. induction fuel as [|fuel IH]; intros fr; simpl; [apply J_panic|].
  apply J_bind; [by apply J_step|]. intros [fr' [[ret err]|]]; [apply J_ret|apply IH].
Qed.

Lemma RunWith_journalled K evm c i ro L : journalled_calls K -> J L (RunWith K evm c i ro).
Proof. intros HK. unfold RunWith. destruct (c_Code c); [apply J_ret|by apply J_loop]. Qed.

Lemma interpreter_journalled d MA : JournalledMachine MA -> JournalledMachine (interpreter d MA).
Proof.
  intros HM. induction d as [|d IH]; [done|].
  intros evm c i ro L. simpl. by apply RunWith_journalled, calls_of_journalled.
Qed.

#[export] Instance EVMInterpreter_journalled MA : JournalledMachine (EVMInterpreter MA).
Proof. apply interpreter_journalled. intros evm c i ro L. apply J_panic. Qed.

(** * Properties *)

(** C24. Whatever a contract does can be undone.  After a run of the interpreter that
    started under a snapshot, with all instructions, nested calls and creations it made,
    reverting to the snapshot succeeds and the state shows what it showed when the
    snapshot was taken. *)
Theorem Run_reverts (MA : Machine) (evm : EVM) (c : Contract) (input : bytes) (readOnly : bool)
    (s s1 s2 : StateDB) (id : Z) (r : bytes * Z * goerror) :
  sdb_wf s -> revs_ok s -> sdb_Snapshot s = Some (id, s1) ->
  Run (Machine := EVMInterpreter MA) evm c input readOnly s1 = Some (r, s2) ->
  exists s3, sdb_RevertToSnapshot id s2 = Some (tt, s3) /\ sdb_wf s3 /\ sdb_le s s3.
Proof.
  intros Hwf Hok Hs Hr. pose proof (live_nil s Hok) as HL. pose proof (J_Snapshot [] s id s1 Hwf HL Hs) as H0.
  pose proof (Run_journalled evm c input readOnly [] s1 r s2 (proj1 H0) (live_Jspec [] s s1 HL H0) Hr) as H1.
  destruct (RevertToSnapshot_run s id s1 s2 Hwf Hok Hs H1) as (s3 & Hr3 & Hw3 & Hle & _). by exists s3.
Qed.
End InterpreterRevert.
