(* ===== verification/Frames.v ===== *)
(** The frames of a run.

    Every instruction changes the height of the stack by what the table says, keeps the
    size of the memory, and leaves no more gas than it found and was lent for calls;
    every gas function asks for what the call is lent.  So a round keeps the frame within
    its limits and takes gas unless it ends the run. *)
From stdpp Require Import strings.
From S2P Require Import Prelude Common Params ProtocolParams Wormholes StateTypes State StateDB Staking Evm Machine Analysis Instructions GasTable JumpTable Interpreter Journalled InterpreterRevert.

Open Scope Z_scope.

(** ** Results *)

(** Every result of [m] satisfies [P]. *)
Definition post {A : Type} (m : M A) (P : A -> Prop) : Prop := forall s x s', m s = Some (x, s') -> P x.

Lemma post_ret {A : Type} (x : A) (P : A -> Prop) : P x -> post (mret x) P.
Proof. by intros Hx s y s' [= <- _]. Qed.

Lemma post_panic {A : Type} (P : A -> Prop) : post panic P.
Proof. by intros s y s'. Qed.

Lemma post_bind {A B : Type} (m : M A) (f : A -> M B) (P : B -> Prop) :
  (forall x, post (f x) P) -> post (m ≫= f) P.
Proof. intros Hf s y s'. unfold mbind, M_bind. destruct (m s) as [[x s1]|]; [|done]. apply Hf. Qed.

Lemma post_bind' {A B : Type} (m : M A) (f : A -> M B) (R : A -> Prop) (P : B -> Prop) :
  post m R -> (forall x, R x -> post (f x) P) -> post (m ≫= f) P.
Proof.
  intros Hm Hf s y s'. unfold mbind, M_bind. destruct (m s) as [[x s1]|] eqn:Hr; [|done].
  apply Hf. by eapply Hm.
Qed.

Lemma post_deref {A B : Type} (o : option A) (f : A -> M B) (P : B -> Prop) :
  (forall x, o = Some x -> post (f x) P) -> post (deref o ≫= f) P.
Proof. intros Hf. destruct o as [x|]; [by apply Hf|]. by intros s y s'. Qed.

Lemma post_mono {A : Type} (m : M A) (P R : A -> Prop) : post m R -> (forall x, R x -> P x) -> post m P.
Proof. intros Hm HP s x s' Hr. by eapply HP, Hm. Qed.

Lemma post_and {A : Type} (m : M A) (P R : A -> Prop) : post m P -> post m R -> post m (fun x => P x /\ R x).
Proof. intros HP HR s x s' Hr. split; [by eapply HP|by eapply HR]. Qed.

(** ** Memory *)

Lemma u64_bounds x : 0 <= u64 x < 2 ^ 64.
Proof. by apply Z.mod_pos_bound. Qed.

Lemma u64_small x : 0 <= x < 2 ^ 64 -> u64 x = x.
Proof. apply Z.mod_small. Qed.

Lemma u64_wrap x y : 0 <= x < 2 ^ 64 -> 0 <= y < 2 ^ 64 -> x <= u64 (x + y) -> u64 (x + y) = x + y.
Proof.
  intros Hx Hy Hle. destruct (decide (x + y < 2 ^ 64)); [apply u64_small; lia|].
  assert (u64 (x + y) = x + y - 2 ^ 64); [|lia]. unfold u64.
  rewrite <- (Z.mod_add (x + y) (-1)) by lia. apply Z.mod_small. lia.
Qed.

Lemma copy_into_length st offset size value :
  0 <= offset -> offset + size <= Z.of_nat (length st) -> length (copy_into st offset size value) = length st.
Proof.
  intros Ho Hs. unfold copy_into. rewrite !length_app, !length_take, length_drop. lia.
Qed.

(** Two memories of the same size and price. *)
Definition mem_same (m m' : Memory) : Prop := mem_Len m' = mem_Len m /\ mem_lastGasCost m' = mem_lastGasCost m.

Lemma mem_Set_same offset size v m m' :
  0 <= offset < 2 ^ 64 -> 0 <= size < 2 ^ 64 -> mem_Set offset size v m = Some m' -> mem_same m m'.
Proof.
  intros Ho Hs. unfold mem_Set. destruct (0 <? size) eqn:H0; [|by intros [= <-]].
  destruct (_ || _) eqn:Hc; [done|]. apply orb_false_iff in Hc as [H1 H2]. intros [= <-]. split; [|done].
  apply Z.ltb_ge in H1, H2. rewrite u64_wrap in H1 by lia. unfold mem_Len in *. simpl.
  by rewrite copy_into_length by lia.
Qed.

Lemma mem_Set32_same offset v m m' : 0 <= offset < 2 ^ 64 -> mem_Set32 offset v m = Some m' -> mem_same m m'.
Proof.
  intros Ho. unfold mem_Set32. destruct (_ || _) eqn:Hc; [done|]. apply orb_false_iff in Hc as [H1 H2].
  intros [= <-]. split; [|done]. apply Z.ltb_ge in H1, H2. rewrite u64_wrap in H1 by lia.
  unfold mem_Len in *. simpl. by rewrite copy_into_length by lia.
Qed.

Lemma mem_SetByte_same offset v m m' : mem_SetByte offset v m = Some m' -> mem_same m m'.
Proof.
  unfold mem_SetByte. destruct (_ <? _); [|done]. intros [= <-]. split; [|done].
  unfold mem_Len. simpl. by rewrite length_insert.
Qed.

(** The memory is whole words, within the limit of the price, and paid for. *)
Definition max_memory : Z := 0x1FFFFFFFE0.
Definition mem_ok (m : Memory) : Prop :=
  mem_Len m mod 32 = 0 /\ mem_Len m <= max_memory /\ mem_lastGasCost m = memory_fee (mem_Len m / 32).

Lemma memory_fee_eq w : 0 <= w < 2 ^ 32 -> memory_fee w = 3 * w + w * w / 512.
Proof.
  intros Hw. unfold memory_fee, MemoryGas, QuadCoeffDiv. assert (w * w < 2 ^ 64) by nia.
  assert (0 <= w * w / 512 < 2 ^ 55) by (split; [apply Z.div_pos; nia|apply Z.div_lt_upper_bound; nia]).
  rewrite !u64_small; [lia|nia|lia|]. rewrite !u64_small by nia. lia.
Qed.

Lemma memory_fee_bounds w w' : 0 <= w <= w' -> w' < 2 ^ 32 -> 0 <= memory_fee w <= memory_fee w' /\ memory_fee w' < 2 ^ 56.
Proof.
  intros Hw Hw'. rewrite !memory_fee_eq by lia.
  assert (0 <= w * w / 512) by (apply Z.div_pos; nia).
  assert (w * w / 512 <= w' * w' / 512) by (apply Z.div_le_mono; nia).
  assert (w' * w' / 512 < 2 ^ 55) by (apply Z.div_lt_upper_bound; nia). lia.
Qed.

Lemma toWordSize_eq n : 0 <= n < 2 ^ 64 - 32 -> toWordSize n = (n + 31) / 32.
Proof. intros Hn. unfold toWordSize. destruct (_ <? _) eqn:E; [lia|done]. Qed.

Lemma mem_Resize_len n m : mem_Len m < n -> mem_Len (mem_Resize n m) = n.
Proof.
  intros Hn. unfold mem_Resize. rewrite (proj2 (Z.ltb_lt _ _)) by done. unfold mem_Len in *. simpl.
  rewrite length_app, length_replicate. lia.
Qed.

Lemma mem_Resize_cost n m : mem_lastGasCost (mem_Resize n m) = mem_lastGasCost m.
Proof. unfold mem_Resize. by destruct (_ <? _). Qed.

(** Pricing a size and then making room keeps the memory in order. *)
Lemma memoryGasCost_ok m ms fee m' :
  mem_ok m -> 0 <= ms -> ms mod 32 = 0 -> memoryGasCost m ms = (Ret fee, m') ->
  0 <= fee < 2 ^ 56 /\ mem_store m' = mem_store m /\ mem_ok (if 0 <? ms then mem_Resize ms m' else m').
Proof.
  intros (Hmod & Hmax & Hfee) Hms Hm32. unfold memoryGasCost, max_memory in *.
  destruct (ms =? 0) eqn:E0; [intros [= <- <-]; apply Z.eqb_eq in E0; subst; split_and!; simpl; try done; lia|].
  destruct (_ <? ms) eqn:E1; [done|]. apply Z.ltb_ge in E1. apply Z.eqb_neq in E0.
  pose proof (Zle_0_nat (length (mem_store m))) as Hlen. fold (mem_Len m) in Hlen.
  rewrite toWordSize_eq by lia.
  assert (Hw : (ms + 31) / 32 = ms / 32).
  { pose proof (Z.div_mod ms 32). rewrite Hm32 in *. rewrite (Z.div_unique (ms + 31) 32 (ms / 32) 31); lia. }
  assert (Hms' : ms / 32 * 32 = ms) by (pose proof (Z.div_mod ms 32); lia).
  rewrite Hw, Hms'. rewrite (proj2 (Z.ltb_lt 0 ms)) by lia.
  destruct (mem_Len m <? ms) eqn:E2; intros [= <- <-].
  - apply Z.ltb_lt in E2.
    assert (0 <= mem_Len m / 32 <= ms / 32) by (split; [apply Z.div_pos; lia|apply Z.div_le_mono; lia]).
    assert (ms / 32 < 2 ^ 32) by (apply Z.div_lt_upper_bound; lia).
    pose proof (memory_fee_bounds (mem_Len m / 32) (ms / 32) ltac:(lia) ltac:(lia)) as [? ?].
    rewrite Hfee, u64_small by lia. split; [lia|]. split; [done|]. unfold mem_ok.
    rewrite mem_Resize_cost, mem_Resize_len by done. split_and!; [done|exact E1|done].
  - split; [lia|]. split; [done|]. unfold mem_Resize. by rewrite E2.
Qed.

(** ** Calls *)

(** Message calls that return no more gas than they get. *)
Record gas_calls {CR : Crypto} (K : Calls) : Prop := {
  gc_Call : forall evm c a i g v, rules_ordered evm -> 0 <= g < 2 ^ 64 -> gas_within 0 g (k_Call K evm c a i g v);
  gc_CallCode : forall evm c a i g v,
    rules_ordered evm -> 0 <= g < 2 ^ 64 -> gas_within 0 g (k_CallCode K evm c a i g v);
  gc_DelegateCall : forall evm c a i g,
    rules_ordered evm -> 0 <= g < 2 ^ 64 -> gas_within 0 g (k_DelegateCall K evm c a i g);
  gc_StaticCall : forall evm c a i g,
    rules_ordered evm -> 0 <= g < 2 ^ 64 -> gas_within 0 g (k_StaticCall K evm c a i g);
  gc_Create : forall evm c i g v s ret addr left err s', rules_ordered evm -> 0 <= g < 2 ^ 64 ->
    k_Create K evm c i g v s = Some ((ret, addr, left, err), s') -> 0 <= left <= g;
  gc_Create2 : forall evm c i g v salt s ret addr left err s', rules_ordered evm -> 0 <= g < 2 ^ 64 ->
    k_Create2 K evm c i g v salt s = Some ((ret, addr, left, err), s') -> 0 <= left <= g;
}.

Section Frames.
  Context {CR : Crypto} {U : Uint256}.

Lemma calls_of_gas (MA : Machine) {GM : GasMachine MA} : gas_calls (calls_of MA).
Proof.
  split; intros; simpl in *;
    [by apply Call_gas|by apply CallCode_gas|by apply DelegateCall_gas|by apply StaticCall_gas
    |by eapply Create_gas|by eapply create_gas].
Qed.

(** What a call is lent: the gas set aside, and the stipend if it carries a value. *)
Definition lent (code : Z) (fr : frame) : Z :=
  if bool_decide (code = Op.CALL \/ code = Op.CALLCODE) then
    f_callGasTemp fr + (if default 0 (f_stack fr !! 2%nat) =? 0 then 0 else CallStipend)
  else if bool_decide (code = Op.DELEGATECALL \/ code = Op.STATICCALL) then f_callGasTemp fr
  else 0.

(** What an instruction leaves that changes the height of the stack by [delta]. *)
Definition executed (code delta : Z) (fr : frame) : frame * bytes * goerror -> Prop := fun '(fr', _, err) =>
  (err = None -> Z.of_nat (length (f_stack fr')) = Z.of_nat (length (f_stack fr)) + delta) /\
  mem_same (f_mem fr) (f_mem fr') /\
  f_callGasTemp fr' = f_callGasTemp fr /\
  0 <= f_gas fr' <= f_gas fr + lent code fr.

Definition exec_ok (code delta : Z) (e : executionFunc) : Prop :=
  forall sc fr, gas_calls (x_calls sc) -> rules_ordered (x_evm sc) ->
    0 <= f_gas fr -> 0 <= f_callGasTemp fr -> f_gas fr + lent code fr < 2 ^ 64 ->
    post (e sc fr) (executed code delta fr).

Lemma lent_nonneg code fr : 0 <= f_callGasTemp fr -> 0 <= lent code fr.
Proof. intros H. unfold lent, CallStipend. repeat case_bool_decide; [|lia|lia]. destruct (_ =? 0); lia. Qed.

Lemma mem_same_refl m : mem_same m m.
Proof. done. Qed.

(** Run an instruction down to its results. *)
#[local] Ltac p_step :=
  lazymatch goal with
  | |- post (mret _) _ => apply post_ret
  | |- post panic _ => apply post_panic
  | |- post (deref _ ≫= _) _ => apply post_deref; intros ? ?
  | |- post (_ ≫= _) _ => apply post_bind; intros ?
  | |- post (match _ with _ => _ end) _ => case_match
  | |- post _ _ => progress (autounfold with jrnl)
  end; cbv beta zeta.

#[local] Ltac height :=
  intros _; simpl;
  repeat match goal with
    | H : f_stack _ = _ |- _ => rewrite H; clear H
    | H : (_ <? _)%nat = false |- _ => apply Nat.ltb_ge in H
    end;
  simpl; rewrite ?length_insert, ?length_drop; lia.

#[local] Ltac same_memory :=
  first [ apply mem_same_refl
        | eapply mem_Set_same; [apply u64_bounds|apply u64_bounds|eassumption]
        | eapply mem_Set32_same; [apply u64_bounds|eassumption]
        | eapply mem_SetByte_same; eassumption ].

#[local] Ltac plain :=
  intros sc fr HK Ho Hg Ht Hlt;
  match type of Hlt with _ + ?l < _ => assert (0 <= l) by (by apply lent_nonneg) end; repeat p_step; simpl;
  (split_and!; [height|same_memory|reflexivity|assumption|lia]).

Lemma after_call_ok code n st fr ret left err ro rs :
  0 <= left <= lent code fr -> 0 <= f_gas fr -> f_gas fr + lent code fr < 2 ^ 64 ->
  length (f_stack fr) = (n + length st)%nat ->
  post (after_call ro rs st fr (ret, left, err)) (executed code (1 - Z.of_nat n) fr).
Proof.
  intros Hl Hg Hlt Hst. unfold after_call.
  apply (post_bind' _ _ (fun m => mem_same (f_mem fr) m)).
  - destruct (_ || _); [|by apply post_ret].
    destruct (mem_Set _ _ _ _) as [m|] eqn:Hm; [|apply post_panic].
    apply post_ret. by eapply mem_Set_same; [apply u64_bounds|apply u64_bounds|].
  - intros m Hm. apply post_ret. simpl. rewrite u64_small by lia. split_and!; [lia|exact Hm|done|lia|lia].
Qed.


Lemma call_ok code n st fr m ro rs :
  gas_within 0 (lent code fr) m -> 0 <= f_gas fr -> f_gas fr + lent code fr < 2 ^ 64 ->
  length (f_stack fr) = (n + length st)%nat ->
  post (res ← m; after_call ro rs st fr res) (executed code (1 - Z.of_nat n) fr).
Proof.
  intros Hm Hg Hlt Hst. apply (post_bind' _ _ (fun r => 0 <= r.1.2 <= lent code fr)).
  - intros s [[ret l] err] s' Hr. by eapply Hm.
  - intros [[ret l] err] Hl. by apply after_call_ok.
Qed.

(** Pop the operands, read the arguments and make the call. *)
#[local] Ltac call_with sc fr :=
  intros HK Ho Hg Ht Hlt; unfold opCall, opCallCode, opDelegateCall, opStaticCall;
  destruct (f_stack fr) as [|? [|? [|? [|? [|? [|? st]]]]]] eqn:Est; try apply post_panic;
  try (destruct st as [|? st]; [apply post_panic|]);
  apply post_deref; intros args _.

Lemma stipend_lent code fr value : code = Op.CALL \/ code = Op.CALLCODE ->
  f_stack fr !! 2%nat = Some value -> 0 <= f_callGasTemp fr -> 0 <= f_gas fr -> f_gas fr + lent code fr < 2 ^ 64 ->
  stipend value (f_callGasTemp fr) = lent code fr.
Proof.
  intros Hc Hv Ht Hg. unfold lent, stipend. rewrite bool_decide_true, Hv by done. simpl.
  destruct (value =? 0); simpl; intros Hlt; [lia|]. apply u64_small. unfold CallStipend in *. lia.
Qed.

Lemma opCall_ok : exec_ok Op.CALL (-6) opCall.
Proof.
  intros sc fr. call_with sc fr. apply (call_ok _ 7); [|done|done|by rewrite Est].
  rewrite (stipend_lent Op.CALL) by (first [left; done|done|by rewrite Est]).
  pose proof (lent_nonneg Op.CALL fr Ht). apply (gc_Call _ HK); [done|lia].
Qed.

Lemma opCallCode_ok : exec_ok Op.CALLCODE (-6) opCallCode.
Proof.
  intros sc fr. call_with sc fr. apply (call_ok _ 7); [|done|done|by rewrite Est].
  rewrite (stipend_lent Op.CALLCODE) by (first [right; done|done|by rewrite Est]).
  pose proof (lent_nonneg Op.CALLCODE fr Ht). apply (gc_CallCode _ HK); [done|lia].
Qed.

Lemma opDelegateCall_ok : exec_ok Op.DELEGATECALL (-5) opDelegateCall.
Proof.
  intros sc fr. call_with sc fr. apply (call_ok _ 6); [|done|done|by rewrite Est].
  change (lent Op.DELEGATECALL fr) with (f_callGasTemp fr) in *. apply (gc_DelegateCall _ HK); [done|lia].
Qed.

Lemma opStaticCall_ok : exec_ok Op.STATICCALL (-5) opStaticCall.
Proof.
  intros sc fr. call_with sc fr. apply (call_ok _ 6); [|done|done|by rewrite Est].
  change (lent Op.STATICCALL fr) with (f_callGasTemp fr) in *. apply (gc_StaticCall _ HK); [done|lia].
Qed.

(** A creation returns at most what it took. *)
Lemma create_ok failed n gas st fr (m : M (bytes * Address * Z * goerror)) code :
  (forall s ret addr l err s', m s = Some ((ret, addr, l, err), s') -> 0 <= l <= gas) ->
  0 <= gas <= f_gas fr -> f_gas fr < 2 ^ 64 -> 0 <= lent code fr ->
  length (f_stack fr) = (n + length st)%nat ->
  post (res ← m; after_create failed gas st fr res) (executed code (1 - Z.of_nat n) fr).
Proof.
  intros Hm Hg Hlt Hl Hst. apply (post_bind' _ _ (fun r => 0 <= r.1.2 <= gas)).
  - intros s [[[ret addr] l] err] s' Hr. by eapply Hm.
  - intros [[[ret addr] l] err] Hle. simpl in Hle. apply post_ret. simpl. unfold c_UseGas.
    rewrite (proj2 (Z.ltb_ge _ _)) by lia. simpl. rewrite u64_small by lia.
    split_and!; [intros _; lia|done|done|lia|lia].
Qed.

Lemma sixty_fourth g : 0 <= g -> 0 <= g - g / 64 <= g.
Proof. intros Hg. assert (0 <= g / 64) by (apply Z.div_pos; lia). assert (g / 64 <= g) by (apply Z.div_le_upper_bound; lia). lia. Qed.

Lemma opCreate_ok : exec_ok Op.CREATE (-2) opCreate.
Proof.
  intros sc fr HK Ho Hg Ht Hlt. unfold opCreate. pose proof (lent_nonneg Op.CREATE fr Ht).
  destruct (f_stack fr) as [|? [|? [|? st]]] eqn:Est; try apply post_panic. apply post_deref. intros args _.
  pose proof (sixty_fourth (f_gas fr) Hg). set (gas := if evm_IsEIP150 _ then _ else _).
  assert (0 <= gas <= f_gas fr) by (unfold gas; destruct (evm_IsEIP150 _); lia). clearbody gas.
  apply (create_ok _ 3); [|done|lia|done|by rewrite Est].
  intros s ret addr l err s'. apply (gc_Create _ HK); [done|lia].
Qed.

Lemma opCreate2_ok : exec_ok Op.CREATE2 (-3) opCreate2.
Proof.
  intros sc fr HK Ho Hg Ht Hlt. unfold opCreate2. pose proof (lent_nonneg Op.CREATE2 fr Ht).
  destruct (f_stack fr) as [|? [|? [|? [|? st]]]] eqn:Est; try apply post_panic. apply post_deref. intros args _.
  pose proof (sixty_fourth (f_gas fr) Hg). apply (create_ok _ 4); [|done|lia|done|by rewrite Est].
  intros s ret addr l err s'. apply (gc_Create2 _ HK); [done|lia].
Qed.

(** ** Prices *)

(** The operations that need memory. *)
Definition sized_codes : list Z :=
  [Op.SHA3; Op.CALLDATACOPY; Op.CODECOPY; Op.EXTCODECOPY; Op.RETURNDATACOPY; Op.MLOAD; Op.MSTORE; Op.MSTORE8;
   Op.LOG0; Op.LOG1; Op.LOG2; Op.LOG3; Op.LOG4; Op.CREATE; Op.CREATE2; Op.CALL; Op.CALLCODE; Op.DELEGATECALL;
   Op.STATICCALL; Op.RETURN; Op.REVERT].

(** What a gas function leaves: no more gas than before and, when it names a price, the
    memory priced, the rest of the frame as it was but for the gas set aside, and a price
    that covers what is lent. *)
Definition priced (code ms : Z) (fr : frame) : outcome Z * frame -> Prop := fun '(r, fr') =>
  0 <= f_gas fr' <= f_gas fr /\
  forall cost, r = Ret cost ->
    0 <= cost /\ f_gas fr' = f_gas fr /\ f_stack fr' = f_stack fr /\ 0 <= f_callGasTemp fr' /\
    (if bool_decide (code ∈ sized_codes) then exists fee, memoryGasCost (f_mem fr) ms = (Ret fee, f_mem fr')
     else f_mem fr' = f_mem fr) /\
    (cost <= f_gas fr -> lent code fr' <= cost).

(** [early] marks the rules before Berlin. *)
Definition dyn_ok (early : bool) (code : Z) (f : gasFunc) : Prop :=
  forall sc fr ms, early || evm_IsEIP150 (x_evm sc) = true ->
    mem_ok (f_mem fr) -> 0 <= f_gas fr < 2 ^ 64 -> 0 <= f_callGasTemp fr -> 0 <= ms -> ms mod 32 = 0 ->
    post (f sc fr ms) (priced code ms fr).

Definition not_call (code : Z) : Prop :=
  code <> Op.CALL /\ code <> Op.CALLCODE /\ code <> Op.DELEGATECALL /\ code <> Op.STATICCALL.

(** Facts about a given opcode. *)
#[local] Ltac by_code := apply (bool_decide_unpack _); vm_compute; exact I.

#[global] Instance not_call_dec code : Decision (not_call code).
Proof. unfold not_call. apply _. Defined.

Lemma lent_not_call code fr : not_call code -> lent code fr = 0.
Proof. intros (?&?&?&?). unfold lent. rewrite !bool_decide_false by tauto. done. Qed.

Lemma safe_add_Ret x y z : 0 <= x -> 0 <= y -> safe_add x y = Ret z -> z = x + y /\ x + y < 2 ^ 64.
Proof.
  intros Hx Hy. unfold safe_add, SafeAdd. destruct (_ <=? _) eqn:E; [done|]. intros [= <-].
  rewrite u64_small by lia. lia.
Qed.

Lemma safe_mul_Ret x y z : 0 <= x -> 0 <= y -> safe_mul x y = Ret z -> z = x * y.
Proof.
  intros Hx Hy. unfold safe_mul, SafeMul. destruct (_ <=? _) eqn:E; [done|]. intros [= <-].
  apply u64_small. nia.
Qed.

Lemma to_uint64_Ret x z : to_uint64 x = Ret z -> 0 <= z < 2 ^ 64.
Proof. unfold to_uint64. simpl. destruct (negb _); [done|]. intros [= <-]. apply u64_bounds. Qed.

Lemma toWordSize_nonneg n : 0 <= n -> 0 <= toWordSize n.
Proof. intros Hn. unfold toWordSize. destruct (_ <? _); [done|]. apply Z.div_pos; lia. Qed.

(** A price that leaves the frame alone and is at least [least]. *)
Definition fixed_price (least : Z) (f : gasFunc) : Prop :=
  forall sc fr ms, post (f sc fr ms) (fun '(r, fr') => fr' = fr /\ forall cost, r = Ret cost -> least <= cost).

Lemma dyn_ok_fixed early code least f :
  0 <= least -> not_call code -> code ∉ sized_codes -> fixed_price least f -> dyn_ok early code f.
Proof.
  intros Hl Hn Hs Hf sc fr ms _ _ Hg Ht _ _. eapply post_mono; [apply Hf|]. intros [r fr'] [-> Hr].
  split; [lia|]. intros cost Hc. specialize (Hr cost Hc). rewrite bool_decide_false, lent_not_call by done. split_and!; done || lia.
Qed.

Lemma net_metered_least lo noop init clean dirty clear reset_clear reset a k c v :
  lo <= noop -> lo <= init -> lo <= clean -> lo <= dirty ->
  post (net_metered noop init clean dirty clear reset_clear reset a k c v) (fun g => lo <= g).
Proof.
  intros. unfold net_metered. case_match; [by apply post_ret|]. apply post_bind. intros o.
  repeat (case_match; [|by apply post_bind; intros; apply post_ret]). by apply post_ret.
Qed.

(** Run a price down to its results. *)
#[local] Ltac price :=
  repeat p_step; (split; [reflexivity|]); intros ? [=]; subst; try done.

Lemma gasSStore_price : fixed_price 200 gasSStore.
Proof.
  intros sc fr ms. unfold gasSStore, back. do 2 (apply post_deref; intros ? _). apply post_bind. intros c.
  case_match; [price|]. eapply post_bind'; [by apply (net_metered_least 200)|]. intros g Hg. price.
Qed.

Lemma gasSStoreEIP2200_price : fixed_price 800 gasSStoreEIP2200.
Proof.
  intros sc fr ms. unfold gasSStoreEIP2200, back. case_match; [price|].
  do 2 (apply post_deref; intros ? _). apply post_bind. intros c.
  eapply post_bind'; [by apply (net_metered_least 800)|]. intros g Hg. price.
Qed.

Lemma makeGasSStoreFunc_price r : fixed_price 100 (makeGasSStoreFunc r).
Proof.
  intros sc fr ms. unfold makeGasSStoreFunc, back. case_match; [price|].
  do 2 (apply post_deref; intros ? _). do 2 (apply post_bind; intros ?). case_match.
  apply (post_bind' _ _ (fun cost => 0 <= cost)).
  { case_match; [|by apply post_ret]. apply post_bind. intros _. case_match; [apply post_panic|by apply post_ret]. }
  intros cost Hc. eapply post_bind'; [by apply (net_metered_least 100)|]. intros g Hg. price. simpl in Hg. lia.
Qed.

Lemma gasSLoadEIP2929_price : fixed_price 100 gasSLoadEIP2929.
Proof. intros sc fr ms. price. Qed.

Lemma gasEip2929AccountCheck_price : fixed_price 0 gasEip2929AccountCheck.
Proof. intros sc fr ms. price. Qed.

Lemma gasExp_price b : 0 <= b -> fixed_price 10 (gasExp b).
Proof.
  intros Hb sc fr ms. unfold gasExp, back. apply post_deref. intros e _. apply post_ret. split; [done|].
  assert (0 <= u_BitLen e) by (unfold u_BitLen; destruct (_ =? 0); [done|]; pose proof (Z.log2_nonneg e); lia).
  assert (0 <= (u_BitLen e + 7) / 8) by (apply Z.div_pos; lia).
  intros cost Hc. apply safe_add_Ret in Hc; [unfold ExpGas in *; lia|by apply Z.mul_nonneg_nonneg|done].
Qed.

Lemma gasSelfdestruct_price : fixed_price 0 gasSelfdestruct.
Proof.
  intros sc fr ms. unfold gasSelfdestruct. apply (post_bind' _ _ (fun g => 0 <= g)).
  { case_match; [|by apply post_ret]. repeat p_step; by case_match. }
  intros g Hg. apply post_bind. intros _. price.
Qed.

Lemma makeSelfdestructGasFn_price b : fixed_price 0 (makeSelfdestructGasFn b).
Proof.
  intros sc fr ms. unfold makeSelfdestructGasFn, back. apply post_deref. intros a _.
  do 4 (apply post_bind; intros ?). price. by repeat case_match.
Qed.

Lemma unpriced code ms fr fr' r :
  0 <= f_gas fr' <= f_gas fr -> (forall c, r <> Ret c) -> priced code ms fr (r, fr').
Proof. intros Hg Hr. split; [done|]. intros c Hc. by destruct (Hr c). Qed.

(** Pricing the memory first. *)
Lemma with_memory_post code ms fr k :
  mem_ok (f_mem fr) -> 0 <= f_gas fr < 2 ^ 64 -> 0 <= ms -> ms mod 32 = 0 ->
  (forall fee m, memoryGasCost (f_mem fr) ms = (Ret fee, m) -> 0 <= fee < 2 ^ 56 ->
     post (k fee (set_f_mem m fr)) (priced code ms fr)) ->
  post (with_memory ms fr k) (priced code ms fr).
Proof.
  intros Hm Hg Hms H32 Hk. unfold with_memory.
  destruct (memoryGasCost (f_mem fr) ms) as [[fee|e|] m] eqn:E; [|apply post_ret, unpriced; simpl; done || lia..].
  apply Hk; [done|]. by apply (memoryGasCost_ok _ _ _ _ Hm Hms H32 E).
Qed.

(** The end of a price that sets nothing aside. *)
Lemma priced_memory code ms fr fee m cost :
  not_call code -> code ∈ sized_codes -> 0 <= f_gas fr < 2 ^ 64 -> 0 <= f_callGasTemp fr ->
  memoryGasCost (f_mem fr) ms = (Ret fee, m) -> (forall c, cost = Ret c -> 0 <= c) ->
  priced code ms fr (cost, set_f_mem m fr).
Proof.
  intros Hn Hs Hg Ht Hm Hc. split; [simpl; lia|]. intros c E. specialize (Hc c E). rewrite bool_decide_true, lent_not_call by done.
  split_and!; [done..|by exists fee|done].
Qed.

Lemma pureMemoryGascost_ok early code : not_call code -> code ∈ sized_codes -> dyn_ok early code pureMemoryGascost.
Proof.
  intros Hn Hs sc fr ms _ Hm Hg Ht Hms H32. apply with_memory_post; [done..|]. intros fee m Hf Hfee.
  apply post_ret, (priced_memory _ _ _ fee); [done..|]. intros c [= <-]. lia.
Qed.

Lemma per_word_ok early code pos price :
  0 <= price -> not_call code -> code ∈ sized_codes -> dyn_ok early code (per_word pos price).
Proof.
  intros Hp Hn Hs sc fr ms _ Hm Hg Ht Hms H32. apply with_memory_post; [done..|]. intros fee m Hf Hfee.
  apply post_deref. intros l _. apply post_ret, (priced_memory _ _ _ fee); [done..|].
  intros c. destruct (to_uint64 l) as [n| |] eqn:El; simpl; try done. apply to_uint64_Ret in El.
  pose proof (toWordSize_nonneg n ltac:(lia)). destruct (safe_mul _ _) as [w| |] eqn:Ew; simpl; try done.
  apply safe_mul_Ret in Ew; [|done|done]. assert (0 <= w) by (rewrite Ew; by apply Z.mul_nonneg_nonneg).
  intros Hc. apply safe_add_Ret in Hc; lia.
Qed.

(** A log costs at least its base price. *)
Lemma log_price gas n size cost : 0 <= gas -> 0 <= n -> 0 <= size ->
  (gas ← safe_add gas LogGas; gas ← safe_add gas (n * LogTopicGas); d ← safe_mul size LogDataGas; safe_add gas d)
    = Ret cost -> LogGas <= cost.
Proof.
  intros Hg Hn Hs. unfold LogGas, LogTopicGas, LogDataGas.
  destruct (safe_add gas _) as [g1| |] eqn:E1; simpl; try done. apply safe_add_Ret in E1; [|lia..].
  destruct (safe_add g1 _) as [g2| |] eqn:E2; simpl; try done. apply safe_add_Ret in E2; [|lia..].
  destruct (safe_mul size _) as [d| |] eqn:E3; simpl; try done. apply safe_mul_Ret in E3; [|lia..].
  intros Hc. apply safe_add_Ret in Hc; lia.
Qed.

Lemma makeGasLog_ok early code n : 0 <= n -> not_call code -> code ∈ sized_codes -> dyn_ok early code (makeGasLog n).
Proof.
  intros H0 Hn Hs sc fr ms _ Hm Hg Ht Hms H32. unfold makeGasLog, back. apply post_deref. intros l _.
  destruct (to_uint64 l) as [size| |] eqn:El; [|apply post_ret, unpriced; done || lia..]. apply to_uint64_Ret in El.
  apply with_memory_post; [done..|]. intros fee m Hf Hfee. apply post_ret, (priced_memory _ _ _ fee); [done..|].
  intros c Hc. apply log_price in Hc; [unfold LogGas in *|..]; lia.
Qed.

Lemma gasExtCodeCopyEIP2929_ok early : dyn_ok early Op.EXTCODECOPY gasExtCodeCopyEIP2929.
Proof.
  intros sc fr ms He Hm Hg Ht Hms H32. unfold gasExtCodeCopyEIP2929.
  eapply post_bind'; [by eapply (per_word_ok early Op.EXTCODECOPY); [|by_code|by_code|..]|].
  intros [[gas|e|] fr1] [Hb Hp]; [|by apply post_ret, unpriced..].
  destruct (Hp gas eq_refl) as (Hge & Hgas & Hst & Ht1 & Hmem & Hl).
  apply post_deref. intros a _. apply post_bind. intros warm. destruct (negb warm); [|by apply post_ret].
  apply post_bind. intros _. apply post_ret. split; [done|]. intros cost Hc.
  apply safe_add_Ret in Hc; [|done|done]. destruct Hc as [-> _].
  rewrite (lent_not_call Op.EXTCODECOPY) by by_code.
  split_and!; [|done..|]; unfold ColdAccountAccessCostEIP2929, WarmStorageReadCostEIP2929; lia.
Qed.

(** What a call is given is at most what was left of the base price, or the price is more
    than the gas. *)
Lemma callGas_bounds isEip150 avail base cost g :
  0 <= avail < 2 ^ 64 -> 0 <= base < 2 ^ 57 -> callGas isEip150 avail base cost = Ret g ->
  0 <= g < 2 ^ 64 /\ (isEip150 = true -> avail < 2 ^ 64 - 2500 -> base + g < 2 ^ 64 - 2500).
Proof.
  intros Ha Hb. unfold callGas. set (left := u64 (avail - base)). pose proof (u64_bounds (avail - base)) as Hl.
  fold left in Hl. pose proof (sixty_fourth left ltac:(lia)) as H64.
  assert (Hleft : base <= avail /\ left = avail - base \/ avail < base /\ left = avail - base + 2 ^ 64).
  { destruct (decide (base <= avail)); [left; split; [done|apply u64_small; lia]|right; split; [lia|]].
    unfold left, u64. rewrite <- (Z.mod_add (avail - base) 1) by lia. apply Z.mod_small. lia. }
  assert (H' : avail < 2 ^ 64 - 2500 -> base + (left - left / 64) < 2 ^ 64 - 2500).
  { pose proof (Z.div_mod left 64). pose proof (Z.mod_pos_bound left 64). lia. }
  destruct isEip150; simpl.
  - destruct (_ || _) eqn:E; [intros [= <-]; split; [lia|]; intros _; exact H'|].
    apply orb_false_iff in E as [E1 E2]. rewrite E1. intros [= <-]. apply Z.ltb_ge in E2.
    pose proof (u64_bounds cost). split; [lia|]. intros _ Hav. specialize (H' Hav). lia.
  - destruct (negb _); [done|]. intros [= <-]. split; [apply u64_bounds|done].
Qed.

(** A call price: like [priced], and it stays clear of the end of the range. *)
Definition call_priced (code ms : Z) (sc : ScopeContext) (fr : frame) (x : outcome Z * frame) : Prop :=
  priced code ms fr x /\
  (evm_IsEIP150 (x_evm sc) = true -> f_gas fr < 2 ^ 64 - 2500 -> forall c, x.1 = Ret c -> c < 2 ^ 64 - 2500).

Lemma no_call_price code ms sc fr fr' r :
  0 <= f_gas fr < 2 ^ 64 -> f_gas fr' = f_gas fr -> (forall c, r <> Ret c) -> call_priced code ms sc fr (r, fr').
Proof.
  intros Hg Hf Hr. split; [apply unpriced; [lia|done]|]. intros _ _ c Hc. by destruct (Hr c).
Qed.

Lemma pay_call_ok code ms sc fr fee m gas :
  code ∈ sized_codes -> 0 <= f_gas fr < 2 ^ 64 -> memoryGasCost (f_mem fr) ms = (Ret fee, m) ->
  (forall t, 0 <= t -> lent code (set_f_callGasTemp t fr) <= gas + t) ->
  0 <= gas < 2 ^ 57 -> post (pay_call (Ret gas) sc (set_f_mem m fr)) (call_priced code ms sc fr).
Proof.
  intros Hs Hg Hm Hlent Hgas. unfold pay_call, back. apply post_deref. intros cc _. simpl.
  destruct (callGas _ _ _ _) as [t| |] eqn:E; [|by apply post_ret, no_call_price..].
  pose proof (callGas_bounds _ _ _ _ _ Hg Hgas E) as [Ht Hcl]. apply post_ret. split; [split|].
  - simpl. lia.
  - intros c Hc. apply safe_add_Ret in Hc as [-> _]; [|lia..]. rewrite bool_decide_true by done.
    split_and!; [lia|done|done|simpl; lia|by exists fee|]. intros _. apply (Hlent t). lia.
  - intros H150 Hlt c Hc. apply safe_add_Ret in Hc as [-> _]; [|lia..]. by apply Hcl.
Qed.

Definition call_dyn (code : Z) (f : gasFunc) : Prop :=
  forall sc fr ms, mem_ok (f_mem fr) -> 0 <= f_gas fr < 2 ^ 64 -> 0 <= ms -> ms mod 32 = 0 ->
    post (f sc fr ms) (call_priced code ms sc fr).

Lemma dyn_ok_call early code f : call_dyn code f -> dyn_ok early code f.
Proof. intros Hf sc fr ms _ Hm Hg _ Hms H32. eapply post_mono; [by apply Hf|]. by intros x [Hx _]. Qed.

Lemma with_memory_call code ms sc fr k :
  mem_ok (f_mem fr) -> 0 <= f_gas fr < 2 ^ 64 -> 0 <= ms -> ms mod 32 = 0 ->
  (forall fee m, memoryGasCost (f_mem fr) ms = (Ret fee, m) -> 0 <= fee < 2 ^ 56 ->
     post (k fee (set_f_mem m fr)) (call_priced code ms sc fr)) ->
  post (with_memory ms fr k) (call_priced code ms sc fr).
Proof.
  intros Hm Hg Hms H32 Hk. unfold with_memory.
  destruct (memoryGasCost (f_mem fr) ms) as [[fee|e|] m] eqn:E; [|by apply post_ret, no_call_price..].
  apply Hk; [done|]. by apply (memoryGasCost_ok _ _ _ _ Hm Hms H32 E).
Qed.

(** What is lent to a call that carries a value is paid by the price of the transfer. *)
Lemma lent_value code fr gas t value :
  code = Op.CALL \/ code = Op.CALLCODE -> f_stack fr !! 2%nat = Some value ->
  (if negb (value =? 0) then CallValueTransferGas else 0) <= gas ->
  lent code (set_f_callGasTemp t fr) <= gas + t.
Proof.
  intros Hc Hv. unfold lent. rewrite bool_decide_true by done. simpl. rewrite Hv. simpl.
  unfold CallStipend, CallValueTransferGas. destruct (value =? 0); simpl; lia.
Qed.

Lemma lent_no_value code fr gas t :
  code = Op.DELEGATECALL \/ code = Op.STATICCALL -> 0 <= gas -> lent code (set_f_callGasTemp t fr) <= gas + t.
Proof.
  intros Hc Hg. unfold lent. destruct Hc as [-> | ->]; simpl; lia.
Qed.

(** The base price and the memory, then the call. *)
Lemma pay_call_add code ms sc fr fee m base :
  code ∈ sized_codes -> 0 <= f_gas fr < 2 ^ 64 -> memoryGasCost (f_mem fr) ms = (Ret fee, m) ->
  0 <= fee < 2 ^ 56 -> 0 <= base <= 34000 ->
  (forall t, 0 <= t -> lent code (set_f_callGasTemp t fr) <= base + t) ->
  post (pay_call (safe_add base fee) sc (set_f_mem m fr)) (call_priced code ms sc fr).
Proof.
  intros Hs Hg Hm Hfee Hb Hl. destruct (safe_add base fee) as [g| |] eqn:E; [|by apply post_ret, no_call_price..].
  apply safe_add_Ret in E as [-> _]; [|lia..]. apply (pay_call_ok _ _ _ _ fee); [done..| |lia].
  intros t Ht. specialize (Hl t Ht). lia.
Qed.

Lemma gasCall_call : call_dyn Op.CALL gasCall.
Proof.
  intros sc fr ms Hm Hg Hms H32. unfold gasCall, back. apply post_deref. intros value Hv.
  apply post_deref. intros a _. apply post_bind. intros new. apply with_memory_call; [done..|].
  intros fee m Hf Hfee. apply (pay_call_add _ _ _ _ fee); [by_code|done..| |].
  - unfold CallNewAccountGas, CallValueTransferGas. destruct new, (negb _); lia.
  - intros t Ht. eapply lent_value; [by left|done|]. destruct new; unfold CallNewAccountGas; lia.
Qed.

Lemma gasCallCode_call : call_dyn Op.CALLCODE gasCallCode.
Proof.
  intros sc fr ms Hm Hg Hms H32. apply with_memory_call; [done..|]. intros fee m Hf Hfee.
  unfold back. apply post_deref. intros value Hv. apply (pay_call_add _ _ _ _ fee); [by_code|done..| |].
  - unfold CallValueTransferGas. destruct (negb _); lia.
  - intros t Ht. eapply lent_value; [by right|exact Hv|apply Z.le_refl].
Qed.

Lemma gasDelegateCall_call code : code = Op.DELEGATECALL \/ code = Op.STATICCALL -> call_dyn code gasDelegateCall.
Proof.
  intros Hc sc fr ms Hm Hg Hms H32. apply with_memory_call; [done..|]. intros fee m Hf Hfee.
  apply (pay_call_ok _ _ _ _ fee); [destruct Hc as [-> | ->]; by_code|done..| |lia].
  intros t Ht. apply lent_no_value; [done|lia].
Qed.

(** The extra charge for a cold address. *)
Lemma cold_call_ok code f : code ∈ sized_codes -> call_dyn code f -> dyn_ok false code (makeCallVariantGasCallEIP2929 f).
Proof.
  intros Hs Hf sc fr ms H150 Hm Hg Ht Hms H32. simpl in H150. unfold makeCallVariantGasCallEIP2929, back.
  apply post_deref. intros a _. apply post_bind. intros [|]; [by apply (dyn_ok_call true)|].
  apply post_bind. intros _. unfold c_UseGas, ColdAccountAccessCostEIP2929, WarmStorageReadCostEIP2929.
  change (2600 - 100) with 2500. destruct (f_gas fr <? 2500) eqn:E; [apply post_ret, unpriced; done || lia|]. apply Z.ltb_ge in E.
  eapply post_bind'; [apply (Hf sc (set_f_gas (f_gas fr - 2500) fr)); simpl; try done; lia|].
  intros [[gas|e|] fr1] [[Hb Hp] Hcl]; simpl in Hb; [|apply post_ret, unpriced; done || lia..]. specialize (Hcl H150 ltac:(simpl; lia) gas eq_refl).
  destruct (Hp gas eq_refl) as (H0 & Hg1 & Hst & Ht1 & Hm1 & Hl). simpl in *. rewrite bool_decide_true in Hm1 by done.
  apply post_ret. simpl. rewrite Hg1, !u64_small by lia. split; [simpl; lia|]. intros c [= <-].
  rewrite bool_decide_true by done. split_and!; [lia|lia|done|done|done|]. intros Hc. specialize (Hl ltac:(lia)).
  assert (lent code (set_f_gas (f_gas fr - 2500 + 2500) fr1) = lent code fr1) as ->; [done|lia].
Qed.

(** ** Operations *)

(** A price of at least one. *)
Definition takes (f : gasFunc) : Prop :=
  forall sc fr ms, post (f sc fr ms) (fun '(r, _) => forall c, r = Ret c -> 1 <= c).

Lemma takes_fixed least f : 1 <= least -> fixed_price least f -> takes f.
Proof.
  intros Hl Hf sc fr ms. eapply post_mono; [apply Hf|]. intros [r fr'] [_ Hr] c Hc. specialize (Hr c Hc). lia.
Qed.

Lemma makeGasLog_takes n : 0 <= n -> takes (makeGasLog n).
Proof.
  intros Hn sc fr ms. unfold makeGasLog, back. apply post_deref. intros l _.
  destruct (to_uint64 l) as [size| |] eqn:El; [|by apply post_ret..]. apply to_uint64_Ret in El.
  unfold with_memory. destruct (memoryGasCost (f_mem fr) ms) as [[fee|e|] m] eqn:E; [|by apply post_ret..].
  assert (0 <= fee).
  { revert E. unfold memoryGasCost. repeat case_match; try done; intros [= <- _]; try done. by apply u64_bounds. }
  apply post_ret. intros c Hc. apply log_price in Hc; [unfold LogGas in *|..]; lia.
Qed.

Record op_ok (early : bool) (code : Z) (o : operation) : Prop := {
  ok_exec : exec_ok code (StackLimit - o_maxStack o) (o_execute o);
  ok_const : 0 <= o_constantGas o;
  ok_dyn : forall f, o_dynamicGas o = Some f -> dyn_ok early code f;
  ok_sized : bool_decide (code ∈ sized_codes) = bool_decide (is_Some (o_memorySize o));
  ok_sized_dyn : bool_decide (code ∈ sized_codes) = true -> is_Some (o_dynamicGas o);
  ok_halts : code = Op.SELFDESTRUCT -> o_halts o = true;
  ok_call : not_call code \/ 1 <= o_constantGas o;
  ok_takes : o_halts o || o_reverts o = true \/ 1 <= o_constantGas o \/
             exists f, o_dynamicGas o = Some f /\ takes f;
}.

(** A new price. *)
Lemma op_ok_charging early code g o : 1 <= g -> op_ok early code o -> op_ok early code (charging g o).
Proof. intros Hg []. split; try done; simpl; [lia|by right|]. right. by left. Qed.

Lemma op_ok_dynamic early code f o :
  dyn_ok early code f -> takes f \/ code = Op.SELFDESTRUCT -> op_ok early code o -> op_ok early code (dynamic f o).
Proof.
  intros Hf Ht []. split; try done; simpl; [by intros ? [= <-]|]. destruct Ht as [Ht|Hc].
  - right. right. by exists f.
  - left. by rewrite ok_halts0.
Qed.

Lemma op_ok_both early code g f o :
  dyn_ok early code f -> 0 <= g -> 1 <= g \/ takes f /\ not_call code -> op_ok early code o ->
  op_ok early code (dynamic f (charging g o)).
Proof.
  intros Hf Hg Ht []. split; try done; simpl; [by intros ? [= <-]|tauto|]. right.
  destruct Ht as [Ht|[Ht _]]; [by left|right; by exists f].
Qed.

#[local] Ltac exec :=
  first [ exact opCall_ok | exact opCallCode_ok | exact opDelegateCall_ok | exact opStaticCall_ok
        | exact opCreate_ok | exact opCreate2_ok
        | simpl; unfold maxStack; plain ].

#[local] Ltac priced_by :=
  first [ apply pureMemoryGascost_ok; by_code
        | apply per_word_ok; [done|by_code|by_code]
        | apply makeGasLog_ok; [done|by_code|by_code]
        | apply dyn_ok_call, gasCall_call
        | apply dyn_ok_call, gasCallCode_call
        | apply dyn_ok_call, gasDelegateCall_call; by_code
        | eapply dyn_ok_fixed; [|by_code|by_code|first [apply gasExp_price|apply gasSStore_price|apply gasSelfdestruct_price]]; done ].

#[local] Ltac takes_gas :=
  first [ left; reflexivity
        | right; left; simpl; vm_compute; discriminate
        | right; right; eexists; split; [reflexivity|];
          first [ apply makeGasLog_takes; done
                | by eapply takes_fixed; [|apply gasExp_price]
                | by eapply takes_fixed; [|apply gasSStore_price] ] ].
#[local] Ltac entry :=
  split; [exec|done|intros ? [=]; subst; priced_by|vm_compute; reflexivity|try done; vm_compute; eauto|done|first [by right|left; by_code]|takes_gas].

Lemma first_ok early : Forall (fun '(c, o) => op_ok early c o) first_entries.
Proof. repeat apply Forall_cons_2; [..|by apply Forall_nil_2]. all: entry. Qed.

Lemma new_ok early : Forall (fun '(c, o) => op_ok early c o) new_entries.
Proof. repeat apply Forall_cons_2; [..|by apply Forall_nil_2]. all: entry. Qed.

Lemma prices_ok early : Forall (fun '(c, g) => forall o, op_ok early c o -> op_ok early c (charging g o)) new_prices.
Proof. repeat apply Forall_cons_2; [..|by apply Forall_nil_2]. all: intros o; by apply op_ok_charging. Qed.

Lemma op_ok_fixed early code least f o :
  1 <= least -> not_call code -> code ∉ sized_codes -> fixed_price least f ->
  op_ok early code o -> op_ok early code (dynamic f o).
Proof.
  intros Hl Hn Hs Hf. apply op_ok_dynamic; [eapply dyn_ok_fixed; [|done|done|exact Hf]; lia|].
  left. by eapply takes_fixed.
Qed.

Lemma gas_ok early : Forall (fun '(c, f) => forall o, op_ok early c o -> op_ok early c (dynamic f o)) new_gas.
Proof.
  repeat apply Forall_cons_2; [..|by apply Forall_nil_2].
  - intros o. by apply (op_ok_fixed _ _ 10); [|by_code|by_code|apply gasExp_price].
  - intros o. by apply (op_ok_fixed _ _ 800); [|by_code|by_code|apply gasSStoreEIP2200_price].
  - intros o. by apply (op_ok_fixed _ _ 100); [|by_code|by_code|apply makeGasSStoreFunc_price].
  - intros o. by apply (op_ok_fixed _ _ 100); [|by_code|by_code|apply makeGasSStoreFunc_price].
  - intros o. apply op_ok_dynamic; [|by right].
    by apply (dyn_ok_fixed _ _ 0); [|by_code|by_code|apply makeSelfdestructGasFn_price].
Qed.

Lemma both_ok : Forall (fun '(c, g, f) => forall o, op_ok false c o -> op_ok false c (dynamic f (charging g o))) new_both.
Proof.
  repeat apply Forall_cons_2; [..|by apply Forall_nil_2].
  - intros o. apply op_ok_both; [|done|right; split; [by apply (takes_fixed 100), gasSLoadEIP2929_price|by_code]].
    by apply (dyn_ok_fixed _ _ 100); [|by_code|by_code|apply gasSLoadEIP2929_price].
  - intros o. by apply op_ok_both; [apply gasExtCodeCopyEIP2929_ok| |left].
  - intros o. apply op_ok_both; [|done|by left].
    by apply (dyn_ok_fixed _ _ 0); [|by_code|by_code|apply gasEip2929AccountCheck_price].
  - intros o. apply op_ok_both; [|done|by left].
    by apply (dyn_ok_fixed _ _ 0); [|by_code|by_code|apply gasEip2929AccountCheck_price].
  - intros o. apply op_ok_both; [|done|by left].
    by apply (dyn_ok_fixed _ _ 0); [|by_code|by_code|apply gasEip2929AccountCheck_price].
  - intros o. by apply op_ok_both; [apply cold_call_ok; [by_code|apply gasCall_call]| |left].
  - intros o. by apply op_ok_both; [apply cold_call_ok; [by_code|apply gasCallCode_call]| |left].
  - intros o. by apply op_ok_both; [apply cold_call_ok; [by_code|apply gasDelegateCall_call; right]| |left].
  - intros o. by apply op_ok_both; [apply cold_call_ok; [by_code|apply gasDelegateCall_call; left]| |left].
  - intros o. apply op_ok_both; [|done|by left].
    by apply (dyn_ok_fixed _ _ 0); [|by_code|by_code|apply makeSelfdestructGasFn_price].
Qed.

Lemma early_table_ok early : early_rules (op_ok early).
Proof. split; [apply first_ok|apply new_ok|apply prices_ok|apply gas_ok]. Qed.

Lemma table_ok : table_rules (op_ok false).
Proof. split; [apply early_table_ok|apply both_ok]. Qed.

(** The operation of the rules in force. *)
Lemma jump_table_ok evm code o :
  rules_ordered evm -> jump_table evm !! code = Some o ->
  exists early, early || evm_IsEIP150 evm = true /\ op_ok early code o.
Proof.
  intros Hr Ho. destruct (evm_IsLondon evm || evm_IsBerlin evm) eqn:E.
  - exists false. split; [by apply Hr|]. exact (jump_table_all _ (early_table_ok false) evm code o table_ok Ho).
  - exists true. split; [done|]. exact (jump_table_early _ (early_table_ok true) evm code o E Ho).
Qed.

(** ** Rounds *)

(** The limits of a frame. *)
Definition frame_ok (fr : frame) : Prop :=
  Z.of_nat (length (f_stack fr)) <= StackLimit /\ mem_ok (f_mem fr) /\
  0 <= f_gas fr < 2 ^ 64 /\ 0 <= f_callGasTemp fr.
End Frames.
