(* ===== verification/InterpreterGas.v ===== *)
(** Gas and termination of a run.

    A round keeps the frame within its limits and takes gas unless it ends the run, so
    the gas bounds the number of rounds, and a run returns no more gas than it got
    ([GasMachine]). *)
From stdpp Require Import strings.
From S2P Require Import Prelude Common Params ProtocolParams Wormholes StateTypes State StateDB Evm Machine Instructions GasTable JumpTable Interpreter InterpreterRevert Frames.

Open Scope Z_scope.

Section InterpreterGas.
  Context {CR : Crypto} {U : Uint256}.

(** What a round leaves. *)
Definition round_ok (fr : frame) : frame * option (bytes * goerror) -> Prop := fun '(fr', out) =>
  0 <= f_gas fr' <= f_gas fr /\ (out = None -> frame_ok fr' /\ f_gas fr' < f_gas fr).

Lemma exit_ok fr fr' e : 0 <= f_gas fr' <= f_gas fr -> post (exit fr' e) (round_ok fr).
Proof. intros Hg. by apply post_ret. Qed.

Lemma u64_mul32 x : u64 (x * 32) mod 32 = 0.
Proof.
  unfold u64. change (2 ^ 64) with (2 ^ 59 * 32). rewrite Z.mul_mod_distr_r by lia. apply Z.mod_mul. lia.
Qed.

Lemma memory_needed_words o st ms : memory_needed o st = Some (Ret ms) ->
  0 <= ms /\ ms mod 32 = 0 /\ (o_memorySize o = None -> ms = 0).
Proof.
  unfold memory_needed. destruct (o_memorySize o) as [f|]; [|by intros [= <-]].
  destruct (f st) as [[n overflow]|]; simpl; [|done]. destruct overflow; [done|].
  unfold safe_mul, SafeMul. destruct (_ <=? _); [done|]. intros [= <-].
  split_and!; [apply u64_bounds|apply u64_mul32|done].
Qed.

(** The dynamic gas: what remains covers what is lent, and the room is paid for. *)
Definition charged (code ms : Z) (o : operation) (fr : frame) : bool * frame -> Prop := fun '(ok, fr') =>
  0 <= f_gas fr' <= f_gas fr /\
  (ok = true -> f_stack fr' = f_stack fr /\ 0 <= f_callGasTemp fr' /\ mem_ok (f_mem (resize ms fr')) /\
     f_gas fr' + lent code fr' <= f_gas fr /\
     (o_halts o || o_reverts o = false -> o_constantGas o = 0 -> f_gas fr' + lent code fr' < f_gas fr)).

(** An operation that neither ends the run nor has a fixed price has a dynamic price. *)
Lemma dynamic_takes early code o f :
  op_ok early code o -> o_dynamicGas o = Some f -> o_halts o || o_reverts o = false -> o_constantGas o = 0 -> takes f.
Proof.
  intros Hok Ed Hh H0. destruct (ok_takes _ _ _ Hok) as [H|[H|(f' & Hf' & H)]]; [congruence|lia|].
  rewrite Ed in Hf'. by injection Hf' as ->.
Qed.

Lemma use_dynamic_gas_some early sc code o f ms fr :
  early || evm_IsEIP150 (x_evm sc) = true -> op_ok early code o -> o_dynamicGas o = Some f ->
  mem_ok (f_mem fr) -> 0 <= f_gas fr < 2 ^ 64 -> 0 <= f_callGasTemp fr -> 0 <= ms -> ms mod 32 = 0 ->
  (o_memorySize o = None -> ms = 0) ->
  post (use_dynamic_gas sc o ms fr) (charged code ms o fr).
Proof.
  intros He Hok Ed Hm Hg Ht Hms H32 H0. unfold use_dynamic_gas. rewrite Ed.
  assert (Htk : post (f sc fr ms) (fun x => o_halts o || o_reverts o = false -> o_constantGas o = 0 ->
    forall c, x.1 = Ret c -> 1 <= c)).
  { intros s [r fr'] s' Hr Hh Hc. by eapply (dynamic_takes early code o f Hok Ed Hh Hc sc fr ms s (r, fr')). }
  eapply post_bind'; [apply post_and; [by apply (ok_dyn _ _ _ Hok f Ed)|exact Htk]|].
  intros [[cost|e|] fr1] [[Hb Hp] Htk']; [|by apply post_ret..]. specialize (fun Hh Hc => Htk' Hh Hc cost eq_refl).
  destruct (Hp cost eq_refl) as (Hc & Hg1 & Hst & Ht1 & Hmem & Hl). unfold c_UseGas.
  destruct (f_gas fr1 <? cost) eqn:E; [by apply post_ret|]. apply Z.ltb_ge in E. apply post_ret.
  specialize (Hl ltac:(lia)). split; [simpl; lia|]. intros _. simpl.
  change (lent code (set_f_gas (f_gas fr1 - cost) fr1)) with (lent code fr1).
  split_and!; [done|done| |lia|].
  - unfold resize. pose proof (ok_sized _ _ _ Hok) as Hs. destruct (bool_decide (code ∈ sized_codes)).
    + destruct Hmem as [fee Hf]. destruct (memoryGasCost_ok _ _ _ _ Hm Hms H32 Hf) as (_ & _ & H). by destruct (0 <? ms).
    + symmetry in Hs. apply bool_decide_eq_false, eq_None_not_Some in Hs. rewrite (H0 Hs). simpl. by rewrite Hmem.
  - intros Hh Hc0. specialize (Htk' Hh Hc0). destruct (ok_call _ _ _ Hok) as [Hn|Hn]; [|lia].
    rewrite lent_not_call by done. lia.
Qed.

Lemma use_dynamic_gas_ok early sc code o ms fr :
  early || evm_IsEIP150 (x_evm sc) = true -> op_ok early code o ->
  mem_ok (f_mem fr) -> 0 <= f_gas fr < 2 ^ 64 -> 0 <= f_callGasTemp fr -> 0 <= ms -> ms mod 32 = 0 ->
  (o_memorySize o = None -> ms = 0) ->
  post (use_dynamic_gas sc o ms fr) (charged code ms o fr).
Proof.
  intros He Hok Hm Hg Ht Hms H32 H0. destruct (o_dynamicGas o) as [f|] eqn:Ed; [by eapply use_dynamic_gas_some|].
  unfold use_dynamic_gas. rewrite Ed. apply post_ret. split; [lia|]. intros _.
  pose proof (ok_sized _ _ _ Hok) as Hs. pose proof (ok_sized_dyn _ _ _ Hok) as Hsd. rewrite Ed in Hsd.
  destruct (bool_decide (code ∈ sized_codes)) eqn:Es; [by destruct (Hsd eq_refl)|].
  symmetry in Hs. apply bool_decide_eq_false, eq_None_not_Some in Hs. rewrite (H0 Hs).
  assert (Hn : not_call code).
  { apply bool_decide_eq_false in Es. split_and!; intros ->; apply Es; apply (bool_decide_unpack _); vm_compute; exact I. }
  rewrite lent_not_call by done. split_and!; [done|done|done|lia|]. intros Hh Hc.
  destruct (ok_takes _ _ _ Hok) as [H|[H|(f' & Hf' & H)]]; [congruence|lia|congruence].
Qed.

Lemma conclude_gas o fr res err : f_gas (conclude o fr res err).1 = f_gas fr.
Proof. unfold conclude. repeat case_match; done. Qed.

(** A round that goes on keeps the frame but for the counter and the returned data. *)
Lemma conclude_next o fr res err fr' :
  conclude o fr res err = (fr', None) ->
  err = None /\ o_halts o || o_reverts o = false /\ f_stack fr' = f_stack fr /\ f_mem fr' = f_mem fr /\
  f_callGasTemp fr' = f_callGasTemp fr.
Proof.
  unfold conclude. destruct err; [done|]. destruct (o_reverts o); [done|]. destruct (o_halts o); [done|].
  destruct (negb _); intros [= <-]; by destruct (o_returns o).
Qed.

Lemma perform_ok early sc code o fr :
  early || evm_IsEIP150 (x_evm sc) = true -> op_ok early code o -> rules_ordered (x_evm sc) ->
  gas_calls (x_calls sc) -> frame_ok fr -> Z.of_nat (length (f_stack fr)) <= o_maxStack o ->
  post (perform sc o fr) (round_ok fr).
Proof.
  intros He Hok Hr HK (_ & Hm & Hg & Ht) Hmax. pose proof (ok_const _ _ _ Hok) as Hc. unfold perform, c_UseGas.
  destruct (f_gas fr <? _) eqn:E; [apply exit_ok; lia|]. apply Z.ltb_ge in E.
  apply post_deref. intros r Hn. destruct r as [ms|e|]; [|apply exit_ok; simpl; lia..].
  destruct (memory_needed_words _ _ _ Hn) as (Hms & H32 & H0).
  eapply post_bind'; [apply (use_dynamic_gas_ok early sc code o ms); simpl; done || lia|].
  intros [ok fr1] [Hb Hch]. simpl in Hb. destruct ok; [|apply exit_ok; simpl; lia].
  destruct (Hch eq_refl) as (Hst & Ht1 & Hm1 & Hl & Hstrict). simpl in *.
  assert (Hfr : f_gas (resize ms fr1) = f_gas fr1 /\ f_callGasTemp (resize ms fr1) = f_callGasTemp fr1 /\
    f_stack (resize ms fr1) = f_stack fr1 /\ lent code (resize ms fr1) = lent code fr1).
  { unfold resize. by destruct (0 <? ms). }
  destruct Hfr as (Eg & Et & Es & El).
  eapply post_bind'; [apply (ok_exec _ _ _ Hok); rewrite ?Eg, ?Et, ?El; done || lia|].
  intros [[fr2 res] err] (Hh & [Hlen Hcost] & Ht2 & Hg2). rewrite Eg, El in Hg2. apply post_ret.
  destruct (conclude o fr2 res err) as [fr3 out] eqn:Ec. pose proof (conclude_gas o fr2 res err) as Hg3.
  rewrite Ec in Hg3. simpl in Hg3. split; [lia|]. intros ->.
  apply conclude_next in Ec as (-> & Hne & Hs3 & Hm3 & Ht3). split; [|].
  - unfold frame_ok. rewrite Hs3, Hm3, Ht3, (Hh eq_refl), Es, Hst, Ht2, Et. simpl. split_and!; try lia.
    unfold mem_ok. by rewrite Hlen, Hcost.
  - specialize (Hstrict Hne). lia.
Qed.

Lemma step_ok sc fr :
  rules_ordered (x_evm sc) -> gas_calls (x_calls sc) -> frame_ok fr ->
  post (step (jump_table (x_evm sc)) sc fr) (round_ok fr).
Proof.
  intros Hr HK Hfr. unfold step. pose proof Hfr as (_ & _ & Hg & _).
  destruct (jump_table (x_evm sc) !! _) as [o|] eqn:Ho; [|apply exit_ok; lia].
  destruct (jump_table_ok _ _ _ Hr Ho) as (early & He & Hok).
  destruct (_ <? o_minStack o); [apply exit_ok; lia|].
  destruct (o_maxStack o <? _) eqn:Em; [apply exit_ok; lia|]. apply Z.ltb_ge in Em.
  apply post_bind. intros [|]; [apply exit_ok; lia|]. by eapply perform_ok.
Qed.

(** ** Runs *)

(** Rounds that go on. *)
Inductive rounds (sc : ScopeContext) : nat -> frame * StateDB -> frame * StateDB -> Prop :=
| rounds_nil x : rounds sc 0 x x
| rounds_cons n fr s fr1 s1 y :
    step (jump_table (x_evm sc)) sc fr s = Some ((fr1, None), s1) ->
    rounds sc n (fr1, s1) y -> rounds sc (S n) (fr, s) y.

Lemma rounds_ok sc n x y :
  rules_ordered (x_evm sc) -> gas_calls (x_calls sc) -> rounds sc n x y -> frame_ok x.1 ->
  frame_ok y.1 /\ f_gas y.1 + Z.of_nat n <= f_gas x.1.
Proof.
  intros Hr HK. induction 1 as [x|n fr s fr1 s1 y Hs _ IH]; intros Hfr; [split; [done|lia]|]. simpl in *.
  destruct (step_ok sc fr Hr HK Hfr s _ _ Hs) as [_ H]. destruct (H eq_refl) as [Hfr1 Hlt].
  destruct (IH Hfr1) as [Hy Hn]. split; [done|lia].
Qed.

(** The frame after [n] rounds, computed. *)
Fixpoint advance (sc : ScopeContext) (n : nat) (fr : frame) (s : StateDB) : option (frame * StateDB) :=
  match n with
  | O => Some (fr, s)
  | S n' =>
    match step (jump_table (x_evm sc)) sc fr s with
    | Some ((fr1, None), s1) => advance sc n' fr1 s1
    | _ => None
    end
  end.

Lemma advance_rounds sc n fr s y : advance sc n fr s = Some y -> rounds sc n (fr, s) y.
Proof.
  revert fr s. induction n as [|n IH]; simpl; intros fr s H; [injection H as <-; apply rounds_nil|].
  destruct (step _ _ _ _) as [[[fr1 [?|]] s1]|] eqn:Hs; [done| |done]. eapply rounds_cons; [done|by apply IH].
Qed.

(** The result of a round that ends the run, or its panic. *)
Definition ends (sc : ScopeContext) (fr : frame) (s : StateDB) (r : option (bytes * Z * goerror * StateDB)) : Prop :=
  match step (jump_table (x_evm sc)) sc fr s with
  | Some ((fr', Some (ret, err)), s') => r = Some ((ret, f_gas fr', err), s')
  | Some ((_, None), _) => False
  | None => r = None
  end.

Lemma loop_ends sc fuel fr s :
  rules_ordered (x_evm sc) -> gas_calls (x_calls sc) -> frame_ok fr -> f_gas fr < Z.of_nat fuel ->
  exists n fr1 s1, rounds sc n (fr, s) (fr1, s1) /\ ends sc fr1 s1 (loop fuel (jump_table (x_evm sc)) sc fr s).
Proof.
  intros Hr HK. revert fr s. induction fuel as [|fuel IH]; intros fr s Hfr Hlt.
  { destruct Hfr as (_ & _ & ? & _). lia. }
  destruct (step (jump_table (x_evm sc)) sc fr s) as [[[fr1 [[ret err]|]] s1]|] eqn:Es.
  - exists 0%nat, fr, s. split; [constructor|]. unfold ends. simpl. unfold mbind, M_bind. by rewrite Es.
  - destruct (step_ok sc fr Hr HK Hfr s _ _ Es) as [_ H]. destruct (H eq_refl) as [Hfr1 Hdec].
    destruct (IH fr1 s1 Hfr1 ltac:(lia)) as (n & fr2 & s2 & Hn & He). exists (S n), fr2, s2.
    split; [by econstructor|]. simpl. unfold mbind, M_bind. by rewrite Es.
  - exists 0%nat, fr, s. split; [constructor|]. unfold ends. simpl. unfold mbind, M_bind. by rewrite Es.
Qed.

Lemma start_ok c : 0 <= c_Gas c < 2 ^ 64 -> frame_ok (start c).
Proof. intros Hg. unfold frame_ok, mem_ok. simpl. split_and!; try done; lia. Qed.

Lemma RunWith_gas K evm c i ro s ret l err s' :
  gas_calls K -> rules_ordered evm -> 0 <= c_Gas c < 2 ^ 64 ->
  RunWith K evm c i ro s = Some ((ret, l, err), s') -> 0 <= l <= c_Gas c.
Proof.
  intros HK Hr Hg. unfold RunWith. destruct (c_Code c); [intros [= _ <- _]; lia|].
  set (sc := mkScope (evm_enter ro evm) c i K).
  destruct (loop_ends sc (S (Z.to_nat (c_Gas c))) (start c) s Hr HK (start_ok c Hg) ltac:(simpl; lia))
    as (n & fr1 & s1 & Hn & He).
  destruct (rounds_ok sc n _ _ Hr HK Hn (start_ok c Hg)) as [Hfr1 Hdec]. simpl in Hdec. intros E. unfold ends in He.
  change (jump_table (x_evm sc)) with (jump_table (evm_enter ro evm)) in He. rewrite E in He.
  destruct (step _ sc fr1 s1) as [[[fr2 [[ret2 err2]|]] s2]|] eqn:Es; [|done..]. injection He as _ -> _ _.
  destruct (step_ok sc fr1 Hr HK Hfr1 s1 _ _ Es) as [H _]. lia.
Qed.

Lemma interpreter_gas d MA : GasMachine MA -> GasMachine (interpreter d MA).
Proof.
  intros HM. induction d as [|d IH]; [done|]. intros evm c i ro s ret l err s' Hr Hg. simpl.
  apply RunWith_gas; [by apply calls_of_gas|done|done].
Qed.

#[export] Instance EVMInterpreter_gas MA : GasMachine (EVMInterpreter MA).
Proof. apply interpreter_gas. by intros evm c i ro s ret l err s'. Qed.

(** * Properties *)

(** C14. A run of the interpreter terminates, within its gas.  For every contract with code,
    input and state there are at most as many rounds as the contract has gas, each of which
    goes on, and then one that ends the run or panics; the result of [Run] is the result of
    that round.  The message calls of the run are those of the same machine. *)
Theorem Run_terminates (MA : Machine) (evm : EVM) (c : Contract) (input : bytes) (readOnly : bool) (s : StateDB) :
  0 <= evm_depth evm -> rules_ordered evm -> 0 <= c_Gas c < 2 ^ 64 -> c_Code c <> [] ->
  let sc := mkScope (evm_enter readOnly evm) c input (calls_of (EVMInterpreter MA)) in
  exists n fr1 s1,
    Z.of_nat n <= c_Gas c /\ rounds sc n (start c, s) (fr1, s1) /\
    ends sc fr1 s1 (Run (Machine := EVMInterpreter MA) evm c input readOnly s).
Proof.
  intros Hd Hr Hg Hc sc. pose proof (calls_of_gas (EVMInterpreter MA)) as HK.
  destruct (loop_ends sc (S (Z.to_nat (c_Gas c))) (start c) s Hr HK (start_ok c Hg) ltac:(simpl; lia))
    as (n & fr1 & s1 & Hn & He).
  destruct (rounds_ok sc n _ _ Hr HK Hn (start_ok c Hg)) as [Hfr1 Hdec]. destruct Hfr1 as (_ & _ & ? & _).
  exists n, fr1, s1. split; [simpl in *; lia|]. split; [done|].
  assert (Hrun : Run (Machine := EVMInterpreter MA) evm c input readOnly s
                 = loop (S (Z.to_nat (c_Gas c))) (jump_table (x_evm sc)) sc (start c) s).
  { etransitivity; [by apply (interpreter_recursion 1024)|]. unfold RunWith. by destruct (c_Code c). }
  by rewrite Hrun.
Qed.

(** C25. The frames of a run stay within their limits.  After any number of rounds the
    stack has at most 1024 words, the memory is a whole number of words that has been
    paid for in full and lies under the limit of the price function, the gas is a
    [uint64], and every round has taken gas. *)
Theorem Run_frames (MA : Machine) (evm : EVM) (c : Contract) (input : bytes) (readOnly : bool)
    (n : nat) (s s1 : StateDB) (fr : frame) :
  rules_ordered evm -> 0 <= c_Gas c < 2 ^ 64 ->
  rounds (mkScope (evm_enter readOnly evm) c input (calls_of (EVMInterpreter MA))) n (start c, s) (fr, s1) ->
  (length (f_stack fr) <= 1024)%nat /\
  mem_Len (f_mem fr) mod 32 = 0 /\ mem_Len (f_mem fr) <= max_memory /\
  mem_lastGasCost (f_mem fr) = memory_fee (mem_Len (f_mem fr) / 32) /\
  0 <= f_gas fr < 2 ^ 64 /\ f_gas fr + Z.of_nat n <= c_Gas c.
Proof.
  intros Hr Hg. set (sc := mkScope _ _ _ _). intros Hn. pose proof (calls_of_gas (EVMInterpreter MA)) as HK.
  destruct (rounds_ok sc n _ _ Hr HK Hn (start_ok c Hg)) as [(Hst & (Hm1 & Hm2 & Hm3) & Hgas & _) Hdec].
  simpl in *. unfold StackLimit in Hst. split_and!; [lia|done..|lia|lia|lia].
Qed.

(** No execution creates gas: a run of the interpreter, with everything it calls,
    returns at most the gas of its contract. *)
Theorem Run_gas_bounded (MA : Machine) (evm : EVM) (c : Contract) (input : bytes) (readOnly : bool)
    (s s' : StateDB) (ret : bytes) (rest : Z) (err : goerror) :
  rules_ordered evm -> 0 <= c_Gas c < 2 ^ 64 ->
  Run (Machine := EVMInterpreter MA) evm c input readOnly s = Some ((ret, rest, err), s') ->
  0 <= rest <= c_Gas c.
Proof. intros Hr Hg. by apply (EVMInterpreter_gas MA). Qed.
End InterpreterGas.
