(* ===== verification/InterpreterStatic.v ===== *)
(** Read-only runs.

    [keeps s t]: the live accounts of [s] show the same in [t] (balance, nonce, code,
    storage and extensions), and all other addresses still look empty.  In read-only mode
    the interpreter refuses the instructions that write, so a static call keeps the
    accounts, unless a call made during the run carries a transaction of the chain's own
    kind: the message call runs those in read-only mode as well.  The watched machine is
    the interpreter that stops at such a call. *)
From stdpp Require Import strings.
From S2P Require Import Prelude KeyedList Common Params ProtocolParams Wormholes Validators Stakers AccessList StateTypes State StateDB StateRevert Staking StateView World Evm Machine Analysis Instructions GasTable JumpTable Interpreter EvmLedger Journalled EvmRevert InterpreterRevert Frames.

Open Scope Z_scope.

Section Keeps.
  Context {CR : Crypto}.

Definition keeps (s t : StateDB) : Prop :=
  (forall a o, lookup_obj s a = Some o -> so_deleted o = false ->
     exists o', lookup_obj t a = Some o' /\ obj_le s o t o') /\
  (forall a, found a s = false -> view t a = view s a).

Lemma obj_le_view s o t o' a :
  obj_le s o t o' -> so_address o = a -> so_deleted o = false ->
  view_of a (so_data o') = view_of a (so_data o) /\ so_deleted o' = false.
Proof. intros [] Ha Hd. subst a. split; [unfold view_of; congruence|congruence]. Qed.

Lemma keeps_view s t a : sdb_wf s -> keeps s t -> view t a = view s a.
Proof.
  intros Hwf [Hl Hn]. destruct (found a s) eqn:Hf; [|by apply Hn]. unfold found in Hf.
  destruct (lookup_obj s a) as [o|] eqn:Ho; [|done]. apply negb_true_iff in Hf.
  destruct (Hl a o Ho Hf) as (o' & Ho' & Hle). pose proof (lookup_obj_ok s a o Hwf Ho) as [Ha _].
  destruct (obj_le_view _ _ _ _ a Hle Ha Hf) as [Hv Hd]. unfold view. by rewrite Ho, Ho', Hf, Hd.
Qed.

#[export] Instance keeps_refl : Reflexive keeps.
Proof. intros s. split; [|done]. intros a o Ho _. exists o. split; [done|by apply obj_le_refl]. Qed.

Lemma keeps_trans s t u : sdb_wf t -> keeps s t -> keeps t u -> keeps s u.
Proof.
  intros Hwf [Hl1 Hn1] H2. split.
  - intros a o Ho Hd. destruct (Hl1 a o Ho Hd) as (o1 & Ho1 & Hle1).
    destruct (proj1 H2 a o1 Ho1) as (o2 & Ho2 & Hle2); [by rewrite (ole_deleted _ _ _ _ Hle1)|].
    exists o2. split; [done|by eapply obj_le_trans].
  - intros a Hf. rewrite <- (Hn1 a Hf). by apply keeps_view.
Qed.

Lemma keeps_le s t : sdb_wf s -> sdb_le s t -> keeps s t.
Proof.
  intros Hwf Hle. split.
  - intros a o Ho Hd. pose proof (proj2 Hle a) as H. rewrite Ho in H. simpl in H.
    destruct (lookup_obj t a) as [o'|]; [by exists o'|done].
  - intros a _. by apply sdb_le_view.
Qed.

(** The layers below the objects. *)
Definition layers (s : StateDB) := (sdb_codes s, sdb_trie s, sdb_snap s, sdb_snapDestructs s).

Lemma obj_le_layers s t o : layers t = layers s -> obj_le s o t o.
Proof.
  intros [= Hc Ht Hs Hd]. split; try done.
  - intros k. unfold committed, backing_slot. by rewrite Hs, Hd.
  - intros k. unfold slot, committed, backing_slot. by rewrite Hs, Hd.
  - unfold code_of. by rewrite Hc.
Qed.

(** Refunds, logs, the access list and the journal are no part of the accounts. *)
Lemma keeps_layers s t : layers t = layers s -> sdb_stateObjects t = sdb_stateObjects s -> keeps s t.
Proof.
  intros Hl Ho. assert (Hlk : forall a, lookup_obj t a = lookup_obj s a).
  { intros a. injection Hl as _ Ht Hs _. unfold lookup_obj, backing_account. by rewrite Ho, Hs, Ht. }
  split; [|intros a _; unfold view; by rewrite Hlk]. intros a o Hoa _. exists o. rewrite Hlk.
  split; [done|by apply obj_le_layers].
Qed.

Lemma keeps_set_obj s a o o1 : sdb_wf s -> lookup_obj s a = Some o -> obj_le s o s o1 -> keeps s (set_obj a o1 s).
Proof. intros Hwf Ho Hle. apply keeps_le; [done|]. by eapply sdb_le_set_obj. Qed.

(** ** Finding and creating *)

(** A new object shows an empty account. *)
Lemma keeps_new s a t :
  found a s = false -> sdb_codes t = sdb_codes s -> sdb_trie t = sdb_trie s -> sdb_snap t = sdb_snap s ->
  (forall b, b <> a -> b ∈ sdb_snapDestructs t <-> b ∈ sdb_snapDestructs s) ->
  sdb_stateObjects t = <[a := newObject a zeroAccount]> (sdb_stateObjects s) ->
  sdb_wf s -> keeps s t.
Proof.
  intros Hf Hc Ht Hs Hd Ho Hwf.
  assert (Hlk : forall b, b <> a -> lookup_obj t b = lookup_obj s b).
  { intros b Hb. unfold lookup_obj, backing_account. by rewrite Ho, lookup_insert_ne, Hs, Ht. }
  split.
  - intros b o Hb Hdel. assert (Hne : b <> a).
    { intros ->. unfold found in Hf. rewrite Hb in Hf. by rewrite Hdel in Hf. }
    exists o. rewrite Hlk by done. split; [done|]. pose proof (lookup_obj_ok s b o Hwf Hb) as [Hoa _].
    assert (Hcm : forall k, committed t o k = committed s o k).
    { intros k. unfold committed, backing_slot. rewrite Hs, Hoa.
      by rewrite (bool_decide_ext _ _ (Hd b Hne)). }
    split; try done; [|unfold code_of; by rewrite Hc]. intros k. unfold slot. by rewrite Hcm.
  - intros b Hfb. destruct (decide (b = a)) as [->|Hne]; [|unfold view; by rewrite Hlk].
    unfold view. unfold lookup_obj at 1. rewrite Ho, lookup_insert_eq. simpl.
    unfold found in Hf. destruct (lookup_obj s a) as [o|]; [|done]. by destruct (so_deleted o).
Qed.

Lemma keeps_ensure s a : sdb_wf s -> keeps s (ensure a s).1.
Proof.
  intros Hwf. unfold ensure. destruct (lookup_obj s a) as [o|] eqn:Ho.
  - destruct (so_deleted o) eqn:Hd; simpl; [|eapply keeps_set_obj; [done|done|by apply obj_le_refl]].
    assert (Hf : found a s = false) by (unfold found; by rewrite Ho, Hd).
    apply (keeps_new s a); try done; case_match; simpl; try done; try by rewrite insert_insert_eq.
    intros b Hb. set_solver.
  - apply (keeps_new s a); try done. unfold found. by rewrite Ho.
Qed.

Lemma keeps_filled s a fill :
  sdb_wf s -> (forall t o, obj_ok a o -> obj_ok a (fill o) /\ obj_le t o t (fill o)) -> keeps s (filled a fill s).
Proof.
  intros Hwf Hfill. pose proof (ensure_spec s a Hwf) as He. pose proof (keeps_ensure s a Hwf) as Hk. unfold filled.
  destruct (ensure a s) as [s1 o]. simpl in *. destruct He as (HJ & Ho & Hd & Hok).
  eapply keeps_trans; [apply HJ|exact Hk|]. eapply keeps_set_obj; [apply HJ|by apply lookup_obj_live|].
  by apply Hfill.
Qed.
End Keeps.

(** ** Computations that keep the accounts *)

Section Still.
  Context {CR : Crypto}.

Definition still {A : Type} (m : M A) : Prop :=
  forall s x s', sdb_wf s -> revs_ok s -> m s = Some (x, s') -> sdb_wf s' /\ revs_ok s' /\ keeps s s'.

Lemma still_intro {A : Type} (m : M A) :
  J [] m -> (forall s x s', sdb_wf s -> revs_ok s -> m s = Some (x, s') -> keeps s s') -> still m.
Proof.
  intros HJ Hk s x s' Hwf Hok Hr. pose proof (HJ s x s' Hwf (live_nil s Hok) Hr) as (Hwf' & _ & Hrev & _).
  split; [done|]. split; [by eapply revs_extend_ok|by eapply Hk].
Qed.

Lemma still_J {A : Type} (m : M A) :
  J [] m -> (forall s x s', sdb_wf s -> m s = Some (x, s') -> keeps s s') -> still m.
Proof. intros HJ Hk. apply still_intro; [done|]. intros s x s' Hwf _. by apply Hk. Qed.

Lemma still_ret {A : Type} (x : A) : still (mret x).
Proof. by intros s y s' Hwf Hok [= _ <-]. Qed.

Lemma still_gets {A : Type} (f : StateDB -> A) : still (gets f).
Proof. by intros s y s' Hwf Hok [= _ <-]. Qed.

Lemma still_panic {A : Type} : still (@panic A).
Proof. by intros s y s'. Qed.

Lemma still_deref {A : Type} (o : option A) : still (deref o).
Proof. destruct o; [apply still_ret|apply still_panic]. Qed.

Lemma still_bind {A B : Type} (m : M A) (f : A -> M B) : still m -> (forall x, still (f x)) -> still (m ≫= f).
Proof.
  intros Hm Hf s y s' Hwf Hok. unfold mbind, M_bind. destruct (m s) as [[x s1]|] eqn:Hr; [|done]. intros Hr1.
  destruct (Hm s x s1 Hwf Hok Hr) as (W1 & O1 & K1). destruct (Hf x s1 y s' W1 O1 Hr1) as (W2 & O2 & K2).
  split; [done|]. split; [done|exact (keeps_trans s s1 s' W1 K1 K2)].
Qed.

Lemma still_ext {A : Type} (m m' : M A) : (forall s, m s = m' s) -> still m' -> still m.
Proof. intros He H s x s' Hwf Hok Hr. rewrite He in Hr. by eapply H. Qed.

Lemma still_obj a : still (obj a).
Proof. intros s y s' Hwf Hok. unfold obj. destruct (_ !! a); [|done]. by intros [= _ <-]. Qed.

(** ** Methods *)

Lemma still_getStateObject a : still (sdb_getStateObject a).
Proof.
  apply still_J; [apply J_getStateObject|]. intros s x s' Hwf. rewrite getStateObject_run.
  destruct (lookup_obj s a) as [o|] eqn:Ho; intros [= _ <-]; [|done].
  eapply keeps_set_obj; [done|done|by apply obj_le_refl].
Qed.

Lemma still_so_Code a : still (so_Code a).
Proof.
  apply still_J; [apply J_so_Code|]. intros s x s' Hwf.
  unfold so_Code, mbind, M_bind. destruct (obj a s) as [[o s0]|] eqn:Ho; [|done].
  unfold obj in Ho. destruct (sdb_stateObjects s !! a) as [o'|] eqn:Hs; [|done]. injection Ho as <- <-.
  unfold gets. rewrite upd_edit. unfold edit. rewrite Hs. intros [= _ <-].
  eapply keeps_set_obj; [done|by apply lookup_obj_live|].
  split; try done. unfold code_of. simpl. destruct (so_code o'); [done|].
  destruct (_ =? emptyCodeHash); [done|]. by destruct (sdb_codes s !! _).
Qed.

(** A method that leaves an object that shows the same. *)
Lemma keeps_reading (m : M Hash) (v : StateDB -> stateObject -> Hash) a s x s' :
  (sdb_stateObjects s !! a = None -> m s = None) ->
  (forall o, obj_ok a o -> sdb_stateObjects s !! a = Some o ->
     exists o1, m s = Some (v s o, set_obj a o1 s) /\ obj_ok a o1 /\ obj_le s o s o1) ->
  sdb_wf s -> m s = Some (x, s') -> keeps s s'.
Proof.
  intros Hnone Hsome Hwf Hr. destruct (sdb_stateObjects s !! a) as [o|] eqn:Ho; [|by rewrite Hnone in Hr].
  destruct (Hsome o (proj1 Hwf a o Ho) eq_refl) as (o1 & Hr1 & _ & Hle). rewrite Hr in Hr1.
  injection Hr1 as _ ->. eapply keeps_set_obj; [done|by apply lookup_obj_live|done].
Qed.

Lemma still_GetState a k : still (so_GetState a k).
Proof.
  apply still_J; [apply J_GetState|]. intros s x s' Hwf.
  eapply (keeps_reading _ (fun s o => slot s o k) a); [|intros; by apply GetState_run|done].
  unfold so_GetState. run_obj. by intros ->.
Qed.

Lemma still_GetCommittedState a k : still (so_GetCommittedState a k).
Proof.
  apply still_J; [apply J_GetCommittedState|]. intros s x s' Hwf.
  eapply (keeps_reading _ (fun s o => committed s o k) a); [|intros; by apply GetCommittedState_run|done].
  unfold so_GetCommittedState. run_obj. by intros ->.
Qed.

Lemma still_newAccount a : still (sdb_GetOrNewAccountStateObject a).
Proof.
  apply still_J; [apply (J_CreateAccount [])|]. intros s x s' Hwf. rewrite GetOrNewAccount_run.
  intros [= _ <-]. by apply keeps_filled, fill_account_le.
Qed.

Lemma still_newNFT a : still (sdb_GetOrNewNFTStateObject a).
Proof.
  apply still_J; [apply (J_CreateNFTAccount [])|]. intros s x s' Hwf. rewrite GetOrNewNFT_run.
  intros [= _ <-]. by apply keeps_filled, fill_nft_le.
Qed.

Lemma still_AddRefund g : still (sdb_AddRefund g).
Proof. apply still_J; [apply J_AddRefund|]. intros s x s' _ [= _ <-]. by apply keeps_layers. Qed.

Lemma still_SubRefund g : still (sdb_SubRefund g).
Proof.
  apply still_J; [apply J_SubRefund|]. intros s x s' _. unfold sdb_SubRefund. run_obj.
  destruct (_ <? _); [done|]. intros [= _ <-]. by apply keeps_layers.
Qed.

Lemma still_AddPreimage h p : still (sdb_AddPreimage h p).
Proof.
  apply still_J; [apply J_AddPreimage|]. intros s x s' _. unfold sdb_AddPreimage. run_obj.
  destruct (sdb_preimages s !! h); intros [= _ <-]; [done|by apply keeps_layers].
Qed.

Lemma still_AddAddress a : still (sdb_AddAddressToAccessList a).
Proof.
  apply still_J; [apply J_AddAddressToAccessList|]. intros s x s' _. unfold sdb_AddAddressToAccessList. run_obj.
  destruct (al_AddAddress a _) as [[] al]; intros [= _ <-]; [by apply keeps_layers|done].
Qed.

Lemma still_AddSlot a k : still (sdb_AddSlotToAccessList a k).
Proof.
  apply still_J; [apply J_AddSlotToAccessList|]. intros s x s' _. unfold sdb_AddSlotToAccessList. run_obj.
  destruct (al_AddSlot a k _) as [[[b1 b2] al]|]; [|done]. simpl.
  destruct b1, b2; intros [= _ <-]; by apply keeps_layers.
Qed.

Lemma still_touch a : still (so_touch a).
Proof.
  apply still_J; [apply J_touch|]. intros s x s' _. unfold so_touch. run_obj.
  destruct (_ =? ripemd); intros [= _ <-]; by apply keeps_layers.
Qed.
End Still.

(** One step, by the shape of the computation. *)
Ltac still_step :=
  lazymatch goal with
  | |- still (mret _) => apply still_ret
  | |- still (gets _) => apply still_gets
  | |- still panic => apply still_panic
  | |- still (deref _) => apply still_deref
  | |- still (obj _) => apply still_obj
  | |- still (sdb_getStateObject _) => apply still_getStateObject
  | |- still (so_Code _) => apply still_so_Code
  | |- still (so_GetState _ _) => apply still_GetState
  | |- still (so_GetCommittedState _ _) => apply still_GetCommittedState
  | |- still (so_touch _) => apply still_touch
  | |- still (sdb_GetOrNewAccountStateObject _) => apply still_newAccount
  | |- still (sdb_GetOrNewNFTStateObject _) => apply still_newNFT
  | |- still (sdb_AddRefund _) => apply still_AddRefund
  | |- still (sdb_SubRefund _) => apply still_SubRefund
  | |- still (sdb_AddPreimage _ _) => apply still_AddPreimage
  | |- still (sdb_AddAddressToAccessList _) => apply still_AddAddress
  | |- still (sdb_AddSlotToAccessList _ _) => apply still_AddSlot
  | |- still (_ ≫= _) => apply still_bind; [|intros ?]
  | |- still (match _ with _ => _ end) => case_match
  | |- _ => progress (autounfold with jrnl)
  end; cbv beta zeta.

Ltac keeping := repeat still_step.

(** ** Runs *)

(** Calls by [evm] that keep the accounts; those that carry a value are left out. *)
Record still_calls {CR : Crypto} (evm : EVM) (K : Calls) : Prop := {
  sc_Call : forall c a i g, still (k_Call K evm c a i g 0);
  sc_CallCode : forall c a i g v, still (k_CallCode K evm c a i g v);
  sc_DelegateCall : forall c a i g, still (k_DelegateCall K evm c a i g);
  sc_StaticCall : forall c a i g, still (k_StaticCall K evm c a i g);
}.

Section Static.
  Context {CR : Crypto} {U : Uint256}.

(** An operation that writes, or keeps the accounts unless it is a call with a value. *)
Definition op_still (code : Z) (o : operation) : Prop :=
  (o_writes o = true \/
   forall sc fr, still_calls (x_evm sc) (x_calls sc) ->
     (code = Op.CALL -> forall v, f_stack fr !! 2%nat = Some v -> v = 0) -> still (o_execute o sc fr)) /\
  (forall f sc fr ms, o_dynamicGas o = Some f ->
     still (f sc fr ms) /\ (code = Op.CALL -> post (f sc fr ms) (fun x => f_stack x.2 = f_stack fr))).

Lemma op_still_op code e g p q :
  (forall sc fr, still_calls (x_evm sc) (x_calls sc) ->
     (code = Op.CALL -> forall v, f_stack fr !! 2%nat = Some v -> v = 0) -> still (e sc fr)) ->
  op_still code (op e g p q).
Proof. intros He. split; [by right|done]. Qed.

Lemma op_still_dynamic code f o :
  (forall sc fr ms, still (f sc fr ms)) ->
  (forall sc fr ms, code = Op.CALL -> post (f sc fr ms) (fun x => f_stack x.2 = f_stack fr)) ->
  op_still code o -> op_still code (dynamic f o).
Proof. intros Hf Hp [He _]. split; [done|]. intros ? ? ? ? [= <-]. split; [done|by apply Hp]. Qed.

Lemma op_still_writing code e g p q : op_still code (writing (op e g p q)).
Proof. split; [by left|done]. Qed.

Lemma op_still_same code o o' :
  o_execute o' = o_execute o -> o_dynamicGas o' = o_dynamicGas o -> o_writes o' = o_writes o ->
  op_still code o -> op_still code o'.
Proof. intros He Hd Hw [H1 H2]. split; intros *; rewrite ?He, ?Hd, ?Hw; [apply H1|apply H2]. Qed.

(** The price of a call leaves the stack. *)
Lemma gasCall_stack sc fr ms : post (gasCall sc fr ms) (fun x => f_stack x.2 = f_stack fr).
Proof.
  unfold gasCall, with_memory, pay_call, back. do 2 (apply post_deref; intros ? _). apply post_bind. intros new.
  destruct (memoryGasCost _ _) as [[fee| |] m]; [|by apply post_ret..].
  destruct (safe_add _ _) as [g| |]; [|by apply post_ret..]. apply post_deref. intros cc _.
  by destruct (callGas _ _ _ _); apply post_ret.
Qed.

Lemma gasCallEIP2929_stack sc fr ms : post (gasCallEIP2929 sc fr ms) (fun x => f_stack x.2 = f_stack fr).
Proof.
  unfold gasCallEIP2929, makeCallVariantGasCallEIP2929, back. apply post_deref. intros a _. apply post_bind.
  intros [|]; [apply gasCall_stack|]. apply post_bind. intros _. destruct (c_UseGas _ _) as [[] rest]; [|by apply post_ret].
  eapply post_bind'; [apply gasCall_stack|]. intros [[g| |] fr1] H; by apply post_ret.
Qed.

Lemma opCall_still sc fr :
  still_calls (x_evm sc) (x_calls sc) -> (forall v, f_stack fr !! 2%nat = Some v -> v = 0) -> still (opCall sc fr).
Proof.
  intros HK Hv. unfold opCall. destruct (f_stack fr) as [|? [|? [|v [|? [|? [|? [|? st]]]]]]] eqn:Est; try apply still_panic.
  rewrite (Hv v eq_refl). apply still_bind; [apply still_deref|]. intros args.
  apply still_bind; [apply (sc_Call _ _ HK)|]. intros res. keeping.
Qed.

#[local] Ltac stack :=
  intros sc fr ms; first [by intros [=] | intros _; first [apply gasCall_stack | apply gasCallEIP2929_stack]].

#[local] Ltac operation :=
  lazymatch goal with
  | |- op_still _ (op opCall _ _ _) => apply op_still_op; intros sc fr HK Hv; apply opCall_still; [done|by apply Hv]
  | |- op_still _ (op _ _ _ _) =>
      apply op_still_op; intros sc fr HK _; keeping;
      first [apply (sc_CallCode _ _ HK) | apply (sc_DelegateCall _ _ HK) | apply (sc_StaticCall _ _ HK)]
  | |- op_still _ (dynamic _ _) => apply op_still_dynamic; [intros sc fr ms; by keeping|stack|operation]
  | |- op_still _ (writing (op _ _ _ _)) => apply op_still_writing
  | |- op_still _ (writing (returning ?o)) =>
      apply (op_still_same _ (writing o)); [reflexivity|reflexivity|reflexivity|operation]
  | |- op_still _ (sized _ ?o) => apply (op_still_same _ o); [reflexivity|reflexivity|reflexivity|operation]
  | |- op_still _ (_ ?o) => apply (op_still_same _ o); [reflexivity|reflexivity|reflexivity|operation]
  end.

Lemma table_still : table_rules op_still.
Proof.
  split; [split|].
  - repeat apply Forall_cons_2; [..|by apply Forall_nil_2]. all: operation.
  - repeat apply Forall_cons_2; [..|by apply Forall_nil_2]. all: operation.
  - repeat apply Forall_cons_2; [..|by apply Forall_nil_2]; intros o Ho; by eapply op_still_same.
  - repeat apply Forall_cons_2; [..|by apply Forall_nil_2]; intros o Ho;
      (apply op_still_dynamic; [intros sc fr ms; by keeping|stack|done]).
  - repeat apply Forall_cons_2; [..|by apply Forall_nil_2]; intros o Ho;
      (apply op_still_dynamic; [intros sc fr ms; by keeping|stack|by eapply op_still_same]).
Qed.

Lemma perform_still sc code o fr :
  op_still code o -> o_writes o = false -> still_calls (x_evm sc) (x_calls sc) ->
  (code = Op.CALL -> forall v, f_stack fr !! 2%nat = Some v -> v = 0) ->
  still (perform sc o fr).
Proof.
  intros [He Hd] Hw HK Hv. destruct He as [He|He]; [congruence|]. unfold perform, exit.
  destruct (c_UseGas _ _) as [[] rest]; [|apply still_ret]. apply still_bind; [apply still_deref|].
  intros [ms| |]; [|apply still_ret..]. set (fr0 := set_f_gas rest fr).
  assert (Hu : still (use_dynamic_gas sc o ms fr0)).
  { unfold use_dynamic_gas. destruct (o_dynamicGas o) as [f|] eqn:Ed; [|apply still_ret].
    apply still_bind; [by apply (Hd f)|]. intros [r fr1]. keeping. }
  assert (Hst : code = Op.CALL -> post (use_dynamic_gas sc o ms fr0) (fun x => f_stack x.2 = f_stack fr)).
  { intros Hc. unfold use_dynamic_gas. destruct (o_dynamicGas o) as [f|] eqn:Ed; [|by apply post_ret].
    eapply post_bind'; [by apply (Hd f)|]. intros [[c| |] fr1] H; [|by apply post_ret..].
    by destruct (c_UseGas _ _); apply post_ret. }
  intros s x s' Hwf Hok. unfold mbind at 1, M_bind at 1.
  destruct (use_dynamic_gas sc o ms fr0 s) as [[[ok fr1] s1]|] eqn:Hr; [|done]. intros Hr1.
  destruct (Hu s _ s1 Hwf Hok Hr) as (W1 & O1 & K1).
  assert (Hs : still (if negb ok then mret (fr1, Some ([], Some ErrOutOfGas)) else
    '(fr, res, err) ← o_execute o sc (resize ms fr1); mret (conclude o fr res err))).
  { destruct (negb ok); [apply still_ret|]. apply still_bind; [|intros [[? ?] ?]; apply still_ret].
    apply He; [done|]. intros Hc v. assert (Hr2 : f_stack (resize ms fr1) = f_stack fr).
    { etransitivity; [|exact (Hst Hc s _ s1 Hr)]. unfold resize. by destruct (0 <? ms). }
    rewrite Hr2. by apply Hv. }
  destruct (Hs s1 x s' W1 O1 Hr1) as (W2 & O2 & K2). split; [done|]. split; [done|]. exact (keeps_trans s s1 s' W1 K1 K2).
Qed.

(** In read-only mode the operations that write are refused. *)
Lemma step_still evm sc fr :
  evm_readOnly (x_evm sc) = true -> evm_IsByzantium (x_evm sc) = true -> still_calls (x_evm sc) (x_calls sc) ->
  still (step (jump_table evm) sc fr).
Proof.
  intros Hro Hby HK. unfold step. set (code := GetOp _ _). destruct (jump_table evm !! code) as [o|] eqn:Ho; [|apply still_ret].
  pose proof (jump_table_all _ (tr_early _ table_still) evm _ o table_still Ho) as Hs.
  do 2 (destruct (_ <? _); [apply still_ret|]). unfold write_protected. rewrite Hro, Hby. simpl.
  destruct (o_writes o) eqn:Hw.
  { apply (still_ext _ (exit fr ErrWriteProtection)); [done|apply still_ret]. }
  destruct (code =? Op.CALL) eqn:Ec.
  - unfold back. destruct (f_stack fr !! 2%nat) as [v|] eqn:Ev; [|by intros s]. simpl.
    destruct (v =? 0) eqn:E0.
    + apply (still_ext _ (perform sc o fr)); [intros s; unfold mbind, M_bind; simpl; by rewrite E0|].
      eapply perform_still; [done..|]. intros _ v' Hv'. rewrite Ev in Hv'. injection Hv' as <-. by apply Z.eqb_eq.
    + apply (still_ext _ (exit fr ErrWriteProtection)); [|apply still_ret].
      intros s. unfold mbind, M_bind. simpl. by rewrite E0.
  - apply (still_ext _ (perform sc o fr)); [done|]. apply Z.eqb_neq in Ec. by eapply perform_still.
Qed.

Lemma RunWith_still K evm c i ro :
  ro || evm_readOnly evm = true -> evm_IsByzantium evm = true -> still_calls (evm_enter ro evm) K ->
  still (RunWith K evm c i ro).
Proof.
  intros Hro Hby HK. unfold RunWith. destruct (c_Code c); [apply still_ret|]. generalize (start c) as fr.
  set (sc := mkScope (evm_enter ro evm) c i K). induction (S (Z.to_nat (c_Gas c))) as [|fuel IH]; intros fr; simpl;
    [apply still_panic|].
  apply still_bind; [by apply step_still|]. intros [fr' [[ret err]|]]; [apply still_ret|apply IH].
Qed.

(** ** The watched machine *)

(** Whether the input is a payload of the chain's own transactions. *)
Definition carries (MA : Machine) (i : bytes) : bool := match payload (MA := MA) i with Ret (Some _) => true | _ => false end.

(** Calls that stop the run when they carry a payload; the other kinds of calls look at none. *)
Definition watch (MA : Machine) (K : Calls) : Calls :=
  mkCalls (fun evm c a i g v => if carries MA i then panic else k_Call K evm c a i g v)
    (k_CallCode K) (k_DelegateCall K) (k_StaticCall K) (k_Create K) (k_Create2 K).

Fixpoint watched (d : nat) (MA : Machine) : Machine :=
  match d with
  | O => MA
  | S d => with_Run MA (RunWith (watch MA (calls_of (watched d MA))))
  end.

(** The interpreter, which stops when a call carries a payload. *)
Definition WatchedInterpreter (MA : Machine) : Machine := watched 1025 (no_interpreter MA).

Lemma watched_with_Run d MA : watched d MA = with_Run MA (Run (Machine := watched d MA)).
Proof. by destruct d, MA. Qed.

Lemma watch_watched d MA K : watch MA K = watch (watched d MA) K.
Proof. by destruct d. Qed.

Lemma interpreter_as_Run d MA : interpreter d MA = with_Run MA (Run (Machine := interpreter d MA)).
Proof. by destruct d, MA. Qed.

Lemma watch_below MA K K' evm : calls_below evm K K' -> calls_below evm (watch MA K) K'.
Proof. intros []. split; try done. intros c a i g v. simpl. destruct (carries MA i); [apply below_panic|done]. Qed.

Lemma watched_below d MA evm c i ro : below (Run (Machine := watched d MA) evm c i ro) (Run (Machine := interpreter d MA) evm c i ro).
Proof.
  revert evm c i ro. induction d as [|d IH]; intros evm c i ro; [by apply below_eq|]. simpl.
  apply RunWith_below, watch_below. rewrite watched_with_Run, interpreter_as_Run. apply calls_of_below. intros _. apply IH.
Qed.

(** A run on the watched machine that ends is the run of the interpreter. *)
Lemma StaticCall_watched MA evm c a i g s x :
  StaticCall (MA := WatchedInterpreter MA) evm c a i g s = Some x -> StaticCall (MA := EVMInterpreter MA) evm c a i g s = Some x.
Proof.
  unfold WatchedInterpreter, EVMInterpreter. rewrite watched_with_Run, interpreter_as_Run. intros Hx.
  pose proof (calls_of_below (no_interpreter MA) _ _ evm (fun _ => watched_below 1025 (no_interpreter MA) evm)) as Hb.
  destruct (cb_StaticCall _ _ _ Hb c a i g s) as [H|H]; cbn [calls_of k_StaticCall] in H; rewrite Hx in H; [discriminate|by rewrite H].
Qed.

Lemma watch_journalled MA K : journalled_calls K -> journalled_calls (watch MA K).
Proof. intros []. split; try done. intros L evm c a i g v. simpl. destruct (carries MA i); [apply J_panic|done]. Qed.

Lemma watched_journalled d MA : JournalledMachine MA -> JournalledMachine (watched d MA).
Proof.
  intros HM. induction d as [|d IH]; [done|]. intros evm c i ro L. simpl. by apply RunWith_journalled, watch_journalled, calls_of_journalled.
Qed.

(** ** Calls *)

(** Under a snapshot, a failed call is undone. *)
Lemma still_close {A : Type} (body : M A) (r : A -> bytes * Z * goerror) :
  J [] body -> still body -> still (id ← sdb_Snapshot; x ← body; close id (r x)).
Proof.
  intros HJ Hs. apply still_intro.
  - apply J_snapshot. intros s id. apply Jin_bind; [done|]. intros x. apply Jin_close.
  - intros s x s' Hwf Hok. pose proof (live_nil s Hok) as HL. unfold mbind, M_bind.
    destruct (sdb_Snapshot s) as [[id sid]|] eqn:Hsn; [|done].
    pose proof (J_Snapshot [] s id sid Hwf HL Hsn) as H0. pose proof (live_Jspec [] s sid HL H0) as [Hok0 HL0].
    destruct (body sid) as [[y s1]|] eqn:Hb; [|done]. intros Hc.
    pose proof (HJ sid y s1 (proj1 H0) (conj Hok0 HL0) Hb) as H1.
    pose proof (close_spec [] s id sid s1 (r y) _ s' Hwf HL Hsn H1 Hc) as Hcl.
    destruct (x.2); [by apply keeps_le, Hcl|]. subst s'.
    destruct (Hs sid y s1 (proj1 H0) Hok0 Hb) as (_ & _ & K1). eapply keeps_trans; [apply H0| |exact K1].
    injection Hsn as _ <-. by apply keeps_layers.
Qed.

Section StaticCalls.
  Context (MA : Machine) {JM : JournalledMachine MA} (evm : EVM).
  Context (Hrun : forall c i ro, ro || evm_readOnly evm = true -> still (Run evm c i ro)).

Lemma still_guarded g m : still m -> still (guarded evm g m).
Proof. intros Hm. unfold guarded. by do 2 (case_match; [apply still_ret|]). Qed.

Lemma still_Transfer0 a b : still (Transfer a b 0).
Proof. unfold Transfer, sdb_SubBalance, sdb_AddBalance, so_SubBalance, so_AddBalance. simpl. keeping. Qed.

Lemma still_plain_body c a i g : evm_readOnly evm = true -> still (plain_body evm c a i g 0).
Proof.
  intros Hro. unfold plain_body. apply still_bind; [keeping|]. intros ex.
  apply still_bind; [destruct (negb ex); [apply still_newAccount|apply still_ret]|]. intros _.
  apply still_bind; [apply still_Transfer0|]. intros _. destruct (precompile evm a); [apply still_ret|].
  apply still_bind; [keeping|]. intros code. destruct (default [] code); [apply still_ret|].
  apply still_bind; [keeping|]. intros h. apply Hrun. by rewrite Hro.
Qed.

Lemma still_run_code a c i g ro : ro || evm_readOnly evm = true -> still (run_code evm a c i g ro).
Proof.
  intros Hro. unfold run_code. destruct (precompile evm a); [apply still_ret|].
  apply still_bind; [apply still_deref|]. intros ct. do 2 (apply still_bind; [keeping|]; intros ?). by apply Hrun.
Qed.

Lemma still_Call c a i g : evm_readOnly evm = true -> (forall w, payload i <> Ret (Some w)) -> still (Call evm c a i g 0).
Proof.
  intros Hro Hno. destruct (payload i) as [[w|]|e|] eqn:Hp; [by destruct (Hno w)| | |].
  - eapply still_ext; [intros s; by apply Call_plain|]. apply still_guarded. unfold can_pay. simpl.
    apply (still_ext _ (id ← sdb_Snapshot; r ← plain_body evm c a i g 0; close id r)); [done|].
    apply (still_close _ (fun r => r)); [apply J_plain_body|by apply still_plain_body].
  - unfold Call. rewrite Hp. by do 2 (case_match; [apply still_ret|]); apply still_ret.
  - unfold Call. rewrite Hp. do 2 (case_match; [apply still_ret|]). apply still_panic.
Qed.

Lemma still_StaticCall c a i g : still (StaticCall evm c a i g).
Proof.
  apply still_guarded.
  apply (still_ext _ (id ← sdb_Snapshot;
    r ← (_ ← sdb_AddBalance a 0; run_code evm a (Some (NewContract c a (Some 0) g)) i g true); close id r)).
  { intros s. apply M_bind_ext. intros id s1. symmetry. apply M_assoc. }
  apply (still_close _ (fun r => r)).
  - apply J_bind; [journalled|]. intros _. apply J_run_code.
  - apply still_bind; [unfold sdb_AddBalance, so_AddBalance; simpl; keeping|]. intros _. by apply still_run_code.
Qed.

Lemma watch_still : evm_readOnly evm = true -> still_calls evm (watch MA (calls_of MA)).
Proof.
  intros Hro. split; intros; simpl.
  - destruct (carries MA i) eqn:Hc; [apply still_panic|]. apply still_Call; [done|]. intros w Hw. unfold carries in Hc. by rewrite Hw in Hc.
  - apply still_guarded. apply still_bind; [unfold CanTransfer; keeping|]. intros ok.
    destruct (negb ok); [apply still_ret|]. apply (still_close _ (fun r => r)); [apply J_run_code|].
    by apply still_run_code.
  - apply still_guarded, (still_close _ (fun r => r)); [apply J_run_code|]. by apply still_run_code.
  - apply still_StaticCall.
Qed.
End StaticCalls.

Lemma watched_still d MA evm c i ro :
  JournalledMachine MA -> (forall evm c i ro, still (Run (Machine := MA) evm c i ro)) ->
  ro || evm_readOnly evm = true -> evm_IsByzantium evm = true ->
  still (Run (Machine := watched d MA) evm c i ro).
Proof.
  intros HJ Hb. revert evm c i ro. induction d as [|d IH]; intros evm c i ro Hro Hby; [apply Hb|]. simpl.
  apply RunWith_still; [done|done|].
  rewrite (watch_watched d). apply (@watch_still _ (watched_journalled d MA HJ)); [|done]. intros c' i' ro' Hro'. by apply IH.
Qed.

Lemma watched_StaticCall_still d MA evm c a i g :
  JournalledMachine MA -> (forall evm c i ro, still (Run (Machine := MA) evm c i ro)) -> evm_IsByzantium evm = true ->
  still (StaticCall (MA := watched d MA) evm c a i g).
Proof.
  intros HJ Hb Hby. apply (@still_StaticCall _ (watched_journalled d MA HJ)). intros c' i' ro Hro. by apply watched_still.
Qed.

Lemma WatchedInterpreter_still MA evm c a i g : evm_IsByzantium evm = true -> still (StaticCall (MA := WatchedInterpreter MA) evm c a i g).
Proof. intros Hby. apply watched_StaticCall_still; [intros ? ? ? ? ?; apply J_panic|intros; apply still_panic|done]. Qed.

(** * Properties *)

(** C16. A static call keeps the state, unless a transaction of the chain's own kind is
    executed in it.  Under the Byzantium rules, whatever code the called contract has and
    whatever calls it makes in turn: if no call made during this run has an input that
    decodes as such a transaction, that is, if the run also ends on the interpreter that
    stops at such a call, then the static call leaves every live account as it was
    (balance, nonce, code, every storage slot, staking and token data) and makes no other
    address look used. *)
Theorem StaticCall_keeps (MA : Machine) (evm : EVM) (caller : ContractRef) (addr : Address) (input : bytes) (gas : Z)
    (s s' : StateDB) (r : bytes * Z * goerror) :
  sdb_wf s -> revs_ok s -> evm_IsByzantium evm = true ->
  is_Some (StaticCall (MA := WatchedInterpreter MA) evm caller addr input gas s) ->
  StaticCall (MA := EVMInterpreter MA) evm caller addr input gas s = Some (r, s') ->
  keeps s s' /\ weq (world_of s') (world_of s).
Proof.
  intros Hwf Hok Hby [x Hx] Hr. pose proof (StaticCall_watched _ _ _ _ _ _ _ _ Hx) as Hx'. rewrite Hr in Hx'. injection Hx' as <-.
  destruct (WatchedInterpreter_still MA evm caller addr input gas Hby s r s' Hwf Hok Hx) as (_ & _ & Hk). split; [done|]. intros a. rewrite <- !view_acct. by apply keeps_view.
Qed.
End Static.
