(* ===== verification/EvmCsbt.v ===== *)
(** Calls that carry one of the chain's own transactions: what a failed one leaves
    behind, and what the contract at the called address is told. *)
From stdpp Require Import strings.
From S2P Require Import Prelude KeyedList Common Params Wormholes Rewards Validators Selection Stakers AccessList StateTypes State StateDB StateRevert Staking StateView World Ledger Evm EvmLedger Journalled EvmRevert.

Open Scope Z_scope.

Section EvmCsbt.
  Context {CR : Crypto} {MA : Machine} {JM : JournalledMachine MA}.

(** ** Steps that show nothing *)

Definition quiet {A : Type} (m : M A) : Prop :=
  forall s x s', sdb_wf s -> m s = Some (x, s') -> sdb_wf s' /\ weq (world_of s') (world_of s).

Lemma quiet_TW {A : Type} (m : M A) : (forall w E, exists x, TW w E m x w) -> quiet m.
Proof.
  intros H s x s' Hwf Hr. destruct (H (world_of s) (mkExt [] [] [])) as [y Hy].
  destruct (TW_run m y _ s Hwf Hy) as (s1 & Hr1 & Hw1 & He1). rewrite Hr in Hr1. by injection Hr1 as -> ->.
Qed.

Lemma quiet_can_pay nft a b n : quiet (can_pay nft a b n).
Proof.
  apply quiet_TW. intros w E. unfold can_pay. destruct (match nft with Some _ => _ | None => _ end).
  - destruct (negb (pledge_balance b (wd_sext w a) =? n) && (0 <? n)) eqn:Hc; eexists;
      (eapply TW_bind; [apply TW_GetStakerPledgedBalance|]); cbv beta; rewrite Hc; [|apply TW_ret].
    eapply TW_bind; [apply TW_GetStakerPledgedBalance|]. apply TW_ret.
  - destruct (negb (n =? 0)); eexists; [apply TW_CanTransfer|apply TW_ret].
Qed.

Lemma quiet_CreateAccount a : quiet (sdb_CreateAccount a).
Proof.
  apply quiet_TW. intros w E. exists tt. intros s Hs.
  destruct (TW_newAccount w E a (mret tt) tt w (TW_ret _ _ _) s Hs) as (s' & Hr & Hs').
  exists s'. split; [|done]. unfold mbind, M_bind in Hr. unfold sdb_CreateAccount.
  rewrite GetOrNewAccount_run in *. by injection Hr as ->.
Qed.

Lemma quiet_ret {A : Type} (x : A) : quiet (mret x).
Proof. by intros s y s' Hwf [= <- <-]. Qed.

Lemma quiet_bind {A B : Type} (m : M A) (f : A -> M B) : quiet m -> (forall x, quiet (f x)) -> quiet (m ≫= f).
Proof.
  intros Hm Hf s y s' Hwf. unfold mbind, M_bind. destruct (m s) as [[x s1]|] eqn:Hr; [|done]. intros Hr2.
  destruct (Hm s x s1 Hwf Hr) as [W1 Q1]. destruct (Hf x s1 y s' W1 Hr2) as [W2 Q2]. split; [done|]. by rewrite Q2.
Qed.

Lemma quiet_getStateObject a : quiet (sdb_getStateObject a).
Proof.
  intros s x s' Hwf. rewrite getStateObject_run.
  destruct (lookup_obj s a) as [o|] eqn:Ho; [|by intros [= _ <-]].
  assert (Hs : shows s (acct (world_of s)) (mkExt [] [] [])).
  { split; simpl; try done; try (by intros ? ?%elem_of_nil). apply view_acct. }
  pose proof (shows_load s _ _ a o Hs Ho) as Hs'. intros [= _ <-]. split; [apply Hs'|].
  intros b. rewrite <- view_acct. apply Hs'.
Qed.

Lemma quiet_Exist a : quiet (sdb_Exist a).
Proof. apply quiet_bind; [apply quiet_getStateObject|intros; apply quiet_ret]. Qed.

Lemma quiet_obj a : quiet (obj a).
Proof. intros s x s' Hwf. unfold obj. destruct (_ !! a); [|done]. by intros [= _ <-]. Qed.

Lemma quiet_deref {A : Type} (o : option A) : quiet (deref o).
Proof. destruct o; [apply quiet_ret|by intros s]. Qed.

Lemma quiet_GetCodeHash a : quiet (sdb_GetCodeHash a).
Proof.
  apply quiet_bind; [apply quiet_getStateObject|]. intros [o|]; [|apply quiet_ret].
  apply quiet_bind; [apply quiet_obj|intros; apply quiet_ret].
Qed.

Lemma quiet_GetNonce a : quiet (sdb_GetNonce a).
Proof. apply quiet_TW. intros w E. eexists. apply TW_GetNonce. Qed.

Lemma quiet_CanTransfer a n : quiet (CanTransfer a n).
Proof. apply quiet_TW. intros w E. eexists. apply TW_CanTransfer. Qed.

Lemma quiet_Snapshot : quiet sdb_Snapshot.
Proof. intros s x s' Hwf [= _ <-]. done. Qed.

(** ** Errors of the chain's own transactions *)

Lemma HandleCSBT_error evm caller addr wh value w e :
  (wHandleCSBT evm caller addr wh value w).1 = Some e ->
  (wHandleCSBT evm caller addr wh value w).2 = w \/ wh_Type wh = 3 /\ e = "cannot have the same proxy".
Proof.
  unfold wHandleCSBT. destruct (wh_CheckFormat wh) as [[]|e'|]; [|by left|by left].
  destruct (wh_Type wh) as [|[[[]|[]|]|[[]|[]|]|]|] eqn:Hty; try by left.
  - left. revert H. unfold wRecover. by repeat case_match.
  - destruct ((pl_Balance _ <? _) && _); [by left|]. destruct (_ <=? _); [|by left]. right.
    split; [done|]. revert H. unfold wResetMinerBecome. destruct (_ <? _); [done|].
    destruct (_ && _); [|done]. by intros [= <-].
  - destruct (_ && _); [by left|]. destruct (_ <=? _); [|by left]. left. revert H. unfold wNewCancel.
    destruct (caller =? addr); [|done]. by destruct (_ && _).
  - destruct (owns _ _ _); [done|by left].
  - destruct (owns _ _ _); [|by left]. destruct (negb _); [by left|]. left. revert H.
    unfold wTransferCSBT. by destruct (GetNftAddressAndLevel _) as [[]| |].
Qed.

(** What happens after the payload was handled. *)
Definition rest_of_call (evm : EVM) (caller : ContractRef) (addr : Address) (input : bytes) (gas value : Z)
    : M (bytes * Z * goerror) :=
  match precompile evm addr with
  | Some p => mret (RunPrecompiledContract p input gas)
  | None =>
      code ← sdb_GetCode addr;
      match default [] code with
      | [] => mret ([], gas, None)
      | c :: code =>
          hash ← sdb_GetCodeHash addr;
          Run evm (c_SetCallCode addr hash (c :: code) (NewContract caller addr (Some value) gas)) input false
      end
  end.

Lemma J_rest_of_call L evm caller addr input gas value : J L (rest_of_call evm caller addr input gas value).
Proof.
  unfold rest_of_call. destruct (precompile evm addr); [apply J_ret|].
  apply J_bind; [apply J_GetCode|]. intros code. destruct (default [] code); [apply J_ret|].
  apply J_bind; [unfold sdb_GetCodeHash; journalled|intros; apply Run_journalled].
Qed.

(** A failed call with a payload, from the state at its snapshot. *)
Lemma csbt_body_error evm caller addr input gas value wh s0 ret left e s' :
  sdb_wf s0 -> revs_ok s0 ->
  (id ← sdb_Snapshot;
   exist ← sdb_Exist addr;
   _ ← (if negb exist then sdb_CreateAccount addr else mret tt);
   err ← HandleCSBT evm (cr_Address caller) addr wh value;
   match err with
   | Some e => mret ([], gas, Some e)
   | None => r ← rest_of_call evm caller addr input gas value; close id r
   end) s0 = Some ((ret, left, Some e), s') ->
  weq (world_of s') (world_of s0) \/ wh_Type wh = 3 /\ e = "cannot have the same proxy".
Proof.
  intros Hwf Hok. pose proof (live_nil s0 Hok) as HL. unfold mbind, M_bind.
  destruct (sdb_Snapshot s0) as [[id s1]|] eqn:E1; [|done].
  pose proof (J_Snapshot [] s0 id s1 Hwf HL E1) as J1. destruct (quiet_Snapshot s0 id s1 Hwf E1) as [W1 Q1].
  destruct (sdb_Exist addr s1) as [[ex s2]|] eqn:E2; [|done]. destruct (quiet_Exist addr s1 ex s2 W1 E2) as [W2 Q2].
  assert (J2 : Jspec s1 s2).
  { eapply (J_bind [] _ _ (J_getStateObject [] addr)); [|exact W1|by eapply live_Jspec|exact E2]. intros; apply J_ret. }
  destruct ((if negb ex then sdb_CreateAccount addr else mret tt) s2) as [[[] s3]|] eqn:E3; [|done].
  assert (W3 : sdb_wf s3 /\ weq (world_of s3) (world_of s2)).
  { destruct (negb ex); [by eapply quiet_CreateAccount|]. by injection E3 as <-. }
  destruct W3 as [W3 Q3]. pose proof (live_Jspec [] _ _ (live_Jspec [] _ _ HL J1) J2) as HL2.
  assert (J3 : Jspec s2 s3).
  { destruct (negb ex); [by apply (J_CreateAccount [] addr s2 tt s3)|by apply (J_ret [] tt s2 tt s3)]. }
  destruct (TW_run _ _ _ _ W3 (HandleCSBT_refines _ _ evm (cr_Address caller) addr wh value))
    as (s4 & E4 & W4 & Q4). rewrite E4.
  assert (Hbase : weq (world_of s3) (world_of s0)) by by rewrite Q3, Q2, Q1.
  destruct ((wHandleCSBT evm (cr_Address caller) addr wh value (world_of s3)).1) as [e'|] eqn:He.
  - intros [= _ _ <- <-]. destruct (HandleCSBT_error _ _ _ _ _ _ _ He) as [Hw|Hw]; [left|by right].
    by rewrite Q4, Hw.
  - pose proof (J_HandleCSBT [] evm (cr_Address caller) addr wh value s3 _ s4 W3 (live_Jspec [] _ _ HL2 J3) E4) as J4.
    destruct (rest_of_call evm caller addr input gas value s4) as [[r s5]|] eqn:E5; [|done]. intros E6. left.
    pose proof (live_Jspec [] _ _ (live_Jspec [] _ _ HL2 J3) J4) as HL4.
    pose proof (J_rest_of_call [] evm caller addr input gas value s4 r s5 W4 HL4 E5) as J5.
    assert (Jall : Jspec s1 s5) by (do 3 (eapply Jspec_trans; [eassumption|]); exact J5).
    pose proof (close_spec [] s0 id s1 s5 r _ s' Hwf HL E1 Jall E6) as (_ & Hle & _).
    by apply sdb_le_weq.
Qed.

(** * Properties *)

(** C23. A [Call] that carries one of the chain's own transactions and fails leaves every
    account's balance, nonce, token data and staking data as they were, except in one
    case: a pledge (type 3) rejected because the proxy already acts for a validator. *)
Theorem csbt_call_failure (evm : EVM) (caller : ContractRef) (addr : Address) (input : bytes) (gas value : Z)
    (wh : Wormholes) (s s' : StateDB) (ret : bytes) (left : Z) (e : string) :
  sdb_wf s -> revs_ok s -> payload input = Ret (Some wh) ->
  Call evm caller addr input gas value s = Some ((ret, left, Some e), s') ->
  weq (world_of s') (world_of s) \/ wh_Type wh = 3 /\ e = "cannot have the same proxy".
Proof.
  intros Hwf Hok Hp. unfold Call. rewrite Hp.
  destruct (_ && _); [done|]. destruct (_ <? _); [intros [= _ _ _ <-]; by left|].
  unfold mbind at 1, M_bind at 1.
  destruct (can_pay _ _ _ _ s) as [[ok s0]|] eqn:E0; [|done].
  destruct (quiet_can_pay _ _ _ _ s ok s0 Hwf E0) as [W0 Q0].
  pose proof (J_can_pay [] _ _ _ _ s ok s0 Hwf (live_nil s Hok) E0) as (_ & _ & Hrev & _).
  destruct (negb ok); [intros [= _ _ _ <-]; by left|]. intros Hc.
  assert (Hok0 : revs_ok s0) by by eapply revs_extend_ok.
  destruct (csbt_body_error evm caller addr input gas value wh s0 ret left e s' W0 Hok0 Hc) as [Hw|]; [|by right].
  left. by rewrite Hw.
Qed.
(** ** Refused pledges *)

(** A pledge of [value] that is recorded and then refused: it is large enough and its sender has the amount, it makes the
    account a validator, and the account's proxy is known to the validator list without the account. *)
Definition pledge_refused (w : world) (from to : Address) (value : Z) (wh : Wormholes) : Prop :=
  let proxy := if from =? to then new_proxy wh else wd_proxy w to in
  (StakerBase <= pl_Balance (entry w from to) \/ StakerBase <= value) /\ value <= wd_bal w from /\
  ValidatorBase <= wd_pledged w to + value /\ proxy <> 0 /\
  vl_Exist proxy (apply_list (vl_ResetRemoveValidator to) (validators w)) = true.

(** What the pledge leaves in the accounts. *)
Definition pledge_taken (w : world) (from to : Address) (value : Z) (w' : world) : Prop :=
  wd_bal w' from = wd_bal w from - value /\ wd_pledged w' to = wd_pledged w to + value /\
  pledge_balance to (wd_sext w' from) = pledge_balance to (wd_sext w from) + value.

Lemma pledge_refused_weq w w0 from to value wh : weq w0 w -> pledge_refused w from to value wh -> pledge_refused w0 from to value wh.
Proof.
  intros (Hb & Hs & _ & Hp & Hv & _ & _ & _ & _ & Hx)%weq_fields. unfold pledge_refused, entry. by rewrite Hb, Hs, Hp, Hv, Hx.
Qed.

Lemma HandleCSBT_refused evm from to wh value w :
  wh_Type wh = 3 -> NoDup (keys pl_Addr (wd_sext w from)) -> pledge_refused w from to value wh ->
  exists w', wHandleCSBT evm from to wh value w = (Some "cannot have the same proxy", w') /\ pledge_taken w from to value w'.
Proof.
  intros Ht Hnd (H1 & H2 & H3 & H4 & H5). unfold wHandleCSBT. assert (wh_CheckFormat wh = Ret tt) as -> by (unfold wh_CheckFormat; by rewrite Ht). rewrite Ht.
  assert ((pl_Balance (entry w from to) <? StakerBase) && (value <? StakerBase) = false) as ->.
  { apply andb_false_iff. rewrite !Z.ltb_ge. done. }
  rewrite (proj2 (Z.leb_le _ _) H2). unfold wResetMinerBecome. set (w1 := wStakerPledge from to value _ _ w).
  assert (Hp : wd_pledged w1 to = wd_pledged w to + value) by (unfold w1, wStakerPledge; destruct (from =? to); simpl; by rewrite fset_eq).
  assert (Hx : wd_proxy w1 to = if from =? to then new_proxy wh else wd_proxy w to) by (unfold w1, wStakerPledge; destruct (from =? to); simpl; by rewrite ?fset_eq).
  assert (Hv : validators w1 = validators w) by (unfold w1, wStakerPledge; by destruct (from =? to)).
  change (wd_pledged (set_validators _ w1) to) with (wd_pledged w1 to). change (wd_proxy (set_validators _ w1) to) with (wd_proxy w1 to).
  rewrite Hp, Hx. destruct (Z.ltb_spec (wd_pledged w to + value) ValidatorBase); [lia|]. apply Z.eqb_neq in H4. rewrite H4. unfold set_validators. cbn [wset_vals wd_vals]. rewrite fset_eq, Hv, H5. cbn [negb andb].
  eexists. split; [done|]. split_and!; simpl.
  - unfold w1, wStakerPledge. destruct (from =? to); simpl; rewrite fset_eq; lia.
  - done.
  - transitivity (pledge_balance to (add_pledge to value (evm_BlockNumber evm) (wd_sext w from)).2); [|rewrite pledge_balance_add by done; by rewrite decide_True].
    unfold w1, wStakerPledge. destruct (from =? to); simpl; by rewrite fset_eq.
Qed.

(** C40. [Call] does not revert a refused pledge.  For every well-formed state in which the
    sender's pledges are to different accounts, and every call that may still run code: a
    pledge (type 3) that is large enough, that its sender can pay, and that would make the
    account a validator whose proxy already is a validator or acts for one, is answered
    with an error and all the gas, but the amount is gone from the sender's balance and is
    recorded as a pledge. *)
Theorem failed_pledge_not_reverted (evm : EVM) (caller : ContractRef) (addr : Address) (input : bytes) (gas value : Z)
    (wh : Wormholes) (s : StateDB) :
  sdb_wf s -> NoDup (keys pl_Addr (wd_sext (world_of s) (cr_Address caller))) ->
  evm_NoRecursion evm = false -> evm_depth evm <= CallCreateDepth ->
  payload input = Ret (Some wh) -> wh_Type wh = 3 -> pledge_refused (world_of s) (cr_Address caller) addr value wh ->
  exists s', Call evm caller addr input gas value s = Some (([], gas, Some "cannot have the same proxy"), s') /\
    pledge_taken (world_of s) (cr_Address caller) addr value (world_of s').
Proof.
  intros Hwf Hnd Hnr Hd Hp Ht Href. unfold Call. rewrite Hnr, Hp. destruct (Z.ltb_spec CallCreateDepth (evm_depth evm)); [lia|]. cbn [andb].
  assert (Hpay : TW (world_of s) (mkExt [] [] []) (can_pay (Some wh) (cr_Address caller) addr value) true (world_of s)).
  { unfold can_pay. rewrite Ht. cbn [Z.eqb Pos.eqb]. destruct (negb (value =? 0)); [|apply TW_ret]. rewrite <- (proj2 (Z.leb_le _ _) (proj1 (proj2 Href))). apply TW_CanTransfer. }
  destruct (TW_run _ _ _ _ Hwf Hpay) as (s1 & E1 & W1 & Q1). unfold mbind, M_bind. rewrite E1. cbn [negb].
  destruct (sdb_Snapshot s1) as [[id s2]|] eqn:E2; [|done]. destruct (quiet_Snapshot s1 id s2 W1 E2) as [W2 Q2].
  destruct (sdb_Exist addr s2) as [[ex s3]|] eqn:E3; cycle 1.
  { exfalso. revert E3. unfold sdb_Exist, mbind, M_bind. rewrite getStateObject_run. by destruct (lookup_obj s2 addr). }
  destruct (quiet_Exist addr s2 ex s3 W2 E3) as [W3 Q3].
  assert (H4 : exists s4, (if negb ex then sdb_CreateAccount addr else mret tt) s3 = Some (tt, s4) /\ sdb_wf s4 /\ weq (world_of s4) (world_of s3)).
  { destruct (negb ex); [|by exists s3]. assert (E : sdb_CreateAccount addr s3 = Some (tt, filled addr fill_account s3)) by apply GetOrNewAccount_run.
    eexists. split; [exact E|]. by eapply quiet_CreateAccount. }
  destruct H4 as (s4 & -> & W4 & Q4). assert (Q : weq (world_of s4) (world_of s)) by by rewrite Q4, Q3, Q2, Q1.
  destruct (HandleCSBT_refused evm (cr_Address caller) addr wh value (world_of s4) Ht) as (w' & Ew & Htake).
  { destruct (weq_fields _ _ Q) as (_ & Hs & _). by rewrite <- Hs. }
  { by apply (pledge_refused_weq (world_of s)). }
  destruct (TW_run _ _ _ _ W4 (HandleCSBT_refines _ _ evm (cr_Address caller) addr wh value)) as (s5 & E5 & _ & Q5). rewrite Ew in E5, Q5. rewrite E5. exists s5. split; [done|].
  destruct (weq_fields _ _ Q) as (Hb & Hs & _ & Hpl & _), (weq_fields _ _ Q5) as (Hb' & Hs' & _ & Hpl' & _). unfold pledge_taken in *. simpl in *. by rewrite Hb, Hs, Hpl, <- Hb', <- Hs', <- Hpl'.
Qed.
End EvmCsbt.

(** ** Concrete calls *)

#[local] Instance exampleCrypto : Crypto := constCrypto 11 5.

(** The state after a program, from the empty state. *)
Definition state_after (p : prog) : StateDB :=
  match run_prog p (sdb_New ∅ ∅ None) with Some (_, s) => s | None => sdb_New ∅ ∅ None end.

Lemma state_after_ok p : is_Some (run_prog p (sdb_New ∅ ∅ None)) -> sdb_wf (state_after p) /\ revs_ok (state_after p).
Proof.
  intros [[[] s'] Hr]. unfold state_after. rewrite Hr. destruct (sdb_New_ok ∅ ∅ None) as [Hwf Hok].
  pose proof (J_prog [] p _ tt s' Hwf (live_nil _ Hok) Hr) as (Hwf' & _ & Hrev & _).
  split; [done|]. by eapply revs_extend_ok.
Qed.

(** The block 10 of a chain with all rules active. *)
Definition exampleEVM : EVM := mkEVM 10 0 0 0 false false true true true true true true true true true 0 1 0 0 0 1 (fun _ => 0) false false.

(** The JSON text of a payload as [json.Marshal] writes it, for the types 0 to 9: empty fields are left out. *)
Definition quoted (b : bytes) : bytes := [34] ++ b ++ [34].
Definition json_field (name value : bytes) : bytes := match value with [] => [] | _ => [44] ++ quoted name ++ [58] ++ quoted value end.
Definition json_text (wh : Wormholes) : bytes :=
  [123] ++ quoted [116; 121; 112; 101] ++ [58; 48 + wh_Type wh] ++
  json_field [99; 115; 98; 116; 95; 97; 100; 100; 114; 101; 115; 115] (wh_CSBTAddress wh) ++
  json_field [112; 114; 111; 120; 121; 95; 97; 100; 100; 114; 101; 115; 115] (wh_ProxyAddress wh) ++
  json_field [112; 114; 111; 120; 121; 95; 115; 105; 103; 110] (wh_ProxySign wh) ++
  json_field [99; 114; 101; 97; 116; 111; 114] (wh_Creator wh) ++
  json_field [118; 101; 114; 115; 105; 111; 110] (wh_Version wh) ++ [125].

(** A decoder that knows this text and refuses all others. *)
Definition json_decode (wh : Wormholes) (b : bytes) : option Wormholes := if bool_decide (b = json_text wh) then Some wh else None.

(** A machine with this decoder, whose contracts store the value they are called with in their slot 0. *)
Definition exampleMachine (wh : Wormholes) : Machine :=
  progMachine (json_decode wh) (fun _ _ => None)
    (fun evm c i ro => (PDo (MSetState (c_self c) 0 (default 0 (c_value c))), ([], c_Gas c, None)))
    (fun a n => a + n).

Definition exampleInput (wh : Wormholes) : bytes := TransactionType ++ json_text wh.

(** A validator 200 to which 201 pledged, and an account 100 with the means to pledge. *)
Definition exampleStakers : prog :=
  PSeq (PDo (MAddBalance 100 (40000 * 10 ^ 18)))
    (PSeq (PDo (MAddBalance 201 (40000 * 10 ^ 18)))
       (PSeq (PDo (MStakerPledge 201 200 (36000 * 10 ^ 18) 1 (mkWormholes 3 [] [] [] [] [])))
          (PDo (MResetMinerBecome 200)))).

(** The hexadecimal form of the address 200. *)
Definition hex200 : bytes := [48; 120] ++ replicate 38 48 ++ [99; 56].

Definition pledgeWithProxy : Wormholes := mkWormholes 3 [] hex200 [] [] [].

(** The outcome of a call, tested. *)
Definition checked (r : option (bytes * Z * goerror * StateDB)) (P : bytes -> goerror -> StateDB -> bool) : bool :=
  match r with Some (ret, _, err, s') => P ret err s' | None => false end.

Lemma failed_pledge_not_reverted_witness :
  exists s', Call (MA := exampleMachine pledgeWithProxy) exampleEVM (AccountRef 100) 100 (exampleInput pledgeWithProxy) 100000 (36000 * 10 ^ 18) (state_after exampleStakers)
    = Some (([], 100000, Some "cannot have the same proxy"), s') /\
    pledge_taken (world_of (state_after exampleStakers)) 100 100 (36000 * 10 ^ 18) (world_of s').
Proof.
  destruct (state_after_ok exampleStakers) as [Hwf _]; [vm_compute; by eexists|].
  apply (failed_pledge_not_reverted (MA := exampleMachine pledgeWithProxy) exampleEVM (AccountRef 100) 100 (exampleInput pledgeWithProxy) 100000 (36000 * 10 ^ 18) pledgeWithProxy); [exact Hwf| | | | | |].
  - apply (bool_decide_eq_true_1 _). vm_compute. reflexivity.
  - reflexivity.
  - vm_compute. discriminate.
  - vm_compute. reflexivity.
  - reflexivity.
  - split; [right; vm_compute; discriminate|]. split; [vm_compute; discriminate|]. split; [vm_compute; discriminate|]. split; [vm_compute; discriminate|vm_compute; reflexivity].
Defined.

(** The validator 200 above, now a contract as well. *)
Definition exampleContract : prog :=
  PSeq exampleStakers
    (PSeq (PDo (MSetCode 300 (Some [96; 0])))
       (PSeq (PDo (MAddBalance 200 (10 ^ 18))) PSkip)).

Definition recover : Wormholes := mkWormholes 5 [] [] [] [] [].

Lemma unpaid_value_run :
  checked (Call (MA := exampleMachine recover) exampleEVM (AccountRef 200) 300 (exampleInput recover) 100000 (10 ^ 18)
             (state_after exampleContract))
    (fun ret err s' => bool_decide (
       ret = [] /\ err = None /\ fst <$> sdb_GetState 300 0 s' = Some (10 ^ 18) /\
       wd_bal (world_of s') 300 = 0 /\
       wd_bal (world_of s') 200 = wd_bal (world_of (state_after exampleContract)) 200)) = true.
Proof. vm_compute. reflexivity. Qed.

(** A contract can be told of a value it never received: there is a state in which a
    call with a value and a transaction of type 5 succeeds, runs the code of the called
    contract with that value, and moves no currency.  The contract below records the
    value of the call in its slot 0. *)
Theorem call_value_not_transferred :
  exists (MA : Machine) (evm : EVM) (s s' : StateDB) (left value : Z),
    sdb_wf s /\ revs_ok s /\ 0 < value /\
    Call evm (AccountRef 200) 300 (exampleInput recover) 100000 value s = Some (([], left, None), s') /\
    fst <$> sdb_GetState 300 0 s' = Some value /\
    wd_bal (world_of s') 300 = 0 /\
    wd_bal (world_of s') 200 = wd_bal (world_of s) 200.
Proof.
  exists (exampleMachine recover), exampleEVM, (state_after exampleContract).
  destruct (state_after_ok exampleContract) as [Hwf Hok]; [vm_compute; by eexists|].
  pose proof unpaid_value_run as Hrun. unfold checked in Hrun.
  destruct (Call (MA := exampleMachine recover) exampleEVM (AccountRef 200) 300
      (exampleInput recover) 100000 (10 ^ 18) (state_after exampleContract)) as [[[[ret left] err] s']|] eqn:Hc; [|discriminate].
  apply bool_decide_eq_true in Hrun as (-> & -> & H0 & Hb & Hp).
  exists s', left, (10 ^ 18). split; [exact Hwf|]. split; [exact Hok|]. split; [lia|].
  split; [exact Hc|]. split; [exact H0|]. by split.
Qed.
