(* ===== verification/Transition.v ===== *)
(** Applying a transaction: [core/state_transition.go] and [core/gaspool.go].

    A transition takes and returns the gas pool of the block next to the state.  The
    wrapped errors of the source are identified by the message of the error they wrap.
    Gas is kept at 64 bits where the source does not rule out overflow. *)
From stdpp Require Import strings.
From S2P Require Import Prelude KeyedList Common Params ProtocolParams Wormholes Rewards Validators Stakers AccessList StateTypes State StateDB Staking Evm.

Open Scope Z_scope.

(** ** The gas pool *)

Definition MaxUint64 : Z := 2 ^ 64 - 1.

Definition gp_AddGas (amount gp : Z) : option Z :=
  if MaxUint64 - amount <? gp then None else Some (gp + amount).

Definition ErrGasLimitReached : string := "gas limit reached".

Definition gp_SubGas (amount gp : Z) : outcome Z :=
  if gp <? amount then Err ErrGasLimitReached else Ret (gp - amount).

(** ** Messages *)

Record Message : Type := mkMessage {
  m_From : Address;
  m_To : option Address;
  m_GasPrice : Z;
  m_GasFeeCap : option Z;
  m_GasTipCap : option Z;
  m_Gas : Z;
  m_Value : Z;
  m_Nonce : Z;
  m_IsFake : bool;
  m_Data : bytes;
  m_AccessList : option (list (Address * list Hash));   (* [None] is nil *)
}.

Record ExecutionResult : Type := mkExecutionResult {
  er_UsedGas : Z;
  er_Err : goerror;
  er_ReturnData : bytes;
}.

(** The consensus error of a transition, or its result. *)
Inductive tx_result : Type :=
| TxErr (e : string)
| TxOk (r : ExecutionResult).

Definition er_Failed (r : ExecutionResult) : bool := match er_Err r with Some _ => true | None => false end.
Definition er_Return (r : ExecutionResult) : bytes := if er_Failed r then [] else er_ReturnData r.
Definition er_Revert (r : ExecutionResult) : bytes :=
  if bool_decide (er_Err r = Some ErrExecutionReverted) then er_ReturnData r else [].

(** ** Intrinsic gas *)

Definition TxGas : Z := 21000.
Definition TxGasContractCreation : Z := 53000.
Definition TxDataZeroGas : Z := 4.
Definition TxDataNonZeroGasFrontier : Z := 68.
Definition TxDataNonZeroGasEIP2028 : Z := 16.
Definition TxAccessListAddressGas : Z := 2400.
Definition RefundQuotient : Z := 2.
Definition RefundQuotientEIP3529 : Z := 5.

Definition ErrGasUintOverflow : string := "gas uint64 overflow".
Definition ErrNonceTooHigh : string := "nonce too high".
Definition ErrNonceTooLow : string := "nonce too low".
Definition ErrInsufficientFundsForTransfer : string := "insufficient funds for transfer".
Definition ErrInsufficientFunds : string := "insufficient funds for gas * price + value".
Definition ErrIntrinsicGas : string := "intrinsic gas too low".
Definition ErrTipAboveFeeCap : string := "max priority fee per gas higher than max fee per gas".
Definition ErrTipVeryHigh : string := "max priority fee per gas higher than 2^256-1".
Definition ErrFeeCapVeryHigh : string := "max fee per gas higher than 2^256-1".
Definition ErrFeeCapTooLow : string := "max fee per gas less than block base fee".
Definition ErrSenderNoEOA : string := "sender not an eoa".

Definition StorageKeys (al : list (Address * list Hash)) : Z :=
  foldl (fun sum tuple => sum + Z.of_nat (length (snd tuple))) 0 al.

(** The gas of the data bytes, with the two overflow checks. *)
Definition data_gas (data : bytes) (gas nonZeroGas : Z) : outcome Z :=
  if Z.of_nat (length data) =? 0 then Ret gas
  else
    let nz := Z.of_nat (length (filter (fun b => b <> 0) data)) in
    if (MaxUint64 - gas) / nonZeroGas <? nz then Err ErrGasUintOverflow
    else
      let gas := gas + nz * nonZeroGas in
      let z := Z.of_nat (length data) - nz in
      if (MaxUint64 - gas) / TxDataZeroGas <? z then Err ErrGasUintOverflow
      else Ret (gas + z * TxDataZeroGas).

Section Transition.
  Context {CR : Crypto} {MA : Machine}.

Definition IntrinsicGas (data : bytes) (accessList : option (list (Address * list Hash)))
    (isContractCreation isHomestead isEIP2028 : bool) : outcome Z :=
  let gas := if isContractCreation && isHomestead then TxGasContractCreation else TxGas in
  nft ← (match payload data with
         | Ret nft => Ret nft
         | _ => Err "wormholes format error!"
         end);
  gas ← (match nft with Some w => wh_TxGas w | None => Ret gas end);
  gas ← data_gas data gas (if isEIP2028 then TxDataNonZeroGasEIP2028 else TxDataNonZeroGasFrontier);
  Ret (match accessList with
       | None => gas
       | Some al => u64 (u64 (gas + Z.of_nat (length al) * TxAccessListAddressGas)
                         + StorageKeys al * TxAccessListStorageKeyGas)
       end).

(** [GetWormholes] with its error as [None]: no payload, or a malformed one. *)
Definition GetWormholes (data : bytes) : option Wormholes :=
  match payload data with Ret nft => nft | _ => None end.

Definition is_cancel (data : bytes) : bool :=
  match GetWormholes data with Some w => wh_Type w =? 4 | None => false end.

(** ** Buying gas *)

(** The balance the sender must have. *)
Definition balance_check (msg : Message) : Z :=
  if is_cancel (m_Data msg) then m_Gas msg * m_GasPrice msg
  else match m_GasFeeCap msg with
       | Some cap => m_Gas msg * cap + m_Value msg
       | None => m_Gas msg * m_GasPrice msg
       end.

(** On success the new pool. *)
Definition buyGas (msg : Message) (gp : Z) : M (outcome Z) :=
  have ← sdb_GetBalance (m_From msg);
  if have <? balance_check msg then mret (Err ErrInsufficientFunds)
  else
    match gp_SubGas (m_Gas msg) gp with
    | Ret gp => _ ← sdb_SubBalance (m_From msg) (m_Gas msg * m_GasPrice msg); mret (Ret gp)
    | r => mret r
    end.

Definition bitlen (z : Z) : Z := if z =? 0 then 0 else Z.log2 (Z.abs z) + 1.

(** The fee checks of the London rules; a nil cap is dereferenced. *)
Definition check_fees (evm : EVM) (msg : Message) : M goerror :=
  if negb (evm_IsLondon evm) then mret None
  else
    feeCap ← deref (m_GasFeeCap msg);
    enter ← (if negb (evm_NoBaseFee evm) || (0 <? bitlen feeCap) then mret true
             else tipCap ← deref (m_GasTipCap msg); mret (0 <? bitlen tipCap));
    if negb enter then mret None
    else if 256 <? bitlen feeCap then mret (Some ErrFeeCapVeryHigh)
    else
      tipCap ← deref (m_GasTipCap msg);
      mret (if 256 <? bitlen tipCap then Some ErrTipVeryHigh
            else if feeCap <? tipCap then Some ErrTipAboveFeeCap
            else if feeCap <? evm_BaseFee evm then Some ErrFeeCapTooLow
            else None).

Definition check_sender (msg : Message) : M goerror :=
  if m_IsFake msg then mret None
  else
    stNonce ← sdb_GetNonce (m_From msg);
    if stNonce <? m_Nonce msg then mret (Some ErrNonceTooHigh)
    else if m_Nonce msg <? stNonce then mret (Some ErrNonceTooLow)
    else
      codeHash ← sdb_GetCodeHash (m_From msg);
      mret (if negb (codeHash =? emptyCodeHash) && negb (codeHash =? 0) then Some ErrSenderNoEOA else None).

Definition preCheck (evm : EVM) (msg : Message) (gp : Z) : M (outcome Z) :=
  err ← check_sender msg;
  match err with
  | Some e => mret (Err e)
  | None =>
      err ← check_fees evm msg;
      match err with
      | Some e => mret (Err e)
      | None => buyGas msg gp
      end
  end.

(** ** The transition *)

(** Running the message: creation of a contract, or a call with the next nonce. *)
Definition execute (evm : EVM) (msg : Message) (gas : Z) : M (bytes * Z * goerror) :=
  match m_To msg with
  | None =>
      '(ret, _, gas, vmerr) ← Create evm (AccountRef (m_From msg)) (m_Data msg) gas (m_Value msg);
      mret (ret, gas, vmerr)
  | Some to =>
      nonce ← sdb_GetNonce (m_From msg);
      _ ← sdb_SetNonce (m_From msg) (u64 (nonce + 1));
      Call evm (AccountRef (m_From msg)) to (m_Data msg) gas (m_Value msg)
  end.

(** The gas refunded on top of what was left. *)
Definition refund_amount (used quotient counter : Z) : Z :=
  if counter <? used / quotient then counter else used / quotient.

(** Returns the gas left and the pool. *)
Definition refundGas (msg : Message) (gas gp refundQuotient : Z) : M (Z * Z) :=
  counter ← sdb_GetRefund;
  let gas := u64 (gas + refund_amount (u64 (m_Gas msg - gas)) refundQuotient counter) in
  _ ← sdb_AddBalance (m_From msg) (gas * m_GasPrice msg);
  gp ← deref (gp_AddGas gas gp);
  mret (gas, gp).

(** The transition from the gas left after the intrinsic gas. *)
Definition run_message (evm : EVM) (msg : Message) (gas gp : Z) : M (tx_result * Z) :=
  ok ← (if negb (is_cancel (m_Data msg)) && (0 <? m_Value msg)
        then CanTransfer (m_From msg) (m_Value msg) else mret true);
  if negb ok then mret (TxErr ErrInsufficientFundsForTransfer, gp)
  else
    _ ← (if evm_IsBerlin evm
         then sdb_PrepareAccessList (m_From msg) (m_To msg) (ActivePrecompiles evm) (default [] (m_AccessList msg))
         else mret tt);
    '(ret, gas, vmerr) ← execute evm msg gas;
    '(gas, gp) ← refundGas msg gas gp (if evm_IsLondon evm then RefundQuotientEIP3529 else RefundQuotient);
    let used := u64 (m_Gas msg - gas) in
    _ ← sdb_AddBalance (evm_Coinbase evm) (used * m_GasPrice msg);
    mret (TxOk (mkExecutionResult used vmerr ret), gp).

Definition TransitionDb (evm : EVM) (msg : Message) (gp : Z) : M (tx_result * Z) :=
  r ← preCheck evm msg gp;
  match r with
  | Err e => mret (TxErr e, gp)
  | Panic => panic
  | Ret gp =>
      match IntrinsicGas (m_Data msg) (m_AccessList msg) (negb (bool_decide (is_Some (m_To msg))))
              (evm_IsHomestead evm) (evm_IsIstanbul evm) with
      | Err e => mret (TxErr e, gp)
      | Panic => panic
      | Ret gas =>
          if m_Gas msg <? gas then mret (TxErr ErrIntrinsicGas, gp)
          else run_message evm msg (m_Gas msg - gas) gp
      end
  end.
End Transition.
