(* ===== verification/TransitionProps.v ===== *)
(** Gas and fees of a transaction. *)
From stdpp Require Import strings.
From S2P Require Import Prelude KeyedList Common Params Wormholes Rewards Validators Selection Stakers AccessList StateTypes State StateDB StateRevert Staking StateView World Ledger Evm EvmLedger Journalled EvmRevert EvmCsbt Transition.

Open Scope Z_scope.

Section Gas.
  Context {CR : Crypto} {MA : Machine} {GM : GasMachine MA}.

Lemma execute_gas evm msg gas :
  rules_ordered evm -> 0 <= gas < 2 ^ 64 -> gas_within 0 gas (execute evm msg gas).
Proof.
  intros Ho Hg. unfold execute. destruct (m_To msg) as [to|].
  - do 2 (apply within_bind; intros ?). by apply Call_gas.
  - intros s ret left err s'. unfold mbind, M_bind.
    destruct (Create evm _ _ gas _ s) as [[[[[r ad] l] e] s1]|] eqn:Hc; [|done].
    intros [= <- <- <- <-]. by eapply Create_gas.
Qed.
End Gas.

(** ** Intrinsic gas *)

Lemma data_gas_ge data gas nzg g : 0 <= gas -> 0 < nzg -> data_gas data gas nzg = Ret g -> gas <= g.
Proof.
  intros Hg Hn. unfold data_gas. destruct (_ =? 0); [intros [= <-]; lia|].
  assert (Hle : Z.of_nat (length (filter (fun b => b <> 0) data)) <= Z.of_nat (length data)).
  { apply Nat2Z.inj_le, length_filter. }
  destruct (_ <? _); [done|]. destruct (_ <? _); [done|]. intros [= <-]. unfold TxDataZeroGas. nia.
Qed.

Lemma IntrinsicGas_nonneg {CR : Crypto} {MA : Machine} data al cc hs eip g :
  IntrinsicGas data al cc hs eip = Ret g -> 0 <= g.
Proof.
  unfold IntrinsicGas. destruct (payload data) as [nft| |]; simpl; try done.
  set (g0 := if cc && hs then TxGasContractCreation else TxGas).
  assert (H0 : 0 <= g0) by by (unfold g0; destruct (cc && hs)).
  assert (H1 : forall g1, match nft with Some w => wh_TxGas w | None => Ret g0 end = Ret g1 -> 0 <= g1).
  { intros g1. destruct nft as [w|]; [|by intros [= <-]]. unfold wh_TxGas.
    repeat case_match; intros; simplify_eq; done. }
  destruct (match nft with Some w => wh_TxGas w | None => Ret g0 end) as [g1| |]; simpl; try done.
  specialize (H1 g1 eq_refl). destruct (data_gas _ _ _) as [g2| |] eqn:Hd; simpl; try done.
  apply data_gas_ge in Hd; [|done|by destruct eip]. intros [= <-].
  destruct al; [by apply Z.mod_pos_bound|lia].
Qed.

(** ** Refunds *)

Lemma refund_bounds used q counter :
  0 <= used -> 2 <= q -> 0 <= counter -> 0 <= refund_amount used q counter <= used / 2.
Proof.
  intros Hu Hq Hc. assert (0 <= used / q <= used / 2).
  { split; [apply Z.div_pos; lia|]. apply Z.div_le_compat_l; lia. }
  unfold refund_amount. destruct (_ <? _) eqn:?; lia.
Qed.

Section GasTheorem.
  Context {CR : Crypto} {MA : Machine} {GM : GasMachine MA}.

Lemma refundGas_spec msg gas gp q s g gp' s' :
  0 <= gas <= m_Gas msg -> m_Gas msg < 2 ^ 64 -> 2 <= q ->
  refundGas msg gas gp q s = Some ((g, gp'), s') ->
  gas <= g <= m_Gas msg /\ gp' = gp + g /\
  m_Gas msg - gas - (m_Gas msg - gas) / 2 <= m_Gas msg - g.
Proof.
  intros Hg Hmax Hq. unfold refundGas, sdb_GetRefund, gets. unfold mbind at 1, M_bind at 1.
  assert (Hu : u64 (m_Gas msg - gas) = m_Gas msg - gas) by (apply Z.mod_small; lia). rewrite Hu.
  pose proof (refund_bounds (m_Gas msg - gas) q (u64 (sdb_refund s)) ltac:(lia) Hq
    ltac:(by apply Z.mod_pos_bound)) as Hr.
  set (r := refund_amount _ _ _) in *.
  assert ((m_Gas msg - gas) / 2 <= m_Gas msg - gas) by (apply Z.div_le_upper_bound; lia).
  assert (Hw : u64 (gas + r) = gas + r) by (apply Z.mod_small; lia). rewrite Hw. unfold mbind, M_bind.
  destruct (sdb_AddBalance _ _ s) as [[[] s1]|]; [|done]. unfold gp_AddGas.
  destruct (_ <? gp); simpl; [done|]. intros [= <- <- _]. lia.
Qed.

Lemma run_message_gas evm msg gas gp s r gp' s' :
  rules_ordered evm -> 0 <= gas <= m_Gas msg -> m_Gas msg < 2 ^ 64 ->
  run_message evm msg gas gp s = Some ((TxOk r, gp'), s') ->
  (m_Gas msg - gas) - (m_Gas msg - gas) / 2 <= er_UsedGas r <= m_Gas msg /\ gp' = gp + (m_Gas msg - er_UsedGas r).
Proof.
  intros Ho Hg Hmax. unfold run_message. run_bind ok s1 H1. destruct (negb ok); [discriminate|].
  run_bind u s2 H2. run_bind x s3 He. destruct x as [[ret left] err].
  apply (execute_gas evm msg gas Ho ltac:(lia)) in He.
  set (q := if evm_IsLondon evm then _ else _).
  assert (Hq : 2 <= q) by (unfold q, RefundQuotient, RefundQuotientEIP3529; destruct (evm_IsLondon evm); lia).
  clearbody q. run_bind x s4 Hrf. destruct x as [g gp1].
  apply refundGas_spec in Hrf as (Hb & -> & Hu); [|lia|lia|done].
  assert (Hw : u64 (m_Gas msg - g) = m_Gas msg - g) by (apply Z.mod_small; lia). rewrite Hw. unfold mbind, M_bind.
  destruct (sdb_AddBalance _ _ s4) as [[[] s5]|]; [|done]. intros [= <- <- _]. simpl.
  assert (Hmono : m_Gas msg - gas - (m_Gas msg - gas) / 2 <= m_Gas msg - left - (m_Gas msg - left) / 2).
  { pose proof (Z.div_mod (m_Gas msg - gas) 2). pose proof (Z.div_mod (m_Gas msg - left) 2).
    pose proof (Z.mod_pos_bound (m_Gas msg - gas) 2). pose proof (Z.mod_pos_bound (m_Gas msg - left) 2). lia. }
  lia.
Qed.

(** * Properties *)

(** C4. The gas accounting of a transaction adds up.  When [TransitionDb] returns a
    result, the gas used is at most the gas limit of the message and at least half of
    the intrinsic gas (refunds are capped), and the pool of the block has shrunk by
    exactly the gas used: the limit was taken from it and the rest was given back.  The
    interpreter is only assumed to return no more gas than it gets. *)
Theorem TransitionDb_gas (evm : EVM) (msg : Message) (gp gp' : Z) (s s' : StateDB) (r : ExecutionResult) :
  rules_ordered evm -> 0 <= m_Gas msg < 2 ^ 64 ->
  TransitionDb evm msg gp s = Some ((TxOk r, gp'), s') ->
  exists intrinsic,
    IntrinsicGas (m_Data msg) (m_AccessList msg) (negb (bool_decide (is_Some (m_To msg))))
      (evm_IsHomestead evm) (evm_IsIstanbul evm) = Ret intrinsic /\
    intrinsic - intrinsic / 2 <= er_UsedGas r <= m_Gas msg /\
    m_Gas msg <= gp /\ gp' = gp - er_UsedGas r.
Proof.
  intros Ho Hmax. unfold TransitionDb, mbind, M_bind.
  destruct (preCheck evm msg gp s) as [[r0 s1]|] eqn:Hpre; [|done].
  destruct r0 as [gp1|e|]; try done.
  assert (Hgp : m_Gas msg <= gp /\ gp1 = gp - m_Gas msg).
  { revert Hpre. unfold preCheck, mbind, M_bind. destruct (check_sender msg s) as [[[e|] s2]|]; try done.
    destruct (check_fees evm msg s2) as [[[e|] s3]|]; try done.
    unfold buyGas, gp_SubGas, mbind, M_bind. destruct (sdb_GetBalance _ s3) as [[b s4]|]; [|done].
    destruct (b <? _); [done|]. destruct (gp <? m_Gas msg) eqn:Hlt; [done|].
    destruct (sdb_SubBalance _ _ s4) as [[[] s5]|]; [|done]. intros [= <- _]. lia. }
  destruct Hgp as [Hgp ->].
  destruct (IntrinsicGas _ _ _ _ _) as [g|e|] eqn:Hi; try done. pose proof (IntrinsicGas_nonneg _ _ _ _ _ _ Hi).
  destruct (m_Gas msg <? g) eqn:Hlt; [done|]. intros Hrun. exists g. split; [done|].
  apply run_message_gas in Hrun as [H1 ->]; [|done|lia|lia].
  replace (m_Gas msg - (m_Gas msg - g)) with g in H1 by lia. lia.
Qed.
End GasTheorem.

(** ** Fees *)

Section Fees.
  Context {CR : Crypto} {MA : Machine} {GM : GasMachine MA} {JM : JournalledMachine MA}.

(** The access list is no part of the world. *)
Lemma view_same s t a :
  sdb_stateObjects t = sdb_stateObjects s -> sdb_snap t = sdb_snap s -> sdb_trie t = sdb_trie s -> view t a = view s a.
Proof. intros Ho Hs Ht. unfold view, lookup_obj, backing_account. by rewrite Ho, Hs, Ht. Qed.

Lemma J_PrepareAccessList L a dst pre al : J L (sdb_PrepareAccessList a dst pre al).
Proof.
  unfold sdb_PrepareAccessList. journalled.
Qed.

(** [m] changes the access list and the journal only. *)
Definition al_only {A : Type} (m : M A) : Prop :=
  forall s x s', m s = Some (x, s') ->
    sdb_stateObjects s' = sdb_stateObjects s /\ sdb_snap s' = sdb_snap s /\ sdb_trie s' = sdb_trie s.

Lemma al_only_bind {A B : Type} (m : M A) (f : A -> M B) : al_only m -> (forall x, al_only (f x)) -> al_only (m ≫= f).
Proof.
  intros Hm Hf s y s'. unfold mbind, M_bind. destruct (m s) as [[x s1]|] eqn:Hr; [|done]. intros Hr2.
  destruct (Hm s x s1 Hr) as (?&?&?), (Hf x s1 y s' Hr2) as (?&?&?). split_and!; congruence.
Qed.

Lemma al_only_mapM {A : Type} (f : A -> M unit) l : (forall x, al_only (f x)) -> al_only (mapM_ f l).
Proof.
  intros Hf. induction l; simpl; [by intros s x s' [= _ <-]|]. by apply al_only_bind.
Qed.

Lemma al_only_AddAddress a : al_only (sdb_AddAddressToAccessList a).
Proof.
  intros s x s'. unfold sdb_AddAddressToAccessList, journal_append. run_obj.
  destruct (al_AddAddress a (sdb_accessList s)) as [[] al]; by intros [= _ <-].
Qed.

Lemma al_only_AddSlot a k : al_only (sdb_AddSlotToAccessList a k).
Proof.
  intros s x s'. unfold sdb_AddSlotToAccessList, journal_append. run_obj.
  destruct (al_AddSlot a k (sdb_accessList s)) as [[[b1 b2] al]|]; [|done]. simpl.
  destruct b1, b2; by intros [= _ <-].
Qed.

Lemma quiet_PrepareAccessList a dst pre al s x s' :
  sdb_wf s -> revs_ok s -> sdb_PrepareAccessList a dst pre al s = Some (x, s') ->
  sdb_wf s' /\ revs_ok s' /\ weq (world_of s') (world_of s).
Proof.
  intros Hwf Hok Hr. pose proof (J_PrepareAccessList [] a dst pre al s x s' Hwf (live_nil s Hok) Hr) as (Hwf' & _ & Hrev & _).
  split; [done|]. split; [by eapply revs_extend_ok|].
  assert (Hal : al_only (sdb_PrepareAccessList a dst pre al)).
  { unfold sdb_PrepareAccessList. apply al_only_bind; [apply al_only_AddAddress|]. intros _.
    apply al_only_bind; [destruct dst; [apply al_only_AddAddress|by intros ? ? ? [= _ <-]]|]. intros _.
    apply al_only_bind; [apply al_only_mapM, al_only_AddAddress|]. intros _. apply al_only_mapM. intros [b ks].
    apply al_only_bind; [apply al_only_AddAddress|]. intros _. apply al_only_mapM, al_only_AddSlot. }
  destruct (Hal s x s' Hr) as (?&?&?). intros b. rewrite <- !view_acct. by apply view_same.
Qed.

Lemma quiet_check_sender msg : quiet (check_sender msg).
Proof.
  unfold check_sender. destruct (m_IsFake msg); [apply quiet_ret|]. apply quiet_bind; [apply quiet_GetNonce|].
  intros n. destruct (_ <? _); [apply quiet_ret|]. destruct (_ <? _); [apply quiet_ret|].
  apply quiet_bind; [apply quiet_GetCodeHash|intros; apply quiet_ret].
Qed.

Lemma quiet_check_fees evm msg : quiet (check_fees evm msg).
Proof.
  unfold check_fees. destruct (negb _); [apply quiet_ret|]. apply quiet_bind; [apply quiet_deref|]. intros cap.
  apply quiet_bind; [destruct (_ || _); [apply quiet_ret|]|].
  { apply quiet_bind; [apply quiet_deref|intros; apply quiet_ret]. }
  intros b. destruct (negb b); [apply quiet_ret|]. destruct (_ <? _); [apply quiet_ret|].
  apply quiet_bind; [apply quiet_deref|intros; apply quiet_ret].
Qed.

Lemma J_preCheck L evm msg gp : J L (preCheck evm msg gp).
Proof.
  unfold preCheck, check_sender, check_fees, buyGas, sdb_GetNonce, sdb_GetCodeHash, sdb_GetBalance, sdb_SubBalance.
  journalled.
Qed.

Lemma preCheck_world evm msg gp s gp1 s1 :
  sdb_wf s -> revs_ok s -> preCheck evm msg gp s = Some (Ret gp1, s1) ->
  sdb_wf s1 /\ revs_ok s1 /\
  weq (world_of s1) (add_bal (m_From msg) (- (m_Gas msg * m_GasPrice msg)) (world_of s)).
Proof.
  intros Hwf Hok Hr.
  pose proof (J_preCheck [] evm msg gp s _ s1 Hwf (live_nil s Hok) Hr) as (Hwf1 & _ & Hrev & _).
  split; [done|]. split; [by eapply revs_extend_ok|]. revert Hr. unfold preCheck.
  run_bind e s2 H2. destruct (quiet_check_sender msg s e s2 Hwf H2) as [W2 Q2]. destruct e; [discriminate|].
  run_bind e s3 H3. destruct (quiet_check_fees evm msg s2 e s3 W2 H3) as [W3 Q3]. destruct e; [discriminate|].
  assert (Q : weq (world_of s3) (world_of s)) by by rewrite Q3. unfold buyGas.
  destruct (TW_run _ _ _ _ W3 (TW_GetBalance (world_of s3) _ (m_From msg))) as (s4 & E4 & W4 & Q4).
  unfold mbind at 1, M_bind at 1. rewrite E4. destruct (_ <? _); [discriminate|].
  destruct (gp_SubGas _ _) as [gp2| |]; try discriminate.
  destruct (TW_run _ _ _ _ W4 (TW_sdb_SubBalance (world_of s4) _ (m_From msg) (m_Gas msg * m_GasPrice msg)))
    as (s5 & E5 & W5 & Q5).
  unfold mbind, M_bind. rewrite E5. intros [= _ <-]. rewrite Q5. by apply add_bal_Proper; rewrite Q4.
Qed.

Lemma J_execute L evm msg gas : J L (execute evm msg gas).
Proof.
  unfold execute, Create, sdb_GetNonce, sdb_SetNonce. destruct (m_To msg); journalled;
    first [apply J_Call|apply J_create|idtac].
Qed.

(** Paying an account. *)
Lemma AddBalance_world a n s x s' :
  sdb_wf s -> sdb_AddBalance a n s = Some (x, s') -> sdb_wf s' /\ weq (world_of s') (add_bal a n (world_of s)).
Proof.
  intros Hwf Hr. destruct (TW_run _ _ _ _ Hwf (TW_sdb_AddBalance (world_of s) _ a n)) as (s1 & E1 & W1 & Q1).
  rewrite Hr in E1. by injection E1 as _ ->.
Qed.

(** Paying back and paying the coinbase. *)
Lemma settle_world msg coinbase left gp q s4 g gp1 s5 x s6 :
  sdb_wf s4 -> 0 <= left <= m_Gas msg -> m_Gas msg < 2 ^ 64 -> 2 <= q ->
  refundGas msg left gp q s4 = Some ((g, gp1), s5) ->
  sdb_AddBalance coinbase (u64 (m_Gas msg - g) * m_GasPrice msg) s5 = Some (x, s6) ->
  u64 (m_Gas msg - g) = m_Gas msg - g /\
  weq (world_of s6) (add_bal coinbase ((m_Gas msg - g) * m_GasPrice msg) (add_bal (m_From msg) (g * m_GasPrice msg) (world_of s4))).
Proof.
  intros W4 Hleft Hmax Hq Hr Hc.
  destruct (refundGas_spec msg left gp q s4 g gp1 s5 Hleft Hmax Hq Hr) as (Hb & _ & _).
  assert (Hs5 : sdb_wf s5 /\ weq (world_of s5) (add_bal (m_From msg) (g * m_GasPrice msg) (world_of s4))).
  { revert Hr. unfold refundGas. run_bind c t1 H1. injection H1 as <- <-. run_bind y t2 H2. run_bind z t3 H3.
    assert (t3 = t2) as -> by (revert H3; unfold deref; destruct (gp_AddGas _ _); [by intros [= _ <-]|discriminate]).
    intros Heq. assert (s5 = t2 /\ g = u64 (left + refund_amount (u64 (m_Gas msg - left)) q (u64 (sdb_refund s4))))
      as [-> ->] by (unfold mret, M_ret in Heq; simpl in Heq; split; congruence).
    by eapply AddBalance_world. }
  destruct Hs5 as [W5 Q5]. destruct (AddBalance_world _ _ _ _ _ W5 Hc) as [_ Q6].
  assert (Hw : u64 (m_Gas msg - g) = m_Gas msg - g) by (apply Z.mod_small; lia). rewrite Hw in Q6. split; [done|].
  rewrite Q6. by apply add_bal_Proper.
Qed.

(** C22. Fees are moved, not created.  A transaction that returns a result runs its
    message between two states [sa] and [sb].  Before, the price of the whole gas limit
    was taken from the sender's balance and nothing else changed; afterwards the sender
    got the price of the gas it did not use, which is what the execution left and the
    capped refund, and the coinbase got the price of the gas used, and nothing else
    changed.  So over any set of accounts containing both, the transaction changes the
    currency by what the execution itself changes, whatever it does. *)
Theorem TransitionDb_fees (evm : EVM) (msg : Message) (gp gp' : Z) (s s' : StateDB) (r : ExecutionResult) :
  sdb_wf s -> revs_ok s -> rules_ordered evm -> 0 <= m_Gas msg < 2 ^ 64 ->
  TransitionDb evm msg gp s = Some ((TxOk r, gp'), s') ->
  exists gas left sa sb,
    let unused := m_Gas msg - er_UsedGas r in
    execute evm msg gas sa = Some ((er_ReturnData r, left, er_Err r), sb) /\
    left <= unused <= left + (m_Gas msg - left) / 2 /\
    weq (world_of sa) (add_bal (m_From msg) (- (m_Gas msg * m_GasPrice msg)) (world_of s)) /\
    weq (world_of s')
      (add_bal (evm_Coinbase evm) (er_UsedGas r * m_GasPrice msg)
         (add_bal (m_From msg) (unused * m_GasPrice msg) (world_of sb))) /\
    (forall l, NoDup l -> m_From msg ∈ l -> evm_Coinbase evm ∈ l ->
       supply l (world_of s') - supply l (world_of s) = supply l (world_of sb) - supply l (world_of sa)).
Proof.
  intros Hwf Hok Hord Hmax. unfold TransitionDb. run_bind r0 s1 Hpre. destruct r0 as [gp1|e|]; try discriminate.
  destruct (preCheck_world evm msg gp s gp1 s1 Hwf Hok Hpre) as (W1 & K1 & Q1).
  destruct (IntrinsicGas _ _ _ _ _) as [g|e|] eqn:Hi; try discriminate. pose proof (IntrinsicGas_nonneg _ _ _ _ _ _ Hi).
  destruct (m_Gas msg <? g) eqn:Hlt; [discriminate|]. set (gas := m_Gas msg - g). unfold run_message.
  run_bind ok s2 H2.
  assert (Hs2 : sdb_wf s2 /\ revs_ok s2 /\ weq (world_of s2) (world_of s1)).
  { destruct (_ && _); [|by injection H2 as _ <-].
    pose proof (J_CanTransfer [] (m_From msg) (m_Value msg) s1 ok s2 W1 (live_nil s1 K1) H2) as (_ & _ & Hrev & _).
    destruct (quiet_CanTransfer _ _ s1 ok s2 W1 H2). split; [done|]. split; [by eapply revs_extend_ok|done]. }
  destruct Hs2 as (W2 & K2 & Q2). destruct (negb ok); [discriminate|]. run_bind u s3 H3.
  assert (Hs3 : sdb_wf s3 /\ revs_ok s3 /\ weq (world_of s3) (world_of s2)).
  { destruct (evm_IsBerlin evm); [by eapply quiet_PrepareAccessList|by injection H3 as _ <-]. }
  destruct Hs3 as (W3 & K3 & Q3). run_bind x s4 H4. pose proof (J_execute [] evm msg gas s3 x s4 W3 (live_nil s3 K3) H4) as (W4 & _).
  destruct x as [[ret left] err]. pose proof (execute_gas evm msg gas Hord ltac:(lia) s3 ret left err s4 H4) as Hleft.
  run_bind y s5 H5. destruct y as [g1 gp2]. run_bind z s6 H6. intros [= <- _ <-].
  assert (Hq : 2 <= if evm_IsLondon evm then RefundQuotientEIP3529 else RefundQuotient) by (by destruct (evm_IsLondon evm)).
  assert (Hl : 0 <= left <= m_Gas msg) by lia. assert (Hm : m_Gas msg < 2 ^ 64) by lia.
  destruct (refundGas_spec _ _ _ _ _ _ _ _ Hl Hm Hq H5) as (Hb & _ & Hu).
  destruct (settle_world _ _ _ _ _ _ _ _ _ _ _ W4 Hl Hm Hq H5 H6) as [Hw Q6].
  assert (Qa : weq (world_of s3) (add_bal (m_From msg) (- (m_Gas msg * m_GasPrice msg)) (world_of s))) by by rewrite Q3, Q2, Q1.
  exists gas, left, s3, s4. cbn [er_ReturnData er_Err er_UsedGas]. rewrite Hw. replace (m_Gas msg - (m_Gas msg - g1)) with g1 by lia.
  split; [exact H4|]. split; [lia|]. split; [exact Qa|]. split; [exact Q6|].
  intros l Hnd Hf Hcb. rewrite Q6, Qa, !supply_add_bal by done. lia.
Qed.
End Fees.
