(* ===== verification/Examples.v ===== *)
(** Concrete states on which the theorems about states apply. *)
From stdpp Require Import strings.
From S2P Require Import Prelude KeyedList Common Params Wormholes Rewards Validators Selection Stakers AccessList StateTypes State StateDB StateRevert Staking StateView World Ledger BlockRewards Evm EvmLedger Journalled EvmRevert EvmCsbt Transition TransitionProps.

Open Scope Z_scope.

#[local] Existing Instance exampleCrypto.
Definition cancel : Wormholes := mkWormholes 4 [] [] [] [] [].
#[local] Instance demoMachine : Machine := exampleMachine cancel.
#[local] Instance demoMachine_journalled : JournalledMachine demoMachine := progMachine_journalled _ _ _ _.

(** ** The ledger of a history *)

Lemma view_New codes a : view (sdb_New codes ∅ None) a = view_of a zeroAccount.
Proof. unfold view, lookup_obj, backing_account. simpl. by rewrite !lookup_empty. Qed.

Lemma New_ledger codes : ledger (world_of (sdb_New codes ∅ None)) /\ solvent (world_of (sdb_New codes ∅ None)).
Proof.
  split; [split|intros a; simpl; by rewrite view_New].
  - split; intros; simpl; rewrite ?view_New; simpl; try done; split; constructor.
  - split; simpl; rewrite view_New; simpl; [split; constructor|]. intros a b. done.
Qed.

(** The world the example state shows. *)
Definition exampleWorld : world :=
  (wResetMinerBecome 200 (wStakerPledge 201 200 (36000 * 10 ^ 18) 1 0
     (add_bal 201 (40000 * 10 ^ 18) (add_bal 100 (40000 * 10 ^ 18) (world_of (sdb_New ∅ ∅ None)))))).2.

Lemma example_world : sdb_wf (state_after exampleStakers) /\ weq (world_of (state_after exampleStakers)) exampleWorld.
Proof.
  destruct (sdb_New_ok ∅ ∅ None) as [Hwf _].
  destruct (TW_run (run_prog exampleStakers) tt exampleWorld (sdb_New ∅ ∅ None) Hwf) as (s' & Hr & Hwf' & Hw).
  - unfold exampleStakers, exampleWorld. cbn [run_prog run_mutation].
    eapply TW_bind; [apply TW_sdb_AddBalance|]. eapply TW_bind; [apply TW_sdb_AddBalance|].
    eapply TW_bind; [eapply TW_bind; [apply StakerPledge_refines|apply TW_ret]|].
    eapply TW_bind; [apply ResetMinerBecome_refines|apply TW_ret].
  - unfold state_after. rewrite Hr. split; [exact Hwf'|exact Hw].
Qed.

Lemma example_ledger :
  ledger (world_of (state_after exampleStakers)) /\ solvent (world_of (state_after exampleStakers)).
Proof.
  destruct example_world as [_ Hw]. destruct (New_ledger ∅) as [Hl Hs].
  set (w0 := add_bal 201 (40000 * 10 ^ 18) (add_bal 100 (40000 * 10 ^ 18) (world_of (sdb_New ∅ ∅ None)))).
  assert (Hl0 : ledger w0) by by eapply ledger_eq.
  assert (Hs0 : solvent w0) by (repeat apply solvent_add; [done|lia|lia]).
  destruct (StakerPledge_ledger w0 201 200 (36000 * 10 ^ 18) 1 0 Hl0) as [H1 H2].
  { lia. }
  { assert (0 <= pledge_balance 200 (wd_sext w0 201)) by (apply pledge_balance_nonneg, Hl0). lia. }
  split.
  - rewrite Hw. by apply ResetMinerBecome_ledger.
  - apply weq_fields in Hw as [Hb _]. eapply (solvent_eq exampleWorld); [|intros a; by rewrite Hb].
    eapply solvent_eq; [|intros a; apply Reset_bal]. apply StakerPledge_solvent; [done|].
    unfold w0. simpl. rewrite fset_eq, fset_ne, view_New by lia. simpl. lia.
Qed.

(** ** Instances of the theorems *)

(** The staker 201 takes its whole pledge back after the lock time. *)
Definition lateEVM : EVM := mkEVM 600000 0 0 0 false false true true true true true true true true true 0 1 0 0 0 1 (fun _ => 0) false false.

Lemma HandleCSBT_ledger_witness :
  exists err s',
    HandleCSBT lateEVM 201 200 (mkWormholes 4 [] [] [] [] []) (36000 * 10 ^ 18) (state_after exampleStakers)
      = Some (err, s') /\ ledger (world_of s') /\ solvent (world_of s').
Proof.
  destruct example_world as [Hwf _]. destruct example_ledger as [Hl Hs].
  destruct (HandleCSBT_ledger (state_after exampleStakers) lateEVM 201 200 (mkWormholes 4 [] [] [] [] [])
              (36000 * 10 ^ 18) Hwf Hl Hs) as (err & s' & Hr & _ & Hl' & Hs' & _); [lia|intros HH; discriminate HH|].
  exists err, s'. split; [exact Hr|]. split; [exact Hl'|exact Hs'].
Defined.

Lemma DistributeRewardsToStakers_correct_witness :
  exists s', sdb_DistributeRewardsToStakers [200] 1000 (state_after exampleStakers) = Some (tt, s') /\
    same_but_bal (world_of (state_after exampleStakers)) (world_of s').
Proof.
  destruct example_world as [Hwf _]. destruct example_ledger as [[Hp _] _].
  destruct (DistributeRewardsToStakers_correct (state_after exampleStakers) [200] 1000 Hwf Hp)
    as (s' & Hr & _ & Hsame & _).
  exists s'. split; [exact Hr|exact Hsame].
Defined.

Lemma example_mint :
  md_OfficialMint (wd_mint (world_of (state_after exampleStakers)) MintDeepStorageAddress) = Some (2 ^ 159).
Proof. vm_compute. reflexivity. Qed.

Lemma CreateNFTByOfficial16_correct_witness :
  exists s', sdb_CreateNFTByOfficial16 [200] [100; 201] 1000 [] (state_after exampleStakers) = Some (tt, s') /\
    wd_csbt (world_of s') (2 ^ 159 + 1) = mkAccountCSBT 201 201.
Proof.
  destruct example_world as [Hwf _].
  destruct (CreateNFTByOfficial16_correct (state_after exampleStakers) [200] [100; 201] 1000 (2 ^ 159) []
              Hwf example_mint) as (s' & Hr & _ & Hc & _); [lia|simpl; lia|].
  exists s'. split; [exact Hr|]. exact (Hc 1%nat 201 eq_refl).
Defined.

(** A machine whose contracts write a slot and then run out of gas. *)
Definition failingMachine : Machine :=
  progMachine (fun _ => None) (fun _ _ => None)
    (fun evm c i ro => (PDo (MSetState (c_self c) 0 7), ([], 0, Some "out of gas"))) (fun a n => a + n).

Lemma failing_run :
  checked (do_call (MA := failingMachine) (KCall 5) exampleEVM (AccountRef 200) 300 [1; 2] 100000
             (state_after exampleContract))
    (fun ret err s' => bool_decide (ret = [] /\ err = Some "out of gas")) = true.
Proof. vm_compute. reflexivity. Qed.

Lemma failed_call_restores_witness :
  exists left s',
    do_call (MA := failingMachine) (KCall 5) exampleEVM (AccountRef 200) 300 [1; 2] 100000
      (state_after exampleContract) = Some (([], left, Some "out of gas"), s') /\
    sdb_le (state_after exampleContract) s'.
Proof.
  destruct (state_after_ok exampleContract) as [Hwf Hok]; [vm_compute; by eexists|].
  pose proof failing_run as Hrun. unfold checked in Hrun.
  destruct (do_call (MA := failingMachine) (KCall 5) exampleEVM (AccountRef 200) 300 [1; 2] 100000
             (state_after exampleContract)) as [[[[ret left] err] s']|] eqn:Hc; [|discriminate].
  apply bool_decide_eq_true in Hrun as [-> ->]. exists left, s'. split; [reflexivity|].
  eapply (failed_call_restores (MA := failingMachine) (KCall 5)); [exact Hwf|exact Hok| |exact Hc].
  intros v _. reflexivity.
Defined.

Lemma calls_undone_witness :
  exists id s1 s2 s3,
    sdb_Snapshot (state_after exampleStakers) = Some (id, s1) /\
    ignore (do_call (MA := exampleMachine pledgeWithProxy) (KCall (36000 * 10 ^ 18)) exampleEVM (AccountRef 100) 100
              (exampleInput pledgeWithProxy) 100000) s1 = Some (tt, s2) /\
    sdb_RevertToSnapshot id s2 = Some (tt, s3) /\ sdb_le (state_after exampleStakers) s3.
Proof.
  destruct (state_after_ok exampleStakers) as [Hwf Hok]; [vm_compute; by eexists|].
  set (m := ignore (do_call (MA := exampleMachine pledgeWithProxy) (KCall (36000 * 10 ^ 18)) exampleEVM
              (AccountRef 100) 100 (exampleInput pledgeWithProxy) 100000)).
  assert (Hsome : match sdb_Snapshot (state_after exampleStakers) with
                  | Some (_, s1) => match m s1 with Some _ => true | None => false end
                  | None => false end = true) by (vm_compute; reflexivity).
  destruct (sdb_Snapshot (state_after exampleStakers)) as [[id s1]|] eqn:Hs; [|discriminate].
  destruct (m s1) as [[[] s2]|] eqn:Hm; [|discriminate].
  destruct (calls_undone (MA := exampleMachine pledgeWithProxy) m (state_after exampleStakers) s1 s2 id)
    as (s3 & Hr & _ & Hle & _); [|exact Hwf|exact Hok|exact Hs|exact Hm|].
  { left. by repeat eexists. }
  exists id, s1, s2, s3. split; [reflexivity|]. split; [exact Hm|]. split; [exact Hr|exact Hle].
Defined.

Lemma csbt_failure_run :
  checked (Call exampleEVM (AccountRef 100) 200 (exampleInput cancel) 100000 5 (state_after exampleStakers))
    (fun ret err s' => bool_decide (ret = [] /\ err = Some ErrInsufficientBalance)) = true.
Proof. vm_compute. reflexivity. Qed.

(** An account that pledged nothing cannot cancel. *)
Lemma csbt_call_failure_witness :
  exists left s',
    Call exampleEVM (AccountRef 100) 200 (exampleInput cancel) 100000 5 (state_after exampleStakers)
      = Some (([], left, Some ErrInsufficientBalance), s') /\
    weq (world_of s') (world_of (state_after exampleStakers)).
Proof.
  destruct (state_after_ok exampleStakers) as [Hwf Hok]; [vm_compute; by eexists|].
  pose proof csbt_failure_run as Hrun. unfold checked in Hrun.
  destruct (Call exampleEVM (AccountRef 100) 200 (exampleInput cancel) 100000 5 (state_after exampleStakers))
    as [[[[ret left] err] s']|] eqn:Hc; [|discriminate].
  apply bool_decide_eq_true in Hrun as [-> ->]. exists left, s'. split; [reflexivity|].
  assert (Hp : payload (exampleInput cancel) = Ret (Some cancel)) by (vm_compute; reflexivity).
  destruct (csbt_call_failure (MA := demoMachine) exampleEVM (AccountRef 100) 200 (exampleInput cancel) 100000 5 cancel
              (state_after exampleStakers) s' [] left ErrInsufficientBalance Hwf Hok Hp Hc)
    as [Hw|[Ht _]]; [exact Hw|discriminate Ht].
Defined.

(** The contracts of the example machine use no gas. *)
#[local] Instance demoMachine_gas : GasMachine demoMachine.
Proof.
  intros evm c i ro s ret left err s' _ Hc.
  unfold demoMachine, exampleMachine, progMachine, Run. run_bind x s1 H1. intros [= _ <- _ _]. simpl. lia.
Qed.

(** A payment of 5 from the account 100 to 201. *)
Definition demoMessage : Message :=
  mkMessage 100 (Some 201) 2 (Some 2) (Some 1) 30000 5 0 false [] None.

Lemma demo_transition :
  match TransitionDb exampleEVM demoMessage 50000 (state_after exampleStakers) with
  | Some ((TxOk r, gp'), _) => (er_UsedGas r =? 21000) && (gp' =? 29000)
  | _ => false
  end = true.
Proof. vm_compute. reflexivity. Qed.

Lemma TransitionDb_gas_witness :
  exists r gp' s', TransitionDb exampleEVM demoMessage 50000 (state_after exampleStakers) = Some ((TxOk r, gp'), s') /\
    gp' = 50000 - er_UsedGas r.
Proof.
  pose proof demo_transition as Hrun.
  destruct (TransitionDb exampleEVM demoMessage 50000 (state_after exampleStakers)) as [[[[e|r] gp'] s']|] eqn:Ht;
    [discriminate| |discriminate].
  exists r, gp', s'. split; [reflexivity|].
  destruct (TransitionDb_gas exampleEVM demoMessage 50000 gp' (state_after exampleStakers) s' r) as (g & _ & _ & _ & Hgp);
    [exact (fun _ => eq_refl)|simpl; lia|exact Ht|exact Hgp].
Defined.

Lemma TransitionDb_fees_witness :
  exists r gas left sa sb s', execute exampleEVM demoMessage gas sa = Some ((er_ReturnData r, left, er_Err r), sb) /\
    weq (world_of sa) (add_bal 100 (- 60000) (world_of (state_after exampleStakers))) /\
    weq (world_of s') (add_bal 0 (er_UsedGas r * 2) (add_bal 100 ((30000 - er_UsedGas r) * 2) (world_of sb))).
Proof.
  destruct (state_after_ok exampleStakers) as [Hwf Hok]; [vm_compute; by eexists|].
  assert (Ho : rules_ordered exampleEVM) by exact (fun _ => eq_refl).
  assert (Hg : 0 <= m_Gas demoMessage < 2 ^ 64) by (simpl; lia).
  pose proof demo_transition as Hrun.
  destruct (TransitionDb exampleEVM demoMessage 50000 (state_after exampleStakers)) as [[[[e|r] gp'] s']|] eqn:Ht;
    [discriminate| |discriminate].
  destruct (TransitionDb_fees exampleEVM demoMessage 50000 gp' (state_after exampleStakers) s' r Hwf Hok Ho Hg Ht)
    as (gas & left & sa & sb & He & _ & Ha & Hs & _).
  exists r, gas, left, sa, sb, s'. split; [exact He|]. split; [exact Ha|exact Hs].
Defined.
