(* ===== verification/InterpreterExamples.v ===== *)
(** Contracts on which the theorems about the interpreter apply, and a static call that
    changes the state. *)
From stdpp Require Import strings.
From S2P Require Import Prelude KeyedList Common Params ProtocolParams Wormholes Validators Selection Stakers AccessList StateTypes State StateDB StateRevert Staking StateView World Evm Machine Analysis Instructions GasTable JumpTable Interpreter EvmLedger Journalled EvmRevert InterpreterRevert Frames InterpreterGas InterpreterStatic EvmCsbt.

Open Scope Z_scope.

(** ** Words *)

Definition to_signed (x : Z) : Z := if 2 ^ 255 <=? x then x - word_max else x.
Definition to_word (x : Z) : Z := x mod word_max.

(** Arithmetic of 256-bit words. *)
Definition exampleWords : Uint256 :=
  {| u_Add := fun x y => to_word (x + y); u_Sub := fun x y => to_word (x - y); u_Mul := fun x y => to_word (x * y);
     u_Div := fun x y => if y =? 0 then 0 else x / y;
     u_SDiv := fun x y => if y =? 0 then 0 else to_word (Z.quot (to_signed x) (to_signed y));
     u_Mod := fun x y => if y =? 0 then 0 else x mod y;
     u_SMod := fun x y => if y =? 0 then 0 else to_word (Z.rem (to_signed x) (to_signed y));
     u_Exp := fun x y => Z.pow x y mod word_max;
     u_ExtendSign := fun x b => if 31 <? b then x else
       let m := 2 ^ (8 * b + 7) in if Z.testbit x (8 * b + 7) then to_word (x mod m - m) else x mod m;
     u_Not := fun x => word_max - 1 - x; u_And := Z.land; u_Or := Z.lor; u_Xor := Z.lxor;
     u_Byte := fun x n => if 31 <? n then 0 else x / 256 ^ (31 - n) mod 256;
     u_AddMod := fun x y z => (x + y) mod z; u_MulMod := fun x y z => if z =? 0 then 0 else x * y mod z;
     u_Lsh := fun x n => to_word (Z.shiftl x n); u_Rsh := Z.shiftr;
     u_SRsh := fun x n => to_word (Z.shiftr (to_signed x) n);
     u_Slt := fun x y => to_signed x <? to_signed y; u_Sgt := fun x y => to_signed y <? to_signed x |}.

#[local] Existing Instance exampleCrypto.
#[local] Existing Instance exampleWords.

(** ** Contracts *)

(** PUSH1 2, PUSH1 3, ADD, PUSH1 0, SSTORE, STOP: stores 5 in slot 0. *)
Definition adder : bytes := [0x60; 2; 0x60; 3; 0x01; 0x60; 0; 0x55; 0x00].

Definition adderContract : Contract :=
  mkContract 100 (AccountRef 100) 300 adder 0 (Some 300) 30000 (Some 0).

Definition noPayload : Machine := progMachine (fun _ => None) (fun _ _ => None) (fun _ _ _ _ => (PSkip, ([], 0, None))) (fun a n => a + n).

(** Two balances, and the contract's own address in the access list. *)
Definition adderState : prog :=
  PSeq (PDo (MAddBalance 100 1000)) (PSeq (PDo (MAddAddressToAccessList 300)) (PDo (MSetCode 300 (Some adder)))).

Lemma adder_run :
  checked (Run (Machine := EVMInterpreter noPayload) exampleEVM adderContract [] false (state_after adderState))
    (fun ret err s' => bool_decide (ret = [] /\ err = None /\ fst <$> sdb_GetState 300 0 s' = Some 5)) = true.
Proof. vm_compute. reflexivity. Qed.

(** Puts the 16 bytes of a payload of type 5 in the memory and makes a call without value to 300 with them. *)
Definition sneaky : bytes :=
  [0x6f] ++ exampleInput recover ++ [0x60; 0; 0x52; 0x60; 0; 0x60; 0; 0x60; 16; 0x60; 16; 0x60; 0; 0x61; 1; 44; 0x61; 78; 32; 0xf1; 0x00].

(** The validator 200 has lost 10 points of its coefficient, has currency and code. *)
Definition sneakyState : prog :=
  PSeq exampleStakers
    (PSeq (PDo (MAddBalance 200 (3 * 10 ^ 18)))
       (PSeq (PDo (MSubValidatorCoefficient 200 10)) (PDo (MSetCode 200 (Some sneaky))))).

Definition recoverMachine : Machine :=
  progMachine (json_decode recover) (fun _ _ => None) (fun _ _ _ _ => (PSkip, ([], 0, None))) (fun a n => a + n).

Lemma sneaky_run :
  checked (StaticCall (MA := EVMInterpreter recoverMachine) exampleEVM (AccountRef 100) 200 [] 60000 (state_after sneakyState))
    (fun ret err s' => bool_decide (
       ret = [] /\ err = None /\
       wd_bal (world_of (state_after sneakyState)) 200 = 3 * 10 ^ 18 /\
       wd_bal (world_of s') 200 = 2 * 10 ^ 18 /\
       wd_coef (world_of (state_after sneakyState)) 200 = 60 /\ wd_coef (world_of s') 200 = 70)) = true.
Proof. vm_compute. reflexivity. Qed.

(** PUSH2 777, NISEXIST, POP, STOP: asks whether the token 777 exists. *)
Definition asker : bytes := [0x61; 3; 9; 0xc2; 0x50; 0x00].

Definition askerState : prog := PSeq (PDo (MAddBalance 100 1000)) (PDo (MSetCode 300 (Some asker))).

Lemma asker_run :
  checked (StaticCall (MA := EVMInterpreter noPayload) exampleEVM (AccountRef 100) 300 [] 30000 (state_after askerState))
    (fun ret err s' => bool_decide (
       ret = [] /\ err = None /\ fst <$> sdb_Exist 777 (state_after askerState) = Some false /\
       fst <$> sdb_Exist 777 s' = Some true /\ fst <$> sdb_Empty 777 s' = Some false)) = true.
Proof. vm_compute. reflexivity. Qed.

(** ** Findings *)

(** The write protection of static calls does not cover the chain's own transactions:
    there is a state in which a static call under the Byzantium rules succeeds and has
    taken a coin from the called contract and raised its coefficient.  The contract made a
    call without value whose input is such a transaction, which [Call] executes whether
    or not the interpreter is read-only. *)
Theorem static_call_writes :
  exists (MA : Machine) (evm : EVM) (s s' : StateDB) (rest : Z),
    sdb_wf s /\ revs_ok s /\ evm_IsByzantium evm = true /\
    StaticCall (MA := EVMInterpreter MA) evm (AccountRef 100) 200 [] 60000 s = Some (([], rest, None), s') /\
    wd_bal (world_of s) 200 = 3 * 10 ^ 18 /\ wd_bal (world_of s') 200 = 2 * 10 ^ 18 /\
    wd_coef (world_of s) 200 = 60 /\ wd_coef (world_of s') 200 = 70.
Proof.
  exists recoverMachine, exampleEVM, (state_after sneakyState).
  destruct (state_after_ok sneakyState) as [Hwf Hok]; [vm_compute; by eexists|].
  pose proof sneaky_run as Hrun. unfold checked in Hrun.
  destruct (StaticCall (MA := EVMInterpreter recoverMachine) exampleEVM (AccountRef 100) 200 [] 60000
      (state_after sneakyState)) as [[[[ret rest] err] s']|] eqn:Hc; [|discriminate].
  apply bool_decide_eq_true in Hrun as (-> & -> & H0 & H1 & H2 & H3).
  exists s', rest. split; [exact Hwf|]. split; [exact Hok|]. split; [reflexivity|]. split; [reflexivity|].
  split; [exact H0|]. split; [exact H1|]. split; [exact H2|exact H3].
Qed.

(** Asking for a token creates an account: there is a state in which a static call
    that executes NISEXIST for an address without account succeeds and leaves an account
    there, which does not count as empty and so is not removed at the end of the
    transaction. *)
Theorem static_query_creates_account :
  exists (MA : Machine) (evm : EVM) (s s' : StateDB) (rest : Z),
    sdb_wf s /\ revs_ok s /\ evm_IsByzantium evm = true /\
    StaticCall (MA := EVMInterpreter MA) evm (AccountRef 100) 300 [] 30000 s = Some (([], rest, None), s') /\
    fst <$> sdb_Exist 777 s = Some false /\ fst <$> sdb_Exist 777 s' = Some true /\
    fst <$> sdb_Empty 777 s' = Some false.
Proof.
  exists noPayload, exampleEVM, (state_after askerState).
  destruct (state_after_ok askerState) as [Hwf Hok]; [vm_compute; by eexists|].
  pose proof asker_run as Hrun. unfold checked in Hrun.
  destruct (StaticCall (MA := EVMInterpreter noPayload) exampleEVM (AccountRef 100) 300 [] 30000
      (state_after askerState)) as [[[[ret rest] err] s']|] eqn:Hc; [|discriminate].
  apply bool_decide_eq_true in Hrun as (-> & -> & H0 & H1 & H2).
  exists s', rest. split; [exact Hwf|]. split; [exact Hok|]. split; [reflexivity|]. split; [reflexivity|].
  split; [exact H0|]. split; [exact H1|exact H2].
Qed.

(** ** Witnesses *)

Lemma adder_snapshot :
  match sdb_Snapshot (state_after adderState) with
  | Some (_, s1) =>
    match Run (Machine := EVMInterpreter noPayload) exampleEVM adderContract [] false s1 with
    | Some _ => true
    | None => false
    end
  | None => false
  end = true.
Proof. vm_compute. reflexivity. Qed.

Lemma EVMInterpreter_recursion_witness :
  0 <= evm_depth exampleEVM /\
  Run (Machine := EVMInterpreter noPayload) exampleEVM adderContract [] false (state_after adderState)
  = RunWith (calls_of (EVMInterpreter noPayload)) exampleEVM adderContract [] false (state_after adderState).
Proof.
  split; [vm_compute; discriminate|]. apply EVMInterpreter_recursion. vm_compute. discriminate.
Defined.

Lemma Run_terminates_witness :
  exists n fr1 s1, Z.of_nat n <= 30000 /\
    rounds (mkScope (evm_enter false exampleEVM) adderContract [] (calls_of (EVMInterpreter noPayload))) n
      (start adderContract, state_after adderState) (fr1, s1).
Proof.
  destruct (Run_terminates noPayload exampleEVM adderContract [] false (state_after adderState))
    as (n & fr1 & s1 & Hn & Hr & _);
    [vm_compute; discriminate|exact (fun _ => eq_refl)|split; vm_compute; congruence|discriminate|].
  exists n, fr1, s1. split; [exact Hn|exact Hr].
Defined.

(** Three rounds of the adder. *)
Definition adderScope : ScopeContext :=
  mkScope (evm_enter false exampleEVM) adderContract [] (calls_of (EVMInterpreter noPayload)).

Lemma adder_advance :
  match advance adderScope 3 (start adderContract) (state_after adderState) with
  | Some (fr, _) => bool_decide (f_stack fr = [5])
  | None => false
  end = true.
Proof. vm_compute. reflexivity. Qed.

Lemma Run_frames_witness : exists fr : frame, f_stack fr = [5] /\ f_gas fr + 3 <= 30000.
Proof.
  pose proof adder_advance as H.
  destruct (advance adderScope 3 (start adderContract) (state_after adderState)) as [[fr s1]|] eqn:Ha; [|discriminate].
  exists fr. split; [exact (bool_decide_eq_true_1 _ H)|].
  destruct (Run_frames noPayload exampleEVM adderContract [] false 3 (state_after adderState) s1 fr)
    as (_ & _ & _ & _ & _ & Hg);
    [exact (fun _ => eq_refl)|split; vm_compute; congruence|exact (advance_rounds adderScope 3 _ _ _ Ha)|exact Hg].
Defined.

Lemma Run_gas_bounded_witness :
  exists ret rest err s',
    Run (Machine := EVMInterpreter noPayload) exampleEVM adderContract [] false (state_after adderState)
    = Some ((ret, rest, err), s') /\ 0 <= rest <= 30000.
Proof.
  pose proof adder_run as Hrun. unfold checked in Hrun.
  destruct (Run (Machine := EVMInterpreter noPayload) exampleEVM adderContract [] false (state_after adderState))
    as [[[[ret rest] err] s']|] eqn:Hc; [|discriminate].
  exists ret, rest, err, s'. split; [reflexivity|].
  apply (Run_gas_bounded noPayload exampleEVM adderContract [] false (state_after adderState) s' ret rest err);
    [exact (fun _ => eq_refl)|split; vm_compute; congruence|exact Hc].
Defined.

Lemma asker_watched :
  match StaticCall (MA := WatchedInterpreter recoverMachine) exampleEVM (AccountRef 100) 300 [] 30000 (state_after askerState) with
  | Some _ => true
  | None => false
  end = true.
Proof. vm_compute. reflexivity. Qed.

(** The decoder of this machine knows a payload, which the contract does not send. *)
Lemma StaticCall_keeps_witness :
  exists r s', StaticCall (MA := EVMInterpreter recoverMachine) exampleEVM (AccountRef 100) 300 [] 30000 (state_after askerState)
    = Some (r, s') /\ keeps (state_after askerState) s'.
Proof.
  pose proof asker_watched as Hw.
  destruct (StaticCall (MA := WatchedInterpreter recoverMachine) exampleEVM (AccountRef 100) 300 [] 30000
      (state_after askerState)) as [[r s']|] eqn:Hc; [|discriminate].
  destruct (state_after_ok askerState) as [Hwf Hok]; [vm_compute; by eexists|].
  pose proof (StaticCall_watched recoverMachine exampleEVM (AccountRef 100) 300 [] 30000 (state_after askerState) (r, s') Hc) as Hr. exists r, s'. split; [exact Hr|].
  destruct (StaticCall_keeps recoverMachine exampleEVM (AccountRef 100) 300 [] 30000 (state_after askerState) s' r)
    as [Hk _]; [exact Hwf|exact Hok|reflexivity|exact (mk_is_Some _ _ Hc)|exact Hr|exact Hk].
Defined.

Lemma Run_reverts_witness :
  exists id s1 r s2 s3,
    sdb_Snapshot (state_after adderState) = Some (id, s1) /\
    Run (Machine := EVMInterpreter noPayload) exampleEVM adderContract [] false s1 = Some (r, s2) /\
    sdb_RevertToSnapshot id s2 = Some (tt, s3) /\ sdb_le (state_after adderState) s3.
Proof.
  destruct (state_after_ok adderState) as [Hwf Hok]; [vm_compute; by eexists|].
  pose proof adder_snapshot as Hrun.
  destruct (sdb_Snapshot (state_after adderState)) as [[id s1]|] eqn:Hs; [|discriminate].
  destruct (Run (Machine := EVMInterpreter noPayload) exampleEVM adderContract [] false s1) as [[r s2]|] eqn:Hr;
    [|discriminate].
  destruct (Run_reverts noPayload exampleEVM adderContract [] false (state_after adderState) s1 s2 id r)
    as (s3 & H3 & _ & Hle); [exact Hwf|exact Hok|exact Hs|exact Hr|].
  exists id, s1, r, s2, s3. split; [reflexivity|]. split; [exact Hr|]. split; [exact H3|exact Hle].
Defined.
