(* ===== verification/ValidatorSet.v ===== *)
(** The committee of a block as the consensus protocol sees it:
    [consensus/istanbul/validator/default.go], the orders of
    [consensus/istanbul/validator.go], and the hexadecimal form of an address
    ([common/types.go]) these compare.

    A validator set is a sorted slice with the proposer of the present round.  [F] and
    the quorum are computed with [math.Ceil] on [float64]; a third of a [float64] below
    2^50 is rounded to an integer only if it is one, so the ceiling is exact. *)
From S2P Require Import Prelude KeyedList Common.

Open Scope Z_scope.

(** ** Hexadecimal form *)

(** A digit of [hex.Encode], as its character code. *)
Definition hex_digit (n : Z) : Z := if n <? 10 then 48 + n else 87 + n.

(** [Address.hex] without the prefix. *)
Definition hex_digits (a : Address) : bytes :=
  mjoin ((fun b => [hex_digit (b / 16); hex_digit (b mod 16)]) <$> Address_Bytes a).

Section ValidatorSet.
  Context {CR : Crypto}.

(** The digit at position [i], in upper case when it is a letter and the hash says so. *)
Definition checksum_digit (hash : bytes) (i : nat) (c : Z) : Z :=
  let hashByte := nth (i / 2) hash 0 in
  let hashByte := if Nat.even i then Z.shiftr hashByte 4 else Z.land hashByte 0xf in
  if (57 <? c) && (7 <? hashByte) then c - 32 else c.

(** [Address.Hex] without the prefix, which all addresses share. *)
Definition checksumHex (a : Address) : bytes :=
  let buf := hex_digits a in imap (checksum_digit (Keccak256 buf)) buf.

(** [strings.Compare(x, y) < 0] *)
Fixpoint string_less (x y : bytes) : bool :=
  match x, y with
  | [], _ :: _ => true
  | _, [] => false
  | a :: x, b :: y => if a =? b then string_less x y else a <? b
  end.

(** ** Validators and their orders *)

Record defaultValidator : Type := mkVal { val_address : Address; val_coefficient : Z }.

#[export] Instance defaultValidator_eq_dec : EqDecision defaultValidator.
Proof. solve_decision. Defined.

Definition ValidatorSortByString (v1 v2 : defaultValidator) : bool :=
  string_less (checksumHex (val_address v1)) (checksumHex (val_address v2)).

Definition ValidatorSortByByte (v1 v2 : defaultValidator) : bool := val_address v1 <? val_address v2.

Definition ValidatorSortByCoefficient (v1 v2 : defaultValidator) : bool :=
  if val_coefficient v1 =? val_coefficient v2 then ValidatorSortByString v1 v2
  else val_coefficient v2 <? val_coefficient v1.

Inductive ProposerPolicyId : Type := RoundRobin | Sticky | Coefficient.

(** ** Sets *)

Record defaultSet : Type := mkSet {
  set_validators : list defaultValidator;
  set_policy : ProposerPolicyId;
  set_proposer : option defaultValidator;
}.

Definition set_Size (vs : defaultSet) : Z := Z.of_nat (length (set_validators vs)).

Definition set_ListAll (vs : defaultSet) : list Address := val_address <$> set_validators vs.

Definition set_GetByIndex (i : Z) (vs : defaultSet) : option defaultValidator :=
  if i <? set_Size vs then set_validators vs !! Z.to_nat i else None.

Fixpoint find_address (addr : Address) (l : list defaultValidator) : option (nat * defaultValidator) :=
  match l with
  | [] => None
  | v :: l => if addr =? val_address v then Some (0%nat, v)
              else prod_map S id <$> find_address addr l
  end.

(** The index, or -1, and the validator. *)
Definition set_GetByAddress (addr : Address) (vs : defaultSet) : Z * option defaultValidator :=
  match find_address addr (set_validators vs) with
  | Some (i, v) => (Z.of_nat i, Some v)
  | None => (-1, None)
  end.

Definition set_GetProposer (vs : defaultSet) : option defaultValidator := set_proposer vs.

(** [reflect.DeepEqual] of the proposer and the validator with the address; two nils
    are equal. *)
Definition set_IsProposer (address : Address) (vs : defaultSet) : bool :=
  bool_decide (set_GetProposer vs = snd (set_GetByAddress address vs)).

Definition calcSeed (vs : defaultSet) (proposer : Address) (round : Z) : Z :=
  let offset := match set_GetByAddress proposer vs with
                | (idx, Some _) => idx
                | _ => 0
                end in
  u64 (offset + round).

Definition emptyAddress (addr : Address) : bool := addr =? 0.

Definition roundRobinProposer (vs : defaultSet) (proposer : Address) (round : Z) : option defaultValidator :=
  if set_Size vs =? 0 then None
  else
    let seed := if emptyAddress proposer then round else u64 (calcSeed vs proposer round + 1) in
    set_GetByIndex (seed mod set_Size vs) vs.

Definition stickyProposer (vs : defaultSet) (proposer : Address) (round : Z) : option defaultValidator :=
  if set_Size vs =? 0 then None
  else
    let seed := if emptyAddress proposer then round else calcSeed vs proposer round in
    set_GetByIndex (seed mod set_Size vs) vs.

(** [valSet.selector] *)
Definition set_selector (vs : defaultSet) : Address -> Z -> option defaultValidator :=
  match set_policy vs with
  | Sticky => stickyProposer vs
  | _ => roundRobinProposer vs
  end.

Definition set_CalcProposer (lastProposer : Address) (round : Z) (vs : defaultSet) : defaultSet :=
  mkSet (set_validators vs) (set_policy vs) (set_selector vs lastProposer round).

Section By.
  Context (by_ : defaultValidator -> defaultValidator -> bool).

(** Sorting happens only when a state is given, which also gives the coefficients. *)
Definition newDefaultSet (addrs : list Address) (policy : ProposerPolicyId) (db : option (Address -> Z)) : defaultSet :=
  let vals := (fun addr => mkVal addr (match db with Some coefficient => coefficient addr | None => 0 end)) <$> addrs in
  let vals := match db with Some _ => sort_Sort by_ vals | None => vals end in
  mkSet vals policy (head vals).

Definition set_AddValidator (address : Address) (vs : defaultSet) : bool * defaultSet :=
  if bool_decide (address ∈ set_ListAll vs) then (false, vs)
  else (true, mkSet (sort_Sort by_ (set_validators vs ++ [mkVal address 0])) (set_policy vs) (set_proposer vs)).

Definition set_Copy (db : option (Address -> Z)) (vs : defaultSet) : defaultSet :=
  newDefaultSet (set_ListAll vs) (set_policy vs) db.
End By.

(** Cut out the first validator with the address. *)
Fixpoint remove_address (address : Address) (l : list defaultValidator) : option (list defaultValidator) :=
  match l with
  | [] => None
  | v :: l => if val_address v =? address then Some l else cons v <$> remove_address address l
  end.

Definition set_RemoveValidator (address : Address) (vs : defaultSet) : bool * defaultSet :=
  match remove_address address (set_validators vs) with
  | Some l => (true, mkSet l (set_policy vs) (set_proposer vs))
  | None => (false, vs)
  end.

(** [int(math.Ceil(float64(size)/3)) - 1] *)
Definition set_F (vs : defaultSet) : Z := (set_Size vs + 2) / 3 - 1.

(** * Properties *)

(** ** Look-ups *)

Lemma find_address_spec addr l i v :
  find_address addr l = Some (i, v) -> l !! i = Some v /\ val_address v = addr.
Proof.
  revert i. induction l as [|w l IH]; intros i; simpl; [done|].
  destruct (Z.eqb_spec addr (val_address w)) as [->|_]; [by intros [= <- <-]|].
  destruct (find_address addr l) as [[j w']|]; simpl; [|done]. intros [= <- <-]. by apply IH.
Qed.

Lemma find_address_elem addr l : addr ∈ val_address <$> l <-> is_Some (find_address addr l).
Proof.
  induction l as [|w l IH]; simpl; [split; [by intros ?%elem_of_nil|by intros [? ?]]|].
  rewrite elem_of_cons, IH. destruct (Z.eqb_spec addr (val_address w)) as [->|Hne]; [split; [by eexists|by left]|].
  destruct (find_address addr l); simpl; split; intros; [by eexists|right; by eexists| |by destruct H].
  destruct H as [?|[? ?]]; done.
Qed.

Lemma GetByAddress_elem addr vs : is_Some (snd (set_GetByAddress addr vs)) <-> addr ∈ set_ListAll vs.
Proof.
  unfold set_ListAll. rewrite find_address_elem. unfold set_GetByAddress.
  destruct (find_address addr (set_validators vs)) as [[i v]|]; simpl; [|done]. split; intros _; by eexists.
Qed.

Lemma GetByAddress_index addr vs i v :
  set_GetByAddress addr vs = (i, Some v) ->
  0 <= i < set_Size vs /\ set_validators vs !! Z.to_nat i = Some v /\ val_address v = addr.
Proof.
  unfold set_GetByAddress. destruct (find_address addr (set_validators vs)) as [[j w]|] eqn:Hf; [|done].
  intros [= <- <-]. apply find_address_spec in Hf as [Hl Ha]. rewrite Nat2Z.id. split; [|done].
  apply lookup_lt_Some in Hl. unfold set_Size. lia.
Qed.

(** ** The proposer *)

Lemma calcSeed_bound vs proposer round : 0 <= calcSeed vs proposer round < 2 ^ 64.
Proof. unfold calcSeed, u64. apply Z.mod_pos_bound. lia. Qed.

(** The seed counts up with the round. *)
Lemma seed_round vs proposer :
  0 < set_Size vs ->
  exists base, 0 <= base <= set_Size vs /\ forall round, 0 <= round -> round + set_Size vs < 2 ^ 64 ->
    (if emptyAddress proposer then round else u64 (calcSeed vs proposer round + 1)) = base + round.
Proof.
  intros Hs. destruct (emptyAddress proposer); [exists 0; split; [lia|]; intros; lia|].
  assert (H : exists off, 0 <= off < set_Size vs /\ forall round, calcSeed vs proposer round = u64 (off + round)).
  { unfold calcSeed. destruct (set_GetByAddress proposer vs) as [i [v|]] eqn:Hg; [|by exists 0].
    apply GetByAddress_index in Hg as [Hi _]. by exists i. }
  destruct H as (off & Hoff & Hc). exists (off + 1). split; [lia|]. intros round Hr Hle.
  rewrite Hc. unfold u64. rewrite (Z.mod_small (off + round)) by lia. rewrite Z.mod_small; lia.
Qed.

(** Every validator gets its turn.  Among the proposers of any run of rounds as long
    as the set, each validator of the set appears, whoever proposed the last block (as
    long as the round counter does not overflow). *)
Theorem roundRobinProposer_covers (vs : defaultSet) (v : defaultValidator) (last : Address) (round : Z) :
  v ∈ set_validators vs -> 0 <= round -> round + 2 * set_Size vs < 2 ^ 64 ->
  exists k, 0 <= k < set_Size vs /\ roundRobinProposer vs last (round + k) = Some v.
Proof.
  intros [i Hi]%list_elem_of_lookup Hr Hle.
  assert (Hn : 0 <= Z.of_nat i < set_Size vs) by (apply lookup_lt_Some in Hi; unfold set_Size; lia).
  destruct (seed_round vs last) as (base & Hb & Hseed); [lia|].
  set (n := set_Size vs) in *. exists ((Z.of_nat i - base - round) mod n).
  assert (Hk : 0 <= (Z.of_nat i - base - round) mod n < n) by (apply Z.mod_pos_bound; lia).
  split; [done|]. unfold roundRobinProposer. fold n. destruct (Z.eqb_spec n 0); [lia|].
  rewrite Hseed by lia. unfold set_GetByIndex. fold n.
  replace ((base + (round + (Z.of_nat i - base - round) mod n)) mod n) with (Z.of_nat i).
  - destruct (Z.ltb_spec (Z.of_nat i) n); [|lia]. by rewrite Nat2Z.id.
  - rewrite Z.add_assoc, Zplus_mod_idemp_r. rewrite <- (Z.mod_small (Z.of_nat i) n) at 1 by lia. f_equal. lia.
Qed.

(** ** The order *)

Lemma string_less_irrefl x : string_less x x = false.
Proof. induction x as [|a x IH]; simpl; [done|]. by rewrite Z.eqb_refl. Qed.

Lemma string_less_trans x y z : string_less x y = true -> string_less y z = true -> string_less x z = true.
Proof.
  revert y z. induction x as [|a x IH]; intros [|b y] [|c z]; simpl; try done.
  destruct (Z.eqb_spec a b) as [->|Hab], (Z.eqb_spec b c) as [->|Hbc]; intros H1 H2.
  - by eapply IH.
  - destruct (Z.eqb_spec b c); [lia|done].
  - destruct (Z.eqb_spec a c); [lia|done].
  - destruct (Z.eqb_spec a c); lia.
Qed.

Lemma string_less_total x y : x <> y -> length x = length y -> string_less x y = true \/ string_less y x = true.
Proof.
  revert y. induction x as [|a x IH]; intros [|b y] Hne Hl; simpl in *; try done.
  rewrite (Z.eqb_sym b a). destruct (Z.eqb_spec a b) as [Hab|Hab]; [|lia].
  apply IH; [congruence|lia].
Qed.

(** Lower case. *)
Definition lower (c : Z) : Z := if (65 <=? c) && (c <=? 70) then c + 32 else c.

Definition is_digit (c : Z) : Prop := 48 <= c <= 57 \/ 97 <= c <= 102.

Lemma hex_digit_ok n : 0 <= n < 16 -> is_digit (hex_digit n).
Proof. intros. unfold is_digit, hex_digit. destruct (Z.ltb_spec n 10); lia. Qed.

Lemma lower_checksum hash i c : is_digit c -> lower (checksum_digit hash i c) = c.
Proof.
  intros Hc. unfold checksum_digit. set (h := if Nat.even i then _ else _). generalize h. intros h'.
  unfold lower, is_digit in *.
  destruct (Z.ltb_spec 57 c), (Z.ltb_spec 7 h'); simpl;
    repeat match goal with |- context [Z.leb ?m ?n] => destruct (Z.leb_spec m n) end; simpl; lia.
Qed.

Lemma hex_digits_ok a : Forall is_digit (hex_digits a).
Proof.
  unfold hex_digits. apply Forall_join, Forall_fmap. eapply Forall_impl; [apply be_bytes_ok|].
  intros b [H0 H1]. simpl. constructor; [|constructor; [|done]].
  - apply hex_digit_ok. split; [apply Z.div_pos; lia|apply Z.div_lt_upper_bound; lia].
  - apply hex_digit_ok, Z.mod_pos_bound. lia.
Qed.

Lemma lower_checksumHex a : lower <$> checksumHex a = hex_digits a.
Proof.
  unfold checksumHex. apply list_eq. intros i. rewrite list_lookup_fmap, list_lookup_imap.
  destruct (hex_digits a !! i) as [c|] eqn:Hc; simpl; [|done]. f_equal. apply lower_checksum.
  eapply Forall_lookup_1; [apply hex_digits_ok|done].
Qed.

Lemma hex_digit_inj m n : 0 <= m < 16 -> 0 <= n < 16 -> hex_digit m = hex_digit n -> m = n.
Proof. unfold hex_digit. intros. destruct (Z.ltb_spec m 10), (Z.ltb_spec n 10); lia. Qed.

Lemma encode_inj l1 l2 :
  Forall byte_ok l1 -> Forall byte_ok l2 ->
  mjoin ((fun b => [hex_digit (b / 16); hex_digit (b mod 16)]) <$> l1)
  = mjoin ((fun b => [hex_digit (b / 16); hex_digit (b mod 16)]) <$> l2) -> l1 = l2.
Proof.
  intros H1. revert l2. induction H1 as [|b l1 Hb H1 IH]; intros [|c l2] H2; simpl; try done.
  inversion_clear H2 as [|? ? Hc H2']. unfold byte_ok in *. intros [= Hq Hm Hl].
  assert (b / 16 = c / 16).
  { apply hex_digit_inj; [| |done]; split; try (apply Z.div_pos; lia); apply Z.div_lt_upper_bound; lia. }
  assert (b mod 16 = c mod 16) by (apply hex_digit_inj; [apply Z.mod_pos_bound; lia..|done]).
  f_equal; [|by apply IH]. rewrite (Z.div_mod b 16), (Z.div_mod c 16) by lia. lia.
Qed.

Lemma checksumHex_inj a b : checksumHex a = checksumHex b -> a mod 2 ^ 160 = b mod 2 ^ 160.
Proof.
  intros H. apply (f_equal (fmap lower)) in H. rewrite !lower_checksumHex in H.
  apply encode_inj in H; [|apply be_bytes_ok..]. apply (f_equal SetBytes) in H.
  unfold Address_Bytes in H. by rewrite !SetBytes_be_bytes in H.
Qed.

Lemma length_checksumHex a : length (checksumHex a) = 40%nat.
Proof.
  unfold checksumHex. rewrite length_imap. unfold hex_digits, Address_Bytes.
  transitivity (2 * length (be_bytes 20 a))%nat; [|by rewrite length_be_bytes].
  generalize (be_bytes 20 a). intros l. induction l as [|x l IH]; [done|].
  change (S (S (length (mjoin ((fun b => [hex_digit (b / 16); hex_digit (b mod 16)]) <$> l))))
          = (2 * S (length l))%nat). lia.
Qed.

#[export] Instance ValidatorSortByCoefficient_KeyOrder :
  KeyOrder ValidatorSortByCoefficient (fun v => val_address v mod 2 ^ 160).
Proof.
  unfold ValidatorSortByCoefficient, ValidatorSortByString. constructor.
  - intros x. by rewrite Z.eqb_refl, string_less_irrefl.
  - intros x y z.
    destruct (Z.eqb_spec (val_coefficient x) (val_coefficient y)),
      (Z.eqb_spec (val_coefficient y) (val_coefficient z)),
      (Z.eqb_spec (val_coefficient x) (val_coefficient z)); intros H1 H2; try lia.
    by eapply string_less_trans.
  - intros x y Hk. rewrite (Z.eqb_sym (val_coefficient y)).
    destruct (Z.eqb_spec (val_coefficient x) (val_coefficient y)); [|lia].
    apply string_less_total; [|by rewrite !length_checksumHex]. intros H. by apply Hk, checksumHex_inj.
Qed.

(** All nodes see the committee in the same order.  The set built from the committee's
    addresses and coefficients does not depend on the order in which the addresses are
    given, nor on the sorting algorithm: it is sorted by decreasing coefficient and then
    by address, and its first validator is the initial proposer. *)
Theorem newDefaultSet_canonical (addrs addrs' : list Address) (policy : ProposerPolicyId) (coefficient : Address -> Z) :
  NoDup addrs -> Forall (fun a => 0 <= a < 2 ^ 160) addrs -> addrs ≡ₚ addrs' ->
  newDefaultSet ValidatorSortByCoefficient addrs policy (Some coefficient)
  = newDefaultSet ValidatorSortByCoefficient addrs' policy (Some coefficient) /\
  strictly_sorted ValidatorSortByCoefficient
    (set_validators (newDefaultSet ValidatorSortByCoefficient addrs policy (Some coefficient))).
Proof.
  intros Hnd Hr Hp. unfold newDefaultSet. simpl. set (val := fun addr => mkVal addr (coefficient addr)).
  assert (Hkeys : forall l, l ≡ₚ addrs -> NoDup ((fun v => val_address v mod 2 ^ 160) <$> (val <$> l))).
  { intros l Hl. rewrite <- list_fmap_compose. rewrite Hl.
    replace (((fun v => val_address v mod 2 ^ 160) ∘ val) <$> addrs) with addrs; [done|].
    rewrite <- (list_fmap_id addrs) at 1. apply list_fmap_ext. intros i a Ha. simpl.
    rewrite Z.mod_small; [done|]. by apply (Forall_lookup_1 _ _ _ _ Hr Ha). }
  assert (Hs : sort_Sort ValidatorSortByCoefficient (val <$> addrs) = sort_Sort ValidatorSortByCoefficient (val <$> addrs')).
  { eapply sort_unique; [apply sort_Sort_sorted, Hkeys; done|apply sort_Sort_sorted, Hkeys; done|].
    rewrite !sort_Sort_Permutation. by rewrite Hp. }
  rewrite <- Hs. split; [done|]. by apply sort_Sort_sorted, Hkeys.
Qed.

End ValidatorSet.
