(* ===== verification/IbftTypes.v ===== *)
(** The data of the consensus protocol: views, messages and their sets
    ([consensus/istanbul/types.go], [consensus/istanbul/ibft/types],
    [consensus/istanbul/ibft/core/message_set.go]), the state of a round
    ([core/roundstate.go]), and the state of a node ([core/core.go]).

    A proposal is known by its number and its hash.  The encoded part of a message is
    represented by what it encodes, so that decoding is the reading of a constructor.  A
    handler is a computation on the state of the node that also reads the rest of the
    node through the record [Backend], and leaves behind the actions it takes; [None] is a
    run-time panic.  Metrics, logs and the data saved for monitoring are left out. *)
From stdpp Require Import strings.
From S2P Require Import Prelude KeyedList Common ValidatorSet.

Open Scope Z_scope.

(** ** Views and messages *)

Record View : Type := mkView { v_Round : Z; v_Sequence : Z }.

Definition cmp (x y : Z) : Z := if x <? y then -1 else if x =? y then 0 else 1.

Definition view_Cmp (v y : View) : Z :=
  if negb (cmp (v_Sequence v) (v_Sequence y) =? 0) then cmp (v_Sequence v) (v_Sequence y)
  else if negb (cmp (v_Round v) (v_Round y) =? 0) then cmp (v_Round v) (v_Round y)
  else 0.

(** A block, by what the protocol asks of it. *)
Record Proposal : Type := mkProposal { p_Number : Z; p_Hash : Hash }.

Record Request : Type := mkRequest { r_Proposal : option Proposal }.

Record Preprepare : Type := mkPreprepare { pp_View : View; pp_Proposal : option Proposal }.

Record Subject : Type := mkSubject { s_View : View; s_Digest : Hash }.

(** What [Message.Msg] encodes. *)
Inductive payload : Type :=
| EncPreprepare (p : Preprepare)
| EncSubject (s : Subject)
| EncOther (raw : bytes).

Definition MsgPreprepare : Z := 0.
Definition MsgPrepare : Z := 1.
Definition MsgCommit : Z := 2.
Definition MsgRoundChange : Z := 3.

Record Message : Type := mkMessage {
  m_Code : Z;
  m_Msg : payload;
  m_Address : Address;
  m_Signature : bytes;
  m_CommittedSeal : bytes;
}.

#[export] Instance View_eq_dec : EqDecision View.
Proof. solve_decision. Defined.
#[export] Instance Proposal_eq_dec : EqDecision Proposal.
Proof. solve_decision. Defined.
#[export] Instance Preprepare_eq_dec : EqDecision Preprepare.
Proof. solve_decision. Defined.
#[export] Instance Subject_eq_dec : EqDecision Subject.
Proof. solve_decision. Defined.
#[export] Instance payload_eq_dec : EqDecision payload.
Proof. solve_decision. Defined.
#[export] Instance Message_eq_dec : EqDecision Message.
Proof. solve_decision. Defined.

(** [msg.Decode].  A proposal is decoded into a block, for which the encoding of a missing
    proposal, the empty list, is too short. *)
Definition DecodePreprepare (m : Message) : option Preprepare :=
  match m_Msg m with
  | EncPreprepare p => match pp_Proposal p with Some _ => Some p | None => None end
  | _ => None
  end.

Definition DecodeSubject (m : Message) : option Subject :=
  match m_Msg m with
  | EncSubject s => Some s
  | _ => None
  end.

(** ** Signatures *)

(** What is signed: a message without its signature, or the seal of a block. *)
Inductive signed : Type :=
| SignedMessage (code : Z) (msg : payload) (addr : Address) (seal : bytes)
| SignedSeal (data : bytes).

Definition PayloadNoSig (m : Message) : signed :=
  SignedMessage (m_Code m) (m_Msg m) (m_Address m) (m_CommittedSeal m).

(** [GetSignatureAddress]: the signer of the data, recovered from the signature. *)
Class Signatures : Type := { GetSignatureAddress : signed -> bytes -> option Address }.

Definition ErrUnauthorizedAddress : string := "unauthorized address".
Definition ErrInconsistentSubject : string := "inconsistent subjects".
Definition ErrNotFromProposer : string := "message does not come from proposer".
Definition ErrIgnored : string := "message is ignored".
Definition ErrFutureMessage : string := "future message".
Definition ErrOldMessage : string := "old message".
Definition ErrInvalidMessage : string := "invalid message".
Definition ErrFailedDecodePreprepare : string := "failed to decode PRE-PREPARE message".
Definition ErrFailedDecodePrepare : string := "failed to decode PREPARE message".
Definition ErrFailedDecodeCommit : string := "failed to decode COMMIT message".
Definition ErrInvalidSigner : string := "message not signed by the sender".

Definition CheckValidatorSignature {SG : Signatures} (vs : defaultSet) (data : signed) (sig : bytes) : outcome Address :=
  match GetSignatureAddress data sig with
  | None => Err "invalid signature"
  | Some signer =>
      match set_GetByAddress signer vs with
      | (_, Some val) => Ret (val_address val)
      | _ => Err ErrUnauthorizedAddress
      end
  end.

(** A payload from the network, decoded or not. *)
Definition FromPayload {SG : Signatures} (vs : defaultSet) (b : option Message) : outcome Message :=
  match b with
  | None => Err "rlp"
  | Some m =>
      signerAdd ← CheckValidatorSignature vs (PayloadNoSig m) (m_Signature m);
      if signerAdd =? m_Address m then Ret m else Err ErrInvalidSigner
  end.

(** ** Sets of messages *)

Record messageSet : Type := mkMessageSet { ms_valSet : defaultSet; ms_messages : gmap Address Message }.

Definition newMessageSet (valSet : defaultSet) : messageSet := mkMessageSet valSet ∅.

Definition ms_verify (msg : Message) (ms : messageSet) : option string :=
  match set_GetByAddress (m_Address msg) (ms_valSet ms) with
  | (_, None) => Some ErrUnauthorizedAddress
  | _ => None
  end.

Definition ms_addVerifiedMessage (msg : Message) (ms : messageSet) : messageSet :=
  mkMessageSet (ms_valSet ms) (<[m_Address msg := msg]> (ms_messages ms)).

Definition ms_Add (msg : Message) (ms : messageSet) : outcome messageSet :=
  match ms_verify msg ms with
  | Some err => Err err
  | None => Ret (ms_addVerifiedMessage msg ms)
  end.

Definition ms_Values (ms : messageSet) : list Message := snd <$> map_to_list (ms_messages ms).

Definition ms_Size (ms : messageSet) : Z := Z.of_nat (size (ms_messages ms)).

Definition ms_Get (addr : Address) (ms : messageSet) : option Message := ms_messages ms !! addr.

(** ** The state of a round *)

Record roundState : Type := mkRoundState {
  rs_round : Z;
  rs_sequence : Z;
  rs_Preprepare : option Preprepare;
  rs_Prepares : messageSet;
  rs_Commits : messageSet;
  rs_lockedHash : Hash;
  rs_pendingRequest : option Request;
}.

Definition newRoundState (view : View) (validatorSet : defaultSet) (lockedHash : Hash)
    (preprepare : option Preprepare) (pendingRequest : option Request) : roundState :=
  mkRoundState (v_Round view) (v_Sequence view) preprepare (newMessageSet validatorSet)
    (newMessageSet validatorSet) lockedHash pendingRequest.

Definition set_rs_Preprepare (p : option Preprepare) (s : roundState) : roundState :=
  mkRoundState (rs_round s) (rs_sequence s) p (rs_Prepares s) (rs_Commits s) (rs_lockedHash s) (rs_pendingRequest s).
Definition set_rs_Prepares (p : messageSet) (s : roundState) : roundState :=
  mkRoundState (rs_round s) (rs_sequence s) (rs_Preprepare s) p (rs_Commits s) (rs_lockedHash s) (rs_pendingRequest s).
Definition set_rs_Commits (p : messageSet) (s : roundState) : roundState :=
  mkRoundState (rs_round s) (rs_sequence s) (rs_Preprepare s) (rs_Prepares s) p (rs_lockedHash s) (rs_pendingRequest s).
Definition set_rs_lockedHash (h : Hash) (s : roundState) : roundState :=
  mkRoundState (rs_round s) (rs_sequence s) (rs_Preprepare s) (rs_Prepares s) (rs_Commits s) h (rs_pendingRequest s).
Definition set_rs_pendingRequest (r : option Request) (s : roundState) : roundState :=
  mkRoundState (rs_round s) (rs_sequence s) (rs_Preprepare s) (rs_Prepares s) (rs_Commits s) (rs_lockedHash s) r.

(** Prepares and commits, senders of both counted once. *)
Definition rs_GetPrepareOrCommitSize (s : roundState) : Z :=
  foldl (fun result m => match ms_Get (m_Address m) (rs_Commits s) with Some _ => result - 1 | None => result end)
    (ms_Size (rs_Prepares s) + ms_Size (rs_Commits s)) (ms_Values (rs_Prepares s)).

Definition rs_Proposal (s : roundState) : option Proposal := rs_Preprepare s ≫= pp_Proposal.

(** The outer option is a panic (a preprepare without proposal), the inner one nil. *)
Definition rs_Subject (s : roundState) : option (option Subject) :=
  match rs_Preprepare s with
  | None => Some None
  | Some p =>
      proposal ← pp_Proposal p;
      Some (Some (mkSubject (mkView (rs_round s) (rs_sequence s)) (p_Hash proposal)))
  end.

Definition rs_LockHash (s : roundState) : option roundState :=
  match rs_Preprepare s with
  | None => Some s
  | Some p => proposal ← pp_Proposal p; Some (set_rs_lockedHash (p_Hash proposal) s)
  end.

Definition rs_UnlockHash (s : roundState) : roundState := set_rs_lockedHash 0 s.

Definition rs_IsHashLocked (hasBadProposal : Hash -> bool) (s : roundState) : bool :=
  if rs_lockedHash s =? 0 then false else negb (hasBadProposal (rs_lockedHash s)).

(** ** Round changes *)

Record roundChangeSet : Type := mkRoundChangeSet {
  rcs_validatorSet : defaultSet;
  rcs_roundChanges : gmap Z messageSet;
}.

Definition newRoundChangeSet (valSet : defaultSet) : roundChangeSet := mkRoundChangeSet valSet ∅.

(** The number of messages for the round, or an error; a set made for a message that is
    then refused stays, empty. *)
Definition rcs_Add (r : Z) (msg : Message) (rcs : roundChangeSet) : outcome Z * roundChangeSet :=
  let round := u64 r in
  let ms := default (newMessageSet (rcs_validatorSet rcs)) (rcs_roundChanges rcs !! round) in
  match ms_Add msg ms with
  | Ret ms' => (Ret (ms_Size ms'), mkRoundChangeSet (rcs_validatorSet rcs) (<[round := ms']> (rcs_roundChanges rcs)))
  | Err e => (Err e, mkRoundChangeSet (rcs_validatorSet rcs) (<[round := ms]> (rcs_roundChanges rcs)))
  | Panic => (Panic, rcs)
  end.

Definition rcs_Clear (round : Z) (rcs : roundChangeSet) : roundChangeSet :=
  mkRoundChangeSet (rcs_validatorSet rcs)
    (filter (fun '(k, rms) => negb ((length (ms_Values rms) =? 0)%nat || (k <? u64 round)) = true) (rcs_roundChanges rcs)).

Definition rcs_MaxRound (num : Z) (rcs : roundChangeSet) : option Z :=
  foldl (fun maxRound '(k, rms) =>
           if ms_Size rms <? num then maxRound
           else match maxRound with
                | None => Some (i64 k)
                | Some m => if m <? i64 k then Some (i64 k) else maxRound
                end)
    None (map_to_list (rcs_roundChanges rcs)).

(** ** Priority queues *)

(** The package prque: a queue holds entries with a priority, and [Pop] takes one with
    the highest.  A queue is represented by the list of its entries; which of them is
    next is up to the package. *)
Class Prque : Type := {
  prque_top : list Z -> nat;
  prque_top_lookup : forall l, l <> [] ->
    exists p, l !! prque_top l = Some p /\ forall q, q ∈ l -> q <= p;
}.

Notation prque A := (list (A * Z)) (only parsing).

Definition prque_Push {A : Type} (x : A) (prio : Z) (q : prque A) : prque A := q ++ [(x, prio)].

Definition prque_Pop {PQ : Prque} {A : Type} (q : prque A) : option (A * Z * prque A) :=
  let i := prque_top (snd <$> q) in
  '(x, prio) ← q !! i; Some (x, prio, delete i q).

(** ** The state of a node *)

Inductive State : Type := StateAcceptRequest | StatePreprepared | StatePrepared | StateCommitted.

#[export] Instance State_eq_dec : EqDecision State.
Proof. solve_decision. Defined.

Definition state_Z (s : State) : Z :=
  match s with StateAcceptRequest => 0 | StatePreprepared => 1 | StatePrepared => 2 | StateCommitted => 3 end.

Definition state_Cmp (s y : State) : Z := cmp (state_Z s) (state_Z y).

Inductive event : Type :=
| RequestEvent (proposal : option Proposal)
| MessageEvent (code : Z) (payload : option Message)
| backlogEvent (src : defaultValidator) (msg : Message)
| timeoutEvent
| FinalCommittedEvent.

(** What a node does to the world. *)
Inductive action : Type :=
| Broadcast (msg : Message)
| Gossip (code : Z) (payload : option Message)
| Post (ev : event)
| CommitBlock (view : View) (proposal : Proposal) (seals : list bytes).

Record core : Type := mkCore {
  co_RequestTimeout : Z;
  co_address : Address;
  co_state : State;
  co_futurePreprepareTimer : option event;
  co_valSet : option defaultSet;
  co_waitingForRoundChange : bool;
  co_backlogs : gmap Address (prque Message);
  co_current : option roundState;
  co_roundChangeSet : option roundChangeSet;
  co_roundChangeTimer : option Z;
  co_pendingRequests : prque Request;
  co_commitHeight : Z;
  co_onlineValidator : gmap Z (list Address);
}.

Definition set_co_state (x : State) (c : core) : core :=
  mkCore (co_RequestTimeout c) (co_address c) x (co_futurePreprepareTimer c) (co_valSet c)
    (co_waitingForRoundChange c) (co_backlogs c) (co_current c) (co_roundChangeSet c)
    (co_roundChangeTimer c) (co_pendingRequests c) (co_commitHeight c) (co_onlineValidator c).
Definition set_co_futurePreprepareTimer (x : option event) (c : core) : core :=
  mkCore (co_RequestTimeout c) (co_address c) (co_state c) x (co_valSet c) (co_waitingForRoundChange c)
    (co_backlogs c) (co_current c) (co_roundChangeSet c) (co_roundChangeTimer c) (co_pendingRequests c)
    (co_commitHeight c) (co_onlineValidator c).
Definition set_co_valSet (x : option defaultSet) (c : core) : core :=
  mkCore (co_RequestTimeout c) (co_address c) (co_state c) (co_futurePreprepareTimer c) x
    (co_waitingForRoundChange c) (co_backlogs c) (co_current c) (co_roundChangeSet c)
    (co_roundChangeTimer c) (co_pendingRequests c) (co_commitHeight c) (co_onlineValidator c).
Definition set_co_waitingForRoundChange (x : bool) (c : core) : core :=
  mkCore (co_RequestTimeout c) (co_address c) (co_state c) (co_futurePreprepareTimer c) (co_valSet c) x
    (co_backlogs c) (co_current c) (co_roundChangeSet c) (co_roundChangeTimer c) (co_pendingRequests c)
    (co_commitHeight c) (co_onlineValidator c).
Definition set_co_backlogs (x : gmap Address (prque Message)) (c : core) : core :=
  mkCore (co_RequestTimeout c) (co_address c) (co_state c) (co_futurePreprepareTimer c) (co_valSet c)
    (co_waitingForRoundChange c) x (co_current c) (co_roundChangeSet c) (co_roundChangeTimer c)
    (co_pendingRequests c) (co_commitHeight c) (co_onlineValidator c).
Definition set_co_current (x : option roundState) (c : core) : core :=
  mkCore (co_RequestTimeout c) (co_address c) (co_state c) (co_futurePreprepareTimer c) (co_valSet c)
    (co_waitingForRoundChange c) (co_backlogs c) x (co_roundChangeSet c) (co_roundChangeTimer c)
    (co_pendingRequests c) (co_commitHeight c) (co_onlineValidator c).
Definition set_co_roundChangeSet (x : option roundChangeSet) (c : core) : core :=
  mkCore (co_RequestTimeout c) (co_address c) (co_state c) (co_futurePreprepareTimer c) (co_valSet c)
    (co_waitingForRoundChange c) (co_backlogs c) (co_current c) x (co_roundChangeTimer c)
    (co_pendingRequests c) (co_commitHeight c) (co_onlineValidator c).
Definition set_co_roundChangeTimer (x : option Z) (c : core) : core :=
  mkCore (co_RequestTimeout c) (co_address c) (co_state c) (co_futurePreprepareTimer c) (co_valSet c)
    (co_waitingForRoundChange c) (co_backlogs c) (co_current c) (co_roundChangeSet c) x
    (co_pendingRequests c) (co_commitHeight c) (co_onlineValidator c).
Definition set_co_pendingRequests (x : prque Request) (c : core) : core :=
  mkCore (co_RequestTimeout c) (co_address c) (co_state c) (co_futurePreprepareTimer c) (co_valSet c)
    (co_waitingForRoundChange c) (co_backlogs c) (co_current c) (co_roundChangeSet c)
    (co_roundChangeTimer c) x (co_commitHeight c) (co_onlineValidator c).
Definition set_co_commitHeight (x : Z) (c : core) : core :=
  mkCore (co_RequestTimeout c) (co_address c) (co_state c) (co_futurePreprepareTimer c) (co_valSet c)
    (co_waitingForRoundChange c) (co_backlogs c) (co_current c) (co_roundChangeSet c)
    (co_roundChangeTimer c) (co_pendingRequests c) x (co_onlineValidator c).
Definition set_co_onlineValidator (x : gmap Z (list Address)) (c : core) : core :=
  mkCore (co_RequestTimeout c) (co_address c) (co_state c) (co_futurePreprepareTimer c) (co_valSet c)
    (co_waitingForRoundChange c) (co_backlogs c) (co_current c) (co_roundChangeSet c)
    (co_roundChangeTimer c) (co_pendingRequests c) (co_commitHeight c) x.

(** [NewCore] *)
Definition NewCore (timeout : Z) (address : Address) : core :=
  mkCore timeout address StateAcceptRequest None None false ∅ None None None [] 0 ∅.

(** ** Handlers *)

(** The rest of the node: the chain (the last block and its proposer), the committee
    after a block, the verification of a proposal, the signing key, the answer to the
    insertion of a block, and the heights of the second protocol. *)
Inductive verdict : Type := VerifyOk | VerifyFuture | VerifyFailed (e : string).

Record Backend : Type := mkBackend {
  b_LastProposal : option Proposal * Address;
  b_Validators : Proposal -> option defaultSet;
  b_Verify : Proposal -> verdict;
  b_HasBadProposal : Hash -> bool;
  b_Commit : Proposal -> list bytes -> option string;
  b_CurrentNumber : Z;
  b_Sign : signed -> option bytes;
  b_IsQBFTConsensusAt : Z -> bool;
}.

Definition handler (A : Type) : Type := Backend -> core -> option (A * core * list action).

#[export] Instance handler_ret : MRet handler := fun A x b c => Some (x, c, []).
#[export] Instance handler_bind : MBind handler := fun A B f m b c =>
  match m b c with
  | Some (x, c1, acts) =>
      match f x b c1 with
      | Some (y, c2, acts') => Some (y, c2, acts ++ acts')
      | None => None
      end
  | None => None
  end.

Definition crash {A : Type} : handler A := fun b c => None.
Definition asking {A : Type} (f : Backend -> A) : handler A := fun b c => Some (f b, c, []).
Definition reading {A : Type} (f : core -> A) : handler A := fun b c => Some (f c, c, []).
Definition writing (f : core -> core) : handler unit := fun b c => Some (tt, f c, []).
Definition acting (a : action) : handler unit := fun b c => Some (tt, c, [a]).
(** A dereference. *)
Definition the {A : Type} (x : option A) : handler A := match x with Some y => mret y | None => crash end.
