(* ===== verification/Ibft.v ===== *)
(** The consensus protocol of a node: [consensus/istanbul/ibft/core].

    One definition per method of [*core].  An event is handled to its end before the next
    one ([handleEvent], the body of the loop of [handleEvents]); what a handler posts with
    [go c.sendEvent] is an action, delivered later.  Within one event the chain is asked
    through one [Backend], so it does not change while the event is handled.  A map is
    walked in the order of its keys, where Go picks an order: it only affects the order
    of actions that are delivered in any order. *)
From stdpp Require Import strings.
From S2P Require Import Prelude KeyedList Common Rewards ValidatorSet IbftTypes.

Open Scope Z_scope.

Section Ibft.
  Context {SG : Signatures} {PQ : Prque}.

(** ** Reading the state *)

Definition current : handler roundState := rs ← reading co_current; the rs.
Definition upd_current (f : roundState -> roundState) : handler unit :=
  rs ← current; writing (set_co_current (Some (f rs))).
Definition valSet : handler defaultSet := vs ← reading co_valSet; the vs.

Definition currentView : handler View := rs ← current; mret (mkView (rs_round rs) (rs_sequence rs)).

Definition IsProposer : handler bool :=
  v ← reading co_valSet;
  match v with
  | None => mret false
  | Some v => address ← reading co_address; mret (set_IsProposer address v)
  end.

(** [c.valSet.GetProposer().Address()], which the saved data contains. *)
Definition Miner : handler Address := vs ← valSet; v ← the (set_GetProposer vs); mret (val_address v).

Definition QuorumSize : handler Z := vs ← valSet; mret (2 * set_F vs + 1).

Definition IsHashLocked : handler bool :=
  rs ← current; bad ← asking b_HasBadProposal; mret (rs_IsHashLocked bad rs).

Definition subject : handler (option Subject) := rs ← current; the (rs_Subject rs).

(** ** Sending *)

Definition PrepareCommittedSeal (hash : Hash) : bytes := Hash_Bytes hash ++ [MsgCommit].

(** Sign a message; [None] is a failed signature. *)
Definition finalizeMessage (code : Z) (msg : payload) : handler (option Message) :=
  address ← reading co_address;
  sign ← asking b_Sign;
  seal ← (if code =? MsgCommit then
            rs ← current;
            match rs_Proposal rs with
            | None => mret (Some [])
            | Some proposal => mret (sign (SignedSeal (PrepareCommittedSeal (p_Hash proposal))))
            end
          else mret (Some []));
  mret (seal ← seal;
        signature ← sign (SignedMessage code msg address seal);
        Some (mkMessage code msg address signature seal)).

Definition broadcast (code : Z) (msg : payload) : handler unit :=
  m ← finalizeMessage code msg;
  match m with
  | None => mret tt
  | Some m => acting (Broadcast m)
  end.

Definition sendPreprepare (request : Request) : handler unit :=
  requested ← the (r_Proposal request);
  rs ← current;
  if rs_sequence rs =? p_Number requested then
    curView ← currentView;
    isProposer ← IsProposer;
    _ ← Miner;
    broadcast MsgPreprepare (EncPreprepare (mkPreprepare curView (if isProposer : bool then Some requested else None)))
  else mret tt.

Definition sendPrepare : handler unit :=
  sub ← subject; sub ← the sub;
  _ ← Miner;
  broadcast MsgPrepare (EncSubject sub).

Definition broadcastCommit (sub : Subject) : handler unit := broadcast MsgCommit (EncSubject sub).

(** At most one COMMIT per height. *)
Definition sendCommit : handler unit :=
  sub ← subject; sub ← the sub;
  commitHeight ← reading co_commitHeight;
  if u64 (v_Sequence (s_View sub)) <=? commitHeight then mret tt
  else
    _ ← writing (set_co_commitHeight (u64 (v_Sequence (s_View sub))));
    _ ← Miner;
    broadcastCommit sub.

(** ** Timers *)

Definition stopFuturePreprepareTimer : handler unit := writing (set_co_futurePreprepareTimer None).

Definition stopTimer : handler unit :=
  _ ← stopFuturePreprepareTimer; writing (set_co_roundChangeTimer None).

(** The time-out of a round in nanoseconds: it doubles with every round. *)
Definition round_timeout (RequestTimeout round : Z) : Z :=
  let timeout := i64 (RequestTimeout * 10 ^ 6) in
  if 0 <? round then i64 (timeout + i64 (2 ^ round) * 10 ^ 9) else timeout.

Definition newRoundChangeTimer : handler unit :=
  _ ← stopTimer;
  rs ← current;
  t ← reading co_RequestTimeout;
  writing (set_co_roundChangeTimer (Some (round_timeout t (u64 (rs_round rs))))).

(** ** Checks *)

Definition checkMessage (msgCode : Z) (view : View) : handler (option string) :=
  cv ← currentView;
  if msgCode =? MsgRoundChange then
    if 0 <? cmp (v_Sequence view) (v_Sequence cv) then mret (Some ErrFutureMessage)
    else if view_Cmp view cv <? 0 then mret (Some ErrOldMessage)
    else mret None
  else if 0 <? view_Cmp view cv then mret (Some ErrFutureMessage)
  else if view_Cmp view cv <? 0 then mret (Some ErrOldMessage)
  else
    waiting ← reading co_waitingForRoundChange;
    state ← reading co_state;
    if waiting : bool then mret (Some ErrFutureMessage)
    else if bool_decide (state = StateAcceptRequest) then
      if MsgPreprepare <? msgCode then mret (Some ErrFutureMessage) else mret None
    else mret None.

Definition checkRequestMsg (request : Request) : handler (option string) :=
  match r_Proposal request with
  | None => mret (Some ErrInvalidMessage)
  | Some proposal =>
      rs ← current;
      let c := cmp (rs_sequence rs) (p_Number proposal) in
      mret (if 0 <? c then Some ErrOldMessage else if c <? 0 then Some ErrFutureMessage else None)
  end.

(** ** Backlogs *)

Definition PutAddr (height : Z) (addr : Address) : handler unit :=
  writing (fun c =>
    let addrs := default [] (co_onlineValidator c !! height) in
    if bool_decide (addr ∈ addrs) then c
    else set_co_onlineValidator (<[height := addrs ++ [addr]]> (co_onlineValidator c)) c).

Definition float32 (n : Z) : Z := let f := round_bits 24 (mkFloat n 0) in f_man f * 2 ^ f_exp f.

Definition msgPriority (code : Z) : Z :=
  if code =? MsgPreprepare then 1 else if code =? MsgCommit then 2 else if code =? MsgPrepare then 3 else 0.

Definition toPriority (msgCode : Z) (view : View) : Z :=
  if msgCode =? MsgRoundChange then - float32 (u64 (u64 (v_Sequence view) * 1000))
  else - float32 (u64 (u64 (v_Sequence view) * 1000 + u64 (v_Round view) * 10 + msgPriority msgCode)).

(** The view of a message. *)
Definition msg_view (m : Message) : option View :=
  if m_Code m =? MsgPreprepare then pp_View <$> DecodePreprepare m else s_View <$> DecodeSubject m.

Definition storeBacklog (msg : Message) (src : defaultValidator) : handler unit :=
  address ← reading co_address;
  if val_address src =? address then mret tt
  else
    writing (fun c =>
      let backlog := default [] (co_backlogs c !! val_address src) in
      let backlog := match msg_view msg with
                     | Some view => prque_Push msg (toPriority (m_Code msg) view) backlog
                     | None => backlog
                     end in
      set_co_backlogs (<[val_address src := backlog]> (co_backlogs c)) c).

(** Post the messages of a queue until it is empty or the next message is for later. *)
Fixpoint process_queue (fuel : nat) (src : defaultValidator) (backlog : prque Message) : handler (prque Message) :=
  match fuel with
  | O => mret backlog
  | S fuel =>
      match prque_Pop backlog with
      | None => mret backlog
      | Some (msg, prio, rest) =>
          match msg_view msg with
          | None => process_queue fuel src rest
          | Some view =>
              err ← checkMessage (m_Code msg) view;
              match err with
              | Some e =>
                  if bool_decide (e = ErrFutureMessage) then mret (prque_Push msg prio rest)
                  else process_queue fuel src rest
              | None => _ ← acting (Post (backlogEvent src msg)); process_queue fuel src rest
              end
          end
      end
  end.

Fixpoint process_backlogs (l : list (Address * prque Message)) : handler unit :=
  match l with
  | [] => mret tt
  | (srcAddress, backlog) :: l =>
      vs ← valSet;
      _ ← match snd (set_GetByAddress srcAddress vs) with
          | None => writing (fun c => set_co_backlogs (delete srcAddress (co_backlogs c)) c)
          | Some src =>
              rest ← process_queue (length backlog) src backlog;
              writing (fun c => set_co_backlogs (<[srcAddress := rest]> (co_backlogs c)) c)
          end;
      process_backlogs l
  end.

Definition processBacklog : handler unit :=
  backlogs ← reading co_backlogs; process_backlogs (map_to_list backlogs).

Definition storeRequestMsg (request : Request) : handler unit :=
  proposal ← the (r_Proposal request);
  writing (fun c => set_co_pendingRequests
    (prque_Push request (let n := i64 (p_Number proposal) in if n <? 0 then float32 (- n) else - float32 n)
       (co_pendingRequests c)) c).

Fixpoint process_requests (fuel : nat) (q : prque Request) : handler (prque Request) :=
  match fuel with
  | O => mret q
  | S fuel =>
      match prque_Pop q with
      | None => mret q
      | Some (r, prio, rest) =>
          err ← checkRequestMsg r;
          match err with
          | Some e =>
              if bool_decide (e = ErrFutureMessage) then mret (prque_Push r prio rest)
              else process_requests fuel rest
          | None => _ ← acting (Post (RequestEvent (r_Proposal r))); process_requests fuel rest
          end
      end
  end.

Definition processPendingRequests : handler unit :=
  q ← reading co_pendingRequests;
  rest ← process_requests (length q) q;
  writing (set_co_pendingRequests rest).

Definition setState (state : State) : handler unit :=
  _ ← writing (set_co_state state);
  _ ← (if bool_decide (state = StateAcceptRequest) then processPendingRequests else mret tt);
  processBacklog.

(** ** Rounds *)

(** Keep the lock over a change of rounds. *)
Definition updateRoundState (view : View) (validatorSet : defaultSet) (roundChange : bool) : handler unit :=
  cur ← reading co_current;
  bad ← asking b_HasBadProposal;
  writing (set_co_current (Some (
    match cur with
    | Some rs =>
        if roundChange then
          if rs_IsHashLocked bad rs
          then newRoundState view validatorSet (rs_lockedHash rs) (rs_Preprepare rs) (rs_pendingRequest rs)
          else newRoundState view validatorSet 0 None (rs_pendingRequest rs)
        else newRoundState view validatorSet 0 None None
    | None => newRoundState view validatorSet 0 None None
    end))).

Definition catchUpRound (view : View) : handler unit :=
  vs ← valSet;
  _ ← current;
  _ ← writing (set_co_waitingForRoundChange true);
  _ ← updateRoundState view vs true;
  rcs ← reading co_roundChangeSet; rcs ← the rcs;
  _ ← writing (set_co_roundChangeSet (Some (rcs_Clear (v_Round view) rcs)));
  newRoundChangeTimer.

Definition sendRoundChange (round : Z) : handler unit :=
  cv ← currentView;
  if 0 <=? cmp (v_Round cv) round then mret tt
  else
    _ ← catchUpRound (mkView round (v_Sequence cv));
    cv ← currentView;
    broadcast MsgRoundChange (EncSubject (mkSubject cv 0)).

Definition sendNextRoundChange : handler unit :=
  cv ← currentView; sendRoundChange (v_Round cv + 1).

(** Forget the online validators of the lowest height when there are more than ten. *)
Definition trim_online : handler unit :=
  writing (fun c =>
    if (10 <? length (map_to_list (co_onlineValidator c)))%nat then
      match sort_Sort (fun x y => i64 x <? i64 y) (fst <$> map_to_list (co_onlineValidator c)) with
      | key :: _ => set_co_onlineValidator (delete key (co_onlineValidator c)) c
      | [] => c
      end
    else c).

(** Set up the new view and its proposer. *)
Definition enter_view (newView : View) (roundChange : bool) (lastProposer : Address) : handler unit :=
  vs ← valSet;
  _ ← writing (set_co_roundChangeSet (Some (newRoundChangeSet vs)));
  _ ← updateRoundState newView vs roundChange;
  writing (set_co_valSet (Some (set_CalcProposer lastProposer (u64 (v_Round newView)) vs))).

(** A proposer that changed the round proposes again: the block it is locked on, or the
    one requested. *)
Definition propose_again : handler unit :=
  isProposer ← IsProposer;
  if isProposer : bool then
    locked ← IsHashLocked;
    rs ← current;
    if locked : bool then _ ← the (rs_Proposal rs); sendPreprepare (mkRequest (rs_Proposal rs))
    else match rs_pendingRequest rs with
         | Some r => _ ← the (r_Proposal r); sendPreprepare r
         | None => mret tt
         end
  else mret tt.

(** The rest of a new round, from the new committee on. *)
Definition begin_round (newView : View) (roundChange : bool) (lastProposer : Address) : handler unit :=
  _ ← enter_view newView roundChange lastProposer;
  _ ← Miner;
  _ ← writing (set_co_waitingForRoundChange false);
  _ ← setState StateAcceptRequest;
  _ ← (if roundChange then propose_again else mret tt);
  newRoundChangeTimer.

(** The view to enter, and whether it is a later round of the same sequence. *)
Definition next_view (cur : option roundState) (last : Proposal) (round : Z) : option (View * bool) :=
  match cur with
  | None => Some (mkView 0 (p_Number last + 1), false)
  | Some rs =>
      if 0 <=? cmp (p_Number last) (rs_sequence rs) then Some (mkView 0 (p_Number last + 1), false)
      else if p_Number last =? i64 (i64 (rs_sequence rs) - 1) then
        if round =? 0 then None
        else if cmp round (rs_round rs) <? 0 then None
        else Some (mkView round (rs_sequence rs), true)
      else None
  end.

Definition startNewRound (round : Z) : handler unit :=
  '(lastProposal, lastProposer) ← asking b_LastProposal;
  last ← the lastProposal;
  cur ← reading co_current;
  match next_view cur last round with
  | None => mret tt
  | Some (newView, true) => begin_round newView true lastProposer
  | Some (newView, false) =>
      committee ← asking b_Validators;
      _ ← writing (set_co_valSet (committee last));
      match committee last with
      | None => mret tt
      | Some _ => _ ← trim_online; begin_round newView false lastProposer
      end
  end.

(** [make([]byte, IstanbulExtraSeal)] and [copy] *)
Definition seal_bytes (seal : bytes) : bytes := take 65 seal ++ replicate (65 - length seal) 0.

Definition commit : handler unit :=
  _ ← setState StateCommitted;
  rs ← current;
  match rs_Proposal rs with
  | None => mret tt
  | Some proposal =>
      let committedSeals := (fun m => seal_bytes (m_CommittedSeal m)) <$> ms_Values (rs_Commits rs) in
      _ ← acting (CommitBlock (mkView (rs_round rs) (rs_sequence rs)) proposal committedSeals);
      insert ← asking b_Commit;
      _ ← Miner;
      match insert proposal committedSeals with
      | None => mret tt
      | Some _ => _ ← upd_current rs_UnlockHash; sendNextRoundChange
      end
  end.

(** ** Requests *)

Definition handleRequest (request : Request) : handler (option string) :=
  _ ← current;
  err ← checkRequestMsg request;
  match err with
  | Some e => mret (Some e)
  | None =>
      _ ← upd_current (set_rs_pendingRequest (Some request));
      state ← reading co_state;
      _ ← (if bool_decide (state = StateAcceptRequest) then sendPreprepare request else mret tt);
      mret None
  end.

(** ** Messages *)

Definition acceptPreprepare (preprepare : Preprepare) : handler unit :=
  upd_current (set_rs_Preprepare (Some preprepare)).

(** The proposal passed all checks. *)
Definition enter_preprepared (preprepare : Preprepare) (proposal : Proposal) : handler unit :=
  state ← reading co_state;
  if bool_decide (state = StateAcceptRequest) then
    locked ← IsHashLocked;
    if locked : bool then
      rs ← current;
      if p_Hash proposal =? rs_lockedHash rs then
        _ ← acceptPreprepare preprepare;
        _ ← setState StatePrepared;
        sendCommit
      else sendNextRoundChange
    else
      _ ← acceptPreprepare preprepare;
      _ ← setState StatePreprepared;
      sendPrepare
  else mret tt.

Definition handlePreprepare (msg : Message) (src : defaultValidator) : handler (option string) :=
  match DecodePreprepare msg with
  | None => mret (Some ErrFailedDecodePreprepare)
  | Some preprepare =>
      _ ← PutAddr (u64 (v_Sequence (pp_View preprepare))) (m_Address msg);
      match pp_Proposal preprepare with
      | None => mret None
      | Some proposal =>
          _ ← Miner;
          err ← checkMessage MsgPreprepare (pp_View preprepare);
          match err with
          | Some e => mret (Some e)
          | None =>
              vs ← valSet;
              if negb (set_IsProposer (val_address src) vs) then mret (Some ErrNotFromProposer)
              else
                verify ← asking b_Verify;
                match verify proposal with
                | VerifyFuture =>
                    _ ← stopFuturePreprepareTimer;
                    _ ← writing (set_co_futurePreprepareTimer (Some (backlogEvent src msg)));
                    mret (Some "block in the future"%string)
                | VerifyFailed e => _ ← sendNextRoundChange; mret (Some e)
                | VerifyOk => _ ← enter_preprepared preprepare proposal; mret None
                end
          end
      end
  end.

(** Also [verifyCommit]. *)
Definition verifyPrepare (prepare : Subject) : handler (option string) :=
  sub ← subject;
  mret (if bool_decide (sub = Some prepare) then None else Some ErrInconsistentSubject).

(** The error of a sender outside the committee is only logged. *)
Definition acceptPrepare (msg : Message) : handler unit :=
  rs ← current;
  match ms_Add msg (rs_Prepares rs) with
  | Ret ms => upd_current (set_rs_Prepares ms)
  | _ => mret tt
  end.

Definition acceptCommit (msg : Message) : handler unit :=
  rs ← current;
  match ms_Add msg (rs_Commits rs) with
  | Ret ms => upd_current (set_rs_Commits ms)
  | _ => mret tt
  end.

Definition lockHash : handler unit :=
  rs ← current; rs ← the (rs_LockHash rs); writing (set_co_current (Some rs)).

Definition handlePrepare (msg : Message) (src : defaultValidator) : handler (option string) :=
  match DecodeSubject msg with
  | None => mret (Some ErrFailedDecodePrepare)
  | Some prepare =>
      _ ← PutAddr (u64 (v_Sequence (s_View prepare))) (m_Address msg);
      _ ← Miner;
      err ← checkMessage MsgPrepare (s_View prepare);
      match err with
      | Some e => mret (Some e)
      | None =>
          err ← verifyPrepare prepare;
          match err with
          | Some e => mret (Some e)
          | None =>
              _ ← acceptPrepare msg;
              locked ← IsHashLocked;
              rs ← current;
              quorum ← QuorumSize;
              state ← reading co_state;
              _ ← (if ((locked && (s_Digest prepare =? rs_lockedHash rs)) || (quorum <=? rs_GetPrepareOrCommitSize rs))
                      && (state_Cmp state StatePrepared <? 0)
                   then _ ← lockHash; _ ← setState StatePrepared; sendCommit
                   else mret tt);
              mret None
          end
      end
  end.

Definition handleCommit (msg : Message) (src : defaultValidator) : handler (option string) :=
  match DecodeSubject msg with
  | None => _ ← currentView; mret (Some ErrFailedDecodeCommit)
  | Some commit_ =>
      _ ← PutAddr (u64 (v_Sequence (s_View commit_))) (m_Address msg);
      _ ← Miner;
      err ← checkMessage MsgCommit (s_View commit_);
      match err with
      | Some e => mret (Some e)
      | None =>
          err ← verifyPrepare commit_;
          match err with
          | Some e => mret (Some e)
          | None =>
              _ ← acceptCommit msg;
              rs ← current;
              quorum ← QuorumSize;
              state ← reading co_state;
              _ ← (if (quorum <=? ms_Size (rs_Commits rs)) && (state_Cmp state StateCommitted <? 0)
                   then _ ← lockHash; commit
                   else mret tt);
              mret None
          end
      end
  end.

Definition handleRoundChange (msg : Message) (src : defaultValidator) : handler (option string) :=
  match DecodeSubject msg with
  | None => mret (Some ErrInvalidMessage)
  | Some rc =>
      _ ← PutAddr (u64 (v_Sequence (s_View rc))) (m_Address msg);
      err ← checkMessage MsgRoundChange (s_View rc);
      match err with
      | Some e => mret (Some e)
      | None =>
          cv ← currentView;
          let roundView := s_View rc in
          rcs ← reading co_roundChangeSet; rcs ← the rcs;
          let '(num, rcs) := rcs_Add (v_Round roundView) msg rcs in
          _ ← writing (set_co_roundChangeSet (Some rcs));
          match num with
          | Err e => mret (Some e)
          | Panic => crash
          | Ret num =>
              vs ← valSet;
              quorum ← QuorumSize;
              waiting ← reading co_waitingForRoundChange;
              if waiting && (num =? set_F vs + 1) then
                _ ← (if cmp (v_Round cv) (v_Round roundView) <? 0 then sendRoundChange (v_Round roundView) else mret tt);
                mret None
              else if (num =? quorum) && (waiting || (cmp (v_Round cv) (v_Round roundView) <? 0)) then
                _ ← startNewRound (v_Round roundView); mret None
              else if cmp (v_Round cv) (v_Round roundView) <? 0 then mret (Some ErrIgnored)
              else mret None
          end
      end
  end.

(** ** Events *)

Definition simpleCheckPreprepare (msg : Message) : handler (option string) :=
  match DecodePreprepare msg with
  | None => mret (Some "rlp"%string)
  | Some preprepare =>
      proposal ← the (pp_Proposal preprepare);
      n ← asking b_CurrentNumber;
      if u64 (p_Number proposal) <? n then mret (Some ErrOldMessage)
      else _ ← PutAddr (u64 (v_Sequence (pp_View preprepare))) (m_Address msg); mret None
  end.

Definition simpleCheckSubject (msg : Message) : handler (option string) :=
  match DecodeSubject msg with
  | None => mret (Some "rlp"%string)
  | Some rc =>
      n ← asking b_CurrentNumber;
      if u64 (v_Sequence (s_View rc)) <? n then mret (Some ErrOldMessage)
      else _ ← PutAddr (u64 (v_Sequence (s_View rc))) (m_Address msg); mret None
  end.

Definition checkMsgSeq (payload : option Message) : handler (option string) :=
  vs ← valSet;
  match FromPayload vs payload with
  | Ret msg =>
      if m_Code msg =? MsgPreprepare then simpleCheckPreprepare msg
      else if (m_Code msg =? MsgPrepare) || (m_Code msg =? MsgCommit) || (m_Code msg =? MsgRoundChange)
      then simpleCheckSubject msg
      else mret (Some ErrInvalidMessage)
  | Err e => mret (Some e)
  | Panic => crash
  end.

(** Store the message for later if it came too early. *)
Definition testBacklog (msg : Message) (src : defaultValidator) (err : option string) : handler (option string) :=
  _ ← (if bool_decide (err = Some ErrFutureMessage) then storeBacklog msg src else mret tt); mret err.

Definition handleCheckedMsg (msg : Message) (src : defaultValidator) : handler (option string) :=
  if m_Code msg =? MsgPreprepare then err ← handlePreprepare msg src; testBacklog msg src err
  else if m_Code msg =? MsgPrepare then err ← handlePrepare msg src; testBacklog msg src err
  else if m_Code msg =? MsgCommit then err ← handleCommit msg src; testBacklog msg src err
  else if m_Code msg =? MsgRoundChange then err ← handleRoundChange msg src; testBacklog msg src err
  else mret (Some ErrInvalidMessage).

Definition handleMsg (payload : option Message) : handler (option string) :=
  vs ← valSet;
  match FromPayload vs payload with
  | Ret msg =>
      match snd (set_GetByAddress (m_Address msg) vs) with
      | None => mret (Some ErrUnauthorizedAddress)
      | Some src => handleCheckedMsg msg src
      end
  | Err e => mret (Some e)
  | Panic => crash
  end.

Definition handleTimeoutMsg : handler unit :=
  waiting ← reading co_waitingForRoundChange;
  caught ← (if negb waiting then
              vs ← valSet;
              rcs ← reading co_roundChangeSet; rcs ← the rcs;
              match rcs_MaxRound (set_F vs + 1) rcs with
              | Some maxRound =>
                  rs ← current;
                  if 0 <? cmp maxRound (rs_round rs) then _ ← sendRoundChange maxRound; mret true
                  else mret false
              | None => mret false
              end
            else mret false);
  if caught : bool then mret tt
  else
    '(lastProposal, _) ← asking b_LastProposal;
    match lastProposal with
    | Some last => rs ← current; if 0 <=? cmp (p_Number last) (rs_sequence rs) then startNewRound 0 else sendNextRoundChange
    | None => sendNextRoundChange
    end.

(** At the first height of the second protocol the round is started by a goroutine, which is taken to run before the next event. *)
Definition handleFinalCommitted : handler unit :=
  view ← currentView;
  qbft ← asking (fun b => b_IsQBFTConsensusAt b (v_Sequence view + 1));
  if qbft : bool then startNewRound 0 else startNewRound 0.

(** One turn of the loop of [handleEvents]. *)
Definition handleEvent (ev : event) : handler unit :=
  set ← reading co_valSet;
  match ev, set with
  | timeoutEvent, _ => handleTimeoutMsg
  | FinalCommittedEvent, _ => handleFinalCommitted
  | _, None => mret tt
  | RequestEvent proposal, Some _ =>
      let r := mkRequest proposal in
      err ← handleRequest r;
      if bool_decide (err = Some ErrFutureMessage) then storeRequestMsg r else mret tt
  | MessageEvent code payload, Some vs =>
      address ← reading co_address;
      err ← (if fst (set_GetByAddress address vs) <? 0 then checkMsgSeq payload else handleMsg payload);
      match err with
      | None => acting (Gossip code payload)
      | Some _ => mret tt
      end
  | backlogEvent src msg, Some _ =>
      err ← handleCheckedMsg msg src;
      match err with
      | None => acting (Gossip (m_Code msg) (Some msg))
      | Some _ => mret tt
      end
  end.

(** [Start], before the loop begins. *)
Definition Start : handler unit := startNewRound 0.

End Ibft.
