(* ===== verification/IbftInv.v ===== *)
(** What a node of the consensus protocol keeps, whatever happens.

    [wp m b c Q] says that the handler [m] ends in a state and with a result that satisfy
    [Q], and that its actions are in order ([sends]): the node signs COMMITs for ever
    larger heights only, passes on messages that are authentic only, and commits a block
    only with a quorum of COMMITs ([evidence]).  With [strict] it also says that [m]
    does not panic, for which the chain has to answer all questions. *)
From stdpp Require Import strings.
From S2P Require Import Prelude KeyedList Common Rewards ValidatorSet IbftTypes Ibft.

Open Scope Z_scope.

(** ** Increasing heights *)

(** The heights of the COMMITs among some actions. *)
Definition commit_height (a : action) : option Z :=
  match a with
  | Broadcast m =>
      if m_Code m =? MsgCommit
      then match m_Msg m with EncSubject s => Some (u64 (v_Sequence (s_View s))) | _ => None end
      else None
  | _ => None
  end.

Definition commit_heights (acts : list action) : list Z := omap commit_height acts.

(** The heights of [l] increase, from above [h] up to [h']. *)
Fixpoint ladder (h : Z) (l : list Z) (h' : Z) : Prop :=
  match l with
  | [] => h <= h'
  | x :: l => h < x /\ ladder x l h'
  end.

Lemma ladder_le h l h' : ladder h l h' -> h <= h'.
Proof. revert h. induction l as [|x l IH]; simpl; intros h H; [done|]. destruct H as [Hx H]. apply IH in H. lia. Qed.

Lemma ladder_app h l1 h1 l2 h2 : ladder h l1 h1 -> ladder h1 l2 h2 -> ladder h (l1 ++ l2) h2.
Proof.
  revert h. induction l1 as [|x l1 IH]; simpl; intros h H1 H2; [|destruct H1; split; [done|by apply IH]].
  destruct l2 as [|y l2]; simpl in *; [lia|]. destruct H2. split; [lia|done].
Qed.

Lemma ladder_elem h l h' x : ladder h l h' -> x ∈ l -> h < x <= h'.
Proof.
  revert h. induction l as [|y l IH]; simpl; intros h H Hx; [by apply elem_of_nil in Hx|].
  destruct H as [Hy H]. apply elem_of_cons in Hx as [->|Hx]; [by apply ladder_le in H|].
  apply (IH y H) in Hx. lia.
Qed.

Lemma ladder_NoDup h l h' : ladder h l h' -> NoDup l.
Proof.
  revert h. induction l as [|y l IH]; simpl; intros h H; [constructor|]. destruct H as [Hy H].
  constructor; [|by eapply IH]. intros Hin. apply (ladder_elem _ _ _ _ H) in Hin. lia.
Qed.

Section Inv.
  Context {SG : Signatures} {PQ : Prque}.
  (** Which committees a height can have, which proposals are valid, whether panics are to
      be excluded, and which messages are authentic. *)
  Context (committee : list Address -> Z -> Prop) (valid : Proposal -> Prop) (strict : bool) (auth : Message -> Prop).

(** ** Order of the actions *)

(** A COMMIT of [a] for the subject. *)
Definition commit_by (a : Address) (sub : Subject) (m : Message) : Prop :=
  m_Address m = a /\ m_Code m = MsgCommit /\ m_Msg m = EncSubject sub /\ auth m.

Definition quorum_of (n : Z) : Z := 2 * ((n + 2) / 3 - 1) + 1.

(** Enough COMMITs of the committee: the one that sets the quorum and the one the senders
    are in. *)
Definition evidence (v : View) (p : Proposal) : Prop :=
  exists (ms : gmap Address Message) (l l' : list Address),
    committee l (v_Sequence v) /\ committee l' (v_Sequence v) /\
    quorum_of (Z.of_nat (length l)) <= Z.of_nat (size ms) /\
    forall a m, ms !! a = Some m -> a ∈ l' /\ commit_by a (mkSubject v (p_Hash p)) m.

Definition act_ok (addr : Address) (a : action) : Prop :=
  match a with
  | Broadcast m => m_Address m = addr /\ (m_Code m = MsgCommit -> exists sub, m_Msg m = EncSubject sub)
  | Post (backlogEvent _ m) => auth m
  | CommitBlock v p _ => evidence v p /\ valid p
  | _ => True
  end.

Definition sends (c : core) (acts : list action) (c' : core) : Prop :=
  co_address c' = co_address c /\
  ladder (co_commitHeight c) (commit_heights acts) (co_commitHeight c') /\
  Forall (act_ok (co_address c)) acts.

Lemma sends_nil c c' : co_address c' = co_address c -> co_commitHeight c' = co_commitHeight c -> sends c [] c'.
Proof. intros Ha Hh. split; [done|]. split; [simpl; lia|done]. Qed.

Lemma sends_app c1 l1 c2 l2 c3 : sends c1 l1 c2 -> sends c2 l2 c3 -> sends c1 (l1 ++ l2) c3.
Proof.
  intros (Ha & Hl & Hf) (Ha' & Hl' & Hf'). split; [congruence|]. split.
  - unfold commit_heights. rewrite omap_app. by eapply ladder_app.
  - apply Forall_app. split; [done|]. by rewrite <- Ha.
Qed.

(** ** The state *)

Definition same_committee (vs : defaultSet) (n : Z) : Prop := committee (set_ListAll vs) n.

Definition proposes (p : Preprepare) : Prop := exists x, pp_Proposal p = Some x /\ valid x.

Definition round_ok (rs : roundState) : Prop :=
  (forall p, rs_Preprepare rs = Some p -> proposes p) /\
  (rs_lockedHash rs <> 0 -> is_Some (rs_Preprepare rs)) /\
  (forall r, rs_pendingRequest rs = Some r -> is_Some (r_Proposal r)) /\
  same_committee (ms_valSet (rs_Commits rs)) (rs_sequence rs) /\
  forall a m, ms_messages (rs_Commits rs) !! a = Some m ->
    a ∈ set_ListAll (ms_valSet (rs_Commits rs)) /\ exists sub, rs_Subject rs = Some (Some sub) /\ commit_by a sub m.

Definition cur_ok (c : core) : Prop :=
  match co_current c with
  | None => True
  | Some rs =>
      round_ok rs /\
      (co_state c = StateAcceptRequest -> ms_messages (rs_Commits rs) = ∅) /\
      forall vs, co_valSet c = Some vs -> same_committee vs (rs_sequence rs)
  end.

Definition future_ok (c : core) : Prop :=
  match co_futurePreprepareTimer c with Some (backlogEvent _ m) => auth m | _ => True end.

Definition backlogs_ok (l : gmap Address (list (Message * Z))) : Prop :=
  forall a q, l !! a = Some q -> Forall (fun '(m, _) => auth m) q.

(** Nothing a handler dereferences is nil. *)
Definition started (c : core) : Prop :=
  (exists vs v, co_valSet c = Some vs /\ set_proposer vs = Some v /\ 0 < set_Size vs) /\
  is_Some (co_current c) /\ is_Some (co_roundChangeSet c).

Definition inv (c : core) : Prop :=
  cur_ok c /\ future_ok c /\ backlogs_ok (co_backlogs c) /\ (strict = true -> started c).

Definition env_ok (b : Backend) : Prop :=
  (forall p vs, b_Validators b p = Some vs -> same_committee vs (p_Number p + 1)) /\
  (forall p, b_Verify b p = VerifyOk -> valid p) /\
  (strict = true -> is_Some (fst (b_LastProposal b)) /\
     forall p, exists vs, b_Validators b p = Some vs /\ 0 < set_Size vs).

(** ** Weakest preconditions *)

Definition wp {A : Type} (m : handler A) (b : Backend) (c : core) (Q : A -> core -> Prop) : Prop :=
  match m b c with
  | Some (x, c', acts) => Q x c' /\ sends c acts c'
  | None => strict = false
  end.

Lemma wp_mono {A} (m : handler A) b c (Q Q' : A -> core -> Prop) :
  wp m b c Q -> (forall x c', Q x c' -> Q' x c') -> wp m b c Q'.
Proof. unfold wp. destruct (m b c) as [[[x c'] acts]|]; [|done]. intros [H1 H2] H. auto. Qed.

Lemma wp_ret {A} (x : A) b c (Q : A -> core -> Prop) : Q x c -> wp (mret x) b c Q.
Proof. intros H. split; [done|]. by apply sends_nil. Qed.

Lemma wp_bind {A B} (m : handler A) (f : A -> handler B) b c Q :
  wp m b c (fun x c' => wp (f x) b c' Q) -> wp (m ≫= f) b c Q.
Proof.
  unfold wp, mbind, handler_bind. destruct (m b c) as [[[x c'] acts]|]; [|done].
  intros [H Hs]. destruct (f x b c') as [[[y c''] acts']|]; [|done]. destruct H as [H Hs'].
  split; [done|]. by eapply sends_app.
Qed.

Lemma wp_reading {A} (f : core -> A) b c (Q : A -> core -> Prop) : Q (f c) c -> wp (reading f) b c Q.
Proof. intros H. split; [done|]. by apply sends_nil. Qed.

Lemma wp_asking {A} (f : Backend -> A) b c (Q : A -> core -> Prop) : Q (f b) c -> wp (asking f) b c Q.
Proof. intros H. split; [done|]. by apply sends_nil. Qed.

Lemma wp_writing f b c (Q : unit -> core -> Prop) :
  co_address (f c) = co_address c -> co_commitHeight (f c) = co_commitHeight c ->
  Q tt (f c) -> wp (writing f) b c Q.
Proof. intros Ha Hh H. split; [done|]. by apply sends_nil. Qed.

Lemma wp_acting a b c (Q : unit -> core -> Prop) :
  act_ok (co_address c) a -> commit_height a = None -> Q tt c -> wp (acting a) b c Q.
Proof.
  intros Ha Hh H. split; [done|]. split; [done|]. split; [|by repeat constructor].
  unfold commit_heights. simpl. rewrite Hh. simpl. lia.
Qed.

Lemma wp_the {A} (x : option A) b c (Q : A -> core -> Prop) :
  (strict = true -> is_Some x) -> (forall y, x = Some y -> Q y c) -> wp (the x) b c Q.
Proof.
  intros Hs H. destruct x as [y|]; [by apply wp_ret, H|]. unfold wp. simpl.
  destruct strict; [|done]. by destruct (Hs eq_refl).
Qed.

Lemma wp_if {A} (x : bool) (m1 m2 : handler A) b c Q :
  (x = true -> wp m1 b c Q) -> (x = false -> wp m2 b c Q) -> wp (if x then m1 else m2) b c Q.
Proof. destruct x; auto. Qed.

(** ** Reading *)

Lemma wp_current b c (Q : roundState -> core -> Prop) :
  inv c -> (forall rs, co_current c = Some rs -> round_ok rs -> Q rs c) -> wp current b c Q.
Proof.
  intros (Hc & _ & _ & Hs) H. unfold current. apply wp_bind, wp_reading, wp_the; [by intros (_ & ? & _)%Hs|].
  intros rs Hrs. apply H; [done|]. unfold cur_ok in Hc. rewrite Hrs in Hc. apply Hc.
Qed.

Lemma wp_currentView b c (Q : View -> core -> Prop) :
  inv c -> (forall rs, co_current c = Some rs -> round_ok rs -> Q (mkView (rs_round rs) (rs_sequence rs)) c) ->
  wp currentView b c Q.
Proof. intros Hi H. unfold currentView. apply wp_bind, wp_current; [done|]. intros rs Hrs Hok. apply wp_ret, H; done. Qed.

Lemma wp_valSet b c (Q : defaultSet -> core -> Prop) :
  inv c -> (forall vs, co_valSet c = Some vs -> Q vs c) -> wp valSet b c Q.
Proof.
  intros (_ & _ & _ & Hs) H. unfold valSet. apply wp_bind, wp_reading, wp_the; [|done].
  intros ((vs & v & -> & _ & _) & _)%Hs. done.
Qed.

Lemma wp_Miner b c (Q : Address -> core -> Prop) : inv c -> (forall a, Q a c) -> wp Miner b c Q.
Proof.
  intros Hi H. pose proof Hi as (_ & _ & _ & Hs). unfold Miner. apply wp_bind, wp_valSet; [done|]. intros vs Hvs.
  apply wp_bind, wp_the; [|intros v _; apply wp_ret, H]. intros ((vs' & v & Hvs' & Hv & _) & _)%Hs.
  unfold set_GetProposer. by simplify_eq.
Qed.

Lemma wp_QuorumSize b c (Q : Z -> core -> Prop) :
  inv c -> (forall vs, co_valSet c = Some vs -> Q (2 * set_F vs + 1) c) -> wp QuorumSize b c Q.
Proof. intros Hi H. unfold QuorumSize. apply wp_bind, wp_valSet; [done|]. intros vs Hvs. by apply wp_ret, H. Qed.

Lemma wp_IsProposer b c (Q : bool -> core -> Prop) : (forall x, Q x c) -> wp IsProposer b c Q.
Proof.
  intros H. unfold IsProposer. apply wp_bind, wp_reading. destruct (co_valSet c); [|by apply wp_ret].
  apply wp_bind, wp_reading, wp_ret, H.
Qed.

Lemma wp_IsHashLocked b c (Q : bool -> core -> Prop) :
  inv c -> (forall rs, co_current c = Some rs -> Q (rs_IsHashLocked (b_HasBadProposal b) rs) c) ->
  wp IsHashLocked b c Q.
Proof.
  intros Hi H. unfold IsHashLocked. apply wp_bind, wp_current; [done|]. intros rs Hrs _.
  by apply wp_bind, wp_asking, wp_ret, H.
Qed.

Lemma wp_subject b c (Q : option Subject -> core -> Prop) :
  inv c -> (forall rs sub, co_current c = Some rs -> rs_Subject rs = Some sub -> Q sub c) -> wp subject b c Q.
Proof.
  intros Hi H. unfold subject. apply wp_bind, wp_current; [done|]. intros rs Hrs Hok. apply wp_the.
  - intros _. unfold rs_Subject. destruct (rs_Preprepare rs) as [p|] eqn:Hp; [|done].
    destruct Hok as [Hok _]. destruct (Hok p Hp) as (x & -> & _). done.
  - intros sub Hsub. by eapply H.
Qed.

Lemma wp_checkMessage code view b c (Q : option string -> core -> Prop) :
  inv c -> (forall rs e, co_current c = Some rs ->
    (e = None -> code <> MsgRoundChange ->
       view = mkView (rs_round rs) (rs_sequence rs) /\ co_waitingForRoundChange c = false /\
       (MsgPreprepare < code -> co_state c <> StateAcceptRequest)) -> Q e c) ->
  wp (checkMessage code view) b c Q.
Proof.
  intros Hi H. unfold checkMessage. apply wp_bind, wp_currentView; [done|]. intros rs Hrs _.
  destruct (Z.eqb_spec code MsgRoundChange).
  { apply wp_if; intros _; [by apply wp_ret; eapply H|]. apply wp_if; intros _; by apply wp_ret; eapply H. }
  apply wp_if; intros H1; [by apply wp_ret; eapply H|]. apply wp_if; intros H2; [by apply wp_ret; eapply H|].
  assert (Hv : view = mkView (rs_round rs) (rs_sequence rs)).
  { destruct view as [r n']. unfold view_Cmp, cmp in H1, H2. simpl in *.
    destruct (Z.ltb_spec n' (rs_sequence rs)); simpl in *; [lia|].
    destruct (Z.eqb_spec n' (rs_sequence rs)) as [->|]; simpl in *; [|lia].
    destruct (Z.ltb_spec r (rs_round rs)); simpl in *; [lia|].
    destruct (Z.eqb_spec r (rs_round rs)) as [->|]; simpl in *; [done|lia]. }
  apply wp_bind, wp_reading, wp_bind, wp_reading.
  destruct (co_waitingForRoundChange c) eqn:Hw; [by apply wp_ret; eapply H|].
  case_bool_decide as Hst; [|by apply wp_ret; eapply H; eauto].
  apply wp_if; intros H3; [by apply wp_ret; eapply H|].
  apply wp_ret. eapply H; [done|]. intros _ _. split; [done|]. split; [done|]. lia.
Qed.

Lemma wp_checkRequestMsg r b c (Q : option string -> core -> Prop) :
  inv c -> (forall e, (e = None \/ e = Some ErrFutureMessage -> is_Some (r_Proposal r)) -> Q e c) ->
  wp (checkRequestMsg r) b c Q.
Proof.
  intros Hi H. unfold checkRequestMsg. destruct (r_Proposal r) as [p|] eqn:Hp.
  - apply wp_bind, wp_current; [done|]. intros rs _ _. apply wp_ret, H. by intros _.
  - apply wp_ret, H. intros [?|?]; done.
Qed.

(** ** Writing *)

Lemma inv_current c rs rs' :
  inv c -> co_current c = Some rs -> round_ok rs' -> rs_sequence rs' = rs_sequence rs ->
  (co_state c = StateAcceptRequest -> ms_messages (rs_Commits rs') = ∅) ->
  inv (set_co_current (Some rs') c).
Proof.
  intros (Hc & Hf & Hb & Hs) Hrs Hok Hseq Hst. unfold cur_ok in Hc. rewrite Hrs in Hc. destruct Hc as (_ & _ & Hvs).
  split; [|split; [done|split; [done|]]].
  - unfold cur_ok. simpl. split; [done|]. split; [done|]. intros vs Hv. rewrite Hseq. by apply Hvs.
  - intros Ht. destruct (Hs Ht) as (H1 & H2 & H3). by split.
Qed.

Lemma inv_state c st :
  inv c -> (st = StateAcceptRequest -> forall rs, co_current c = Some rs -> ms_messages (rs_Commits rs) = ∅) ->
  inv (set_co_state st c).
Proof.
  intros (Hc & Hf & Hb & Hs) Hst. split; [|split; [done|by split]]. unfold cur_ok in *. simpl.
  destruct (co_current c) as [rs|]; [|done]. destruct Hc as (H1 & _ & H3). split; [done|]. split; [|done].
  intros E. by apply (Hst E).
Qed.

Lemma inv_backlogs c l : inv c -> backlogs_ok l -> inv (set_co_backlogs l c).
Proof. intros (Hc & Hf & Hb & Hs) Hl. split; [done|]. split; [done|]. by split. Qed.

Lemma inv_rcs c x : inv c -> inv (set_co_roundChangeSet (Some x) c).
Proof.
  intros (Hc & Hf & Hb & Hs). split; [done|]. split; [done|]. split; [done|]. intros Ht.
  destruct (Hs Ht) as (H1 & H2 & _). split; [done|]. by split.
Qed.

Lemma inv_future c ev :
  inv c -> match ev with Some (backlogEvent _ m) => auth m | _ => True end -> inv (set_co_futurePreprepareTimer ev c).
Proof. intros (Hc & Hf & Hb & Hs) Hev. split; [done|]. split; [done|]. by split. Qed.

Lemma backlogs_ok_insert l a q : backlogs_ok l -> Forall (fun '(m, _) => auth m) q -> backlogs_ok (<[a := q]> l).
Proof. intros Hl Hq a' q' H. apply lookup_insert_Some in H as [[_ <-]|[_ H]]; [done|]. by eapply Hl. Qed.

Lemma backlogs_ok_delete l a : backlogs_ok l -> backlogs_ok (delete a l).
Proof. intros Hl a' q' H. apply lookup_delete_Some in H as [_ H]. by eapply Hl. Qed.

(** ** Sending *)

Lemma wp_finalizeMessage code msg b c (Q : option Message -> core -> Prop) :
  inv c -> (forall m, (forall m', m = Some m' -> m_Address m' = co_address c /\ m_Code m' = code /\ m_Msg m' = msg) -> Q m c) ->
  wp (finalizeMessage code msg) b c Q.
Proof.
  intros Hi H. unfold finalizeMessage. apply wp_bind, wp_reading, wp_bind, wp_asking, wp_bind.
  apply (wp_mono _ _ _ (fun _ c' => c' = c)).
  - apply wp_if; intros _; [|by apply wp_ret]. apply wp_bind, wp_current; [done|]. intros rs _ _.
    destruct (rs_Proposal rs); by apply wp_ret.
  - intros seal c' ->. apply wp_ret, H. intros m' Hm. destruct seal as [seal|]; simpl in Hm; [|done].
    destruct (b_Sign b _); simpl in Hm; [|done]. by injection Hm as <-.
Qed.

Lemma wp_broadcast code msg b c (Q : unit -> core -> Prop) :
  inv c -> code <> MsgCommit -> Q tt c -> wp (broadcast code msg) b c Q.
Proof.
  intros Hi Hc H. unfold broadcast. apply wp_bind, wp_finalizeMessage; [done|]. intros [m|] Hm; [|by apply wp_ret].
  destruct (Hm m eq_refl) as (Ha & Hcode & _). apply wp_acting; [|  |done].
  - simpl. split; [done|]. congruence.
  - simpl. rewrite Hcode. by destruct (Z.eqb_spec code MsgCommit).
Qed.

Lemma wp_sendPreprepare r b c (Q : unit -> core -> Prop) :
  inv c -> is_Some (r_Proposal r) -> Q tt c -> wp (sendPreprepare r) b c Q.
Proof.
  intros Hi Hr H. unfold sendPreprepare. apply wp_bind, wp_the; [done|]. intros p _.
  apply wp_bind, wp_current; [done|]. intros rs _ _. apply wp_if; intros _; [|by apply wp_ret].
  apply wp_bind, wp_currentView; [done|]. intros rs1 _ _. apply wp_bind, wp_IsProposer. intros isP.
  apply wp_bind, wp_Miner; [done|]. intros _. by apply wp_broadcast.
Qed.

Lemma wp_sendPrepare b c (Q : unit -> core -> Prop) :
  inv c -> (forall rs, co_current c = Some rs -> is_Some (rs_Preprepare rs)) -> Q tt c -> wp sendPrepare b c Q.
Proof.
  intros Hi Hp H. unfold sendPrepare. apply wp_bind, wp_subject; [done|]. intros rs sub Hrs Hsub.
  apply wp_bind, wp_the; [|intros s _; apply wp_bind, wp_Miner; [done|]; intros _; by apply wp_broadcast].
  intros _. unfold rs_Subject in Hsub. destruct (Hp rs Hrs) as [p Hpp]. rewrite Hpp in Hsub.
  destruct (pp_Proposal p); simpl in Hsub; [|done]. by injection Hsub as <-.
Qed.

(** The one place where a COMMIT is sent. *)
Lemma wp_raise_commit sub b c (Q : unit -> core -> Prop) :
  let x := u64 (v_Sequence (s_View sub)) in
  inv c -> co_commitHeight c < x -> Q tt (set_co_commitHeight x c) ->
  wp (_ ← writing (set_co_commitHeight x); _ ← Miner; broadcastCommit sub) b c Q.
Proof.
  intros x Hi Hlt H. assert (Hi' : inv (set_co_commitHeight x c)) by exact Hi.
  assert (Hm : wp Miner b (set_co_commitHeight x c) (fun _ c' => c' = set_co_commitHeight x c)) by (by apply wp_Miner).
  assert (Hf : wp (finalizeMessage MsgCommit (EncSubject sub)) b (set_co_commitHeight x c) (fun m c' =>
     c' = set_co_commitHeight x c /\
     forall m', m = Some m' -> m_Address m' = co_address c /\ m_Code m' = MsgCommit /\ m_Msg m' = EncSubject sub)).
  { apply wp_finalizeMessage; [done|]. intros m Hmm. by split. }
  unfold wp, mbind, handler_bind, writing, broadcastCommit, broadcast in *. simpl.
  assert (Hnil : Miner b (set_co_commitHeight x c) = None \/
                 exists a, Miner b (set_co_commitHeight x c) = Some (a, set_co_commitHeight x c, [])).
  { unfold Miner, valSet, mbind, handler_bind, reading, the. simpl. destruct (co_valSet c) as [vs|]; simpl; [|by left].
    destruct (set_GetProposer vs); simpl; [right; by eexists|by left]. }
  destruct Hnil as [Hn|[a Hn]]; rewrite Hn in *; [done|]. unfold mbind, handler_bind.
  destruct (finalizeMessage MsgCommit (EncSubject sub) b (set_co_commitHeight x c)) as [[[m c'] acts]|]; [|done].
  destruct Hf as [[-> Hm'] (Ha & Hl & Hacts)]. destruct m as [m|]; simpl.
  - destruct (Hm' m eq_refl) as (Hma & Hmc & Hmm). split; [done|]. split; [done|]. split.
    + unfold commit_heights in *. rewrite omap_app. simpl. rewrite Hmc, Hmm. simpl in *.
      destruct (omap commit_height acts) as [|y l] eqn:Ho; simpl in *; [lia|].
      exfalso. destruct Hl as [Hy Hl]. apply ladder_le in Hl. lia.
    + apply Forall_app. split; [done|]. repeat constructor; [done|]. intros _. by exists sub.
  - split; [done|]. split; [done|]. rewrite app_nil_r. split; [|done]. unfold commit_heights in *. simpl in *.
    destruct (omap commit_height acts) as [|y l] eqn:Ho; simpl in *; [lia|].
    exfalso. destruct Hl as [Hy Hl]. apply ladder_le in Hl. lia.
Qed.

Lemma wp_sendCommit b c :
  inv c -> (forall rs, co_current c = Some rs -> is_Some (rs_Preprepare rs)) -> wp sendCommit b c (fun _ => inv).
Proof.
  intros Hi Hp. unfold sendCommit. apply wp_bind, wp_subject; [done|]. intros rs sub Hrs Hsub.
  apply wp_bind, wp_the.
  { intros _. unfold rs_Subject in Hsub. destruct (Hp rs Hrs) as [p Hpp]. rewrite Hpp in Hsub.
    destruct (pp_Proposal p); simpl in Hsub; [|done]. by injection Hsub as <-. }
  intros s _. apply wp_bind, wp_reading. apply wp_if; intros Hle; [by apply wp_ret|].
  apply wp_raise_commit; [done|lia|]. exact Hi.
Qed.

(** ** Queues *)

Lemma prque_Pop_elem {A} (q : list (A * Z)) x prio rest :
  prque_Pop q = Some (x, prio, rest) -> (x, prio) ∈ q /\ forall y, y ∈ rest -> y ∈ q.
Proof.
  unfold prque_Pop. destruct (q !! prque_top (snd <$> q)) as [[x' p']|] eqn:Hl; simpl; [|done].
  intros [= <- <- <-]. split; [by eapply list_elem_of_lookup_2|]. intros y Hy.
  apply list_elem_of_lookup in Hy as [i Hi]. rewrite list_lookup_delete in Hi.
  apply list_elem_of_lookup. case_decide; by eexists.
Qed.

Lemma wp_process_queue fuel src q b c :
  inv c -> Forall (fun '(m, _) => auth m) q ->
  wp (process_queue fuel src q) b c (fun q' c' => c' = c /\ Forall (fun '(m, _) => auth m) q').
Proof.
  intros Hi. revert q. induction fuel as [|fuel IH]; intros q Hq; simpl; [by apply wp_ret|].
  destruct (prque_Pop q) as [[[msg prio] rest]|] eqn:Hpop; [|by apply wp_ret].
  apply prque_Pop_elem in Hpop as [Hin Hrest]. rewrite Forall_forall in Hq.
  assert (Hr : Forall (fun '(m, _) => auth m) rest) by (apply Forall_forall; intros y Hy; by apply Hq, Hrest).
  specialize (Hq _ Hin). simpl in Hq. destruct (msg_view msg); [|by apply IH].
  apply wp_bind, wp_checkMessage; [done|]. intros rs [e|] _ _.
  - case_bool_decide; [|by apply IH]. apply wp_ret. split; [done|]. apply Forall_app. auto.
  - apply wp_bind, wp_acting; [done..|]. by apply IH.
Qed.

(** Only the backlogs differ. *)
Definition same_but_backlogs (c c' : core) : Prop := exists l, c' = set_co_backlogs l c.

Lemma same_but_backlogs_refl c : same_but_backlogs c c.
Proof. exists (co_backlogs c). by destruct c. Qed.

Lemma wp_process_backlogs l b c0 c :
  inv c -> same_but_backlogs c0 c -> Forall (fun '(_, q) => Forall (fun '(m, _) => auth m) q) l ->
  wp (process_backlogs l) b c (fun _ c' => inv c' /\ same_but_backlogs c0 c').
Proof.
  intros Hi Hs Hl. revert c Hi Hs. induction Hl as [|[a q] l Hq Hl IH]; intros c Hi Hs; simpl; [by apply wp_ret|].
  assert (Hset : forall l', backlogs_ok l' -> inv (set_co_backlogs l' c) /\ same_but_backlogs c0 (set_co_backlogs l' c)).
  { intros l' Hl'. split; [by apply inv_backlogs|]. destruct Hs as [l0 ->]. by exists l'. }
  pose proof Hi as (_ & _ & Hb & _). apply wp_bind, wp_valSet; [done|]. intros vs _. apply wp_bind.
  destruct (snd (set_GetByAddress a vs)) as [src|].
  - apply wp_bind. eapply wp_mono; [by apply wp_process_queue|]. intros q' c' [-> Hq'].
    apply wp_writing; [done..|]. destruct (Hset (<[a := q']> (co_backlogs c))); [by apply backlogs_ok_insert|]. by apply IH.
  - apply wp_writing; [done..|]. destruct (Hset (delete a (co_backlogs c))); [by apply backlogs_ok_delete|]. by apply IH.
Qed.

Lemma wp_processBacklog b c :
  inv c -> wp processBacklog b c (fun _ c' => inv c' /\ same_but_backlogs c c').
Proof.
  intros Hi. unfold processBacklog. apply wp_bind, wp_reading.
  apply wp_process_backlogs; [done|apply same_but_backlogs_refl|]. apply Forall_forall. intros [a q] Hin.
  apply elem_of_map_to_list in Hin. destruct Hi as (_ & _ & Hb & _). by eapply Hb.
Qed.

Lemma wp_process_requests fuel q b c :
  inv c -> wp (process_requests fuel q) b c (fun _ c' => c' = c).
Proof.
  intros Hi. revert q. induction fuel as [|fuel IH]; intros q; simpl; [by apply wp_ret|].
  destruct (prque_Pop q) as [[[r prio] rest]|]; [|by apply wp_ret].
  apply wp_bind, wp_checkRequestMsg; [done|]. intros [e|] _.
  - case_bool_decide; [by apply wp_ret|by apply IH].
  - apply wp_bind, wp_acting; [done..|]. by apply IH.
Qed.

(** What a change of state leaves alone. *)
Definition same_round (c c' : core) : Prop :=
  co_current c' = co_current c /\ co_valSet c' = co_valSet c /\ co_roundChangeSet c' = co_roundChangeSet c /\
  co_waitingForRoundChange c' = co_waitingForRoundChange c /\ co_address c' = co_address c.

Lemma wp_setState st b c :
  inv c -> (st = StateAcceptRequest -> forall rs, co_current c = Some rs -> ms_messages (rs_Commits rs) = ∅) ->
  wp (setState st) b c (fun _ c' => inv c' /\ same_round c c' /\ co_state c' = st).
Proof.
  intros Hi Hst. unfold setState. apply wp_bind, wp_writing; [done..|].
  assert (Hi1 : inv (set_co_state st c)) by by apply inv_state.
  apply wp_bind. apply (wp_mono _ _ _ (fun _ c' => exists q, c' = set_co_pendingRequests q (set_co_state st c))).
  - apply wp_if; intros _; [|apply wp_ret; by exists (co_pendingRequests c)].
    unfold processPendingRequests. apply wp_bind, wp_reading, wp_bind.
    eapply wp_mono; [by apply wp_process_requests|]. intros q c' ->. apply wp_writing; [done..|]. by exists q.
  - intros _ c' [q ->]. eapply wp_mono; [apply wp_processBacklog; exact Hi1|].
    intros _ c' [Hi' [l ->]]. split; [done|]. by repeat split.
Qed.

(** ** Rounds *)

Lemma round_ok_new view vs lockedHash preprepare pendingRequest :
  (forall p, preprepare = Some p -> proposes p) -> (lockedHash <> 0 -> is_Some preprepare) ->
  (forall r, pendingRequest = Some r -> is_Some (r_Proposal r)) -> same_committee vs (v_Sequence view) ->
  round_ok (newRoundState view vs lockedHash preprepare pendingRequest).
Proof.
  intros H1 H2 H3 H4. split; [done|]. split; [done|]. split; [done|]. split; [done|].
  intros a m H. simpl in H. by rewrite lookup_empty in H.
Qed.

Lemma wp_updateRoundState view vs roundChange b c (Q : unit -> core -> Prop) :
  same_committee vs (v_Sequence view) -> (forall rs, co_current c = Some rs -> round_ok rs) ->
  (forall rs', round_ok rs' -> ms_messages (rs_Commits rs') = ∅ -> rs_sequence rs' = v_Sequence view ->
     Q tt (set_co_current (Some rs') c)) ->
  wp (updateRoundState view vs roundChange) b c Q.
Proof.
  intros Hvs Hok H. unfold updateRoundState. apply wp_bind, wp_reading, wp_bind, wp_asking, wp_writing; [done..|].
  destruct (co_current c) as [rs|]; [|by apply H; [apply round_ok_new|..]].
  destruct (Hok rs eq_refl) as (H1 & H2 & H3 & _).
  destruct roundChange; [|by apply H; [apply round_ok_new|..]].
  destruct (rs_IsHashLocked _ _); apply H; try done; by apply round_ok_new.
Qed.

Lemma inv_round_ok c rs : inv c -> co_current c = Some rs -> round_ok rs.
Proof. intros (Hc & _) Hrs. unfold cur_ok in Hc. rewrite Hrs in Hc. apply Hc. Qed.

Lemma inv_committee c rs vs :
  inv c -> co_current c = Some rs -> co_valSet c = Some vs -> same_committee vs (rs_sequence rs).
Proof. intros (Hc & _) Hrs. unfold cur_ok in Hc. rewrite Hrs in Hc. apply Hc. Qed.

Lemma wp_newRoundChangeTimer b c : inv c -> wp newRoundChangeTimer b c (fun _ => inv).
Proof.
  intros Hi. unfold newRoundChangeTimer, stopTimer, stopFuturePreprepareTimer.
  apply wp_bind, wp_bind, wp_writing; [done..|]. apply wp_writing; [done..|].
  set (c1 := set_co_roundChangeTimer _ _). assert (Hi1 : inv c1) by (apply (inv_future c None); done).
  apply wp_bind, wp_current; [done|]. intros rs _ _. apply wp_bind, wp_reading, wp_writing; done.
Qed.

Lemma wp_catchUpRound view b c :
  inv c -> (forall rs, co_current c = Some rs -> v_Sequence view = rs_sequence rs) ->
  wp (catchUpRound view) b c (fun _ => inv).
Proof.
  intros Hi Hv. unfold catchUpRound. apply wp_bind, wp_valSet; [done|]. intros vs Hvs.
  apply wp_bind, wp_current; [done|]. intros rs Hrs Hok. apply wp_bind, wp_writing; [done..|].
  set (c1 := set_co_waitingForRoundChange true c). assert (Hi1 : inv c1) by exact Hi.
  apply wp_bind, wp_updateRoundState.
  { rewrite (Hv rs Hrs). by eapply inv_committee. }
  { intros rs1 H1. by apply (inv_round_ok c1). }
  intros rs' Hok' Hnil Hseq.
  assert (Hi2 : inv (set_co_current (Some rs') c1)).
  { apply (inv_current c1 rs); [done|done|done| |done]. by rewrite Hseq, (Hv rs Hrs). }
  apply wp_bind, wp_reading, wp_bind, wp_the.
  { intros Ht. destruct Hi as (_ & _ & _ & Hs). by destruct (Hs Ht) as (_ & _ & ?). }
  intros rcs _. apply wp_bind, wp_writing; [done..|]. apply wp_newRoundChangeTimer. by apply inv_rcs.
Qed.

Lemma wp_sendRoundChange round b c : inv c -> wp (sendRoundChange round) b c (fun _ => inv).
Proof.
  intros Hi. unfold sendRoundChange. apply wp_bind, wp_currentView; [done|]. intros rs Hrs Hok.
  apply wp_if; intros _; [by apply wp_ret|]. apply wp_bind.
  eapply wp_mono; [apply wp_catchUpRound; [done|by intros rs' ?; simplify_eq]|]. intros x c' Hi'. simpl in Hi'.
  apply wp_bind, wp_currentView; [done|]. intros rs' _ _. by apply wp_broadcast.
Qed.

Lemma wp_sendNextRoundChange b c : inv c -> wp sendNextRoundChange b c (fun _ => inv).
Proof.
  intros Hi. unfold sendNextRoundChange. apply wp_bind, wp_currentView; [done|]. intros rs _ _.
  by apply wp_sendRoundChange.
Qed.

Lemma CalcProposer_Some last round vs : 0 < set_Size vs -> is_Some (set_proposer (set_CalcProposer last round vs)).
Proof.
  intros Hs. unfold set_CalcProposer, set_selector. simpl.
  assert (H : forall seed, is_Some (set_GetByIndex (seed mod set_Size vs) vs)).
  { intros seed. pose proof (Z.mod_pos_bound seed (set_Size vs) Hs) as Hm. unfold set_GetByIndex.
    destruct (Z.ltb_spec (seed mod set_Size vs) (set_Size vs)); [|lia].
    apply lookup_lt_is_Some. unfold set_Size in *. lia. }
  destruct (set_policy vs); unfold roundRobinProposer, stickyProposer;
    (destruct (Z.eqb_spec (set_Size vs) 0); [lia|apply H]).
Qed.

Section Begin.
  Context (newView : View) (roundChange : bool) (lastProposer : Address) (b : Backend) (c : core).
  Context (Hset : forall vs, co_valSet c = Some vs ->
             same_committee vs (v_Sequence newView) /\ (strict = true -> 0 < set_Size vs)).
  Context (Hsome : strict = true -> is_Some (co_valSet c)).
  Context (Hround : forall rs, co_current c = Some rs -> round_ok rs).
  Context (Hfuture : future_ok c) (Hback : backlogs_ok (co_backlogs c)).

Lemma wp_enter_view :
  wp (enter_view newView roundChange lastProposer) b c (fun _ c' =>
    inv c' /\ forall rs, co_current c' = Some rs -> ms_messages (rs_Commits rs) = ∅).
Proof using Type*.
  unfold enter_view. apply wp_bind. unfold valSet. apply wp_bind, wp_reading, wp_the; [done|]. intros vs Hvs.
  destruct (Hset vs Hvs) as [Hcom Hsz]. apply wp_bind, wp_writing; [done..|].
  apply wp_bind, wp_updateRoundState; [done|done|]. intros rs' Hok Hnil Hseq. apply wp_writing; [done..|].
  split; [|by intros rs [= <-]]. split; [|split; [done|split; [done|]]].
  - unfold cur_ok. simpl. split; [done|]. split; [done|]. intros vs' [= <-]. unfold same_committee in *. by rewrite Hseq.
  - intros Ht. split; [|split; by eexists]. destruct (CalcProposer_Some lastProposer (u64 (v_Round newView)) vs (Hsz Ht)) as [v Hv].
    exists (set_CalcProposer lastProposer (u64 (v_Round newView)) vs), v. split; [done|]. split; [done|]. exact (Hsz Ht).
Qed.

Lemma wp_begin_round : wp (begin_round newView roundChange lastProposer) b c (fun _ => inv).
Proof using Type*.
  unfold begin_round. apply wp_bind. eapply wp_mono; [apply wp_enter_view|]. intros _ c1 [Hi1 Hnil].
  apply wp_bind, wp_Miner; [done|]. intros _. apply wp_bind, wp_writing; [done..|].
  assert (Hi2 : inv (set_co_waitingForRoundChange false c1)) by exact Hi1.
  apply wp_bind. eapply wp_mono; [apply wp_setState; [exact Hi2|by intros _]|]. intros _ c3 (Hi3 & _ & _).
  apply wp_bind. apply (wp_mono _ _ _ (fun _ => inv)); [|intros; by apply wp_newRoundChangeTimer].
  destruct roundChange; [|by apply wp_ret]. unfold propose_again. apply wp_bind, wp_IsProposer. intros isP.
  apply wp_if; intros _; [|by apply wp_ret]. apply wp_bind, wp_IsHashLocked; [done|]. intros rs0 Hrs0.
  apply wp_bind, wp_current; [done|]. intros rs Hrs Hok. assert (rs0 = rs) as -> by congruence.
  apply wp_if; intros Hl.
  - assert (Hp : is_Some (rs_Proposal rs)).
    { destruct Hok as (H1 & H2 & _). unfold rs_IsHashLocked in Hl. destruct (Z.eqb_spec (rs_lockedHash rs) 0); [done|].
      destruct H2 as [p Hp]; [done|]. unfold rs_Proposal. destruct (H1 p Hp) as (x & Hx & _). rewrite Hp. by exists x. }
    apply wp_bind, wp_the; [done|]. intros p _. by apply wp_sendPreprepare.
  - destruct Hok as (_ & _ & H3 & _). destruct (rs_pendingRequest rs) as [r|] eqn:Hr; [|by apply wp_ret].
    apply wp_bind, wp_the; [by intros _; apply H3|]. intros p _. apply wp_sendPreprepare; [done|by apply H3|done].
Qed.
End Begin.

(** A node that may not have been started. *)
Definition weak_inv (c : core) : Prop :=
  cur_ok c /\ future_ok c /\ backlogs_ok (co_backlogs c) /\ (strict = true -> co_current c = None \/ started c).

Lemma inv_weak c : inv c -> weak_inv c.
Proof. intros (H1 & H2 & H3 & H4). split; [done|]. split; [done|]. split; [done|]. intros Ht. right. by apply H4. Qed.

Lemma wp_startNewRound_weak round b c : env_ok b -> weak_inv c -> wp (startNewRound round) b c (fun _ => inv).
Proof.
  intros (Henv & _ & Hstrict) (Hc & Hf & Hb & Hs). unfold startNewRound. apply wp_bind, wp_asking.
  destruct (b_LastProposal b) as [last lastProposer] eqn:Hlast. simpl. apply wp_bind, wp_the.
  { intros Ht. by destruct (Hstrict Ht). }
  intros p ->. apply wp_bind, wp_reading. unfold cur_ok in Hc.
  assert (Hrnd : forall rs, co_current c = Some rs -> round_ok rs).
  { intros rs Hrs. rewrite Hrs in Hc. apply Hc. }
  destruct (next_view (co_current c) p round) as [[nv [|]]|] eqn:Hnv.
  - unfold next_view in Hnv. destruct (co_current c) as [rs|] eqn:Hrs; [|done].
    destruct Hc as (_ & _ & Hvs).
    assert (v_Sequence nv = rs_sequence rs) as Hseq by (repeat case_match; by simplify_eq).
    assert (Hst : strict = true -> started c) by (intros Ht; by destruct (Hs Ht)).
    apply wp_begin_round; [| |by rewrite Hrs|done|done].
    + intros vs Hv. rewrite Hseq. split; [by apply Hvs|]. intros ((vs' & v & Hv' & _ & Hsz) & _)%Hst. by simplify_eq.
    + by intros ((vs' & v & Hv' & _) & _)%Hst.
  - assert (v_Sequence nv = p_Number p + 1) as Hseq.
    { unfold next_view in Hnv. repeat case_match; by simplify_eq. }
    apply wp_bind, wp_asking, wp_bind, wp_writing; [done..|]. destruct (b_Validators b p) as [vs|] eqn:Hv.
    + apply wp_bind. unfold trim_online.
      assert (Hbegin : forall c1, co_valSet c1 = Some vs -> co_current c1 = co_current c ->
                future_ok c1 -> backlogs_ok (co_backlogs c1) -> wp (begin_round nv false lastProposer) b c1 (fun _ => inv)).
      { intros c1 H1 H2 H3 H4. apply wp_begin_round; [| |by rewrite H2|done|done]; [|by rewrite H1].
        intros vs' Hv'. rewrite H1 in Hv'. injection Hv' as <-. rewrite Hseq. split; [by apply Henv|].
        intros Ht. destruct (Hstrict Ht) as [_ H]. destruct (H p) as (vs' & Hv' & Hsz). by simplify_eq. }
      apply wp_writing; repeat case_match; try done; by apply Hbegin.
    + apply wp_ret. split; [|split; [done|split; [done|]]].
      * unfold cur_ok. simpl. destruct (co_current c); [|done]. destruct Hc as (H1 & H2 & _). by split.
      * intros Ht. destruct (Hstrict Ht) as [_ H]. destruct (H p) as (vs' & Hv' & _). congruence.
  - apply wp_ret. split; [done|]. split; [done|]. split; [done|]. intros Ht. destruct (Hs Ht) as [Hn|]; [|done].
    rewrite Hn in Hnv. done.
Qed.

Lemma wp_startNewRound round b c : env_ok b -> inv c -> wp (startNewRound round) b c (fun _ => inv).
Proof. intros Hb Hi. apply wp_startNewRound_weak; [done|by apply inv_weak]. Qed.

(** ** Changes of the round state *)

Lemma round_ok_lock h rs : round_ok rs -> (h <> 0 -> is_Some (rs_Preprepare rs)) -> round_ok (set_rs_lockedHash h rs).
Proof. intros (H1 & H2 & H3 & H4 & H5) H. split; [done|]. split; [done|]. split; [done|]. by split. Qed.

Lemma round_ok_pending r rs : round_ok rs -> is_Some (r_Proposal r) -> round_ok (set_rs_pendingRequest (Some r) rs).
Proof.
  intros (H1 & H2 & H3 & H4 & H5) H. split; [done|]. split; [done|]. split; [by intros r' [= <-]|]. by split.
Qed.

Lemma round_ok_prepares ms rs : round_ok rs -> round_ok (set_rs_Prepares ms rs).
Proof. intros (H1 & H2 & H3 & H4 & H5). split; [done|]. split; [done|]. split; [done|]. by split. Qed.

Lemma round_ok_preprepare p rs :
  round_ok rs -> proposes p -> ms_messages (rs_Commits rs) = ∅ -> round_ok (set_rs_Preprepare (Some p) rs).
Proof.
  intros (H1 & H2 & H3 & H4 & H5) H Hnil. split; [by intros p' [= <-]|]. split; [by eexists|]. split; [done|].
  split; [done|]. simpl. rewrite Hnil. intros a m Hm. by rewrite lookup_empty in Hm.
Qed.

Lemma round_ok_commits msg ms sub rs :
  round_ok rs -> ms_Add msg (rs_Commits rs) = Ret ms -> rs_Subject rs = Some (Some sub) ->
  commit_by (m_Address msg) sub msg -> round_ok (set_rs_Commits ms rs).
Proof.
  intros (H1 & H2 & H3 & H4 & H5) Hadd Hsub Hby. unfold ms_Add, ms_verify in Hadd.
  destruct (set_GetByAddress (m_Address msg) (ms_valSet (rs_Commits rs))) as [i [v|]] eqn:Hg; [|done].
  injection Hadd as <-. split; [done|]. split; [done|]. split; [done|]. split; [done|].
  assert (Hin : m_Address msg ∈ set_ListAll (ms_valSet (rs_Commits rs))).
  { apply GetByAddress_elem. by rewrite Hg. }
  simpl. intros a m Hm. apply lookup_insert_Some in Hm as [[<- <-]|[_ Hm]].
  - split; [done|]. by exists sub.
  - destruct (H5 a m Hm) as (Ha & sub' & Hs' & Hc'). split; [done|]. exists sub'. by split.
Qed.

Lemma wp_upd_current f b c (Q : unit -> core -> Prop) :
  inv c ->
  (forall rs, co_current c = Some rs -> round_ok rs -> round_ok (f rs) /\ rs_sequence (f rs) = rs_sequence rs /\
     (co_state c = StateAcceptRequest -> ms_messages (rs_Commits rs) = ∅ -> ms_messages (rs_Commits (f rs)) = ∅)) ->
  (forall rs, co_current c = Some rs -> inv (set_co_current (Some (f rs)) c) -> Q tt (set_co_current (Some (f rs)) c)) ->
  wp (upd_current f) b c Q.
Proof.
  intros Hi Hf H. unfold upd_current. apply wp_bind, wp_current; [done|]. intros rs Hrs Hok.
  destruct (Hf rs Hrs Hok) as (H1 & H2 & H3). apply wp_writing; [done..|]. apply H; [done|].
  eapply inv_current; [done|done|done|done|]. intros Hst. apply H3; [done|].
  destruct Hi as (Hc & _). unfold cur_ok in Hc. rewrite Hrs in Hc. by apply Hc.
Qed.

Lemma wp_lockHash b c (Q : unit -> core -> Prop) :
  inv c ->
  (forall rs rs', co_current c = Some rs -> rs_LockHash rs = Some rs' ->
     inv (set_co_current (Some rs') c) -> Q tt (set_co_current (Some rs') c)) ->
  wp lockHash b c Q.
Proof.
  intros Hi H. unfold lockHash. apply wp_bind, wp_current; [done|]. intros rs Hrs Hok. pose proof Hok as (H1 & _).
  assert (Hst : co_state c = StateAcceptRequest -> ms_messages (rs_Commits rs) = ∅).
  { destruct Hi as (Hc & _). unfold cur_ok in Hc. rewrite Hrs in Hc. apply Hc. }
  apply wp_bind, wp_the.
  - intros _. unfold rs_LockHash. destruct (rs_Preprepare rs) as [p|] eqn:Hp; [|done]. by destruct (H1 p eq_refl) as (x & -> & _).
  - intros rs' Hrs'. apply wp_writing; [done..|]. eapply H; [done|done|]. unfold rs_LockHash in Hrs'.
    destruct (rs_Preprepare rs) as [p|] eqn:Hp; [|by injection Hrs' as <-; eapply inv_current].
    destruct (pp_Proposal p); simpl in Hrs'; [|done]. injection Hrs' as <-.
    apply (inv_current c rs); [done|done| |done|done]. apply round_ok_lock; [done|]. intros _. rewrite Hp. by eexists.
Qed.

(** ** Committing *)

Lemma quorum_committee vs : 2 * set_F vs + 1 = quorum_of (Z.of_nat (length (set_ListAll vs))).
Proof. unfold quorum_of, set_F, set_Size, set_ListAll. by rewrite length_fmap. Qed.

Lemma evidence_of rs vs p :
  round_ok rs -> same_committee vs (rs_sequence rs) -> rs_Proposal rs = Some p ->
  2 * set_F vs + 1 <= ms_Size (rs_Commits rs) -> evidence (mkView (rs_round rs) (rs_sequence rs)) p.
Proof.
  intros (_ & _ & _ & H4 & H5) Hvs Hp Hq.
  exists (ms_messages (rs_Commits rs)), (set_ListAll vs), (set_ListAll (ms_valSet (rs_Commits rs))). simpl.
  rewrite <- quorum_committee. split; [done|]. split; [done|]. split; [done|]. intros a m Hm.
  destruct (H5 a m Hm) as (Ha & sub & Hsub & Hby). split; [done|].
  unfold rs_Subject in Hsub. unfold rs_Proposal in Hp. destruct (rs_Preprepare rs); [|done]. simpl in Hp.
  rewrite Hp in Hsub. simpl in Hsub. by injection Hsub as <-.
Qed.

Lemma round_ok_valid rs p : round_ok rs -> rs_Proposal rs = Some p -> valid p.
Proof.
  intros (H1 & _). unfold rs_Proposal. destruct (rs_Preprepare rs) as [pp|]; [|done]. simpl. intros Hp.
  destruct (H1 pp eq_refl) as (x & Hx & Hv). by simplify_eq.
Qed.

Lemma wp_commit b c :
  inv c -> (forall rs p, co_current c = Some rs -> rs_Proposal rs = Some p ->
              evidence (mkView (rs_round rs) (rs_sequence rs)) p) ->
  wp commit b c (fun _ => inv).
Proof.
  intros Hi Hev. unfold commit. apply wp_bind. eapply wp_mono; [by apply wp_setState|].
  intros _ c1 (Hi1 & (Hcur & _) & _). apply wp_bind, wp_current; [done|]. intros rs Hrs Hok.
  destruct (rs_Proposal rs) as [p|] eqn:Hp; [|by apply wp_ret]. rewrite Hcur in Hrs.
  apply wp_bind, wp_acting; [split; [by apply Hev|by eapply round_ok_valid]|done|]. apply wp_bind, wp_asking, wp_bind, wp_Miner; [done|]. intros _.
  destruct (b_Commit b _ _); [|by apply wp_ret]. apply wp_bind, wp_upd_current; [done| |].
  - intros rs1 _ Hok1. split; [by apply round_ok_lock|]. by split.
  - intros rs1 _ Hi2. by apply wp_sendNextRoundChange.
Qed.

(** ** Messages *)

Lemma wp_PutAddr h a b c : inv c -> wp (PutAddr h a) b c (fun _ c' => inv c' /\ same_round c c' /\ co_state c' = co_state c).
Proof.
  intros Hi. unfold PutAddr. by apply wp_writing; case_bool_decide.
Qed.

Lemma wp_storeBacklog msg src b c : inv c -> auth msg -> wp (storeBacklog msg src) b c (fun _ => inv).
Proof.
  intros Hi Ha. unfold storeBacklog. apply wp_bind, wp_reading. apply wp_if; intros _; [by apply wp_ret|].
  apply wp_writing; [done..|]. pose proof Hi as (_ & _ & Hb & _). apply inv_backlogs; [done|].
  apply backlogs_ok_insert; [done|].
  assert (Hq : Forall (fun '(m, _) => auth m) (default [] (co_backlogs c !! val_address src))).
  { destruct (co_backlogs c !! val_address src) as [q|] eqn:Hl; simpl; [by eapply Hb|done]. }
  destruct (msg_view msg); [|done]. unfold prque_Push. apply Forall_app. split; [done|]. by repeat constructor.
Qed.

Lemma wp_handleRequest r b c :
  inv c -> wp (handleRequest r) b c (fun e c' => inv c' /\ (e = Some ErrFutureMessage -> is_Some (r_Proposal r))).
Proof.
  intros Hi. unfold handleRequest. apply wp_bind, wp_current; [done|]. intros rs0 _ _.
  apply wp_bind, wp_checkRequestMsg; [done|]. intros [e|] He; [apply wp_ret; split; [done|]; intros E; apply He; auto|].
  assert (Hp : is_Some (r_Proposal r)) by (apply He; by left).
  apply wp_bind, wp_upd_current; [done| |].
  { intros rs _ Hok. split; [by apply round_ok_pending|]. by split. }
  intros rs _ Hi1. apply wp_bind, wp_reading, wp_bind. apply (wp_mono _ _ _ (fun _ => inv)).
  - apply wp_if; intros _; [by apply wp_sendPreprepare|by apply wp_ret].
  - intros x c' Hi'. by apply wp_ret.
Qed.

Lemma wp_enter_preprepared preprepare proposal b c :
  inv c -> proposes preprepare -> wp (enter_preprepared preprepare proposal) b c (fun _ => inv).
Proof.
  intros Hi Hp. unfold enter_preprepared. apply wp_bind, wp_reading. case_bool_decide as Hst; [|by apply wp_ret].
  assert (Hacc : forall st (k : handler unit), st <> StateAcceptRequest ->
    (forall c', inv c' -> (forall rs, co_current c' = Some rs -> is_Some (rs_Preprepare rs)) -> wp k b c' (fun _ => inv)) ->
    wp (_ ← acceptPreprepare preprepare; _ ← setState st; k) b c (fun _ => inv)).
  { intros st k Hne Hk. unfold acceptPreprepare. apply wp_bind, wp_upd_current; [done| |].
    - intros rs Hrs Hok. pose proof Hi as (Hc & _). unfold cur_ok in Hc. rewrite Hrs in Hc.
      split; [|by split]. apply round_ok_preprepare; [done|done|by apply Hc].
    - intros rs Hrs Hi1. apply wp_bind. eapply wp_mono; [apply wp_setState; [exact Hi1|done]|].
      intros _ c' (Hi' & (Hcur & _) & _). apply Hk; [done|]. intros rs'. rewrite Hcur. intros [= <-]. by eexists. }
  apply wp_bind, wp_IsHashLocked; [done|]. intros rs Hrs. apply wp_if; intros _.
  - apply wp_bind, wp_current; [done|]. intros rs1 _ _. apply wp_if; intros _; [|by apply wp_sendNextRoundChange].
    apply Hacc; [done|]. intros c' Hi' Hpp. by apply wp_sendCommit.
  - apply Hacc; [done|]. intros c' Hi' Hpp. by apply wp_sendPrepare.
Qed.

Lemma wp_handlePreprepare msg src b c : env_ok b -> inv c -> auth msg -> wp (handlePreprepare msg src) b c (fun _ => inv).
Proof.
  intros (_ & Hb & _) Hi Ha. unfold handlePreprepare. destruct (DecodePreprepare msg) as [p|]; [|by apply wp_ret].
  apply wp_bind. eapply wp_mono; [by apply wp_PutAddr|]. intros _ c1 (Hi1 & _ & _).
  destruct (pp_Proposal p) as [proposal|] eqn:Hp; [|by apply wp_ret]. apply wp_bind, wp_Miner; [done|]. intros _.
  apply wp_bind, wp_checkMessage; [done|]. intros rs [e|] _ _; [by apply wp_ret|].
  apply wp_bind, wp_valSet; [done|]. intros vs _. apply wp_if; intros _; [by apply wp_ret|].
  apply wp_bind, wp_asking. destruct (b_Verify b proposal) as [| |e] eqn:Hver.
  - apply wp_bind. apply (wp_mono _ _ _ (fun _ => inv)); [apply wp_enter_preprepared; [done|exists proposal; auto]|].
    intros x c' Hi'. by apply wp_ret.
  - unfold stopFuturePreprepareTimer. apply wp_bind, wp_writing; [done..|]. apply wp_bind, wp_writing; [done..|].
    apply wp_ret. apply (inv_future c1); done.
  - apply wp_bind. apply (wp_mono _ _ _ (fun _ => inv)); [by apply wp_sendNextRoundChange|].
    intros x c' Hi'. by apply wp_ret.
Qed.

Lemma wp_verifyPrepare sub b c (Q : option string -> core -> Prop) :
  inv c -> (forall rs e, co_current c = Some rs -> (e = None -> rs_Subject rs = Some (Some sub)) -> Q e c) ->
  wp (verifyPrepare sub) b c Q.
Proof.
  intros Hi H. unfold verifyPrepare. apply wp_bind, wp_subject; [done|]. intros rs s Hrs Hs. apply wp_ret.
  eapply H; [done|]. case_bool_decide; congruence.
Qed.

Lemma subject_preprepare rs sub : rs_Subject rs = Some (Some sub) -> is_Some (rs_Preprepare rs).
Proof. unfold rs_Subject. destruct (rs_Preprepare rs); [by eexists|done]. Qed.

Lemma LockHash_same rs rs' :
  rs_LockHash rs = Some rs' ->
  rs_Preprepare rs' = rs_Preprepare rs /\ rs_Commits rs' = rs_Commits rs /\
  rs_round rs' = rs_round rs /\ rs_sequence rs' = rs_sequence rs.
Proof.
  unfold rs_LockHash. destruct (rs_Preprepare rs) as [p|] eqn:Hp; [|by intros [= <-]].
  destruct (pp_Proposal p); simpl; [|done]. by intros [= <-].
Qed.

Lemma wp_acceptPrepare msg b c :
  inv c -> (forall rs, co_current c = Some rs -> is_Some (rs_Preprepare rs)) ->
  wp (acceptPrepare msg) b c (fun _ c' => inv c' /\ forall rs, co_current c' = Some rs -> is_Some (rs_Preprepare rs)).
Proof.
  intros Hi Hp. unfold acceptPrepare. apply wp_bind, wp_current; [done|]. intros rs Hrs Hok.
  destruct (ms_Add msg (rs_Prepares rs)) as [ms|e|]; [|by apply wp_ret..].
  apply wp_upd_current; [done| |].
  - intros rs1 _ Hok1. split; [by apply round_ok_prepares|]. by split.
  - intros rs1 H1 Hi1. split; [done|]. intros rs2 [= <-]. simpl. by apply Hp.
Qed.

Lemma wp_handlePrepare msg src b c : inv c -> wp (handlePrepare msg src) b c (fun _ => inv).
Proof.
  intros Hi. unfold handlePrepare. destruct (DecodeSubject msg) as [sub|]; [|by apply wp_ret].
  apply wp_bind. eapply wp_mono; [by apply wp_PutAddr|]. intros _ c1 (Hi1 & _ & _).
  apply wp_bind, wp_Miner; [done|]. intros _. apply wp_bind, wp_checkMessage; [done|].
  intros _ [e|] _ _; [by apply wp_ret|]. apply wp_bind, wp_verifyPrepare; [done|].
  intros rs [e|] Hrs Hsub; [by apply wp_ret|]. specialize (Hsub eq_refl).
  assert (Hp1 : forall rs, co_current c1 = Some rs -> is_Some (rs_Preprepare rs)).
  { intros rs1 H1. assert (rs1 = rs) as -> by congruence. by eapply subject_preprepare. }
  apply wp_bind. eapply wp_mono; [by apply wp_acceptPrepare|]. intros _ c2 [Hi2 Hp2].
  apply wp_bind, wp_IsHashLocked; [done|]. intros rs2 Hrs2. apply wp_bind, wp_current; [done|]. intros rs3 _ _.
  apply wp_bind, wp_QuorumSize; [done|]. intros vs _. apply wp_bind, wp_reading, wp_bind.
  apply (wp_mono _ _ _ (fun _ => inv)); [|intros x c' Hi'; by apply wp_ret].
  apply wp_if; intros _; [|by apply wp_ret]. apply wp_bind, wp_lockHash; [done|].
  intros rs4 rs5 H4 H5 Hi5. apply wp_bind. eapply wp_mono; [apply wp_setState; [exact Hi5|done]|].
  intros _ c6 (Hi6 & (Hcur & _) & _). apply wp_sendCommit; [done|]. intros rs6. rewrite Hcur. intros [= <-].
  destruct (LockHash_same _ _ H5) as (-> & _). by apply Hp2.
Qed.

Lemma wp_acceptCommit msg sub b c :
  inv c -> co_state c <> StateAcceptRequest -> commit_by (m_Address msg) sub msg ->
  (forall rs, co_current c = Some rs -> rs_Subject rs = Some (Some sub)) -> wp (acceptCommit msg) b c (fun _ => inv).
Proof.
  intros Hi Hst Hby Hsub. unfold acceptCommit. apply wp_bind, wp_current; [done|]. intros rs Hrs Hok.
  destruct (ms_Add msg (rs_Commits rs)) as [ms|e|] eqn:Hadd; [|by apply wp_ret..].
  apply wp_upd_current; [done| |by intros].
  intros rs1 H1 Hok1. assert (rs1 = rs) as -> by congruence.
  split; [by eapply round_ok_commits; eauto|]. by split.
Qed.

Lemma wp_handleCommit msg src b c :
  inv c -> auth msg -> m_Code msg = MsgCommit -> wp (handleCommit msg src) b c (fun _ => inv).
Proof.
  intros Hi Ha Hcode. unfold handleCommit. destruct (DecodeSubject msg) as [sub|] eqn:Hdec.
  2:{ apply wp_bind, wp_currentView; [done|]. intros rs _ _. by apply wp_ret. }
  assert (Hby : commit_by (m_Address msg) sub msg).
  { split; [done|]. split; [done|]. split; [|done]. unfold DecodeSubject in Hdec. destruct (m_Msg msg); by simplify_eq. }
  apply wp_bind. eapply wp_mono; [by apply wp_PutAddr|]. intros _ c1 (Hi1 & _ & _).
  apply wp_bind, wp_Miner; [done|]. intros _. apply wp_bind, wp_checkMessage; [done|].
  intros rs0 [e|] Hrs0 Hchk; [by apply wp_ret|]. destruct (Hchk eq_refl) as (_ & _ & Hst); [done|].
  apply wp_bind, wp_verifyPrepare; [done|]. intros rs [e|] Hrs Hsub; [by apply wp_ret|]. specialize (Hsub eq_refl).
  apply wp_bind. apply (wp_mono _ _ _ (fun _ => inv)).
  { eapply wp_acceptCommit; [done|by apply Hst|done|]. intros rs1 H1. by assert (rs1 = rs) as -> by congruence. }
  intros x c2 Hi2. simpl in Hi2. apply wp_bind, wp_current; [done|]. intros rs2 Hrs2 Hok2.
  apply wp_bind, wp_QuorumSize; [done|]. intros vs Hvs. apply wp_bind, wp_reading, wp_bind.
  apply (wp_mono _ _ _ (fun _ => inv)); [|intros y c' Hi'; by apply wp_ret].
  apply wp_if; intros Hq; [|by apply wp_ret]. apply andb_true_iff in Hq as [Hq _].
  apply wp_bind, wp_lockHash; [done|]. intros rs3 rs4 H3 H4 Hi4. apply wp_commit; [done|]. simpl.
  intros rs5 p [= <-] Hp. assert (rs3 = rs2) as -> by congruence.
  destruct (LockHash_same _ _ H4) as (Epp & Ecs & Er & Es). rewrite Er, Es.
  apply (evidence_of rs2 vs); [done|by apply (inv_committee c2)|by unfold rs_Proposal in *; rewrite <- Epp|lia].
Qed.

Lemma wp_handleRoundChange msg src b c : env_ok b -> inv c -> wp (handleRoundChange msg src) b c (fun _ => inv).
Proof.
  intros Hb Hi. unfold handleRoundChange. destruct (DecodeSubject msg) as [rc|]; [|by apply wp_ret].
  apply wp_bind. eapply wp_mono; [by apply wp_PutAddr|]. intros _ c1 (Hi1 & _ & _).
  apply wp_bind, wp_checkMessage; [done|]. intros _ [e|] _ _; [by apply wp_ret|].
  apply wp_bind, wp_currentView; [done|]. intros rs Hrs _. apply wp_bind, wp_reading, wp_bind, wp_the.
  { intros Ht. destruct Hi1 as (_ & _ & _ & Hs). by destruct (Hs Ht) as (_ & _ & ?). }
  intros rcs _. destruct (rcs_Add (v_Round (s_View rc)) msg rcs) as [num rcs'] eqn:Hadd.
  apply wp_bind, wp_writing; [done..|]. assert (Hi2 : inv (set_co_roundChangeSet (Some rcs') c1)) by by apply inv_rcs.
  destruct num as [num|e|]; [|by apply wp_ret|].
  2:{ unfold rcs_Add, ms_Add in Hadd. repeat case_match; simplify_eq. }
  apply wp_bind, wp_valSet; [done|]. intros vs _. apply wp_bind, wp_QuorumSize; [done|]. intros vs' _.
  apply wp_bind, wp_reading.
  assert (Hk : forall m : handler unit, wp m b (set_co_roundChangeSet (Some rcs') c1) (fun _ => inv) ->
             wp (_ ← m; mret None) b (set_co_roundChangeSet (Some rcs') c1) (fun _ : option string => inv)).
  { intros m Hm. apply wp_bind. eapply wp_mono; [exact Hm|]. intros x c' Hi'. by apply wp_ret. }
  apply wp_if; intros _; [apply Hk; apply wp_if; intros _; [by apply wp_sendRoundChange|by apply wp_ret]|].
  apply wp_if; intros _; [by apply Hk, wp_startNewRound|]. apply wp_if; intros _; by apply wp_ret.
Qed.

Lemma wp_testBacklog msg src e b c : inv c -> auth msg -> wp (testBacklog msg src e) b c (fun _ => inv).
Proof.
  intros Hi Ha. unfold testBacklog. apply wp_bind. apply (wp_mono _ _ _ (fun _ => inv)).
  - case_bool_decide; [by apply wp_storeBacklog|by apply wp_ret].
  - intros x c' Hi'. by apply wp_ret.
Qed.

Lemma wp_handleCheckedMsg msg src b c : env_ok b -> inv c -> auth msg -> wp (handleCheckedMsg msg src) b c (fun _ => inv).
Proof.
  intros Hb Hi Ha. unfold handleCheckedMsg.
  assert (Hk : forall m : handler (option string), wp m b c (fun _ => inv) ->
             wp (err ← m; testBacklog msg src err) b c (fun _ => inv)).
  { intros m Hm. apply wp_bind. eapply wp_mono; [exact Hm|]. intros e c' Hi'. by apply wp_testBacklog. }
  apply wp_if; intros _; [by apply Hk, wp_handlePreprepare|].
  apply wp_if; intros _; [by apply Hk, wp_handlePrepare|].
  apply wp_if; intros Hc; [apply Hk, wp_handleCommit; [done|done|lia]|].
  apply wp_if; intros _; [by apply Hk, wp_handleRoundChange|by apply wp_ret].
Qed.

(** ** Events *)

(** A message that passes the check of its signature is authentic. *)
Definition payload_ok (payload : option Message) : Prop :=
  forall m, payload = Some m -> GetSignatureAddress (PayloadNoSig m) (m_Signature m) = Some (m_Address m) -> auth m.

Lemma FromPayload_auth vs payload m : payload_ok payload -> FromPayload vs payload = Ret m -> auth m.
Proof.
  intros Hok. unfold FromPayload, CheckValidatorSignature. destruct payload as [m'|]; [|done].
  destruct (GetSignatureAddress (PayloadNoSig m') (m_Signature m')) as [signer|] eqn:Hsig; [|done].
  destruct (set_GetByAddress signer vs) as [i [v|]] eqn:Hg; simpl; [|done].
  destruct (Z.eqb_spec (val_address v) (m_Address m')) as [He|]; [|done]. intros [= <-].
  apply Hok; [done|]. apply GetByAddress_index in Hg as (_ & _ & Hv). congruence.
Qed.

Definition event_ok (ev : event) : Prop :=
  match ev with
  | MessageEvent _ payload => payload_ok payload
  | backlogEvent _ m => auth m
  | _ => True
  end.

Lemma wp_checkMsgSeq payload b c : inv c -> wp (checkMsgSeq payload) b c (fun _ => inv).
Proof.
  intros Hi. unfold checkMsgSeq. apply wp_bind, wp_valSet; [done|]. intros vs _.
  assert (Hput : forall h a, wp (_ ← PutAddr h a; mret None) b c (fun _ : option string => inv)).
  { intros h a. apply wp_bind. eapply wp_mono; [by apply wp_PutAddr|]. intros _ c' (Hi' & _). by apply wp_ret. }
  destruct (FromPayload vs payload) as [msg|e|] eqn:Hf; [|by apply wp_ret|].
  2:{ unfold FromPayload, CheckValidatorSignature in Hf. repeat (case_match; simplify_eq/=). }
  apply wp_if; intros _; [|apply wp_if; intros _; [|by apply wp_ret]].
  - unfold simpleCheckPreprepare. destruct (DecodePreprepare msg) as [p|] eqn:Hd; [|by apply wp_ret].
    apply wp_bind, wp_the.
    { intros _. unfold DecodePreprepare in Hd. repeat case_match; by simplify_eq. }
    intros prop _. apply wp_bind, wp_asking. apply wp_if; intros _; [by apply wp_ret|apply Hput].
  - unfold simpleCheckSubject. destruct (DecodeSubject msg); [|by apply wp_ret].
    apply wp_bind, wp_asking. apply wp_if; intros _; [by apply wp_ret|apply Hput].
Qed.

Lemma wp_handleMsg payload b c : env_ok b -> inv c -> payload_ok payload -> wp (handleMsg payload) b c (fun _ => inv).
Proof.
  intros Hb Hi Hp. unfold handleMsg. apply wp_bind, wp_valSet; [done|]. intros vs _.
  destruct (FromPayload vs payload) as [msg|e|] eqn:Hf; [|by apply wp_ret|].
  - destruct (snd (set_GetByAddress (m_Address msg) vs)); [|by apply wp_ret].
    apply wp_handleCheckedMsg; [done|done|]. by eapply FromPayload_auth.
  - unfold FromPayload, CheckValidatorSignature in Hf. repeat (case_match; simplify_eq/=).
Qed.

Lemma wp_handleTimeoutMsg b c : env_ok b -> inv c -> wp handleTimeoutMsg b c (fun _ => inv).
Proof.
  intros Hb Hi. unfold handleTimeoutMsg. apply wp_bind, wp_reading, wp_bind. apply (wp_mono _ _ _ (fun _ => inv)).
  - apply wp_if; intros _; [|by apply wp_ret]. apply wp_bind, wp_valSet; [done|]. intros vs _.
    apply wp_bind, wp_reading, wp_bind, wp_the.
    { intros Ht. destruct Hi as (_ & _ & _ & Hs). by destruct (Hs Ht) as (_ & _ & ?). }
    intros rcs _. destruct (rcs_MaxRound _ _); [|by apply wp_ret]. apply wp_bind, wp_current; [done|]. intros rs _ _.
    apply wp_if; intros _; [|by apply wp_ret]. apply wp_bind. eapply wp_mono; [by apply wp_sendRoundChange|].
    intros x c' Hi'. by apply wp_ret.
  - intros caught c1 Hi1. apply wp_if; intros _; [by apply wp_ret|]. apply wp_bind, wp_asking.
    destruct (b_LastProposal b) as [[last|] lp]; simpl; [|by apply wp_sendNextRoundChange].
    apply wp_bind, wp_current; [done|]. intros rs _ _.
    apply wp_if; intros _; [by apply wp_startNewRound|by apply wp_sendNextRoundChange].
Qed.

Lemma wp_handleEvent ev b c : env_ok b -> inv c -> event_ok ev -> wp (handleEvent ev) b c (fun _ => inv).
Proof.
  intros Hb Hi He. unfold handleEvent. apply wp_bind, wp_reading.
  assert (Hg : forall (m : handler (option string)) code payload, wp m b c (fun _ => inv) ->
     wp (err ← m; match err with None => acting (Gossip code payload) | Some _ => mret tt end) b c (fun _ => inv)).
  { intros m code payload Hm. apply wp_bind. eapply wp_mono; [exact Hm|]. intros [e|] c' Hi'; [by apply wp_ret|].
    by apply wp_acting. }
  destruct ev as [proposal|code payload|src msg| |]; destruct (co_valSet c) as [vs|];
    try (by apply wp_ret); try (by apply wp_handleTimeoutMsg).
  - apply wp_bind. eapply wp_mono; [by apply wp_handleRequest|]. intros e c' [Hi' Hr].
    case_bool_decide as Hfut; [|by apply wp_ret]. unfold storeRequestMsg. apply wp_bind, wp_the; [by intros _; apply Hr|].
    intros p _. apply wp_writing; done.
  - apply wp_bind, wp_reading. apply Hg. apply wp_if; intros _; [by apply wp_checkMsgSeq|by apply wp_handleMsg].
  - apply Hg. by apply wp_handleCheckedMsg.
  - unfold handleFinalCommitted. apply wp_bind, wp_currentView; [done|]. intros rs _ _. apply wp_bind, wp_asking. apply wp_if; intros _; by apply wp_startNewRound.
  - unfold handleFinalCommitted. apply wp_bind, wp_currentView; [done|]. intros rs _ _. apply wp_bind, wp_asking. apply wp_if; intros _; by apply wp_startNewRound.
Qed.

Lemma wp_Start timeout addr b : env_ok b -> wp Start b (NewCore timeout addr) (fun _ => inv).
Proof.
  intros Hb. apply wp_startNewRound_weak; [done|]. split; [done|]. split; [done|]. split; [|by left].
  intros a q H. simpl in H. by rewrite (lookup_empty (M := gmap Address)) in H.
Qed.

End Inv.
