(* ===== verification/IbftNetwork.v ===== *)
(** Agreement of the consensus protocol.

    A network of honest nodes that run [consensus/istanbul/ibft/core], and of validators
    that may do anything.  An honest node is started once; it then handles events in any
    order: requests, time-outs, notices of a final block, messages it posted to itself,
    and messages from anyone, as long as nobody forges the signature of an honest node.
    Messages are lost, duplicated and reordered at will.  Every honest node gets the
    committee of a height from its chain, the same one up to the order.

    The outcome is agreement: if any two quorums of the committee share an honest node,
    two honest nodes never commit different blocks at one height, whatever the rounds. *)
From stdpp Require Import strings.
From S2P Require Import Prelude KeyedList Common Rewards ValidatorSet IbftTypes Ibft IbftInv.

Open Scope Z_scope.

(** ** The network *)

Record net : Type := mkNet {
  n_nodes : gmap Address core;
  n_sent : list Message;
  n_posted : list (Address * event);
  n_log : list (Address * View * Proposal);
}.

Definition empty_net : net := mkNet ∅ [] [] [].

Definition broadcasts (acts : list action) : list Message :=
  omap (fun a => match a with Broadcast m => Some m | _ => None end) acts.
Definition posts (acts : list action) : list event :=
  omap (fun a => match a with Post ev => Some ev | _ => None end) acts.
Definition commits (acts : list action) : list (View * Proposal) :=
  omap (fun a => match a with CommitBlock v p _ => Some (v, p) | _ => None end) acts.

(** The network after the node [a] has come to the state [c] by some actions. *)
Definition after (a : Address) (c : core) (acts : list action) (n : net) : net :=
  mkNet (<[a := c]> (n_nodes n)) (n_sent n ++ broadcasts acts)
    (n_posted n ++ (pair a <$> posts acts))
    (n_log n ++ ((fun '(v, p) => (a, v, p)) <$> commits acts)).

Section Network.
  Context {SG : Signatures} {PQ : Prque}.
  (** The honest nodes, the committee of a height, and the valid blocks. *)
  Context (honest : gset Address) (com : Z -> list Address) (valid : Proposal -> Prop).

(** Somebody signed what [m] says. *)
Definition said (sent : list Message) (m : Message) : Prop :=
  Exists (fun m' => PayloadNoSig m' = PayloadNoSig m) sent.

(** Nobody else can sign for an honest node. *)
Definition unforged (sent : list Message) (payload : option Message) : Prop :=
  forall m a, payload = Some m -> GetSignatureAddress (PayloadNoSig m) (m_Signature m) = Some a ->
    a ∈ honest -> said sent m.

Definition deliverable (n : net) (a : Address) (ev : event) : Prop :=
  match ev with
  | MessageEvent _ payload => unforged (n_sent n) payload
  | backlogEvent _ _ => (a, ev) ∈ n_posted n
  | _ => True
  end.

(** The chain of a node knows the committee and the valid blocks. *)
Definition chain_ok (b : Backend) : Prop :=
  (forall p vs, b_Validators b p = Some vs -> set_ListAll vs ≡ₚ com (p_Number p + 1)) /\
  (forall p, b_Verify b p = VerifyOk -> valid p).

Inductive net_step : net -> net -> Prop :=
| step_start n a timeout b c acts :
    a ∈ honest -> n_nodes n !! a = None -> chain_ok b ->
    Start b (NewCore timeout a) = Some (tt, c, acts) -> net_step n (after a c acts n)
| step_event n a ev b c c' acts :
    n_nodes n !! a = Some c -> chain_ok b -> deliverable n a ev ->
    handleEvent ev b c = Some (tt, c', acts) -> net_step n (after a c' acts n)
| step_timer n a c ev :
    n_nodes n !! a = Some c -> co_futurePreprepareTimer c = Some ev ->
    net_step n (mkNet (n_nodes n) (n_sent n) (n_posted n ++ [(a, ev)]) (n_log n)).

Definition reachable : net -> Prop := rtc net_step empty_net.

(** ** The invariant *)

Definition auth (sent : list Message) (m : Message) : Prop := m_Address m ∈ honest -> said sent m.

Definition committee (l : list Address) (n : Z) : Prop := l ≡ₚ com n.

Notation node_inv sent := (inv committee valid false (auth sent)).
Notation proof sent := (evidence committee (auth sent)).

(** The heights of the COMMITs of [a]. *)
Definition heights (a : Address) (sent : list Message) : list Z :=
  omap (fun m => if m_Address m =? a then commit_height (Broadcast m) else None) sent.

Definition net_ok (n : net) : Prop :=
  (forall a c, n_nodes n !! a = Some c ->
     a ∈ honest /\ co_address c = a /\ node_inv (n_sent n) c /\ ladder 0 (heights a (n_sent n)) (co_commitHeight c)) /\
  (forall a, a ∈ honest -> n_nodes n !! a = None -> heights a (n_sent n) = []) /\
  (forall a src m, (a, backlogEvent src m) ∈ n_posted n -> auth (n_sent n) m) /\
  (forall a v p, (a, v, p) ∈ n_log n -> proof (n_sent n) v p /\ valid p).

Lemma auth_app sent new m : auth sent m -> auth (sent ++ new) m.
Proof. intros H Hm. apply Exists_app. left. by apply H. Qed.

Lemma proof_app sent new v p : proof sent v p -> proof (sent ++ new) v p.
Proof.
  intros (ms & l & l' & Hl & Hl' & Hq & H). exists ms, l, l'. split; [done|]. split; [done|]. split; [done|].
  intros a m Hm. destruct (H a m Hm) as (Hin & H1 & H2 & H3 & H4). do 4 (split; [done|]). by apply auth_app.
Qed.

Lemma inv_app sent new c : node_inv sent c -> node_inv (sent ++ new) c.
Proof.
  intros (Hc & Hf & Hb & _). split; [|split; [|split; [|done]]].
  - unfold cur_ok in *. destruct (co_current c); [|done]. destruct Hc as ((H1 & H2 & H3 & H4 & H5) & Hrest).
    split; [|done]. do 4 (split; [done|]). intros a m Hm.
    destruct (H5 a m Hm) as (Hin & sub & Hsub & Ha & Hc & Hs & Hauth).
    split; [done|]. exists sub. do 4 (split; [done|]). by apply auth_app.
  - unfold future_ok in *. repeat case_match; try done. by apply auth_app.
  - intros a q Hq. eapply Forall_impl; [by eapply Hb|]. intros [m prio] Hm. by apply auth_app.
Qed.

Lemma heights_app a l l' : heights a (l ++ l') = heights a l ++ heights a l'.
Proof. apply omap_app. Qed.

Lemma heights_own P a acts : Forall (act_ok committee valid P a) acts -> heights a (broadcasts acts) = commit_heights acts.
Proof.
  induction 1 as [|x acts Hx Hacts IH]; [done|]. destruct x; simpl; try done. destruct Hx as [Ha _].
  by rewrite IH, (proj2 (Z.eqb_eq _ _) Ha).
Qed.

Lemma heights_other P a b acts : Forall (act_ok committee valid P a) acts -> b <> a -> heights b (broadcasts acts) = [].
Proof.
  intros H Hne. induction H as [|x acts Hx Hacts IH]; [done|]. destruct x; simpl; try done. destruct Hx as [Ha _].
  rewrite IH, Ha. by destruct (Z.eqb_spec a b).
Qed.

Lemma net_ok_after n a c0 c acts :
  net_ok n -> a ∈ honest -> co_address c0 = a -> ladder 0 (heights a (n_sent n)) (co_commitHeight c0) ->
  node_inv (n_sent n) c -> sends committee valid (auth (n_sent n)) c0 acts c -> net_ok (after a c acts n).
Proof.
  intros (H1 & H2 & H3 & H4) Ha <- Hl Hi (Ea & Hacts & Hok). split; [|split; [|split]]; simpl.
  - intros b cb Hb. rewrite heights_app. apply lookup_insert_Some in Hb as [[<- <-]|[Hne Hb]].
    + do 2 (split; [done|]). split; [by apply inv_app|]. erewrite heights_own by exact Hok. by eapply ladder_app.
    + destruct (H1 b cb Hb) as (Hh & Eb & Hib & Hlb). do 2 (split; [done|]). split; [by apply inv_app|].
      erewrite heights_other by (exact Hok || done). by rewrite app_nil_r.
  - intros b Hb Hnone. apply lookup_insert_None in Hnone as [Hnone Hne]. rewrite heights_app, H2 by done.
    by erewrite heights_other by (exact Hok || done).
  - intros b src m Hm. apply elem_of_app in Hm as [Hm|Hm]; apply auth_app; [by eapply H3|].
    apply list_elem_of_fmap in Hm as (ev & [= -> <-] & Hev). apply list_elem_of_omap in Hev as (x & Hx & Ex).
    rewrite Forall_forall in Hok. specialize (Hok x Hx). destruct x; simplify_eq. exact Hok.
  - intros b v p Hp. apply elem_of_app in Hp as [Hp|Hp].
    { destruct (H4 b v p Hp). split; [by apply proof_app|done]. }
    apply list_elem_of_fmap in Hp as ([v' p'] & [= -> -> ->] & Hev). apply list_elem_of_omap in Hev as (x & Hx & Ex).
    rewrite Forall_forall in Hok. specialize (Hok x Hx). destruct x; simplify_eq.
    destruct Hok. split; [by apply proof_app|done].
Qed.

Lemma deliverable_ok n a ev : net_ok n -> deliverable n a ev -> event_ok (auth (n_sent n)) ev.
Proof.
  intros (_ & _ & H3 & _) Hd. destruct ev; try done; simpl in *.
  - intros m -> Hsig Hm. by eapply Hd.
  - by eapply H3.
Qed.

Lemma chain_env b : chain_ok b -> env_ok committee valid false b.
Proof. intros [H H']. by split. Qed.

Lemma net_step_ok n n' : net_ok n -> net_step n n' -> net_ok n'.
Proof.
  intros Hn Hs. pose proof Hn as (H1 & H2 & H3 & H4). destruct Hs as [n a timeout b c acts Ha Hno Hb Hrun
    |n a ev b c c' acts Hc Hb Hd Hrun|n a c ev Hc Hev].
  - pose proof (wp_Start committee valid false (auth (n_sent n)) timeout a b (chain_env b Hb)) as Hwp.
    unfold wp in Hwp. rewrite Hrun in Hwp. destruct Hwp as [Hi Hsends].
    eapply net_ok_after; [done|done| | |done|done]; [done|]. by rewrite H2.
  - destruct (H1 a c Hc) as (Ha & Ea & Hi & Hl).
    pose proof (wp_handleEvent committee valid false _ ev b c (chain_env b Hb) Hi (deliverable_ok n a ev Hn Hd)) as Hwp.
    unfold wp in Hwp. rewrite Hrun in Hwp. destruct Hwp as [Hi' Hsends]. by eapply net_ok_after.
  - destruct (H1 a c Hc) as (_ & _ & (_ & Hf & _) & _). split; [done|]. split; [done|]. split; [|done].
    simpl. intros b src m Hm. apply elem_of_app in Hm as [Hm|Hm]; [by eapply H3|].
    apply list_elem_of_singleton in Hm as [= -> <-]. unfold future_ok in Hf. by rewrite Hev in Hf.
Qed.

Lemma reachable_ok n : reachable n -> net_ok n.
Proof.
  intros H. unfold reachable in H. remember empty_net as n0 eqn:E.
  assert (H0 : net_ok n0).
  { subst. split; [intros a c Hc; simpl in Hc; by rewrite lookup_empty in Hc|]. split; [done|].
    split; [intros a src m Hm|intros a v p Hp]; by apply not_elem_of_nil in Hm || apply not_elem_of_nil in Hp. }
  clear E. induction H as [|n1 n2 n3 Hs _ IH]; [done|]. apply IH. by eapply net_step_ok.
Qed.

(** ** One COMMIT per height *)

Lemma omap_inj {A B : Type} (f : A -> option B) (l : list A) x y k :
  NoDup (omap f l) -> x ∈ l -> y ∈ l -> f x = Some k -> f y = Some k -> x = y.
Proof.
  intros Hnd Hx Hy Ex Ey. induction l as [|z l IH]; [by apply not_elem_of_nil in Hx|].
  assert (Hk : forall w, w ∈ l -> f w = Some k -> k ∈ omap f l) by (intros w ? ?; apply list_elem_of_omap; by exists w).
  simpl in Hnd. apply elem_of_cons in Hx as [->|Hx], Hy as [->|Hy]; [done| | |].
  1,2: rewrite ?Ex, ?Ey in Hnd; apply NoDup_cons in Hnd as [[] _]; eauto.
  apply IH; [|done..]. destruct (f z); [by apply NoDup_cons in Hnd as [_ ?]|done].
Qed.

Lemma heights_NoDup n a : net_ok n -> a ∈ honest -> NoDup (heights a (n_sent n)).
Proof.
  intros (H1 & H2 & _) Ha. destruct (n_nodes n !! a) as [c|] eqn:Hc; [|rewrite H2 by done; constructor].
  destruct (H1 a c Hc) as (_ & _ & _ & Hl). by eapply ladder_NoDup.
Qed.

Lemma commit_by_said sent a sub m :
  commit_by (auth sent) a sub m -> a ∈ honest ->
  exists m', m' ∈ sent /\ m_Address m' = a /\ m_Code m' = MsgCommit /\ m_Msg m' = EncSubject sub.
Proof.
  intros (Ea & Ec & Es & Hs) Ha. destruct (proj1 (Exists_exists _ _) (Hs ltac:(congruence))) as (m' & Hm' & E).
  exists m'. injection E as E1 E2 E3 E4. split; [done|]. by rewrite E1, E2, E3.
Qed.

(** The COMMITs of an honest node for one height are for one subject. *)
Lemma commit_subject n a sub1 sub2 m1 m2 :
  net_ok n -> a ∈ honest -> commit_by (auth (n_sent n)) a sub1 m1 -> commit_by (auth (n_sent n)) a sub2 m2 ->
  u64 (v_Sequence (s_View sub1)) = u64 (v_Sequence (s_View sub2)) -> sub1 = sub2.
Proof.
  intros Hn Ha H1 H2 E. destruct (commit_by_said _ _ _ _ H1 Ha) as (x & Hx & Ax & Cx & Mx).
  destruct (commit_by_said _ _ _ _ H2 Ha) as (y & Hy & Ay & Cy & My).
  assert (x = y); [|congruence].
  eapply (omap_inj _ (n_sent n)); [by apply (heights_NoDup n a)|done|done| |];
    simpl; rewrite ?Ax, ?Ay, Z.eqb_refl, ?Cx, ?Cy, ?Mx, ?My; simpl; by rewrite ?E.
Qed.

(** ** Agreement *)

(** The members of the committee that may do anything. *)
Definition faulty (n : Z) : gset Address := list_to_set (com n) ∖ honest.

(** Two quorums share an honest member. *)
Lemma quorum_overlap (C H D1 D2 : gset Address) (N q : Z) :
  Z.of_nat (size C) <= N -> D1 ⊆ C -> D2 ⊆ C -> q <= Z.of_nat (size D1) -> q <= Z.of_nat (size D2) ->
  N + Z.of_nat (size (C ∖ H)) < 2 * q -> exists a, a ∈ D1 /\ a ∈ D2 /\ a ∈ H.
Proof.
  intros HC H1 H2 Hq1 Hq2 Hlt. destruct (set_choose_or_empty (D2 ∩ D1 ∩ H)) as [[a Ha]|Hempty].
  { exists a. set_solver. }
  assert (Hsub : (size (D2 ∩ D1) <= size (C ∖ H))%nat) by (apply subseteq_size; set_solver).
  assert (HU : (size (D1 ∪ D2) <= size C)%nat) by (apply subseteq_size; set_solver).
  assert ((size (D2 ∩ D1) <= size D2)%nat) by (apply subseteq_size; set_solver).
  pose proof (size_union_alt D1 D2). pose proof (size_difference_alt D2 D1). lia.
Qed.

Lemma size_list_to_set (l : list Address) : (size (list_to_set l : gset Address) <= length l)%nat.
Proof.
  induction l as [|x l IH]; [by rewrite list_to_set_nil, size_empty|]. rewrite list_to_set_cons.
  pose proof (size_union_alt ({[x]} : gset Address) (list_to_set l)) as E.
  assert ((size ((list_to_set l : gset Address) ∖ {[x]}) <= size (list_to_set l : gset Address))%nat)
    by (apply subseteq_size; set_solver).
  rewrite size_singleton in E. simpl. lia.
Qed.

Lemma proof_members sent v p :
  proof sent v p -> exists D : gset Address,
    D ⊆ list_to_set (com (v_Sequence v)) /\
    quorum_of (Z.of_nat (length (com (v_Sequence v)))) <= Z.of_nat (size D) /\
    forall a, a ∈ D -> exists m, commit_by (auth sent) a (mkSubject v (p_Hash p)) m.
Proof.
  intros (ms & l & l' & Hl & Hl' & Hq & H). exists (dom ms). split; [|split].
  - intros a [m Hm]%elem_of_dom. apply elem_of_list_to_set. unfold committee in Hl'. rewrite <- Hl'. by eapply H.
  - unfold committee in Hl. rewrite <- Hl. by rewrite size_dom.
  - intros a [m Hm]%elem_of_dom. exists m. by apply H.
Qed.

(** C2. Agreement: in a network where the committee is so large, compared with the number
    of its faulty members, that two quorums overlap in an honest node, two blocks that
    honest nodes commit at the same height have the same hash, even when they are
    committed in different rounds. *)
Theorem agreement n a1 v1 p1 a2 v2 p2 :
  reachable n -> (a1, v1, p1) ∈ n_log n -> (a2, v2, p2) ∈ n_log n -> v_Sequence v1 = v_Sequence v2 ->
  Z.of_nat (length (com (v_Sequence v1))) + Z.of_nat (size (faulty (v_Sequence v1)))
    < 2 * quorum_of (Z.of_nat (length (com (v_Sequence v1)))) ->
  p_Hash p1 = p_Hash p2.
Proof.
  intros Hr H1 H2 E Hlt. pose proof (reachable_ok n Hr) as Hn. pose proof Hn as (_ & _ & _ & Hlog).
  destruct (proof_members _ _ _ (proj1 (Hlog _ _ _ H1))) as (D1 & Hs1 & Hq1 & Hc1).
  destruct (proof_members _ _ _ (proj1 (Hlog _ _ _ H2))) as (D2 & Hs2 & Hq2 & Hc2). rewrite <- E in Hs2, Hq2.
  destruct (quorum_overlap _ honest D1 D2 _ _ (inj_le _ _ (size_list_to_set _)) Hs1 Hs2 Hq1 Hq2 Hlt)
    as (a & Ha1 & Ha2 & Ha).
  destruct (Hc1 a Ha1) as [m1 Hm1], (Hc2 a Ha2) as [m2 Hm2].
  assert (Hsub := commit_subject n a _ _ m1 m2 Hn Ha Hm1 Hm2 ltac:(simpl; by rewrite E)). by injection Hsub.
Qed.

(** C28. Validity: a block that an honest node commits passed the verification of an
    honest node: it has every property that the blocks have whose verification the
    chains of honest nodes report as passed. *)
Theorem validity n a v p : reachable n -> (a, v, p) ∈ n_log n -> valid p.
Proof. intros Hr Hp. destruct (reachable_ok n Hr) as (_ & _ & _ & Hlog). by apply (Hlog a v p). Qed.

(** An honest node broadcasts at most one COMMIT per height, over all rounds: two of
    its COMMITs for one height are the same message. *)
Theorem commit_once n m1 m2 s1 s2 :
  reachable n -> m1 ∈ n_sent n -> m2 ∈ n_sent n -> m_Address m1 ∈ honest -> m_Address m1 = m_Address m2 ->
  m_Code m1 = MsgCommit -> m_Code m2 = MsgCommit -> m_Msg m1 = EncSubject s1 -> m_Msg m2 = EncSubject s2 ->
  u64 (v_Sequence (s_View s1)) = u64 (v_Sequence (s_View s2)) -> m1 = m2.
Proof.
  intros Hr H1 H2 Ha E C1 C2 M1 M2 Es. pose proof (reachable_ok n Hr) as Hn.
  eapply (omap_inj _ (n_sent n)); [by apply (heights_NoDup n (m_Address m1))|done|done| |];
    simpl; rewrite <- ?E, Z.eqb_refl, ?C1, ?C2, ?M1, ?M2; simpl; by rewrite ?Es.
Qed.

(** C29. When so many honest members have sent a COMMIT for a view that the others are short
    of a quorum, the height can be decided in that view only: no node commits a block at
    this height in another round, however many rounds follow. *)
Theorem decided_in_one_round n (S : gset Address) v a v' p :
  reachable n -> S ⊆ list_to_set (com (v_Sequence v)) -> S ⊆ honest ->
  (forall b, b ∈ S -> exists m d, m ∈ n_sent n /\ m_Address m = b /\ m_Code m = MsgCommit /\
                                  m_Msg m = EncSubject (mkSubject v d)) ->
  Z.of_nat (length (com (v_Sequence v))) - Z.of_nat (size S) < quorum_of (Z.of_nat (length (com (v_Sequence v)))) ->
  (a, v', p) ∈ n_log n -> v_Sequence v' = v_Sequence v -> v' = v.
Proof.
  intros Hr HS Hh Hsent Hlt Hlog E. pose proof (reachable_ok n Hr) as Hn. pose proof Hn as (_ & _ & _ & Hl).
  destruct (proof_members _ _ _ (proj1 (Hl _ _ _ Hlog))) as (D & HD & Hq & Hc). rewrite E in HD, Hq.
  destruct (set_choose_or_empty (D ∩ S)) as [[b Hb]|Hempty].
  - apply elem_of_intersection in Hb as [HbD HbS]. destruct (Hc b HbD) as [m Hm].
    destruct (Hsent b HbS) as (m' & d & Hin & Ha & Hcode & Hmsg).
    assert (Hm' : commit_by (auth (n_sent n)) b (mkSubject v d) m').
    { split; [done|]. split; [done|]. split; [done|]. intros _. apply Exists_exists. by exists m'. }
    assert (Hsub := commit_subject n b _ _ m m' Hn (Hh b HbS) Hm Hm' ltac:(simpl; by rewrite E)). by injection Hsub.
  - assert (HU : (size (D ∪ S) <= size (list_to_set (com (v_Sequence v)) : gset Address))%nat)
      by (apply subseteq_size; set_solver).
    rewrite size_union in HU by set_solver. pose proof (size_list_to_set (com (v_Sequence v))). lia.
Qed.

End Network.

(** ** A node on its own *)

Section Node.
  Context {SG : Signatures} {PQ : Prque}.

(** The loop of [handleEvents] on some events, each with what the chain answers then. *)
Fixpoint handleEvents (l : list (Backend * event)) (c : core) : option (core * list action) :=
  match l with
  | [] => Some (c, [])
  | (b, ev) :: l =>
      '(_, c, acts) ← handleEvent ev b c;
      '(c, acts') ← handleEvents l c;
      Some (c, acts ++ acts')
  end.

(** The chain has a last block and a committee after every block. *)
Definition answers (b : Backend) : Prop :=
  is_Some (fst (b_LastProposal b)) /\ forall p, exists vs, b_Validators b p = Some vs /\ 0 < set_Size vs.

Notation any_inv := (inv (fun _ _ => True) (fun _ => True) true (fun _ => True)).

Lemma answers_env b : answers b -> env_ok (fun _ _ => True) (fun _ => True) true b.
Proof. intros H. by split. Qed.

Lemma handleEvents_total l c : any_inv c -> Forall (fun '(b, _) => answers b) l -> is_Some (handleEvents l c).
Proof.
  intros Hi Hl. revert c Hi. induction Hl as [|[b ev] l Hb Hl IH]; intros c Hi; simpl; [done|].
  assert (Hev : event_ok (fun _ => True) ev) by (destruct ev; done).
  pose proof (wp_handleEvent _ _ true _ ev b c (answers_env b Hb) Hi Hev) as Hwp. unfold wp in Hwp.
  destruct (handleEvent ev b c) as [[[x c'] acts]|]; [|done]. destruct Hwp as [Hi' _]. simpl.
  destruct (IH c' Hi') as [[c2 acts2] ->]. done.
Qed.

(** C27. No sequence of events, with messages of any content from anyone, makes a node
    panic, as long as its chain answers: it starts and handles them all. *)
Theorem node_never_panics timeout address b l :
  answers b -> Forall (fun '(b, _) => answers b) l ->
  exists c acts, Start b (NewCore timeout address) = Some (tt, c, acts) /\ is_Some (handleEvents l c).
Proof.
  intros Hb Hl. pose proof (wp_Start _ _ true (fun _ => True) timeout address b (answers_env b Hb)) as Hwp. unfold wp in Hwp.
  destruct (Start b (NewCore timeout address)) as [[[[] c] acts]|]; [|done]. destruct Hwp as [Hi _].
  exists c, acts. split; [done|]. by apply (handleEvents_total l c Hi).
Qed.

End Node.
