(* ===== verification/IbftExamples.v ===== *)
(** Runs of the consensus protocol: networks computed step by step, among them one in
    which two honest nodes commit different blocks, and nodes that panic or forget. *)
From stdpp Require Import strings.
From S2P Require Import Prelude KeyedList Common Rewards Selection ValidatorSet IbftTypes Ibft IbftInv IbftNetwork.

Open Scope Z_scope.

(** ** A package for the queues, and signatures *)

(** The position of the first highest priority. *)
Fixpoint first_max (l : list Z) : option (nat * Z) :=
  match l with
  | [] => None
  | x :: l =>
      match first_max l with
      | Some (i, y) => if x <? y then Some (S i, y) else Some (O, x)
      | None => Some (O, x)
      end
  end.

Lemma first_max_spec l i x : first_max l = Some (i, x) -> l !! i = Some x /\ forall y, y ∈ l -> y <= x.
Proof.
  revert i x. induction l as [|z l IH]; intros i x; simpl; [done|].
  destruct (first_max l) as [[j y]|] eqn:Hf.
  - destruct (IH j y eq_refl) as [Hj Hy]. destruct (Z.ltb_spec z y); intros [= <- <-]; (split; [done|]);
      intros w [->|Hw]%elem_of_cons; try lia; apply Hy in Hw; lia.
  - intros [= <- <-]. split; [done|]. destruct l; [|simpl in Hf; by repeat case_match].
    intros w Hw. apply list_elem_of_singleton in Hw. lia.
Qed.

Definition first_max_index (l : list Z) : nat := match first_max l with Some (i, _) => i | None => O end.

Lemma first_max_index_lookup l : l <> [] -> exists p, l !! first_max_index l = Some p /\ forall q, q ∈ l -> q <= p.
Proof.
  intros Hl. unfold first_max_index. destruct (first_max l) as [[i x]|] eqn:Hf; [exists x; by apply first_max_spec|].
  destruct l; [done|]. simpl in Hf. by repeat case_match.
Qed.

#[export] Instance examplePrque : Prque :=
  {| prque_top := first_max_index; prque_top_lookup := first_max_index_lookup |}.

(** A signature is the name of the signer. *)
#[export] Instance exampleSignatures : Signatures :=
  {| GetSignatureAddress data sig := match sig with [a] => Some a | _ => None end |}.

#[export] Instance signed_eq_dec : EqDecision signed.
Proof. solve_decision. Defined.

(** ** Running a network *)

(** Start a node, give it an event, or relay to it the message of a kind from a node. *)
Inductive move : Type :=
| Begin (a : Address)
| Give (a : Address) (ev : event)
| Relay (a from code : Z).

Section Run.
  Context (honest : gset Address) (com : Z -> list Address) (valid : Proposal -> Prop) (chain : Address -> Backend).
  Context (Hchain : forall a, chain_ok com valid (chain a)).

Definition unforgedb (sent : list Message) (payload : option Message) : bool :=
  match payload with
  | None => true
  | Some m =>
      match GetSignatureAddress (PayloadNoSig m) (m_Signature m) with
      | Some a => bool_decide (a ∉ honest) || bool_decide (Exists (fun m' => PayloadNoSig m' = PayloadNoSig m) sent)
      | None => true
      end
  end.

Definition give (a : Address) (ev : event) (n : net) : option net :=
  c ← n_nodes n !! a;
  if match ev with MessageEvent _ payload => unforgedb (n_sent n) payload | backlogEvent _ _ => false | _ => true end
  then '(_, c, acts) ← handleEvent ev (chain a) c; Some (after a c acts n)
  else None.

Definition run_move (mv : move) (n : net) : option net :=
  match mv with
  | Begin a =>
      if bool_decide (a ∈ honest) && bool_decide (n_nodes n !! a = None)
      then '(_, c, acts) ← Start (chain a) (NewCore 1000 a); Some (after a c acts n)
      else None
  | Give a ev => give a ev n
  | Relay a from code =>
      m ← head (filter (fun m => m_Address m = from /\ m_Code m = code) (n_sent n));
      give a (MessageEvent code (Some m)) n
  end.

Definition run (l : list move) : option net := foldl (fun n mv => n ≫= run_move mv) (Some empty_net) l.

Lemma unforgedb_spec sent payload : unforgedb sent payload = true -> unforged honest sent payload.
Proof.
  unfold unforgedb. intros H m a -> Hs Ha. rewrite Hs in H. apply orb_true_iff in H as [H|H].
  - by apply bool_decide_eq_true in H.
  - by apply bool_decide_eq_true in H.
Qed.

Lemma give_step a ev n n' : give a ev n = Some n' -> net_step honest com valid n n'.
Proof using Hchain.
  unfold give. destruct (n_nodes n !! a) as [c|] eqn:Hc; [|done]. simpl. intros H.
  destruct (match ev with MessageEvent _ payload => unforgedb (n_sent n) payload | backlogEvent _ _ => false | _ => true end)
    eqn:Hd; [|done].
  destruct (handleEvent ev (chain a) c) as [[[[] c'] acts]|] eqn:Hrun; simplify_eq/=.
  eapply step_event; [done|apply Hchain| |done]. destruct ev; try done. by apply unforgedb_spec.
Qed.

Lemma run_move_step mv n n' : run_move mv n = Some n' -> net_step honest com valid n n'.
Proof using Hchain.
  destruct mv as [a|a ev|a from code]; simpl; [|by apply give_step|].
  - destruct (bool_decide (a ∈ honest) && bool_decide (n_nodes n !! a = None)) eqn:Hg; [|done].
    apply andb_true_iff in Hg as [H1%bool_decide_eq_true H2%bool_decide_eq_true].
    destruct (Start (chain a) (NewCore 1000 a)) as [[[[] c] acts]|] eqn:Hrun; intros; simplify_eq/=.
    by eapply step_start.
  - destruct (head _); [|done]. apply give_step.
Qed.

Lemma run_reachable l n : run l = Some n -> reachable honest com valid n.
Proof using Hchain.
  unfold run, reachable. generalize empty_net as n0. induction l as [|mv l IH]; simpl; intros n0 H.
  - injection H as <-. constructor.
  - destruct (run_move mv n0) as [n1|] eqn:Hm; simpl in H.
    + econstructor; [by eapply run_move_step|]. by apply IH.
    + clear -H. exfalso. induction l; simpl in H; [done|auto].
Qed.

End Run.

(** ** Chains *)

(** A chain at its genesis block, with a committee, on which a block may follow it. *)
Definition valid_block (p : Proposal) : Prop := p_Number p = 1.

Definition genesis_chain (members : list Address) (a : Address) : Backend :=
  mkBackend (Some (mkProposal 0 7), 0)
    (fun p => if p_Number p =? 0 then
                Some (newDefaultSet (ValidatorSortByCoefficient (CR := constCrypto 11 5)) members RoundRobin
                        (Some (fun a => a)))
              else None)
    (fun p => if p_Number p =? 1 then VerifyOk else VerifyFailed "unknown ancestor") (fun _ => false) (fun _ _ => None) 0 (fun _ => Some [a]) (fun _ => false).

Definition eleven : list Address := [1; 2; 3; 4; 5; 6; 7; 8; 9; 10; 11].
Definition four : list Address := [1; 2; 3; 4].

Definition block_A : Proposal := mkProposal 1 100.
Definition block_B : Proposal := mkProposal 1 200.
Definition first_view : View := mkView 0 1.

(** What a faulty node signs. *)
Definition lie (from code : Z) (msg : payload) : event := MessageEvent code (Some (mkMessage code msg from [from] [])).

(** Everyone in [to] gets the messages of a kind from everyone in [from]. *)
Definition exchange (to from : list Address) (code : Z) : list move :=
  a ← to; (fun b => Relay a b code) <$> from.

(** Everyone in [to] gets what everyone in [from] signs. *)
Definition lies (to from : list Address) (code : Z) (msg : payload) : list move :=
  a ← to; (fun b => Give a (lie b code msg)) <$> from.

(** A round without faults, except that one of the four members is silent. *)
Definition good_round : list move :=
  (Begin <$> [2; 3; 4]) ++ [Give 4 (RequestEvent (Some block_A))] ++ exchange [2; 3; 4] [4] MsgPreprepare
  ++ exchange [2; 3; 4] [2; 3; 4] MsgPrepare ++ exchange [2; 3; 4] [2; 3; 4] MsgCommit.

(** The proposer, 11, shows [block] to the honest nodes in [group]; it, 10 and 9 go along
    with both groups. *)
Definition mislead (group : list Address) (block : Proposal) : list move :=
  let sub := EncSubject (mkSubject first_view (p_Hash block)) in
  lies group [11] MsgPreprepare (EncPreprepare (mkPreprepare first_view (Some block)))
  ++ exchange group group MsgPrepare ++ lies group [9; 10; 11] MsgPrepare sub
  ++ exchange group group MsgCommit ++ lies group [9; 10; 11] MsgCommit sub.

Definition split_round : list move :=
  (Begin <$> [1; 2; 3; 4; 5; 6; 7; 8]) ++ mislead [1; 2; 3; 4] block_A ++ mislead [5; 6; 7; 8] block_B.

Definition good_net : net := default empty_net (run {[2; 3; 4]} (genesis_chain four) good_round).
Definition split_net : net := default empty_net (run (list_to_set [1; 2; 3; 4; 5; 6; 7; 8]) (genesis_chain eleven) split_round).

(** ** Chains and runs *)

Definition committee_of (members : list Address) (n : Z) : list Address := if n =? 1 then members else [].

Lemma genesis_chain_ok members a : chain_ok (committee_of members) valid_block (genesis_chain members a).
Proof.
  split; [|intros p; simpl; by destruct (Z.eqb_spec (p_Number p) 1)]. intros p vs. simpl. destruct (Z.eqb_spec (p_Number p) 0) as [->|]; [|done]. intros [= <-]. simpl.
  unfold set_ListAll. simpl. rewrite sort_Sort_Permutation, <- list_fmap_compose.
  by rewrite list_fmap_id.
Qed.

Lemma good_net_reachable : reachable {[2; 3; 4]} (committee_of four) valid_block good_net.
Proof.
  apply (run_reachable _ _ _ (genesis_chain four) (genesis_chain_ok four) good_round). vm_compute. reflexivity.
Qed.

Lemma split_net_reachable :
  reachable (list_to_set [1; 2; 3; 4; 5; 6; 7; 8]) (committee_of eleven) valid_block split_net.
Proof.
  apply (run_reachable _ _ _ (genesis_chain eleven) (genesis_chain_ok eleven) split_round). vm_compute. reflexivity.
Qed.

Lemma good_net_log : (2, first_view, block_A) ∈ n_log good_net /\ (3, first_view, block_A) ∈ n_log good_net.
Proof. split; apply (bool_decide_eq_true_1 _); vm_compute; reflexivity. Qed.

(** C38. A quorum of 2F + 1 is not enough for every size of the committee.  In a committee of
    eleven, F is three; when three of its members are faulty, two honest nodes can commit
    different blocks in the same round of the same height. *)
Theorem eleven_members_fork :
  exists n, reachable (list_to_set [1; 2; 3; 4; 5; 6; 7; 8]) (committee_of eleven) valid_block n /\
    (1, first_view, block_A) ∈ n_log n /\ (5, first_view, block_B) ∈ n_log n /\ p_Hash block_A <> p_Hash block_B /\
    Z.of_nat (size (faulty (list_to_set [1; 2; 3; 4; 5; 6; 7; 8]) (committee_of eleven) (v_Sequence first_view)))
      = set_F (mkSet ((fun a => mkVal a 70) <$> eleven) RoundRobin None).
Proof.
  exists split_net. split; [exact split_net_reachable|].
  split; [apply (bool_decide_eq_true_1 _); vm_compute; reflexivity|].
  split; [apply (bool_decide_eq_true_1 _); vm_compute; reflexivity|].
  split; [done|]. vm_compute. reflexivity.
Qed.

Lemma agreement_witness :
  reachable {[2; 3; 4]} (committee_of four) valid_block good_net /\ p_Hash block_A = p_Hash block_A.
Proof.
  split; [exact good_net_reachable|].
  apply (agreement {[2; 3; 4]} (committee_of four) valid_block good_net 2 first_view block_A 3 first_view block_A).
  - exact good_net_reachable.
  - apply good_net_log.
  - apply good_net_log.
  - reflexivity.
  - vm_compute. reflexivity.
Defined.

Lemma validity_witness : valid_block block_A.
Proof.
  apply (validity {[2; 3; 4]} (committee_of four) valid_block good_net 2 first_view block_A).
  - exact good_net_reachable.
  - apply good_net_log.
Defined.

Definition commit_msg : Message := mkMessage MsgCommit (EncSubject (mkSubject first_view 100)) 2 [2] [2].

Lemma commit_msg_sent : commit_msg ∈ n_sent good_net.
Proof. apply (bool_decide_eq_true_1 _). vm_compute. reflexivity. Qed.

Lemma commit_once_witness : commit_msg = commit_msg.
Proof.
  apply (commit_once {[2; 3; 4]} (committee_of four) valid_block good_net commit_msg commit_msg
           (mkSubject first_view 100) (mkSubject first_view 100));
    [exact good_net_reachable|exact commit_msg_sent|exact commit_msg_sent|..|reflexivity|reflexivity|reflexivity
    |reflexivity|reflexivity|reflexivity].
  apply (bool_decide_eq_true_1 _). vm_compute. reflexivity.
Defined.

(** ** One node *)

(** The heights and blocks that the COMMITs of a node are for. *)
Definition commit_digests (acts : list action) : list (Z * Hash) :=
  omap (fun a => match a with
                 | Broadcast m =>
                     if m_Code m =? MsgCommit
                     then match m_Msg m with EncSubject s => Some (v_Sequence (s_View s), s_Digest s) | _ => None end
                     else None
                 | _ => None
                 end) acts.

Definition started_node : core :=
  match Start (genesis_chain four 1) (NewCore 1000 1) with Some (_, c, _) => c | None => NewCore 1000 1 end.

(** The other three agree on a block in a round that [from] leads. *)
Definition voted (round from : Z) (block : Proposal) : list (Backend * event) :=
  pair (genesis_chain four 1) <$>
    lie from MsgPreprepare (EncPreprepare (mkPreprepare (mkView round 1) (Some block)))
    :: ((fun a => lie a MsgPrepare (EncSubject (mkSubject (mkView round 1) (p_Hash block)))) <$> [2; 3; 4]).

Definition change_round (round : Z) : list (Backend * event) :=
  pair (genesis_chain four 1) <$>
    ((fun a => lie a MsgRoundChange (EncSubject (mkSubject (mkView round 1) 0))) <$> [2; 3; 4]).

(** The height of the last COMMIT is lost when the node is stopped and started again: a
    node that started afresh signs a COMMIT for another block of a height for which it
    had already signed one.  Without the restart it stays silent in the later round. *)
Theorem restart_commits_again :
  exists c1 acts1 c2 acts2 c3 acts3,
    handleEvents (voted 0 4 block_A) started_node = Some (c1, acts1) /\
    commit_digests acts1 = [(1, p_Hash block_A)] /\
    handleEvents (change_round 1 ++ voted 1 3 block_B) started_node = Some (c2, acts2) /\
    commit_digests acts2 = [(1, p_Hash block_B)] /\
    handleEvents (change_round 1 ++ voted 1 3 block_A) c1 = Some (c3, acts3) /\ commit_digests acts3 = [].
Proof.
  do 6 eexists. split; [vm_compute; reflexivity|]. split; [vm_compute; reflexivity|].
  split; [vm_compute; reflexivity|]. split; [vm_compute; reflexivity|]. split; vm_compute; reflexivity.
Qed.

(** A chain with one more block, which fails to find the next committee. *)
Definition lost_chain (a : Address) : Backend :=
  mkBackend (Some block_A, 4) (fun _ => None) (fun _ => VerifyOk) (fun _ => false) (fun _ _ => None) 1 (fun _ => Some [a]) (fun _ => false).

(** A node panics at a time-out after its chain has failed to give the committee that
    follows a new block: the set is then nil, the timer of the finished round is still
    running, and the handler of the time-out asks the set for its size. *)
Theorem timeout_without_committee_panics :
  (exists c acts, handleEvents [(lost_chain 1, FinalCommittedEvent)] started_node = Some (c, acts)
     /\ co_valSet c = None /\ is_Some (co_roundChangeTimer c)) /\
  handleEvents [(lost_chain 1, FinalCommittedEvent); (lost_chain 1, timeoutEvent)] started_node = None.
Proof.
  split; [|vm_compute; reflexivity]. do 2 eexists. split; [vm_compute; reflexivity|]. split; [reflexivity|by eexists].
Qed.

Lemma decided_in_one_round_witness : first_view = first_view.
Proof.
  apply (decided_in_one_round {[2; 3; 4]} (committee_of four) valid_block good_net {[2; 3]} first_view 2 first_view block_A).
  - exact good_net_reachable.
  - apply (bool_decide_eq_true_1 _). vm_compute. reflexivity.
  - apply (bool_decide_eq_true_1 _). vm_compute. reflexivity.
  - intros b Hb. apply elem_of_union in Hb as [->%elem_of_singleton| ->%elem_of_singleton].
    + exists (mkMessage MsgCommit (EncSubject (mkSubject first_view 100)) 2 [2] [2]), 100.
      split; [apply (bool_decide_eq_true_1 _); vm_compute; reflexivity|done].
    + exists (mkMessage MsgCommit (EncSubject (mkSubject first_view 100)) 3 [3] [3]), 100.
      split; [apply (bool_decide_eq_true_1 _); vm_compute; reflexivity|done].
  - vm_compute. reflexivity.
  - apply good_net_log.
  - reflexivity.
Defined.

(** A chain whose committee is always the same. *)
Definition steady_chain : Backend :=
  mkBackend (Some block_A, 4) (fun _ => Some (newDefaultSet (ValidatorSortByCoefficient (CR := constCrypto 11 5)) four
                                                RoundRobin (Some (fun a => a))))
    (fun _ => VerifyOk) (fun _ => false) (fun _ _ => None) 1 (fun _ => Some [1]) (fun _ => false).

Lemma steady_answers : answers steady_chain.
Proof. split; [by eexists|]. intros p. eexists. split; [reflexivity|]. vm_compute. reflexivity. Qed.

Lemma node_never_panics_witness :
  exists c acts, Start steady_chain (NewCore 1000 1) = Some (tt, c, acts) /\
    is_Some (handleEvents [(steady_chain, lie 4 MsgCommit (EncOther [])); (steady_chain, timeoutEvent)] c).
Proof.
  apply (node_never_panics 1000 1 steady_chain
           [(steady_chain, lie 4 MsgCommit (EncOther [])); (steady_chain, timeoutEvent)]).
  - exact steady_answers.
  - constructor; [exact steady_answers|]. constructor; [exact steady_answers|constructor].
Defined.

(** ** Proposers *)

Definition four_set : defaultSet := mkSet ((fun a => mkVal a 70) <$> four) RoundRobin None.

Lemma roundRobinProposer_covers_witness :
  exists k, 0 <= k < set_Size four_set /\ roundRobinProposer four_set 2 (5 + k) = Some (mkVal 3 70).
Proof.
  apply (roundRobinProposer_covers four_set (mkVal 3 70) 2 5).
  - apply (bool_decide_eq_true_1 _). vm_compute. reflexivity.
  - lia.
  - vm_compute. reflexivity.
Defined.

Lemma newDefaultSet_canonical_witness :
  let by_ := ValidatorSortByCoefficient (CR := constCrypto 11 5) in
  newDefaultSet by_ [1; 2; 3] RoundRobin (Some (fun _ => 70)) = newDefaultSet by_ [3; 1; 2] RoundRobin (Some (fun _ => 70))
  /\ strictly_sorted by_ (set_validators (newDefaultSet by_ [1; 2; 3] RoundRobin (Some (fun _ => 70)))).
Proof.
  apply (newDefaultSet_canonical (CR := constCrypto 11 5) [1; 2; 3] [3; 1; 2] RoundRobin (fun _ => 70)).
  - apply (bool_decide_eq_true_1 _). vm_compute. reflexivity.
  - repeat constructor; lia.
  - rewrite (Permutation_app_comm [1; 2] [3]). done.
Defined.

(** ** Backlogs *)

(** The priorities of a proposal and of the votes on it are equal once the height has more
    digits than a float32 keeps: the queue no longer puts the proposal first. *)
Example priorities_collide :
  toPriority MsgPrepare (mkView 0 200) < toPriority MsgPreprepare (mkView 0 200) /\
  toPriority MsgPrepare (mkView 0 70000) = toPriority MsgPreprepare (mkView 0 70000).
Proof. split; vm_compute; reflexivity. Qed.
