(* ===== verification/Committee.v ===== *)
(** Where the committee of a height comes from: the random drop, the draw of eleven
    validators and the set the consensus protocol works with ([core/blockchain.go],
    [getValidators] of [consensus/istanbul/backend/backend.go]).

    What a chain knows is a parameter: the validators, stakers and coefficients in the
    state of a block, and the coefficients it remembers for a height. *)
From stdpp Require Import strings.
From S2P Require Import Prelude KeyedList Common Validators Selection Stakers ValidatorSet.

Open Scope Z_scope.

(** ** Indexes around a validator *)

(** Three or four indexes, some of which may lie outside of the list; when the branches do
    not apply, three zeroes.  Go divides towards zero. *)
Definition getSurroundingChainNo (i Nr Np : Z) : list Z :=
  let Nt := Nr * Np in
  let row := Z.rem (Z.quot i 4) 2 in
  let col := Z.rem i 4 in
  let even := Z.rem i 2 =? 0 in
  let odd := Z.rem i 2 =? 1 in
  let chainNoSet := [0; 0; 0] in
  let j := 0 in
  let '(chainNoSet, j) :=
    if (4 <=? i) && (i <=? Nt - 5) then
      if col =? 0 then
        let j := if row =? 0 then i - 4 else if row =? 1 then i + 4 else j in
        ([i; i + 1; i + Nr - 1; j], j)
      else if col =? 3 then
        let j := if row =? 0 then i + 4 else if row =? 1 then i - 4 else j in
        ([i; i - 1; i - Nr - 1; j], j)
      else
        let j := if (even && (row =? 0)) || (odd && (row =? 1)) then i - 4 else j in
        let j := if (even && (row =? 1)) || (odd && (row =? 0)) then i + 4 else j in
        ([i; i - 1; i + 1; j], j)
    else (chainNoSet, j) in
  let '(chainNoSet, j) :=
    if (Nt - 4 <=? i) && (i <=? Nt - 1) then
      if col =? 0 then
        let j := if row =? 1 then 0 else if row =? 0 then i - 4 else j in
        ([i; i + 1; i + 3; j], j)
      else if col =? 3 then
        let j := if row =? 0 then 2 else if row =? 1 then i - 4 else j in
        ([i; i - 1; i - 3; j], j)
      else
        let j := if even && (row =? 1) then Z.rem i 4 else j in
        let j := if odd && (row =? 0) then Z.rem i 4 - 1 else j in
        let j := if (even && (row =? 0)) || (odd && (row =? 1)) then i - 4 else j in
        ([i; i - 1; i + 1; j], j)
    else (chainNoSet, j) in
  if (0 <=? i) && (i <=? 3) then
    if i =? 0 then
      let j := if row =? 0 then Nt - 3 else if row =? 1 then Nt - 4 else j in
      [i; i + 1; i + 3; j]
    else if col =? 3 then [i; i - 1; i - 5; i - 4]
    else
      let j := if even && (Z.rem (Z.quot Nt 4) 2 =? 0) then Nt - 3 + i else j in
      let j := if even && (Z.rem (Z.quot Nt 4) 2 =? 1) then Nt - 4 + i else j in
      let j := if odd then i + 4 else j in
      [i; i - 1; i + 1; j]
  else chainNoSet.

(** ** The random drop *)

Record Header : Type := mkHeader { h_Number : Z; h_Coinbase : Address; h_Root : Hash }.

(** Three indexes around the position of the last block's coinbase. *)
Definition random3Index (v : ValidatorList) (prevHeader : Header) : list Z :=
  let i := if 0 <? u64 (h_Number prevHeader) then vl_GetByAddress (h_Coinbase prevHeader) v else 0 in
  let np := Z.quot (vl_Len v) 4 + 1 in
  getSurroundingChainNo i 4 np.

(** [big.Int.String] of a natural number. *)
Fixpoint decimal_digits (fuel : nat) (n : Z) (acc : bytes) : bytes :=
  match fuel with
  | O => acc
  | S fuel => let acc := 48 + n mod 10 :: acc in if n <? 10 then acc else decimal_digits fuel (n / 10) acc
  end.

Definition decimal (n : Z) : bytes := decimal_digits (S (Z.to_nat (Z.log2 n))) n [].

Section Drop.
  Context {CR : Crypto}.

(** [Address.Hex] *)
Definition address_Hex (a : Address) : bytes := [48; 120] ++ checksumHex a.

Definition opOnValidators (validators : ValidatorList) (randomIndex : list Z) : list bytes :=
  omap (fun v => let val := vl_GetByIndex (u64 v) validators in
                 if v_Addr val =? 0 then None else Some (address_Hex (v_Addr val))) randomIndex.

Definition opOnStakers (stakers : StakerList) (randomIndex : list Z) : list bytes :=
  omap (fun v => let st := sl_GetByIndex (u64 v) stakers in
                 if s_Addr st =? 0 then None else Some (address_Hex (s_Addr st))) randomIndex.

Definition opOnPrevHeader (prevHeader : Header) : list bytes := [decimal (h_Number prevHeader)].

(** [Keccak256Hash] of the factors one after the other. *)
Definition calculateHashByFactors (factors : list bytes) : Hash := BytesToHash (Keccak256 (mjoin factors)).

Definition GetRandomDropV2 (v : ValidatorList) (s : StakerList) (prevHeader : Header) : Hash :=
  match v, s with
  | [], _ | _, [] => 0
  | _, _ =>
      let indexs := random3Index v prevHeader in
      calculateHashByFactors (opOnValidators v indexs ++ opOnStakers s indexs ++ opOnPrevHeader prevHeader)
  end.

(** ** The draw *)

(** The state of a block, as far as the draw reads it. *)
Record PoolState : Type := mkPoolState {
  ps_validators : option ValidatorList;
  ps_stakers : option StakerList;
  ps_coefficient : Address -> Z;
}.

Record Chain : Type := mkChain {
  bc_StateAt : Hash -> option PoolState;
  bc_coefficients : Z -> option (Address -> Z);
}.

Definition weights_of (bc : Chain) (header : Header) (db : PoolState) (vl : ValidatorList) : list Z :=
  match bc_coefficients bc (u64 (h_Number header)) with
  | Some validatorsCoe => (fun v => validatorsCoe (v_Addr v)) <$> vl
  | None => (fun v => ps_coefficient db (v_Addr v)) <$> vl
  end.

(** The list of the drawn validators; [signer] is who acts for a validator. *)
Definition elevenValidator (signer : Address -> Address) (vl : ValidatorList) (validators : list Address) : ValidatorList :=
  foldl (fun eleven addr => snd (vl_AddValidator (signer addr) (vl_StakeBalance (signer addr) vl) 0 eleven)) [] validators.

Definition proxy_or_self (vl : ValidatorList) (addr : Address) : Address :=
  match vl_GetProxy addr vl with (proxy, true) => proxy | (_, false) => addr end.

(** Both draws, by the name of the function; [Ret None] is a nil list without an error. *)
Definition random_eleven (name : string) (signer : ValidatorList -> Address -> Address) (bc : Chain) (header : option Header)
    : outcome (option ValidatorList) :=
  match header with
  | None => Err "err Random11ValidatorFromPool invalid header"
  | Some header =>
      match bc_StateAt bc (h_Root header) with
      | None => Err (name +:+ " invalid root")
      | Some db =>
          match ps_validators db, ps_stakers db with
          | None, _ => Err "get validators error"
          | _, None => Err "get stakers error"
          | Some validatorList, Some stakers =>
              let randomHash := GetRandomDropV2 validatorList stakers header in
              if randomHash =? 0 then Ret None
              else
                match vl_RandomValidatorV4 11 randomHash (weights_of bc header db validatorList) validatorList with
                | Ret validators => Ret (Some (elevenValidator (signer validatorList) validatorList validators))
                | Err _ => Err (name +:+ " failed pick validators")
                | Panic => Panic
                end
          end
      end
  end.

Definition Random11ValidatorFromPool : Chain -> option Header -> outcome (option ValidatorList) :=
  random_eleven "Random11ValidatorFromPool" proxy_or_self.

Definition Random11ValidatorWithOutProxy : Chain -> option Header -> outcome (option ValidatorList) :=
  random_eleven "Random11ValidatorWithOutProxy" (fun _ addr => addr).

(** The list is dereferenced: nil panics. *)
Definition IsValidatorByHight (bc : Chain) (header : option Header) (addr : Address) : outcome bool :=
  valset ← Random11ValidatorFromPool bc header;
  match valset with
  | None => Panic
  | Some vl => Ret (existsb (fun v => v_Addr v =? addr) vl)
  end.

(** ** The set of the consensus protocol *)

(** [db]: the coefficients in the state of the current block. *)
Definition getValidators (bc : Chain) (header : option Header) (policy : ProposerPolicyId) (db : option (Address -> Z))
    : outcome (option defaultSet) :=
  match Random11ValidatorFromPool bc header with
  | Err _ => Ret None
  | Panic => Panic
  | Ret validatorList =>
      match db with
      | None => Ret None
      | Some coefficient =>
          match validatorList with
          | None => Panic
          | Some vl => Ret (Some (newDefaultSet ValidatorSortByCoefficient (vl_ConvertToAddress vl) policy (Some coefficient)))
          end
      end
  end.

(** ** Lemmas *)

Lemma AddValidator_new addr balance proxy vl :
  addr ∉ keys v_Addr vl -> keys v_Addr (snd (vl_AddValidator addr balance proxy vl)) ≡ₚ addr :: keys v_Addr vl.
Proof.
  intros H. unfold vl_AddValidator. rewrite (proj2 (kfind_None _ _ _) H). simpl. unfold vl_sort, keys.
  rewrite sort_Sort_Permutation, fmap_app. simpl. by rewrite Permutation_app_comm.
Qed.

Lemma NoDup_fmap_inj_on (f : Address -> Address) (l : list Address) x y :
  NoDup (f <$> l) -> x ∈ l -> y ∈ l -> f x = f y -> x = y.
Proof.
  induction l as [|z l IH]; simpl; intros Hnd Hx Hy E; [by apply not_elem_of_nil in Hx|].
  apply NoDup_cons in Hnd as [Hz Hnd]. apply elem_of_cons in Hx as [->|Hx], Hy as [->|Hy]; [done| | |by apply IH];
    exfalso; apply Hz; [rewrite E|rewrite <- E]; by apply list_elem_of_fmap_2.
Qed.

Lemma elevenValidator_keys (signer : Address -> Address) (vl : ValidatorList) (validators : list Address) (acc : ValidatorList) :
  NoDup ((signer <$> validators) ++ keys v_Addr acc) ->
  keys v_Addr (foldl (fun eleven addr => snd (vl_AddValidator (signer addr) (vl_StakeBalance (signer addr) vl) 0 eleven))
                 acc validators)
  ≡ₚ (signer <$> validators) ++ keys v_Addr acc.
Proof.
  revert acc. induction validators as [|a validators IH]; intros acc Hnd; simpl; [done|].
  apply NoDup_cons in Hnd as [Ha Hnd]. apply not_elem_of_app in Ha as [Ha Hacc].
  pose proof (AddValidator_new (signer a) (vl_StakeBalance (signer a) vl) 0 acc Hacc) as Hk.
  rewrite IH; [rewrite Hk; by rewrite Permutation_middle|].
  rewrite Hk. rewrite <- Permutation_middle. apply NoDup_cons. split; [|done]. by apply not_elem_of_app.
Qed.

Lemma newDefaultSet_members by_ addrs policy db : set_ListAll (newDefaultSet by_ addrs policy (Some db)) ≡ₚ addrs.
Proof.
  unfold set_ListAll, newDefaultSet. simpl. rewrite sort_Sort_Permutation, <- list_fmap_compose. by rewrite list_fmap_id.
Qed.

Lemma weights_of_length bc header db vl : length vl = length (weights_of bc header db vl).
Proof. unfold weights_of. destruct (bc_coefficients _ _); by rewrite length_fmap. Qed.

(** C26. The committee of a block is drawn in full.  When the state of the block has
    validators and stakers, the drop is a valid key, all stakes are positive, no proxy is
    the address of another validator and no two validators are acted for by the same
    account, the set given to the consensus protocol has exactly
    min(11, number of validators) members, all different, and each of them is a validator
    or the proxy of one. *)
Theorem getValidators_committee bc header policy coefficient db vl s :
  bc_StateAt bc (h_Root header) = Some db -> ps_validators db = Some vl -> ps_stakers db = Some s ->
  0 < GetRandomDropV2 vl s header < secp256k1N ->
  NoDup (keys v_Addr vl) -> stakes_positive vl -> no_foreign_proxy vl ->
  NoDup (proxy_or_self vl <$> keys v_Addr vl) ->
  exists vs, getValidators bc (Some header) policy (Some coefficient) = Ret (Some vs) /\
    set_Size vs = Z.min 11 (Z.of_nat (length vl)) /\ NoDup (set_ListAll vs) /\
    forall a, a ∈ set_ListAll vs -> exists v, v ∈ keys v_Addr vl /\ a = proxy_or_self vl v.
Proof.
  intros Hdb Hvl Hs [Hh HhN] Hnd Hpos Hnf Hsig.
  unfold getValidators, Random11ValidatorFromPool, random_eleven. rewrite Hdb, Hvl, Hs.
  destruct (Z.eqb_spec (GetRandomDropV2 vl s header) 0); [lia|].
  destruct (RandomValidatorV4_draw 11 (GetRandomDropV2 vl s header) (weights_of bc header db vl) vl)
    as (res & -> & Hlen & Hres & Hin); [done|done|done|apply weights_of_length|lia|done|].
  assert (Hsigs : NoDup (proxy_or_self vl <$> res)).
  { apply (NoDup_fmap_2_strong _ _); [|done]. intros x y Hx Hy E.
    by apply (NoDup_fmap_inj_on (proxy_or_self vl) (keys v_Addr vl)); auto. }
  set (vs := newDefaultSet _ _ _ _). exists vs. split; [done|].
  assert (Hk : set_ListAll vs ≡ₚ proxy_or_self vl <$> res).
  { unfold vs. rewrite newDefaultSet_members. unfold vl_ConvertToAddress.
    change (keys v_Addr (elevenValidator (proxy_or_self vl) vl res) ≡ₚ proxy_or_self vl <$> res).
    unfold elevenValidator. rewrite elevenValidator_keys; by rewrite app_nil_r. }
  split; [|split].
  - apply Permutation_length in Hk. unfold set_ListAll in Hk. rewrite !length_fmap in Hk. unfold set_Size. lia.
  - by rewrite Hk.
  - intros a. rewrite Hk. intros (v & -> & Hv)%list_elem_of_fmap. exists v. auto.
Qed.

(** A chain without stakers has no committee: the draw gives nil without an error, and
    the callers dereference it, so that the node panics. *)
Theorem no_stakers_panics bc header policy coefficient db vl addr :
  bc_StateAt bc (h_Root header) = Some db -> ps_validators db = Some vl -> ps_stakers db = Some [] ->
  Random11ValidatorFromPool bc (Some header) = Ret None /\
  getValidators bc (Some header) policy (Some coefficient) = Panic /\
  IsValidatorByHight bc (Some header) addr = Panic.
Proof.
  intros Hdb Hvl Hs.
  assert (H : Random11ValidatorFromPool bc (Some header) = Ret None).
  { unfold Random11ValidatorFromPool, random_eleven. rewrite Hdb, Hvl, Hs. by destruct vl. }
  unfold getValidators, IsValidatorByHight. by rewrite H.
Qed.

End Drop.

(** ** Instances *)

Definition two_chain : Chain :=
  mkChain (fun _ => Some (mkPoolState (Some twoValidators) (Some [mkStaker 5 1]) (fun _ => 70))) (fun _ => None).
Definition two_header : Header := mkHeader 4 1 0.

Lemma getValidators_committee_witness :
  exists vs, getValidators (CR := constCrypto 11 5) two_chain (Some two_header) RoundRobin (Some (fun _ => 70)) = Ret (Some vs) /\
    set_Size vs = Z.min 11 (Z.of_nat (length twoValidators)) /\ NoDup (set_ListAll vs) /\
    forall a, a ∈ set_ListAll vs -> exists v, v ∈ keys v_Addr twoValidators /\ a = proxy_or_self twoValidators v.
Proof.
  apply (getValidators_committee (CR := constCrypto 11 5) two_chain two_header RoundRobin (fun _ => 70)
           (mkPoolState (Some twoValidators) (Some [mkStaker 5 1]) (fun _ => 70)) twoValidators [mkStaker 5 1]).
  - reflexivity.
  - reflexivity.
  - reflexivity.
  - split; vm_compute; reflexivity.
  - apply twoValidators_wf.
  - apply twoValidators_wf.
  - apply twoValidators_no_foreign.
  - apply (bool_decide_eq_true_1 _). vm_compute. reflexivity.
Defined.

Lemma no_stakers_panics_witness :
  let bc := mkChain (fun _ => Some (mkPoolState (Some twoValidators) (Some []) (fun _ => 70))) (fun _ => None) in
  Random11ValidatorFromPool (CR := constCrypto 11 5) bc (Some two_header) = Ret None /\
  getValidators (CR := constCrypto 11 5) bc (Some two_header) RoundRobin (Some (fun _ => 70)) = Panic /\
  IsValidatorByHight (CR := constCrypto 11 5) bc (Some two_header) 1 = Panic.
Proof.
  intros bc.
  apply (no_stakers_panics (CR := constCrypto 11 5) bc two_header RoundRobin (fun _ => 70)
           (mkPoolState (Some twoValidators) (Some []) (fun _ => 70)) twoValidators 1); reflexivity.
Defined.
