(* ===== verification/Rlp.v ===== *)
(** The serialization format RLP: package [rlp].

    A value is an [item], a string of bytes or a list of items.  [encode] is the format as
    the documentation gives it.  The encoder of [rlp/encode.go] collects the strings in
    one buffer and the headers of lists, whose sizes it learns late, in another, and merges
    them at the end ([encbuf]).  [rlp/raw.go] reads the format without building values.

    The theorems: the encoder computes [encode]; reading gives back what was encoded and
    accepts nothing else, so that encodings are unique and none is a prefix of another.
    How a Go type is turned into items by reflection is left to its users. *)
From S2P Require Import Prelude KeyedList Common.

Open Scope Z_scope.

(** ** Values *)

Inductive item : Type :=
| RString (b : bytes)
| RList (l : list item).

Section item_induction.
  Context (P : item -> Prop).
  Context (HS : forall b, P (RString b)) (HL : forall l, Forall P l -> P (RList l)).

Fixpoint item_induction (i : item) : P i :=
  match i with
  | RString b => HS b
  | RList l => HL l ((fix go l := match l return Forall P l with
                                  | [] => Forall_nil_2 P
                                  | i :: l => Forall_cons_2 P i l (item_induction i) (go l)
                                  end) l)
  end.

End item_induction.

(** ** Sizes *)

(** The least number of big-endian bytes. *)
Definition putint (i : Z) : bytes :=
  if i <? 2 ^ 8 then be_bytes 1 i
  else if i <? 2 ^ 16 then be_bytes 2 i
  else if i <? 2 ^ 24 then be_bytes 3 i
  else if i <? 2 ^ 32 then be_bytes 4 i
  else if i <? 2 ^ 40 then be_bytes 5 i
  else if i <? 2 ^ 48 then be_bytes 6 i
  else if i <? 2 ^ 56 then be_bytes 7 i
  else be_bytes 8 i.

(** Eight steps are enough for a 64-bit number. *)
Fixpoint intsize_from (fuel : nat) (size i : Z) : Z :=
  match fuel with
  | O => size
  | S fuel => let i := Z.shiftr i 8 in if i =? 0 then size else intsize_from fuel (size + 1) i
  end.

Definition intsize (i : Z) : Z := intsize_from 8 1 i.

Definition headsize (size : Z) : Z := if size <? 56 then 1 else 1 + intsize size.

Definition ListSize (contentSize : Z) : Z := headsize contentSize + contentSize.

Definition IntSize (x : Z) : Z := if x <? 0x80 then 1 else 1 + intsize x.

Definition puthead (smalltag largetag size : Z) : bytes :=
  if size <? 56 then [smalltag + size]
  else let s := putint size in largetag + Z.of_nat (length s) :: s.

(** ** The format *)

Definition string_bytes (b : bytes) : bytes :=
  match b with
  | [x] => if x <=? 0x7F then [x] else puthead 0x80 0xB7 1 ++ [x]
  | _ => puthead 0x80 0xB7 (Z.of_nat (length b)) ++ b
  end.

Definition list_bytes (content : bytes) : bytes := puthead 0xC0 0xF7 (Z.of_nat (length content)) ++ content.

Fixpoint encode (i : item) : bytes :=
  match i with
  | RString b => string_bytes b
  | RList l => list_bytes (mjoin (encode <$> l))
  end.

Definition encode_all (l : list item) : bytes := mjoin (encode <$> l).

(** ** The encoder *)

Record listhead : Type := mkListhead { lh_offset : Z; lh_size : Z }.

Definition lh_encode (head : listhead) : bytes := puthead 0xC0 0xF7 (lh_size head).

Record encbuf : Type := mkEncbuf { eb_str : bytes; eb_lheads : list listhead; eb_lhsize : Z }.

Definition eb_empty : encbuf := mkEncbuf [] [] 0.

Definition eb_append (b : bytes) (w : encbuf) : encbuf := mkEncbuf (eb_str w ++ b) (eb_lheads w) (eb_lhsize w).

Definition eb_size (w : encbuf) : Z := Z.of_nat (length (eb_str w)) + eb_lhsize w.

Definition eb_encodeStringHeader (size : Z) (w : encbuf) : encbuf :=
  if size <? 56 then eb_append [0x80 + size] w
  else let s := putint size in eb_append (0xB7 + Z.of_nat (length s) :: s) w.

Definition eb_encodeString (b : bytes) (w : encbuf) : encbuf :=
  match b with
  | [x] => if x <=? 0x7F then eb_append [x] w else eb_append b (eb_encodeStringHeader 1 w)
  | _ => eb_append b (eb_encodeStringHeader (Z.of_nat (length b)) w)
  end.

Definition eb_encodeUint (i : Z) (w : encbuf) : encbuf :=
  if i =? 0 then eb_append [0x80] w
  else if i <? 128 then eb_append [i] w
  else let s := putint i in eb_append (0x80 + Z.of_nat (length s) :: s) w.

(** The index of the new header; its size holds, until the end of the list, the size of the
    headers so far. *)
Definition eb_list (w : encbuf) : nat * encbuf :=
  (length (eb_lheads w),
   mkEncbuf (eb_str w) (eb_lheads w ++ [mkListhead (Z.of_nat (length (eb_str w))) (eb_lhsize w)]) (eb_lhsize w)).

Definition eb_listEnd (index : nat) (w : encbuf) : encbuf :=
  match eb_lheads w !! index with
  | None => w
  | Some lh =>
      let size := eb_size w - lh_offset lh - lh_size lh in
      mkEncbuf (eb_str w) (<[index := mkListhead (lh_offset lh) size]> (eb_lheads w))
        (if size <? 56 then eb_lhsize w + 1 else eb_lhsize w + (1 + intsize size))
  end.

(** The bytes from [p] to [q] of a buffer. *)
Definition sub (p q : Z) (b : bytes) : bytes := take (Z.to_nat (q - p)) (drop (Z.to_nat p) b).

Fixpoint merge_heads (str : bytes) (strpos : Z) (lheads : list listhead) : bytes :=
  match lheads with
  | [] => drop (Z.to_nat strpos) str
  | head :: lheads => sub strpos (lh_offset head) str ++ lh_encode head ++ merge_heads str (lh_offset head) lheads
  end.

(** The output has the size computed before: what does not fit is lost. *)
Definition eb_toBytes (w : encbuf) : bytes :=
  let out := merge_heads (eb_str w) 0 (eb_lheads w) in
  let size := Z.to_nat (eb_size w) in
  take size out ++ replicate (size - length out) 0.

(** The writers of strings and of lists: structures, slices and arrays. *)
Fixpoint write_item (i : item) (w : encbuf) : encbuf :=
  match i with
  | RString b => eb_encodeString b w
  | RList l =>
      let '(index, w) := eb_list w in
      eb_listEnd index (foldl (fun w i => write_item i w) w l)
  end.

Definition EncodeToBytes (i : item) : bytes := eb_toBytes (write_item i eb_empty).

(** [AppendUint64], on an empty slice. *)
Definition AppendUint64 (b : bytes) (i : Z) : bytes :=
  if i =? 0 then b ++ [0x80]
  else if i <? 128 then b ++ [i]
  else if i <? 2 ^ 8 then b ++ 0x81 :: be_bytes 1 i
  else if i <? 2 ^ 16 then b ++ 0x82 :: be_bytes 2 i
  else if i <? 2 ^ 24 then b ++ 0x83 :: be_bytes 3 i
  else if i <? 2 ^ 32 then b ++ 0x84 :: be_bytes 4 i
  else if i <? 2 ^ 40 then b ++ 0x85 :: be_bytes 5 i
  else if i <? 2 ^ 48 then b ++ 0x86 :: be_bytes 6 i
  else if i <? 2 ^ 56 then b ++ 0x87 :: be_bytes 7 i
  else b ++ 0x88 :: be_bytes 8 i.

(** ** Reading *)

Inductive Kind : Type := Byte | String_ | List_.

#[export] Instance Kind_eq_dec : EqDecision Kind.
Proof. solve_decision. Defined.

Definition ErrUnexpectedEOF : string := "unexpected EOF".
Definition ErrExpectedString : string := "rlp: expected String or Byte".
Definition ErrExpectedList : string := "rlp: expected List".
Definition ErrCanonInt : string := "rlp: non-canonical integer format".
Definition ErrCanonSize : string := "rlp: non-canonical size information".
Definition ErrValueTooLarge : string := "rlp: value size exceeds available input length".
Definition errUintOverflow : string := "rlp: uint overflow".

Definition readSize (b : bytes) (slen : Z) : outcome Z :=
  if Z.of_nat (length b) <? slen then Err ErrUnexpectedEOF
  else
    let s := SetBytes (take (Z.to_nat slen) b) in
    if (s <? 56) || (default 0 (b !! 0%nat) =? 0) then Err ErrCanonSize else Ret s.

(** The kind, the size of the header and the size of the content, from the first byte and
    the bytes after it. *)
Definition readTag (b : Z) (rest : bytes) : outcome (Kind * Z * Z) :=
  if b <? 0x80 then Ret (Byte, 0, 1)
  else if b <? 0xB8 then
    let contentsize := b - 0x80 in
    if (contentsize =? 1) && match rest with x :: _ => x <? 128 | [] => false end then Err ErrCanonSize
    else Ret (String_, 1, contentsize)
  else if b <? 0xC0 then contentsize ← readSize rest (b - 0xB7); Ret (String_, b - 0xB7 + 1, contentsize)
  else if b <? 0xF8 then Ret (List_, 1, b - 0xC0)
  else contentsize ← readSize rest (b - 0xF7); Ret (List_, b - 0xF7 + 1, contentsize).

Definition readKind (buf : bytes) : outcome (Kind * Z * Z) :=
  match buf with
  | [] => Err ErrUnexpectedEOF
  | b :: rest =>
      '(k, tagsize, contentsize) ← readTag b rest;
      if u64 (Z.of_nat (length buf) - tagsize) <? contentsize then Err ErrValueTooLarge
      else Ret (k, tagsize, contentsize)
  end.

Definition Split (b : bytes) : outcome (Kind * bytes * bytes) :=
  '(k, ts, cs) ← readKind b;
  Ret (k, sub ts (ts + cs) b, drop (Z.to_nat (ts + cs)) b).

Definition SplitString (b : bytes) : outcome (bytes * bytes) :=
  '(k, content, rest) ← Split b;
  if decide (k = List_) then Err ErrExpectedString else Ret (content, rest).

Definition SplitList (b : bytes) : outcome (bytes * bytes) :=
  '(k, content, rest) ← Split b;
  if decide (k = List_) then Ret (content, rest) else Err ErrExpectedList.

Definition SplitUint64 (b : bytes) : outcome (Z * bytes) :=
  '(content, rest) ← SplitString b;
  match content with
  | [] => Ret (0, rest)
  | [x] => if x =? 0 then Err ErrCanonInt else Ret (x, rest)
  | _ =>
      if (8 <? length content)%nat then Err errUintOverflow
      else match readSize content (Z.of_nat (length content)) with
           | Ret x => Ret (x, rest)
           | Err _ => Err ErrCanonInt
           | Panic => Panic
           end
  end.

(** At least a byte is read per value. *)
Fixpoint CountValues_from (fuel : nat) (b : bytes) (i : Z) : outcome Z :=
  match b, fuel with
  | [], _ | _, O => Ret i
  | _, S fuel => '(_, tagsize, size) ← readKind b; CountValues_from fuel (drop (Z.to_nat (tagsize + size)) b) (i + 1)
  end.

Definition CountValues (b : bytes) : outcome Z := CountValues_from (length b) b 0.

(** ** Sizes *)

Lemma be_bytes_cons n z : be_bytes (S n) z = (z / 256 ^ Z.of_nat n) mod 256 :: be_bytes n z.
Proof.
  revert z. induction n as [|n IH]; intros z; [simpl; by rewrite Z.div_1_r|].
  cbn [be_bytes] in *. rewrite IH. simpl. f_equal. rewrite Z.div_div by lia.
  by rewrite Nat2Z.inj_succ, Z.pow_succ_r by lia.
Qed.

Lemma putint_spec i :
  0 < i < 2 ^ 64 ->
  exists n, (n <= 7)%nat /\ putint i = be_bytes (S n) i /\ 256 ^ Z.of_nat n <= i < 256 ^ Z.of_nat (S n).
Proof.
  intros Hi. unfold putint.
  destruct (Z.ltb_spec i (2 ^ 8)); [exists 0%nat; split; [lia|]; split; [done|]; simpl; lia|].
  destruct (Z.ltb_spec i (2 ^ 16)); [exists 1%nat; split; [lia|]; split; [done|]; simpl; lia|].
  destruct (Z.ltb_spec i (2 ^ 24)); [exists 2%nat; split; [lia|]; split; [done|]; simpl; lia|].
  destruct (Z.ltb_spec i (2 ^ 32)); [exists 3%nat; split; [lia|]; split; [done|]; simpl; lia|].
  destruct (Z.ltb_spec i (2 ^ 40)); [exists 4%nat; split; [lia|]; split; [done|]; simpl; lia|].
  destruct (Z.ltb_spec i (2 ^ 48)); [exists 5%nat; split; [lia|]; split; [done|]; simpl; lia|].
  destruct (Z.ltb_spec i (2 ^ 56)); [exists 6%nat; split; [lia|]; split; [done|]; simpl; lia|].
  exists 7%nat; split; [lia|]; split; [done|]; simpl; lia.
Qed.

Lemma intsize_from_spec n fuel size i :
  (n < fuel)%nat -> 256 ^ Z.of_nat n <= i < 256 ^ Z.of_nat (S n) -> intsize_from fuel size i = size + Z.of_nat n.
Proof.
  revert fuel size i. induction n as [|n IH]; intros fuel size i Hf Hi; (destruct fuel as [|fuel]; [lia|]); simpl.
  - rewrite Z.shiftr_div_pow2 by lia. change (2 ^ 8) with 256. rewrite Z.div_small by (simpl in Hi; lia). simpl. lia.
  - rewrite Z.shiftr_div_pow2 by lia. change (2 ^ 8) with 256.
    rewrite Nat2Z.inj_succ, Z.pow_succ_r in Hi by lia. rewrite (Nat2Z.inj_succ (S n)), Z.pow_succ_r in Hi by lia.
    assert (Hd : 256 ^ Z.of_nat n <= i / 256 < 256 ^ Z.of_nat (S n)).
    { split; [apply Z.div_le_lower_bound; lia|apply Z.div_lt_upper_bound; lia]. }
    assert (0 < 256 ^ Z.of_nat n) by (apply Z.pow_pos_nonneg; lia).
    destruct (Z.eqb_spec (i / 256) 0); [lia|]. rewrite IH by (lia || done). lia.
Qed.

Lemma length_putint i : 0 < i < 2 ^ 64 -> Z.of_nat (length (putint i)) = intsize i.
Proof.
  intros Hi. destruct (putint_spec i Hi) as (n & Hn & -> & Hb). rewrite length_be_bytes.
  unfold intsize. rewrite (intsize_from_spec n) by (lia || done). lia.
Qed.

Lemma length_puthead small large size :
  0 <= size < 2 ^ 64 -> Z.of_nat (length (puthead small large size)) = headsize size.
Proof.
  intros H. unfold puthead, headsize. destruct (Z.ltb_spec size 56); [done|]. simpl.
  rewrite <- length_putint by lia. lia.
Qed.

(** A size written is the size read. *)
Lemma readSize_putint size rest :
  56 <= size < 2 ^ 64 -> readSize (putint size ++ rest) (Z.of_nat (length (putint size))) = Ret size.
Proof.
  intros Hs. unfold readSize. rewrite length_app.
  destruct (Z.ltb_spec (Z.of_nat (length (putint size) + length rest)) (Z.of_nat (length (putint size)))); [lia|].
  rewrite Nat2Z.id, take_app_length.
  destruct (putint_spec size ltac:(lia)) as (n & Hn & -> & Hb).
  rewrite SetBytes_be_bytes, Z.mod_small by lia. destruct (Z.ltb_spec size 56); [lia|]. cbn [orb].
  rewrite be_bytes_cons. simpl. rewrite Z.mod_small.
  - destruct (Z.eqb_spec (size / 256 ^ Z.of_nat n) 0) as [E|]; [|done].
    apply Z.div_small_iff in E; [|apply Z.pow_nonzero; lia]. lia.
  - split; [apply Z.div_pos; lia|]. apply Z.div_lt_upper_bound; [lia|].
    rewrite Nat2Z.inj_succ, Z.pow_succ_r in Hb by lia. lia.
Qed.

(** A size read is written the same way. *)
Lemma be_bytes_of_SetBytes b : Forall byte_ok b -> be_bytes (length b) (SetBytes b) = b.
Proof.
  induction b as [|x b IH] using rev_ind; intros Hb; [done|]. apply Forall_app in Hb as [Hb Hx].
  inversion_clear Hx as [|? ? Hx' _]. unfold byte_ok in Hx'.
  rewrite length_app, Nat.add_comm, SetBytes_app. simpl. unfold SetBytes at 2 4. simpl foldl.
  change (256 ^ 1) with 256. rewrite Z.div_add_l, (Z.div_small x), Z.add_0_r, IH by (done || lia).
  by rewrite Z.add_comm, Z.mod_add, Z.mod_small by lia.
Qed.

Lemma putint_SetBytes x b :
  Forall byte_ok (x :: b) -> x <> 0 -> (length b <= 7)%nat -> putint (SetBytes (x :: b)) = x :: b.
Proof.
  intros Hb Hx Hl. assert (Hlow : 256 ^ Z.of_nat (length b) <= SetBytes (x :: b)).
  { change (x :: b) with ([x] ++ b). rewrite SetBytes_app. apply Forall_cons in Hb as [Hx' Hb].
    pose proof (SetBytes_bound b Hb). unfold SetBytes at 1. simpl. unfold byte_ok in Hx'. nia. }
  pose proof (SetBytes_bound (x :: b) Hb) as Hup. cbn [length] in Hup.
  assert (0 < 256 ^ Z.of_nat (length b)) by (apply Z.pow_pos_nonneg; lia).
  assert (256 ^ Z.of_nat (S (length b)) <= 256 ^ 8) by (apply Z.pow_le_mono_r; lia).
  change (256 ^ 8) with (2 ^ 64) in *.
  destruct (putint_spec (SetBytes (x :: b)) ltac:(lia)) as (n & Hn & -> & Hb').
  assert (n = length b) as ->; [|by apply (be_bytes_of_SetBytes (x :: b))].
  destruct (Nat.lt_trichotomy n (length b)) as [Hlt|[->|Hgt]]; [|done|].
  - assert (256 ^ Z.of_nat (S n) <= 256 ^ Z.of_nat (length b)) by (apply Z.pow_le_mono_r; lia). lia.
  - assert (256 ^ Z.of_nat (S (length b)) <= 256 ^ Z.of_nat n) by (apply Z.pow_le_mono_r; lia). lia.
Qed.

Lemma readSize_inv b slen s :
  Forall byte_ok b -> 1 <= slen <= 8 -> readSize b slen = Ret s ->
  56 <= s < 2 ^ 64 /\ (Z.to_nat slen <= length b)%nat /\ putint s = take (Z.to_nat slen) b.
Proof.
  intros Hb Hs. unfold readSize. destruct (Z.ltb_spec (Z.of_nat (length b)) slen) as [|Hl]; [done|].
  destruct ((_ <? 56) || _) eqn:E; [done|]. intros [= <-]. apply orb_false_iff in E as [E1%Z.ltb_ge E2%Z.eqb_neq].
  destruct b as [|x b]; [simpl in Hl; lia|]. simpl in E2. destruct (Z.to_nat slen) as [|n] eqn:En; [lia|].
  cbn [take]. assert (Hbn : Forall byte_ok (x :: take n b)).
  { apply Forall_cons in Hb as [Hx Hb]. constructor; [done|]. by apply Forall_take. }
  split; [|split; [simpl in *; lia|]].
  - split; [done|]. pose proof (SetBytes_bound _ Hbn) as [_ Hup]. eapply Z.lt_le_trans; [exact Hup|].
    change (2 ^ 64) with (256 ^ 8). apply Z.pow_le_mono_r; [lia|]. cbn [length]. rewrite length_take. lia.
  - apply putint_SetBytes; [done|done|]. rewrite length_take. lia.
Qed.

(** ** Reading what was written *)

Lemma sub_app a b c : sub (Z.of_nat (length a)) (Z.of_nat (length a) + Z.of_nat (length b)) (a ++ b ++ c) = b.
Proof.
  unfold sub. rewrite Z.add_simpl_l, !Nat2Z.id, drop_app_length, take_app_length. done.
Qed.

Lemma Split_of a b c k :
  readKind (a ++ b ++ c) = Ret (k, Z.of_nat (length a), Z.of_nat (length b)) -> Split (a ++ b ++ c) = Ret (k, b, c).
Proof.
  intros H. unfold Split. rewrite H. simpl. rewrite sub_app. do 2 f_equal.
  rewrite <- Nat2Z.inj_add, Nat2Z.id, <- length_app, app_assoc. by rewrite drop_app_length.
Qed.

(** What is a header of a value of [n] bytes, and not one of a string that needs none. *)
Lemma readKind_puthead small large k content rest :
  (small = 0x80 /\ large = 0xB7 /\ k = String_ /\ (forall x, content = [x] -> 128 <= x)) \/
  (small = 0xC0 /\ large = 0xF7 /\ k = List_) ->
  let n := Z.of_nat (length content) in
  let h := puthead small large n in
  n < 2 ^ 64 - 16 -> Z.of_nat (length rest) < 2 ^ 64 - 16 - n ->
  readKind (h ++ content ++ rest) = Ret (k, Z.of_nat (length h), n).
Proof.
  intros Hcase n h Hn Hrest.
  assert (Hsize : forall ts, 0 <= ts <= 9 -> ts = Z.of_nat (length h) ->
    (if u64 (Z.of_nat (length (h ++ content ++ rest)) - ts) <? n then Err ErrValueTooLarge else Ret (k, ts, n))
    = Ret (k, Z.of_nat (length h), n)).
  { intros ts Hts ->. rewrite !length_app, !Nat2Z.inj_add. unfold u64. rewrite Z.mod_small by lia.
    destruct (Z.ltb_spec (Z.of_nat (length h) + (Z.of_nat (length content) + Z.of_nat (length rest)) - Z.of_nat (length h)) n);
      [lia|done]. }
  assert (Hlen : n < 2 ^ 64) by lia. pose proof (length_puthead small large n ltac:(lia)) as Hh. fold h in Hh.
  unfold h, puthead in *. destruct (Z.ltb_spec n 56) as [Hs|Hs].
  - cbn [app]. unfold readKind, readTag. destruct Hcase as [(-> & -> & -> & Hone)|(-> & -> & ->)].
    + destruct (Z.ltb_spec (0x80 + n) 0x80); [lia|]. destruct (Z.ltb_spec (0x80 + n) 0xB8); [|lia].
      replace (0x80 + n - 0x80) with n by lia.
      destruct ((n =? 1) && _) eqn:E.
      { exfalso. apply andb_true_iff in E as [E1%Z.eqb_eq E2]. destruct content as [|x [|y l]]; simpl in n; try lia.
        simpl in E2. specialize (Hone x eq_refl). lia. }
      simpl mbind. by apply Hsize.
    + destruct (Z.ltb_spec (0xC0 + n) 0x80); [lia|]. destruct (Z.ltb_spec (0xC0 + n) 0xB8); [lia|].
      destruct (Z.ltb_spec (0xC0 + n) 0xC0); [lia|]. destruct (Z.ltb_spec (0xC0 + n) 0xF8); [|lia].
      replace (0xC0 + n - 0xC0) with n by lia. simpl mbind. by apply Hsize.
  - pose proof (readSize_putint n (content ++ rest) ltac:(lia)) as Hr.
    destruct (putint_spec n ltac:(lia)) as (m & Hm & E & _). rewrite E in *. rewrite length_be_bytes in *.
    cbn [app]. unfold readKind, readTag. destruct Hcase as [(-> & -> & -> & Hone)|(-> & -> & ->)].
    + destruct (Z.ltb_spec (0xB7 + Z.of_nat (S m)) 0x80); [lia|]. destruct (Z.ltb_spec (0xB7 + Z.of_nat (S m)) 0xB8); [lia|].
      destruct (Z.ltb_spec (0xB7 + Z.of_nat (S m)) 0xC0); [|lia].
      replace (0xB7 + Z.of_nat (S m) - 0xB7) with (Z.of_nat (S m)) by lia. rewrite Hr. simpl mbind.
      apply Hsize; [lia|]. cbn [length]. rewrite length_be_bytes. lia.
    + destruct (Z.ltb_spec (0xF7 + Z.of_nat (S m)) 0x80); [lia|]. destruct (Z.ltb_spec (0xF7 + Z.of_nat (S m)) 0xB8); [lia|].
      destruct (Z.ltb_spec (0xF7 + Z.of_nat (S m)) 0xC0); [lia|]. destruct (Z.ltb_spec (0xF7 + Z.of_nat (S m)) 0xF8); [lia|].
      replace (0xF7 + Z.of_nat (S m) - 0xF7) with (Z.of_nat (S m)) by lia. rewrite Hr. simpl mbind.
      apply Hsize; [lia|]. cbn [length]. rewrite length_be_bytes. lia.
Qed.

(** The kind of an item and the bytes after its header. *)
Definition item_kind (i : item) : Kind :=
  match i with
  | RString [x] => if x <=? 0x7F then Byte else String_
  | RString _ => String_
  | RList _ => List_
  end.

Definition item_content (i : item) : bytes :=
  match i with
  | RString b => b
  | RList l => encode_all l
  end.

(** Whether sizes are far from the largest 64-bit number. *)
Definition fits (b : bytes) : Prop := Z.of_nat (length b) < 2 ^ 64 - 32.

Lemma fits_app a b : fits (a ++ b) -> fits a /\ fits b.
Proof. unfold fits. rewrite length_app. lia. Qed.

Lemma readKind_byte x rest : x <= 0x7F -> fits (x :: rest) -> readKind (x :: rest) = Ret (Byte, 0, 1).
Proof.
  unfold fits, readKind, readTag. intros Hx Hf. destruct (Z.ltb_spec x 0x80); [|lia]. cbn [mbind outcome_mbind outcome_bind].
  unfold u64. rewrite Z.mod_small by lia. cbn [length]. destruct (Z.ltb_spec (Z.of_nat (S (length rest)) - 0) 1); [lia|done].
Qed.

Lemma string_bytes_head b :
  (forall x, b = [x] -> 128 <= x) -> string_bytes b = puthead 0x80 0xB7 (Z.of_nat (length b)) ++ b.
Proof.
  intros H. unfold string_bytes. destruct b as [|x [|y b]]; [done| |done].
  specialize (H x eq_refl). destruct (Z.leb_spec x 0x7F); [lia|done].
Qed.

Lemma single_byte_or_not (b : bytes) : (exists x, b = [x] /\ x <= 0x7F) \/ forall x, b = [x] -> 128 <= x.
Proof.
  destruct b as [|x [|y b]]; [by right| |by right].
  destruct (Z.leb_spec x 0x7F); [left; by exists x|right; intros y [= <-]; lia].
Qed.

Lemma readKind_encode i rest :
  fits (encode i ++ rest) ->
  exists h, encode i = h ++ item_content i /\
    readKind (encode i ++ rest) = Ret (item_kind i, Z.of_nat (length h), Z.of_nat (length (item_content i))).
Proof.
  intros Hf. destruct i as [b|l].
  - destruct (single_byte_or_not b) as [(x & -> & Hx)|Hone].
    { exists []. simpl in *. destruct (Z.leb_spec x 0x7F); [|lia]. split; [done|]. by apply readKind_byte. }
    exists (puthead 0x80 0xB7 (Z.of_nat (length b))). simpl in *. rewrite string_bytes_head in * by done. split; [done|].
    replace (match b with [x] => if x <=? 127 then Byte else String_ | _ => String_ end) with String_.
    2:{ destruct b as [|x [|y b]]; [done| |done]. specialize (Hone x eq_refl). by destruct (Z.leb_spec x 0x7F); [lia|]. }
    unfold fits in Hf. rewrite !length_app in Hf. rewrite <- app_assoc. apply readKind_puthead; [by left|lia|lia].
  - exists (puthead 0xC0 0xF7 (Z.of_nat (length (encode_all l)))). simpl in *. split; [done|].
    unfold list_bytes, fits in *. rewrite !length_app in Hf. change (mjoin (encode <$> l)) with (encode_all l) in *.
    rewrite <- app_assoc. apply readKind_puthead; [by right|lia|lia].
Qed.

Lemma Split_item i rest : fits (encode i ++ rest) -> Split (encode i ++ rest) = Ret (item_kind i, item_content i, rest).
Proof.
  intros Hf. destruct (readKind_encode i rest Hf) as (h & Hh & Hk). rewrite Hh, <- app_assoc in *. by apply Split_of.
Qed.

Lemma encode_not_nil i : encode i <> [].
Proof.
  destruct i as [b|l]; simpl; unfold string_bytes, list_bytes, puthead; repeat case_match; done.
Qed.

Lemma item_kind_list i : item_kind i = List_ <-> exists l, i = RList l.
Proof.
  split; [|by intros [l ->]]. destruct i as [b|l]; [|by exists l]. simpl. by repeat case_match.
Qed.

(** Encodings are unique, and no encoding is a prefix of another. *)
Lemma encode_prefix_free i j r s : fits (encode i ++ r) -> encode i ++ r = encode j ++ s -> i = j /\ r = s.
Proof.
  revert j r s. induction i as [b|l IH] using item_induction; intros j r s Hf E.
  - pose proof (Split_item _ _ Hf) as H1. rewrite E in H1, Hf. rewrite (Split_item _ _ Hf) in H1.
    injection H1 as Hk Hc ->. split; [|done]. destruct j as [b'|l']; [by simpl in Hc; subst|].
    simpl in Hk. by repeat case_match.
  - pose proof (Split_item _ _ Hf) as H1. pose proof Hf as Hf'. rewrite E in H1, Hf'. rewrite (Split_item _ _ Hf') in H1.
    injection H1 as Hk Hc ->. split; [|done]. apply item_kind_list in Hk as [l' ->]. f_equal. simpl in Hc.
    assert (Hl : fits (encode_all l)).
    { apply fits_app in Hf as [Hf _]. by apply fits_app in Hf as [_ Hf]. }
    clear E Hf Hf'. revert l' Hc. induction IH as [|x l Hx Hl' IHl]; intros [|y l'] Hc; unfold encode_all in *; simpl in *.
    + done.
    + exfalso. apply app_nil in Hc as [Hc _]. by apply encode_not_nil in Hc.
    + exfalso. symmetry in Hc. apply app_nil in Hc as [Hc _]. by apply encode_not_nil in Hc.
    + symmetry in Hc. destruct (Hx y _ _ Hl Hc) as [-> Hr]. f_equal. apply IHl; [|by symmetry].
      by apply (proj2 (fits_app _ _ Hl)).
Qed.

Lemma CountValues_items l rest fuel n :
  fits (encode_all l ++ rest) -> (length l <= fuel)%nat ->
  CountValues_from fuel (encode_all l ++ rest) n = CountValues_from (fuel - length l) rest (n + Z.of_nat (length l)).
Proof.
  revert fuel n. induction l as [|i l IH]; intros fuel n Hf Hfuel.
  - simpl. by rewrite Nat.sub_0_r, Z.add_0_r.
  - destruct fuel as [|fuel]; [simpl in Hfuel; lia|]. unfold encode_all in *. simpl in *. rewrite <- app_assoc in *.
    destruct (readKind_encode i _ Hf) as (h & Hh & Hk).
    destruct (encode i ++ _) as [|b bs] eqn:E; [apply app_nil in E as [E _]; by apply encode_not_nil in E|].
    simpl CountValues_from. rewrite Hk. cbn [mbind outcome_mbind outcome_bind]. rewrite <- E, Hh.
    rewrite <- Nat2Z.inj_add, Nat2Z.id, <- length_app, drop_app_length.
    rewrite IH; [|rewrite <- E in Hf; by apply (proj2 (fits_app _ _ Hf))|lia]. f_equal. lia.
Qed.

(** ** The encoder *)

(** The string data of an item, and the headers of its lists from an offset on. *)
Fixpoint item_str (i : item) : bytes :=
  match i with
  | RString b => string_bytes b
  | RList l => mjoin (item_str <$> l)
  end.

Definition items_str (l : list item) : bytes := mjoin (item_str <$> l).

Fixpoint item_heads (off : Z) (i : item) : list listhead :=
  match i with
  | RString _ => []
  | RList l =>
      mkListhead off (Z.of_nat (length (encode_all l)))
      :: (fix go off l := match l with
                          | [] => []
                          | i :: l => item_heads off i ++ go (off + Z.of_nat (length (item_str i))) l
                          end) off l
  end.

Fixpoint items_heads (off : Z) (l : list item) : list listhead :=
  match l with
  | [] => []
  | i :: l => item_heads off i ++ items_heads (off + Z.of_nat (length (item_str i))) l
  end.

Lemma item_heads_list off l : item_heads off (RList l) = mkListhead off (Z.of_nat (length (encode_all l))) :: items_heads off l.
Proof. done. Qed.

(** What [write_item] adds to a buffer. *)
Definition written (str : bytes) (heads : list listhead) (lhsize : Z) (w w' : encbuf) : Prop :=
  eb_str w' = eb_str w ++ str /\ eb_lheads w' = eb_lheads w ++ heads /\ eb_lhsize w' = eb_lhsize w + lhsize.

Lemma written_trans s1 h1 n1 s2 h2 n2 w1 w2 w3 :
  written s1 h1 n1 w1 w2 -> written s2 h2 n2 w2 w3 -> written (s1 ++ s2) (h1 ++ h2) (n1 + n2) w1 w3.
Proof.
  intros (E1 & E2 & E3) (F1 & F2 & F3). split; [by rewrite F1, E1, app_assoc|]. split; [by rewrite F2, E2, app_assoc|lia].
Qed.

Lemma written_string b w : written (string_bytes b) [] 0 w (eb_encodeString b w).
Proof.
  unfold written, eb_encodeString, string_bytes, eb_encodeStringHeader, puthead.
  destruct b as [|x [|y b]]; [|destruct (Z.leb_spec x 0x7F)|]; cbn [length];
    repeat case_match; simpl; rewrite <- ?app_assoc; (split; [done|]); (split; [by rewrite app_nil_r|lia]).
Qed.

(** The headers take the rest of the encoding. *)
Definition extra (i : item) : Z := Z.of_nat (length (encode i)) - Z.of_nat (length (item_str i)).
Definition extras (l : list item) : Z := Z.of_nat (length (encode_all l)) - Z.of_nat (length (items_str l)).

Lemma extras_cons i l : extras (i :: l) = extra i + extras l.
Proof.
  unfold extras, extra. change (encode_all (i :: l)) with (encode i ++ encode_all l).
  change (items_str (i :: l)) with (item_str i ++ items_str l). rewrite !length_app. lia.
Qed.

Lemma write_items_written l w :
  Forall (fun i => forall w, fits (encode i) ->
            written (item_str i) (item_heads (Z.of_nat (length (eb_str w))) i) (extra i) w (write_item i w)) l ->
  fits (encode_all l) ->
  written (items_str l) (items_heads (Z.of_nat (length (eb_str w))) l) (extras l) w (foldl (fun w i => write_item i w) w l).
Proof.
  intros H. revert w. induction H as [|i l Hi Hl IH]; intros w Hf.
  - split; [simpl; by rewrite app_nil_r|]. split; [simpl; by rewrite app_nil_r|]. unfold extras. simpl. lia.
  - unfold encode_all in Hf. simpl in Hf. apply fits_app in Hf as [Hf1 Hf2]. rewrite extras_cons. simpl foldl.
    specialize (Hi w Hf1). eapply (written_trans (item_str i) _ _ (items_str l)); [exact Hi|].
    specialize (IH (write_item i w) Hf2). destruct Hi as (E1 & _). rewrite E1 in IH at 1.
    rewrite length_app, Nat2Z.inj_add in IH. exact IH.
Qed.

Lemma written_listEnd l w w' :
  fits (list_bytes (encode_all l)) ->
  written (items_str l) (items_heads (Z.of_nat (length (eb_str w))) l) (extras l) (snd (eb_list w)) w' ->
  written (items_str l) (item_heads (Z.of_nat (length (eb_str w))) (RList l)) (extra (RList l)) w
    (eb_listEnd (length (eb_lheads w)) w').
Proof.
  intros Hf (E1 & E2 & E3). simpl in E1, E2, E3. unfold eb_listEnd. rewrite E2, <- app_assoc. cbn [app]. rewrite list_lookup_middle by done.
  simpl lh_offset. simpl lh_size.
  assert (Hsz : eb_size w' - Z.of_nat (length (eb_str w)) - eb_lhsize w = Z.of_nat (length (encode_all l))).
  { unfold eb_size. rewrite E1, E3, length_app. unfold extras. lia. }
  rewrite Hsz. unfold fits, list_bytes in Hf. rewrite length_app in Hf.
  pose proof (length_puthead 0xC0 0xF7 (Z.of_nat (length (encode_all l))) ltac:(lia)) as Hh. unfold headsize in Hh.
  split; [done|]. split.
  - cbn [eb_lheads]. by rewrite insert_app_r_alt, Nat.sub_diag, item_heads_list by lia.
  - simpl eb_lhsize. unfold extra. simpl. unfold list_bytes. rewrite length_app.
    change (mjoin (encode <$> l)) with (encode_all l). change (mjoin (item_str <$> l)) with (items_str l).
    unfold extras in E3. destruct (Z.ltb_spec (Z.of_nat (length (encode_all l))) 56); lia.
Qed.

Lemma write_item_written i w :
  fits (encode i) -> written (item_str i) (item_heads (Z.of_nat (length (eb_str w))) i) (extra i) w (write_item i w).
Proof.
  revert w. induction i as [b|l IH] using item_induction; intros w Hf.
  - simpl. unfold extra. simpl. rewrite Z.sub_diag. apply written_string.
  - simpl write_item. apply (written_listEnd l w); [done|].
    apply (write_items_written l (snd (eb_list w)) IH). by apply (proj2 (fits_app _ _ Hf)).
Qed.

Lemma item_heads_ge i off : Forall (fun h => off <= lh_offset h) (item_heads off i).
Proof.
  revert off. induction i as [b|l IH] using item_induction; intros off; [done|]. rewrite item_heads_list.
  constructor; [simpl; lia|]. revert off. induction IH as [|i l Hi Hl IHl]; intros off; [done|]. simpl.
  apply Forall_app. split; [apply Hi|]. eapply Forall_impl; [apply IHl|]. intros h Hh. simpl in *. lia.
Qed.

Lemma items_heads_ge l off : Forall (fun h => off <= lh_offset h) (items_heads off l).
Proof. pose proof (item_heads_ge (RList l) off) as H. rewrite item_heads_list in H. by inversion H. Qed.

Lemma sub_split p q r b : 0 <= p -> p <= q -> q <= r -> sub p r b = sub p q b ++ sub q r b.
Proof.
  intros Hp Hq Hr. unfold sub. replace (Z.to_nat q) with (Z.to_nat p + Z.to_nat (q - p))%nat by lia.
  rewrite <- drop_drop. replace (Z.to_nat (r - p)) with (Z.to_nat (q - p) + Z.to_nat (r - q))%nat by lia.
  by rewrite take_take_drop.
Qed.

Lemma sub_nil p b : sub p p b = [].
Proof. unfold sub. by rewrite Z.sub_diag. Qed.

Lemma merge_heads_split str p q hs :
  0 <= p -> p <= q -> Forall (fun h => q <= lh_offset h) hs ->
  merge_heads str p hs = sub p q str ++ merge_heads str q hs.
Proof.
  intros Hp Hq H. destruct H as [|h hs Hh _]; simpl.
  - unfold sub. replace (Z.to_nat q) with (Z.to_nat p + Z.to_nat (q - p))%nat by lia.
    by rewrite <- drop_drop, take_drop.
  - by rewrite (sub_split p q), <- app_assoc by lia.
Qed.

(** After the data before the offset comes the encoding. *)
Definition merges (str : bytes) (off : Z) (data enc : bytes) (heads : list listhead) : Prop :=
  forall p hs, 0 <= p -> p <= off -> Forall (fun h => off + Z.of_nat (length data) <= lh_offset h) hs ->
    merge_heads str p (heads ++ hs) = sub p off str ++ enc ++ merge_heads str (off + Z.of_nat (length data)) hs.

Lemma merges_string pre b post :
  merges (pre ++ b ++ post) (Z.of_nat (length pre)) b b [].
Proof.
  intros p hs Hp Hle H. simpl. rewrite (merge_heads_split _ p (Z.of_nat (length pre) + Z.of_nat (length b))) by (lia || done).
  by rewrite (sub_split p (Z.of_nat (length pre))), sub_app, <- app_assoc by lia.
Qed.

Lemma merges_items l :
  Forall (fun i => forall pre post, merges (pre ++ item_str i ++ post) (Z.of_nat (length pre)) (item_str i) (encode i)
                                      (item_heads (Z.of_nat (length pre)) i)) l ->
  forall pre post, merges (pre ++ items_str l ++ post) (Z.of_nat (length pre)) (items_str l) (encode_all l)
                     (items_heads (Z.of_nat (length pre)) l).
Proof.
  induction 1 as [|i l Hi Hl IH]; intros pre post; [apply (merges_string pre [] post)|].
  change (items_str (i :: l)) with (item_str i ++ items_str l). change (encode_all (i :: l)) with (encode i ++ encode_all l).
  cbn [items_heads]. intros p hs Hp Hle H. rewrite length_app, Nat2Z.inj_add in H.
  rewrite <- !app_assoc. rewrite (Hi pre (items_str l ++ post)); [|done|done|].
  - f_equal. f_equal. specialize (IH (pre ++ item_str i) post). rewrite <- app_assoc, length_app, Nat2Z.inj_add in IH.
    rewrite IH; [|lia|lia|eapply Forall_impl; [exact H|]; intros h; simpl; lia].
    rewrite sub_nil, length_app, Nat2Z.inj_add, Z.add_assoc. done.
  - apply Forall_app. split; [apply items_heads_ge|]. eapply Forall_impl; [exact H|]. intros h; simpl; lia.
Qed.

Lemma merges_item i pre post :
  merges (pre ++ item_str i ++ post) (Z.of_nat (length pre)) (item_str i) (encode i) (item_heads (Z.of_nat (length pre)) i).
Proof.
  revert pre post. induction i as [b|l IH] using item_induction; intros pre post; [apply merges_string|].
  rewrite item_heads_list. intros p hs Hp Hle H. cbn [app merge_heads]. f_equal.
  cbn [encode]. unfold list_bytes, lh_encode. cbn [lh_size lh_offset]. rewrite <- app_assoc. f_equal.
  rewrite (merges_items l IH pre post) by (done || lia). rewrite sub_nil. done.
Qed.

(** C37. The encoder is the format: collecting strings and list headers in two buffers and
    merging them at the end, into an output of the size computed on the way, gives the
    recursive definition of the encoding, for every value whose encoding is shorter than
    the largest 64-bit number. *)
Theorem EncodeToBytes_correct i : fits (encode i) -> EncodeToBytes i = encode i.
Proof.
  intros Hf. unfold EncodeToBytes, eb_toBytes. destruct (write_item_written i eb_empty Hf) as (E1 & E2 & E3).
  simpl in E1, E2, E3. unfold eb_size. rewrite E1, E2, E3. cbn [length].
  pose proof (merges_item i [] [] 0 [] ltac:(lia) ltac:(simpl; lia) ltac:(constructor)) as H.
  rewrite !app_nil_r in H. cbn [app length] in H. change (Z.of_nat 0) with 0 in *. rewrite H. rewrite sub_nil. cbn [app merge_heads].
  rewrite !Z.add_0_l, !Nat2Z.id, drop_all, app_nil_r.
  unfold extra. replace (Z.to_nat _) with (length (encode i)) by lia.
  rewrite firstn_all, Nat.sub_diag. by rewrite app_nil_r.
Qed.

(** ** Nothing else is read *)

(** The encoding of a value of a kind and content. *)
Definition kind_bytes (k : Kind) (content : bytes) : bytes :=
  match k with
  | List_ => list_bytes content
  | _ => string_bytes content
  end.

Lemma readTag_inv x rest k ts cs :
  Forall byte_ok (x :: rest) -> readTag x rest = Ret (k, ts, cs) ->
  exists h body, x :: rest = h ++ body /\ ts = Z.of_nat (length h) /\ 0 <= cs < 2 ^ 64 /\
    match k with
    | Byte => h = [] /\ cs = 1 /\ x < 128
    | String_ => h = puthead 0x80 0xB7 cs /\ (cs = 1 -> forall y l, body = y :: l -> 128 <= y)
    | List_ => h = puthead 0xC0 0xF7 cs
    end.
Proof.
  intros [Hx Hr]%Forall_cons. unfold byte_ok in Hx. unfold readTag, puthead.
  assert (Hlarge : forall tag small, tag < x <= tag + 8 -> forall s, readSize rest (x - tag) = Ret s ->
    exists h body, x :: rest = h ++ body /\ x - tag + 1 = Z.of_nat (length h) /\ 56 <= s < 2 ^ 64 /\ h = puthead small tag s).
  { intros tag small Ht s Hs. destruct (readSize_inv rest (x - tag) s Hr ltac:(lia) Hs) as (Hb & Hl & Hp).
    exists (x :: take (Z.to_nat (x - tag)) rest), (drop (Z.to_nat (x - tag)) rest).
    split; [simpl; by rewrite take_drop|]. cbn [length]. rewrite length_take. split; [lia|]. split; [done|].
    unfold puthead. destruct (Z.ltb_spec s 56); [lia|]. rewrite Hp, length_take. f_equal. lia. }
  destruct (Z.ltb_spec x 0x80); [|destruct (Z.ltb_spec x 0xB8); [|destruct (Z.ltb_spec x 0xC0);
    [|destruct (Z.ltb_spec x 0xF8)]]].
  - intros [= <- <- <-]. by exists [], (x :: rest).
  - destruct ((x - 0x80 =? 1) && _) eqn:E; [done|]. intros [= <- <- <-]. exists [x], rest.
    split; [done|]. split; [done|]. split; [lia|]. destruct (Z.ltb_spec (x - 0x80) 56); [|lia].
    split; [f_equal; lia|]. intros E1 y l ->. rewrite E1 in E. simpl in E. apply Z.ltb_ge in E. lia.
  - destruct (readSize rest (x - 0xB7)) as [s| |] eqn:Hs; [|done..]. simpl. intros [= <- <- <-].
    destruct (Hlarge 0xB7 0x80 ltac:(lia) s Hs) as (h & body & E & Hts & Hb & Hh). exists h, body.
    split; [done|]. split; [done|]. split; [lia|]. split; [exact Hh|lia].
  - intros [= <- <- <-]. exists [x], rest. split; [done|]. split; [done|]. split; [lia|].
    destruct (Z.ltb_spec (x - 0xC0) 56); [|lia]. f_equal. lia.
  - destruct (readSize rest (x - 0xF7)) as [s| |] eqn:Hs; [|done..]. simpl. intros [= <- <- <-].
    destruct (Hlarge 0xF7 0xC0 ltac:(lia) s Hs) as (h & body & E & Hts & Hb & Hh). exists h, body.
    split; [done|]. split; [done|]. split; [lia|]. exact Hh.
Qed.

Lemma Split_inv b k content rest :
  Forall byte_ok b -> fits b -> Split b = Ret (k, content, rest) -> b = kind_bytes k content ++ rest.
Proof.
  intros Hb Hf. unfold Split, readKind. destruct b as [|x r]; [done|].
  destruct (readTag x r) as [[[k' ts] cs]| |] eqn:Ht; [|done..]. cbn [mbind outcome_mbind outcome_bind].
  destruct (readTag_inv x r k' ts cs Hb Ht) as (h & body & E & -> & Hcs & Hk). rewrite E in *. unfold fits in Hf.
  rewrite length_app in *. unfold u64. rewrite Z.mod_small by lia.
  destruct (Z.ltb_spec (Z.of_nat (length h + length body) - Z.of_nat (length h)) cs); [done|].
  cbn [mbind outcome_mbind outcome_bind]. intros [= <- <- <-].
  assert (Hc : exists content rest', body = content ++ rest' /\ cs = Z.of_nat (length content)).
  { exists (take (Z.to_nat cs) body), (drop (Z.to_nat cs) body). rewrite take_drop, length_take. split; [done|lia]. }
  destruct Hc as (content & rest & -> & ->). rewrite sub_app.
  rewrite <- Nat2Z.inj_add, Nat2Z.id, <- length_app, app_assoc, drop_app_length. f_equal.
  destruct k'; simpl.
  - destruct Hk as (-> & Hl & Hx). destruct content as [|y [|z content]]; simpl in Hl; try lia.
    simpl in E. injection E as -> _. simpl. by destruct (Z.leb_spec y 0x7F); [|lia].
  - destruct Hk as [-> Hone]. symmetry. apply string_bytes_head. intros y ->. by apply (Hone eq_refl y rest).
  - by rewrite Hk.
Qed.

(** What [Split] reads is an encoding, and the only one: it accepts the bytes of a value
    followed by anything, gives its kind, content and what follows, and whatever it
    accepts are the bytes the encoder writes for that content. *)
Theorem Split_encode :
  (forall i rest, fits (encode i ++ rest) -> Split (encode i ++ rest) = Ret (item_kind i, item_content i, rest)) /\
  (forall b k content rest, Forall byte_ok b -> fits b -> Split b = Ret (k, content, rest) -> b = kind_bytes k content ++ rest).
Proof. split; [exact Split_item|exact Split_inv]. Qed.

(** Different values have different encodings, also when something follows. *)
Theorem encode_unique i j r s : fits (encode i ++ r) -> encode i ++ r = encode j ++ s -> i = j /\ r = s.
Proof. apply encode_prefix_free. Qed.

Lemma CountValues_encode l : fits (encode_all l) -> CountValues (encode_all l) = Ret (Z.of_nat (length l)).
Proof.
  intros Hl. unfold CountValues. pose proof (CountValues_items l [] (length (encode_all l)) 0) as H. rewrite app_nil_r in H.
  rewrite H; [by destruct (length (encode_all l) - length l)%nat|done|]. clear H Hl.
  induction l as [|x l IH]; [done|]. change (encode_all (x :: l)) with (encode x ++ encode_all l).
  rewrite length_app. pose proof (encode_not_nil x). destruct (encode x); [done|]. simpl. lia.
Qed.

(** ** Integers *)

(** A number is the string of its bytes, zero the empty string. *)
Definition uint_bytes (i : Z) : bytes := if i =? 0 then [] else putint i.

Lemma AppendUint64_string b i : 0 <= i < 2 ^ 64 -> AppendUint64 b i = b ++ string_bytes (uint_bytes i).
Proof.
  intros Hi. unfold AppendUint64, uint_bytes, putint, string_bytes, puthead.
  destruct (Z.eqb_spec i 0); [done|]. destruct (Z.ltb_spec i 128).
  { destruct (Z.ltb_spec i (2 ^ 8)); [|lia]. simpl. rewrite Z.mod_small by lia. by destruct (Z.leb_spec i 0x7F); [|lia]. }
  destruct (Z.ltb_spec i (2 ^ 8)); [|by repeat (destruct (i <? _); [done|])].
  simpl. rewrite Z.mod_small by lia. by destruct (Z.leb_spec i 0x7F); [lia|].
Qed.

Lemma eb_encodeUint_string i w : 0 <= i < 2 ^ 64 -> eb_encodeUint i w = eb_append (string_bytes (uint_bytes i)) w.
Proof.
  intros Hi. rewrite <- (app_nil_l (string_bytes _)), <- AppendUint64_string by done.
  unfold eb_encodeUint, AppendUint64, putint. by repeat (destruct (_ : bool); [done|]).
Qed.

(** A 64-bit number that is appended is read back, and what follows it is kept. *)
Theorem SplitUint64_AppendUint64 i rest :
  0 <= i < 2 ^ 64 -> fits (AppendUint64 [] i ++ rest) -> SplitUint64 (AppendUint64 [] i ++ rest) = Ret (i, rest).
Proof.
  intros Hi. rewrite AppendUint64_string by done. simpl app at 1 3. intros Hf.
  unfold SplitUint64, SplitString. change (string_bytes (uint_bytes i)) with (encode (RString (uint_bytes i))) in *.
  rewrite Split_item by done. cbn [mbind outcome_mbind outcome_bind item_content].
  rewrite decide_False by (intros [l Hl]%item_kind_list; done). cbn [mbind outcome_mbind outcome_bind].
  unfold uint_bytes. destruct (Z.eqb_spec i 0) as [->|Hne]; [done|].
  destruct (putint_spec i ltac:(lia)) as (n & Hn & E & Hb). pose proof (readSize_putint i []) as Hr. rewrite app_nil_r in Hr.
  destruct (putint i) as [|x [|y l]] eqn:Ep.
  - apply (f_equal length) in E. rewrite length_be_bytes in E. done.
  - destruct n as [|n]; [|apply (f_equal length) in E; rewrite length_be_bytes in E; done]. simpl in E. injection E as ->.
    simpl in Hb. rewrite Z.mod_small by lia. by destruct (Z.eqb_spec i 0).
  - rewrite E, length_be_bytes in *. destruct (Nat.ltb_spec 8 (S n)); [lia|]. rewrite Hr; [done|].
    destruct n as [|n]; [by apply (f_equal length) in E|]. rewrite Nat2Z.inj_succ, Z.pow_succ_r in Hb by lia.
    assert (0 < 256 ^ Z.of_nat n) by (apply Z.pow_pos_nonneg; lia). lia.
Qed.

(** ** Examples *)

Definition exampleItem : item := RList [RString [0x64; 0x6F; 0x67]; RList [RString []; RString [5]]; RString (replicate 60 7)].

Lemma EncodeToBytes_correct_ex : EncodeToBytes exampleItem = [0xF8; 69; 0x83; 0x64; 0x6F; 0x67; 0xC2; 0x80; 5; 0xB8; 60] ++ replicate 60 7.
Proof. rewrite (EncodeToBytes_correct exampleItem); [by vm_compute|by vm_compute]. Defined.

Lemma Split_encode_ex :
  Split (encode (RString [0x64; 0x6F]) ++ [9; 9]) = Ret (String_, [0x64; 0x6F], [9; 9]) /\ [0x82; 0x64; 0x6F; 9; 9] = kind_bytes String_ [0x64; 0x6F] ++ [9; 9].
Proof.
  split.
  - apply (proj1 Split_encode (RString [0x64; 0x6F]) [9; 9]). by vm_compute.
  - apply (proj2 Split_encode [0x82; 0x64; 0x6F; 9; 9]); [repeat constructor; by vm_compute|by vm_compute|by vm_compute].
Defined.
