(* ===== verification/TrieEncoding.v ===== *)
(** The three encodings of keys in the Merkle Patricia trie: [trie/encoding.go].

    A key is a list of bytes; in memory, the list of its nibbles and a terminator, 16, at
    the end of the key of a value; on disk, the compact form with a flag in front. *)
From S2P Require Import Prelude KeyedList Common.

Open Scope Z_scope.

Definition hasTerm (s : bytes) : bool := match last s with Some x => x =? 16 | None => false end.

(** The callers pass an even number of nibbles. *)
Fixpoint decodeNibbles (nibbles : bytes) : bytes :=
  match nibbles with
  | a :: b :: nibbles => Z.lor (Z.shiftl a 4 mod 256) b :: decodeNibbles nibbles
  | _ => []
  end.

Definition hexToCompact (hex : bytes) : bytes :=
  let terminator := if hasTerm hex then 1 else 0 in
  let hex := if hasTerm hex then take (length hex - 1) hex else hex in
  let buf0 := Z.shiftl terminator 5 in
  if Z.land (Z.of_nat (length hex)) 1 =? 1 then
    Z.lor (Z.lor buf0 (Z.shiftl 1 4)) (hd 0 hex) :: decodeNibbles (tl hex)
  else buf0 :: decodeNibbles hex.

(** The loop of [hexToCompactInPlace]: a byte is written from two nibbles that have not been
    overwritten yet. *)
Fixpoint compact_loop (fuel bi ni hexLen : nat) (hex : bytes) : bytes :=
  match fuel with
  | O => hex
  | S fuel =>
      if (ni <? hexLen)%nat then
        compact_loop fuel (bi + 1) (ni + 2) hexLen
          (<[bi := Z.lor (Z.shiftl (default 0 (hex !! ni)) 4 mod 256) (default 0 (hex !! (ni + 1)%nat))]> hex)
      else hex
  end.

(** The buffer and the length of the key in it; an empty buffer has no room for the flag. *)
Definition hexToCompactInPlace (hex : bytes) : outcome (bytes * nat) :=
  let hexLen := if hasTerm hex then (length hex - 1)%nat else length hex in
  let firstByte := if hasTerm hex then Z.shiftl 1 5 else 0 in
  let binLen := (hexLen / 2 + 1)%nat in
  let '(firstByte, ni) :=
    if Z.land (Z.of_nat hexLen) 1 =? 1
    then (Z.lor (Z.lor firstByte (Z.shiftl 1 4)) (hd 0 hex), 1%nat) else (firstByte, 0%nat) in
  match compact_loop hexLen 1 ni hexLen hex with
  | [] => Panic
  | _ :: hex => Ret (firstByte :: hex, binLen)
  end.

Fixpoint nibbles_of (str : bytes) : bytes :=
  match str with
  | [] => []
  | b :: str => b / 16 :: b mod 16 :: nibbles_of str
  end.

Definition keybytesToHex (str : bytes) : bytes := nibbles_of str ++ [16].

Definition compactToHex (compact : bytes) : bytes :=
  match compact with
  | [] => compact
  | _ =>
      let base := keybytesToHex compact in
      let base := if hd 0 base <? 2 then take (length base - 1) base else base in
      let chop := 2 - Z.land (hd 0 base) 1 in
      drop (Z.to_nat chop) base
  end.

Definition hexToKeybytes (hex : bytes) : outcome bytes :=
  let hex := if hasTerm hex then take (length hex - 1) hex else hex in
  if negb (Z.land (Z.of_nat (length hex)) 1 =? 0) then Panic
  else Ret (decodeNibbles hex).

Fixpoint prefixLen (a b : bytes) : nat :=
  match a, b with
  | x :: a, y :: b => if x =? y then S (prefixLen a b) else O
  | _, _ => O
  end.

(** ** Keys *)

Definition nibble_ok (x : Z) : Prop := 0 <= x < 16.

(** A path in the trie, and the key of a value. *)
Definition path_ok (k : bytes) : Prop := Forall nibble_ok k.
Definition key_ok (k : bytes) : Prop := exists ns, k = ns ++ [16] /\ path_ok ns.

Lemma nibble_not_16 x : nibble_ok x -> x <> 16.
Proof. unfold nibble_ok. lia. Qed.

Lemma hasTerm_path k : path_ok k -> hasTerm k = false.
Proof.
  intros H. unfold hasTerm. destruct (last k) as [x|] eqn:E; [|done].
  apply last_Some in E as [l ->]. apply Forall_app in H as [_ H]. inversion_clear H as [|? ? Hx _].
  apply Z.eqb_neq. by apply nibble_not_16.
Qed.

Lemma hasTerm_key ns : hasTerm (ns ++ [16]) = true.
Proof. unfold hasTerm. by rewrite last_snoc. Qed.

Lemma chop_term (ns : bytes) x : take (length (ns ++ [x]) - 1) (ns ++ [x]) = ns.
Proof. rewrite length_app. simpl. rewrite Nat.add_sub. by rewrite take_app_length. Qed.

(** ** Pairs of nibbles *)

Lemma join_nibbles a b : nibble_ok a -> nibble_ok b -> Z.lor (Z.shiftl a 4 mod 256) b = a * 16 + b.
Proof.
  unfold nibble_ok. intros Ha Hb. rewrite Z.shiftl_mul_pow2 by lia. change (2 ^ 4) with 16. rewrite Z.mod_small by lia.
  rewrite <- Z.add_lor_land. replace (Z.land (a * 16) b) with 0; [lia|]. symmetry. apply Z.bits_inj'. intros n Hn.
  rewrite Z.land_spec, Z.bits_0. change 16 with (2 ^ 4). destruct (Z.lt_ge_cases n 4).
  - by rewrite Z.mul_pow2_bits_low by lia.
  - rewrite (Z.bits_above_log2 b n); [by rewrite andb_false_r|lia|].
    destruct (decide (b = 0)) as [->|]; [simpl; lia|]. apply Z.log2_lt_pow2; [lia|].
    assert (2 ^ 4 <= 2 ^ n) by (apply Z.pow_le_mono_r; lia). lia.
Qed.

Lemma decodeNibbles_of str : Forall byte_ok str -> decodeNibbles (nibbles_of str) = str.
Proof.
  induction 1 as [|b str Hb Hs IH]; [done|]. unfold byte_ok in Hb. cbn [nibbles_of decodeNibbles]. rewrite IH. f_equal.
  rewrite join_nibbles; [|split; [apply Z.div_pos; lia|apply Z.div_lt_upper_bound; lia]|apply Z.mod_pos_bound; lia].
  pose proof (Z.div_mod b 16). lia.
Qed.

Lemma nibbles_of_decode ns : path_ok ns -> (length ns mod 2 = 0)%nat -> nibbles_of (decodeNibbles ns) = ns.
Proof.
  remember (length ns) as n eqn:En. revert ns En. induction n as [n IH] using lt_wf_ind. intros ns -> Hp Hev.
  destruct ns as [|a [|b ns]]; [done|done|]. inversion_clear Hp as [|? ? Ha Hp']. inversion_clear Hp' as [|? ? Hb Hns].
  cbn [decodeNibbles nibbles_of]. rewrite join_nibbles by done.
  unfold nibble_ok in Ha, Hb. rewrite Z.div_add_l, (Z.div_small b), Z.add_0_r by lia.
  rewrite Z.add_comm, Z.mod_add, Z.mod_small by lia. do 2 f_equal.
  apply (IH (length ns)); [simpl; lia|done|done|].
  cbn [length] in Hev. replace (S (S (length ns))) with (length ns + 1 * 2)%nat in Hev by lia.
  by rewrite Nat.Div0.mod_add in Hev.
Qed.

Lemma length_nibbles_of str : length (nibbles_of str) = (2 * length str)%nat.
Proof. induction str as [|b str IH]; [done|]. simpl. rewrite IH. lia. Qed.

Lemma path_nibbles_of str : Forall byte_ok str -> path_ok (nibbles_of str).
Proof.
  induction 1 as [|b str Hb Hs IH]; [constructor|]. unfold byte_ok in Hb. simpl.
  constructor; [split; [apply Z.div_pos; lia|apply Z.div_lt_upper_bound; lia]|].
  constructor; [apply Z.mod_pos_bound; lia|exact IH].
Qed.

Lemma keybytesToHex_ok str : Forall byte_ok str -> key_ok (keybytesToHex str).
Proof. intros H. exists (nibbles_of str). split; [done|]. by apply path_nibbles_of. Qed.

(** ** Round trips *)

Lemma odd_land n : (Z.land (Z.of_nat n) 1 =? 1) = negb (Z.land (Z.of_nat n) 1 =? 0) /\
  (Z.land (Z.of_nat n) 1 =? 0) = (n mod 2 =? 0)%nat.
Proof.
  change 1 with (Z.ones 1). rewrite Z.land_ones by lia. change (2 ^ 1) with (Z.of_nat 2). rewrite <- Nat2Z.inj_mod.
  pose proof (Nat.mod_upper_bound n 2). destruct (n mod 2)%nat as [|[|m]]; [done|done|lia].
Qed.

Lemma compact_first f x : (f = 0 \/ f = 32) -> nibble_ok x ->
  Z.lor (Z.lor f (Z.shiftl 1 4)) x = f + 16 + x.
Proof.
  intros [->| ->] Hx.
  - change (Z.lor (Z.lor 0 (Z.shiftl 1 4)) x) with (Z.lor (Z.shiftl 1 4 mod 256) x).
    rewrite join_nibbles by (done || unfold nibble_ok; lia). lia.
  - change (Z.lor (Z.lor 32 (Z.shiftl 1 4)) x) with (Z.lor (Z.shiftl 3 4 mod 256) x).
    rewrite join_nibbles by (done || unfold nibble_ok; lia). lia.
Qed.

(** The compact form of a path, with the flag [f] for a terminator. *)
Definition compact_path (f : Z) (ns : bytes) : bytes :=
  if (length ns mod 2 =? 0)%nat then f :: decodeNibbles ns
  else match ns with x :: ns => f + 16 + x :: decodeNibbles ns | [] => [] end.

Lemma hexToCompact_body f ns :
  (f = 0 \/ f = 32) -> path_ok ns ->
  (if Z.land (Z.of_nat (length ns)) 1 =? 1 then Z.lor (Z.lor f (Z.shiftl 1 4)) (hd 0 ns) :: decodeNibbles (tl ns)
   else f :: decodeNibbles ns) = compact_path f ns.
Proof.
  intros Hf Hp. unfold compact_path. destruct (odd_land (length ns)) as [-> ->].
  destruct (length ns mod 2 =? 0)%nat eqn:E; [done|]. destruct ns as [|x ns]; [done|]. simpl.
  rewrite compact_first; [done|done|]. by inversion Hp.
Qed.

Lemma hexToCompact_path ns : path_ok ns -> hexToCompact ns = compact_path 0 ns.
Proof. intros H. unfold hexToCompact. rewrite (hasTerm_path ns H). apply hexToCompact_body; [by left|done]. Qed.

Lemma hexToCompact_key ns : path_ok ns -> hexToCompact (ns ++ [16]) = compact_path 32 ns.
Proof. intros H. unfold hexToCompact. rewrite hasTerm_key, chop_term. apply hexToCompact_body; [by right|done]. Qed.

Lemma compactToHex_cons c ns b compact :
  nibbles_of compact = ns -> c / 16 = b -> 0 <= b < 4 ->
  compactToHex (c :: compact) = (if Z.odd b then [c mod 16] else []) ++ ns ++ (if b <? 2 then [] else [16]).
Proof.
  intros Hns Hc Hb. unfold compactToHex, keybytesToHex. cbn [nibbles_of app hd]. rewrite Hns, Hc.
  pose proof (chop_term (b :: c mod 16 :: ns) 16) as Hchop. cbn [app] in Hchop. rewrite Hchop.
  assert (b = 0 \/ b = 1 \/ b = 2 \/ b = 3) as [->|[->|[->| ->]]] by lia; simpl; by rewrite ?app_nil_r.
Qed.

Lemma compactToHex_path f ns :
  (f = 0 \/ f = 32) -> path_ok ns -> compactToHex (compact_path f ns) = if f =? 0 then ns else ns ++ [16].
Proof.
  intros Hf Hp. unfold compact_path. destruct (Nat.eqb_spec (length ns mod 2) 0) as [Hev|Hodd].
  - rewrite (compactToHex_cons f ns (f / 16)); [|by apply nibbles_of_decode|done|destruct Hf; subst; vm_compute; done].
    destruct Hf as [->| ->]; simpl; by rewrite ?app_nil_r.
  - destruct ns as [|x ns]; [done|]. inversion_clear Hp as [|? ? Hx Hns]. unfold nibble_ok in Hx.
    assert (Hev : (length ns mod 2 = 0)%nat).
    { cbn [length] in Hodd. rewrite <- (Nat.add_1_r (length ns)), Nat.Div0.add_mod in Hodd.
      pose proof (Nat.mod_upper_bound (length ns) 2). destruct (length ns mod 2)%nat as [|[|m]]; [done|done|lia]. }
    assert (Hq : (f + 16 + x) / 16 = f / 16 + 1 /\ (f + 16 + x) mod 16 = x).
    { replace (f + 16 + x) with ((f / 16 + 1) * 16 + x) by (assert (f / 16 * 16 = f) by (by destruct Hf; subst); lia).
      rewrite Z.div_add_l, (Z.div_small x), Z.add_0_r by lia. split; [done|].
      by rewrite Z.add_comm, Z.mod_add, Z.mod_small by lia. }
    destruct Hq as [Hq Hm].
    rewrite (compactToHex_cons _ ns (f / 16 + 1)); [|by apply nibbles_of_decode|done|destruct Hf; subst; vm_compute; done].
    rewrite Hm. destruct Hf as [->| ->]; simpl; by rewrite ?app_nil_r.
Qed.

Lemma compact_hex k : path_ok k \/ key_ok k -> compactToHex (hexToCompact k) = k.
Proof.
  intros [Hp|(ns & -> & Hp)].
  - rewrite hexToCompact_path, compactToHex_path by (auto || done). done.
  - rewrite hexToCompact_key, compactToHex_path by (auto || done). done.
Qed.

Lemma hexToCompact_inj k k' : path_ok k \/ key_ok k -> path_ok k' \/ key_ok k' -> hexToCompact k = hexToCompact k' -> k = k'.
Proof. intros H H' E. by rewrite <- (compact_hex k H), E, compact_hex. Qed.

Lemma hex_keybytes k : Forall byte_ok k -> hexToKeybytes (keybytesToHex k) = Ret k.
Proof.
  intros H. unfold hexToKeybytes, keybytesToHex. rewrite hasTerm_key, chop_term.
  destruct (odd_land (length (nibbles_of k))) as [_ ->]. rewrite length_nibbles_of, Nat.mul_comm, Nat.Div0.mod_mul. simpl.
  by rewrite decodeNibbles_of.
Qed.

Lemma keybytesToHex_inj k k' : Forall byte_ok k -> Forall byte_ok k' -> keybytesToHex k = keybytesToHex k' -> k = k'.
Proof. intros H H' E. apply hex_keybytes in H, H'. rewrite E in H. congruence. Qed.

(** ** The version in place *)

Lemma decode_step m ni (hex : bytes) :
  (ni + 2 * S m <= length hex)%nat ->
  decodeNibbles (take (2 * S m) (drop ni hex))
  = Z.lor (Z.shiftl (default 0 (hex !! ni)) 4 mod 256) (default 0 (hex !! (ni + 1)%nat))
    :: decodeNibbles (take (2 * m) (drop (ni + 2) hex)).
Proof.
  intros H. destruct (lookup_lt_is_Some_2 hex ni) as [a Ha]; [lia|].
  destruct (lookup_lt_is_Some_2 hex (ni + 1)) as [b Hb]; [lia|]. rewrite Ha, Hb.
  rewrite (drop_S hex a ni Ha), (drop_S hex b (S ni)) by (by rewrite <- Hb; f_equal; lia).
  replace (2 * S m)%nat with (S (S (2 * m))) by lia. cbn [take decodeNibbles default from_option id].
  by replace (S (S ni)) with (ni + 2)%nat by lia.
Qed.

Lemma compact_loop_spec m fuel bi ni hexLen hex :
  (m <= fuel)%nat -> (ni + 2 * m = hexLen)%nat -> (hexLen <= length hex)%nat -> (bi <= ni + 1)%nat ->
  (bi + m <= length hex)%nat ->
  take (bi + m) (compact_loop fuel bi ni hexLen hex) = take bi hex ++ decodeNibbles (take (2 * m) (drop ni hex)).
Proof.
  revert fuel bi ni hex. induction m as [|m IH]; intros fuel bi ni hex Hf Hn Hl Hb Hbl.
  - rewrite Nat.add_0_r. simpl. rewrite app_nil_r. destruct fuel; simpl; [done|].
    by destruct (Nat.ltb_spec ni hexLen); [lia|].
  - destruct fuel as [|fuel]; [lia|]. simpl compact_loop. destruct (Nat.ltb_spec ni hexLen); [|lia].
    rewrite decode_step by lia. set (v := Z.lor _ _).
    replace (bi + S m)%nat with (bi + 1 + m)%nat by lia.
    rewrite IH by (rewrite ?length_insert; lia).
    replace (bi + 1)%nat with (S bi) at 1 by lia.
    rewrite (take_S_r _ _ v) by (by rewrite list_lookup_insert_eq by lia).
    rewrite take_insert_ge by lia. rewrite <- app_assoc. cbn [app].
    by rewrite drop_insert_lt by lia.
Qed.

Lemma length_compact_loop fuel bi ni hexLen hex : length (compact_loop fuel bi ni hexLen hex) = length hex.
Proof.
  revert bi ni hex. induction fuel as [|fuel IH]; intros bi ni hex; simpl; [done|].
  destruct (ni <? hexLen)%nat; [|done]. by rewrite IH, length_insert.
Qed.

Lemma first_byte hex loop (f : Z) n rest :
  hex <> [] -> take (1 + n) loop = take 1 hex ++ rest ->
  exists buf m, match loop with [] => Panic | _ :: h => Ret (f :: h, (n + 1)%nat) end = Ret (buf, m) /\
                take m buf = f :: rest.
Proof.
  intros Hne Hs. destruct hex as [|x hex]; [done|]. destruct loop as [|y loop]; [done|].
  cbn in Hs. rewrite take_0 in Hs. injection Hs as -> Hs. eexists _, _. split; [done|].
  rewrite Nat.add_comm. simpl. by rewrite Hs.
Qed.

Lemma tl_take {A} n (l : list A) : tl (take n l) = take (n - 1) (drop 1 l).
Proof. destruct n, l; simpl; try done. by rewrite take_nil. by rewrite Nat.sub_0_r, drop_0. Qed.

Lemma length_keybytesToHex str : length (keybytesToHex str) = (2 * length str + 1)%nat.
Proof. unfold keybytesToHex. rewrite length_app. simpl. f_equal. induction str as [|b str IH]; [done|]. simpl in *. rewrite IH. lia. Qed.

(** The compact form computed in place, by writing each byte over nibbles that have been
    read, is the one computed into a new buffer. *)
Theorem hexToCompactInPlace_correct hex :
  hex <> [] -> exists buf n, hexToCompactInPlace hex = Ret (buf, n) /\ take n buf = hexToCompact hex.
Proof.
  intros Hne. unfold hexToCompactInPlace, hexToCompact.
  set (hexLen := if hasTerm hex then (length hex - 1)%nat else length hex).
  set (body := if hasTerm hex then take (length hex - 1) hex else hex).
  assert (length body = hexLen /\ (hexLen <= length hex)%nat /\ take hexLen hex = body /\
          (hexLen / 2 < length hex)%nat) as (Hb & Hle & Ht & Hroom).
  { unfold body, hexLen. assert (0 < length hex)%nat by (destruct hex; [done|simpl; lia]).
    destruct (hasTerm hex); [rewrite length_take|rewrite firstn_all]; repeat split; try lia;
      apply Nat.Div0.div_lt_upper_bound; lia. }
  replace (Z.shiftl (if hasTerm hex then 1 else 0) 5) with (if hasTerm hex then Z.shiftl 1 5 else 0)
    by by destruct (hasTerm hex).
  rewrite Hb. pose proof (Nat.div_mod_eq hexLen 2) as Hdm. destruct (odd_land hexLen) as [-> ->].
  destruct (Nat.eqb_spec (hexLen mod 2) 0) as [Hev|Hodd]; cbn [negb].
  - assert (Hs := compact_loop_spec (hexLen / 2) hexLen 1 0 hexLen hex
                    ltac:(lia) ltac:(lia) Hle ltac:(lia) ltac:(lia)).
    replace (2 * (hexLen / 2))%nat with hexLen in Hs by lia. rewrite drop_0, Ht in Hs.
    by apply (first_byte hex).
  - assert (hexLen mod 2 = 1)%nat by (pose proof (Nat.mod_upper_bound hexLen 2); lia).
    assert (Hs := compact_loop_spec (hexLen / 2) hexLen 1 1 hexLen hex
                    ltac:(lia) ltac:(lia) Hle ltac:(lia) ltac:(lia)).
    replace (hd 0 body) with (hd 0 hex) by (rewrite <- Ht; destruct hexLen, hex; done || lia).
    apply (first_byte hex); [done|]. rewrite Hs. f_equal. f_equal.
    rewrite <- Ht, tl_take. f_equal. lia.
Qed.

Lemma hexToCompactInPlace_correct_ex : exists buf n, hexToCompactInPlace [1; 2; 3; 16] = Ret (buf, n) /\ take n buf = [0x31; 0x23].
Proof. destruct (hexToCompactInPlace_correct [1; 2; 3; 16]) as (buf & n & E & H); [done|]. exists buf, n. split; [exact E|]. rewrite H. by vm_compute. Defined.
