(* ===== verification/TrieNode.v ===== *)
(** The nodes of the Merkle Patricia trie and their two stored forms: [trie/node.go], and
    the raw nodes of [trie/database.go].

    A node in memory has its key in nibbles and a cached hash.  A collapsed node has the key
    in compact form and its children replaced by hashes, or embedded when they are small;
    the database keeps it as a raw node, without flags, or as its encoding. *)
From S2P Require Import Prelude KeyedList Common Rlp TrieEncoding.

Open Scope Z_scope.

(** A hash that is absent is the nil slice. *)
Record nodeFlag : Type := mkNodeFlag { nf_hash : option bytes; nf_dirty : bool }.

(** The values of the interface [node], the nil interface included.  The encoded form
    [rawNode] is only built by the stack trie, which never stores it. *)
Inductive node : Type :=
| nil_node
| fullNode (Children : list node) (flags : nodeFlag)
| shortNode (Key : bytes) (Val : node) (flags : nodeFlag)
| hashNode (h : bytes)
| valueNode (v : bytes)
| rawFullNode (Children : list node)
| rawShortNode (Key : bytes) (Val : node).

Definition nilValueNode : node := valueNode [].

Definition is_nil (n : node) : bool := match n with nil_node => true | _ => false end.

(** The flags of a node; raw nodes and the nil interface have no method to call. *)
Definition node_cache (n : node) : outcome (option bytes * bool) :=
  match n with
  | fullNode _ fl | shortNode _ _ fl => Ret (nf_hash fl, nf_dirty fl)
  | hashNode _ | valueNode _ => Ret (None, true)
  | rawFullNode _ | rawShortNode _ _ | nil_node => Panic
  end.

(** What [rlp.Encode] writes for a node: the exported fields of a short node, the children of
    a full node with the empty string for an absent one, and an empty list for a nil
    interface in any other place. *)
Fixpoint node_item (n : node) : item :=
  let child c := match c with nil_node => RString [] | _ => node_item c end in
  match n with
  | nil_node => RList []
  | fullNode cs _ | rawFullNode cs => RList (child <$> cs)
  | shortNode k v _ | rawShortNode k v => RList [RString k; node_item v]
  | hashNode b | valueNode b => RString b
  end.

Definition child_item (c : node) : item := match c with nil_node => RString [] | _ => node_item c end.

(** ** Decoding *)

(** Where in a node a decoding error was met. *)
Inductive decodeCtx : Type := ctx_short | ctx_full | ctx_val | ctx_index (i : nat).

Inductive decodeErr : Type :=
| de_unexpectedEOF
| de_rlp (e : error)
| de_list (e : error)
| de_count (c : Z)
| de_valueNode (e : error)
| de_oversized (size : Z)
| de_stringSize (n : Z)
| decodeError (what : decodeErr) (stack : list decodeCtx).

Inductive decoded (A : Type) : Type :=
| Decoded (a : A)
| DecodeErr (e : decodeErr).
Arguments Decoded {A} _.
Arguments DecodeErr {A} _.

#[export] Instance decoded_mret : MRet decoded := fun A => @Decoded A.
#[export] Instance decoded_mbind : MBind decoded := fun A B f d =>
  match d with Decoded a => f a | DecodeErr e => DecodeErr e end.

Definition wrapError {A : Type} (r : decoded A) (ctx : decodeCtx) : decoded A :=
  match r with
  | Decoded a => Decoded a
  | DecodeErr (decodeError what stack) => DecodeErr (decodeError what (stack ++ [ctx]))
  | DecodeErr e => DecodeErr (decodeError e [ctx])
  end.

(** The result of a function of [rlp/raw.go], which does not panic. *)
Definition of_rlp {A : Type} (o : outcome A) (f : error -> decodeErr) : decoded A :=
  match o with
  | Ret a => Decoded a
  | Err e => DecodeErr (f e)
  | Panic => DecodeErr de_unexpectedEOF
  end.

Definition hashLen : Z := 32.

Section decode.
(** [decodeNode], for an embedded node *)
Context (decodeNode : option bytes -> bytes -> decoded node).

Definition decodeRef (buf : bytes) : decoded (node * bytes) :=
  '(kind, val, rest) ← of_rlp (Split buf) de_rlp;
  match kind with
  | List_ =>
      let size := Z.of_nat (length buf) - Z.of_nat (length rest) in
      if hashLen <? size then DecodeErr (de_oversized size)
      else n ← decodeNode None buf; Decoded (n, rest)
  | String_ =>
      if (length val =? 0)%nat then Decoded (nil_node, rest)
      else if (length val =? 32)%nat then Decoded (hashNode val, rest)
      else DecodeErr (de_stringSize (Z.of_nat (length val)))
  | Byte => DecodeErr (de_stringSize (Z.of_nat (length val)))
  end.

Definition decodeShort (hash : option bytes) (elems : bytes) : decoded node :=
  '(kbuf, rest) ← of_rlp (SplitString elems) de_rlp;
  let flag := mkNodeFlag hash false in
  let key := compactToHex kbuf in
  if hasTerm key then
    '(val, _) ← of_rlp (SplitString rest) de_valueNode;
    Decoded (shortNode key (valueNode val) flag)
  else
    '(r, _) ← wrapError (decodeRef rest) ctx_val;
    Decoded (shortNode key r flag).

(** The loop over the first sixteen children, [k] of them left. *)
Fixpoint decode_children (k : nat) (elems : bytes) : decoded (list node * bytes) :=
  match k with
  | O => Decoded ([], elems)
  | S k' =>
      '(cld, rest) ← wrapError (decodeRef elems) (ctx_index (16 - k));
      '(cs, elems) ← decode_children k' rest;
      Decoded (cld :: cs, elems)
  end.

Definition decodeFull (hash : option bytes) (elems : bytes) : decoded node :=
  '(cs, elems) ← decode_children 16 elems;
  '(val, _) ← of_rlp (SplitString elems) de_rlp;
  Decoded (fullNode (cs ++ [if (length val =? 0)%nat then nil_node else valueNode val]) (mkNodeFlag hash false)).
End decode.

(** Each nested node lies in the content of a list, so the length of the buffer bounds the
    depth. *)
Fixpoint decodeNode_fuel (fuel : nat) (hash : option bytes) (buf : bytes) : decoded node :=
  match fuel with
  | O => DecodeErr de_unexpectedEOF
  | S fuel =>
      if (length buf =? 0)%nat then DecodeErr de_unexpectedEOF
      else
        '(elems, _) ← of_rlp (SplitList buf) de_list;
        let c := match CountValues elems with Ret c => c | _ => 0 end in
        if c =? 2 then wrapError (decodeShort (decodeNode_fuel fuel) hash elems) ctx_short
        else if c =? 17 then wrapError (decodeFull (decodeNode_fuel fuel) hash elems) ctx_full
        else DecodeErr (de_count c)
  end.

Definition decodeNode (hash : option bytes) (buf : bytes) : decoded node :=
  decodeNode_fuel (S (length buf)) hash buf.

Definition mustDecodeNode (hash : option bytes) (buf : bytes) : outcome node :=
  match decodeNode hash buf with
  | Decoded n => Ret n
  | DecodeErr _ => Panic
  end.

(** ** Raw nodes *)

Fixpoint simplifyNode (n : node) : outcome node :=
  match n with
  | shortNode k v _ => v ← simplifyNode v; Ret (rawShortNode k v)
  | fullNode cs _ =>
      cs ← mapM (fun c => match c with nil_node => Ret nil_node | _ => simplifyNode c end) cs;
      Ret (rawFullNode cs)
  | valueNode _ | hashNode _ => Ret n
  | nil_node | rawFullNode _ | rawShortNode _ _ => Panic
  end.

Fixpoint expandNode (hash : option bytes) (n : node) : outcome node :=
  match n with
  | rawShortNode k v => v ← expandNode None v; Ret (shortNode (compactToHex k) v (mkNodeFlag hash false))
  | rawFullNode cs =>
      cs ← mapM (fun c => match c with nil_node => Ret nil_node | _ => expandNode None c end) cs;
      Ret (fullNode cs (mkNodeFlag hash false))
  | valueNode _ | hashNode _ => Ret n
  | nil_node | fullNode _ _ | shortNode _ _ _ => Panic
  end.

(** The loop over the first [k] children. *)
Definition gather_first (gather : node -> outcome (list Hash)) : nat -> list node -> outcome (list Hash) :=
  fix go k cs {struct cs} :=
    match k, cs with
    | S k, c :: cs => l ← gather c; ls ← go k cs; Ret (l ++ ls)
    | _, _ => Ret []
    end.

(** The hashes of the children of a raw node, in the order of the callbacks. *)
Fixpoint forGatherChildren (n : node) : outcome (list Hash) :=
  match n with
  | rawShortNode _ v => forGatherChildren v
  | rawFullNode cs => gather_first forGatherChildren 16 cs
  | hashNode h => Ret [BytesToHash h]
  | valueNode _ | nil_node => Ret []
  | fullNode _ _ | shortNode _ _ _ => Panic
  end.
