(* ===== verification/TrieDatabase.v ===== *)
(** The database in front of the disk: [trie/database.go].

    Nodes that were committed are kept in memory ([dirties]), with the number of nodes that
    refer to each and in a list ordered by age, the flush list; they are written to disk
    when their trie is committed or when the memory is needed, and dropped when no root
    refers to them.

    The model is of a database without a cache of clean nodes ([NewDatabase]).  Writing to
    the disk succeeds.  Sizes, floating-point numbers in the code, are integers; metrics and
    logs are left out. *)
From S2P Require Import Prelude KeyedList Common Rlp TrieEncoding TrieNode.

Open Scope Z_scope.

Record cachedNode : Type := mkCachedNode {
  cn_node : node;
  cn_size : Z;
  cn_parents : Z;
  cn_children : option (gmap Hash Z);
  cn_flushPrev : Hash;
  cn_flushNext : Hash;
}.

(** [diskdb] is a key-value store; the keys of nodes are their hashes, those of preimages have
    a prefix of their own. *)
Record Database : Type := mkDatabase {
  db_disk : gmap Hash bytes;
  db_diskPreimages : gmap Hash bytes;
  db_dirties : gmap Hash cachedNode;
  db_oldest : Hash;
  db_newest : Hash;
  db_preimages : option (gmap Hash bytes);
  db_dirtiesSize : Z;
  db_childrenSize : Z;
  db_preimagesSize : Z;
}.

(** The size of the structure on a 64-bit machine. *)
Definition cachedNodeSize : Z := 96.
Definition cachedNodeChildrenSize : Z := 48.

(** The entry of the metaroot. *)
Definition metaroot : cachedNode := mkCachedNode nil_node 0 0 (Some ∅) 0 0.

Definition NewDatabase (disk preimages : gmap Hash bytes) : Database :=
  mkDatabase disk preimages {[ 0 := metaroot ]} 0 0 (Some ∅) 0 0 0.

(** ** Fields *)

Definition set_dirties (d : gmap Hash cachedNode) (db : Database) : Database :=
  mkDatabase (db_disk db) (db_diskPreimages db) d (db_oldest db) (db_newest db) (db_preimages db)
    (db_dirtiesSize db) (db_childrenSize db) (db_preimagesSize db).
Definition set_ends (oldest newest : Hash) (db : Database) : Database :=
  mkDatabase (db_disk db) (db_diskPreimages db) (db_dirties db) oldest newest (db_preimages db)
    (db_dirtiesSize db) (db_childrenSize db) (db_preimagesSize db).
Definition set_sizes (dirties children : Z) (db : Database) : Database :=
  mkDatabase (db_disk db) (db_diskPreimages db) (db_dirties db) (db_oldest db) (db_newest db) (db_preimages db)
    dirties children (db_preimagesSize db).
Definition set_disk (disk : gmap Hash bytes) (db : Database) : Database :=
  mkDatabase disk (db_diskPreimages db) (db_dirties db) (db_oldest db) (db_newest db) (db_preimages db)
    (db_dirtiesSize db) (db_childrenSize db) (db_preimagesSize db).
Definition set_preimages (disk : gmap Hash bytes) (p : option (gmap Hash bytes)) (size : Z) (db : Database) : Database :=
  mkDatabase (db_disk db) disk (db_dirties db) (db_oldest db) (db_newest db) p
    (db_dirtiesSize db) (db_childrenSize db) size.

Definition set_parents (p : Z) (e : cachedNode) : cachedNode :=
  mkCachedNode (cn_node e) (cn_size e) p (cn_children e) (cn_flushPrev e) (cn_flushNext e).
Definition set_children (c : option (gmap Hash Z)) (e : cachedNode) : cachedNode :=
  mkCachedNode (cn_node e) (cn_size e) (cn_parents e) c (cn_flushPrev e) (cn_flushNext e).
Definition set_flushPrev (h : Hash) (e : cachedNode) : cachedNode :=
  mkCachedNode (cn_node e) (cn_size e) (cn_parents e) (cn_children e) h (cn_flushNext e).
Definition set_flushNext (h : Hash) (e : cachedNode) : cachedNode :=
  mkCachedNode (cn_node e) (cn_size e) (cn_parents e) (cn_children e) (cn_flushPrev e) h.

(** [db.dirties[h].f = ...], a nil dereference when there is no entry *)
Definition upd (h : Hash) (f : cachedNode -> cachedNode) (db : Database) : outcome Database :=
  match db_dirties db !! h with
  | Some e => Ret (set_dirties (<[h := f e]> (db_dirties db)) db)
  | None => Panic
  end.

(** ** Reading *)

Definition cn_rlp (e : cachedNode) : bytes := encode (node_item (cn_node e)).

Definition cn_obj (e : cachedNode) (hash : Hash) : outcome node := expandNode (Some (Hash_Bytes hash)) (cn_node e).

(** The children of an entry, the external ones first. *)
Definition forChilds (e : cachedNode) : outcome (list Hash) :=
  inner ← forGatherChildren (cn_node e);
  Ret (match cn_children e with Some m => (map_to_list m).*1 | None => [] end ++ inner).

Definition db_node (db : Database) (hash : Hash) : outcome (option node) :=
  match db_dirties db !! hash with
  | Some e => n ← cn_obj e hash; Ret (Some n)
  | None =>
      match db_disk db !! hash with
      | Some enc => n ← mustDecodeNode (Some (Hash_Bytes hash)) enc; Ret (Some n)
      | None => Ret None
      end
  end.

Definition db_Node (db : Database) (hash : Hash) : outcome bytes :=
  if hash =? 0 then Err "not found"
  else
    match db_dirties db !! hash with
    | Some e => Ret (cn_rlp e)
    | None =>
        match db_disk db !! hash with
        | Some (x :: enc) => Ret (x :: enc)
        | _ => Err "not found"
        end
    end.

Definition db_preimage (db : Database) (hash : Hash) : option bytes :=
  match db_preimages db with
  | None => None
  | Some p => match p !! hash with Some b => Some b | None => db_diskPreimages db !! hash end
  end.

Definition db_insertPreimage (hash : Hash) (preimage : bytes) (db : Database) : Database :=
  match db_preimages db with
  | None => db
  | Some p =>
      match p !! hash with
      | Some _ => db
      | None => set_preimages (db_diskPreimages db) (Some (<[hash := preimage]> p))
                  (db_preimagesSize db + (32 + Z.of_nat (length preimage))) db
      end
  end.

(** ** References *)

(** [parents++] on the entries of the children that are in memory *)
Definition bump_parents (hs : list Hash) (d : gmap Hash cachedNode) : gmap Hash cachedNode :=
  foldl (fun d h => match d !! h with
                    | Some e => <[h := set_parents ((cn_parents e + 1) mod 2 ^ 32) e]> d
                    | None => d
                    end) d hs.

Definition db_insert (hash : Hash) (size : Z) (n : node) (db : Database) : outcome Database :=
  match db_dirties db !! hash with
  | Some _ => Ret db
  | None =>
      raw ← simplifyNode n;
      let entry := mkCachedNode raw (size mod 2 ^ 16) 0 None (db_newest db) 0 in
      childs ← forChilds entry;
      let db := set_dirties (<[hash := entry]> (bump_parents childs (db_dirties db))) db in
      db ← (if db_oldest db =? 0 then Ret (set_ends hash hash db)
            else db' ← upd (db_newest db) (set_flushNext hash) db; Ret (set_ends (db_oldest db') hash db'));
      Ret (set_sizes (db_dirtiesSize db + (32 + cn_size entry) mod 2 ^ 16) (db_childrenSize db) db)
  end.

Definition db_reference (child parent : Hash) (db : Database) : outcome Database :=
  match db_dirties db !! child with
  | None => Ret db
  | Some _ =>
      match db_dirties db !! parent with
      | None => Panic
      | Some p =>
          let known := match cn_children p with Some m => bool_decide (is_Some (m !! child)) | None => false end in
          if known && negb (parent =? 0) then Ret db
          else
            let grown := match cn_children p with Some _ => 0 | None => cachedNodeChildrenSize end in
            let m := default ∅ (cn_children p) in
            let count := (default 0 (m !! child) + 1) mod 2 ^ 16 in
            db ← upd child (fun e => set_parents ((cn_parents e + 1) mod 2 ^ 32) e) db;
            db ← upd parent (set_children (Some (<[child := count]> m))) db;
            Ret (set_sizes (db_dirtiesSize db) (db_childrenSize db + grown + (if count =? 1 then 32 + 2 else 0)) db)
      end
  end.

(** ** The flush list *)

(** The entry of [hash] leaves the flush list. *)
Definition unlink (hash : Hash) (e : cachedNode) (db : Database) : outcome Database :=
  if hash =? db_oldest db then upd (cn_flushNext e) (set_flushPrev 0) (set_ends (cn_flushNext e) (db_newest db) db)
  else if hash =? db_newest db then upd (cn_flushPrev e) (set_flushNext 0) (set_ends (db_oldest db) (cn_flushPrev e) db)
  else
    db ← upd (cn_flushPrev e) (set_flushNext (cn_flushNext e)) db;
    upd (cn_flushNext e) (set_flushPrev (cn_flushPrev e)) db.

(** [cleaner.Put]: an entry that was written to disk leaves the memory. *)
Definition cleaner_Put (hash : Hash) (db : Database) : outcome Database :=
  match db_dirties db !! hash with
  | None => Ret db
  | Some e =>
      db ← unlink hash e db;
      Ret (set_sizes
             (db_dirtiesSize db - (32 + cn_size e)
              - match cn_children e with Some m => cachedNodeChildrenSize + Z.of_nat (size m) * (32 + 2) | None => 0 end)
             (db_childrenSize db) (set_dirties (base.delete hash (db_dirties db)) db))
  end.

(** One reference through the map of external children is taken back. *)
Definition unreference (child : Hash) (p : cachedNode) : cachedNode * Z :=
  match cn_children p with
  | Some m =>
      let count := default 0 (m !! child) in
      if 0 <? count then
        if count - 1 =? 0 then (set_children (Some (base.delete child m)) p, 32 + 2)
        else (set_children (Some (<[child := count - 1]> m)) p, 0)
      else (p, 0)
  | None => (p, 0)
  end.

(** [dereference]: a reference is removed; an entry without references is dropped, and its
    references with it.  A recursion that does not end overflows the stack: [fuel] is the
    depth. *)
Fixpoint db_dereference (fuel : nat) (child parent : Hash) (db : Database) : outcome Database :=
  match fuel with
  | O => Panic
  | S fuel =>
      match db_dirties db !! parent with
      | None => Panic
      | Some p =>
          let '(p, freed) := unreference child p in
          let db := set_sizes (db_dirtiesSize db) (db_childrenSize db - freed) (set_dirties (<[parent := p]> (db_dirties db)) db) in
          match db_dirties db !! child with
          | None => Ret db
          | Some e =>
              let parents := if 0 <? cn_parents e then cn_parents e - 1 else 0 in
              db ← upd child (set_parents parents) db;
              if parents =? 0 then
                db ← unlink child e db;
                childs ← forChilds e;
                db ← foldl (fun db h => db ← db; db_dereference fuel h child db) (Ret db) childs;
                Ret (set_sizes (db_dirtiesSize db - (32 + cn_size e))
                       (db_childrenSize db - match cn_children e with Some _ => cachedNodeChildrenSize | None => 0 end)
                       (set_dirties (base.delete child (db_dirties db)) db))
              else Ret db
          end
      end
  end.

Definition db_Dereference (fuel : nat) (root : Hash) (db : Database) : outcome Database :=
  if root =? 0 then Ret db else db_dereference fuel root 0 db.

(** ** Writing to disk *)

Definition batch : Type := list (Hash * bytes).

Definition write_batch (b : batch) (db : Database) : Database :=
  set_disk (foldl (fun disk '(h, v) => <[h := v]> disk) (db_disk db) b) db.

(** [batch.Replay(uncacher)] *)
Fixpoint replay (b : batch) (db : Database) : outcome Database :=
  match b with
  | [] => Ret db
  | (h, _) :: b => db ← cleaner_Put h db; replay b db
  end.

Section flush.
(** [batch.ValueSize() >= ethdb.IdealBatchSize]; how the size is counted depends on the store *)
Context (batch_full : batch -> bool).

Fixpoint db_commit (fuel : nat) (hash : Hash) (st : Database * batch) : outcome (Database * batch) :=
  match fuel with
  | O => Panic
  | S fuel =>
      match db_dirties st.1 !! hash with
      | None => Ret st
      | Some e =>
          childs ← forChilds e;
          '(db, b) ← foldl (fun st h => st ← st; db_commit fuel h st) (Ret st) childs;
          let b := b ++ [(hash, cn_rlp e)] in
          if batch_full b then db ← replay b (write_batch b db); Ret (db, [])
          else Ret (db, b)
      end
  end.

(** The preimages are written in a batch of their own. *)
Definition write_preimages (db : Database) : Database :=
  match db_preimages db with
  | None => db
  | Some p => set_preimages (p ∪ db_diskPreimages db) (Some p) (db_preimagesSize db) db
  end.

Definition clear_preimages (db : Database) : Database :=
  match db_preimages db with
  | None => db
  | Some _ => set_preimages (db_diskPreimages db) (Some ∅) 0 db
  end.

Definition db_Commit (fuel : nat) (hash : Hash) (db : Database) : outcome Database :=
  '(db, b) ← db_commit fuel hash (write_preimages db, []);
  db ← replay b (write_batch b db);
  Ret (clear_preimages db).

(** The entry's share of the memory in [Cap]. *)
Definition cap_size (e : cachedNode) : Z :=
  32 + cn_size e + cachedNodeSize
  + match cn_children e with Some m => cachedNodeChildrenSize + Z.of_nat (size m) * (32 + 2) | None => 0 end.

(** The loop that writes the oldest entries; the entries stay in memory. *)
Fixpoint cap_write (fuel : nat) (limit sz : Z) (oldest : Hash) (b : batch) (db : Database) : outcome (Hash * batch * Database) :=
  match fuel with
  | O => Panic
  | S fuel =>
      if (limit <? sz) && negb (oldest =? 0) then
        match db_dirties db !! oldest with
        | None => Panic
        | Some e =>
            let b := b ++ [(oldest, cn_rlp e)] in
            let '(b, db) := if batch_full b then ([], write_batch b db) else (b, db) in
            cap_write fuel limit (sz - cap_size e) (cn_flushNext e) b db
        end
      else Ret (oldest, b, db)
  end.

(** The loop that drops them. *)
Fixpoint cap_drop (fuel : nat) (oldest : Hash) (db : Database) : outcome Database :=
  match fuel with
  | O => Panic
  | S fuel =>
      if db_oldest db =? oldest then Ret db
      else
        match db_dirties db !! db_oldest db with
        | None => Panic
        | Some e =>
            cap_drop fuel oldest
              (set_sizes (db_dirtiesSize db - (32 + cn_size e))
                 (db_childrenSize db
                  - match cn_children e with Some m => cachedNodeChildrenSize + Z.of_nat (size m) * (32 + 2) | None => 0 end)
                 (set_ends (cn_flushNext e) (db_newest db) (set_dirties (base.delete (db_oldest db) (db_dirties db)) db)))
        end
  end.

Definition db_Cap (limit : Z) (db : Database) : outcome Database :=
  let rootRefs := match db_dirties db !! 0 with
                  | Some e => match cn_children e with Some m => Z.of_nat (size m) | None => 0 end
                  | None => 0
                  end in
  let sz := db_dirtiesSize db + (Z.of_nat (size (db_dirties db)) - 1) * cachedNodeSize
            + (db_childrenSize db - rootRefs * (32 + 2)) in
  let flushPreimages := 4 * 1024 * 1024 <? db_preimagesSize db in
  let db := if flushPreimages then write_preimages db else db in
  let steps := S (size (db_dirties db)) in
  '(oldest, b, db) ← cap_write steps limit sz (db_oldest db) [] db;
  let db := write_batch b db in
  let db := if flushPreimages then clear_preimages db else db in
  db ← cap_drop steps oldest db;
  if db_oldest db =? 0 then Ret db else upd (db_oldest db) (set_flushPrev 0) db.
End flush.

Definition db_Size (db : Database) : Z * Z :=
  let rootRefs := match db_dirties db !! 0 with
                  | Some e => match cn_children e with Some m => Z.of_nat (size m) | None => 0 end
                  | None => 0
                  end in
  (db_dirtiesSize db + db_childrenSize db + (Z.of_nat (size (db_dirties db)) - 1) * cachedNodeSize - rootRefs * (32 + 2),
   db_preimagesSize db).
