(* ===== verification/TrieFlush.v ===== *)
(** The flush list of the trie database is a doubly linked list.

    [flush_ok db L]: the entries in memory are the metaroot and those of the list [L], oldest
    first, each linked to its neighbours.  Every operation that links or unlinks an entry
    keeps this, so that no operation follows a link to an entry that is not there. *)
From S2P Require Import Prelude KeyedList Common Rlp TrieEncoding TrieNode TrieDatabase.

Open Scope Z_scope.

(** ** Linked entries *)

(** The entries of [L] are linked, the first to [prev], when given, the last to [next]. *)
Fixpoint linked (d : gmap Hash cachedNode) (prev : option Hash) (L : list Hash) (next : Hash) : Prop :=
  match L with
  | [] => True
  | h :: L =>
      (exists e, d !! h = Some e /\ cn_flushNext e = default next (head L) /\
                 match prev with Some p => cn_flushPrev e = p | None => True end) /\
      linked d (Some h) L next
  end.

Definition last_or (prev : option Hash) (L : list Hash) : option Hash := match last L with Some h => Some h | None => prev end.

Lemma linked_app d prev L1 L2 next :
  linked d prev (L1 ++ L2) next <-> linked d prev L1 (default next (head L2)) /\ linked d (last_or prev L1) L2 next.
Proof.
  revert prev. induction L1 as [|h L1 IH]; intros prev; [simpl; tauto|]. cbn [app linked]. rewrite IH.
  assert (Hh : default next (head (L1 ++ L2)) = default (default next (head L2)) (head L1)) by by destruct L1.
  assert (Hl : last_or (Some h) L1 = last_or prev (h :: L1)) by (unfold last_or; destruct L1 as [|x L1] using rev_ind; [done|by rewrite last_snoc, app_comm_cons, last_snoc]).
  rewrite Hh, Hl. tauto.
Qed.

(** The links do not depend on the other fields, nor on other entries. *)
Definition same_links (d d' : gmap Hash cachedNode) (h : Hash) : Prop :=
  forall e, d !! h = Some e -> exists e', d' !! h = Some e' /\ cn_flushPrev e' = cn_flushPrev e /\ cn_flushNext e' = cn_flushNext e.

Lemma linked_frame d d' prev L next :
  (forall h, h ∈ L -> same_links d d' h) -> linked d prev L next -> linked d' prev L next.
Proof.
  revert prev. induction L as [|h L IH]; intros prev Hs; [done|]. intros [(e & He & Hn & Hp) Hl]. split.
  - destruct (Hs h (list_elem_of_here _ _) e He) as (e' & He' & Ep & En). exists e'. rewrite En, Ep. done.
  - apply IH; [|done]. intros x Hx. apply Hs. by apply list_elem_of_further.
Qed.

Lemma linked_head d prev prev' L next : linked d prev L next ->
  (forall h L', L = h :: L' -> match prev' with Some p => exists e, d !! h = Some e /\ cn_flushPrev e = p | None => True end) ->
  linked d prev' L next.
Proof.
  destruct L as [|h L]; [done|]. intros [(e & He & Hn & _) Hl] Hp. split; [|done]. exists e. split_and!; [done..|].
  specialize (Hp h L eq_refl). destruct prev' as [p|]; [|done]. destruct Hp as (e' & He' & Hp). by simplify_eq.
Qed.

(** ** The invariant *)

Definition flush_ok (db : Database) (L : list Hash) : Prop :=
  NoDup L /\ 0 ∉ L /\ (forall h, is_Some (db_dirties db !! h) <-> h = 0 \/ h ∈ L) /\
  db_oldest db = default 0 (head L) /\ (forall h, last L = Some h -> db_newest db = h) /\
  linked (db_dirties db) None L 0.

(** Without the condition that there are no other entries. *)
Definition flush_link (db : Database) (L : list Hash) : Prop :=
  NoDup L /\ 0 ∉ L /\ is_Some (db_dirties db !! 0) /\ db_oldest db = default 0 (head L) /\
  (forall h, last L = Some h -> db_newest db = h) /\ linked (db_dirties db) None L 0.

Lemma flush_ok_link db L : flush_ok db L -> flush_link db L.
Proof. intros (Hnd & H0 & Hdom & Ho & Hn & Hl). split_and!; try done. apply Hdom. by left. Qed.

Lemma flush_new disk preimages : flush_ok (NewDatabase disk preimages) [].
Proof.
  split_and!; [constructor|by apply not_elem_of_nil| |done|done|done]. intros h. simpl. rewrite lookup_singleton_is_Some.
  rewrite elem_of_nil. naive_solver.
Qed.

Lemma upd_some h f db e : db_dirties db !! h = Some e -> upd h f db = Ret (set_dirties (<[h := f e]> (db_dirties db)) db).
Proof. intros H. unfold upd. by rewrite H. Qed.

Lemma oldest_nil db L : flush_ok db L -> db_oldest db = 0 <-> L = [].
Proof.
  intros (_ & H0 & _ & Ho & _). rewrite Ho. destruct L as [|h L]; [done|]. split; [|done]. simpl. intros ->. destruct H0. by left.
Qed.

(** A new entry at the end of the list. *)
Lemma linked_snoc d L h e prev :
  linked d None (L ++ [prev]) 0 -> h ∉ L ++ [prev] -> NoDup (L ++ [prev]) -> d !! prev = Some e -> cn_flushPrev (default e (d !! h)) = prev ->
  is_Some (d !! h) -> cn_flushNext (default e (d !! h)) = 0 ->
  linked (<[prev := set_flushNext h e]> d) None (L ++ [prev; h]) 0.
Proof.
  intros Hl Hh Hnd Hp Eh [eh Hd] En. rewrite Hd in *. simpl in Eh, En. change [prev; h] with ([prev] ++ [h]). rewrite app_assoc.
  apply linked_app in Hl as [H1 H2]. apply linked_app. split.
  - apply linked_app. split.
    + simpl. eapply linked_frame; [|done]. intros x Hx ex Hex. exists ex. rewrite lookup_insert_ne; [done|]. intros <-.
      apply NoDup_app in Hnd as (_ & Hn & _). by apply (Hn prev Hx), list_elem_of_here.
    + simpl in H2 |- *. destruct H2 as [(e' & He' & _ & Hpr) _]. split; [|done]. simplify_eq. exists (set_flushNext h e').
      rewrite lookup_insert_eq. done.
  - unfold last_or. rewrite last_snoc. simpl. split; [|done]. exists eh. rewrite lookup_insert_ne; [done|]. intros <-. apply Hh, elem_of_app. right. by left.
Qed.

(** ** Insertion *)

(** The fields that the counting of references does not change. *)
Definition core (e : cachedNode) : node * Hash * Hash := (cn_node e, cn_flushPrev e, cn_flushNext e).

Definition same_core (d d' : gmap Hash cachedNode) : Prop := forall x, core <$> d' !! x = core <$> d !! x.

Definition same_nodes (d d' : gmap Hash cachedNode) : Prop := forall x, cn_node <$> d' !! x = cn_node <$> d !! x.

#[export] Instance same_nodes_preorder : PreOrder same_nodes.
Proof. split; [by intros d x|]. intros d1 d2 d3 H H' x. by rewrite H', H. Qed.

Lemma same_core_nodes d d' : same_core d d' -> same_nodes d d'.
Proof. intros H x. specialize (H x). destruct (d !! x), (d' !! x); simplify_eq/=; congruence. Qed.

Lemma same_core_links d d' h : same_core d d' -> same_links d d' h.
Proof. intros H e He. specialize (H h). rewrite He in H. destruct (d' !! h) as [e'|]; [|done]. exists e'. unfold core in H. by simplify_eq/=. Qed.

Lemma same_nodes_dom d d' x : same_nodes d d' -> is_Some (d' !! x) <-> is_Some (d !! x).
Proof. intros H. rewrite <- !(fmap_is_Some cn_node), H. done. Qed.

Lemma same_core_insert d h e e' : d !! h = Some e -> core e' = core e -> same_core d (<[h := e']> d).
Proof. intros H E x. destruct (decide (x = h)) as [->|Hne]; [rewrite lookup_insert_eq, H; simpl; by rewrite E|by rewrite lookup_insert_ne]. Qed.

Lemma same_nodes_insert d h e e' : d !! h = Some e -> cn_node e' = cn_node e -> same_nodes d (<[h := e']> d).
Proof. intros H E x. destruct (decide (x = h)) as [->|Hne]; [rewrite lookup_insert_eq, H; simpl; by rewrite E|by rewrite lookup_insert_ne]. Qed.

(** All fields but the links. *)
Definition cn_data (e : cachedNode) : node * Z * Z * option (gmap Hash Z) := (cn_node e, cn_size e, cn_parents e, cn_children e).

Definition same_data (d d' : gmap Hash cachedNode) : Prop := forall x, cn_data <$> d' !! x = cn_data <$> d !! x.

#[export] Instance same_data_preorder : PreOrder same_data.
Proof. split; [by intros d x|]. intros d1 d2 d3 H H' x. by rewrite H', H. Qed.

Lemma same_data_nodes d d' : same_data d d' -> same_nodes d d'.
Proof. intros H x. specialize (H x). destruct (d !! x), (d' !! x); simplify_eq/=; congruence. Qed.

Lemma same_data_insert d h e e' : d !! h = Some e -> cn_data e' = cn_data e -> same_data d (<[h := e']> d).
Proof. intros H E x. destruct (decide (x = h)) as [->|Hne]; [rewrite lookup_insert_eq, H; simpl; by rewrite E|by rewrite lookup_insert_ne]. Qed.

Lemma bump_core hs d : same_core d (bump_parents hs d).
Proof.
  revert d. induction hs as [|h hs IH]; intros d; [done|]. intros x.
  change (bump_parents (h :: hs) d) with (bump_parents hs (match d !! h with
    Some e => <[h := set_parents ((cn_parents e + 1) mod 2 ^ 32) e]> d | None => d end)). rewrite (IH _ x).
  destruct (d !! h) as [e|] eqn:E; [|done]. by apply (same_core_insert d h e).
Qed.

(** The entry that is inserted, and its place in the list. *)
Lemma insert_link db L h entry d :
  flush_ok db L -> same_core (db_dirties db) d -> db_dirties db !! h = None -> h <> 0 ->
  cn_flushPrev entry = db_newest db -> cn_flushNext entry = 0 ->
  exists db', (let db := set_dirties (<[h := entry]> d) db in
     if db_oldest db =? 0 then Ret (set_ends h h db)
     else db' ← upd (db_newest db) (set_flushNext h) db; Ret (set_ends (db_oldest db') h db')) = Ret db' /\
    flush_ok db' (L ++ [h]) /\ same_data (<[h := entry]> d) (db_dirties db') /\ db_disk db' = db_disk db.
Proof.
  intros Hok Hc Hn H0 Hp Hx. pose proof (oldest_nil db L Hok) as Hnil. destruct Hok as (Hnd & H0L & Hdom & Hold & Hnew & Hl).
  assert (HhL : h ∉ L) by (intros Hin; destruct (proj2 (Hdom h) (or_intror Hin)) as [? E]; by rewrite Hn in E).
  assert (Hdom' : forall x, is_Some ((<[h := entry]> d) !! x) <-> x = 0 \/ x ∈ L ++ [h]).
  { intros x. rewrite elem_of_app, list_elem_of_singleton, lookup_insert_is_Some', (same_nodes_dom _ _ x (same_core_nodes _ _ Hc)), Hdom. naive_solver. }
  assert (HndL : NoDup (L ++ [h])) by (apply NoDup_app; split_and!; [done| |apply NoDup_singleton]; intros x Hx' ->%list_elem_of_singleton; done).
  assert (H0L' : 0 ∉ L ++ [h]) by (rewrite elem_of_app, list_elem_of_singleton; naive_solver).
  simpl. destruct (Z.eqb_spec (db_oldest db) 0) as [E|E].
  - apply Hnil in E. subst L. eexists. split; [done|]. split; [|done]. split_and!; try done.
    + by intros x [= <-].
    + simpl. split; [|done]. exists entry. by rewrite lookup_insert_eq.
  - destruct L as [|prev L _] using rev_ind; [by destruct E; apply Hnil|]. rewrite (Hnew prev) by by rewrite last_snoc. simpl.
    assert (Hprev : exists ep, d !! prev = Some ep).
    { destruct (proj2 (Hdom prev)) as [ep Ep]; [right; apply elem_of_app; right; by left|]. specialize (Hc prev). rewrite Ep in Hc. by destruct (d !! prev); [eexists|]. }
    destruct Hprev as [ep Ep]. assert (Hne : prev <> h) by (intros ->; apply HhL, elem_of_app; right; by left).
    assert (Ep' : (<[h := entry]> d) !! prev = Some ep) by by rewrite lookup_insert_ne.
    rewrite (upd_some prev _ _ ep) by done. eexists. split; [done|]. simpl. split; [|split; [by eapply same_data_insert|done]].
    split_and!; [done..| | | |].
    + intros x. simpl. rewrite lookup_insert_is_Some', Hdom'. split; [|by right]. intros [->|?]; [|done]. right. rewrite !elem_of_app. left. right. by left.
    + simpl. rewrite Hold. by destruct L.
    + intros x. rewrite last_snoc. by intros [= ->].
    + simpl. rewrite <- app_assoc. apply linked_snoc with (e := ep); [|done|done|done| |by rewrite lookup_insert_eq|].
      * eapply linked_frame; [|done]. intros x Hxin ex Hex. destruct (same_core_links _ _ x Hc ex Hex) as (e' & He' & Hl').
        exists e'. rewrite lookup_insert_ne; [done|]. by intros <-.
      * rewrite lookup_insert_eq. simpl. rewrite Hp. apply Hnew. by rewrite last_snoc.
      * by rewrite lookup_insert_eq.
Qed.

Lemma db_insert_data db L h sz n raw_ childs :
  flush_ok db L -> db_dirties db !! h = None -> h <> 0 -> simplifyNode n = Ret raw_ -> forGatherChildren raw_ = Ret childs ->
  exists db' entry, db_insert h sz n db = Ret db' /\ flush_ok db' (L ++ [h]) /\ cn_node entry = raw_ /\ cn_parents entry = 0 /\ cn_children entry = None /\
    same_data (<[h := entry]> (bump_parents childs (db_dirties db))) (db_dirties db') /\ db_disk db' = db_disk db.
Proof.
  intros Hok Hn H0 Hs Hg. unfold db_insert. rewrite Hn, Hs. cbn [mbind outcome_mbind outcome_bind].
  unfold forChilds. simpl cn_node. rewrite Hg. cbn [mbind outcome_mbind outcome_bind]. simpl cn_children. cbn [app].
  set (entry := mkCachedNode raw_ (sz mod 2 ^ 16) 0 None (db_newest db) 0). set (d := bump_parents childs (db_dirties db)).
  destruct (insert_link db L h entry d Hok (bump_core _ _) Hn H0 eq_refl eq_refl) as (db' & E & Hok' & Hsn & Hdk).
  cbv zeta in E. rewrite E. eexists _, entry. split; [done|]. split; [exact Hok'|]. by split_and!.
Qed.

Lemma db_insert_flush db L h sz n raw_ childs :
  flush_ok db L -> db_dirties db !! h = None -> h <> 0 -> simplifyNode n = Ret raw_ -> forGatherChildren raw_ = Ret childs ->
  exists db' entry d, db_insert h sz n db = Ret db' /\ flush_ok db' (L ++ [h]) /\ same_core (db_dirties db) d /\
    same_nodes (<[h := entry]> d) (db_dirties db') /\ cn_node entry = raw_ /\ db_disk db' = db_disk db.
Proof.
  intros Hok Hn H0 Hs Hg. destruct (db_insert_data db L h sz n raw_ childs Hok Hn H0 Hs Hg) as (db' & entry & E & Hok' & He & _ & _ & Hd & Hk).
  exists db', entry, (bump_parents childs (db_dirties db)). split; [done|]. split; [done|]. split; [apply bump_core|]. split; [by apply same_data_nodes|done].
Qed.

(** ** Removal *)

Lemma linked_lookup d prev L next h : linked d prev L next -> h ∈ L -> is_Some (d !! h).
Proof.
  revert prev. induction L as [|x L IH]; intros prev Hl Hin; [by apply elem_of_nil in Hin|]. destruct Hl as [(e & He & _) Hl].
  apply elem_of_cons in Hin as [->|Hin]; [by eexists|by eapply IH].
Qed.

Lemma linked_insert_ne d prev L next x e : x ∉ L -> linked d prev L next -> linked (<[x := e]> d) prev L next.
Proof. intros Hx. apply linked_frame. intros h Hh eh He. exists eh. rewrite lookup_insert_ne; [done|]. by intros ->. Qed.

Lemma linked_delete d prev L next x : x ∉ L -> linked d prev L next -> linked (base.delete x d) prev L next.
Proof. intros Hx. apply linked_frame. intros h Hh eh He. exists eh. rewrite lookup_delete_ne; [done|]. by intros ->. Qed.

(** The last entry of a list is linked to another. *)
Lemma linked_set_next d prev L y ey next next' :
  linked d prev (L ++ [y]) next -> y ∉ L -> d !! y = Some ey ->
  linked (<[y := set_flushNext next' ey]> d) prev (L ++ [y]) next'.
Proof.
  intros Hl Hy Ey. apply linked_app in Hl as [H1 H2]. apply linked_app. split; [by apply linked_insert_ne|].
  destruct H2 as [(e & He & _ & Hp) _]. simplify_eq. split; [|done]. exists (set_flushNext next' e). by rewrite lookup_insert_eq.
Qed.

(** The first entry of a list is linked back to another. *)
Lemma linked_set_prev d prev x L ex next prev' :
  linked d prev (x :: L) next -> x ∉ L -> d !! x = Some ex ->
  linked (<[x := set_flushPrev prev' ex]> d) (Some prev') (x :: L) next.
Proof.
  intros [(e & He & Hn & _) Hl] Hx Ex. simplify_eq. split; [|by apply linked_insert_ne].
  exists (set_flushPrev prev' e). by rewrite lookup_insert_eq.
Qed.

Lemma linked_any_prev d prev L next : linked d prev L next -> linked d None L next.
Proof. intros H. eapply linked_head; [done|]. by intros. Qed.

(** What [unlink] must do to the list [L1 ++ h :: L2]. *)
Record unlinked (db db' : Database) (L1 : list Hash) (h : Hash) (L2 : list Hash) : Prop := mkUnlinked {
  ul_data : same_data (db_dirties db) (db_dirties db');
  ul_linked : linked (db_dirties db') None (L1 ++ L2) 0;
  ul_oldest : db_oldest db' = default 0 (head (L1 ++ L2));
  ul_newest : forall x, last (L1 ++ L2) = Some x -> db_newest db' = x;
  ul_disk : db_disk db' = db_disk db;
  ul_sizes : db_dirtiesSize db' = db_dirtiesSize db /\ db_childrenSize db' = db_childrenSize db;
}.

Lemma unlink_oldest db h L2 e :
  flush_link db (h :: L2) -> db_dirties db !! h = Some e -> exists db', unlink h e db = Ret db' /\ unlinked db db' [] h L2.
Proof.
  intros (Hnd & H0 & Hdom & Hold & Hnew & Hl) He. unfold unlink. rewrite Hold. simpl. rewrite Z.eqb_refl.
  destruct Hl as [(e' & He' & Hn & _) Hl]. simplify_eq. rewrite Hn. apply NoDup_cons in Hnd as [Hh Hnd].
  destruct L2 as [|x L2]; simpl.
  - destruct Hdom as [e0 E0]. rewrite (upd_some 0 _ _ e0) by done. eexists. split; [done|].
    split; try done. by eapply same_data_insert.
  - destruct (linked_lookup _ _ _ _ x Hl) as [ex Ex]; [by left|]. rewrite (upd_some x _ _ ex) by done. eexists. split; [done|].
    split; try done; [by eapply same_data_insert|].
    eapply linked_any_prev, linked_set_prev; [done|by apply NoDup_cons in Hnd as []|done].
Qed.

Lemma head_ne (L1 : list Hash) h L2 : NoDup (L1 ++ h :: L2) -> L1 <> [] -> h <> default 0 (head (L1 ++ h :: L2)).
Proof. destruct L1 as [|a L1]; [done|]. simpl. intros [Ha _]%NoDup_cons _ ->. apply Ha, elem_of_app. right. by left. Qed.

Lemma unlink_newest db L1 y h e :
  flush_link db ((L1 ++ [y]) ++ [h]) -> db_dirties db !! h = Some e -> exists db', unlink h e db = Ret db' /\ unlinked db db' (L1 ++ [y]) h [].
Proof.
  intros (Hnd & H0 & Hdom & Hold & Hnew & Hl) He. unfold unlink.
  assert (Hne : h <> db_oldest db) by (rewrite Hold; apply head_ne; [done|by destruct L1]).
  destruct (Z.eqb_spec h (db_oldest db)); [done|]. rewrite (Hnew h), Z.eqb_refl by by rewrite last_snoc.
  apply linked_app in Hl as [H1 H2]. unfold last_or in H2. rewrite last_snoc in H2. destruct H2 as [(e' & He' & _ & Hp) _]. simplify_eq.
  destruct (linked_lookup _ _ _ _ (cn_flushPrev e') H1) as [ey Ey]; [apply elem_of_app; right; by left|].
  rewrite (upd_some _ _ _ ey) by done. eexists. split; [done|].
  assert (Hy : cn_flushPrev e' ∉ L1).
  { apply NoDup_app in Hnd as (Hnd & _). apply NoDup_app in Hnd as (_ & Hd & _). intros Hin. apply (Hd _ Hin). by left. }
  split; rewrite ?app_nil_r; try done; [by eapply same_data_insert|by eapply linked_set_next| |].
  - simpl. rewrite Hold. by destruct L1.
  - intros x. rewrite last_snoc. by intros [= ->].
Qed.

Lemma unlink_middle db L1 y h x L2 e :
  flush_link db ((L1 ++ [y]) ++ h :: x :: L2) -> db_dirties db !! h = Some e ->
  exists db', unlink h e db = Ret db' /\ unlinked db db' (L1 ++ [y]) h (x :: L2).
Proof.
  intros (Hnd & H0 & Hdom & Hold & Hnew & Hl) He. unfold unlink.
  assert (Hlast : last (x :: L2) = Some (db_newest db)).
  { destruct (last (x :: L2)) as [z|] eqn:Ez; [|by apply last_None in Ez]. f_equal. symmetry. apply Hnew.
    by rewrite last_app_cons, last_cons, Ez. }
  apply NoDup_app in Hnd as HN. destruct HN as (HN1 & HN2 & HN3). apply NoDup_cons in HN3 as [Hh HN3].
  assert (Hne : h <> db_oldest db) by (rewrite Hold; apply head_ne; [done|by destruct L1]).
  assert (Hne' : h <> db_newest db) by (intros ->; apply Hh; by apply last_Some_elem_of).
  destruct (Z.eqb_spec h (db_oldest db)); [done|]. destruct (Z.eqb_spec h (db_newest db)); [done|].
  apply linked_app in Hl as [H1 H2]. unfold last_or in H2. rewrite last_snoc in H2. destruct H2 as [(e' & He' & Hn & Hp) H3]. simplify_eq.
  destruct (linked_lookup _ _ _ _ (cn_flushPrev e') H1) as [ey Ey]; [apply elem_of_app; right; by left|].
  rewrite (upd_some _ _ _ ey) by done. cbn [mbind outcome_mbind outcome_bind]. simpl in Hn. rewrite Hn.
  destruct (linked_lookup _ _ _ _ x H3) as [ex Ex]; [by left|].
  assert (Hyx : cn_flushPrev e' <> x) by (intros E; apply (HN2 x); [rewrite <- E; apply elem_of_app; right; by left|right; by left]).
  rewrite (upd_some x _ _ ex) by (simpl; by rewrite lookup_insert_ne). eexists. split; [done|].
  assert (Hy1 : cn_flushPrev e' ∉ L1) by (apply NoDup_app in HN1 as (_ & Hd & _); intros Hin; apply (Hd _ Hin); by left).
  assert (Hy2 : cn_flushPrev e' ∉ x :: L2) by (intros Hin; apply (HN2 (cn_flushPrev e')); [apply elem_of_app; right; by left|by right]).
  assert (Hx1 : x ∉ L1 ++ [cn_flushPrev e']) by (intros Hin; apply (HN2 x Hin); right; by left).
  split; try done.
  - simpl. etransitivity; [exact (same_data_insert _ _ _ (set_flushNext x ey) Ey eq_refl)|].
    apply (same_data_insert _ _ ex); [by rewrite lookup_insert_ne|done].
  - simpl. apply linked_app. split.
    + apply linked_insert_ne; [done|]. by eapply linked_set_next.
    + unfold last_or. rewrite last_snoc. eapply linked_set_prev; [|by apply NoDup_cons in HN3 as []|by rewrite lookup_insert_ne].
      by apply linked_insert_ne.
  - simpl. rewrite Hold. by destruct L1.
  - intros z. rewrite last_app, Hlast. by intros [= <-].
Qed.

(** An entry leaves the list, and the memory. *)
Lemma unlink_flush db L1 h L2 e :
  flush_link db (L1 ++ h :: L2) -> db_dirties db !! h = Some e ->
  exists db', unlink h e db = Ret db' /\ unlinked db db' L1 h L2.
Proof.
  intros Hok He. destruct L1 as [|y L1 _] using rev_ind; [by apply unlink_oldest|].
  destruct L2 as [|x L2]; [by apply unlink_newest|by apply unlink_middle].
Qed.

Lemma unlinked_flush db db' L1 h L2 ds cs :
  flush_ok db (L1 ++ h :: L2) -> unlinked db db' L1 h L2 ->
  flush_ok (set_sizes ds cs (set_dirties (base.delete h (db_dirties db')) db')) (L1 ++ L2).
Proof.
  intros (Hnd & H0 & Hdom & _) [Hn%same_data_nodes Hl Ho Hw _ _]. apply NoDup_app in Hnd as (N1 & N2 & N3). apply NoDup_cons in N3 as [Hh N3].
  assert (Hh1 : h ∉ L1) by (intros Hin; apply (N2 h Hin); by left). split_and!; try done.
  - apply NoDup_app. split_and!; [done| |done]. intros x Hx Hx2. apply (N2 x Hx). by right.
  - rewrite elem_of_app in *. intros [?|?]; apply H0; [by left|right; by right].
  - intros x. simpl. rewrite lookup_delete_is_Some, (same_nodes_dom _ _ x Hn), Hdom, !elem_of_app, elem_of_cons.
    split; [naive_solver|]. intros Hx. split; [|naive_solver]. intros <-. destruct Hx as [->|[?|?]]; [|done..].
    apply H0, elem_of_app. right. by left.
  - simpl. apply linked_delete; [|done]. rewrite elem_of_app. naive_solver.
Qed.

Lemma cleaner_flush db L1 h L2 :
  flush_ok db (L1 ++ h :: L2) ->
  exists db', cleaner_Put h db = Ret db' /\ flush_ok db' (L1 ++ L2) /\ db_disk db' = db_disk db /\
    same_data (base.delete h (db_dirties db)) (db_dirties db').
Proof.
  intros Hok. unfold cleaner_Put. pose proof Hok as (_ & _ & Hdom & _).
  destruct (proj2 (Hdom h)) as [e He]; [right; apply elem_of_app; right; by left|]. rewrite He.
  destruct (unlink_flush db L1 h L2 e (flush_ok_link _ _ Hok) He) as (db' & -> & Hu). eexists. split; [done|].
  split; [by eapply unlinked_flush|]. split; [apply Hu|]. intros x. simpl. destruct (decide (x = h)) as [->|Hne].
  - by rewrite !lookup_delete_eq.
  - rewrite !lookup_delete_ne by done. apply Hu.
Qed.

(** The part of the list an entry is in. *)
Lemma flush_split db L h : flush_ok db L -> h <> 0 -> is_Some (db_dirties db !! h) -> exists L1 L2, L = L1 ++ h :: L2.
Proof. intros (_ & _ & Hdom & _) H0 Hs. apply Hdom in Hs as [->|Hin]; [done|]. by apply list_elem_of_split. Qed.
