(* ===== verification/TrieRefs.v ===== *)
(** The reference counts of the trie database.

    [parents] of an entry counts the entries that refer to it; [dereference] of
    [trie/database.go] drops an entry when its count reaches zero, and takes back the
    references of the entry with it.  [rc_inv]: the count of an entry that is not on disk is at
    least the number of references to it, so that what is dropped is not needed; with
    [exact], it is that number. *)
From S2P Require Import Prelude KeyedList Common Rlp TrieEncoding TrieNode TrieDatabase TrieFlush.

Open Scope Z_scope.

(** ** Sums over a map *)

Definition msum {A} (w : Hash -> A -> Z) (d : gmap Hash A) : Z := map_fold (fun k a z => w k a + z) 0 d.

Lemma msum_insert {A} (w : Hash -> A -> Z) d k a : d !! k = None -> msum w (<[k := a]> d) = w k a + msum w d.
Proof. intros H. unfold msum. apply (map_fold_insert_L (fun k a z => w k a + z)); [intros; lia|done]. Qed.

Lemma msum_delete {A} (w : Hash -> A -> Z) d k a : d !! k = Some a -> msum w d = w k a + msum w (base.delete k d).
Proof. intros H. rewrite <- (insert_delete_id d k a H) at 1. apply msum_insert. apply lookup_delete_eq. Qed.

Lemma msum_set {A} (w : Hash -> A -> Z) d k a a' : d !! k = Some a -> msum w (<[k := a']> d) = msum w d - w k a + w k a'.
Proof.
  intros H. rewrite (msum_delete w d k a H), <- insert_delete_eq, (msum_insert w); [lia|apply lookup_delete_eq].
Qed.

Lemma msum_ext {A} (w w' : Hash -> A -> Z) d : (forall k a, d !! k = Some a -> w k a = w' k a) -> msum w d = msum w' d.
Proof.
  induction d as [|k a d Hk IH] using map_ind; [done|]. intros H. rewrite !msum_insert by done. f_equal; [apply H, lookup_insert_eq|].
  apply IH. intros k' a' Hk'. apply H. rewrite lookup_insert_ne; [done|]. intros ->. congruence.
Qed.

Lemma msum_fmap {A B} (f : A -> B) (w : Hash -> B -> Z) d : msum w (f <$> d) = msum (fun k a => w k (f a)) d.
Proof. induction d as [|k a d Hk IH] using map_ind; [done|]. rewrite fmap_insert, !msum_insert by (rewrite ?lookup_fmap, ?Hk; done). lia. Qed.

Lemma msum_ge {A} (w : Hash -> A -> Z) d k a : (forall k a, d !! k = Some a -> 0 <= w k a) -> d !! k = Some a -> w k a <= msum w d.
Proof.
  intros Hp Hk. rewrite (msum_delete w d k a Hk). cut (0 <= msum w (base.delete k d)); [lia|].
  assert (H : forall k' a', base.delete k d !! k' = Some a' -> 0 <= w k' a') by (intros k' a' [_ H]%lookup_delete_Some; by apply Hp).
  revert H. generalize (base.delete k d) as d'. clear. intros d'. induction d' as [|k a d' Hk IH] using map_ind; [done|]. intros Hp.
  rewrite msum_insert by done. pose proof (Hp k a (lookup_insert_eq _ _ _)). cut (0 <= msum w d'); [lia|]. apply IH. intros k' a' Hk'. apply Hp.
  rewrite lookup_insert_ne; [done|]. intros ->. congruence.
Qed.

(** ** References *)

Fixpoint count (x : Hash) (l : list Hash) : Z :=
  match l with
  | [] => 0
  | y :: l => (if x =? y then 1 else 0) + count x l
  end.

Lemma count_nonneg x l : 0 <= count x l.
Proof. induction l as [|y l IH]; simpl; [done|]. destruct (x =? y); lia. Qed.

Lemma count_app x l l' : count x (l ++ l') = count x l + count x l'.
Proof. induction l as [|y l IH]; simpl; [done|]. lia. Qed.

Lemma count_elem x l : x ∈ l -> 1 <= count x l.
Proof.
  induction l as [|y l IH]; [by intros ?%elem_of_nil|]. intros [->|H]%elem_of_cons; simpl; [rewrite Z.eqb_refl; pose proof (count_nonneg y l); lia|].
  apply IH in H. destruct (x =? y); lia.
Qed.

Lemma count_not x l : x ∉ l -> count x l = 0.
Proof.
  induction l as [|y l IH]; [done|]. rewrite not_elem_of_cons. intros [Hne Hx]. simpl. apply Z.eqb_neq in Hne. rewrite Hne, IH by done. done.
Qed.

Lemma count_NoDup x l : NoDup l -> count x l <= 1.
Proof.
  induction 1 as [|y l Hy Hl IH]; simpl; [lia|]. destruct (Z.eqb_spec x y) as [->|]; [rewrite count_not by done|]; lia.
Qed.

(** The hashes in the node, and the number of references through the map of external children. *)
Definition inner (e : cachedNode) : list Hash := match forGatherChildren (cn_node e) with Ret l => l | _ => [] end.
Definition ext (e : cachedNode) (x : Hash) : Z := match cn_children e with Some m => default 0 (m !! x) | None => 0 end.
Definition mult (e : cachedNode) (x : Hash) : Z := ext e x + count x (inner e).
Definition childs (e : cachedNode) : list Hash := match cn_children e with Some m => (map_to_list m).*1 | None => [] end ++ inner e.

(** The references to [x] from entries that are not in [P]. *)
Definition weight (P : list Hash) (x p : Hash) (e : cachedNode) : Z := if bool_decide (p ∈ P) then 0 else mult e x.
Definition refs (d : gmap Hash cachedNode) (P : list Hash) (x : Hash) : Z := msum (weight P x) d.

(** External references are counted from one. *)
Definition ext_ok (e : cachedNode) : Prop := forall m c n, cn_children e = Some m -> m !! c = Some n -> 1 <= n.

Lemma ext_nonneg e x : ext_ok e -> 0 <= ext e x.
Proof. intros H. unfold ext. destruct (cn_children e) as [m|] eqn:E; [|done]. destruct (m !! x) as [n|] eqn:Ex; simpl; [|done]. specialize (H m x n E Ex). lia. Qed.

Lemma mult_nonneg e x : ext_ok e -> 0 <= mult e x.
Proof. intros H. unfold mult. pose proof (ext_nonneg e x H). pose proof (count_nonneg x (inner e)). lia. Qed.

Lemma count_childs e x : ext_ok e -> count x (childs e) <= mult e x.
Proof.
  intros H. unfold childs, mult. rewrite count_app. cut (count x (match cn_children e with Some m => (map_to_list m).*1 | None => [] end) <= ext e x); [lia|].
  unfold ext. destruct (cn_children e) as [m|] eqn:E; [|done]. destruct (m !! x) as [n|] eqn:Ex; simpl.
  - specialize (H m x n E Ex). pose proof (count_NoDup x _ (NoDup_fst_map_to_list m)). lia.
  - rewrite count_not; [done|]. intros ([x' n] & -> & Hin)%list_elem_of_fmap. apply elem_of_map_to_list in Hin. simpl in Ex. congruence.
Qed.

(** When every external child is counted once, each reference occurs once among the children. *)
Lemma count_childs_once e x : ext_ok e -> ext e x <= 1 -> count x (childs e) = mult e x.
Proof.
  intros H H1. pose proof (count_childs e x H) as Hle. cut (mult e x <= count x (childs e)); [lia|]. unfold childs, mult. rewrite count_app.
  cut (ext e x <= count x (match cn_children e with Some m => (map_to_list m).*1 | None => [] end)); [lia|].
  unfold ext in *. destruct (cn_children e) as [m|] eqn:E; [|done]. destruct (m !! x) as [n|] eqn:Ex; simpl in *; [|apply count_nonneg].
  transitivity 1; [done|]. apply count_elem, list_elem_of_fmap. exists (x, n). split; [done|by apply elem_of_map_to_list].
Qed.

Lemma refs_ge d P p e x : (forall k e, d !! k = Some e -> ext_ok e) -> d !! p = Some e -> p ∉ P -> mult e x <= refs d P x.
Proof.
  intros Hok He Hp. assert (E : weight P x p e = mult e x) by (unfold weight; by rewrite bool_decide_false). rewrite <- E.
  apply (msum_ge (weight P x) d p e); [|done]. intros k a Hk. unfold weight. case_bool_decide; [done|]. by apply mult_nonneg, (Hok k).
Qed.

(** *** How the references change *)

Lemma mult_data e e' x : cn_data e = cn_data e' -> mult e x = mult e' x.
Proof. unfold cn_data, mult, ext, inner. by intros [= -> _ _ ->]. Qed.

(** Neither the links nor the count of an entry are references. *)
Definition same_refs (e e' : cachedNode) : Prop := cn_node e' = cn_node e /\ cn_children e' = cn_children e.

Lemma same_refs_mult e e' x : same_refs e e' -> mult e' x = mult e x.
Proof. unfold same_refs, mult, ext, inner. by intros [-> ->]. Qed.

Lemma same_refs_childs e e' : same_refs e e' -> childs e' = childs e.
Proof. unfold same_refs, childs, inner. by intros [-> ->]. Qed.

Lemma data_refs e e' : cn_data e' = cn_data e -> same_refs e e'.
Proof. unfold cn_data, same_refs. by intros [= -> _ _ ->]. Qed.

Lemma refs_same d d' P x : same_data d d' -> refs d' P x = refs d P x.
Proof.
  intros H. assert (E : cn_data <$> d' = cn_data <$> d) by (apply map_eq; intros k; rewrite !lookup_fmap; apply H).
  set (w := fun p (e : node * Z * Z * option (gmap Hash Z)) =>
    weight P x p (mkCachedNode e.1.1.1 e.1.1.2 e.1.2 e.2 0 0)).
  assert (Hw : forall d : gmap Hash cachedNode, refs d P x = msum w (cn_data <$> d)).
  { intros d0. rewrite msum_fmap. apply msum_ext. intros k e _. unfold w, weight. case_bool_decide; [done|]. by apply mult_data. }
  by rewrite !Hw, E.
Qed.

Lemma refs_set d P p e e' x : d !! p = Some e -> (p ∈ P \/ same_refs e e') -> refs (<[p := e']> d) P x = refs d P x.
Proof.
  intros He H. unfold refs. rewrite (msum_set _ d p e e' He). unfold weight. case_bool_decide as Hp; [lia|].
  destruct H as [H|H]; [done|]. rewrite (same_refs_mult e e' x H). lia.
Qed.

Lemma refs_push d P h e x : d !! h = Some e -> h ∉ P -> refs d (h :: P) x = refs d P x - mult e x.
Proof.
  intros He Hh. unfold refs. rewrite (msum_delete (weight (h :: P) x) d h e He), (msum_delete (weight P x) d h e He). unfold weight at 1 3.
  rewrite bool_decide_true by by left. rewrite bool_decide_false by done.
  rewrite (msum_ext (weight (h :: P) x) (weight P x)); [lia|]. intros k a [Hne _]%lookup_delete_Some. unfold weight.
  rewrite (bool_decide_ext (k ∈ h :: P) (k ∈ P)); [done|]. rewrite elem_of_cons. naive_solver.
Qed.

Lemma refs_pop d P h x : h ∉ P -> refs (base.delete h d) P x = refs d (h :: P) x.
Proof.
  intros Hh. unfold refs. rewrite (msum_ext (weight P x) (weight (h :: P) x) (base.delete h d)).
  - destruct (d !! h) as [e|] eqn:E; [|by rewrite delete_id]. rewrite (msum_delete (weight (h :: P) x) d h e E). unfold weight at 2.
    rewrite bool_decide_true by by left. lia.
  - intros k a [Hne _]%lookup_delete_Some. unfold weight. rewrite (bool_decide_ext (k ∈ h :: P) (k ∈ P)); [done|]. rewrite elem_of_cons. naive_solver.
Qed.

(** ** The invariant *)

(** The counter is at least [n]; with [exact], it is [n]. *)
Definition counted (exact : bool) (parents n : Z) : Prop := n <= parents /\ (exact = true -> parents = n).

Ltac counts :=
  repeat match goal with H : counted _ _ _ |- _ => destruct H end; split; [lia|];
  let Hx := fresh in intros Hx; repeat match goal with H : _ = true -> _ = _ |- _ => specialize (H Hx) end; lia.

Section invariant.
Context (exact : bool) (rank : Hash -> nat).

(** An entry other than the metaroot counts each of its external children once. *)
Definition counts_once (p : Hash) (e : cachedNode) : Prop := exact = true -> p <> 0 -> forall x, ext e x <= 1.

(** [P]: the entries that are being dropped; [R]: the references that are still to be taken
    back. *)
Record rc_inv (db : Database) (P R : list Hash) : Prop := mkRcInv {
  rc_count : forall x e, db_dirties db !! x = Some e -> x <> 0 -> x ∉ P -> db_disk db !! x = None ->
    counted exact (cn_parents e) (refs (db_dirties db) P x + count x R);
  rc_closed : forall p e c, db_dirties db !! p = Some e -> p ∉ P -> c ∈ childs e ->
    (is_Some (db_dirties db !! c) /\ c ∉ P) \/ is_Some (db_disk db !! c);
  rc_entry : forall p e, db_dirties db !! p = Some e -> ext_ok e /\ (exists l, forGatherChildren (cn_node e) = Ret l) /\
    (forall c, c ∈ childs e -> c <> 0 /\ (p <> 0 -> (rank c < rank p)%nat)) /\ counts_once p e;
  rc_root : is_Some (db_dirties db !! 0) /\ 0 ∉ P;
}.

(** The list of the entries that are not being dropped. *)
Definition flush_part (db : Database) (L P : list Hash) : Prop :=
  flush_link db L /\ (forall x, is_Some (db_dirties db !! x) <-> x = 0 \/ x ∈ L \/ x ∈ P) /\ forall x, x ∈ P -> x ∉ L.

(** What is left of the entries. *)
Definition remains (P : list Hash) (db db' : Database) : Prop :=
  db_disk db' = db_disk db /\
  (forall x e', db_dirties db' !! x = Some e' -> exists e, db_dirties db !! x = Some e /\ cn_node e' = cn_node e /\ (x ∉ P -> cn_children e' = cn_children e)) /\
  (forall x, x ∈ P -> is_Some (db_dirties db !! x) -> is_Some (db_dirties db' !! x)).

Lemma remains_refl P db : remains P db db.
Proof. split; [done|]. split; [|done]. intros x e' He. by exists e'. Qed.

Lemma remains_trans P db1 db2 db3 : remains P db1 db2 -> remains P db2 db3 -> remains P db1 db3.
Proof.
  intros (H1 & H2 & H3) (K1 & K2 & K3). split; [congruence|]. split.
  - intros x e' He. destruct (K2 x e' He) as (e1 & E1 & N1 & C1). destruct (H2 x e1 E1) as (e2 & E2 & N2 & C2). exists e2.
    split_and!; [done|congruence|]. intros Hx. rewrite C1, C2; done.
  - intros x Hx Hs. by apply K3, H3.
Qed.

(** *** Changes that keep it *)

(** Changes of the links and of the counts. *)
Lemma rc_transport db db' P R R' :
  rc_inv db P R -> db_disk db' = db_disk db ->
  (forall x e', db_dirties db' !! x = Some e' -> exists e, db_dirties db !! x = Some e /\ same_refs e e') ->
  (forall x, is_Some (db_dirties db !! x) -> is_Some (db_dirties db' !! x)) ->
  (forall x, refs (db_dirties db') P x = refs (db_dirties db) P x) ->
  (forall x e', db_dirties db' !! x = Some e' -> x <> 0 -> x ∉ P -> db_disk db !! x = None -> counted exact (cn_parents e') (refs (db_dirties db) P x + count x R')) ->
  rc_inv db' P R'.
Proof.
  intros [_ Hcl Hen [Hr0 Hr1]] Hd Hdom Hdom' Hrefs Hc. split.
  - intros x e' He H0 HP Hn. rewrite Hrefs. rewrite Hd in Hn. by apply Hc.
  - intros p e' c He HP Hin. destruct (Hdom p e' He) as (e & E & Hs). rewrite (same_refs_childs e e' Hs) in Hin. rewrite Hd.
    destruct (Hcl p e c E HP Hin) as [[H1 H2]|H1]; [left; split; [by apply Hdom'|done]|by right].
  - intros p e' He. destruct (Hdom p e' He) as (e & E & Hs). destruct (Hen p e E) as (H1 & H2 & H3 & H4). rewrite (same_refs_childs e e' Hs).
    destruct Hs as [Hn Hch]. unfold ext_ok, counts_once, ext in *. by rewrite Hn, Hch.
  - split; [by apply Hdom'|done].
Qed.

(** ** Taking back a reference *)

Lemma unreference_node child p : cn_node (unreference child p).1 = cn_node p /\ cn_parents (unreference child p).1 = cn_parents p /\
  cn_flushPrev (unreference child p).1 = cn_flushPrev p /\ cn_flushNext (unreference child p).1 = cn_flushNext p.
Proof. unfold unreference. destruct (cn_children p) as [m|]; [|done]. cbv zeta. by repeat case_match. Qed.

Lemma unreference_ext child p x : ext_ok p -> ext (unreference child p).1 x = ext p x - (if (x =? child) && (0 <? ext p child) then 1 else 0).
Proof.
  intros Hok. unfold unreference, ext. destruct (cn_children p) as [m|] eqn:E; simpl; [|rewrite E; by rewrite andb_false_r].
  destruct (Z.ltb_spec 0 (default 0 (m !! child))) as [Hc|Hc]; simpl; [|rewrite E, andb_false_r; lia]. rewrite andb_true_r.
  destruct (Z.eqb_spec (default 0 (m !! child) - 1) 0) as [H1|H1]; simpl; destruct (Z.eqb_spec x child) as [->|Hne].
  - rewrite lookup_delete_eq. simpl. lia.
  - rewrite lookup_delete_ne by done. lia.
  - by rewrite lookup_insert_eq.
  - rewrite lookup_insert_ne by done. lia.
Qed.

Lemma unreference_ok child p : ext_ok p -> ext_ok (unreference child p).1.
Proof.
  intros Hok m c n. unfold unreference. destruct (cn_children p) as [m0|] eqn:E; simpl; [|by rewrite E].
  destruct (Z.ltb_spec 0 (default 0 (m0 !! child))); simpl; [|rewrite E; intros [= <-]; by apply (Hok m0)].
  destruct (Z.eqb_spec (default 0 (m0 !! child) - 1) 0); simpl; intros [= <-].
  - intros [_ Hn]%lookup_delete_Some. by apply (Hok m0 c).
  - intros [[<- <-]|[_ Hn]]%lookup_insert_Some; [lia|by apply (Hok m0 c)].
Qed.

Lemma unreference_childs child p c : c ∈ childs (unreference child p).1 -> c ∈ childs p.
Proof.
  unfold childs, inner. rewrite (proj1 (unreference_node child p)). rewrite !elem_of_app. intros [H|H]; [left|by right]. revert H.
  unfold unreference. destruct (cn_children p) as [m|] eqn:E; simpl; [|by rewrite E].
  assert (Hk : forall (m : gmap Hash Z) c, c ∈ (map_to_list m).*1 <-> is_Some (m !! c)).
  { intros m' c'. rewrite list_elem_of_fmap. split; [intros ([k v] & -> & Hin); apply elem_of_map_to_list in Hin; by eexists|].
    intros [v Hv]. exists (c', v). split; [done|by apply elem_of_map_to_list]. }
  destruct (Z.ltb_spec 0 (default 0 (m !! child))); simpl; [|by rewrite E].
  destruct (Z.eqb_spec (default 0 (m !! child) - 1) 0); simpl; rewrite !Hk.
  - intros [v [_ Hv]%lookup_delete_Some]. by eexists.
  - rewrite lookup_insert_is_Some'. intros [<-|?]; [|done]. destruct (m !! child); [by eexists|simpl in *; lia].
Qed.

Lemma unreference_mult child p x : ext_ok p -> mult (unreference child p).1 x = mult p x - (if (x =? child) && (0 <? ext p child) then 1 else 0).
Proof. intros H. unfold mult. rewrite unreference_ext by done. unfold inner. rewrite (proj1 (unreference_node child p)). lia. Qed.

Lemma unreference_once child q p : ext_ok p -> counts_once q p -> counts_once q (unreference child p).1.
Proof. intros Hok H Hx Hq x. rewrite unreference_ext by done. pose proof (H Hx Hq x). destruct (_ && _); lia. Qed.

(** An entry changes, but not its links. *)
Lemma flush_part_set db L P p e e' a b :
  flush_part db L P -> db_dirties db !! p = Some e -> cn_flushPrev e' = cn_flushPrev e -> cn_flushNext e' = cn_flushNext e ->
  flush_part (set_sizes a b (set_dirties (<[p := e']> (db_dirties db)) db)) L P.
Proof. clear exact rank.
  intros ((Hnd & H0 & Hr & Ho & Hn & Hl) & Hdom & HP) He Hprev Hnext. split; [split_and!; try done|split; [|done]].
  - simpl. rewrite lookup_insert_is_Some'. by right.
  - simpl. eapply linked_frame; [|done]. intros x Hx ex Hex. destruct (decide (x = p)) as [->|Hne].
    + exists e'. rewrite lookup_insert_eq. simplify_eq. done.
    + exists ex. by rewrite lookup_insert_ne.
  - intros x. simpl. rewrite lookup_insert_is_Some', Hdom. split; [|by right]. intros [<-|?]; [|done]. apply Hdom. by eexists.
Qed.

(** The entry that is being dropped loses a reference. *)
Lemma unref_pending db P R L p e c a b :
  rc_inv db P R -> flush_part db L P -> p ∈ P -> db_dirties db !! p = Some e ->
  let db' := set_sizes a b (set_dirties (<[p := (unreference c e).1]> (db_dirties db)) db) in
  rc_inv db' P R /\ flush_part db' L P /\ remains P db db'.
Proof.
  intros [Hc Hcl Hen [Hr Hr']] Hf Hp He db'. destruct (unreference_node c e) as (Hn & Hpar & Hpr & Hnx). split; [|split].
  - assert (Hdom : forall x, is_Some (db_dirties db' !! x) <-> is_Some (db_dirties db !! x)).
    { intros x. simpl. rewrite lookup_insert_is_Some'. split; [intros [<-|?]; [by eexists|done]|by right]. }
    split.
    + intros x ex. simpl. rewrite (refs_set _ _ _ e) by (done || by left). intros [[<- <-]|[_ Hx]]%lookup_insert_Some; [done|]. by apply Hc.
    + intros q eq c'. simpl. intros [[<- _]|[_ Hq]]%lookup_insert_Some HqP Hin; [done|]. destruct (Hcl q eq c' Hq HqP Hin) as [[? ?]|?]; [left; split; [by apply Hdom|done]|by right].
    + intros q eq. simpl. intros [[<- <-]|[_ Hq]]%lookup_insert_Some; [|by apply Hen]. destruct (Hen p e He) as (H1 & H2 & H3 & H4).
      split_and!; [by apply unreference_ok|by rewrite Hn| |by apply unreference_once]. intros c' Hc'. by apply H3, (unreference_childs c).
    + split; [by apply Hdom|done].
  - by eapply flush_part_set.
  - split; [done|]. split.
    + intros x ex. simpl. intros [[<- <-]|[_ Hx]]%lookup_insert_Some; [exists e; by split_and!|by exists ex].
    + intros x Hx Hs. simpl. rewrite lookup_insert_is_Some'. by right.
Qed.

(** ** Dropping an entry *)

(** [dereference] after the reference is taken back. *)
Definition release (fuel : nat) (child : Hash) (db : Database) : outcome Database :=
  match db_dirties db !! child with
  | None => Ret db
  | Some e =>
      let parents := if 0 <? cn_parents e then cn_parents e - 1 else 0 in
      db ← upd child (set_parents parents) db;
      if parents =? 0 then
        db ← unlink child e db;
        childs ← forChilds e;
        db ← foldl (fun db h => db ← db; db_dereference fuel h child db) (Ret db) childs;
        Ret (set_sizes (db_dirtiesSize db - (32 + cn_size e))
               (db_childrenSize db - match cn_children e with Some _ => cachedNodeChildrenSize | None => 0 end)
               (set_dirties (base.delete child (db_dirties db)) db))
      else Ret db
  end.

Lemma dereference_S fuel child parent db p :
  db_dirties db !! parent = Some p ->
  db_dereference (S fuel) child parent db =
  release fuel child (set_sizes (db_dirtiesSize db) (db_childrenSize db - (unreference child p).2)
    (set_dirties (<[parent := (unreference child p).1]> (db_dirties db)) db)).
Proof. intros H. cbn [db_dereference]. rewrite H. by destruct (unreference child p). Qed.

(** The count of the entry falls by one. *)
Lemma count_falls db P R L h e :
  rc_inv db P (h :: R) -> flush_part db L P -> db_dirties db !! h = Some e -> h <> 0 ->
  let parents := if 0 <? cn_parents e then cn_parents e - 1 else 0 in
  let db' := set_dirties (<[h := set_parents parents e]> (db_dirties db)) db in
  rc_inv db' P R /\ flush_part db' L P /\ remains P db db'.
Proof.
  intros Hi Hf He H0 parents db'. split; [|split].
  - eapply rc_transport; [exact Hi|done| | | |].
    + intros x e'. simpl. intros [[<- <-]|[_ Hx]]%lookup_insert_Some; [by exists e|by exists e'].
    + intros x Hx. simpl. rewrite lookup_insert_is_Some'. by right.
    + intros x. apply (refs_set _ _ _ e); [done|by right].
    + intros x e' Hx Hx0 HP Hn. simpl in Hx. apply lookup_insert_Some in Hx as [[<- <-]|[Hne Hx]].
      * pose proof (rc_count _ _ _ Hi h e He H0 HP Hn) as H. simpl in H. rewrite Z.eqb_refl in H.
        assert (Hp : 0 <= refs (db_dirties db) P h).
        { transitivity (mult e h); [apply mult_nonneg; by destruct (rc_entry _ _ _ Hi h e He)|].
          apply (refs_ge _ _ h); [|done|done]. intros k ek Hk. by destruct (rc_entry _ _ _ Hi k ek Hk). }
        pose proof (count_nonneg h R). simpl. unfold parents. destruct H as [Ha Hb]. destruct (Z.ltb_spec 0 (cn_parents e)); [|lia]. split; [lia|]. intros Hx'. specialize (Hb Hx'). lia.
      * pose proof (rc_count _ _ _ Hi x e' Hx Hx0 HP Hn) as H. simpl in H. destruct (Z.eqb_spec x h); [done|]. counts.
  - by apply (flush_part_set db L P h e _ (db_dirtiesSize db) (db_childrenSize db)).
  - split; [done|]. split.
    + intros x ex. simpl. intros [[<- <-]|[_ Hx]]%lookup_insert_Some; [by exists e|by exists ex].
    + intros x Hx Hs. simpl. rewrite lookup_insert_is_Some'. by right.
Qed.

Lemma unlink_part db L P h e e0 :
  flush_part db L P -> db_dirties db !! h = Some e -> h <> 0 -> h ∉ P -> cn_flushPrev e0 = cn_flushPrev e -> cn_flushNext e0 = cn_flushNext e ->
  exists db' L', unlink h e0 db = Ret db' /\ flush_part db' L' (h :: P) /\ same_data (db_dirties db) (db_dirties db') /\ db_disk db' = db_disk db.
Proof.
  intros (Hl & Hdom & Hdis) He H0 HP Ep En. destruct (proj1 (Hdom h)) as [?|[Hin|?]]; [by eexists|done| |done].
  apply list_elem_of_split in Hin as (L1 & L2 & ->). destruct (unlink_flush db L1 h L2 e Hl He) as (db' & E & Hu).
  exists db', (L1 ++ L2). split; [rewrite <- E; unfold unlink; by rewrite Ep, En|]. destruct Hu as [Hd Hlk Ho Hn Hk _]. split; [|done].
  pose proof (fun x => same_nodes_dom _ _ x (same_data_nodes _ _ Hd)) as Hs. destruct Hl as (Hnd & Hz & Hr & _).
  apply NoDup_app in Hnd as (N1 & N2 & N3). apply NoDup_cons in N3 as [Hh N3]. assert (Hh1 : h ∉ L1) by (intros Hin; apply (N2 h Hin); by left).
  assert (HL : forall x, x ∈ L1 ++ h :: L2 <-> x = h \/ x ∈ L1 ++ L2) by (intros x; rewrite !elem_of_app, elem_of_cons; tauto).
  split; [split_and!; try done|split].
  - apply NoDup_app. split_and!; [done| |done]. intros x Hx Hx2. apply (N2 x Hx). by right.
  - intros H. apply Hz, HL. by right.
  - by apply Hs.
  - intros x. rewrite Hs, Hdom, HL, elem_of_cons. tauto.
  - intros x [->|Hx]%elem_of_cons; [rewrite elem_of_app; tauto|]. intros Hx'. apply (Hdis x Hx), HL. by right.
Qed.

Lemma rc_same db db' P R : rc_inv db P R -> same_data (db_dirties db) (db_dirties db') -> db_disk db' = db_disk db -> rc_inv db' P R.
Proof.
  intros Hi Hs Hd. assert (Hx : forall x e', db_dirties db' !! x = Some e' -> exists e, db_dirties db !! x = Some e /\ cn_data e' = cn_data e).
  { intros x e' He. specialize (Hs x). rewrite He in Hs. destruct (db_dirties db !! x) as [e|]; [|done]. exists e. split; [done|]. by apply Some_inj in Hs. }
  eapply rc_transport; [exact Hi|done| | | |].
  - intros x e' He. destruct (Hx x e' He) as (e & E & Hda). exists e. split; [done|by apply data_refs].
  - intros x. by apply (same_nodes_dom _ _ x (same_data_nodes _ _ Hs)).
  - intros x. by apply refs_same.
  - intros x e' He H0 HP Hn. destruct (Hx x e' He) as (e & E & Hda). assert (Hp : cn_parents e' = cn_parents e) by (unfold cn_data in Hda; congruence).
    rewrite Hp. by apply (rc_count _ _ _ Hi x e).
Qed.

Lemma remains_same P db db' : same_data (db_dirties db) (db_dirties db') -> db_disk db' = db_disk db -> remains P db db'.
Proof.
  intros Hs Hd. split; [done|]. split.
  - intros x e' He. specialize (Hs x). rewrite He in Hs. destruct (db_dirties db !! x) as [e|]; [|done]. exists e.
    apply Some_inj in Hs. unfold cn_data in Hs. split; [done|]. split; [congruence|]. intros _. congruence.
  - intros x _. by apply (same_nodes_dom _ _ x (same_data_nodes _ _ Hs)).
Qed.

(** The references of an entry without references become references to take back. *)
Lemma rc_push db P R h e :
  rc_inv db P R -> db_dirties db !! h = Some e -> h <> 0 -> h ∉ P -> cn_parents e = 0 -> rc_inv db (h :: P) (childs e ++ R).
Proof.
  intros [Hc Hcl Hen [Hr Hr']] He H0 HP Hpar. assert (Hok : forall k ek, db_dirties db !! k = Some ek -> ext_ok ek) by (intros k ek Hk; by destruct (Hen k ek Hk)).
  split; [| |done|split; [done|rewrite not_elem_of_cons; by split]].
  - intros x ex Hx Hx0 [Hne HxP]%not_elem_of_cons Hd. rewrite (refs_push _ _ _ e) by done. rewrite count_app.
    pose proof (Hc x ex Hx Hx0 HxP Hd) as [Ha Hb]. pose proof (count_childs e x (Hok h e He)). split; [lia|]. intros Hxt. specialize (Hb Hxt).
    destruct (Hen h e He) as (H1 & _ & _ & H4). rewrite (count_childs_once e x H1 (H4 Hxt H0 x)). lia.
  - intros p ep c Hp [Hne HpP]%not_elem_of_cons Hin. destruct (Hcl p ep c Hp HpP Hin) as [[Hs HcP]|?]; [|by right].
    destruct (decide (c = h)) as [->|Hch]; [|left; split; [done|by apply not_elem_of_cons]].
    destruct (db_disk db !! h) as [b|] eqn:Ed; [right; by eexists|]. exfalso. pose proof (Hc h e He H0 HP Ed) as [Ha _]. pose proof (count_nonneg h R).
    pose proof (refs_ge _ _ _ _ h Hok Hp HpP). pose proof (count_childs ep h (Hok p ep Hp)). pose proof (count_elem h _ Hin). lia.
Qed.

(** The entry leaves the memory. *)
Lemma rc_pop db P R L h a b :
  rc_inv db (h :: P) R -> flush_part db L (h :: P) -> h ∉ P -> h <> 0 ->
  let db' := set_sizes a b (set_dirties (base.delete h (db_dirties db)) db) in rc_inv db' P R /\ flush_part db' L P.
Proof.
  intros [Hc Hcl Hen [Hr Hr']] ((Hnd & Hz & Hs0 & Ho & Hn & Hl) & Hdom & Hdis) HP H0 db'. split.
  - split.
    + intros x e. simpl. intros [Hne Hx]%lookup_delete_Some Hx0 HxP Hd. rewrite refs_pop by done. apply Hc; [done|done| |done]. apply not_elem_of_cons. by split.
    + intros p e c. simpl. intros [Hne Hp]%lookup_delete_Some HpP Hin. destruct (Hcl p e c Hp) as [[Hs Hcn]|?]; [apply not_elem_of_cons; by split|done| |by right].
      apply not_elem_of_cons in Hcn as [Hch HcP]. left. split; [|done]. by rewrite lookup_delete_ne.
    + intros p e. simpl. intros [_ Hp]%lookup_delete_Some. by apply Hen.
    + split; [simpl; by rewrite lookup_delete_ne|]. by apply not_elem_of_cons in Hr' as [_ ?].
  - assert (HhL : h ∉ L) by (apply Hdis; by left). split; [split_and!; try done|split].
    + simpl. by rewrite lookup_delete_ne.
    + simpl. by apply linked_delete.
    + intros x. simpl. rewrite lookup_delete_is_Some, Hdom, elem_of_cons. split; [naive_solver|]. intros Hx. split; [|tauto]. intros <-. tauto.
    + intros x Hx. apply Hdis. by right.
Qed.

Lemma remains_pop db db' P h a b :
  remains (h :: P) db db' -> h ∉ P -> remains P db (set_sizes a b (set_dirties (base.delete h (db_dirties db')) db')).
Proof.
  intros (H1 & H2 & H3) HP. split; [done|]. split.
  - intros x e'. simpl. intros [Hne Hx]%lookup_delete_Some. destruct (H2 x e' Hx) as (e & E & Hn & Hc). exists e. split_and!; [done|done|].
    intros HxP. apply Hc, not_elem_of_cons. by split.
  - intros x Hx Hs. simpl. rewrite lookup_delete_ne by (intros ->; done). apply H3; [by right|done].
Qed.

Lemma forChilds_childs e : (exists l, forGatherChildren (cn_node e) = Ret l) -> forChilds e = Ret (childs e).
Proof. intros [l H]. unfold forChilds, childs, inner. by rewrite H. Qed.

Definition releases (P R : list Hash) (db : Database) (r : outcome Database) : Prop :=
  exists db' L', r = Ret db' /\ rc_inv db' P R /\ flush_part db' L' P /\ remains P db db'.

Lemma release_fold fuel h P R cs db L :
  (forall c R db L, c ∈ cs -> rc_inv db (h :: P) (c :: R) -> flush_part db L (h :: P) -> releases (h :: P) R db (db_dereference fuel c h db)) ->
  rc_inv db (h :: P) (cs ++ R) -> flush_part db L (h :: P) ->
  releases (h :: P) R db (foldl (fun db c => db ← db; db_dereference fuel c h db) (Ret db) cs).
Proof.
  revert db L. induction cs as [|c cs IH]; intros db L Hc Hi Hf.
  { exists db, L. split_and!; [done|done|apply Hf..|apply remains_refl]. }
  destruct (Hc c (cs ++ R) db L (list_elem_of_here _ _) Hi Hf) as (db1 & L1 & E1 & Hi1 & Hf1 & Hr1).
  cbn [foldl mbind outcome_mbind outcome_bind]. rewrite E1.
  destruct (IH db1 L1) as (db2 & L2 & E2 & Hi2 & Hf2 & Hr2); [intros c' R' db' L' Hin; apply Hc; by right|done|done|].
  exists db2, L2. split; [done|]. split; [done|]. split; [done|]. by eapply remains_trans.
Qed.

Lemma release_ok fuel h P R db L :
  rc_inv db P (h :: R) -> flush_part db L P -> h <> 0 -> (forall q, q ∈ P -> (rank h < rank q)%nat) -> (rank h <= fuel)%nat ->
  releases P R db (release fuel h db).
Proof.
  revert h P R db L. induction fuel as [fuel IH] using lt_wf_ind; intros h P R db L Hi Hf H0 HP Hfuel. unfold release.
  assert (HhP : h ∉ P) by (intros Hin; apply HP in Hin; lia). destruct (db_dirties db !! h) as [e|] eqn:He.
  2: { exists db, L. split; [done|]. split; [|split; [done|apply remains_refl]]. eapply rc_transport; [exact Hi|done|intros x e' Hx; by exists e'|done|done|].
       intros x e' Hx Hx0 HxP Hn. pose proof (rc_count _ _ _ Hi x e' Hx Hx0 HxP Hn) as H. simpl in H. destruct (Z.eqb_spec x h); [congruence|]. counts. }
  destruct (count_falls db P R L h e Hi Hf He H0) as (Hi1 & Hf1 & Hr1). set (parents := if 0 <? cn_parents e then cn_parents e - 1 else 0) in *.
  rewrite (upd_some h _ _ e He). cbn [mbind outcome_mbind outcome_bind]. set (db1 := set_dirties _ db) in *.
  destruct (Z.eqb_spec parents 0) as [E0|E0]; [|exists db1, L; by split_and!].
  assert (He1 : db_dirties db1 !! h = Some (set_parents parents e)) by apply lookup_insert_eq.
  destruct (unlink_part db1 L P h _ e Hf1 He1 H0 HhP eq_refl eq_refl) as (db2 & L2 & -> & Hf2 & Hs2 & Hd2). cbn [mbind outcome_mbind outcome_bind].
  pose proof (rc_same db1 db2 P R Hi1 Hs2 Hd2) as Hi2. assert (He2 : exists e2, db_dirties db2 !! h = Some e2 /\ cn_data e2 = cn_data (set_parents parents e)).
  { specialize (Hs2 h). rewrite He1 in Hs2. destruct (db_dirties db2 !! h) as [e2|]; [|done]. exists e2. split; [done|]. by apply Some_inj in Hs2. }
  destruct He2 as (e2 & He2 & Hda). assert (Hc2 : childs e2 = childs e) by (rewrite (same_refs_childs _ _ (data_refs _ _ Hda)); done).
  assert (Hp2 : cn_parents e2 = 0) by (unfold cn_data in Hda; simpl in Hda; congruence).
  pose proof (rc_push db2 P R h e2 Hi2 He2 H0 HhP Hp2) as Hi3. rewrite Hc2 in Hi3. destruct (rc_entry _ _ _ Hi h e He) as (_ & Hg & Hrank & _).
  rewrite (forChilds_childs e Hg). cbn [mbind outcome_mbind outcome_bind].
  destruct (release_fold fuel h P R (childs e) db2 L2) as (db3 & L3 & -> & Hi4 & Hf4 & Hr4); [|done|done|].
  { intros c R' db' L' Hin Hi' Hf'. destruct (Hrank c Hin) as [Hc0 Hcr]. specialize (Hcr H0). destruct fuel as [|fuel]; [lia|].
    destruct Hf' as (Hl' & Hdom' & Hdis'). destruct (proj2 (Hdom' h)) as [p Hp]; [right; right; by left|]. rewrite (dereference_S fuel c h db' p Hp).
    destruct (unref_pending db' (h :: P) (c :: R') L' h p c (db_dirtiesSize db') (db_childrenSize db' - (unreference c p).2) Hi') as (Hi5 & Hf5 & Hr5); [done|by left|done|].
    destruct (IH fuel ltac:(lia) c (h :: P) R' _ L' Hi5 Hf5 Hc0) as (db6 & L6 & E6 & Hi6 & Hf6 & Hr6); [|lia|].
    - intros q [->|Hq]%elem_of_cons; [done|]. apply HP in Hq. lia.
    - exists db6, L6. split; [done|]. split; [done|]. split; [done|]. by eapply remains_trans. }
  cbn [mbind outcome_mbind outcome_bind]. eexists _, L3. split; [done|].
  pose proof (fun a b => rc_pop db3 P R L3 h a b Hi4 Hf4 HhP H0) as Hpop. split; [apply Hpop|]. split; [apply Hpop|].
  eapply remains_trans; [exact Hr1|]. apply remains_pop; [|done]. eapply remains_trans; [|exact Hr4]. by apply remains_same.
Qed.

(** ** The operations *)

Definition rc_ok (db : Database) : Prop := rc_inv db [] [] /\ exists L, flush_ok db L.

Lemma flush_part_nil db L : flush_part db L [] <-> flush_ok db L.
Proof. clear exact rank.
  unfold flush_part, flush_link, flush_ok. setoid_rewrite elem_of_nil. split.
  - intros ((H1 & H2 & H3 & H4 & H5 & H6) & Hd & _). split_and!; try done. intros h. rewrite Hd. tauto.
  - intros (H1 & H2 & H3 & H4 & H5 & H6). split; [split_and!; try done; apply H3; by left|]. split; [|done]. intros x. rewrite H3. tauto.
Qed.

Lemma unref_root db R p c a b :
  rc_inv db [] R -> db_dirties db !! 0 = Some p -> 1 <= ext p c ->
  rc_inv (set_sizes a b (set_dirties (<[0 := (unreference c p).1]> (db_dirties db)) db)) [] (c :: R).
Proof.
  intros [Hc Hcl Hen [Hr Hr']] Hp Hext. destruct (unreference_node c p) as (Hn & Hpar & Hpr & Hnx).
  set (db' := set_sizes a b _). destruct (Hen 0 p Hp) as (Hok & Hg & Hrank & Hsi).
  assert (Hdom : forall x, is_Some (db_dirties db' !! x) <-> is_Some (db_dirties db !! x)).
  { intros x. simpl. rewrite lookup_insert_is_Some'. split; [intros [<-|?]; [by eexists|done]|by right]. }
  split.
  - intros x ex. simpl. intros [[<- _]|[_ Hx]]%lookup_insert_Some Hx0 HxP Hd; [done|]. unfold refs. rewrite (msum_set _ _ 0 p _ Hp).
    unfold weight at 2 3. rewrite bool_decide_false by apply not_elem_of_nil. rewrite unreference_mult by done. pose proof (Hc x ex Hx Hx0 HxP Hd) as H. unfold refs in H.
    destruct (Z.ltb_spec 0 (ext p c)); [|lia]. destruct (x =? c); simpl; counts.
  - intros q eq c'. simpl. intros [[<- <-]|[_ Hq]]%lookup_insert_Some HqP Hin.
    + apply unreference_childs in Hin. destruct (Hcl 0 p c' Hp HqP Hin) as [[? ?]|?]; [left; split; [by apply Hdom|done]|by right].
    + destruct (Hcl q eq c' Hq HqP Hin) as [[? ?]|?]; [left; split; [by apply Hdom|done]|by right].
  - intros q eq. simpl. intros [[<- <-]|[_ Hq]]%lookup_insert_Some; [|by apply Hen].
    split_and!; [by apply unreference_ok|by rewrite Hn| |by apply unreference_once]. intros c' Hc'. by apply Hrank, (unreference_childs c).
  - split; [by apply Hdom|done].
Qed.

(** What is left after [Dereference]: the disk is as it was, entries are only removed, and the
    metaroot has one reference less. *)
Definition dereferenced (root : Hash) (p : cachedNode) (db db' : Database) : Prop :=
  db_disk db' = db_disk db /\
  (forall x e', db_dirties db' !! x = Some e' -> x <> 0 -> exists e, db_dirties db !! x = Some e /\ cn_node e' = cn_node e /\ cn_children e' = cn_children e) /\
  exists p', db_dirties db' !! 0 = Some p' /\ cn_children p' = cn_children (unreference root p).1.

Lemma Dereference_ok fuel root db p :
  rc_ok db -> root <> 0 -> db_dirties db !! 0 = Some p -> 1 <= ext p root -> (rank root < fuel)%nat ->
  exists db', db_Dereference fuel root db = Ret db' /\ rc_ok db' /\ dereferenced root p db db'.
Proof.
  intros [Hi [L HL]] H0 Hp Hext Hf. unfold db_Dereference. destruct (Z.eqb_spec root 0); [done|]. destruct fuel as [|fuel]; [lia|].
  rewrite (dereference_S fuel root 0 db p Hp). set (db1 := set_sizes _ _ _). apply flush_part_nil in HL.
  destruct (unreference_node root p) as (Hn & Hpar & Hpr & Hnx).
  assert (Hi1 : rc_inv db1 [] [root]) by by apply unref_root. assert (HL1 : flush_part db1 L []) by by eapply flush_part_set.
  destruct (release_ok fuel root [] [] db1 L Hi1 HL1 H0) as (db' & L' & E & Hi' & HL' & Hd & Hx & _); [by intros q ?%elem_of_nil|lia|].
  exists db'. split; [done|]. split; [split; [done|exists L'; by apply flush_part_nil]|]. split; [done|]. split.
  - intros x e' He Hx0. destruct (Hx x e' He) as (e & Ee & Hn' & Hc'). simpl in Ee. rewrite lookup_insert_ne in Ee by done.
    exists e. split_and!; [done|done|apply Hc', not_elem_of_nil].
  - destruct (rc_root _ _ _ Hi') as [[p' Hp'] _]. exists p'. split; [done|]. destruct (Hx 0 p' Hp') as (e & Ee & _ & Hc'). simpl in Ee. rewrite lookup_insert_eq in Ee.
    injection Ee as <-. apply Hc', not_elem_of_nil.
Qed.
End invariant.
