(* ===== verification/Trie.v ===== *)
(** The operations of the Merkle Patricia trie: [trie/trie.go].

    Nodes are loaded from the database, the parameter [db_node] here ([Database.node], see
    [TrieDatabase]), when a path reaches a hash.  Nodes are never changed in place: an
    operation copies the nodes of its path and shares the others. *)
From S2P Require Import Prelude KeyedList Common Rlp TrieEncoding TrieNode.

Open Scope Z_scope.

(** ** Results *)

Record MissingNodeError : Type := mkMissing { me_NodeHash : Hash; me_Path : bytes }.

(** An operation gives a value, the error, a run-time panic, or does not end within the
    steps given to it. *)
Inductive tres (A : Type) : Type :=
| TRet (a : A)
| TErr (e : MissingNodeError)
| TPanic
| TLoop.
Arguments TRet {A} _.
Arguments TErr {A} _.
Arguments TPanic {A}.
Arguments TLoop {A}.

#[export] Instance tres_mret : MRet tres := fun A => @TRet A.
#[export] Instance tres_mbind : MBind tres := fun A B f r =>
  match r with TRet a => f a | TErr e => TErr e | TPanic => TPanic | TLoop => TLoop end.

Definition newFlag : nodeFlag := mkNodeFlag None true.

(** The children of [&fullNode{}]. *)
Definition no_children : list node := replicate 17 nil_node.

(** [Children[x]], read and written *)
Definition get_child (cs : list node) (x : Z) : tres node :=
  match cs !! Z.to_nat x with Some c => TRet c | None => TPanic end.

Definition set_child (cs : list node) (x : Z) (c : node) : tres (list node) :=
  if (Z.to_nat x <? length cs)%nat then TRet (<[Z.to_nat x := c]> cs) else TPanic.

(** [key[pos]] *)
Definition byte_at (key : bytes) (pos : nat) : tres Z :=
  match key !! pos with Some x => TRet x | None => TPanic end.

(** The loop that looks for the only child: its index, -1 for none, -2 for several. *)
Fixpoint only_child (i pos : Z) (cs : list node) : Z :=
  match cs with
  | [] => pos
  | c :: cs =>
      if is_nil c then only_child (i + 1) pos cs
      else if pos =? -1 then only_child (i + 1) i cs
      else -2
  end.

(** ** The operations on nodes *)

Section Trie.
Context (db_node : Hash -> outcome (option node)).

Definition resolveHash (n prefix : bytes) : tres node :=
  let hash := BytesToHash n in
  match db_node hash with
  | Ret (Some node) => TRet node
  | Ret None => TErr (mkMissing hash prefix)
  | _ => TPanic
  end.

Definition resolve (n : node) (prefix : bytes) : tres node :=
  match n with
  | hashNode h => resolveHash h prefix
  | _ => TRet n
  end.

Fixpoint tryGet (fuel : nat) (origNode : node) (key : bytes) (pos : nat) : tres (option bytes * node * bool) :=
  match fuel with
  | O => TLoop
  | S fuel =>
      match origNode with
      | nil_node => TRet (None, nil_node, false)
      | valueNode v => TRet (Some v, origNode, false)
      | shortNode nKey nVal flags =>
          if (length key <? pos + length nKey)%nat || negb (bool_decide (nKey = take (length nKey) (drop pos key)))
          then TRet (None, origNode, false)
          else
            '(value, newnode, didResolve) ← tryGet fuel nVal key (pos + length nKey);
            TRet (value, (if didResolve : bool then shortNode nKey newnode flags else origNode), didResolve)
      | fullNode cs flags =>
          x ← byte_at key pos;
          c ← get_child cs x;
          '(value, newnode, didResolve) ← tryGet fuel c key (pos + 1);
          if (didResolve : bool) then cs ← set_child cs x newnode; TRet (value, fullNode cs flags, didResolve)
          else TRet (value, origNode, didResolve)
      | hashNode h =>
          child ← resolveHash h (take pos key);
          '(value, newnode, _) ← tryGet fuel child key pos;
          TRet (value, newnode, true)
      | _ => TPanic
      end
  end.

Fixpoint insert (fuel : nat) (n : node) (prefix key : bytes) (value : node) : tres (bool * node) :=
  match fuel with
  | O => TLoop
  | S fuel =>
      match key with
      | [] =>
          match n, value with
          | valueNode v, valueNode v' => TRet (negb (bool_decide (v = v')), value)
          | valueNode _, _ => TPanic
          | _, _ => TRet (true, value)
          end
      | key0 :: key' =>
          match n with
          | shortNode nKey nVal flags =>
              let matchlen := prefixLen key nKey in
              if (matchlen =? length nKey)%nat then
                '(dirty, nn) ← insert fuel nVal (prefix ++ take matchlen key) (drop matchlen key) value;
                if (dirty : bool) then TRet (true, shortNode nKey nn newFlag) else TRet (false, n)
              else
                i ← byte_at nKey matchlen;
                '(_, c) ← insert fuel nil_node (prefix ++ take (matchlen + 1) nKey) (drop (matchlen + 1) nKey) nVal;
                cs ← set_child no_children i c;
                j ← byte_at key matchlen;
                '(_, c) ← insert fuel nil_node (prefix ++ take (matchlen + 1) key) (drop (matchlen + 1) key) value;
                cs ← set_child cs j c;
                let branch := fullNode cs newFlag in
                if (matchlen =? 0)%nat then TRet (true, branch)
                else TRet (true, shortNode (take matchlen key) branch newFlag)
          | fullNode cs flags =>
              c ← get_child cs key0;
              '(dirty, nn) ← insert fuel c (prefix ++ [key0]) key' value;
              if (dirty : bool) then cs ← set_child cs key0 nn; TRet (true, fullNode cs newFlag)
              else TRet (false, n)
          | nil_node => TRet (true, shortNode key value newFlag)
          | hashNode h =>
              rn ← resolveHash h prefix;
              '(dirty, nn) ← insert fuel rn prefix key value;
              if (dirty : bool) then TRet (true, nn) else TRet (false, rn)
          | _ => TPanic
          end
      end
  end.

(** A full node that has lost a child is replaced by a short node when one child is left. *)
Definition reduce (cs : list node) (prefix : bytes) : tres (bool * node) :=
  let pos := only_child 0 (-1) cs in
  if pos <? 0 then TRet (true, fullNode cs newFlag)
  else
    c ← get_child cs pos;
    let single := TRet (true, shortNode [pos] c newFlag) in
    if pos =? 16 then single
    else
      cnode ← resolve c prefix;
      match cnode with
      | shortNode cKey cVal _ => TRet (true, shortNode (pos :: cKey) cVal newFlag)
      | _ => single
      end.

Fixpoint delete (fuel : nat) (n : node) (prefix key : bytes) : tres (bool * node) :=
  match fuel with
  | O => TLoop
  | S fuel =>
      match n with
      | shortNode nKey nVal flags =>
          let matchlen := prefixLen key nKey in
          if (matchlen <? length nKey)%nat then TRet (false, n)
          else if (matchlen =? length key)%nat then TRet (true, nil_node)
          else
            '(dirty, child) ← delete fuel nVal (prefix ++ take (length nKey) key) (drop (length nKey) key);
            if (dirty : bool) then
              match child with
              | shortNode cKey cVal _ => TRet (true, shortNode (nKey ++ cKey) cVal newFlag)
              | _ => TRet (true, shortNode nKey child newFlag)
              end
            else TRet (false, n)
      | fullNode cs flags =>
          key0 ← byte_at key 0;
          c ← get_child cs key0;
          '(dirty, nn) ← delete fuel c (prefix ++ [key0]) (drop 1 key);
          if (dirty : bool) then
            cs ← set_child cs key0 nn;
            if is_nil nn then reduce cs prefix else TRet (true, fullNode cs newFlag)
          else TRet (false, n)
      | valueNode _ => TRet (true, nil_node)
      | nil_node => TRet (false, nil_node)
      | hashNode h =>
          rn ← resolveHash h prefix;
          '(dirty, nn) ← delete fuel rn prefix key;
          if (dirty : bool) then TRet (true, nn) else TRet (false, rn)
      | _ => TPanic
      end
  end.

(** ** The trie *)

Record Trie : Type := mkTrie { t_root : node; t_unhashed : Z }.

(** On a path every node but the last consumes nibbles, and a hash is resolved to a node that
    is not one. *)
Definition steps (key : bytes) : nat := 2 * length key + 2.

Definition emptyRoot : Hash := 0x56e81f171bcc55a6ff8345e692c0f86e5b48e01b996cadc001622fb5e363b421.

Definition New (root : Hash) : tres Trie :=
  if (root =? 0) || (root =? emptyRoot) then TRet (mkTrie nil_node 0)
  else rootnode ← resolveHash (Hash_Bytes root) []; TRet (mkTrie rootnode 0).

Definition TryGet (t : Trie) (key : bytes) : tres (option bytes * Trie) :=
  let k := keybytesToHex key in
  '(value, newroot, didResolve) ← tryGet (steps k) (t_root t) k 0;
  TRet (value, if didResolve : bool then mkTrie newroot (t_unhashed t) else t).

(** An operation that fails leaves the root as it was. *)
Definition TryUpdate (t : Trie) (key value : bytes) : tres Trie :=
  let k := keybytesToHex key in
  '(_, n) ← (if negb (length value =? 0)%nat then insert (steps k) (t_root t) [] k (valueNode value)
             else delete (steps k) (t_root t) [] k);
  TRet (mkTrie n (t_unhashed t + 1)).

Definition TryDelete (t : Trie) (key : bytes) : tres Trie :=
  let k := keybytesToHex key in
  '(_, n) ← delete (steps k) (t_root t) [] k;
  TRet (mkTrie n (t_unhashed t + 1)).

End Trie.

Definition Reset : Trie := mkTrie nil_node 0.
