(* ===== verification/TrieSpec.v ===== *)
(** What a trie stands for: a tree without hashes, flags and database, and the map from keys
    to values that it holds.

    [wf] is the minimal form the operations keep: no empty extension, no chain of short
    nodes, at least two children below a full node, no empty value.  In this form the
    contents determine the tree ([wf_canonical]), which is why the root hash is a function
    of the contents. *)
From S2P Require Import Prelude KeyedList Common Rlp TrieEncoding.

Open Scope Z_scope.

Inductive tree : Type :=
| TNil
| TVal (v : bytes)
| TShort (k : bytes) (c : tree)
| TFull (cs : list tree).

Section tree_induction.
  Context (P : tree -> Prop).
  Context (Hnil : P TNil) (Hval : forall v, P (TVal v)).
  Context (Hshort : forall k c, P c -> P (TShort k c)) (Hfull : forall cs, Forall P cs -> P (TFull cs)).

Fixpoint tree_induction (t : tree) : P t :=
  match t with
  | TNil => Hnil
  | TVal v => Hval v
  | TShort k c => Hshort k c (tree_induction c)
  | TFull cs => Hfull cs ((fix go l := match l return Forall P l with
                                       | [] => Forall_nil_2 P
                                       | t :: l => Forall_cons_2 P t l (tree_induction t) (go l)
                                       end) cs)
  end.

End tree_induction.

#[export] Instance tree_nil_dec t : Decision (t = TNil).
Proof. destruct t; [by left|by right..]. Defined.

(** The value of a key in nibbles. *)
Fixpoint lookup (t : tree) (key : bytes) : option bytes :=
  match t with
  | TNil => None
  | TVal v => match key with [] => Some v | _ => None end
  | TShort k c => if bool_decide (k `prefix_of` key) then lookup c (drop (length k) key) else None
  | TFull cs =>
      match key with
      | [] => None
      | x :: key => ((fun c => lookup c key) <$> cs) !! Z.to_nat x ≫= id
      end
  end.

Lemma lookup_full cs x key c : cs !! Z.to_nat x = Some c -> lookup (TFull cs) (x :: key) = lookup c key.
Proof. intros H. simpl. by rewrite list_lookup_fmap, H. Qed.

Lemma lookup_short k c key : lookup (TShort k c) (k ++ key) = lookup c key.
Proof. simpl. rewrite bool_decide_true by by eexists. by rewrite drop_app_length. Qed.

Lemma lookup_leaf k v : lookup (TShort k (TVal v)) k = Some v.
Proof. rewrite <- (app_nil_r k) at 2. by rewrite lookup_short. Qed.

Lemma lookup_short_inv k c key v :
  lookup (TShort k c) key = Some v -> exists key', key = k ++ key' /\ lookup c key' = Some v.
Proof.
  simpl. case_bool_decide as H; [|done]. destruct H as [key' ->]. rewrite drop_app_length. by exists key'.
Qed.

(** ** Keys *)

Lemma key_ok_cons x key :
  key_ok (x :: key) <-> (nibble_ok x /\ key_ok key) \/ (x = 16 /\ key = []).
Proof.
  split.
  - intros ([|y ns] & E & Hp); injection E as -> ->; [by right|left].
    apply Forall_cons in Hp as [Hx Hp]. split; [done|by exists ns].
  - intros [[Hx (ns & -> & Hp)]|[-> ->]]; [exists (x :: ns)|exists []]; split; try done; by constructor.
Qed.

Lemma key_ok_app ns key : path_ok ns -> key_ok (ns ++ key) <-> key_ok key.
Proof.
  intros Hp. induction Hp as [|x ns Hx Hp IH]; [done|]. cbn [app]. rewrite key_ok_cons, IH.
  split; [|by left]. intros [[_ H]|[-> _]]; [done|]. by apply nibble_not_16 in Hx.
Qed.

Lemma key_ok_not_nil : ~ key_ok [].
Proof. intros (ns & E & _). by destruct ns. Qed.

(** No key extends another. *)
Lemma key_ok_prefix ns key : path_ok ns -> key_ok (ns ++ [16] ++ key) -> key = [].
Proof. intros Hp H. apply key_ok_app in H; [|done]. apply key_ok_cons in H as [[H _]|[_ H]]; [|done]. by apply nibble_not_16 in H. Qed.

Lemma key_index x key : key_ok (x :: key) -> 0 <= x <= 16.
Proof. intros [[H _]|[-> _]]%key_ok_cons; unfold nibble_ok in *; lia. Qed.

(** ** The minimal form *)

Inductive wf : tree -> Prop :=
| wf_leaf ns v : path_ok ns -> v <> [] -> wf (TShort (ns ++ [16]) (TVal v))
| wf_ext k cs : path_ok k -> k <> [] -> wf (TFull cs) -> wf (TShort k (TFull cs))
| wf_full cs :
    length cs = 17%nat ->
    (forall i c, cs !! i = Some c -> (i < 16)%nat -> c <> TNil -> wf c) ->
    (forall c, cs !! 16%nat = Some c -> c <> TNil -> exists v, v <> [] /\ c = TVal v) ->
    (exists i j c d, i <> j /\ cs !! i = Some c /\ cs !! j = Some d /\ c <> TNil /\ d <> TNil) ->
    wf (TFull cs).

(** A subtree below a path, or below a terminator. *)
Definition wf_at (term : bool) (t : tree) : Prop :=
  t <> TNil -> if term then exists v, v <> [] /\ t = TVal v else wf t.

Definition key_at (term : bool) (key : bytes) : Prop := if term then key = [] else key_ok key.

Lemma wf_child cs x c : wf (TFull cs) -> cs !! Z.to_nat x = Some c -> 0 <= x -> wf_at (x =? 16) c.
Proof.
  intros H Hc Hx Hn. inversion_clear H as [| |? Hl Hlow Htop _]. destruct (Z.eqb_spec x 16) as [->|Hne]; [by apply Htop|].
  apply lookup_lt_Some in Hc as Hlt. rewrite Hl in Hlt. apply (Hlow _ _ Hc); [lia|done].
Qed.

Lemma key_at_child x key : key_ok (x :: key) <-> (nibble_ok x \/ x = 16) /\ key_at (x =? 16) key.
Proof.
  rewrite key_ok_cons. unfold key_at. destruct (Z.eqb_spec x 16) as [->|Hne].
  - split; [intros [[H _]|[_ ->]]; [by apply nibble_not_16 in H|by auto]|]. intros [_ ->]. by right.
  - naive_solver.
Qed.

Lemma wf_short_inv k c :
  wf (TShort k c) ->
  (exists ns v, k = ns ++ [16] /\ c = TVal v /\ path_ok ns /\ v <> []) \/
  (exists cs, c = TFull cs /\ path_ok k /\ k <> [] /\ wf (TFull cs)).
Proof. intros H. inversion H; subst; [left|right]; eauto 10. Qed.

Lemma wf_not_nil t : wf t -> t <> TNil.
Proof. by destruct 1. Qed.

Lemma wf_not_val t v : wf t -> t <> TVal v.
Proof. by destruct 1. Qed.

(** Below a full node some key goes through every child that is there. *)
Lemma wf_at_inhabited_child cs x c :
  wf (TFull cs) -> cs !! Z.to_nat x = Some c -> 0 <= x -> c <> TNil ->
  (forall t, wf t -> t = c -> exists key v, key_ok key /\ lookup t key = Some v) ->
  exists key v, key_ok (x :: key) /\ lookup (TFull cs) (x :: key) = Some v.
Proof.
  intros H Hc Hx Hn IH. pose proof (wf_child _ _ _ H Hc Hx Hn) as Hw. inversion_clear H as [| |? Hl _ _ _].
  apply lookup_lt_Some in Hc as Hlt. setoid_rewrite (lookup_full _ _ _ _ Hc). setoid_rewrite key_at_child. unfold key_at.
  destruct (Z.eqb_spec x 16) as [->|Hne].
  - destruct Hw as (v & Hv & ->). exists [], v. auto.
  - destruct (IH c Hw eq_refl) as (key & v & Hk & Hl'). exists key, v. unfold nibble_ok. split; [|done]. split; [left; lia|done].
Qed.

Lemma wf_inhabited t : wf t -> exists key v, key_ok key /\ lookup t key = Some v.
Proof.
  induction t as [|v|k c IH|cs IH] using tree_induction; intros H; [by inversion H|by inversion H| |].
  - inversion H as [ns v Hp Hv|? cs Hp Hne Hf|]; subst.
    + exists (ns ++ [16]), v. split; [by exists ns|]. apply lookup_leaf.
    + destruct (IH Hf) as (key & v & Hk & Hl). exists (k ++ key), v. split; [by apply key_ok_app|]. by rewrite lookup_short.
  - inversion H as [| |? _ _ _ (i & _ & c & _ & _ & Hc & _ & Hn & _)]; subst.
    assert (Hi : Z.to_nat (Z.of_nat i) = i) by lia. rewrite <- Hi in Hc.
    destruct (wf_at_inhabited_child cs (Z.of_nat i) c) as (key & v & Hk & Hl); [done|done|lia|done| |by eauto].
    intros t Hw ->. rewrite Forall_forall in IH. apply IH; [|done]. by eapply list_elem_of_lookup_2.
Qed.

(** A full node holds keys that differ in the first nibble. *)
Lemma wf_full_diverges cs :
  wf (TFull cs) ->
  exists x y kx ky vx vy, x <> y /\ key_ok (x :: kx) /\ key_ok (y :: ky) /\
    lookup (TFull cs) (x :: kx) = Some vx /\ lookup (TFull cs) (y :: ky) = Some vy.
Proof.
  intros H. inversion H as [| |? _ _ _ (i & j & c & d & Hij & Hc & Hd & Hcn & Hdn)]; subst.
  rewrite <- (Nat2Z.id i) in Hc. rewrite <- (Nat2Z.id j) in Hd.
  destruct (wf_at_inhabited_child cs (Z.of_nat i) c) as (kx & vx & Hkx & Hlx); [done|done|lia|done|by intros t Hw _; apply wf_inhabited|].
  destruct (wf_at_inhabited_child cs (Z.of_nat j) d) as (ky & vy & Hky & Hly); [done|done|lia|done|by intros t Hw _; apply wf_inhabited|].
  exists (Z.of_nat i), (Z.of_nat j), kx, ky, vx, vy. split_and!; [lia|done..].
Qed.

(** ** The contents determine the tree *)

Definition same_contents (t u : tree) : Prop := forall key, key_ok key -> lookup t key = lookup u key.

#[export] Instance same_contents_equivalence : Equivalence same_contents.
Proof. split; [by intros t key| |]; [intros t u H key Hk; symmetry; by apply H|intros t u v H H' key Hk; rewrite H; auto]. Qed.

(** Every key of the tree starts with [p]. *)
Definition below (p : bytes) (t : tree) : Prop := forall key v, key_ok key -> lookup t key = Some v -> p `prefix_of` key.

Lemma below_short k c : below k (TShort k c).
Proof. intros key v _ H. apply lookup_short_inv in H as (key' & -> & _). by eexists. Qed.

Lemma below_same p t u : same_contents t u -> below p t -> below p u.
Proof. intros E H key v Hk Hl. apply (H key v Hk). by rewrite E. Qed.

Lemma prefix_diverge (p q kx ky : bytes) x y :
  x <> y -> p `prefix_of` q ++ x :: kx -> p `prefix_of` q ++ y :: ky -> p `prefix_of` q.
Proof.
  intros Hxy. revert p. induction q as [|z q IH]; intros [|a p] H H'; [done| |apply prefix_nil|].
  - apply prefix_cons_inv_1 in H, H'. congruence.
  - apply prefix_cons_inv_1 in H as Ha. apply prefix_cons_inv_2 in H, H'. subst. by apply prefix_cons, IH.
Qed.

Lemma below_ext p k cs : path_ok k -> wf (TFull cs) -> below p (TShort k (TFull cs)) -> p `prefix_of` k.
Proof.
  intros Hp Hw Hb. destruct (wf_full_diverges cs Hw) as (x & y & kx & ky & vx & vy & Hxy & Hkx & Hky & Hlx & Hly).
  apply (prefix_diverge p k kx ky x y Hxy).
  - apply (Hb _ vx); [by apply key_ok_app|by rewrite lookup_short].
  - apply (Hb _ vy); [by apply key_ok_app|by rewrite lookup_short].
Qed.

Lemma below_full p cs : wf (TFull cs) -> below p (TFull cs) -> p = [].
Proof.
  intros Hw Hb. destruct (wf_full_diverges cs Hw) as (x & y & kx & ky & vx & vy & Hxy & Hkx & Hky & Hlx & Hly).
  apply prefix_nil_inv. apply (prefix_diverge p [] kx ky x y Hxy); [by apply (Hb _ vx)|by apply (Hb _ vy)].
Qed.

Lemma below_leaf p ns v : path_ok ns -> below p (TShort (ns ++ [16]) (TVal v)) -> p `prefix_of` ns ++ [16].
Proof.
  intros Hp Hb. apply (Hb _ v); [by exists ns|]. apply lookup_leaf.
Qed.

(** A terminator is at the end of a path only. *)
Lemma leaf_not_prefix ns k : path_ok k -> ~ ns ++ [16] `prefix_of` k.
Proof.
  intros Hp [r ->]. rewrite <- app_assoc in Hp. apply Forall_app in Hp as [_ Hp]. inversion_clear Hp as [|? ? Hx _].
  by apply nibble_not_16 in Hx.
Qed.

Lemma prefix_eq (p q : bytes) : p `prefix_of` q -> q `prefix_of` p -> p = q.
Proof.
  intros [r ->] [s E]. rewrite <- (app_nil_r p) in E at 1. rewrite <- app_assoc in E. apply app_inv_head in E.
  symmetry in E. apply app_eq_nil in E as [-> _]. by rewrite app_nil_r.
Qed.

Lemma same_children cs ds :
  wf (TFull cs) -> wf (TFull ds) -> same_contents (TFull cs) (TFull ds) ->
  Forall (fun c => forall d, wf c -> wf d -> same_contents c d -> c = d) cs -> cs = ds.
Proof.
  intros Hc Hd E IH. inversion Hc as [| |? Hlc _ _ _]; subst. inversion Hd as [| |? Hld _ _ _]; subst.
  apply list_eq_same_length with (n := 17%nat); [done|done|]. intros i c d Hi Hci Hdi.
  set (x := Z.of_nat i). rewrite <- (Nat2Z.id i) in Hci, Hdi. fold x in Hci, Hdi.
  assert (Hcd : forall key, key_at (x =? 16) key -> lookup c key = lookup d key).
  { intros key Hk. rewrite <- (lookup_full cs x key c), <- (lookup_full ds x key d) by done. apply E.
    apply key_at_child. split; [|done]. unfold nibble_ok. lia. }
  assert (Hwc := wf_child _ _ _ Hc Hci). assert (Hwd := wf_child _ _ _ Hd Hdi). unfold wf_at, key_at in *.
  destruct (Z.eqb_spec x 16) as [Hx|Hx].
  - specialize (Hcd [] eq_refl). assert (H0 : 0 <= x) by lia. specialize (Hwc H0). specialize (Hwd H0).
    destruct (decide (c = TNil)) as [->|Hn]; destruct (decide (d = TNil)) as [->|Hn']; naive_solver.
  - rewrite Forall_forall in IH. specialize (IH c (list_elem_of_lookup_2 _ _ _ Hci) d).
    specialize (Hwc ltac:(lia)). specialize (Hwd ltac:(lia)).
    destruct (decide (c = TNil)) as [->|Hn]; destruct (decide (d = TNil)) as [->|Hn']; [done| | |by apply IH; auto].
    + destruct (wf_inhabited d (Hwd Hn')) as (key & v & Hk & Hl). rewrite <- Hcd in Hl; done.
    + destruct (wf_inhabited c (Hwc Hn)) as (key & v & Hk & Hl). rewrite Hcd in Hl; done.
Qed.

(** The contents determine the tree: two tries in minimal form that give every key the
    same value are the same tree, node for node. *)
Theorem wf_canonical t u : wf t -> wf u -> same_contents t u -> t = u.
Proof.
  revert u. induction t as [|v|k c IH|cs IH] using tree_induction; intros u Ht Hu E; [by inversion Ht|by inversion Ht| |].
  - pose proof (below_same _ _ _ E (below_short k c)) as Hb. inversion Hu as [ns w Hp Hw|k' ds Hp Hne Hf|ds]; subst.
    + symmetry in E. pose proof (below_same _ _ _ E (below_short _ _)) as Hb'.
      apply below_leaf in Hb; [|done]. apply wf_short_inv in Ht as [(ms & v & -> & -> & Hq & Hv)|(cs & -> & Hq & Hne & Hf)].
      * apply below_leaf in Hb'; [|done]. apply prefix_eq in Hb as Hk; [|done]. rewrite Hk in E |- *. do 2 f_equal.
        specialize (E (ms ++ [16]) ltac:(by exists ms)). rewrite !lookup_leaf in E. congruence.
      * apply below_ext in Hb'; [|done..]. by apply leaf_not_prefix in Hb'.
    + symmetry in E. pose proof (below_same _ _ _ E (below_short _ _)) as Hb'.
      apply below_ext in Hb; [|done..]. apply wf_short_inv in Ht as [(ms & v & -> & -> & Hq & Hv)|(cs & -> & Hq & Hne' & Hf')].
      * by apply leaf_not_prefix in Hb.
      * apply below_ext in Hb'; [|done..]. apply prefix_eq in Hb as Hk; [|done]. subst. f_equal. apply IH; [done..|].
        intros key Hkey. symmetry in E. specialize (E (k ++ key)). rewrite !lookup_short in E. apply E. by apply key_ok_app.
    + apply below_full in Hb; [|done]. subst. apply wf_short_inv in Ht as [(ms & v & Hk & _)|(cs & _ & _ & Hk & _)]; [by destruct ms|done].
  - inversion Hu as [ns w Hp Hw|k' ds Hp Hne Hf|ds]; subst.
    + symmetry in E. pose proof (below_same _ _ _ E (below_short _ _)) as Hb'.
      apply below_full in Hb'; [|done]. by destruct ns.
    + symmetry in E. pose proof (below_same _ _ _ E (below_short _ _)) as Hb'. by apply below_full in Hb'.
    + f_equal. apply same_children; done || by eapply Forall_impl.
Qed.

Lemma wf_at_unique t u : wf_at false t -> wf_at false u -> same_contents t u -> t = u.
Proof.
  intros Ht Hu E. destruct (decide (t = TNil)) as [->|Hn], (decide (u = TNil)) as [->|Hn']; [done| | |by apply wf_canonical; [apply Ht|apply Hu|]].
  - destruct (wf_inhabited u (Hu Hn')) as (key & v & Hk & Hl). by rewrite <- (E key Hk) in Hl.
  - destruct (wf_inhabited t (Ht Hn)) as (key & v & Hk & Hl). by rewrite (E key Hk) in Hl.
Qed.
