(* ===== verification/TrieProps.v ===== *)
(** The operations of the trie implement a map.

    [rep n t]: the node [n], with the nodes of the database its hashes name, stands for the
    tree [t].  The theorems are proved for any database that keeps what [StoreOk] states:
    a hash that is held for a tree loads a node that stands for it.  From them follows that
    the trie refines a finite map. *)
From S2P Require Import Prelude KeyedList Common Rlp TrieEncoding TrieNode Trie TrieSpec.

Open Scope Z_scope.

(** ** What a node stands for *)

(** [held top h t]: the hash [h] may stand for [t]; [flag_ok s top fl t]: the flags [fl] may be
    on a node for [t].  The node at the root ([top]) is hashed whatever its size.  Below a
    node with a cached hash the nodes are settled ([s]): they have their hashes too. *)
Class Store : Type := {
  held : bool -> bytes -> tree -> Prop;
  flag_ok : bool -> bool -> nodeFlag -> tree -> Prop;
}.

Definition has_hash (fl : nodeFlag) : bool := match nf_hash fl with Some _ => true | None => false end.

Inductive srep `{Store} : bool -> bool -> node -> tree -> Prop :=
| rep_nil s top : srep s top nil_node TNil
| rep_val s top v : srep s top (valueNode v) (TVal v)
| rep_short s top k c fl t :
    flag_ok s top fl (TShort k t) -> srep (s || has_hash fl) false c t -> srep s top (shortNode k c fl) (TShort k t)
| rep_full s top cs fl ts :
    flag_ok s top fl (TFull ts) -> length cs = length ts ->
    (forall i c t, cs !! i = Some c -> ts !! i = Some t -> srep (s || has_hash fl) false c t) ->
    srep s top (fullNode cs fl) (TFull ts)
| rep_hash s top h t : held top h t -> srep s top (hashNode h) t.

Notation rep := (srep false).

Definition is_hash (n : node) : bool := match n with hashNode _ => true | _ => false end.

Class StoreOk `{Store} (db_node : Hash -> outcome (option node)) : Prop := {
  flag_new : forall top t, flag_ok false top newFlag t;
  flag_settled : forall top fl t, flag_ok true top fl t -> flag_ok false top fl t;
  held_wf : forall top h t, held top h t -> wf t;
  held_load : forall top h t, held top h t ->
    exists n, db_node (BytesToHash h) = Ret (Some n) /\ is_hash n = false /\ srep true top n t;
}.

(** ** Minimal trees, changed *)

(** The subtree of a short node: its keys, and what may replace it. *)
Lemma wf_short_child k c :
  wf (TShort k c) ->
  k <> [] /\ c <> TNil /\
  exists term, wf_at term c /\ (forall rest, key_ok (k ++ rest) <-> key_at term rest) /\
    (term = false -> exists cs, c = TFull cs) /\
    (forall c', c' <> TNil -> wf_at term c' -> (term = false -> exists cs, c' = TFull cs) -> wf (TShort k c')).
Proof.
  intros [(ns & v & -> & -> & Hp & Hv)|(cs & -> & Hp & Hne & Hf)]%wf_short_inv.
  - split_and!; [by destruct ns|done|]. exists true. split_and!; [by intros _; exists v| |done|].
    + intros rest. rewrite <- app_assoc. simpl. split; [by apply key_ok_prefix|intros ->; by exists ns].
    + intros c' Hn Hw _. destruct (Hw Hn) as (w & Hv' & ->). by constructor.
  - split_and!; [done|done|]. exists false. split_and!; [by intros _| |by eauto|].
    + intros rest. by apply key_ok_app.
    + intros c' Hn Hw Hc. destruct Hc as [cs' ->]; [done|]. constructor; [done..|]. by apply Hw.
Qed.

(** The map of a tree with one key changed. *)
Definition changed (term : bool) (t t' : tree) (key : bytes) (v : option bytes) : Prop :=
  forall key', key_at term key' -> lookup t' key' = if decide (key' = key) then v else lookup t key'.

Lemma changed_short term k c c' key v :
  (forall rest, key_ok (k ++ rest) <-> key_at term rest) ->
  changed term c c' key v -> changed false (TShort k c) (TShort k c') (k ++ key) v.
Proof.
  intros Hk Hc key' Hkey. simpl in Hkey. destruct (decide (k `prefix_of` key')) as [[rest ->]|Hn].
  - rewrite !lookup_short, (Hc rest) by by apply Hk. by repeat case_decide; simplify_list_eq.
  - simpl. rewrite bool_decide_false by done. case_decide as E; [|done]. subst. destruct Hn. by eexists.
Qed.

Lemma changed_full ts x c c' key v :
  ts !! Z.to_nat x = Some c -> 0 <= x ->
  changed (x =? 16) c c' key v -> changed false (TFull ts) (TFull (<[Z.to_nat x := c']> ts)) (x :: key) v.
Proof.
  intros Hx H0 Hc [|y key'] Hkey; [by apply key_ok_not_nil in Hkey|]. apply key_index in Hkey as Hy.
  apply lookup_lt_Some in Hx as Hlt. destruct (decide (x = y)) as [<-|Hne].
  - rewrite (lookup_full (<[_:=_]> ts) x key' c'), (lookup_full ts x key' c) by (done || by apply list_lookup_insert_eq).
    rewrite Hc by by apply key_at_child in Hkey as []. by repeat case_decide; simplify_eq.
  - rewrite decide_False by congruence. simpl. rewrite !list_lookup_fmap, list_lookup_insert_ne by lia. done.
Qed.

Lemma wf_full_update ts x c' :
  wf (TFull ts) -> 0 <= x <= 16 -> wf_at (x =? 16) c' -> c' <> TNil -> wf (TFull (<[Z.to_nat x := c']> ts)).
Proof.
  intros H Hx Hw Hn. inversion H as [| |? Hl Hlow Htop (i & j & c & d & Hij & Hc & Hd & Hcn & Hdn)]; subst.
  constructor; [by rewrite length_insert| | |].
  - intros k e Hk Hlt Hen. apply list_lookup_insert_Some in Hk as [(<- & <- & _)|[_ Hk]]; [|by apply (Hlow k)].
    specialize (Hw Hen). destruct (Z.eqb_spec x 16); [lia|done].
  - intros e Hk Hen. apply list_lookup_insert_Some in Hk as [(Hk & <- & _)|[_ Hk]]; [|by apply Htop].
    specialize (Hw Hen). destruct (Z.eqb_spec x 16); [done|lia].
  - assert (Hat : forall k e, ts !! k = Some e -> e <> TNil ->
              exists e', <[Z.to_nat x := c']> ts !! k = Some e' /\ e' <> TNil).
    { intros k e Hk Hen. destruct (decide (k = Z.to_nat x)) as [->|Hne].
      - exists c'. split; [|done]. apply list_lookup_insert_eq. by eapply lookup_lt_Some.
      - exists e. by rewrite list_lookup_insert_ne by done. }
    destruct (Hat i c Hc Hcn) as (c2 & ? & ?), (Hat j d Hd Hdn) as (d2 & ? & ?). by exists i, j, c2, d2.
Qed.

(** ** Splitting a short node *)

(** A path in front of a tree: no node when the path is empty. *)
Definition rest (k : bytes) (c : tree) : tree := match k with [] => c | _ => TShort k c end.

Lemma lookup_rest k c key :
  lookup (rest k c) key = if bool_decide (k `prefix_of` key) then lookup c (drop (length k) key) else None.
Proof. destruct k; [|done]. by rewrite bool_decide_true by apply prefix_nil. Qed.

Lemma lookup_short_if k c key :
  lookup (TShort k c) key = if bool_decide (k `prefix_of` key) then lookup c (drop (length k) key) else None.
Proof. done. Qed.

Lemma changed_rest p c c' key v :
  path_ok p -> changed false c c' key v -> changed false (rest p c) (rest p c') (p ++ key) v.
Proof.
  intros Hp Hc. destruct p as [|x p]; [done|]. apply (changed_short false); [|done]. intros r. by apply key_ok_app.
Qed.

Lemma prefixLen_split a b :
  exists p a' b', a = p ++ a' /\ b = p ++ b' /\ prefixLen a b = length p /\
    (forall x y ar br, a' = x :: ar -> b' = y :: br -> x <> y).
Proof.
  revert b. induction a as [|x a IH]; intros [|y b].
  1-3: by eexists [], _, _.
  simpl. destruct (Z.eqb_spec x y) as [->|Hne].
  - destruct (IH b) as (p & a' & b' & -> & -> & -> & H). by exists (y :: p), a', b'.
  - exists [], (x :: a), (y :: b). split_and!; [done..|]. by intros ? ? ? ? [= <- <-] [= <- <-].
Qed.

Lemma key_ok_split p x r : key_ok (p ++ x :: r) -> path_ok p /\ key_ok (x :: r).
Proof.
  induction p as [|y p IH]; [by split; [constructor|]|]. cbn [app]. intros [[Hy H]|[_ H]]%key_ok_cons; [|by destruct p].
  destruct (IH H) as [Hp Hk]. split; [by constructor|done].
Qed.

(** What is left of a short node below its first nibbles. *)
Lemma wf_rest p y br c :
  wf (TShort (p ++ y :: br) c) -> path_ok p -> 0 <= y <= 16 /\ wf_at (y =? 16) (rest br c) /\ rest br c <> TNil.
Proof.
  intros H Hp. apply wf_short_inv in H as [(ns & v & E & -> & Hns & Hv)|(cs & -> & Hk & Hne & Hf)].
  - assert (Hkey : key_ok (y :: br)) by (apply (key_ok_app p); [done|]; rewrite E; by exists ns).
    split; [by eapply key_index|]. split; [|by destruct br]. intros _. apply key_at_child in Hkey as [_ Hkey].
    unfold key_at in Hkey. destruct (Z.eqb_spec y 16); [subst; by exists v|].
    destruct Hkey as (ms & -> & Hms). destruct ms; by apply wf_leaf.
  - apply Forall_app in Hk as [_ Hk]. apply Forall_cons in Hk as [Hy Hbr]. apply nibble_not_16 in Hy as Hy'. unfold nibble_ok in Hy.
    split; [lia|]. split; [|by destruct br]. intros _. destruct (Z.eqb_spec y 16); [lia|]. destruct br; [done|by constructor].
Qed.

Definition nil_trees : list tree := replicate 17 TNil.

Lemma nil_trees_lookup x : 0 <= x <= 16 -> nil_trees !! Z.to_nat x = Some TNil.
Proof. intros Hx. apply lookup_replicate. split; [done|lia]. Qed.

(** A short node is a full node with one child, in its keys. *)
Lemma short_as_full p y br c key :
  0 <= y <= 16 -> key_ok key ->
  lookup (TShort (p ++ y :: br) c) key = lookup (rest p (TFull (<[Z.to_nat y := rest br c]> nil_trees))) key.
Proof.
  intros Hy Hk. rewrite lookup_rest.
  rewrite lookup_short_if. destruct (decide (p `prefix_of` key)) as [[r ->]|Hn].
  2: { rewrite !bool_decide_false; [done|done|]. intros [r ->]. destruct Hn. rewrite <- app_assoc. by eexists. }
  rewrite (bool_decide_true (p `prefix_of` _)) by by eexists. rewrite drop_app_length.
  rewrite (bool_decide_ext _ (y :: br `prefix_of` r)) by (split; [apply prefix_app_inv|apply prefix_app]).
  rewrite length_app, <- drop_drop, drop_app_length. destruct r as [|z r].
  { rewrite bool_decide_false; [done|]. by intros [? [=]]. }
  apply key_ok_split in Hk as [_ Hz]. apply key_index in Hz. destruct (decide (y = z)) as [<-|Hne].
  - rewrite (lookup_full _ _ _ (rest br c)) by (apply list_lookup_insert_eq; simpl; lia). rewrite lookup_rest. simpl.
    erewrite bool_decide_ext; [done|]. split; [apply prefix_cons_inv_2|apply prefix_cons].
  - rewrite bool_decide_false by (intros H; by apply prefix_cons_inv_1 in H).
    rewrite (lookup_full _ _ _ TNil); [done|]. rewrite list_lookup_insert_ne by lia. by apply nil_trees_lookup.
Qed.

Lemma rest_leaf_changed term key v : key_at term key -> changed term TNil (rest key (TVal v)) key (Some v).
Proof.
  intros Hk key' Hk'. rewrite lookup_rest. case_decide as E.
  - subst. rewrite bool_decide_true by done. by rewrite drop_all.
  - case_bool_decide as Hp; [|done]. destruct Hp as [r ->]. destruct r; [by rewrite app_nil_r in E|]. destruct term; [|].
    + simpl in *. by destruct key.
    + destruct Hk as (ns & -> & Hns). simpl in Hk'. rewrite <- app_assoc in Hk'. by apply key_ok_prefix in Hk'.
Qed.

(** The branch at the nibble where a new key leaves a short node. *)
Definition branch (x : Z) (ar v : bytes) (y : Z) (br : bytes) (c : tree) : list tree :=
  <[Z.to_nat x := rest ar (TVal v)]> (<[Z.to_nat y := rest br c]> nil_trees).

Lemma branch_wf p x ar v y br c :
  wf (TShort (p ++ y :: br) c) -> key_ok (p ++ x :: ar) -> x <> y -> v <> [] ->
  wf (TFull (branch x ar v y br c)) /\
  changed false (TShort (p ++ y :: br) c) (rest p (TFull (branch x ar v y br c))) (p ++ x :: ar) (Some v).
Proof.
  intros Hw Hk Hxy Hv. apply key_ok_split in Hk as [Hp Hx]. destruct (wf_rest _ _ _ _ Hw Hp) as (Hy & Hwy & Hny).
  pose proof (key_index _ _ Hx) as Hx'. assert (Hwx : wf_at (x =? 16) (rest ar (TVal v)) /\ rest ar (TVal v) <> TNil).
  { destruct (wf_rest [] x ar (TVal v)); [|constructor|done]. destruct Hx as (ns & E & Hns). simpl. rewrite E. by constructor. }
  destruct Hwx as [Hwx Hnx]. unfold branch. set (ys := <[Z.to_nat y := rest br c]> nil_trees).
  assert (Hys : forall i d, ys !! i = Some d -> d <> TNil -> i = Z.to_nat y /\ d = rest br c).
  { intros i d Hi Hd. apply list_lookup_insert_Some in Hi as [(<- & <- & _)|[_ Hi]]; [done|]. by apply lookup_replicate in Hi as [-> _]. }
  assert (Hysl : length ys = 17%nat) by by (unfold ys; rewrite length_insert).
  assert (Hyx : ys !! Z.to_nat x = Some TNil) by (unfold ys; rewrite list_lookup_insert_ne by lia; by apply nil_trees_lookup).
  split.
  - constructor; [by rewrite length_insert| | |].
    + intros i d Hi Hlt Hd. apply list_lookup_insert_Some in Hi as [(<- & <- & _)|[_ Hi]].
      * specialize (Hwx Hd). destruct (Z.eqb_spec x 16); [lia|done].
      * apply Hys in Hi as [-> ->]; [|done]. specialize (Hwy Hd). destruct (Z.eqb_spec y 16); [lia|done].
    + intros d Hi Hd. apply list_lookup_insert_Some in Hi as [(Hi & <- & _)|[_ Hi]].
      * specialize (Hwx Hd). destruct (Z.eqb_spec x 16); [done|lia].
      * apply Hys in Hi as [Hi ->]; [|done]. specialize (Hwy Hd). destruct (Z.eqb_spec y 16); [done|lia].
    + exists (Z.to_nat x), (Z.to_nat y), (rest ar (TVal v)), (rest br c). split_and!; [lia| | |done..].
      * apply list_lookup_insert_eq. lia.
      * rewrite list_lookup_insert_ne by lia. apply list_lookup_insert_eq. simpl. lia.
  - intros key' Hk'. rewrite (short_as_full p y br c key' Hy Hk'). apply (changed_rest p (TFull ys)); [done| |done].
    apply (changed_full _ _ TNil); [done|lia|]. apply rest_leaf_changed. by apply key_at_child in Hx as [].
Qed.

(** ** Joining short nodes *)

(** A full node with one child. *)
Definition single (i : Z) (u : tree) : tree :=
  match u with
  | TShort k c => TShort (i :: k) c
  | _ => TShort [i] u
  end.

Lemma single_wf i u : 0 <= i <= 16 -> wf_at (i =? 16) u -> u <> TNil -> wf (single i u).
Proof.
  intros Hi Hw Hn. specialize (Hw Hn). destruct (Z.eqb_spec i 16) as [->|Hne].
  - destruct Hw as (v & Hv & ->). apply (wf_leaf []); [constructor|done].
  - assert (Hx : nibble_ok i) by (unfold nibble_ok; lia). destruct u as [|v|k c|cs]; [done|by inversion Hw| |].
    + apply wf_short_inv in Hw as [(ns & v & -> & -> & Hp & Hv)|(cs & -> & Hp & Hk & Hf)].
      * apply (wf_leaf (i :: ns)); [by constructor|done].
      * apply wf_ext; [by constructor|done|done].
    + apply (wf_ext [i]); [constructor; [done|constructor]|done..].
Qed.

Lemma single_lookup ts i u key :
  length ts = 17%nat -> 0 <= i -> ts !! Z.to_nat i = Some u ->
  (forall j d, ts !! j = Some d -> d <> TNil -> j = Z.to_nat i) -> key_ok key ->
  lookup (single i u) key = lookup (TFull ts) key.
Proof.
  intros Hl Hi Hu Honly Hk. destruct key as [|z key]; [by apply key_ok_not_nil in Hk|]. apply key_index in Hk as Hz.
  destruct (decide (z = i)) as [->|Hne].
  - rewrite (lookup_full _ _ _ _ Hu). destruct u; [simpl; by rewrite bool_decide_true by by exists key| | |].
    1,3: apply (lookup_short [i]). simpl. rewrite (bool_decide_ext _ (k `prefix_of` key)); [done|].
    split; [apply prefix_cons_inv_2|apply prefix_cons].
  - destruct (lookup_lt_is_Some_2 ts (Z.to_nat z)) as [d Hd]; [lia|]. rewrite (lookup_full _ _ _ _ Hd).
    destruct (decide (d = TNil)) as [->|Hn]; [|apply Honly in Hd; [lia|done]].
    assert (Hnp : forall k, ~ i :: k `prefix_of` z :: key) by (intros k H; by apply prefix_cons_inv_1 in H).
    destruct u; simpl; by rewrite bool_decide_false by auto.
Qed.

Lemma short_short k k' c key : lookup (TShort (k ++ k') c) key = lookup (TShort k (TShort k' c)) key.
Proof.
  rewrite !lookup_short_if. destruct (decide (k `prefix_of` key)) as [[r ->]|Hn].
  - rewrite (bool_decide_true (k `prefix_of` _)) by by eexists. rewrite drop_app_length, length_app, <- drop_drop, drop_app_length.
    simpl. erewrite bool_decide_ext; [done|]. split; [apply prefix_app_inv|apply prefix_app].
  - rewrite !bool_decide_false; [done|done|]. intros [r ->]. destruct Hn. rewrite <- app_assoc. by eexists.
Qed.

(** Something is left in a full node when a key is removed. *)
Lemma full_not_emptied ts t' key : wf (TFull ts) -> changed false (TFull ts) t' key None -> t' <> TNil.
Proof.
  intros Hw Hch ->. destruct (wf_full_diverges ts Hw) as (x & y & kx & ky & vx & vy & Hxy & Hkx & Hky & Hlx & Hly).
  destruct (decide (x :: kx = key)) as [<-|Hne].
  - specialize (Hch (y :: ky) Hky). rewrite decide_False, Hly in Hch by congruence. done.
  - specialize (Hch (x :: kx) Hkx). rewrite decide_False, Hlx in Hch by congruence. done.
Qed.

Lemma full_remove_wf ts x i j c d :
  wf (TFull ts) -> let ts' := <[Z.to_nat x := TNil]> ts in
  i <> j -> ts' !! i = Some c -> ts' !! j = Some d -> c <> TNil -> d <> TNil -> wf (TFull ts').
Proof.
  intros H ts' Hij Hc Hd Hcn Hdn. inversion H as [| |? Hl Hlow Htop _]; subst.
  assert (Hold : forall k e, ts' !! k = Some e -> e <> TNil -> ts !! k = Some e).
  { intros k e Hk He. apply list_lookup_insert_Some in Hk as [(_ & <- & _)|[_ Hk]]; done. }
  constructor; [by unfold ts'; rewrite length_insert| | |by exists i, j, c, d].
  - intros k e Hk Hlt He. by apply (Hlow k e); [apply Hold|..].
  - intros e Hk He. by apply Htop; [apply Hold|].
Qed.

Lemma changed_refl term t key : lookup t key = None -> changed term t t key None.
Proof. intros H key' _. case_decide; by subst. Qed.

(** ** The operations *)

(** The steps that are enough below a node, with a number of nibbles left. *)
Definition need (n : node) (left : nat) : nat := 2 * left + if is_hash n then 2 else 1.

Ltac solve_need :=
  unfold need in *; cbn [is_hash] in *;
  repeat match goal with H : is_hash ?n = false |- _ => rewrite H in *; clear H end;
  repeat match goal with |- context [is_hash ?n] => destruct (is_hash n) | H : context [is_hash ?n] |- _ => destruct (is_hash n) end;
  lia.

Section ops.
Context `{HS : Store} (db_node : Hash -> outcome (option node)) `{!StoreOk db_node}.

Lemma wf_at_tree term t : wf_at term t -> t <> TNil -> (forall v, t <> TVal v) -> term = false /\ wf t.
Proof. intros H Hn Hv. specialize (H Hn). destruct term; [|done]. destruct H as (v & _ & ->). by destruct (Hv v). Qed.

Lemma srep_weaken s top n t : srep s top n t -> rep top n t.
Proof.
  induction 1 as [| |s top k c fl t Hfl Hc IH|s top cs fl ts Hfl Hl Hc IH|]; try by constructor.
  - constructor; [destruct s; [by apply flag_settled|done]|]. simpl. destruct (has_hash fl); [|done]. by rewrite orb_true_r in Hc.
  - constructor; [destruct s; [by apply flag_settled|done]|done|]. intros i c t Ec Et. specialize (IH i c t Ec Et).
    specialize (Hc i c t Ec Et). simpl. destruct (has_hash fl); [|done]. by rewrite orb_true_r in Hc.
Qed.

Lemma held_resolve s top h t prefix :
  held top h t -> wf t /\ exists n, resolveHash db_node h prefix = TRet n /\ is_hash n = false /\ srep s top n t.
Proof.
  intros H. split; [by eapply held_wf|]. destruct (held_load top h t H) as (n & Hn & Hh & Hr). exists n.
  unfold resolveHash. rewrite Hn. split_and!; [done..|]. destruct s; [done|by eapply srep_weaken].
Qed.

Lemma prefix_test (nKey key : bytes) pos :
  (pos <= length key)%nat ->
  (length key <? pos + length nKey)%nat || negb (bool_decide (nKey = take (length nKey) (drop pos key)))
  = negb (bool_decide (nKey `prefix_of` drop pos key)).
Proof.
  intros Hp. destruct (decide (nKey `prefix_of` drop pos key)) as [Hpre|Hn].
  - rewrite (bool_decide_true (_ `prefix_of` _)) by done. pose proof (prefix_length _ _ Hpre) as Hl. rewrite length_drop in Hl.
    destruct Hpre as [r ->]. rewrite take_app_length, bool_decide_true by done.
    destruct (Nat.ltb_spec (length key) (pos + length nKey)); [lia|done].
  - rewrite (bool_decide_false (_ `prefix_of` _)) by done. case_bool_decide as E; [|by rewrite orb_true_r].
    destruct Hn. rewrite E. exists (drop (length nKey) (drop pos key)). by rewrite take_drop.
Qed.

Lemma rep_full_child s top cs fl ts x c :
  srep s top (fullNode cs fl) (TFull ts) -> cs !! Z.to_nat x = Some c ->
  exists t, ts !! Z.to_nat x = Some t /\ srep (s || has_hash fl) false c t.
Proof.
  intros Hr Hx. inversion Hr as [| | |? ? ? ? ? Hf Hl Hc|]; subst. destruct (lookup_lt_is_Some_2 ts (Z.to_nat x)) as [t Ht].
  { rewrite <- Hl. by eapply lookup_lt_Some. } exists t. split; [done|by eapply Hc].
Qed.

(** The child on the path of a key. *)
Lemma full_child s top cs fl ts x key :
  srep s top (fullNode cs fl) (TFull ts) -> wf (TFull ts) -> key_ok (x :: key) ->
  0 <= x <= 16 /\ exists c t, get_child cs x = TRet c /\ cs !! Z.to_nat x = Some c /\ ts !! Z.to_nat x = Some t /\
    srep (s || has_hash fl) false c t /\ wf_at (x =? 16) t /\ key_at (x =? 16) key.
Proof.
  intros Hr Hw Hk. pose proof (key_index _ _ Hk) as Hx. split; [done|].
  inversion Hr as [| | |? ? ? ? ? Hf Hl Hc|]; subst. inversion Hw as [| |? Hlt _ _ _]; subst.
  destruct (lookup_lt_is_Some_2 cs (Z.to_nat x)) as [c Ec]; [lia|].
  destruct (rep_full_child _ _ _ _ _ _ _ Hr Ec) as (t & Et & Hrc). exists c, t. unfold get_child. rewrite Ec.
  split_and!; try done. - by eapply wf_child; [..|lia]. - by apply key_at_child in Hk as [].
Qed.

(** A full node with one child replaced. *)
Lemma rep_full_update s top fl cs ts x c t :
  srep s top (fullNode cs fl) (TFull ts) -> srep (s || has_hash fl) false c t -> flag_ok s top fl (TFull (<[Z.to_nat x := t]> ts)) ->
  srep s top (fullNode (<[Z.to_nat x := c]> cs) fl) (TFull (<[Z.to_nat x := t]> ts)).
Proof.
  intros Hr Hc Hfl. inversion Hr as [| | |? ? ? ? ? Hf Hl Hcs|]; subst. constructor; [done|by rewrite !length_insert|].
  intros i d u Hd Hu. apply list_lookup_insert_Some in Hd as [(<- & <- & _)|[Hne Hd]].
  - apply list_lookup_insert_Some in Hu as [(_ & <- & _)|[Hne _]]; done.
  - rewrite list_lookup_insert_ne in Hu by done. by eapply Hcs.
Qed.

Lemma rep_newFull s top cs fl ts : srep s top (fullNode cs fl) (TFull ts) -> rep top (fullNode cs newFlag) (TFull ts).
Proof.
  intros Hr. inversion Hr as [| | |? ? ? ? ? Hf Hl Hcs|]; subst. constructor; [apply flag_new|done|].
  intros i c t Hc Ht. eapply srep_weaken. by eapply Hcs.
Qed.

Lemma rep_full_change s top fl cs ts x c t :
  srep s top (fullNode cs fl) (TFull ts) -> rep false c t ->
  rep top (fullNode (<[Z.to_nat x := c]> cs) newFlag) (TFull (<[Z.to_nat x := t]> ts)).
Proof. intros Hr Hc. apply rep_full_update; [by eapply rep_newFull|done|apply flag_new]. Qed.

Lemma set_child_some cs x c d : cs !! Z.to_nat x = Some d -> set_child cs x c = TRet (<[Z.to_nat x := c]> cs).
Proof. intros H. apply lookup_lt_Some in H. unfold set_child. by destruct (Nat.ltb_spec (Z.to_nat x) (length cs)); [|lia]. Qed.

Lemma tryGet_rep fuel s top n t term key pos :
  srep s top n t -> wf_at term t -> key_at term (drop pos key) -> (pos <= length key)%nat ->
  (need n (length key - pos) <= fuel)%nat ->
  exists n' dr, tryGet db_node fuel n key pos = TRet (lookup t (drop pos key), n', dr) /\ srep s top n' t.
Proof.
  revert s top n t term pos. induction fuel as [|fuel IH]; intros s top n t term pos Hr Hw Hk Hpos Hfuel.
  { solve_need. }
  destruct Hr as [s top|s top v|s top k c fl t Hfl Hc|s top cs fl ts Hfl Hl Hcs|s top h t Hh]; cbn [tryGet].
  - exists nil_node, false. split; [done|constructor].
  - exists (valueNode v), false. split; [|constructor]. destruct term; [simpl in Hk; by rewrite Hk|].
    exfalso. by apply (wf_not_val (TVal v) v (Hw ltac:(done))).
  - apply wf_at_tree in Hw as [-> Hw]; [|done..]. rewrite prefix_test by done. destruct (wf_short_child _ _ Hw) as (Hk0 & _ & term & Hwc & Hrest & _).
    cbn [lookup]. case_bool_decide as Hpre; cbn [negb]; [|by exists (shortNode k c fl), false; split; [done|by constructor]].
    assert (Hlk : (length k <= length key - pos)%nat) by (apply prefix_length in Hpre; by rewrite length_drop in Hpre).
    assert (length k <> 0)%nat by by destruct k.
    destruct (IH (s || has_hash fl) false c t term (pos + length k)%nat) as (n' & dr & -> & Hr'); [done|done| |lia| |].
    + rewrite <- drop_drop. destruct Hpre as [r E]. rewrite E in Hk |- *. rewrite drop_app_length. by apply Hrest.
    + solve_need.
    + rewrite drop_drop. cbn [mbind tres_mbind]. eexists _, _. split; [done|]. destruct dr; by constructor.
  - apply wf_at_tree in Hw as [-> Hw]; [|done..]. simpl in Hk. destruct (drop pos key) as [|x rest] eqn:Ed; [by apply key_ok_not_nil in Hk|].
    assert (Hx : key !! pos = Some x) by (rewrite <- (Nat.add_0_r pos), <- lookup_drop, Ed; done).
    unfold byte_at. rewrite Hx. cbn [mbind tres_mbind].
    assert (Hrep : srep s top (fullNode cs fl) (TFull ts)) by by constructor.
    destruct (full_child _ _ _ _ _ _ _ Hrep Hw Hk) as (Hx16 & c & t & -> & Ec & Et & Hrc & Hwc & Hkc). cbn [mbind tres_mbind].
    apply lookup_lt_Some in Hx as Hlt.
    assert (Ed' : drop (pos + 1) key = rest) by (rewrite <- drop_drop, Ed; done).
    destruct (IH (s || has_hash fl) false c t (x =? 16) (pos + 1)%nat) as (n' & dr & -> & Hr'); [done|done|by rewrite Ed'|lia| |].
    { solve_need. }
    cbn [mbind tres_mbind]. rewrite Ed', (lookup_full _ _ _ _ Et). destruct dr; [|by eexists _, _].
    rewrite (set_child_some _ _ _ _ Ec). eexists _, _. split; [done|].
    rewrite <- (list_insert_id ts (Z.to_nat x) t Et). apply rep_full_update; [done..|]. by rewrite list_insert_id.
  - destruct (held_resolve s top h t (take pos key) Hh) as (Hwf & n & -> & Hnh & Hr). cbn [mbind tres_mbind].
    destruct (IH s top n t term pos) as (n' & dr & -> & Hr'); [done..| |by eexists _, _].
    solve_need.
Qed.

(** *** Insertion *)

(** A node for the tree with a key set. *)
Definition inserted (top term : bool) (t : tree) (key v : bytes) (r : bool * node) : Prop :=
  exists t', rep top r.2 t' /\ wf_at term t' /\ t' <> TNil /\ changed term t t' key (Some v) /\
    (r.1 = false -> t' = t) /\ (forall ts, t = TFull ts -> exists ts', t' = TFull ts').

Lemma rep_newShort top k c t : rep false c t -> rep top (shortNode k c newFlag) (TShort k t).
Proof. intros H. constructor; [apply flag_new|done]. Qed.

(** A path in front of a node: [insert] into no node. *)
Lemma insert_nil fuel prefix k c t :
  (1 <= fuel)%nat -> rep false c t ->
  exists n, insert db_node fuel nil_node prefix k c = TRet (true, n) /\ rep false n (rest k t).
Proof.
  intros Hf Hc. destruct fuel as [|fuel]; [lia|]. destruct k as [|x k]; simpl; [by exists c|].
  exists (shortNode (x :: k) c newFlag). split; [done|by apply rep_newShort].
Qed.

Lemma byte_at_app p x (r : bytes) : byte_at (p ++ x :: r) (length p) = TRet x.
Proof. unfold byte_at. by rewrite lookup_app_r, Nat.sub_diag by lia. Qed.

Lemma drop_app_cons p x (r : bytes) : drop (length p + 1) (p ++ x :: r) = r.
Proof. rewrite <- drop_drop, drop_app_length. by rewrite drop_0 || done. Qed.

Lemma rep_branch top x y a b at_ bt :
  0 <= x <= 16 -> 0 <= y <= 16 -> x <> y -> rep false a at_ -> rep false b bt ->
  rep top (fullNode (<[Z.to_nat x := a]> (<[Z.to_nat y := b]> no_children)) newFlag)
          (TFull (<[Z.to_nat x := at_]> (<[Z.to_nat y := bt]> nil_trees))).
Proof.
  intros Hx Hy Hxy Ha Hb. eapply rep_full_change; [|done].
  eapply (rep_full_change false _ newFlag); [|done]. constructor; [apply flag_new|done|].
  intros i c t Hc Ht. apply lookup_replicate in Hc as [-> _], Ht as [-> _]. constructor.
Qed.

Lemma set_child_length cs x c : length cs = 17%nat -> 0 <= x <= 16 -> set_child cs x c = TRet (<[Z.to_nat x := c]> cs).
Proof. intros Hl Hx. destruct (lookup_lt_is_Some_2 cs (Z.to_nat x)) as [d Hd]; [lia|]. by eapply set_child_some. Qed.

(** The key leaves the path of a short node. *)
Lemma insert_leaves fuel top fl prefix p x ar v y br c ct :
  (1 <= fuel)%nat -> rep false c ct -> wf (TShort (p ++ y :: br) ct) -> key_ok (p ++ x :: ar) -> x <> y -> v <> [] ->
  prefixLen (p ++ x :: ar) (p ++ y :: br) = length p ->
  exists r, insert db_node (S fuel) (shortNode (p ++ y :: br) c fl) prefix (p ++ x :: ar) (valueNode v) = TRet r /\
    inserted top false (TShort (p ++ y :: br) ct) (p ++ x :: ar) v r.
Proof.
  intros Hf Hc Hw Hk Hxy Hv Hpl. destruct (branch_wf p x ar v y br ct Hw Hk Hxy Hv) as [Hwb Hch].
  apply key_ok_split in Hk as Hpx. destruct Hpx as [Hp Hx]. apply key_index in Hx as Hx16.
  destruct (wf_rest _ _ _ _ Hw Hp) as (Hy16 & _).
  assert (E : exists k0 k', p ++ x :: ar = k0 :: k') by (destruct p; by eexists _, _). destruct E as (k0 & k' & E).
  cbn [insert]. rewrite E, <- E, Hpl, length_app. destruct (Nat.eqb_spec (length p) (length p + length (y :: br))); [simpl in *; lia|].
  rewrite !byte_at_app, !drop_app_cons. cbn [mbind tres_mbind].
  destruct (insert_nil fuel (prefix ++ take (length p + 1) (p ++ y :: br)) br c ct Hf Hc) as (b & -> & Hb).
  cbn [mbind tres_mbind]. rewrite set_child_length by (done || lia). cbn [mbind tres_mbind].
  destruct (insert_nil fuel (prefix ++ take (length p + 1) (p ++ x :: ar)) ar (valueNode v) (TVal v) Hf) as (a & -> & Ha); [constructor|].
  cbn [mbind tres_mbind]. rewrite set_child_length by (rewrite ?length_insert; done || lia). cbn [mbind tres_mbind].
  rewrite take_app_length. fold (branch x ar v y br ct) in *.
  assert (Hrb : forall top, rep top (fullNode (<[Z.to_nat x := a]> (<[Z.to_nat y := b]> no_children)) newFlag) (TFull (branch x ar v y br ct))).
  { intros. by apply rep_branch. }
  destruct p as [|z p]; cbn [length Nat.eqb].
  - eexists. split; [done|]. exists (TFull (branch x ar v y br ct)). split_and!; try done. by intros _.
  - eexists. split; [done|]. exists (TShort (z :: p) (TFull (branch x ar v y br ct))). split_and!; try done.
    + by apply rep_newShort.
    + intros _. by constructor.
Qed.

(** A key that does not extend the path of a short node leaves it. *)
Lemma key_leaves key k c p a' b' :
  wf (TShort k c) -> key_ok key -> key = p ++ a' -> k = p ++ b' -> b' <> [] -> exists x ar, a' = x :: ar.
Proof.
  intros Hw Hk -> -> Hb. destruct a' as [|x ar]; [|by eauto]. exfalso. rewrite app_nil_r in Hk. destruct Hk as (ns & -> & Hns).
  apply wf_short_inv in Hw as [(ms & v & E & _ & Hms & _)|(cs & _ & Hp & _)].
  - destruct b' as [|y b'] using rev_ind; [done|]. rewrite app_assoc in E. apply app_inj_tail in E as [E _].
    rewrite <- E in Hms. apply (leaf_not_prefix ns _ Hms). by eexists.
  - apply (leaf_not_prefix ns _ Hp). by eexists.
Qed.

Lemma inserted_below top k c ct fl key v term d n :
  rep top (shortNode k c fl) (TShort k ct) -> wf (TShort k ct) ->
  (forall r, key_ok (k ++ r) <-> key_at term r) -> (term = false -> exists cs, ct = TFull cs) ->
  (forall c', c' <> TNil -> wf_at term c' -> (term = false -> exists cs, c' = TFull cs) -> wf (TShort k c')) ->
  inserted false term ct key v (d, n) ->
  inserted top false (TShort k ct) (k ++ key) v (if d then (true, shortNode k n newFlag) else (false, shortNode k c fl)).
Proof.
  intros Hr Hw Hk Hfull Hrepl (ct' & Hr' & Hw' & Hn' & Hch & Hd & Hf). destruct d.
  - exists (TShort k ct'). split_and!; try done.
    + by apply rep_newShort.
    + intros _. apply Hrepl; [done..|]. intros Ht. destruct (Hfull Ht) as [cs ->]. by eapply Hf.
    + by apply (changed_short term).
  - simpl in Hd. rewrite (Hd eq_refl) in *. exists (TShort k ct). split_and!; try done; [by intros _|]. by apply (changed_short term).
Qed.

Lemma inserted_child top cs fl ts x ct key v d n :
  rep top (fullNode cs fl) (TFull ts) -> wf (TFull ts) -> 0 <= x <= 16 -> ts !! Z.to_nat x = Some ct ->
  inserted false (x =? 16) ct key v (d, n) ->
  inserted top false (TFull ts) (x :: key) v
    (if d then (true, fullNode (<[Z.to_nat x := n]> cs) newFlag) else (false, fullNode cs fl)).
Proof.
  intros Hr Hw Hx Ht (ct' & Hr' & Hw' & Hn' & Hch & Hd & _). destruct d.
  - exists (TFull (<[Z.to_nat x := ct']> ts)). split_and!; try done.
    + by eapply rep_full_change.
    + intros _. by apply wf_full_update.
    + eapply changed_full; [done|lia|done].
    + by eauto.
  - simpl in Hd. rewrite (Hd eq_refl) in *. exists (TFull ts). split_and!; try done; [by intros _| |by eauto].
    rewrite <- (list_insert_id ts (Z.to_nat x) ct Ht) at 2. eapply changed_full; [done|lia|done].
Qed.

Lemma insert_value fuel top n t prefix v :
  rep top n t -> wf_at true t -> v <> [] ->
  exists r, insert db_node (S fuel) n prefix [] (valueNode v) = TRet r /\ inserted top true t [] v r.
Proof.
  intros Hr Hw Hv. assert (Hdone : exists d, insert db_node (S fuel) n prefix [] (valueNode v) = TRet (d, valueNode v) /\
      (d = false -> t = TVal v) /\ forall ts, t <> TFull ts).
  { unfold wf_at in Hw. inversion Hr as [|? ? w| | |? ? ? ? Hh%held_wf]; subst; [by exists true| |by destruct Hw as (? & _ & ?)..|].
    - exists (negb (bool_decide (w = v))). split_and!; [done| |done]. case_bool_decide; [by subst|done].
    - apply wf_not_nil in Hh as Hn. destruct (Hw Hn) as (w & _ & ->). by inversion Hh. }
  destruct Hdone as (d & -> & Hd & Hf). eexists. split; [done|]. exists (TVal v). split_and!; try done.
  - constructor.
  - intros _. by exists v.
  - by intros key' ->.
  - simpl. intros E. by rewrite Hd.
  - intros ts E. by destruct (Hf ts).
Qed.

Lemma insert_rep fuel top n t term prefix key v :
  rep top n t -> wf_at term t -> key_at term key -> v <> [] -> (need n (length key) <= fuel)%nat ->
  exists r, insert db_node fuel n prefix key (valueNode v) = TRet r /\ inserted top term t key v r.
Proof.
  revert top n t term prefix key. induction fuel as [|fuel IH]; intros top n t term prefix key Hr Hw Hk Hv Hfuel; [solve_need|].
  destruct term; [simpl in Hk; subst key; by apply insert_value|].
  inversion Hr as [? ? |? ? w|? ? k c fl ct Hfl Hc|? ? cs fl ts Hfl Hl Hcs|? ? h ? Hh]; subst.
  - destruct key as [|x key]; [by apply key_ok_not_nil in Hk|]. eexists. split; [done|]. exists (TShort (x :: key) (TVal v)).
    split_and!; try done; [apply rep_newShort, rep_val| |exact (rest_leaf_changed false (x :: key) v Hk)].
    intros _. destruct Hk as (ns & -> & Hns). by constructor.
  - exfalso. by apply (wf_not_val (TVal w) w (Hw ltac:(done))).
  - specialize (Hw ltac:(done)). simpl in Hw, Hk. destruct (prefixLen_split key k) as (p & a' & b' & Ea & Eb & Hpl & Hne). apply srep_weaken in Hc.
    destruct b' as [|y br].
    + rewrite app_nil_r in Eb. subst k key. destruct (wf_short_child _ _ Hw) as (Hp0 & Hct & term & Hwc & Hkk & Hfull & Hrepl).
      destruct (IH false c ct term (prefix ++ take (length p) (p ++ a')) a') as ([d n] & Ei & Hi); [done|done|by apply Hkk|done| |].
      { rewrite length_app in Hfuel. assert (length p <> 0)%nat by by destruct p. solve_need. }
      eexists. split; [|by eapply inserted_below]. destruct p as [|z p]; [done|]. cbn [insert app]. rewrite app_comm_cons, Hpl.
      rewrite Nat.eqb_refl, drop_app_length, Ei. by destruct d.
    + destruct (key_leaves key k ct p a' (y :: br)) as (x & ar & ->); [done..|]. subst key k.
      apply insert_leaves; try done; [|by eapply Hne]. rewrite length_app in Hfuel. simpl in Hfuel. solve_need.
  - specialize (Hw ltac:(done)). simpl in Hw, Hk. destruct key as [|x key]; [by apply key_ok_not_nil in Hk|].
    destruct (full_child _ _ _ _ _ _ _ Hr Hw Hk) as (Hx16 & c & t & Eg & Ec & Et & Hrc%srep_weaken & Hwc & Hkc).
    destruct (IH false c t (x =? 16) (prefix ++ [x]) key) as ([d n] & Ei & Hi); [done..|simpl in Hfuel; solve_need|].
    eexists. split; [|by eapply inserted_child]. cbn [insert]. rewrite Eg. cbn [mbind tres_mbind]. rewrite Ei. cbn [mbind tres_mbind].
    destruct d; [|done]. by rewrite (set_child_some _ _ _ _ Ec).
  - destruct (held_resolve false top h t prefix Hh) as (Hwf & n & Er & Hnh & Hr'). destruct key as [|x key]; [by apply key_ok_not_nil in Hk|].
    destruct (IH top n t false prefix (x :: key)) as ([d n'] & Ei & Hi); [done..|solve_need|].
    cbn [insert]. rewrite Er. cbn [mbind tres_mbind]. rewrite Ei. cbn [mbind tres_mbind]. destruct d; eexists; (split; [done|]); [done|].
    destruct Hi as (t' & H1 & H2 & H3 & H4 & H5 & H6). rewrite (H5 eq_refl) in *. by exists t.
Qed.

(** *** Deletion *)

Lemma rep_is_nil s top n t : srep s top n t -> is_nil n = true <-> t = TNil.
Proof. destruct 1 as [| | | |? ? ? ? Hh%held_wf%wf_not_nil]; simpl; naive_solver. Qed.

Lemma only_child_found cs i pos :
  0 <= pos -> (only_child i pos cs = pos /\ forall j d, cs !! j = Some d -> is_nil d = true) \/
  (only_child i pos cs = -2 /\ exists j d, cs !! j = Some d /\ is_nil d = false).
Proof.
  intros Hp. revert i. induction cs as [|c cs IH]; intros i; simpl; [by left|]. destruct (is_nil c) eqn:Ec.
  - destruct (IH (i + 1)) as [[-> H]|(-> & j & d & Hd)]; [left|right; split; [done|by exists (S j), d]].
    split; [done|]. intros [|j] d Hd; [by simplify_eq/=|by apply (H j)].
  - destruct (Z.eqb_spec pos (-1)); [lia|]. right. split; [done|]. by exists 0%nat, c.
Qed.

Lemma only_child_spec cs i :
  0 <= i ->
  (only_child i (-1) cs = -1 /\ forall j d, cs !! j = Some d -> is_nil d = true) \/
  (exists j c, only_child i (-1) cs = i + Z.of_nat j /\ cs !! j = Some c /\ is_nil c = false /\
     forall k d, cs !! k = Some d -> is_nil d = false -> k = j) \/
  (only_child i (-1) cs = -2 /\ exists j k c d, j <> k /\ cs !! j = Some c /\ cs !! k = Some d /\ is_nil c = false /\ is_nil d = false).
Proof.
  revert i. induction cs as [|c cs IH]; intros i Hi; simpl; [by left|]. destruct (is_nil c) eqn:Ec.
  - destruct (IH (i + 1)) as [[-> H]|[(j & d & -> & Hd & Hn & H)|(-> & j & k & d & e & Hjk & Hd & He & Hn)]]; [lia|left|right; left|right; right].
    + split; [done|]. intros [|j] d Hd; [by simplify_eq/=|by apply (H j)].
    + exists (S j), d. split_and!; [lia|done..|]. intros [|k] e He Hen; [by simplify_eq/=; congruence|f_equal; by eapply H].
    + split; [done|]. exists (S j), (S k), d, e. split_and!; naive_solver.
  - destruct (only_child_found cs (i + 1) i) as [[-> H]|(-> & j & d & Hd & Hn)]; [lia|right; left|right; right].
    + exists 0%nat, c. split_and!; [lia|done..|]. intros [|k] d Hd Hn; [done|]. by rewrite (H k d Hd) in Hn.
    + split; [done|]. by exists 0%nat, (S j), c, d.
Qed.

Lemma rep_full_nil top cs fl ts :
  rep top (fullNode cs fl) (TFull ts) ->
  (forall i c, cs !! i = Some c -> is_nil c = false -> exists t, ts !! i = Some t /\ t <> TNil) /\
  (forall i t, ts !! i = Some t -> t <> TNil -> exists c, cs !! i = Some c /\ is_nil c = false).
Proof.
  intros Hr. inversion Hr as [| | |? ? ? ? ? Hf Hl Hc|]; subst. split; intros i.
  - intros c Ei Hn. destruct (lookup_lt_is_Some_2 ts i) as [t Ht]; [rewrite <- Hl; by eapply lookup_lt_Some|].
    exists t. split; [done|]. intros E. apply (rep_is_nil _ _ _ _ (Hc i c t Ei Ht)) in E. by rewrite E in Hn.
  - intros t Ei Hn. destruct (lookup_lt_is_Some_2 cs i) as [c Ec]; [rewrite Hl; by eapply lookup_lt_Some|].
    exists c. split; [done|]. destruct (is_nil c) eqn:E; [|done]. by apply (rep_is_nil _ _ _ _ (Hc i c t Ec Ei)) in E.
Qed.

(** The only child left takes the place of the full node. *)
Lemma single_rep top prefix i c u :
  rep false c u -> 0 <= i <= 16 -> wf_at (i =? 16) u -> u <> TNil ->
  exists n, (if i =? 16 then TRet (true, shortNode [i] c newFlag)
             else cnode ← resolve db_node c prefix;
                  match cnode with
                  | shortNode cKey cVal _ => TRet (true, shortNode (i :: cKey) cVal newFlag)
                  | _ => TRet (true, shortNode [i] c newFlag)
                  end) = TRet (true, n) /\ is_hash n = false /\ rep top n (single i u).
Proof.
  intros Hr Hi Hw Hn. specialize (Hw Hn). destruct (Z.eqb_spec i 16) as [->|Hne].
  - destruct Hw as (v & Hv & ->). eexists. split_and!; [done..|]. by apply rep_newShort.
  - assert (Hres : exists n, resolve db_node c prefix = TRet n /\ is_hash n = false /\ rep false n u).
    { unfold resolve. destruct c; try (eexists; done). inversion Hr as [| | | |? ? ? ? Hh]; subst.
      apply (held_resolve false _ _ _ prefix) in Hh as (_ & n & Hn'). by exists n. }
    destruct Hres as (n & -> & Hnh & Hrn). cbn [mbind tres_mbind].
    inversion Hrn as [| |? ? k d fl t Hfl Hd%srep_weaken|? ? cs fl ts|]; subst; [done|by inversion Hw| | |done]; eexists; (split_and!; [done..|]).
    + simpl. by apply rep_newShort.
    + by apply (rep_newShort _ [i]).
Qed.

Lemma reduce_rep top cs ts x prefix :
  wf (TFull ts) -> rep top (fullNode cs newFlag) (TFull (<[Z.to_nat x := TNil]> ts)) ->
  exists n t', reduce db_node cs prefix = TRet (true, n) /\ is_hash n = false /\ rep top n t' /\ wf t' /\
    forall key, key_ok key -> lookup t' key = lookup (TFull (<[Z.to_nat x := TNil]> ts)) key.
Proof.
  intros Hw Hr. destruct (rep_full_nil _ _ _ _ Hr) as [Hcs Hts]. unfold reduce.
  destruct (only_child_spec cs 0) as [[-> H]|[(j & c & -> & Hj & Hn & H)|(-> & j & k & d & e & Hjk & Hd & He & Hdn & Hen)]]; [done| | |].
  - exfalso. inversion Hw as [| |? _ _ _ (i & j & c & d & Hij & Hc & Hd & Hcn & Hdn)]; subst.
    assert (Hone : exists k e, k <> Z.to_nat x /\ ts !! k = Some e /\ e <> TNil).
    { destruct (decide (i = Z.to_nat x)) as [->|]; [exists j, d|exists i, c]; done. }
    destruct Hone as (k & e & Hk & He & Hen). destruct (Hts k e) as (f & Hf & Hfn); [by rewrite list_lookup_insert_ne|done|].
    by rewrite (H k f Hf) in Hfn.
  - destruct (Z.ltb_spec (0 + Z.of_nat j) 0); [lia|]. rewrite Z.add_0_l. inversion Hr as [| | |? ? ? ? ? Hf Hl Hc|]; subst.
    inversion Hw as [| |? Hlt Hlow Htop _]; subst. rewrite length_insert in Hl. apply lookup_lt_Some in Hj as Hjl.
    destruct (Hcs j c Hj Hn) as (u & Hu & Hun). unfold get_child. rewrite Nat2Z.id, Hj. cbn [mbind tres_mbind].
    assert (Hwu : wf_at (Z.of_nat j =? 16) u).
    { apply list_lookup_insert_Some in Hu as [(_ & <- & _)|[_ Hu]]; [done|]. eapply (wf_child ts); [done|by rewrite Nat2Z.id|lia]. }
    destruct (single_rep top prefix (Z.of_nat j) c u) as (n & E & Hnh & Hrn); [by eapply Hc|lia|done|done|].
    exists n, (single (Z.of_nat j) u). split_and!; [done..|apply single_wf; done || lia|]. intros key Hk.
    apply single_lookup; [by rewrite length_insert|lia|by rewrite Nat2Z.id| |done]. rewrite Nat2Z.id. intros k d Hd Hdn.
    destruct (Hts k d Hd Hdn) as (e & He & Hen). by eapply H.
  - destruct (Hcs j d Hd Hdn) as (a & Ha & Han), (Hcs k e He Hen) as (b & Hb & Hbn). simpl.
    eexists _, _. split_and!; [done..| |done]. by apply (full_remove_wf ts x j k a b).
Qed.

(** A node for the tree with a key removed. *)
Definition deleted (top term : bool) (t : tree) (key : bytes) (r : bool * node) : Prop :=
  exists t', rep top r.2 t' /\ wf_at term t' /\ changed term t t' key None /\
    (r.1 = false -> t' = t) /\ (r.1 = true -> is_hash r.2 = false).

Lemma deleted_same top t key n : rep top n t -> wf t -> lookup t key = None -> deleted top false t key (false, n).
Proof. intros Hr Hw Hl. exists t. split_and!; try done; [by intros _|]. by apply changed_refl. Qed.

Lemma deleted_all top term t key : changed term t TNil key None -> deleted top term t key (true, nil_node).
Proof. intros H. exists TNil. split_and!; [apply rep_nil|by intros []|done..]. Qed.

(** Below a short node: the node that is left is joined with it. *)
Lemma deleted_below top k c ct fl key d n :
  rep top (shortNode k c fl) (TShort k ct) -> wf (TShort k ct) -> key_ok (k ++ key) -> key <> [] ->
  deleted false false ct key (d, n) ->
  deleted top false (TShort k ct) (k ++ key)
    (if d then (true, match n with
                      | shortNode cKey cVal _ => shortNode (k ++ cKey) cVal newFlag
                      | _ => shortNode k n newFlag
                      end)
     else (false, shortNode k c fl)).
Proof.
  intros Hr Hw Hk Hne (ct' & Hr' & Hw' & Hch & Hd & Hnh).
  apply wf_short_inv in Hw as Hinv. destruct Hinv as [(ns & v & -> & -> & Hp & Hv)|(cs & -> & Hp & Hk0 & Hf)].
  { exfalso. rewrite <- app_assoc in Hk. by apply key_ok_prefix in Hk. }
  assert (Hch' : changed false (TShort k (TFull cs)) (TShort k ct') (k ++ key) None).
  { apply (changed_short false); [|done]. intros r. by apply key_ok_app. }
  destruct d; [|simpl in Hd; rewrite (Hd eq_refl) in *; exists (TShort k (TFull cs)); split_and!; try done; by intros _].
  pose proof (full_not_emptied _ _ _ Hf Hch) as Hn'. specialize (Hw' Hn'). specialize (Hnh eq_refl). simpl in *.
  inversion Hr' as [| |? ? k' c' fl' t' Hfl' Hc'%srep_weaken|? ? ds fl' ts|]; subst; [done|by inversion Hw'| | |done].
  - exists (TShort (k ++ k') t'). split_and!; try done; [by apply rep_newShort| |].
    + intros _. apply wf_short_inv in Hw' as [(ns & v & -> & -> & Hns & Hv)|(es & -> & Hp' & Hk' & Hf')].
      * rewrite app_assoc. constructor; [by apply Forall_app|done].
      * constructor; [by apply Forall_app|by destruct k|done].
    + intros key' Hkey'. by rewrite short_short, Hch'.
  - exists (TShort k (TFull ts)). split_and!; try done; [by apply rep_newShort|]. intros _. by constructor.
Qed.

Lemma deleted_child top cs fl ts x ct key d n prefix :
  rep top (fullNode cs fl) (TFull ts) -> wf (TFull ts) -> 0 <= x <= 16 -> ts !! Z.to_nat x = Some ct ->
  deleted false (x =? 16) ct key (d, n) ->
  exists r, (if d then if is_nil n then reduce db_node (<[Z.to_nat x := n]> cs) prefix
                       else TRet (true, fullNode (<[Z.to_nat x := n]> cs) newFlag)
             else TRet (false, fullNode cs fl)) = TRet r /\ deleted top false (TFull ts) (x :: key) r.
Proof.
  intros Hr Hw Hx Ht (ct' & Hr' & Hw' & Hch & Hd & _). destruct d; simpl in *.
  - assert (Hru : rep top (fullNode (<[Z.to_nat x := n]> cs) newFlag) (TFull (<[Z.to_nat x := ct']> ts))).
    { by eapply rep_full_change. }
    assert (Hcu : changed false (TFull ts) (TFull (<[Z.to_nat x := ct']> ts)) (x :: key) None) by (eapply changed_full; [done|lia|done]).
    pose proof (rep_is_nil _ _ _ _ Hr') as Hnil. destruct (is_nil n).
    + rewrite (proj1 Hnil eq_refl) in *. destruct (reduce_rep top (<[Z.to_nat x := n]> cs) ts x prefix) as (m & t' & E & Hm & Hrm & Hwm & Hlm); [done..|].
      exists (true, m). split; [done|]. exists t'. split_and!; try done; [by intros _|]. intros key' Hk'. rewrite Hlm by done. by apply Hcu.
    + eexists. split; [done|]. exists (TFull (<[Z.to_nat x := ct']> ts)). split_and!; try done. intros _.
      apply wf_full_update; [done..|]. intros E. by apply Hnil in E.
  - rewrite (Hd eq_refl) in *. eexists. split; [done|]. exists (TFull ts). split_and!; try done; [by intros _|].
    rewrite <- (list_insert_id ts (Z.to_nat x) ct Ht) at 2. eapply changed_full; [done|lia|done].
Qed.

(** The whole key is that of the short node: it has no other. *)
Lemma changed_all k c : wf (TShort k c) -> key_ok k -> changed false (TShort k c) TNil k None.
Proof.
  intros Hw Hk key' Hk'. case_decide as E; [done|]. rewrite lookup_short_if. case_bool_decide as Hpre; [|done].
  destruct Hpre as [r ->]. destruct r as [|x r]; [by rewrite app_nil_r in E|]. exfalso.
  destruct Hk as (ns & -> & Hns). rewrite <- app_assoc in Hk'. by apply key_ok_prefix in Hk'.
Qed.

Lemma delete_short fuel top k c ct fl prefix key :
  rep top (shortNode k c fl) (TShort k ct) -> rep false c ct -> wf (TShort k ct) -> key_ok key ->
  (forall prefix a, a <> [] -> key = k ++ a -> exists r, delete db_node fuel c prefix a = TRet r /\ deleted false false ct a r) ->
  exists r, delete db_node (S fuel) (shortNode k c fl) prefix key = TRet r /\ deleted top false (TShort k ct) key r.
Proof.
  intros Hr Hc Hw Hk IH. cbn [delete]. destruct (prefixLen_split key k) as (p & a & b & Ea & Eb & -> & Hne).
  destruct b as [|y br].
  - rewrite app_nil_r in Eb. subst p key. rewrite Nat.ltb_irrefl, length_app. destruct a as [|z a].
    + rewrite Nat.add_0_r, Nat.eqb_refl. eexists. split; [done|]. rewrite app_nil_r in *. by apply deleted_all, changed_all.
    + destruct (Nat.eqb_spec (length k) (length k + length (z :: a))); [simpl in *; lia|]. rewrite drop_app_length.
      destruct (IH (prefix ++ take (length k) (k ++ z :: a)) (z :: a)) as ([d n'] & -> & Hi); [done..|].
      cbn [mbind tres_mbind]. eexists. split; [|by eapply deleted_below]. destruct d; [|done]. by destruct n'.
  - assert (Hlt : (length p < length k)%nat) by (rewrite Eb, length_app; simpl; lia).
    destruct (Nat.ltb_spec (length p) (length k)); [|lia]. eexists. split; [done|]. apply deleted_same; [done..|].
    rewrite lookup_short_if, bool_decide_false; [done|]. intros Hpre.
    destruct (key_leaves key k ct p a (y :: br)) as (x & ar & ->); [done..|].
    subst key k. apply prefix_app_inv, prefix_cons_inv_1 in Hpre. by eapply Hne.
Qed.

Lemma delete_rep fuel top n t term prefix key :
  rep top n t -> wf_at term t -> key_at term key -> (need n (length key) <= fuel)%nat ->
  exists r, delete db_node fuel n prefix key = TRet r /\ deleted top term t key r.
Proof.
  revert top n t term prefix key. induction fuel as [|fuel IH]; intros top n t term prefix key Hr Hw Hk Hfuel; [solve_need|].
  inversion Hr as [? ? |? ? w|? ? k c fl ct Hfl Hc|? ? cs fl ts Hfl Hl Hcs|? ? h ? Hh]; subst.
  - eexists. split; [done|]. exists TNil. split_and!; [apply rep_nil|by intros []| |done..]. by apply changed_refl.
  - eexists. split; [done|]. apply deleted_all. intros key' Hk'. case_decide as E; [done|].
    destruct term; [simpl in *; congruence|]. exfalso. by apply (wf_not_val (TVal w) w (Hw ltac:(done))).
  - apply wf_at_tree in Hw as [-> Hw]; [|done..]. apply srep_weaken in Hc. apply delete_short; [done..|].
    intros pre a Ha ->. destruct (wf_short_child _ _ Hw) as (Hk0 & _ & term & Hwc & Hkk & _). apply Hkk in Hk. destruct term; [done|].
    apply IH; [done..|]. rewrite length_app in Hfuel. assert (length k <> 0)%nat by by destruct k. solve_need.
  - apply wf_at_tree in Hw as [-> Hw]; [|done..]. simpl in Hk. destruct key as [|x key]; [by apply key_ok_not_nil in Hk|].
    destruct (full_child _ _ _ _ _ _ _ Hr Hw Hk) as (Hx16 & c & t & Eg & Ec & Et & Hrc%srep_weaken & Hwc & Hkc).
    destruct (IH false c t (x =? 16) (prefix ++ [x]) key) as ([d n] & Ei & Hi); [done..|simpl in Hfuel; solve_need|].
    destruct (deleted_child top cs fl ts x t key d n prefix) as (r & Er & Hdel); [done..|].
    exists r. split; [|done]. rewrite <- Er. cbn [delete]. change (byte_at (x :: key) 0) with (TRet x). cbn [mbind tres_mbind drop]. rewrite Eg. cbn [mbind tres_mbind].
    rewrite drop_0, Ei. cbn [mbind tres_mbind]. destruct d; [|done]. by rewrite (set_child_some _ _ _ _ Ec).
  - destruct (held_resolve false top h t prefix Hh) as (Hwf & n & Er & Hnh & Hr'). cbn [delete]. rewrite Er. cbn [mbind tres_mbind].
    destruct (IH top n t term prefix key) as ([d n'] & Ei & Hi); [done..|solve_need|]. rewrite Ei. cbn [mbind tres_mbind].
    destruct d; eexists; (split; [done|]); [done|]. destruct Hi as (t' & H1 & H2 & H3 & H4 & H5). rewrite (H4 eq_refl) in *. by exists t.
Qed.

End ops.

(** * The trie as a map

    The trie refines a finite map from byte strings to non-empty byte strings: any sequence
    of [TryGet], [TryUpdate] and [TryDelete] gives the answers of the map. *)

Notation byte_map := (gmap bytes bytes).

(** The keys of a tree are the hex form of the keys of a map. *)
Definition contents (t : tree) (m : byte_map) : Prop :=
  (forall k v, m !! k = Some v -> Forall byte_ok k) /\
  (forall key v, key_ok key -> lookup t key = Some v <-> exists k, Forall byte_ok k /\ key = keybytesToHex k /\ m !! k = Some v).

Lemma contents_lookup t m k : contents t m -> Forall byte_ok k -> lookup t (keybytesToHex k) = m !! k.
Proof.
  intros [_ H] Hk. apply option_eq. intros v. rewrite (H _ _ (keybytesToHex_ok k Hk)). split; [|by eauto].
  intros (k' & Hk' & E & Hv). by apply keybytesToHex_inj in E as ->.
Qed.

Lemma contents_empty : contents TNil ∅.
Proof. split; [done|]. intros key v _. split; [done|]. by intros (k & _ & _ & Hv). Qed.

Lemma contents_unique t m m' : contents t m -> contents t m' -> m = m'.
Proof.
  intros H H'. apply map_eq. intros k. destruct (decide (Forall byte_ok k)) as [Hk|Hk].
  - by rewrite <- (contents_lookup t m), <- (contents_lookup t m').
  - destruct H as [H _], H' as [H' _]. specialize (H k). specialize (H' k). destruct (m !! k) as [v|]; [by destruct Hk; eapply H|].
    destruct (m' !! k) as [v|]; [by destruct Hk; eapply H'|done].
Qed.

Lemma contents_same t u m : contents t m -> contents u m -> same_contents t u.
Proof. intros [_ H] [_ H'] key Hk. apply option_eq. intros v. by rewrite H, H'. Qed.

(** The map with the value of a key set, or removed. *)
Definition put (k : bytes) (v : option bytes) (m : byte_map) : byte_map :=
  match v with Some v => <[k := v]> m | None => base.delete k m end.

Lemma lookup_put k v m k' : put k v m !! k' = if decide (k' = k) then v else m !! k'.
Proof.
  destruct v as [v|]; simpl; case_decide as E; subst; by rewrite ?lookup_insert_eq, ?lookup_insert_ne, ?lookup_delete_eq, ?lookup_delete_ne.
Qed.

Lemma contents_changed t t' k v m :
  Forall byte_ok k -> contents t m -> changed false t t' (keybytesToHex k) v -> contents t' (put k v m).
Proof.
  intros Hk [Hb H] Hch. split.
  - intros k' w. rewrite lookup_put. case_decide; [by subst|]. by apply Hb.
  - intros key w Hkey. rewrite (Hch key Hkey). setoid_rewrite lookup_put. case_decide as E.
    + subst key. split; [intros ->; exists k; by rewrite decide_True|]. intros (k' & Hk' & E & Hv).
      apply keybytesToHex_inj in E as ->; [|done..]. by rewrite decide_True in Hv.
    + rewrite (H key w Hkey). split; intros (k' & Hk' & -> & Hv); exists k'; (split_and!; [done..|]).
      * by rewrite decide_False by (intros ->; done).
      * by rewrite decide_False in Hv by (intros ->; done).
Qed.

(** ** Sequences of operations *)

Inductive trie_op : Type :=
| OpGet (key : bytes)
| OpUpdate (key value : bytes)
| OpDelete (key : bytes).

Definition op_key (o : trie_op) : bytes := match o with OpGet k | OpUpdate k _ | OpDelete k => k end.

Definition run_op (db_node : Hash -> outcome (option node)) (t : Trie) (o : trie_op) : tres (option bytes * Trie) :=
  match o with
  | OpGet k => TryGet db_node t k
  | OpUpdate k v => t ← TryUpdate db_node t k v; TRet (None, t)
  | OpDelete k => t ← TryDelete db_node t k; TRet (None, t)
  end.

Fixpoint run_ops (db_node : Hash -> outcome (option node)) (t : Trie) (os : list trie_op) : tres (list (option bytes) * Trie) :=
  match os with
  | [] => TRet ([], t)
  | o :: os => '(r, t) ← run_op db_node t o; '(rs, t) ← run_ops db_node t os; TRet (r :: rs, t)
  end.

(** The operations on the map; an empty value is a deletion. *)
Definition map_op (m : byte_map) (o : trie_op) : option bytes * byte_map :=
  match o with
  | OpGet k => (m !! k, m)
  | OpUpdate k v => (None, put k (if (length v =? 0)%nat then None else Some v) m)
  | OpDelete k => (None, put k None m)
  end.

Fixpoint map_ops (m : byte_map) (os : list trie_op) : list (option bytes) * byte_map :=
  match os with
  | [] => ([], m)
  | o :: os => let '(r, m) := map_op m o in let '(rs, m) := map_ops m os in (r :: rs, m)
  end.

Section refinement.
Context `{HS : Store} (db_node : Hash -> outcome (option node)) `{!StoreOk db_node}.

(** A trie holds a map: its root stands for a minimal tree with the contents of the map. *)
Definition holds (t : Trie) (m : byte_map) : Prop :=
  exists tr, rep true (t_root t) tr /\ wf_at false tr /\ contents tr m.

Lemma need_steps n key : (need n (length key) <= steps key)%nat.
Proof. unfold need, steps. destruct (is_hash n); lia. Qed.

Lemma update_holds t k value m :
  holds t m -> Forall byte_ok k ->
  exists t', TryUpdate db_node t k value = TRet t' /\ holds t' (put k (if (length value =? 0)%nat then None else Some value) m).
Proof.
  intros (tr & Hr & Hw & Hc) Hk. unfold TryUpdate. destruct (Nat.eqb_spec (length value) 0) as [Hv|Hv]; cbn [negb].
  - destruct (delete_rep db_node (steps (keybytesToHex k)) true (t_root t) tr false [] (keybytesToHex k)) as ([d n] & -> & tr' & Hr' & Hw' & Hch & _);
      [done..|by apply keybytesToHex_ok|apply need_steps|].
    eexists. split; [done|]. exists tr'. split_and!; [done..|]. by eapply contents_changed.
  - destruct (insert_rep db_node (steps (keybytesToHex k)) true (t_root t) tr false [] (keybytesToHex k) value) as ([d n] & -> & tr' & Hr' & Hw' & _ & Hch & _);
      [done..|by apply keybytesToHex_ok|by destruct value|apply need_steps|].
    eexists. split; [done|]. exists tr'. split_and!; [done..|]. by eapply contents_changed.
Qed.

Lemma op_holds t m o :
  holds t m -> Forall byte_ok (op_key o) ->
  exists t', run_op db_node t o = TRet ((map_op m o).1, t') /\ holds t' (map_op m o).2.
Proof.
  intros Hh Hk. destruct o as [k|k v|k]; simpl in *.
  - destruct Hh as (tr & Hr & Hw & Hc). unfold TryGet.
    destruct (tryGet_rep db_node (steps (keybytesToHex k)) false true (t_root t) tr false (keybytesToHex k) 0) as (n & dr & -> & Hr');
      [done..|by apply keybytesToHex_ok|lia|rewrite Nat.sub_0_r; apply need_steps|].
    cbn [mbind tres_mbind]. rewrite drop_0, (contents_lookup tr m k Hc Hk). eexists. split; [done|].
    exists tr. by destruct dr.
  - destruct (update_holds t k v m Hh Hk) as (t' & -> & Ht'). by eexists.
  - destruct (update_holds t k [] m Hh Hk) as (t' & E & Ht'). unfold TryUpdate in E. simpl in E. unfold TryDelete. rewrite E. by eexists.
Qed.

Lemma ops_hold t m os :
  holds t m -> Forall (fun o => Forall byte_ok (op_key o)) os ->
  exists t', run_ops db_node t os = TRet ((map_ops m os).1, t') /\ holds t' (map_ops m os).2.
Proof.
  intros Hh Hos. revert t m Hh. induction Hos as [|o os Ho Hos IH]; intros t m Hh; simpl; [by exists t|].
  destruct (op_holds t m o Hh Ho) as (t1 & -> & Hh1). destruct (map_op m o) as [r m1]. cbn [mbind tres_mbind].
  destruct (IH t1 m1 Hh1) as (t2 & -> & Hh2). destruct (map_ops m1 os) as [rs m2]. by exists t2.
Qed.

Lemma empty_holds n : holds (mkTrie nil_node n) ∅.
Proof. exists TNil. split_and!; [constructor|by intros []|apply contents_empty]. Qed.
End refinement.
