(* ===== verification/TrieHash.v ===== *)
(** Hashing a trie: [trie/hasher.go], and [Hash] of [trie/trie.go].

    [titem] is the node of a tree in its consensus form, [troot] its hash.  The hasher
    computes it from the hashes it has kept in the nodes.  The theorems: it computes
    [troot] of the tree the nodes stand for; trees with one root hash are the same, unless
    two of their encodings collide. *)
From S2P Require Import Prelude KeyedList Common Rlp TrieEncoding TrieNode Trie TrieSpec TrieProps.

Open Scope Z_scope.

(** ** The hasher *)

Section hasher.
Context {CR : Crypto}.

Definition hashData (data : bytes) : node := hashNode (Keccak256 data).

(** [rlp.Encode] writes [encode] of the item, see [EncodeToBytes]. *)
Definition shortnodeToHash (n : node) (force : bool) : node :=
  let tmp := encode (node_item n) in
  if (length tmp <? 32)%nat && negb force then n else hashData tmp.

Definition fullnodeToHash (n : node) (force : bool) : node :=
  let tmp := encode (node_item n) in
  if (length tmp <? 32)%nat && negb force then n else hashData tmp.

Section children.
(** [hash], for the children *)
Context (hash : node -> bool -> outcome (node * node)).

Definition hashShortNodeChildren (key : bytes) (val : node) (flags : nodeFlag) : outcome (node * node) :=
  '(collapsed, cached) ← match val with
                         | fullNode _ _ | shortNode _ _ _ => hash val false
                         | _ => Ret (val, val)
                         end;
  Ret (shortNode (hexToCompact key) collapsed flags, shortNode key cached flags).

(** The first [k] children; the goroutines of the parallel hasher write different slots. *)
Fixpoint hash_children (k : nat) (cs : list node) {struct cs} : outcome (list node * list node) :=
  match k, cs with
  | S k, c :: cs =>
      '(a, b) ← (if is_nil c then Ret (nilValueNode, c) else hash c false);
      '(collapsed, cached) ← hash_children k cs;
      Ret (a :: collapsed, b :: cached)
  | _, _ => Ret (cs, cs)
  end.

Definition hashFullNodeChildren (cs : list node) (flags : nodeFlag) : outcome (node * node) :=
  '(collapsed, cached) ← hash_children 16 cs;
  Ret (fullNode collapsed flags, fullNode cached flags).
End children.

(** [cached.flags.hash = hn], or nil when the node was not hashed *)
Definition set_hash (hashed cached : node) : node :=
  let h := match hashed with hashNode h => Some h | _ => None end in
  match cached with
  | shortNode k v fl => shortNode k v (mkNodeFlag h (nf_dirty fl))
  | fullNode cs fl => fullNode cs (mkNodeFlag h (nf_dirty fl))
  | _ => cached
  end.

Fixpoint hasher_hash (n : node) (force : bool) : outcome (node * node) :=
  match n with
  | shortNode key val flags =>
      match nf_hash flags with
      | Some h => Ret (hashNode h, n)
      | None =>
          '(collapsed, cached) ← hashShortNodeChildren hasher_hash key val flags;
          let hashed := shortnodeToHash collapsed force in
          Ret (hashed, set_hash hashed cached)
      end
  | fullNode cs flags =>
      match nf_hash flags with
      | Some h => Ret (hashNode h, n)
      | None =>
          '(collapsed, cached) ← hashFullNodeChildren hasher_hash cs flags;
          let hashed := fullnodeToHash collapsed force in
          Ret (hashed, set_hash hashed cached)
      end
  | hashNode _ | valueNode _ => Ret (n, n)
  | nil_node | rawFullNode _ | rawShortNode _ _ => Panic
  end.

(** [Hash], with [hashRoot] *)
Definition Trie_Hash (t : Trie) : outcome (Hash * Trie) :=
  match t_root t with
  | nil_node => Ret (BytesToHash (Hash_Bytes emptyRoot), mkTrie nil_node (t_unhashed t))
  | root =>
      '(hashed, cached) ← hasher_hash root true;
      match hashed with
      | hashNode h => Ret (BytesToHash h, mkTrie cached 0)
      | _ => Panic
      end
  end.

(** ** The consensus form of a tree *)

(** A child is embedded when its form is shorter than a hash. *)
Fixpoint titem (t : tree) : item :=
  let ref c := match c with
               | TNil => RString []
               | TVal v => RString v
               | _ => let i := titem c in if (length (encode i) <? 32)%nat then i else RString (Keccak256 (encode i))
               end in
  match t with
  | TNil => RString []
  | TVal v => RString v
  | TShort k c => RList [RString (hexToCompact k); ref c]
  | TFull cs => RList (ref <$> cs)
  end.

Definition tenc (t : tree) : bytes := encode (titem t).

Definition tref (c : tree) : item :=
  match c with
  | TNil => RString []
  | TVal v => RString v
  | _ => if (length (tenc c) <? 32)%nat then titem c else RString (Keccak256 (tenc c))
  end.

Definition troot (t : tree) : Hash :=
  match t with
  | TNil => emptyRoot
  | _ => BytesToHash (Keccak256 (tenc t))
  end.

Lemma titem_short k c : titem (TShort k c) = RList [RString (hexToCompact k); tref c].
Proof. done. Qed.

Lemma titem_full cs : titem (TFull cs) = RList (tref <$> cs).
Proof. done. Qed.

Definition small (t : tree) : Prop := (length (tenc t) < 32)%nat.

Lemma tref_branch c :
  wf c -> tref c = if (length (tenc c) <? 32)%nat then titem c else RString (Keccak256 (tenc c)).
Proof. by destruct 1. Qed.

(** ** The hasher computes it *)

(** [h] is the hash of [t]; only the root is hashed when it is small. *)
Definition hash_of (top : bool) (h : bytes) (t : tree) : Prop := h = Keccak256 (tenc t) /\ (top = false -> ~ small t).

(** A node without a hash is new, or small: it is stored in its parent. *)
Definition hash_flag_ok (stored : tree -> Prop) (s top : bool) (fl : nodeFlag) (t : tree) : Prop :=
  (forall h, nf_hash fl = Some h -> hash_of top h t /\ (nf_dirty fl = false -> stored t)) /\
  (nf_hash fl = None -> s = true \/ nf_dirty fl = false -> top = false /\ small t).

Definition hash_held (stored : tree -> Prop) (top : bool) (h : bytes) (t : tree) : Prop :=
  wf t /\ hash_of top h t /\ stored t.

Definition HashStore (stored : tree -> Prop) : Store :=
  {| held := hash_held stored; flag_ok := hash_flag_ok stored |}.

Section correct.
Context (stored : tree -> Prop).
#[local] Instance hash_store : Store := HashStore stored.

(** What the hasher gives for a node. *)
Definition hashed_as (top : bool) (t : tree) (hashed : node) : Prop :=
  if top || negb (length (tenc t) <? 32)%nat then hashed = hashNode (Keccak256 (tenc t))
  else is_hash hashed = false /\ is_nil hashed = false /\ node_item hashed = titem t.

Lemma hashed_as_ref t hashed : wf t -> hashed_as false t hashed -> node_item hashed = tref t.
Proof.
  intros Hw. rewrite tref_branch by done. unfold hashed_as. simpl. destruct (length (tenc t) <? 32)%nat; simpl; [by intros (_ & _ & ?)|by intros ->].
Qed.

Lemma hashed_as_child t hashed : wf t -> hashed_as false t hashed -> child_item hashed = tref t.
Proof.
  intros Hw Ha. rewrite <- (hashed_as_ref t hashed Hw Ha). destruct hashed; try done. unfold hashed_as in Ha. simpl in Ha.
  by destruct (length (tenc t) <? 32)%nat; [destruct Ha as (_ & ? & _)|].
Qed.

Lemma to_hash_as top t collapsed :
  is_hash collapsed = false -> is_nil collapsed = false -> node_item collapsed = titem t -> hashed_as top t (shortnodeToHash collapsed top).
Proof.
  intros Hh Hn Hi. unfold hashed_as, shortnodeToHash. rewrite Hi. fold (tenc t).
  destruct (length (tenc t) <? 32)%nat; destruct top; done.
Qed.

(** The flags after hashing. *)
Lemma set_hash_flag s top t hashed fl :
  hashed_as top t hashed -> nf_hash fl = None -> hash_flag_ok stored s top fl t ->
  hash_flag_ok stored true top (mkNodeFlag (match hashed with hashNode h => Some h | _ => None end) (nf_dirty fl)) t.
Proof.
  intros Ha Hn [_ Hf]. unfold hashed_as in Ha. destruct (Nat.ltb_spec (length (tenc t)) 32) as [Hs|Hs].
  - destruct top; simpl in Ha.
    + subst hashed. split; [|done]. intros h [= <-]. split; [done|]. simpl. intros Hd. by destruct (Hf Hn (or_intror Hd)).
    + destruct Ha as [Hh _]. destruct hashed; (split; [done|by split]) || done.
  - rewrite orb_true_r in Ha. subst hashed. split; [|done]. intros h [= <-]. simpl.
    split; [split; [done|unfold small; lia]|]. intros Hd. destruct (Hf Hn (or_intror Hd)) as [_ Hsm]. unfold small in Hsm. lia.
Qed.

(** What hashing a node must give. *)
Definition hashes (top : bool) (n : node) (t : tree) : Prop :=
  exists hashed cached, hasher_hash n top = Ret (hashed, cached) /\ hashed_as top t hashed /\ srep true top cached t.

(** The child of a short node. *)
Lemma hash_child s c t :
  srep s false c t -> t <> TNil -> (wf t \/ exists v, t = TVal v) -> (wf t -> hashes false c t) ->
  exists collapsed cached,
    match c with fullNode _ _ | shortNode _ _ _ => hasher_hash c false | _ => Ret (c, c) end = Ret (collapsed, cached) /\
    node_item collapsed = tref t /\ srep true false cached t.
Proof.
  intros Hr Hn Hw IH. inversion Hr as [| |? ? k d fl ct|? ? cs fl ts|? ? h ? Hh]; subst.
  - done.
  - eexists _, _. split_and!; [done..|]. constructor.
  - destruct Hw as [Hw|[v [=]]]. destruct (IH Hw) as (hd & cd & -> & Ha & Hs). eexists _, _. split_and!; [done| |done]. by apply hashed_as_ref.
  - destruct Hw as [Hw|[v [=]]]. destruct (IH Hw) as (hd & cd & -> & Ha & Hs). eexists _, _. split_and!; [done| |done]. by apply hashed_as_ref.
  - eexists _, _. split_and!; [done| |by constructor]. destruct Hh as (Hw' & [-> Hbig] & _). rewrite tref_branch by done.
    specialize (Hbig eq_refl). unfold small in Hbig. by destruct (Nat.ltb_spec (length (tenc t)) 32).
Qed.

Lemma hash_one s (low : bool) c t :
  srep s false c t -> (wf t -> hashes false c t) -> (t <> TNil -> if low then wf t else exists v, t = TVal v) ->
  exists a b, (if low then if is_nil c then Ret (nilValueNode, c) else hasher_hash c false else Ret (c, c)) = Ret (a, b) /\
    child_item a = tref t /\ srep true false b t.
Proof.
  intros Hr IH Hw. destruct (decide (t = TNil)) as [->|Hn].
  - inversion Hr as [| | | |? ? ? ? [Hwf _]]; subst; [|by inversion Hwf].
    destruct low; eexists _, _; (split_and!; [done..|constructor]).
  - specialize (Hw Hn). destruct low.
    + destruct (IH Hw) as (a & b & E & Ha & Hb). exists a, b. destruct (is_nil c) eqn:En; [by destruct c|].
      split_and!; [done| |done]. by apply hashed_as_child.
    + destruct Hw as [v ->]. inversion Hr as [| | | |? ? ? ? [Hwf _]]; subst; [|by inversion Hwf].
      eexists _, _. split_and!; [done..|constructor].
Qed.

Lemma hash_children_cons k c cs :
  hash_children hasher_hash k (c :: cs) =
  '(a, b) ← (if (0 <? k)%nat then if is_nil c then Ret (nilValueNode, c) else hasher_hash c false else Ret (c, c));
  '(la, lb) ← hash_children hasher_hash (k - 1) cs; Ret (a :: la, b :: lb).
Proof.
  destruct k as [|k]; [by destruct cs|]. cbn [hash_children Nat.ltb Nat.leb]. by rewrite Nat.sub_succ, Nat.sub_0_r.
Qed.

Lemma hash_children_rep s k cs ts :
  length cs = length ts ->
  (forall i c t, cs !! i = Some c -> ts !! i = Some t -> srep s false c t) ->
  (forall i c t, cs !! i = Some c -> ts !! i = Some t -> wf t -> hashes false c t) ->
  (forall i t, ts !! i = Some t -> t <> TNil -> if (i <? k)%nat then wf t else exists v, t = TVal v) ->
  exists collapsed cached, hash_children hasher_hash k cs = Ret (collapsed, cached) /\
    child_item <$> collapsed = tref <$> ts /\ length cached = length ts /\
    (forall i c t, cached !! i = Some c -> ts !! i = Some t -> srep true false c t).
Proof.
  revert k ts. induction cs as [|c cs IHcs]; intros k [|t ts] Hl Hr IH Hw; try done.
  { exists [], []. split_and!; [by destruct k|done..]. }
  rewrite hash_children_cons.
  destruct (hash_one s (0 <? k)%nat c t) as (a & b & -> & Ha & Hb); [by apply (Hr 0%nat)|by apply (IH 0%nat)|by apply (Hw 0%nat)|].
  destruct (IHcs (k - 1)%nat ts) as (la & lb & El & Hla & Hlb & Hrb).
  - simpl in Hl. lia.
  - intros i. apply (Hr (S i)).
  - intros i. apply (IH (S i)).
  - intros i u Hu Hn. specialize (Hw (S i) u Hu Hn). destruct (Nat.ltb_spec (S i) k), (Nat.ltb_spec i (k - 1)); done || lia.
  - cbn [mbind outcome_mbind outcome_bind]. rewrite El. cbn [mbind outcome_mbind outcome_bind]. eexists _, _.
    split_and!; [done|by rewrite !fmap_cons, Ha, Hla|simpl; by rewrite Hlb|]. intros [|i] d u Hd Hu; [by simplify_eq/=|by eapply Hrb].
Qed.

Lemma hash_of_as top h t : hash_of top h t -> hashed_as top t (hashNode h).
Proof.
  intros [-> H]. unfold hashed_as. destruct top; [done|]. specialize (H eq_refl). unfold small in H.
  by destruct (Nat.ltb_spec (length (tenc t)) 32).
Qed.

(** A node with a cached hash is left as it is: the nodes below it have their hashes. *)
Lemma hash_cached s top fl h t :
  hash_flag_ok stored s top fl t -> nf_hash fl = Some h ->
  hashed_as top t (hashNode h) /\ hash_flag_ok stored true top fl t.
Proof. intros [Hf _] E. split; [by apply hash_of_as, Hf|]. split; [done|congruence]. Qed.

Lemma hash_short s s' top k c fl t :
  hash_flag_ok stored s top fl (TShort k t) -> nf_hash fl = None -> srep s' false c t -> wf (TShort k t) ->
  (wf t -> hashes false c t) -> hashes top (shortNode k c fl) (TShort k t).
Proof.
  intros Hfl Eh Hc Hw IH. unfold hashes. cbn [hasher_hash]. rewrite Eh. unfold hashShortNodeChildren.
  destruct (wf_short_child _ _ Hw) as (_ & Hn & term & Hwc & _). specialize (Hwc Hn).
  destruct (hash_child s' c t) as (cv & hv & -> & Hcv & Hhv); [done..|destruct term; naive_solver|done|].
  cbn [mbind outcome_mbind outcome_bind]. eexists _, _. split; [done|].
  assert (Ha : hashed_as top (TShort k t) (shortnodeToHash (shortNode (hexToCompact k) cv fl) top)).
  { apply to_hash_as; [done..|]. rewrite titem_short. cbn [node_item]. by rewrite Hcv. }
  split; [done|]. constructor; [by apply (set_hash_flag s)|done].
Qed.

Lemma hash_full s s' top cs fl ts :
  hash_flag_ok stored s top fl (TFull ts) -> nf_hash fl = None -> length cs = length ts -> wf (TFull ts) ->
  (forall i c t, cs !! i = Some c -> ts !! i = Some t -> srep s' false c t) ->
  (forall i c t, cs !! i = Some c -> ts !! i = Some t -> wf t -> hashes false c t) ->
  hashes top (fullNode cs fl) (TFull ts).
Proof.
  intros Hfl Eh Hl Hw Hc IH. unfold hashes. cbn [hasher_hash]. rewrite Eh. unfold hashFullNodeChildren.
  destruct (hash_children_rep s' 16 cs ts) as (la & lb & -> & Hla & Hlb & Hrb); [done..| |].
  { intros i t Ht Hn. inversion Hw as [| |? Hlt Hlow Htop _]; subst. apply lookup_lt_Some in Ht as Hi.
    destruct (Nat.ltb_spec i 16); [by apply (Hlow i)|]. assert (i = 16%nat) as -> by lia. destruct (Htop t Ht Hn) as (v & _ & ->). by exists v. }
  cbn [mbind outcome_mbind outcome_bind]. eexists _, _. split; [done|].
  assert (Ha : hashed_as top (TFull ts) (fullnodeToHash (fullNode la fl) top)).
  { apply (to_hash_as _ _ (fullNode la fl)); [done..|]. rewrite titem_full, <- Hla. done. }
  split; [done|]. constructor; [by apply (set_hash_flag s)|done|done].
Qed.

(** Hashing a node: its hash, and the node with the hashes below it kept. *)
Lemma hash_rep s top n t : srep s top n t -> wf t -> hashes top n t.
Proof.
  intros Hr. induction Hr as [| |s top k c fl t Hfl Hc IH|s top cs fl ts Hfl Hl Hc IH|s top h t Hh]; intros Hw; [by inversion Hw..| | |].
  - destruct (nf_hash fl) as [h|] eqn:Eh; [|exact (hash_short s _ _ _ _ _ _ Hfl Eh Hc Hw IH)].
    destruct (hash_cached s top fl h _ Hfl Eh) as [Ha Hf]. unfold hashes. cbn [hasher_hash]. rewrite Eh.
    eexists _, _. split_and!; [done..|]. constructor; [done|]. unfold has_hash in Hc. by rewrite Eh, orb_true_r in Hc.
  - destruct (nf_hash fl) as [h|] eqn:Eh; [|exact (hash_full s _ _ _ _ _ Hfl Eh Hl Hw Hc IH)].
    destruct (hash_cached s top fl h _ Hfl Eh) as [Ha Hf]. unfold hashes. cbn [hasher_hash]. rewrite Eh.
    eexists _, _. split_and!; [done..|]. constructor; [done|done|]. unfold has_hash in Hc. by rewrite Eh, orb_true_r in Hc.
  - eexists _, _. split_and!; [done|apply hash_of_as; by destruct Hh as (_ & ? & _)|by constructor].
Qed.

Lemma Trie_Hash_rep (t : Trie) tr :
  srep false true (t_root t) tr -> wf_at false tr ->
  exists t', Trie_Hash t = Ret (troot tr, t') /\ srep true true (t_root t') tr.
Proof.
  intros Hr Hw. unfold Trie_Hash. destruct (decide (tr = TNil)) as [->|Hn].
  - inversion Hr as [| | | |? ? ? ? [Hwf _]]; subst; [|by inversion Hwf]. eexists. split; [by vm_compute (BytesToHash _)|constructor].
  - specialize (Hw Hn). simpl in Hw. destruct (hash_rep _ _ _ _ Hr Hw) as (hd & cd & E & Ha & Hs).
    assert (Hnn : t_root t <> nil_node) by (intros En; rewrite En in E; done).
    unfold hashed_as in Ha. simpl in Ha. subst hd. exists (mkTrie cd 0). split; [|done].
    assert (Htr : troot tr = BytesToHash (Keccak256 (tenc tr))) by by destruct tr. rewrite Htr.
    destruct (t_root t); try done; rewrite E; done.
Qed.
End correct.

(** ** One tree for a hash *)

(** The encodings that are hashed, or embedded, on the way to the root. *)
Fixpoint tencs (t : tree) : list bytes :=
  match t with
  | TNil | TVal _ => []
  | TShort _ c => tenc t :: tencs c
  | TFull cs => tenc t :: mjoin (tencs <$> cs)
  end.

(** No two of the encodings have the same hash, none that of the empty trie, and each fits
    in memory. *)
Definition collision_free (l : list bytes) : Prop :=
  (forall x y, x ∈ l -> y ∈ l -> Keccak256 x = Keccak256 y -> x = y) /\
  (forall x, x ∈ l -> BytesToHash (Keccak256 x) <> emptyRoot /\ fits x).

Lemma collision_free_mono l l' : collision_free l -> l' ⊆ l -> collision_free l'.
Proof. intros [H1 H2] Hs. split; [intros x y Hx Hy; apply H1; by apply Hs|intros x Hx; apply H2; by apply Hs]. Qed.

Lemma collision_free_app a b a' b' : collision_free (a ++ b) -> a' ⊆ a -> b' ⊆ b -> collision_free (a' ++ b').
Proof. intros H Ha Hb. apply (collision_free_mono _ _ H). intros x [Hx|Hx]%elem_of_app; apply elem_of_app; auto. Qed.

Lemma tencs_self t : wf t -> tenc t ∈ tencs t.
Proof. destruct 1; simpl; apply list_elem_of_here. Qed.

Lemma tencs_short k c : tencs c ⊆ tencs (TShort k c).
Proof. simpl. intros x Hx. by apply list_elem_of_further. Qed.

Lemma tencs_child cs i c : cs !! i = Some c -> tencs c ⊆ tencs (TFull cs).
Proof.
  intros Hi x Hx. simpl. apply list_elem_of_further. apply list_elem_of_join. exists (tencs c). split; [done|].
  apply list_elem_of_fmap. exists c. split; [done|]. by eapply list_elem_of_lookup_2.
Qed.

Lemma titem_list t : wf t -> exists l, titem t = RList l.
Proof. destruct 1; by eexists. Qed.
End hasher.

(** The documented width of the hash. *)
Class KeccakOk {CR : Crypto} : Prop := {
  Keccak_length : forall b, length (Keccak256 b) = 32%nat;
  Keccak_bytes : forall b, Forall byte_ok (Keccak256 b);
}.

Section binding.
Context {CR : Crypto} {KO : KeccakOk}.

Lemma BytesToHash_inj a b :
  length a = 32%nat -> length b = 32%nat -> Forall byte_ok a -> Forall byte_ok b -> BytesToHash a = BytesToHash b -> a = b.
Proof.
  intros La Lb Ha Hb. unfold BytesToHash. rewrite La, Lb. simpl. intros E.
  rewrite <- (be_bytes_of_SetBytes a Ha), <- (be_bytes_of_SetBytes b Hb), E. by rewrite La, Lb.
Qed.

Lemma Hash_Bytes_Keccak b : Hash_Bytes (BytesToHash (Keccak256 b)) = Keccak256 b.
Proof.
  unfold Hash_Bytes, BytesToHash. rewrite Keccak_length. change (32 <? Z.of_nat 32) with false. cbv iota.
  rewrite <- (Keccak_length b). apply be_bytes_of_SetBytes, Keccak_bytes.
Qed.

Lemma Keccak_hash_inj x y : BytesToHash (Keccak256 x) = BytesToHash (Keccak256 y) -> Keccak256 x = Keccak256 y.
Proof. apply BytesToHash_inj; auto using Keccak_length, Keccak_bytes. Qed.

(** Below a node: the reference to a child determines it. *)
Lemma tref_inj t u :
  (forall u, wf t -> wf u -> collision_free (tencs t ++ tencs u) -> titem t = titem u -> t = u) ->
  wf t -> wf u -> collision_free (tencs t ++ tencs u) -> tref t = tref u -> t = u.
Proof.
  intros IH Ht Hu Hcf. rewrite !tref_branch by done. destruct (titem_list t Ht) as [l Hl], (titem_list u Hu) as [l' Hl'].
  destruct (length (tenc t) <? 32)%nat, (length (tenc u) <? 32)%nat; intros E; [by apply IH|congruence..|].
  injection E as E. apply IH; [done..|]. pose proof Hcf as [H1 H2].
  assert (Hin : tenc t ∈ tencs t ++ tencs u) by (apply elem_of_app; left; by apply tencs_self).
  assert (Et : tenc t = tenc u) by (apply H1; [done|apply elem_of_app; right; by apply tencs_self|done]).
  destruct (H2 _ Hin) as [_ Hf]. unfold tenc in *.
  destruct (encode_prefix_free (titem t) (titem u) [] []) as [-> _]; [by rewrite app_nil_r|by rewrite !app_nil_r|done].
Qed.

Lemma tref_nil t : wf t -> tref t <> RString [].
Proof.
  intros Ht. rewrite tref_branch by done. destruct (titem_list t Ht) as [l Hl]. case_match; [congruence|].
  intros [= E]. pose proof (Keccak_length (tenc t)) as HL. by rewrite E in HL.
Qed.

Lemma full_inj cs ds :
  Forall (fun c => forall u, wf c -> wf u -> collision_free (tencs c ++ tencs u) -> titem c = titem u -> c = u) cs ->
  wf (TFull cs) -> wf (TFull ds) -> collision_free (tencs (TFull cs) ++ tencs (TFull ds)) ->
  tref <$> cs = tref <$> ds -> cs = ds.
Proof.
  intros IH Hc Hd Hcf E. inversion Hc as [| |? Hlc Hlow Htop _]; subst. inversion Hd as [| |? Hld Hlow' Htop' _]; subst.
  apply list_eq_same_length with (n := 17%nat); [done|done|]. intros i c d Hi Hci Hdi.
  assert (Er : tref c = tref d).
  { apply (f_equal (fun l => l !! i)) in E. rewrite !list_lookup_fmap, Hci, Hdi in E. by injection E. }
  destruct (decide (i = 16%nat)) as [->|Hne].
  - destruct (decide (c = TNil)) as [->|Hn], (decide (d = TNil)) as [->|Hn']; [done| | |].
    + destruct (Htop' d Hdi Hn') as (v & Hv & ->). simpl in Er. congruence.
    + destruct (Htop c Hci Hn) as (v & Hv & ->). simpl in Er. congruence.
    + destruct (Htop' d Hdi Hn') as (v & Hv & ->), (Htop c Hci Hn) as (w & Hw & ->). simpl in Er. congruence.
  - destruct (decide (c = TNil)) as [->|Hn], (decide (d = TNil)) as [->|Hn']; [done| | |].
    + symmetry in Er. by apply tref_nil in Er; [|apply (Hlow' i); auto with lia].
    + by apply tref_nil in Er; [|apply (Hlow i); auto with lia].
    + rewrite Forall_forall in IH. apply tref_inj; [|by apply (Hlow i); auto with lia|by apply (Hlow' i); auto with lia| |done].
      { apply IH. by eapply list_elem_of_lookup_2. }
      eapply collision_free_app; [done|by eapply tencs_child..].
Qed.

Lemma titem_inj t u : wf t -> wf u -> collision_free (tencs t ++ tencs u) -> titem t = titem u -> t = u.
Proof.
  revert u. induction t as [|v|k c IH|cs IH] using tree_induction; intros u Ht Hu Hcf E; [by inversion Ht|by inversion Ht| |].
  - destruct u as [| |k' c'|ds]; [by inversion Hu|by inversion Hu| |].
    2: { exfalso. rewrite titem_short, titem_full in E. injection E as E. apply (f_equal length) in E. rewrite length_fmap in E.
         inversion Hu as [| |? Hl _ _ _]; subst. by rewrite Hl in E. }
    rewrite !titem_short in E. injection E as Ek Ec.
    assert (Hcf' : collision_free (tencs c ++ tencs c')).
    { eapply collision_free_app; [done|apply tencs_short..]. }
    apply wf_short_inv in Ht as [(ns & v & -> & -> & Hp & Hv)|(cs & -> & Hp & Hk & Hf)],
      Hu as [(ns' & v' & -> & -> & Hp' & Hv')|(cs' & -> & Hp' & Hk' & Hf')].
    + apply hexToCompact_inj in Ek; [|by right; eexists..]. rewrite Ek. simpl in Ec. congruence.
    + apply hexToCompact_inj in Ek; [|by right; eexists|by left]. subst. by destruct (leaf_not_prefix ns _ Hp').
    + apply hexToCompact_inj in Ek; [|by left|by right; eexists]. subst. by destruct (leaf_not_prefix ns' _ Hp).
    + apply hexToCompact_inj in Ek; [|by left..]. subst. f_equal. by apply tref_inj.
  - destruct u as [| |k' c'|ds]; [by inversion Hu|by inversion Hu| |].
    { exfalso. rewrite titem_short, titem_full in E. injection E as E. apply (f_equal length) in E. rewrite length_fmap in E.
      inversion Ht as [| |? Hl _ _ _]; subst. by rewrite Hl in E. }
    rewrite !titem_full in E. injection E as E. f_equal. by apply full_inj.
Qed.

(** Trees with one root hash. *)
Lemma troot_inj t u :
  wf_at false t -> wf_at false u -> collision_free (tencs t ++ tencs u) -> troot t = troot u -> t = u.
Proof.
  intros Ht Hu Hcf E. destruct (decide (t = TNil)) as [->|Hn], (decide (u = TNil)) as [->|Hn']; [done| | |].
  - specialize (Hu Hn'). destruct Hcf as [_ H2]. destruct (H2 (tenc u)) as [Hne _]; [simpl; by apply tencs_self|].
    destruct Hne. by destruct Hu.
  - specialize (Ht Hn). destruct Hcf as [_ H2]. destruct (H2 (tenc t)) as [Hne _]; [apply elem_of_app; left; by apply tencs_self|].
    destruct Hne. by destruct Ht.
  - specialize (Ht Hn). specialize (Hu Hn'). simpl in Ht, Hu. assert (Ek : Keccak256 (tenc t) = Keccak256 (tenc u)).
    { apply Keccak_hash_inj. by destruct Ht, Hu. }
    apply titem_inj; [done..|]. pose proof Hcf as [H1 H2].
    assert (Hin : tenc t ∈ tencs t ++ tencs u) by (apply elem_of_app; left; by apply tencs_self).
    assert (Et : tenc t = tenc u) by (apply H1; [done|apply elem_of_app; right; by apply tencs_self|done]).
    destruct (H2 _ Hin) as [_ Hf]. unfold tenc in *.
    destruct (encode_prefix_free (titem t) (titem u) [] []) as [-> _]; [by rewrite app_nil_r|by rewrite !app_nil_r|done].
Qed.
End binding.
