(* ===== verification/TrieCommit.v ===== *)
(** Committing a trie to its database: [trie/committer.go], and [Commit] of [trie/trie.go].

    With a leaf callback the nodes go through a channel to a goroutine that inserts them in
    the order in which they were sent and calls it; the committer itself does not read the
    database, so the model inserts at once. *)
From S2P Require Import Prelude KeyedList Common Rlp TrieEncoding TrieNode TrieDatabase Trie TrieSpec TrieProps TrieHash.

Open Scope Z_scope.

(** The leaf callback: a value and the hash of its node; its error is dropped. *)
Definition LeafCallback : Type := bytes -> Hash -> Database -> outcome Database.

(** The loop over the first [k] children, an absent one counted as one byte. *)
Definition estimate_first (estimate : node -> outcome Z) : nat -> list node -> outcome Z :=
  fix go k cs {struct cs} :=
    match k, cs with
    | S k, c :: cs => s ← match c with nil_node => Ret 1 | _ => estimate c end; r ← go k cs; Ret (s + r)
    | _, _ => Ret 3
    end.

Fixpoint estimateSize (n : node) : outcome Z :=
  match n with
  | shortNode k v _ => s ← estimateSize v; Ret (3 + Z.of_nat (length k) + s)
  | fullNode cs _ => estimate_first estimateSize 16 cs
  | valueNode b | hashNode b => Ret (1 + Z.of_nat (length b))
  | nil_node | rawFullNode _ | rawShortNode _ _ => Panic
  end.

Section committer.
Context (onleaf : option LeafCallback).

(** What [commitLoop] does with a node that was inserted. *)
Definition call_onleaf (n : node) (hash : Hash) (db : Database) : outcome Database :=
  match onleaf with
  | None => Ret db
  | Some f =>
      match n with
      | shortNode _ (valueNode v) _ => f v hash db
      | fullNode cs _ =>
          match cs !! 16%nat with
          | Some (valueNode v) => f v hash db
          | Some nil_node | None => Ret db
          | Some _ => Panic
          end
      | _ => Ret db
      end
  end.

Definition ct_store (n : node) (flags : nodeFlag) (db : Database) : outcome (node * Database) :=
  match nf_hash flags with
  | None => Ret (n, db)
  | Some hash =>
      size ← estimateSize n;
      db ← db_insert (BytesToHash hash) size n db;
      db ← call_onleaf n (BytesToHash hash) db;
      Ret (hashNode hash, db)
  end.

(** A node that is clean and has its hash is in the database. *)
Definition clean_hash (flags : nodeFlag) : option bytes := if nf_dirty flags then None else nf_hash flags.

Section children.
(** [commit], for the children *)
Context (commit : node -> Database -> outcome (node * Database)).

(** The first [k] children; the last one, a value, is taken as it is. *)
Fixpoint commit_children (k : nat) (cs : list node) (db : Database) {struct cs} : outcome (list node * Database) :=
  match k, cs with
  | S k, c :: cs =>
      '(c, db) ← match c with
                 | nil_node | hashNode _ => Ret (c, db)
                 | _ => commit c db
                 end;
      '(cs, db) ← commit_children k cs db;
      Ret (c :: cs, db)
  | _, _ => Ret (cs, db)
  end.
End children.

Fixpoint ct_commit (n : node) (db : Database) {struct n} : outcome (node * Database) :=
  match n with
  | shortNode k v flags =>
      match clean_hash flags with
      | Some hash => Ret (hashNode hash, db)
      | None =>
          '(childV, db) ← match v with fullNode _ _ => ct_commit v db | _ => Ret (v, db) end;
          ct_store (shortNode (hexToCompact k) childV flags) flags db
      end
  | fullNode cs flags =>
      match clean_hash flags with
      | Some hash => Ret (hashNode hash, db)
      | None =>
          '(hashedKids, db) ← commit_children ct_commit 16 cs db;
          ct_store (fullNode hashedKids flags) flags db
      end
  | hashNode _ => Ret (n, db)
  | valueNode _ | nil_node | rawFullNode _ | rawShortNode _ _ => Panic
  end.

(** [committer.Commit] *)
Definition ct_Commit (n : node) (db : Database) : outcome (bytes * Database) :=
  '(h, db) ← ct_commit n db;
  match h with
  | hashNode h => Ret (h, db)
  | _ => Panic
  end.

(** [Trie.Commit] *)
Definition Trie_Commit {CR : Crypto} (t : Trie) (db : Database) : outcome (Hash * Trie * Database) :=
  match t_root t with
  | nil_node => Ret (emptyRoot, t, db)
  | _ =>
      '(rootHash, t) ← Trie_Hash t;
      '(_, dirty) ← node_cache (t_root t);
      if (dirty : bool) then
        '(newRoot, db) ← ct_Commit (t_root t) db;
        Ret (rootHash, mkTrie (hashNode newRoot) (t_unhashed t), db)
      else Ret (rootHash, t, db)
  end.
End committer.
