(* ===== verification/TrieStore.v ===== *)
(** The stored forms of a tree, and reading them back.

    A tree is kept in the database as a raw node ([raw]), or as its encoding; read from either
    it becomes the same node in memory ([loaded]): [expandNode] undoes [simplifyNode], and
    [decodeNode] undoes the encoding.  The second part is about the database that holds
    these forms. *)
From S2P Require Import Prelude KeyedList Common Rlp TrieEncoding TrieNode TrieDatabase TrieFlush Trie TrieSpec TrieProps TrieHash TrieCommit.

Open Scope Z_scope.

Section store.
Context {CR : Crypto}.

(** The node in memory: children that were hashed are not loaded. *)
Fixpoint loaded (hash : option bytes) (t : tree) : node :=
  let ref c := match c with
               | TNil => nil_node
               | TVal v => valueNode v
               | _ => if (length (tenc c) <? 32)%nat then loaded None c else hashNode (Keccak256 (tenc c))
               end in
  match t with
  | TNil => nil_node
  | TVal v => valueNode v
  | TShort k c => shortNode k (ref c) (mkNodeFlag hash false)
  | TFull cs => fullNode (ref <$> cs) (mkNodeFlag hash false)
  end.

Definition loaded_ref (c : tree) : node :=
  match c with
  | TNil => nil_node
  | TVal v => valueNode v
  | _ => if (length (tenc c) <? 32)%nat then loaded None c else hashNode (Keccak256 (tenc c))
  end.

(** The raw node. *)
Fixpoint raw (t : tree) : node :=
  let ref c := match c with
               | TNil => nil_node
               | TVal v => valueNode v
               | _ => if (length (tenc c) <? 32)%nat then raw c else hashNode (Keccak256 (tenc c))
               end in
  match t with
  | TNil => nil_node
  | TVal v => valueNode v
  | TShort k c => rawShortNode (hexToCompact k) (ref c)
  | TFull cs => rawFullNode (ref <$> cs)
  end.

Definition raw_ref (c : tree) : node :=
  match c with
  | TNil => nil_node
  | TVal v => valueNode v
  | _ => if (length (tenc c) <? 32)%nat then raw c else hashNode (Keccak256 (tenc c))
  end.

Lemma loaded_short h k c : loaded h (TShort k c) = shortNode k (loaded_ref c) (mkNodeFlag h false).
Proof. done. Qed.

Lemma loaded_full h cs : loaded h (TFull cs) = fullNode (loaded_ref <$> cs) (mkNodeFlag h false).
Proof. done. Qed.

Lemma raw_short k c : raw (TShort k c) = rawShortNode (hexToCompact k) (raw_ref c).
Proof. done. Qed.

Lemma raw_full cs : raw (TFull cs) = rawFullNode (raw_ref <$> cs).
Proof. done. Qed.

(** The children of a minimal tree, for proofs by induction on the tree. *)
Lemma wf_children (P : tree -> Prop) :
  P TNil -> (forall v, v <> [] -> P (TVal v)) ->
  (forall k c, wf (TShort k c) -> P c -> P (TShort k c)) ->
  (forall cs, wf (TFull cs) -> Forall P cs -> P (TFull cs)) ->
  forall t, wf t -> P t.
Proof.
  intros Hnil Hval Hshort Hfull t. induction t as [|v|k c IH|cs IH] using tree_induction; intros Hw; [done|by inversion Hw| |].
  - apply Hshort; [done|]. apply wf_short_inv in Hw as [(ns & v & -> & -> & _ & Hv)|(cs & -> & _ & _ & Hf)]; auto.
  - apply Hfull; [done|]. apply Forall_lookup. intros i c Hi. rewrite Forall_lookup in IH. inversion Hw as [| |? Hl Hlow Htop _]; subst.
    destruct (decide (c = TNil)) as [->|Hn]; [done|]. apply lookup_lt_Some in Hi as Hlt. destruct (decide (i = 16%nat)) as [->|Hne].
    + destruct (Htop c Hi Hn) as (v & Hv & ->). auto.
    + apply (IH i); [done|]. apply (Hlow i); [done|lia|done].
Qed.

(** ** Raw nodes *)

Lemma wf_key k c : wf (TShort k c) -> path_ok k \/ key_ok k.
Proof. intros [(ns & v & -> & _ & Hp & _)|(cs & _ & Hp & _)]%wf_short_inv; [right; by exists ns|by left]. Qed.

(** [mapM] with the function that is applied to a child that is there. *)
Lemma mapM_children {B} (f : node -> outcome B) (g : tree -> node) (r : tree -> B) (b : B) ts :
  r TNil = b -> (forall c, c <> TNil -> is_nil (g c) = false) -> g TNil = nil_node ->
  Forall (fun c => c <> TNil -> f (g c) = Ret (r c)) ts ->
  mapM (fun c => match c with nil_node => Ret b | _ => f c end) (g <$> ts) = Ret (r <$> ts).
Proof.
  intros Hb Hg Hgn. induction 1 as [|c ts Hc _ IH]; [done|]. rewrite !fmap_cons. cbn [mapM].
  assert (E : match g c with nil_node => Ret b | _ => f (g c) end = Ret (r c)).
  { destruct (decide (c = TNil)) as [->|Hn]; [by rewrite Hgn, Hb|]. specialize (Hg c Hn). specialize (Hc Hn). by destruct (g c). }
  rewrite E. cbn [mbind outcome_mbind outcome_bind]. by rewrite IH.
Qed.

Lemma raw_ref_not_nil c : c <> TNil -> is_nil (raw_ref c) = false.
Proof. intros Hn. destruct c; try done; simpl; by destruct (length _ <? 32)%nat. Qed.

Lemma loaded_ref_not_nil c : c <> TNil -> is_nil (loaded_ref c) = false.
Proof. intros Hn. destruct c; try done; simpl; by destruct (length _ <? 32)%nat. Qed.

Lemma expand_raw_ref t :
  wf t -> t <> TNil -> (forall hash, expandNode hash (raw t) = Ret (loaded hash t)) /\ expandNode None (raw_ref t) = Ret (loaded_ref t).
Proof.
  revert t. apply (wf_children (fun t => t <> TNil ->
    (forall hash, expandNode hash (raw t) = Ret (loaded hash t)) /\ expandNode None (raw_ref t) = Ret (loaded_ref t))); [done|done| |].
  - intros k c Hw IH _. assert (E : forall hash, expandNode hash (raw (TShort k c)) = Ret (loaded hash (TShort k c))).
    { intros hash. rewrite raw_short, loaded_short. cbn [expandNode]. apply wf_short_child in Hw as Hc. destruct Hc as (_ & Hn & _).
      destruct (IH Hn) as [_ ->]. simpl. by rewrite compact_hex by by eapply wf_key. }
    split; [done|]. unfold raw_ref, loaded_ref. destruct (length _ <? 32)%nat; [apply E|done].
  - intros cs Hw IH _. assert (E : forall hash, expandNode hash (raw (TFull cs)) = Ret (loaded hash (TFull cs))).
    { intros hash. rewrite raw_full, loaded_full. cbn [expandNode].
      rewrite (mapM_children (expandNode None) raw_ref loaded_ref); [done|done|apply raw_ref_not_nil|done|].
      eapply Forall_impl; [done|]. intros c H Hn. by apply H. }
    split; [done|]. unfold raw_ref, loaded_ref. destruct (length _ <? 32)%nat; [apply E|done].
Qed.

(** Expanding a raw node gives the node in memory. *)
Lemma expand_raw t hash : wf t -> expandNode hash (raw t) = Ret (loaded hash t).
Proof. intros Hw. apply expand_raw_ref; [done|by apply wf_not_nil]. Qed.

(** A raw node has the encoding of the tree. *)
Lemma raw_item_ref t : wf t -> (t <> TNil -> node_item (raw t) = titem t) /\ child_item (raw_ref t) = tref t.
Proof.
  revert t. apply (wf_children (fun t => (t <> TNil -> node_item (raw t) = titem t) /\ child_item (raw_ref t) = tref t)); [done|done| |].
  - intros k c Hw [_ IH]. assert (E : node_item (raw (TShort k c)) = titem (TShort k c)).
    { rewrite raw_short, titem_short, <- IH. apply wf_short_child in Hw as (_ & Hn & _). apply raw_ref_not_nil in Hn.
      cbn [node_item]. by destruct (raw_ref c). }
    split; [done|]. unfold raw_ref, tref. destruct (length _ <? 32)%nat; [|done]. rewrite <- E. done.
  - intros cs Hw IH. assert (E : node_item (raw (TFull cs)) = titem (TFull cs)).
    { rewrite raw_full, titem_full. cbn [node_item]. f_equal. rewrite <- list_fmap_compose. apply list_fmap_ext. intros i c Hi.
      rewrite Forall_lookup in IH. by destruct (IH i c Hi) as [_ <-]. }
    split; [done|]. unfold raw_ref, tref. destruct (length _ <? 32)%nat; [|done]. rewrite <- E. done.
Qed.

Lemma raw_item t : wf t -> node_item (raw t) = titem t.
Proof. intros Hw. apply raw_item_ref; [done|by apply wf_not_nil]. Qed.

(** ** Encodings *)

(** The reference to a child, read back. *)
Lemma decodeRef_tref fuel c rest_ :
  (c <> TNil -> wf c) -> fits (encode (tref c) ++ rest_) ->
  (wf c -> (length (tenc c) < 32)%nat -> decodeNode_fuel fuel None (tenc c ++ rest_) = Decoded (loaded None c)) ->
  (forall b, length (Keccak256 b) = 32%nat) ->
  decodeRef (decodeNode_fuel fuel) (encode (tref c) ++ rest_) = Decoded (loaded_ref c, rest_).
Proof.
  intros Hw Hf IH HK. unfold decodeRef. rewrite Split_item by done. cbn [of_rlp mbind decoded_mbind].
  destruct (decide (c = TNil)) as [->|Hn]; [done|]. specialize (Hw Hn). destruct (titem_list c Hw) as [l Hl].
  rewrite tref_branch in * by done. assert (Hlr : loaded_ref c = if (length (tenc c) <? 32)%nat then loaded None c else hashNode (Keccak256 (tenc c))) by by destruct Hw.
  rewrite Hlr. destruct (Nat.ltb_spec (length (tenc c)) 32) as [Hs|Hs].
  - rewrite Hl at 1. cbn [item_kind]. fold (tenc c). rewrite length_app.
    destruct (Z.ltb_spec hashLen (Z.of_nat (length (tenc c) + length rest_) - Z.of_nat (length rest_))); [unfold hashLen in *; lia|].
    by rewrite IH.
  - assert (Hk : item_kind (RString (Keccak256 (tenc c))) = String_).
    { pose proof (HK (tenc c)) as HL. destruct (Keccak256 (tenc c)) as [|x [|y b]]; done. }
    rewrite Hk. cbn [item_content]. by rewrite HK.
Qed.

Lemma encode_all_app a b : encode_all (a ++ b) = encode_all a ++ encode_all b.
Proof. unfold encode_all. by rewrite fmap_app, join_app. Qed.

(** An item is shorter than the list it is in. *)
Lemma encode_shorter i l : i ∈ l -> (length (encode i) < length (encode (RList l)))%nat.
Proof.
  intros Hi. assert (Hle : (length (encode i) <= length (mjoin (encode <$> l)))%nat).
  { apply list_elem_of_split in Hi as (l1 & l2 & ->). rewrite fmap_app, join_app, fmap_cons, length_app. simpl. rewrite length_app. lia. }
  cbn [encode]. unfold list_bytes. rewrite length_app. unfold puthead. case_match; simpl; lia.
Qed.

Definition decodes (t : tree) : Prop :=
  forall fuel hash rest_, (length (tenc t) <= fuel)%nat -> fits (tenc t ++ rest_) ->
    decodeNode_fuel fuel hash (tenc t ++ rest_) = Decoded (loaded hash t).

Context (Keccak_length : forall b, length (Keccak256 b) = 32%nat).

(** The first children of a full node. *)
Lemma decode_children_trefs fuel n cs rest_ :
  length cs = n -> (forall c, c ∈ cs -> c <> TNil -> wf c) -> fits (encode_all (tref <$> cs) ++ rest_) ->
  (forall c, c ∈ cs -> wf c -> decodes c /\ ((length (tenc c) < 32)%nat -> (length (tenc c) <= fuel)%nat)) ->
  decode_children (decodeNode_fuel fuel) n (encode_all (tref <$> cs) ++ rest_) = Decoded (loaded_ref <$> cs, rest_).
Proof.
  revert n. induction cs as [|c cs IH]; intros n <- Hw Hf Hd; [done|]. cbn [length decode_children].
  change (encode_all (tref <$> c :: cs)) with (encode (tref c) ++ encode_all (tref <$> cs)) in *. rewrite <- app_assoc in *.
  rewrite (decodeRef_tref fuel c); [|apply Hw, list_elem_of_here|done| |done].
  - cbn [wrapError mbind decoded_mbind]. rewrite IH; [done|done|intros d Hin; apply Hw; by apply list_elem_of_further| |].
    + by apply (proj2 (fits_app _ _ Hf)).
    + intros d Hin. apply Hd. by apply list_elem_of_further.
  - intros Hwc Hs. destruct (Hd c (list_elem_of_here _ _) Hwc) as [Hdc Hfu]. apply Hdc; [by apply Hfu|].
    rewrite tref_branch in Hf by done. destruct (Nat.ltb_spec (length (tenc c)) 32); [done|lia].
Qed.

Lemma decode_list fuel hash l rest_ :
  fits (encode (RList l) ++ rest_) ->
  decodeNode_fuel (S fuel) hash (encode (RList l) ++ rest_) =
  if (length l =? 2)%nat then wrapError (decodeShort (decodeNode_fuel fuel) hash (encode_all l)) ctx_short
  else if (length l =? 17)%nat then wrapError (decodeFull (decodeNode_fuel fuel) hash (encode_all l)) ctx_full
  else DecodeErr (de_count (Z.of_nat (length l))).
Proof.
  intros Hf. cbn [decodeNode_fuel]. destruct (Nat.eqb_spec (length (encode (RList l) ++ rest_)) 0) as [E|_].
  { exfalso. rewrite length_app in E. pose proof (encode_not_nil (RList l)). destruct (encode (RList l)); [done|simpl in E; lia]. }
  unfold SplitList. rewrite Split_item by done. cbn [mbind outcome_mbind outcome_bind item_kind item_content].
  rewrite decide_True by done. cbn [of_rlp mbind decoded_mbind]. rewrite CountValues_encode.
  - destruct (Nat.eqb_spec (length l) 2) as [->|H2]; [done|]. destruct (Z.eqb_spec (Z.of_nat (length l)) 2); [lia|].
    destruct (Nat.eqb_spec (length l) 17) as [->|H17]; [done|]. by destruct (Z.eqb_spec (Z.of_nat (length l)) 17); [lia|].
  - apply fits_app in Hf as [Hf _]. cbn [encode] in Hf. by apply (proj2 (fits_app _ _ Hf)).
Qed.

Lemma SplitString_item b rest_ : fits (encode (RString b) ++ rest_) -> SplitString (encode (RString b) ++ rest_) = Ret (b, rest_).
Proof.
  intros Hf. unfold SplitString. rewrite Split_item by done. cbn [mbind outcome_mbind outcome_bind]. rewrite decide_False; [done|].
  intros E. by apply item_kind_list in E as [l E].
Qed.

Lemma tref_shorter c l : wf c -> tref c ∈ l -> (length (tenc c) < 32)%nat -> (length (tenc c) < length (encode (RList l)))%nat.
Proof.
  intros Hw Hin Hs. rewrite tref_branch in Hin by done. destruct (Nat.ltb_spec (length (tenc c)) 32); [|lia]. by apply encode_shorter.
Qed.

Lemma decodes_short k c : wf (TShort k c) -> (wf c -> decodes c) -> decodes (TShort k c).
Proof.
  intros Hw IH fuel hash rest_ Hfuel Hf. set (l := [RString (hexToCompact k); tref c]).
  assert (El : tenc (TShort k c) = encode (RList l)) by done. rewrite El in *.
  destruct fuel as [|fuel]; [pose proof (encode_not_nil (RList l)); destruct (encode (RList l)); [done|simpl in Hfuel; lia]|].
  rewrite decode_list by done. cbn [length Nat.eqb]. unfold decodeShort.
  assert (Hfl : fits (encode_all l)) by (apply fits_app in Hf as [Hf _]; cbn [encode] in Hf; by apply (proj2 (fits_app _ _ Hf))).
  change (encode_all l) with (encode (RString (hexToCompact k)) ++ encode (tref c) ++ []) in *. rewrite SplitString_item by done.
  cbn [of_rlp mbind decoded_mbind]. rewrite compact_hex by by eapply wf_key. rewrite loaded_short.
  assert (Hfc : fits (encode (tref c) ++ [])) by by apply (proj2 (fits_app _ _ Hfl)).
  apply wf_short_inv in Hw as [(ns & v & -> & -> & Hp & Hv)|(cs & -> & Hp & Hk & Hwc)].
  - rewrite hasTerm_key. change (tref (TVal v)) with (RString v) in *. by rewrite SplitString_item.
  - rewrite hasTerm_path by done. rewrite decodeRef_tref; [done|done|done| |done].
    intros _ Hs. apply IH; [done| |rewrite tref_branch in Hfc by done; by destruct (Nat.ltb_spec (length (tenc (TFull cs))) 32); [|lia]].
    assert (length (tenc (TFull cs)) < length (encode (RList l)))%nat; [|lia].
    apply tref_shorter; [done|apply list_elem_of_further, list_elem_of_here|done].
Qed.

Lemma decodes_full cs : wf (TFull cs) -> (forall c, c ∈ cs -> wf c -> decodes c) -> decodes (TFull cs).
Proof.
  intros Hw IH fuel hash rest_ Hfuel Hf. assert (El : tenc (TFull cs) = encode (RList (tref <$> cs))) by done. rewrite El in *.
  destruct fuel as [|fuel]; [pose proof (encode_not_nil (RList (tref <$> cs))); destruct (encode (RList (tref <$> cs))); [done|simpl in Hfuel; lia]|].
  rewrite decode_list by done. rewrite length_fmap. inversion Hw as [| |? Hl Hlow Htop _]; subst. rewrite Hl. cbn [Nat.eqb].
  assert (Hfl : fits (encode_all (tref <$> cs))) by (apply fits_app in Hf as [Hf _]; cbn [encode] in Hf; by apply (proj2 (fits_app _ _ Hf))).
  destruct (lookup_lt_is_Some_2 cs 16) as [c16 H16]; [lia|].
  assert (Ecs : cs = take 16 cs ++ [c16]) by (rewrite <- (take_S_r _ _ _ H16), firstn_all2 by lia; done).
  assert (Hval : exists v, tref c16 = RString v /\ loaded_ref c16 = if (length v =? 0)%nat then nil_node else valueNode v).
  { destruct (decide (c16 = TNil)) as [->|Hn]; [by exists []|]. destruct (Htop c16 H16 Hn) as (v & Hv & ->). exists v. split; [done|]. by destruct v. }
  destruct Hval as (v & Ev & Ecv). rewrite loaded_full. rewrite Ecs in Hfl |- * at 1. rewrite fmap_app, encode_all_app in *.
  change (encode_all (tref <$> [c16])) with (encode (tref c16) ++ []) in *. rewrite Ev in *. unfold decodeFull.
  assert (Htk : forall c, c ∈ take 16 cs -> c <> TNil -> wf c).
  { intros c Hc Hn. apply list_elem_of_lookup in Hc as [i Hi]. apply lookup_take_Some in Hi as [Hi Hlt]. by apply (Hlow i). }
  rewrite decode_children_trefs; [|rewrite length_take; lia|done|done|].
  - cbn [mbind decoded_mbind]. rewrite SplitString_item by by apply (proj2 (fits_app _ _ Hfl)).
    cbn [of_rlp mbind decoded_mbind wrapError]. rewrite <- Ecv. do 2 f_equal. rewrite Ecs at 2. by rewrite fmap_app.
  - intros c Hc Hwc. assert (Hin : c ∈ cs) by (rewrite <- (take_drop 16 cs); apply elem_of_app; by left). split; [by apply IH|].
    intros Hs. assert (length (tenc c) < length (encode (RList (tref <$> cs))))%nat; [|lia].
    apply tref_shorter; [done| |done]. by apply list_elem_of_fmap_2.
Qed.

Lemma wf_decodes t : wf t -> decodes t.
Proof.
  intros Hw. assert (H : t <> TNil -> wf t -> decodes t); [|by apply H; [apply wf_not_nil|]]. revert t Hw.
  apply (wf_children (fun t => t <> TNil -> wf t -> decodes t)).
  - done.
  - intros v _ _ H. by inversion H.
  - intros k c Hw IH _ _. apply decodes_short; [done|]. intros Hc. apply IH; [by apply wf_not_nil|done].
  - intros cs Hw IH _ _. rewrite Forall_forall in IH. apply decodes_full; [done|]. intros c Hin Hc. apply IH; [done|by apply wf_not_nil|done].
Qed.

(** Decoding the encoding of a tree gives the node in memory. *)
Lemma decode_tenc t hash : wf t -> fits (tenc t) -> decodeNode hash (tenc t) = Decoded (loaded hash t).
Proof.
  intros Hw Hf. unfold decodeNode. rewrite <- (app_nil_r (tenc t)) at 2. apply wf_decodes; [done|lia|by rewrite app_nil_r].
Qed.
End store.

(** ** A database that has the nodes of a tree *)

Section in_store.
Context {CR : Crypto}.

Section db.
Context (db_node : Hash -> outcome (option node)).

Definition in_db (t : tree) : Prop := db_node (BytesToHash (Keccak256 (tenc t))) = Ret (Some (loaded (Some (Keccak256 (tenc t))) t)).

(** The hashed nodes below a node are in the database. *)
Inductive below_in_db : tree -> Prop :=
| below_nil : below_in_db TNil
| below_val v : below_in_db (TVal v)
| below_short_ k c : (wf c -> ~ small c -> in_db c) -> below_in_db c -> below_in_db (TShort k c)
| below_full_ cs :
    (forall i c, cs !! i = Some c -> wf c -> ~ small c -> in_db c) -> (forall i c, cs !! i = Some c -> below_in_db c) ->
    below_in_db (TFull cs).

Definition stored (t : tree) : Prop := in_db t /\ below_in_db t.

#[local] Instance db_store : Store := HashStore stored.

Lemma loaded_ref_srep c :
  (wf c \/ c = TNil \/ exists v, c = TVal v) -> below_in_db c -> (wf c -> ~ small c -> in_db c) ->
  (wf c -> small c -> srep true false (loaded None c) c) -> srep true false (loaded_ref c) c.
Proof.
  intros Hw Hb Hin IH. destruct Hw as [Hw|[->|[v ->]]]; [|constructor..].
  assert (Hlr : loaded_ref c = if (length (tenc c) <? 32)%nat then loaded None c else hashNode (Keccak256 (tenc c))) by by destruct Hw.
  rewrite Hlr. destruct (Nat.ltb_spec (length (tenc c)) 32) as [Hs|Hs]; [by apply IH|].
  assert (Hns : ~ small c) by (unfold small; lia). constructor. split_and!; [done|done|split; [by apply Hin|done]].
Qed.

Lemma flag_small c : small c -> hash_flag_ok stored true false (mkNodeFlag None false) c.
Proof. by split. Qed.

(** A node loaded from the database stands for its tree. *)
Lemma loaded_srep t :
  wf t -> forall top hash, below_in_db t -> hash_flag_ok stored true top (mkNodeFlag hash false) t -> srep true top (loaded hash t) t.
Proof.
  apply (wf_children (fun t => forall top hash, below_in_db t -> hash_flag_ok stored true top (mkNodeFlag hash false) t -> srep true top (loaded hash t) t)).
  - intros. constructor.
  - intros. constructor.
  - intros k c Hw IH top hash Hb Hfl. inversion Hb as [| |? ? Hin Hbc|]; subst. rewrite loaded_short. constructor; [done|].
    apply loaded_ref_srep; [|done|done|intros _ Hs; apply IH; [done|by apply flag_small]].
    apply wf_short_inv in Hw as [(ns & v & _ & -> & _)|(cs & -> & _ & _ & Hf)]; [right; right; by exists v|by left].
  - intros cs Hw IH top hash Hb Hfl. inversion Hb as [| | |? Hin Hbc]; subst. rewrite loaded_full. constructor; [done|by rewrite length_fmap|].
    intros i n c Hn Hc. rewrite list_lookup_fmap, Hc in Hn. injection Hn as <-. rewrite Forall_lookup in IH.
    apply loaded_ref_srep; [|by eapply Hbc|by eapply Hin|intros _ Hs; apply (IH i c Hc); [by eapply Hbc|by apply flag_small]].
    inversion Hw as [| |? Hl Hlow Htop _]; subst. apply lookup_lt_Some in Hc as Hlt. destruct (decide (c = TNil)) as [->|Hnil]; [by right; left|].
    destruct (decide (i = 16%nat)) as [->|Hne]; [|left; apply (Hlow i); auto with lia].
    destruct (Htop c Hc Hnil) as (v & _ & ->). right; right. by exists v.
Qed.

#[export] Instance db_store_ok : StoreOk db_node.
Proof.
  split.
  - intros top t. split; [done|]. by intros _ [?|?].
  - intros top fl t [H1 H2]. split; [done|]. intros Hn [?|Hd]; [done|]. apply H2; [done|by right].
  - by intros top h t [Hw _].
  - intros top h t (Hw & [-> Hbig] & [Hin Hb]). exists (loaded (Some (Keccak256 (tenc t))) t). split_and!; [done|by destruct Hw|].
    apply loaded_srep; [done..|]. split; [|done]. by intros h [= <-].
Qed.
End db.

(** ** More nodes in the database *)

(** Every node of the first database is read from the second. *)
Definition reads (db1 db2 : Hash -> outcome (option node)) : Prop := forall h n, db1 h = Ret (Some n) -> db2 h = Ret (Some n).

#[export] Instance reads_preorder : PreOrder reads.
Proof. split; [by intros db h n|]. intros db1 db2 db3 H12 H23 h n H. by apply H23, H12. Qed.

Lemma stored_mono db1 db2 t : reads db1 db2 -> stored db1 t -> stored db2 t.
Proof.
  intros H [Hin Hb]. split; [by apply H|]. clear Hin. induction Hb as [| |k c Hin Hb IH|cs Hin Hb IH]; constructor; try done.
  - intros Hw Hs. by apply H, Hin.
  - intros i c Hc Hw Hs. apply H. by eapply Hin.
Qed.

Lemma srep_mono st1 st2 s top n t :
  (forall t, st1 t -> st2 t) -> @srep (HashStore st1) s top n t -> @srep (HashStore st2) s top n t.
Proof.
  intros H. assert (Hf : forall s top fl t, hash_flag_ok st1 s top fl t -> hash_flag_ok st2 s top fl t).
  { intros s' top' fl t' [H1 H2]. split; [|done]. intros h E. destruct (H1 h E). auto. }
  induction 1 as [| |s top k c fl t Hfl Hc IH|s top cs fl ts Hfl Hl Hc IH|s top h t (Hw & Hh & Hs)]; constructor; try done.
  - by apply Hf.
  - by apply Hf.
  - split_and!; [done..|by apply H].
Qed.
End in_store.

(** * The contents of the trie database

    Every entry is the raw form of a tree, kept under its
    hash; inserting the node of a tree makes it readable and changes nothing else. *)

Section db.
Context {CR : Crypto} {KO : KeccakOk}.

Definition thash (t : tree) : Hash := BytesToHash (Keccak256 (tenc t)).

(** ** Entries *)

Definition db_ok (db : Database) : Prop :=
  forall h e, db_dirties db !! h = Some e -> h <> 0 -> exists t, wf t /\ cn_node e = raw t /\ h = thash t /\ fits (tenc t).

(** What the database has under the hash of an encoding is that encoding. *)
Definition agrees (db : Database) (x : bytes) : Prop :=
  let h := BytesToHash (Keccak256 x) in
  h <> 0 /\ (forall e, db_dirties db !! h = Some e -> cn_rlp e = x) /\ (forall b, db_disk db !! h = Some b -> b = x).

(** The invariant, for a trie whose encodings are in [l]. *)
Definition db_inv (l : list bytes) (db : Database) : Prop :=
  db_ok db /\ (exists L, flush_ok db L) /\ forall x, x ∈ l -> agrees db x.

Lemma loaded_tenc hash t u : wf t -> wf u -> fits (tenc t) -> tenc t = tenc u -> loaded hash t = loaded hash u.
Proof.
  intros Ht Hu Hf E. pose proof (decode_tenc Keccak_length t hash Ht Hf) as H1. rewrite E in H1, Hf.
  rewrite (decode_tenc Keccak_length u hash Hu Hf) in H1. congruence.
Qed.

Lemma cn_rlp_raw e t : wf t -> cn_node e = raw t -> cn_rlp e = tenc t.
Proof. intros Hw E. unfold cn_rlp. by rewrite E, raw_item. Qed.

(** An entry with the encoding of a tree gives the node of the tree. *)
Lemma entry_in_db db e t :
  db_ok db -> wf t -> db_dirties db !! thash t = Some e -> thash t <> 0 -> cn_rlp e = tenc t -> in_db (db_node db) t.
Proof.
  intros Hok Hw He H0 Hr. destruct (Hok _ _ He H0) as (u & Hu & Hn & Hh & Hf). rewrite (cn_rlp_raw e u Hu Hn) in Hr.
  unfold in_db, db_node. fold (thash t). rewrite He. unfold cn_obj. rewrite Hn, expand_raw by done.
  cbn [mbind outcome_mbind outcome_bind]. unfold thash at 1. rewrite Hash_Bytes_Keccak. by rewrite (loaded_tenc _ u t).
Qed.

(** The encoding of a tree on disk gives it, too. *)
Lemma disk_in_db db t :
  wf t -> fits (tenc t) -> db_dirties db !! thash t = None -> db_disk db !! thash t = Some (tenc t) -> in_db (db_node db) t.
Proof.
  intros Hw Hf He Hd. unfold in_db, db_node. fold (thash t). rewrite He, Hd. unfold mustDecodeNode.
  rewrite (decode_tenc Keccak_length) by done. unfold thash. by rewrite Hash_Bytes_Keccak.
Qed.

(** What is read depends on the nodes of the entries and on the disk. *)
Lemma db_node_same db db' h :
  cn_node <$> db_dirties db' !! h = cn_node <$> db_dirties db !! h -> db_disk db' !! h = db_disk db !! h -> db_node db' h = db_node db h.
Proof.
  intros H Hd. unfold db_node, cn_obj. rewrite Hd. destruct (db_dirties db' !! h), (db_dirties db !! h); simplify_eq/=; [by rewrite H|done].
Qed.

Lemma cn_rlp_same e e' : cn_node e' = cn_node e -> cn_rlp e' = cn_rlp e.
Proof. intros H. unfold cn_rlp. by rewrite H. Qed.

(** Counting references keeps the invariant. *)
Lemma db_inv_same l db db' :
  same_nodes (db_dirties db) (db_dirties db') -> db_disk db' = db_disk db -> (exists L, flush_ok db' L) -> db_inv l db ->
  db_inv l db' /\ reads (db_node db) (db_node db').
Proof.
  intros Hs Hd HL (Hok & _ & Hag). assert (Hent : forall h e', db_dirties db' !! h = Some e' -> exists e, db_dirties db !! h = Some e /\ cn_node e' = cn_node e).
  { intros h e' He'. specialize (Hs h). rewrite He' in Hs. destruct (db_dirties db !! h) as [e|]; [|done]. exists e. by simplify_eq/=. }
  split; [split_and!; [|done|]|].
  - intros h e' He' H0. destruct (Hent h e' He') as (e & He & ->). by apply Hok.
  - intros x Hx. destruct (Hag x Hx) as (H0 & H1 & H2). split_and!; [done| |by rewrite Hd]. intros e' He'.
    destruct (Hent _ e' He') as (e & He & Hn). rewrite (cn_rlp_same e e' Hn). by apply H1.
  - intros h n Hn. rewrite (db_node_same db db' h (Hs h)); [done|by rewrite Hd].
Qed.

(** ** Insertion *)

Lemma gather_first_ok cs k :
  Forall (fun c => exists l, forGatherChildren (raw_ref c) = Ret l) cs -> exists l, gather_first forGatherChildren k (raw_ref <$> cs) = Ret l.
Proof.
  intros H. revert k. induction H as [|c cs [l E] _ IH]; intros k; [destruct k; by eexists|]. destruct k as [|k]; [by eexists|].
  rewrite fmap_cons. cbn [gather_first]. rewrite E. cbn [mbind outcome_mbind outcome_bind]. fold (gather_first forGatherChildren).
  destruct (IH k) as [l' ->]. by eexists.
Qed.

Lemma gather_raw_ref t :
  wf t -> (exists l, forGatherChildren (raw t) = Ret l) /\ exists l, forGatherChildren (raw_ref t) = Ret l.
Proof.
  revert t. apply (wf_children (fun t => (exists l, forGatherChildren (raw t) = Ret l) /\ exists l, forGatherChildren (raw_ref t) = Ret l)).
  - split; by eexists.
  - split; by eexists.
  - intros k c Hw [_ [l E]]. assert (H : exists l, forGatherChildren (raw (TShort k c)) = Ret l) by by exists l.
    split; [done|]. unfold raw_ref. destruct (length _ <? 32)%nat; [done|by eexists].
  - intros cs Hw IH. assert (H : exists l, forGatherChildren (raw (TFull cs)) = Ret l).
    { rewrite raw_full. apply gather_first_ok. eapply Forall_impl; [done|]. by intros c [_ ?]. }
    split; [done|]. unfold raw_ref. destruct (length _ <? 32)%nat; [done|by eexists].
Qed.

Lemma gather_raw t : wf t -> exists l, forGatherChildren (raw t) = Ret l.
Proof. intros Hw. by apply gather_raw_ref. Qed.

(** Inserting the collapsed node of a tree. *)
Lemma db_insert_spec l db t sz n :
  db_inv l db -> collision_free l -> tenc t ∈ l -> wf t -> simplifyNode n = Ret (raw t) ->
  exists db', db_insert (thash t) sz n db = Ret db' /\ db_inv l db' /\ reads (db_node db) (db_node db') /\ in_db (db_node db') t /\
    is_Some (db_dirties db' !! thash t).
Proof.
  intros Hinv Hcf Hin Hw Hs. pose proof Hinv as (Hok & [L HL] & Hag). destruct (Hag _ Hin) as (H0 & Hd & Hk). fold (thash t) in *.
  destruct Hcf as [Hinj Hfit]. destruct (Hfit _ Hin) as [_ Hf]. destruct (db_dirties db !! thash t) as [e|] eqn:Ee.
  { exists db. unfold db_insert. rewrite Ee. split_and!; [done..|by eapply entry_in_db; eauto|done]. }
  destruct (gather_raw t Hw) as [childs Hg].
  destruct (db_insert_flush db L (thash t) sz n (raw t) childs HL Ee H0 Hs Hg) as (db' & entry & d & -> & HL' & Hc & Hsn & Hen & Hdk).
  exists db'. assert (Hent : exists e', db_dirties db' !! thash t = Some e' /\ cn_node e' = raw t).
  { specialize (Hsn (thash t)). rewrite lookup_insert_eq in Hsn. destruct (db_dirties db' !! thash t) as [e'|]; simplify_eq/=. exists e'. split; congruence. }
  destruct Hent as (e' & He' & Hn').
  assert (Hold : forall h, h <> thash t -> cn_node <$> db_dirties db' !! h = cn_node <$> db_dirties db !! h).
  { intros h Hne. rewrite (Hsn h), lookup_insert_ne by done. by apply same_core_nodes. }
  assert (Hok' : db_ok db').
  { intros h e1 He1 Hh0. destruct (decide (h = thash t)) as [->|Hne]; [simplify_eq; by exists t|]. specialize (Hold h Hne). rewrite He1 in Hold.
    destruct (db_dirties db !! h) as [e0|] eqn:E0; simplify_eq/=. destruct (Hok h e0 E0 Hh0) as (u & ? & ? & ?). exists u. split_and!; [done|congruence|naive_solver..]. }
  split_and!; [done|split_and!; [done|by eexists|]| | |by eexists].
  - intros x Hx. destruct (Hag x Hx) as (Hx0 & Hx1 & Hx2). split_and!; [done| |by rewrite Hdk]. intros e1 He1.
    destruct (decide (BytesToHash (Keccak256 x) = thash t)) as [E|Hne].
    + rewrite E, He' in He1. injection He1 as <-. rewrite (cn_rlp_raw e' t Hw Hn'). apply Hinj; [done..|]. symmetry. by apply Keccak_hash_inj.
    + specialize (Hold _ Hne). rewrite He1 in Hold. destruct (db_dirties db !! BytesToHash (Keccak256 x)) as [e0|] eqn:E0; simplify_eq/=.
      rewrite (cn_rlp_same e0 e1) by congruence. by apply Hx1.
  - intros h m Hm. destruct (decide (h = thash t)) as [->|Hne].
    + assert (Hi : in_db (db_node db') t) by (eapply entry_in_db; eauto using cn_rlp_raw). rewrite <- Hm. rewrite Hi. symmetry.
      unfold db_node in Hm. rewrite Ee in Hm. destruct (db_disk db !! thash t) as [b|] eqn:Eb; [|done]. rewrite (Hk b eq_refl) in Eb.
      by apply disk_in_db.
    + rewrite (db_node_same db db' h (Hold h Hne)); [done|by rewrite Hdk].
  - eapply entry_in_db; eauto using cn_rlp_raw.
Qed.
End db.
