(* ===== verification/TrieCommitProps.v ===== *)
(** A trie that was committed can be opened again from its root hash, and holds the same map.

    The encodings of the trie must have different hashes, and what the database already has
    under these hashes must be these encodings.  The second part is about the shape of the
    nodes in memory. *)
From S2P Require Import Prelude KeyedList Common Rlp TrieEncoding TrieNode TrieDatabase TrieFlush Trie TrieSpec TrieProps TrieHash TrieCommit TrieStore.

Open Scope Z_scope.

Section commit.
Context {CR : Crypto} {KO : KeccakOk}.

(** A leaf callback that adds references and drops nothing. *)
Definition onleaf_ok (l : list bytes) (f : LeafCallback) : Prop :=
  forall v h db, db_inv l db -> is_Some (db_dirties db !! h) ->
    exists db', f v h db = Ret db' /\ db_inv l db' /\ reads (db_node db) (db_node db').

Section spec.
Context (onleaf : option LeafCallback) (l : list bytes) (Hl : collision_free l).
Context (Hleaf : forall f, onleaf = Some f -> onleaf_ok l f).
(** what the nodes of the trie may be clean copies of *)
Context (st : tree -> Prop).

(** What a committed subtree is replaced by, below a node. *)
Definition ref_ok (t : tree) (r : node) (db : Database) : Prop :=
  simplifyNode r = Ret (raw_ref t) /\ is_nil r = false /\ (exists s, estimateSize r = Ret s) /\
  (wf t -> ~ small t -> in_db (db_node db) t) /\ below_in_db (db_node db) t.

Definition committed (top : bool) (t : tree) (r : node) (db : Database) : Prop :=
  below_in_db (db_node db) t /\
  if top then r = hashNode (Keccak256 (tenc t)) /\ in_db (db_node db) t else ref_ok t r db.

Definition commits (top : bool) (n : node) (t : tree) : Prop :=
  forall db, db_inv l db -> (forall t, st t -> stored (db_node db) t) -> (forall x, x ∈ tencs t -> x ∈ l) ->
  exists r db', ct_commit onleaf n db = Ret (r, db') /\ db_inv l db' /\ reads (db_node db) (db_node db') /\ committed top t r db'.

Lemma raw_ref_branch t : wf t -> raw_ref t = if (length (tenc t) <? 32)%nat then raw t else hashNode (Keccak256 (tenc t)).
Proof. by destruct 1. Qed.

Lemma committed_hash top t db :
  wf t -> (top = false -> ~ small t) -> in_db (db_node db) t -> below_in_db (db_node db) t ->
  committed top t (hashNode (Keccak256 (tenc t))) db.
Proof.
  intros Hw Hs Hi Hb. split; [done|]. destruct top; [done|]. split_and!; try done; [|by eexists].
  rewrite raw_ref_branch by done. specialize (Hs eq_refl). unfold small in Hs. by destruct (Nat.ltb_spec (length (tenc t)) 32).
Qed.

Lemma in_db_mono db db' t : reads (db_node db) (db_node db') -> in_db (db_node db) t -> in_db (db_node db') t.
Proof. intros H Hi. by apply H. Qed.

Lemma below_mono db db' t : reads (db_node db) (db_node db') -> below_in_db (db_node db) t -> below_in_db (db_node db') t.
Proof.
  intros H. induction 1 as [| |k c Hin Hb IH|cs Hin Hb IH]; constructor; try done.
  - intros Hw Hs. by apply H, Hin.
  - intros i c Hc Hw Hs. apply H. by eapply Hin.
Qed.

Lemma ref_ok_mono db db' t r : reads (db_node db) (db_node db') -> ref_ok t r db -> ref_ok t r db'.
Proof. intros H (H1 & H2 & H3 & H4 & H5). split_and!; [done..|by intros ??; eapply in_db_mono; auto|by eapply below_mono]. Qed.

Lemma stored_trans db db' : reads (db_node db) (db_node db') -> (forall t, st t -> stored (db_node db) t) -> forall t, st t -> stored (db_node db') t.
Proof. intros H Hs t Ht. eapply stored_mono; [done|auto]. Qed.

(** The callback on a collapsed node. *)
Lemma call_onleaf_ok n h db :
  db_inv l db -> is_Some (db_dirties db !! h) ->
  (forall cs fl c, n = fullNode cs fl -> cs !! 16%nat = Some c -> c = nil_node \/ exists v, c = valueNode v) ->
  exists db', call_onleaf onleaf n h db = Ret db' /\ db_inv l db' /\ reads (db_node db) (db_node db').
Proof.
  intros Hi He Hn. unfold call_onleaf. destruct onleaf as [f|] eqn:Ef; [|by exists db]. specialize (Hleaf f eq_refl).
  destruct n as [|cs fl|k v fl| | | |]; try by exists db.
  - destruct (cs !! 16%nat) as [c|] eqn:Ec; [|by exists db]. destruct (Hn cs fl c eq_refl Ec) as [->|[v ->]]; [by exists db|by apply Hleaf].
  - destruct v; try by exists db. by apply Hleaf.
Qed.

(** Storing a collapsed node. *)
Lemma store_ok top t n fl db sz :
  db_inv l db -> wf t -> hash_flag_ok st true top fl t -> simplifyNode n = Ret (raw t) -> is_nil n = false -> estimateSize n = Ret sz ->
  below_in_db (db_node db) t -> tenc t ∈ l ->
  (forall cs fl c, n = fullNode cs fl -> cs !! 16%nat = Some c -> c = nil_node \/ exists v, c = valueNode v) ->
  exists r db', ct_store onleaf n fl db = Ret (r, db') /\ db_inv l db' /\ reads (db_node db) (db_node db') /\ committed top t r db'.
Proof.
  intros Hi Hw [Hf1 Hf2] Hs Hnil Hsz Hb Hin H16. unfold ct_store. destruct (nf_hash fl) as [h|] eqn:Eh.
  - destruct (Hf1 h eq_refl) as [[-> Hbig] _]. rewrite Hsz. cbn [mbind outcome_mbind outcome_bind]. fold (thash t).
    destruct (db_insert_spec l db t sz n Hi Hl Hin Hw Hs) as (db1 & -> & Hi1 & Hr1 & Hin1 & He1). cbn [mbind outcome_mbind outcome_bind].
    destruct (call_onleaf_ok n (thash t) db1 Hi1 He1 H16) as (db2 & -> & Hi2 & Hr2). cbn [mbind outcome_mbind outcome_bind].
    eexists _, db2. split_and!; [done|done|by etransitivity|]. apply committed_hash; [done..|by eapply in_db_mono|].
    eapply below_mono; [|done]. by etransitivity.
  - destruct (Hf2 eq_refl (or_introl eq_refl)) as [-> Hsm]. exists n, db. split_and!; [done..|]. split; [done|]. split_and!; try done; [|by eexists].
    rewrite raw_ref_branch by done. unfold small in Hsm. by destruct (Nat.ltb_spec (length (tenc t)) 32); [|lia].
Qed.

(** ** The children *)

Definition child_ok (t : tree) (r : node) (db : Database) : Prop := (t = TNil /\ r = nil_node) \/ (t <> TNil /\ ref_ok t r db).

Lemma child_ok_mono db db' t r : reads (db_node db) (db_node db') -> child_ok t r db -> child_ok t r db'.
Proof. intros H [?|[Hn Hr]]; [by left|right; split; [done|by eapply ref_ok_mono]]. Qed.

Lemma value_ok v db : ref_ok (TVal v) (valueNode v) db.
Proof. split_and!; [done..|by eexists|by intros H; inversion H|constructor]. Qed.

Lemma committed_ref t r db : committed false t r db -> ref_ok t r db.
Proof. by intros [_ ?]. Qed.

#[local] Instance commit_store : Store := HashStore st.

(** One child of a full node. *)
Lemma commit_one s low c t db :
  srep s false c t -> (wf t -> commits false c t) -> (t <> TNil -> if (low : bool) then wf t else exists v, t = TVal v) ->
  db_inv l db -> (forall t, st t -> stored (db_node db) t) -> (forall x, x ∈ tencs t -> x ∈ l) ->
  exists r db', (if low then match c with nil_node | hashNode _ => Ret (c, db) | _ => ct_commit onleaf c db end else Ret (c, db)) = Ret (r, db') /\
    db_inv l db' /\ reads (db_node db) (db_node db') /\ child_ok t r db' /\ (low = false -> r = nil_node \/ exists v, r = valueNode v).
Proof.
  intros Hr IH Hw Hi Hst Hin. destruct (decide (t = TNil)) as [->|Hn].
  - inversion Hr as [| | | |? ? ? ? [Hwf _]]; subst; [|by inversion Hwf]. exists nil_node, db.
    split_and!; [by destruct low|done|done|by left|by left].
  - specialize (Hw Hn). destruct low.
    + destruct (IH Hw db Hi Hst Hin) as (r & db' & E & Hi' & Hr' & Hc). exists r, db'. split_and!; [|done|done|right; split; [done|by apply committed_ref]|done].
      rewrite <- E. inversion Hr as [| | | |? ? h ? Hh]; subst; [by inversion Hw|done..].
    + destruct Hw as [v ->]. inversion Hr as [| | | |? ? ? ? [Hwf _]]; subst; [|by inversion Hwf]. exists (valueNode v), db.
      split_and!; [done..|right; split; [done|apply value_ok]|]. intros _. right. by exists v.
Qed.

Lemma commit_children_cons k c cs db :
  commit_children (ct_commit onleaf) k (c :: cs) db =
  '(r, db) ← (if (0 <? k)%nat then match c with nil_node | hashNode _ => Ret (c, db) | _ => ct_commit onleaf c db end else Ret (c, db));
  '(rs, db) ← commit_children (ct_commit onleaf) (k - 1) cs db; Ret (r :: rs, db).
Proof. destruct k as [|k]; [by destruct cs|]. cbn [commit_children Nat.ltb Nat.leb]. by rewrite Nat.sub_succ, Nat.sub_0_r. Qed.

Lemma commit_children_ok s k cs ts db :
  length cs = length ts ->
  (forall i c t, cs !! i = Some c -> ts !! i = Some t -> srep s false c t) ->
  (forall i c t, cs !! i = Some c -> ts !! i = Some t -> wf t -> commits false c t) ->
  (forall i t, ts !! i = Some t -> t <> TNil -> if (i <? k)%nat then wf t else exists v, t = TVal v) ->
  db_inv l db -> (forall t, st t -> stored (db_node db) t) -> (forall t x, t ∈ ts -> x ∈ tencs t -> x ∈ l) ->
  exists rs db', commit_children (ct_commit onleaf) k cs db = Ret (rs, db') /\ db_inv l db' /\ reads (db_node db) (db_node db') /\
    Forall2 (fun t r => child_ok t r db') ts rs /\ (forall i r, rs !! i = Some r -> (k <= i)%nat -> r = nil_node \/ exists v, r = valueNode v).
Proof.
  revert k ts db. induction cs as [|c cs IHcs]; intros k [|t ts] db Hlen Hr IH Hw Hi Hst Hin; try done.
  { exists [], db. split_and!; [by destruct k|done|done|constructor|done]. }
  rewrite commit_children_cons.
  destruct (commit_one s (0 <? k)%nat c t db) as (r & db1 & -> & Hi1 & Hr1 & Hc1 & Hv1);
    [by apply (Hr 0%nat)|by apply (IH 0%nat)|by apply (Hw 0%nat)|done|done|intros x; apply Hin; by left|].
  cbn [mbind outcome_mbind outcome_bind]. destruct (IHcs (k - 1)%nat ts db1) as (rs & db2 & -> & Hi2 & Hr2 & Hc2 & Hv2).
  - simpl in Hlen. lia.
  - intros i. apply (Hr (S i)).
  - intros i. apply (IH (S i)).
  - intros i u Hu Hn. specialize (Hw (S i) u Hu Hn). destruct (Nat.ltb_spec (S i) k), (Nat.ltb_spec i (k - 1)); done || lia.
  - done.
  - by eapply stored_trans.
  - intros u x Hu. apply Hin. by right.
  - cbn [mbind outcome_mbind outcome_bind]. eexists _, db2. split_and!; [done|done|by etransitivity|constructor; [by eapply child_ok_mono|done]|].
    intros [|i] d Hd Hk; [|apply (Hv2 i); [done|lia]]. simplify_eq/=. apply Hv1. destruct (Nat.ltb_spec 0 k); [lia|done].
Qed.

Lemma simplify_children ts rs db :
  Forall2 (fun t r => child_ok t r db) ts rs ->
  mapM (fun c => match c with nil_node => Ret nil_node | _ => simplifyNode c end) rs = Ret (raw_ref <$> ts).
Proof.
  induction 1 as [|t r ts rs Hc _ IH]; [done|]. cbn [mapM]. rewrite fmap_cons.
  assert (E : match r with nil_node => Ret nil_node | _ => simplifyNode r end = Ret (raw_ref t)).
  { destruct Hc as [[-> ->]|(Hn & Hs & Hnil & _)]; [done|]. by destruct r. }
  rewrite E. cbn [mbind outcome_mbind outcome_bind]. by rewrite IH.
Qed.

Lemma estimate_children ts rs db k :
  Forall2 (fun t r => child_ok t r db) ts rs -> exists s, estimate_first estimateSize k rs = Ret s.
Proof.
  intros H. revert k. induction H as [|t r ts rs Hc _ IH]; intros k; [destruct k; by eexists|]. destruct k as [|k]; [by eexists|].
  cbn [estimate_first]. fold (estimate_first estimateSize).
  assert (E : exists s, match r with nil_node => Ret 1 | _ => estimateSize r end = Ret s).
  { destruct Hc as [[-> ->]|(Hn & Hs & Hnil & [s E] & _)]; [by eexists|]. exists s. by destruct r. }
  destruct E as [s ->]. cbn [mbind outcome_mbind outcome_bind]. destruct (IH k) as [s' ->]. by eexists.
Qed.

(** ** A node *)

(** A clean node with its hash is in the database. *)
Lemma commit_clean s top fl t h db :
  hash_flag_ok st s top fl t -> wf t -> clean_hash fl = Some h -> (forall t, st t -> stored (db_node db) t) ->
  h = Keccak256 (tenc t) /\ committed top t (hashNode h) db.
Proof.
  intros [Hf _] Hw Hc Hst. unfold clean_hash in Hc. destruct (nf_dirty fl) eqn:Ed; [done|]. destruct (Hf h Hc) as [[-> Hs] Hs'].
  split; [done|]. destruct (Hst t (Hs' eq_refl)). by apply committed_hash.
Qed.

Lemma commit_short top k c fl t :
  hash_flag_ok st true top fl (TShort k t) -> srep true false c t -> wf (TShort k t) -> (wf t -> commits false c t) ->
  commits top (shortNode k c fl) (TShort k t).
Proof.
  intros Hfl Hc Hw IH db Hi Hst Hin. cbn [ct_commit]. destruct (clean_hash fl) as [h|] eqn:Ec.
  { destruct (commit_clean _ _ _ _ _ db Hfl Hw Ec Hst) as [_ Hcm]. by eexists _, db. }
  assert (Hchild : exists r db', match c with fullNode _ _ => ct_commit onleaf c db | _ => Ret (c, db) end = Ret (r, db') /\
      db_inv l db' /\ reads (db_node db) (db_node db') /\ ref_ok t r db').
  { apply wf_short_inv in Hw as [(ns & v & -> & -> & _)|(cs & -> & _ & _ & Hf)].
    - inversion Hc as [| | | |? ? ? ? [Hwf _]]; subst; [|by inversion Hwf]. exists (valueNode v), db. split_and!; [done..|apply value_ok].
    - destruct (IH Hf db Hi Hst) as (r & db' & E & Hi' & Hr' & Hcm); [intros x Hx; apply Hin; by apply tencs_short|].
      exists r, db'. split_and!; [|done|done|by apply committed_ref]. rewrite <- E. by inversion Hc. }
  destruct Hchild as (r & db1 & -> & Hi1 & Hr1 & Hs1 & Hn1 & [sz Hsz] & Hin1 & Hb1). cbn [mbind outcome_mbind outcome_bind].
  destruct (store_ok top (TShort k t) (shortNode (hexToCompact k) r fl) fl db1 (3 + Z.of_nat (length (hexToCompact k)) + sz))
    as (r2 & db2 & -> & Hi2 & Hr2 & Hc2); try done.
  - cbn [simplifyNode]. by rewrite Hs1.
  - cbn [estimateSize]. by rewrite Hsz.
  - by constructor.
  - apply Hin. by left.
  - eexists _, db2. split_and!; [done|done|by etransitivity|done].
Qed.

Lemma commit_full top cs fl ts :
  hash_flag_ok st true top fl (TFull ts) -> length cs = length ts -> wf (TFull ts) ->
  (forall i c t, cs !! i = Some c -> ts !! i = Some t -> srep true false c t) ->
  (forall i c t, cs !! i = Some c -> ts !! i = Some t -> wf t -> commits false c t) ->
  commits top (fullNode cs fl) (TFull ts).
Proof.
  intros Hfl Hlen Hw Hc IH db Hi Hst Hin. cbn [ct_commit]. destruct (clean_hash fl) as [h|] eqn:Ec.
  { destruct (commit_clean _ _ _ _ _ db Hfl Hw Ec Hst) as [_ Hcm]. by eexists _, db. }
  destruct (commit_children_ok true 16 cs ts db) as (rs & db1 & -> & Hi1 & Hr1 & Hc1 & Hv1); try done.
  { intros i t Ht Hn. inversion Hw as [| |? Hlt Hlow Htop _]; subst. apply lookup_lt_Some in Ht as Hlt'.
    destruct (Nat.ltb_spec i 16); [by apply (Hlow i)|]. assert (i = 16%nat) as -> by lia. destruct (Htop t Ht Hn) as (v & _ & ->). by exists v. }
  { intros t x Ht Hx. apply Hin. apply list_elem_of_lookup in Ht as [i Hi']. by apply (tencs_child _ _ _ Hi'). }
  cbn [mbind outcome_mbind outcome_bind]. destruct (estimate_children ts rs db1 16 Hc1) as [sz Hsz].
  destruct (store_ok top (TFull ts) (fullNode rs fl) fl db1 sz) as (r2 & db2 & -> & Hi2 & Hr2 & Hc2); try done.
  - cbn [simplifyNode]. by rewrite (simplify_children ts rs db1 Hc1).
  - constructor.
    + intros i c Hci Hwc Hsm. destruct (Forall2_lookup_l _ _ _ _ _ Hc1 Hci) as (r & _ & [[-> _]|(_ & _ & _ & _ & Hx & _)]); [by inversion Hwc|by apply Hx].
    + intros i c Hci. destruct (Forall2_lookup_l _ _ _ _ _ Hc1 Hci) as (r & _ & [[-> _]|(_ & _ & _ & _ & _ & Hx)]); [constructor|done].
  - apply Hin. by left.
  - intros cs' fl' c [= <- <-] Hc16. by apply (Hv1 16%nat).
  - eexists _, db2. split_and!; [done|done|by etransitivity|done].
Qed.

Lemma commit_rep s top n t : srep s top n t -> s = true -> wf t -> commits top n t.
Proof.
  intros Hr. induction Hr as [| |s top k c fl t Hfl Hc IH|s top cs fl ts Hfl Hlen Hc IH|s top h t Hh]; intros -> Hw; [by inversion Hw..| | |].
  - apply commit_short; [exact Hfl|exact Hc|done|by apply IH].
  - apply commit_full; [exact Hfl|done|done|exact Hc|]. intros i c t Hci Hti. by eapply IH.
  - intros db Hi Hst Hin. destruct Hh as (_ & [-> Hs] & Hh). destruct (Hst t Hh). eexists _, db. split_and!; [done..|]. by apply committed_hash.
Qed.
End spec.

(** ** The trie *)

(** The trie [t] on the database [db] stands for the tree [tr] with the contents [m]. *)
Definition trie_at (db : Database) (t : Trie) (tr : tree) (m : byte_map) : Prop :=
  @srep (HashStore (stored (db_node db))) false true (t_root t) tr /\ wf_at false tr /\ contents tr m.

Lemma trie_at_empty db t tr m : trie_at db t tr m -> tr = TNil <-> m = ∅.
Proof.
  intros (_ & Hw & Hc). split; [intros ->; exact (contents_unique _ _ _ Hc contents_empty)|]. intros ->.
  destruct (decide (tr = TNil)) as [|Hn]; [done|]. destruct (wf_inhabited tr (Hw Hn)) as (key & v & Hk & Hl).
  by apply (proj2 Hc key v Hk) in Hl as (k & _ & _ & ?).
Qed.

Lemma trie_at_mono db db' t tr m : reads (db_node db) (db_node db') -> trie_at db t tr m -> trie_at db' t tr m.
Proof. intros H (Hr & Hw & Hc). split_and!; [|done..]. eapply srep_mono; [|done]. intros u. by apply stored_mono. Qed.

(** Opening a trie from the hash of a tree that is in the database. *)
Lemma open_stored db tr m :
  wf tr -> contents tr m -> stored (db_node db) tr -> thash tr <> 0 -> thash tr <> emptyRoot ->
  exists t, New (db_node db) (thash tr) = TRet t /\ trie_at db t tr m.
Proof.
  intros Hw Hc Hst H0 He. unfold New. destruct (Z.eqb_spec (thash tr) 0); [done|]. destruct (Z.eqb_spec (thash tr) emptyRoot); [done|]. simpl.
  unfold thash. rewrite Hash_Bytes_Keccak. set (hs := HashStore (stored (db_node db))).
  assert (Hh : @held hs true (Keccak256 (tenc tr)) tr) by by split_and!.
  destruct (@held_resolve hs (db_node db) _ false true (Keccak256 (tenc tr)) tr [] Hh) as (_ & rn & -> & _ & Hr).
  eexists. split; [done|]. split_and!; [exact Hr|by intros _|done].
Qed.

Lemma node_cache_settled st n tr :
  @srep (HashStore st) true true n tr -> wf tr ->
  exists h dirty, node_cache n = Ret (h, dirty) /\ (dirty = false -> st tr).
Proof.
  intros Hr Hw. inversion Hr as [| |? ? k c fl t [H1 H2]|? ? cs fl ts [H1 H2]|? ? h ? Hh]; subst; [by inversion Hw..| | |].
  - destruct (nf_hash fl) as [h|] eqn:Eh; [|by destruct (H2 eq_refl (or_introl eq_refl))]. destruct (H1 h eq_refl) as [_ Hs].
    eexists _, _. split; [done|]. done.
  - destruct (nf_hash fl) as [h|] eqn:Eh; [|by destruct (H2 eq_refl (or_introl eq_refl))]. destruct (H1 h eq_refl) as [_ Hs].
    eexists _, _. split; [done|]. done.
  - eexists _, _. split; [done|]. done.
Qed.

Lemma Trie_Commit_stored onleaf db t tr m :
  trie_at db t tr m -> tr <> TNil -> collision_free (tencs tr) -> db_inv (tencs tr) db ->
  (forall f, onleaf = Some f -> onleaf_ok (tencs tr) f) ->
  exists t' db', Trie_Commit onleaf t db = Ret (troot tr, t', db') /\ db_inv (tencs tr) db' /\ stored (db_node db') tr /\
    reads (db_node db) (db_node db') /\ trie_at db' t' tr m.
Proof.
  intros (Hr & Hw & Hc) Hn Hcf Hinv Hleaf. specialize (Hw Hn). simpl in Hw.
  destruct (Trie_Hash_rep _ t tr Hr (fun _ => Hw)) as (t1 & E1 & Hs1).
  assert (Hdone : exists t' db', ('(rootHash, t) ← Trie_Hash t; '(_, dirty) ← node_cache (t_root t);
      if (dirty : bool) then '(newRoot, db) ← ct_Commit onleaf (t_root t) db; Ret (rootHash, mkTrie (hashNode newRoot) (t_unhashed t), db)
      else Ret (rootHash, t, db)) = Ret (troot tr, t', db') /\ db_inv (tencs tr) db' /\ stored (db_node db') tr /\
      reads (db_node db) (db_node db') /\ trie_at db' t' tr m).
  { rewrite E1. cbn [mbind outcome_mbind outcome_bind]. destruct (node_cache_settled _ _ _ Hs1 Hw) as (h & dirty & -> & Hd).
    cbn [mbind outcome_mbind outcome_bind]. destruct dirty.
    - destruct (commit_rep onleaf (tencs tr) Hcf Hleaf _ true true (t_root t1) tr Hs1 eq_refl Hw db Hinv (fun u Hu => Hu) (fun x Hx => Hx))
        as (r & db' & Ec & Hi' & Hr' & Hb & -> & Hin). unfold ct_Commit. rewrite Ec. cbn [mbind outcome_mbind outcome_bind].
      eexists _, db'. split; [done|]. split; [done|]. split; [by split|]. split; [done|].
      split_and!; [|by intros _|done]. constructor. split; [done|]. by split.
    - eexists t1, db. split; [done|]. split; [done|]. split; [by apply Hd|]. split; [done|]. split_and!; [|by intros _|done].
      by apply (@srep_weaken (HashStore (stored (db_node db))) (db_node db) _ true). }
  assert (Ht : t_root t <> nil_node) by (intros E; rewrite E in Hr; inversion Hr; by subst).
  destruct Hdone as (t' & db' & E & H). exists t', db'. split; [|done]. unfold Trie_Commit. by destruct (t_root t).
Qed.

Lemma Trie_Commit_rep onleaf db t tr m :
  trie_at db t tr m -> collision_free (tencs tr) -> db_inv (tencs tr) db ->
  (forall f, onleaf = Some f -> onleaf_ok (tencs tr) f) ->
  exists t' db' t'', Trie_Commit onleaf t db = Ret (troot tr, t', db') /\ db_inv (tencs tr) db' /\ reads (db_node db) (db_node db') /\
    trie_at db' t' tr m /\ New (db_node db') (troot tr) = TRet t'' /\ trie_at db' t'' tr m.
Proof.
  intros Hat Hcf Hinv Hleaf. pose proof Hat as (Hr & Hw & Hc). destruct (decide (tr = TNil)) as [->|Hn].
  - assert (Hroot : t_root t = nil_node) by (inversion Hr as [| | | |? ? ? ? [Hwf _]]; [done|by inversion Hwf]). unfold Trie_Commit. rewrite Hroot.
    exists t, db, (mkTrie nil_node 0). split_and!; try done. split_and!; [constructor|done..].
  - destruct (Trie_Commit_stored onleaf db t tr m Hat Hn Hcf Hinv Hleaf) as (t' & db' & E & Hi' & Hst & Hr' & Hat'). specialize (Hw Hn). simpl in Hw.
    assert (Htr : troot tr = thash tr) by by destruct tr. pose proof (tencs_self tr Hw) as Hself.
    assert (Hne : thash tr <> 0 /\ thash tr <> emptyRoot).
    { destruct Hinv as (_ & _ & Hag), Hcf as [_ Hcf]. split; [by apply (Hag (tenc tr))|by apply (Hcf (tenc tr))]. } destruct Hne as [H0 He].
    destruct (open_stored db' tr m Hw Hc Hst H0 He) as (t'' & En & Hat''). rewrite Htr in *. exists t', db', t''. by split_and!.
Qed.

(** The references of [StateDB.Commit]: from the node of an account to the root of its
    storage trie. *)
Lemma reference_onleaf_ok l (root : bytes -> option Hash) :
  onleaf_ok l (fun v h db => match root v with Some r => db_reference r h db | None => Ret db end).
Proof.
  intros v h db Hi [p Hp]. destruct (root v) as [r|]; [|by exists db]. unfold db_reference.
  destruct (db_dirties db !! r) as [e|] eqn:Er; [|by exists db]. rewrite Hp. destruct (_ && _); [by exists db|].
  rewrite (upd_some r _ _ e) by done. cbn [mbind outcome_mbind outcome_bind].
  set (d1 := <[r := set_parents ((cn_parents e + 1) mod 2 ^ 32) e]> (db_dirties db)).
  assert (C1 : same_core (db_dirties db) d1) by by apply (same_core_insert _ _ e).
  assert (Hp1 : exists p1, d1 !! h = Some p1 /\ core p1 = core p).
  { specialize (C1 h). rewrite Hp in C1. destruct (d1 !! h) as [p1|]; [|done]. exists p1. split; [done|]. by apply Some_inj in C1. }
  destruct Hp1 as (p1 & Hp1 & Hcp). erewrite (upd_some h) by exact Hp1. cbn [mbind outcome_mbind outcome_bind].
  eexists. split; [done|]. set (d2 := <[h := _]> _).
  assert (C2 : same_core (db_dirties db) d2).
  { intros x. unfold d2. simpl. rewrite <- (C1 x). by apply (same_core_insert _ _ p1). }
  apply (db_inv_same l db); [by apply same_core_nodes|done| |done].
  destruct Hi as (_ & [L (N1 & N2 & N3 & N4 & N5 & N6)] & _). exists L. split_and!; [done..| |done|done|].
  - intros x. simpl. rewrite (same_nodes_dom _ _ x (same_core_nodes _ _ C2)). apply N3.
  - simpl. eapply linked_frame; [|exact N6]. intros x _. by apply same_core_links.
Qed.
End commit.

(** * The shape of the nodes in memory

    It is as the comments in [trie/trie.go] describe it: a short
    node is a leaf or leads to a branch, never to another short node, and a branch has at least two
    children. *)

Definition is_nibble (x : Z) : bool := (0 <=? x) && (x <? 16).

Definition is_value (n : node) : bool := match n with valueNode (_ :: _) => true | _ => false end.

Fixpoint well_shaped (n : node) : bool :=
  match n with
  | shortNode k c _ =>
      if hasTerm k then forallb is_nibble (take (length k - 1) k) && is_value c
      else negb (length k =? 0)%nat && forallb is_nibble k && match c with fullNode _ _ | hashNode _ => well_shaped c | _ => false end
  | fullNode cs _ =>
      (length cs =? 17)%nat && forallb (fun c => is_nil c || is_value c || well_shaped c) cs &&
      forallb (fun c => negb (is_value c)) (take 16 cs) && forallb (fun c => is_nil c || is_value c) (drop 16 cs) &&
      (2 <=? length (filter (fun c => is_nil c = false) cs))%nat
  | hashNode h => (length h =? 32)%nat
  | nil_node | valueNode _ | rawFullNode _ | rawShortNode _ _ => false
  end.

Lemma is_nibble_path k : path_ok k -> forallb is_nibble k = true.
Proof. intros H. apply forallb_forall. intros x Hx%list_elem_of_In. unfold path_ok in H. rewrite Forall_forall in H. destruct (H x Hx). unfold is_nibble. lia. Qed.

Lemma two_before (cs : list node) i j c d :
  (i < j)%nat -> cs !! i = Some c -> cs !! j = Some d -> is_nil c = false -> is_nil d = false ->
  (2 <= length (filter (fun c => is_nil c = false) cs))%nat.
Proof.
  intros Hlt Hi Hj Hc Hd. rewrite <- (take_drop j cs), filter_app, length_app.
  assert (H1 : c ∈ filter (fun c => is_nil c = false) (take j cs)).
  { apply list_elem_of_filter. split; [done|]. apply list_elem_of_lookup. exists i. by rewrite lookup_take_lt. }
  assert (H2 : d ∈ filter (fun c => is_nil c = false) (drop j cs)).
  { apply list_elem_of_filter. split; [done|]. apply list_elem_of_lookup. exists 0%nat. by rewrite lookup_drop, Nat.add_0_r. }
  destruct (filter _ (take j cs)); [by apply elem_of_nil in H1|]. destruct (filter _ (drop j cs)); [by apply elem_of_nil in H2|]. simpl. lia.
Qed.

Lemma two_children (cs : list node) i j c d :
  i <> j -> cs !! i = Some c -> cs !! j = Some d -> is_nil c = false -> is_nil d = false ->
  (2 <= length (filter (fun c => is_nil c = false) cs))%nat.
Proof.
  intros Hij Hi Hj Hc Hd. destruct (decide (i < j)%nat); [by apply (two_before cs i j c d)|]. apply (two_before cs j i d c); [lia|done..].
Qed.

Lemma forallb_lookup {A} (f : A -> bool) (l : list A) : (forall i x, l !! i = Some x -> f x = true) -> forallb f l = true.
Proof. intros H. apply forallb_forall. intros x Hx%list_elem_of_In%list_elem_of_lookup. destruct Hx as [i Hi]. by eapply H. Qed.

(** A branch, from what holds of its children. *)
Lemma full_shape cs fl :
  length cs = 17%nat -> (forall i c, cs !! i = Some c -> (i < 16)%nat -> is_nil c = true \/ well_shaped c = true) ->
  (forall c, cs !! 16%nat = Some c -> is_nil c = true \/ is_value c = true) ->
  (2 <= length (filter (fun c => is_nil c = false) cs))%nat -> well_shaped (fullNode cs fl) = true.
Proof.
  intros Hl Hlo Hhi H2. cbn [well_shaped]. rewrite Hl. rewrite !andb_true_iff. split_and!; [done| | | |by apply Nat.leb_le].
  - apply forallb_lookup. intros i c Hi. pose proof (lookup_lt_Some _ _ _ Hi). destruct (decide (i = 16%nat)) as [->|Hne].
    + destruct (Hhi c Hi) as [-> | ->]; [done|]. by rewrite orb_true_r.
    + destruct (Hlo i c Hi ltac:(lia)) as [-> | ->]; [done|]. by rewrite !orb_true_r.
  - apply forallb_lookup. intros i c Hi. apply lookup_take_Some in Hi as [Hi Hlt]. destruct (Hlo i c Hi Hlt) as [Hc|Hc]; by destruct c.
  - apply forallb_lookup. intros i c Hi. rewrite lookup_drop in Hi. pose proof (lookup_lt_Some _ _ _ Hi). replace (16 + i)%nat with 16%nat in Hi by lia.
    destruct (Hhi c Hi) as [-> | ->]; [done|]. by rewrite orb_true_r.
Qed.

Section shape.
Context {CR : Crypto} {KO : KeccakOk} (st : tree -> Prop).
#[local] Instance shape_store : Store := HashStore st.

Lemma rep_nil_iff s top n t : srep s top n t -> is_nil n = true <-> t = TNil.
Proof.
  intros H. inversion H as [| | | |? ? ? ? [Hw _]]; subst; try done. split; [done|]. intros ->. by inversion Hw.
Qed.

Lemma srep_shape s top n t : srep s top n t -> wf t -> well_shaped n = true.
Proof.
  induction 1 as [| |s top k c fl t Hfl Hc IH|s top cs fl ts Hfl Hl Hc IH|s top h t (Hw & [-> _] & _)]; intros Hwf; [by inversion Hwf|by inversion Hwf| | |].
  - cbn [well_shaped]. apply wf_short_inv in Hwf as [(ns & v & -> & -> & Hp & Hv)|(us & -> & Hp & Hne & Hf)].
    + inversion Hc as [| | | |? ? ? ? [Hwf _]]; subst; [|by inversion Hwf]. rewrite hasTerm_key. rewrite length_app. simpl.
      rewrite Nat.add_sub, take_app_length, is_nibble_path by done. by destruct v.
    + rewrite hasTerm_path, is_nibble_path by done. destruct k; [done|]. simpl length.
      specialize (IH Hf). inversion Hc; subst; done.
  - inversion Hwf as [| |? Hlen Hlow Htop (i & j & c & d & Hij & Hi & Hj & Hci & Hdj)]; subst.
    assert (Hn : forall i t, ts !! i = Some t -> t <> TNil -> exists c, cs !! i = Some c /\ is_nil c = false).
    { intros i0 t Ht Hne. destruct (lookup_lt_is_Some_2 cs i0) as [c0 Ec]; [rewrite Hl; by eapply lookup_lt_Some|]. exists c0. split; [done|].
      apply not_true_iff_false. intros E. by apply (rep_nil_iff _ _ _ _ (Hc i0 c0 t Ec Ht)) in E. }
    apply full_shape; [congruence| | |].
    + intros i0 c0 Hi0 Hlt. destruct (lookup_lt_is_Some_2 ts i0) as [t Ht]; [lia|]. destruct (decide (t = TNil)) as [->|Hnil].
      * left. by apply (rep_nil_iff _ _ _ _ (Hc i0 c0 TNil Hi0 Ht)).
      * right. apply (IH i0 c0 t Hi0 Ht). by apply (Hlow i0).
    + intros c0 Hi0. destruct (lookup_lt_is_Some_2 ts 16) as [t Ht]; [lia|]. destruct (decide (t = TNil)) as [->|Hnil].
      * left. by apply (rep_nil_iff _ _ _ _ (Hc _ c0 TNil Hi0 Ht)).
      * destruct (Htop t Ht Hnil) as (v & Hv & ->). right. pose proof (Hc _ c0 _ Hi0 Ht) as Hr. inversion Hr as [| | | |? ? ? ? [Hwf' _]]; subst; [by destruct v|by inversion Hwf'].
    + destruct (Hn i c Hi Hci) as (c1 & E1 & N1), (Hn j d Hj Hdj) as (c2 & E2 & N2). by apply (two_children cs i j c1 c2).
  - cbn [well_shaped]. by rewrite Keccak_length.
Qed.
End shape.
