(* ===== verification/TrieProof.v ===== *)
(** Merkle proofs: [trie/proof.go], [proofHash] of [trie/hasher.go].

    [Prove] collects the encodings of the nodes on the path to a key; [VerifyProof] follows the path
    in them from a root hash.  The range proofs are not modelled.  The second part shows that
    proofs are complete and sound. *)
From S2P Require Import Prelude KeyedList Common Rlp TrieEncoding TrieNode TrieDatabase Trie TrieSpec TrieProps TrieHash TrieCommit TrieStore TrieCommitProps.

Open Scope Z_scope.

(** ** Walking down decoded nodes *)

(** [f] of the [i]-th child; an index out of range panics. *)
Definition nth_child {A} (f : node -> outcome A) : nat -> list node -> outcome A :=
  fix go i cs {struct cs} :=
    match cs, i with
    | c :: _, O => f c
    | _ :: cs, S i => go i cs
    | [], _ => Panic
    end.

(** [get]: the node at the end of the key, or the first that is not resolved; with
    [skipResolved] not set, the next node on the path. *)
Fixpoint get (tn : node) (key : bytes) (skipResolved : bool) {struct tn} : outcome (bytes * node) :=
  match tn with
  | shortNode nKey nVal _ =>
      if (length key <? length nKey)%nat || negb (bool_decide (nKey = take (length nKey) key)) then Ret ([], nil_node)
      else
        let key := drop (length nKey) key in
        if skipResolved then get nVal key skipResolved else Ret (key, nVal)
  | fullNode cs _ =>
      match key with
      | [] => Panic
      | x :: key => nth_child (fun c => if skipResolved then get c key skipResolved else Ret (key, c)) (Z.to_nat x) cs
      end
  | hashNode _ => Ret (key, tn)
  | nil_node => Ret (key, nil_node)
  | valueNode _ => Ret ([], tn)
  | rawFullNode _ | rawShortNode _ _ => Panic
  end.

(** ** Verification *)

Inductive proofErr : Type :=
| proofMissing (i : nat) (hash : Hash)
| proofBad (i : nat) (e : decodeErr).

Inductive verified : Type :=
| VRet (value : option bytes)
| VErr (e : proofErr)
| VPanic
| VLoop.

(** [copy(wantHash[:], cld)] *)
Definition copy_hash (wantHash : Hash) (cld : bytes) : Hash :=
  BytesToHash (take 32 cld ++ drop (length (take 32 cld)) (Hash_Bytes wantHash)).

Section proofs.
Context {CR : Crypto}.

(** The loop of [VerifyProof]; the code has no bound on it. *)
Fixpoint verify_from (fuel i : nat) (proofDb : Hash -> option bytes) (wantHash : Hash) (key : bytes) : verified :=
  match fuel with
  | O => VLoop
  | S fuel =>
      match proofDb wantHash with
      | None => VErr (proofMissing i wantHash)
      | Some buf =>
          match decodeNode (Some (Hash_Bytes wantHash)) buf with
          | DecodeErr e => VErr (proofBad i e)
          | Decoded n =>
              match get n key true with
              | Ret (keyrest, cld) =>
                  match cld with
                  | nil_node => VRet None
                  | hashNode h => verify_from fuel (S i) proofDb (copy_hash wantHash h) keyrest
                  | valueNode v => VRet (Some v)
                  | _ => verify_from fuel (S i) proofDb wantHash key
                  end
              | _ => VPanic
              end
          end
      end
  end.

Definition VerifyProof (fuel : nat) (rootHash : Hash) (key : bytes) (proofDb : Hash -> option bytes) : verified :=
  verify_from fuel 0 proofDb rootHash (keybytesToHex key).

(** ** Construction *)

Definition proofHash (original : node) : outcome (node * node) :=
  match original with
  | shortNode key val flags =>
      '(sn, _) ← hashShortNodeChildren hasher_hash key val flags; Ret (sn, shortnodeToHash sn false)
  | fullNode cs flags =>
      '(fn, _) ← hashFullNodeChildren hasher_hash cs flags; Ret (fn, fullnodeToHash fn false)
  | n => Ret (n, n)
  end.

Section path.
Context (db_node : Hash -> outcome (option node)).

(** The first loop of [Prove]: the nodes on the path. *)
Fixpoint prove_path (fuel : nat) (tn : node) (key : bytes) : tres (list node) :=
  match fuel with
  | O => TLoop
  | S fuel =>
      match key, tn with
      | [], _ | _, nil_node => TRet []
      | _, shortNode nKey nVal _ =>
          if (length key <? length nKey)%nat || negb (bool_decide (nKey = take (length nKey) key)) then TRet [tn]
          else ns ← prove_path fuel nVal (drop (length nKey) key); TRet (tn :: ns)
      | x :: key, fullNode cs _ =>
          c ← get_child cs x;
          ns ← prove_path fuel c key;
          TRet (tn :: ns)
      | _, hashNode h => n ← resolveHash db_node h []; prove_path fuel n key
      | _, _ => TPanic
      end
  end.
End path.

(** The second loop: what is put into the proof. *)
Fixpoint prove_puts (first : bool) (fromLevel : nat) (nodes : list node) : outcome (list (bytes * bytes)) :=
  match nodes with
  | [] => Ret []
  | n :: nodes =>
      match fromLevel with
      | S fromLevel => prove_puts false fromLevel nodes
      | O =>
          '(n, hn) ← proofHash n;
          let enc := encode (node_item n) in
          puts ← prove_puts false 0 nodes;
          Ret match hn with
              | hashNode hash => (hash, enc) :: puts
              | _ => if first then (Keccak256 enc, enc) :: puts else puts
              end
      end
  end.

Definition Prove (db_node : Hash -> outcome (option node)) (t : Trie) (key : bytes) (fromLevel : nat) : tres (list (bytes * bytes)) :=
  let key := keybytesToHex key in
  nodes ← prove_path db_node (steps key) (t_root t) key;
  match prove_puts true fromLevel nodes with
  | Ret puts => TRet puts
  | _ => TPanic
  end.
End proofs.

(** * Completeness and soundness

    What [Prove] collects is accepted for the value of
    the key, and no collection of nodes is accepted for another. *)

(** The subtrees on the path to a key. *)
Fixpoint path_nodes (t : tree) (key : bytes) : list tree :=
  match key with
  | [] => []
  | x :: rest =>
      match t with
      | TShort k c => t :: if bool_decide (k `prefix_of` key) then path_nodes c (drop (length k) key) else []
      | TFull cs => t :: default [] (((fun c => path_nodes c rest) <$> cs) !! Z.to_nat x)
      | _ => []
      end
  end.

Lemma path_short k c rest : k <> [] -> path_nodes (TShort k c) (k ++ rest) = TShort k c :: path_nodes c rest.
Proof.
  intros Hk. destruct k as [|x k]; [done|]. cbn [app path_nodes]. rewrite bool_decide_true by by exists rest.
  change (x :: k ++ rest) with ((x :: k) ++ rest). by rewrite drop_app_length.
Qed.

Lemma path_full cs x rest c : cs !! Z.to_nat x = Some c -> path_nodes (TFull cs) (x :: rest) = TFull cs :: path_nodes c rest.
Proof. intros H. cbn [path_nodes]. by rewrite list_lookup_fmap, H. Qed.

Lemma prefix_test0 (nKey key : bytes) :
  (length key <? length nKey)%nat || negb (bool_decide (nKey = take (length nKey) key)) = negb (bool_decide (nKey `prefix_of` key)).
Proof. pose proof (prefix_test nKey key 0 ltac:(lia)) as H. by rewrite drop_0 in H. Qed.

Lemma nth_child_lookup {A} (f : node -> outcome A) i cs c : cs !! i = Some c -> nth_child f i cs = f c.
Proof. revert i. induction cs as [|d cs IH]; intros [|i] H; simplify_eq/=; [done|]. by apply IH. Qed.

Section proofs.
Context {CR : Crypto} {KO : KeccakOk}.

(** ** Walking down a decoded node *)

(** Where the walk ends: at no node, at a value, or at a subtree with an encoding of its own. *)
Definition stops (d : nat) (t : tree) (key : bytes) (r : outcome (bytes * node)) : Prop :=
  exists key' n, r = Ret (key', n) /\
    ((n = nil_node /\ lookup t key = None) \/
     (exists v, n = valueNode v /\ lookup t key = Some v) \/
     (exists c, n = hashNode (Keccak256 (tenc c)) /\ wf c /\ ~ small c /\ tencs c ⊆ tencs t /\ key_ok key' /\
        lookup t key = lookup c key' /\ (length key' + d <= length key)%nat /\ path_nodes c key' ⊆ path_nodes t key)).

Lemma child_stops c term key :
  wf_at term c -> key_at term key -> (wf c -> key_ok key -> stops 1 c key (get (loaded None c) key true)) ->
  stops 0 c key (get (loaded_ref c) key true).
Proof.
  intros Hw Hk IH. destruct (decide (c = TNil)) as [->|Hn]; [exists key, nil_node; split; [done|by left]|].
  specialize (Hw Hn). destruct term.
  - destruct Hw as (v & _ & ->). simpl in Hk. subst key. exists [], (valueNode v). split; [done|]. right; left. by exists v.
  - assert (Hr : loaded_ref c = if (length (tenc c) <? 32)%nat then loaded None c else hashNode (Keccak256 (tenc c))) by by destruct Hw.
    rewrite Hr. destruct (Nat.ltb_spec (length (tenc c)) 32) as [Hs|Hs].
    + destruct (IH Hw Hk) as (key' & n & E & H). exists key', n. split; [done|]. destruct H as [?|[?|(u & ? & ? & ? & ? & ? & ? & ? & ?)]]; [by left|by right; left|].
      right; right. exists u. split_and!; try done. lia.
    + exists key, (hashNode (Keccak256 (tenc c))). split; [done|]. right; right. exists c. split_and!; try done; [unfold small; lia|lia].
Qed.

(** From a child to its parent. *)
Lemma parent_stops t c key rest r :
  tencs c ⊆ tencs t -> lookup t key = lookup c rest -> (length rest < length key)%nat -> path_nodes c rest ⊆ path_nodes t key ->
  stops 0 c rest r -> stops 1 t key r.
Proof.
  intros Ht Hl Hlen Hp (key' & n & E & H). exists key', n. split; [done|]. rewrite Hl.
  destruct H as [?|[?|(u & ? & ? & ? & ? & ? & ? & ? & ?)]]; [by left|by right; left|]. right; right. exists u.
  split_and!; try done; [by etransitivity|lia|by etransitivity].
Qed.

Lemma get_loaded t hash key : wf t -> key_ok key -> stops 1 t key (get (loaded hash t) key true).
Proof.
  intros Hw. revert hash key. cut (forall hash key, wf t -> key_ok key -> stops 1 t key (get (loaded hash t) key true)); [by auto|]. revert t Hw.
  apply (wf_children (fun t => forall hash key, wf t -> key_ok key -> stops 1 t key (get (loaded hash t) key true))).
  - intros hash key Hw. by inversion Hw.
  - intros v _ hash key Hw. by inversion Hw.
  - intros k c Hw IH hash key _ Hk. rewrite loaded_short. cbn [get]. rewrite prefix_test0. destruct (wf_short_child _ _ Hw) as (Hk0 & _ & term & Hwc & Hrest & _).
    case_bool_decide as Hp; cbn [negb].
    + destruct Hp as [rest ->]. rewrite drop_app_length. apply (parent_stops _ c _ rest); [apply tencs_short|apply lookup_short| | |].
      * rewrite length_app. destruct k; [done|simpl; lia].
      * rewrite path_short by done. intros x Hx. by right.
      * apply (child_stops c term); [done|by apply Hrest|]. apply IH.
    + exists [], nil_node. split; [done|]. left. split; [done|]. simpl. by rewrite bool_decide_false.
  - intros cs Hw IH hash key _ Hk. rewrite loaded_full. destruct key as [|x rest]; [by apply key_ok_not_nil in Hk|]. cbn [get].
    pose proof (key_index _ _ Hk) as Hx. inversion Hw as [| |? Hl _ _ _]; subst. destruct (lookup_lt_is_Some_2 cs (Z.to_nat x)) as [c Ec]; [lia|].
    rewrite (nth_child_lookup _ _ _ (loaded_ref c)) by by rewrite list_lookup_fmap, Ec.
    apply (parent_stops _ c _ rest); [by eapply tencs_child|by apply lookup_full|simpl; lia| |].
    + rewrite (path_full _ _ _ c) by done. intros y Hy. by right.
    + apply (child_stops c (x =? 16)); [eapply wf_child; [done|done|lia]|by apply key_at_child in Hk as []|].
      rewrite Forall_lookup in IH. by eapply IH.
Qed.

(** ** Verification *)

Lemma copy_hash_Keccak want b : copy_hash want (Keccak256 b) = BytesToHash (Keccak256 b).
Proof.
  unfold copy_hash. rewrite take_ge by (rewrite Keccak_length; lia). rewrite Keccak_length, drop_ge, app_nil_r; [done|].
  unfold Hash_Bytes. rewrite length_be_bytes. lia.
Qed.

(** The nodes of the tree that the proof has are those of the tree. *)
Definition honest (proofDb : Hash -> option bytes) (t : tree) : Prop :=
  forall x b, x ∈ tencs t -> proofDb (BytesToHash (Keccak256 x)) = Some b -> b = x.

(** The verification gives the value of the key, or misses a node of the path. *)
Lemma verify_walk proofDb fuel i t key :
  wf t -> key_ok key -> (length key < fuel)%nat -> honest proofDb t -> (forall x, x ∈ tencs t -> fits x) ->
  verify_from fuel i proofDb (thash t) key = VRet (lookup t key) \/
  exists j c, verify_from fuel i proofDb (thash t) key = VErr (proofMissing j (thash c)) /\ proofDb (thash c) = None /\
    (c = t \/ ~ small c /\ c ∈ path_nodes t key).
Proof.
  revert i t key. induction fuel as [|fuel IH]; intros i t key Hw Hk Hlt Hh Hf; [lia|]. cbn [verify_from].
  destruct (proofDb (thash t)) as [b|] eqn:Eb; [|right; exists i, t; split_and!; [done|done|by left]].
  rewrite (Hh (tenc t) b (tencs_self t Hw) Eb). rewrite (decode_tenc Keccak_length) by (done || apply Hf, tencs_self; done).
  destruct (get_loaded t (Some (Hash_Bytes (thash t))) key Hw Hk) as (key' & n & -> & [[-> ->]|[(v & -> & ->)|(c & -> & Hwc & Hs & Ht & Hk' & -> & Hlen & Hp)]]); [by left|by left|].
  rewrite copy_hash_Keccak. fold (thash c).
  destruct (IH (S i) c key') as [E|(j & u & E & Hu & Hor)]; [done|done|lia|intros x b' Hx; by apply Hh, Ht|intros x Hx; by apply Hf, Ht|by left|].
  right. exists j, u. split_and!; [done|done|]. right. destruct Hor as [->|[Hus Hup]]; [split; [done|]|split; [done|by apply Hp]].
  apply Hp. destruct key' as [|x rest]; [by apply key_ok_not_nil in Hk'|]. destruct Hwc; simpl; by left.
Qed.

(** ** Construction *)

Section prove.
Context (db : Database).
#[local] Instance proof_store : Store := HashStore (stored (db_node db)).

(** A node that is not a hash stands for the tree. *)
Definition on_path (n : node) (t : tree) : Prop := wf t /\ is_hash n = false /\ exists s top, srep s top n t.

Lemma prove_path_rep fuel s top n t term key :
  srep s top n t -> wf_at term t -> key_at term key -> (need n (length key) <= fuel)%nat ->
  exists ns, prove_path (db_node db) fuel n key = TRet ns /\ Forall2 on_path ns (path_nodes t key).
Proof.
  revert s top n t term key. induction fuel as [|fuel IH]; intros s top n t term key Hr Hw Hk Hfuel; [solve_need|].
  cbn [prove_path]. destruct key as [|x key]; [exists []; split; [done|destruct t; constructor]|].
  destruct term; [done|]. simpl in Hk. pose proof Hr as Hrep.
  destruct Hr as [s top|s top v|s top k c fl t Hfl Hc|s top cs fl ts Hfl Hl Hcs|s top h t Hh].
  - exists []. split; [done|constructor].
  - exfalso. by apply (wf_not_val (TVal v) v (Hw ltac:(done))).
  - specialize (Hw ltac:(done)). simpl in Hw. rewrite prefix_test0. destruct (wf_short_child _ _ Hw) as (Hk0 & _ & term & Hwc & Hrest & _).
    assert (Hon : on_path (shortNode k c fl) (TShort k t)) by (split_and!; [done|done|by eexists _, _]). case_bool_decide as Hp; cbn [negb].
    + destruct Hp as [rest E]. rewrite E in *. rewrite drop_app_length, path_short by done. rewrite length_app in Hfuel.
      destruct (IH _ _ c t term rest Hc Hwc) as (ns & -> & H); [by apply Hrest|assert (length k <> 0)%nat by (by destruct k); solve_need|].
      eexists. split; [done|by constructor].
    + eexists. split; [done|]. cbn [path_nodes]. rewrite bool_decide_false by done. apply Forall2_cons_2; [done|apply Forall2_nil_2].
  - specialize (Hw ltac:(done)). simpl in Hw. destruct (full_child _ _ _ _ _ _ _ Hrep Hw Hk) as (Hx16 & c & t & -> & Ec & Et & Hrc & Hwc & Hkc).
    cbn [mbind tres_mbind]. destruct (IH _ _ c t (x =? 16) key Hrc Hwc Hkc) as (ns & -> & H); [simpl in Hfuel; solve_need|].
    eexists. split; [done|]. rewrite (path_full _ _ _ t) by done. constructor; [|done]. split_and!; [done|done|by eexists _, _].
  - destruct (held_resolve (db_node db) s top h t [] Hh) as (Hwf & n & -> & Hnh & Hr). cbn [mbind tres_mbind].
    destruct (IH s top n t false (x :: key)) as (ns & E & H); [done..|solve_need|]. exists ns. split; [|done]. by destruct n.
Qed.

(** The collapsed node has the encoding of the tree. *)
Lemma proofHash_rep n t :
  on_path n t -> exists c, proofHash n = Ret (c, if (length (tenc t) <? 32)%nat then c else hashNode (Keccak256 (tenc t))) /\
    encode (node_item c) = tenc t /\ is_hash c = false.
Proof.
  intros (Hw & Hn & s & top & Hr). destruct Hr as [s top|s top v|s top k c fl t Hfl Hc|s top cs fl ts Hfl Hl Hcs|s top h t Hh]; [by inversion Hw|by inversion Hw| | |done].
  - unfold proofHash, hashShortNodeChildren. destruct (wf_short_child _ _ Hw) as (_ & Hnil & term & Hwc & _). specialize (Hwc Hnil).
    destruct (hash_child _ _ c t Hc) as (cv & hv & -> & Hcv & Hhv); [done|destruct term; naive_solver|by intros; eapply hash_rep|].
    cbn [mbind outcome_mbind outcome_bind]. eexists. assert (E : encode (node_item (shortNode (hexToCompact k) cv fl)) = tenc (TShort k t)).
    { unfold tenc. rewrite titem_short. cbn [node_item]. by rewrite Hcv. }
    split_and!; [|exact E|done]. unfold shortnodeToHash, hashData. rewrite E, andb_true_r. done.
  - unfold proofHash, hashFullNodeChildren.
    destruct (hash_children_rep _ _ 16 cs ts Hl Hcs) as (la & lb & -> & Hla & Hlb & Hrb); [intros i c t Hi Ht Hwt; eapply hash_rep; [by eapply Hcs|done]| |].
    { intros i t Ht Hnil. inversion Hw as [| |? Hlt Hlow Htop _]; subst. apply lookup_lt_Some in Ht as Hi.
      destruct (Nat.ltb_spec i 16); [by apply (Hlow i)|]. assert (i = 16%nat) as -> by lia. destruct (Htop t Ht Hnil) as (v & _ & ->). by exists v. }
    cbn [mbind outcome_mbind outcome_bind]. eexists. assert (E : encode (node_item (fullNode la fl)) = tenc (TFull ts)).
    { unfold tenc. rewrite titem_full, <- Hla. done. }
    split_and!; [|exact E|done]. unfold fullnodeToHash, hashData. rewrite E, andb_true_r. done.
Qed.

Lemma prove_puts_rep first ns ts :
  Forall2 on_path ns ts -> exists puts, prove_puts first 0 ns = Ret puts /\
    forall i t, ts !! i = Some t -> ~ small t \/ (first = true /\ i = 0%nat) -> (Keccak256 (tenc t), tenc t) ∈ puts.
Proof.
  intros H. revert first. induction H as [|n t ns ts Hn Hns IH]; intros first; [by exists []|]. cbn [prove_puts].
  destruct (proofHash_rep n t Hn) as (c & -> & Henc & Hc). cbn [mbind outcome_mbind outcome_bind]. destruct (IH false) as (puts & -> & Hputs).
  cbn [mbind outcome_mbind outcome_bind]. eexists. split; [done|]. rewrite Henc. intros [|i] u Hu Hor; simpl in Hu.
  - injection Hu as ->. destruct (Nat.ltb_spec (length (tenc u)) 32) as [Hs|Hs]; [|by left]. destruct Hor as [Hns'|[-> _]]; [by destruct Hns'|].
    destruct c; done || by left.
  - assert (Hin : (Keccak256 (tenc u), tenc u) ∈ puts) by (apply (Hputs i u Hu); destruct Hor as [?|[_ ?]]; [by left|done]).
    destruct (Nat.ltb_spec (length (tenc t)) 32); [|by right]. destruct c; try done; destruct first; (by right) || done.
Qed.

Lemma Prove_rep t tr m key :
  trie_at db t tr m -> tr <> TNil -> Forall byte_ok key ->
  exists puts, Prove (db_node db) t key 0 = TRet puts /\
    forall c, c ∈ path_nodes tr (keybytesToHex key) -> ~ small c \/ c = tr -> (Keccak256 (tenc c), tenc c) ∈ puts.
Proof.
  intros (Hr & Hw & Hc) Hn Hb. pose proof (keybytesToHex_ok key Hb) as Hk. unfold Prove.
  destruct (prove_path_rep (steps (keybytesToHex key)) false true (t_root t) tr false (keybytesToHex key) Hr Hw Hk) as (ns & -> & Hns); [apply need_steps|].
  cbn [mbind tres_mbind]. destruct (prove_puts_rep true ns _ Hns) as (puts & -> & Hp). exists puts. split; [done|]. intros c Hc' Hor.
  destruct Hor as [Hs| ->]; [apply list_elem_of_lookup in Hc' as [i Hi]; apply (Hp i c Hi); by left|].
  apply (Hp 0%nat tr); [|by right]. specialize (Hw Hn). simpl in Hw. destruct (keybytesToHex key); [by apply key_ok_not_nil in Hk|]. by destruct Hw.
Qed.

(** Of an empty trie, [Prove] writes nothing. *)
Lemma Prove_empty t m key : trie_at db t TNil m -> Forall byte_ok key -> Prove (db_node db) t key 0 = TRet [].
Proof.
  intros (Hr & Hw & _) Hb. pose proof (keybytesToHex_ok key Hb) as Hk. unfold Prove.
  destruct (prove_path_rep (steps (keybytesToHex key)) false true (t_root t) TNil false (keybytesToHex key) Hr Hw Hk) as (ns & -> & Hns); [apply need_steps|].
  destruct (keybytesToHex key); by inversion Hns.
Qed.
End prove.
End proofs.
