(* ===== verification/TrieDisk.v ===== *)
(** Moving nodes of the trie database from memory to disk: [Commit] and [Cap] of
    [trie/database.go] change nothing of what is read, and after [Commit] of a root every
    node that it refers to is on disk, so that its trie can be opened from the disk alone. *)
From S2P Require Import Prelude KeyedList Common Rlp TrieEncoding TrieNode TrieDatabase TrieFlush Trie TrieSpec TrieProps TrieHash TrieCommit TrieStore TrieCommitProps.

Open Scope Z_scope.

(** ** References between entries *)

(** [y] is reached from the entry of [x] through entries. *)
Inductive reach (d : gmap Hash cachedNode) : Hash -> Hash -> Prop :=
| reach_refl x e : d !! x = Some e -> reach d x x
| reach_step x e cs c y : d !! x = Some e -> forChilds e = Ret cs -> c ∈ cs -> reach d c y -> reach d x y.

(** The references do not form a cycle, and none is to the metaroot. *)
Definition ranked (d : gmap Hash cachedNode) (rank : Hash -> nat) : Prop :=
  forall x e cs c, d !! x = Some e -> x <> 0 -> forChilds e = Ret cs -> c ∈ cs -> c <> 0 /\ (rank c < rank x)%nat.

Lemma forChilds_data e e' : cn_data e' = cn_data e -> forChilds e' = forChilds e.
Proof. unfold forChilds, cn_data. intros [= -> _ _ ->]. done. Qed.

Lemma cn_rlp_data e e' : cn_data e' = cn_data e -> cn_rlp e' = cn_rlp e.
Proof. unfold cn_rlp, cn_data. intros [= -> _ _ _]. done. Qed.

(** ** While nodes are written *)

(** [db0]: the database before; [b]: the batch that is not yet written; [D]: the nodes that
    were put into a batch. *)
Record flushing (db0 db : Database) (b : batch) (D : list Hash) : Prop := mkFlushing {
  fl_list : exists L, flush_ok db L;
  fl_entry : forall x e, db_dirties db !! x = Some e -> exists e0, db_dirties db0 !! x = Some e0 /\ cn_data e = cn_data e0;
  fl_gone : forall x e0, db_dirties db0 !! x = Some e0 -> db_dirties db !! x = None -> x ∈ D /\ db_disk db !! x = Some (cn_rlp e0);
  fl_disk : forall x, db_disk db !! x = db_disk db0 !! x \/ exists e0, db_dirties db0 !! x = Some e0 /\ db_disk db !! x = Some (cn_rlp e0);
  fl_batch : forall x v, (x, v) ∈ b -> x ∈ D /\ exists e0, db_dirties db0 !! x = Some e0 /\ v = cn_rlp e0;
  fl_done : forall x, x ∈ D -> x <> 0 /\ exists e0, db_dirties db0 !! x = Some e0 /\
    ((x, cn_rlp e0) ∈ b \/ db_disk db !! x = Some (cn_rlp e0));
}.

(** With a node, all that it refers to. *)
Definition closed_under (db0 : Database) (D : list Hash) : Prop := forall x y, x ∈ D -> reach (db_dirties db0) x y -> y ∈ D.

Lemma flushing_start db L : flush_ok db L -> flushing db db [] [].
Proof.
  intros HL. split; [by exists L|intros x e He; by exists e|by intros x e0 -> |by left|..].
  - intros x v Hx. by apply elem_of_nil in Hx.
  - intros x Hx. by apply elem_of_nil in Hx.
Qed.

(** *** Writing the batch *)

Lemma write_lookup (b : batch) (disk : gmap Hash bytes) x v0 :
  (forall v, (x, v) ∈ b -> v = v0) ->
  foldl (fun disk '(h, v) => <[h := v]> disk) disk b !! x = (if decide ((x, v0) ∈ b) then Some v0 else disk !! x).
Proof.
  revert disk. induction b as [|[h v] b IH]; intros disk Hb; [done|]. cbn [foldl].
  rewrite IH by (intros w Hw; apply Hb; by right). destruct (decide (h = x)) as [->|Hne].
  - rewrite lookup_insert_eq. rewrite (Hb v) by by left. rewrite (decide_True (P := (x, v0) ∈ (x, v0) :: b)) by by left.
    by case_match.
  - rewrite lookup_insert_ne by done. case_decide as H1; case_decide as H2; try done; exfalso.
    + apply H2. by right.
    + by apply elem_of_cons in H2 as [[= <- <-]|?].
Qed.

Lemma write_flushing db0 db b D :
  flushing db0 db b D -> flushing db0 (write_batch b db) [] D /\
    forall x, x ∈ D -> exists e0, db_dirties db0 !! x = Some e0 /\ db_disk (write_batch b db) !! x = Some (cn_rlp e0).
Proof.
  intros [HL He Hg Hd Hb Hdn]. assert (Hw : forall x e0, db_dirties db0 !! x = Some e0 ->
    db_disk (write_batch b db) !! x = if decide ((x, cn_rlp e0) ∈ b) then Some (cn_rlp e0) else db_disk db !! x).
  { intros x e0 E. apply write_lookup. intros v Hv. destruct (Hb x v Hv) as (_ & e1 & E1 & ->). congruence. }
  assert (Hnone : forall x, db_dirties db0 !! x = None -> db_disk (write_batch b db) !! x = db_disk db !! x).
  { intros x E. unfold write_batch. simpl. rewrite (write_lookup b _ x []); [|intros v Hv; destruct (Hb x v Hv) as (_ & e1 & E1 & _); congruence].
    rewrite decide_False; [done|]. intros Hv. destruct (Hb x [] Hv) as (_ & e1 & E1 & _). congruence. }
  assert (Hdone : forall x, x ∈ D -> exists e0, db_dirties db0 !! x = Some e0 /\ db_disk (write_batch b db) !! x = Some (cn_rlp e0)).
  { intros x Hx. destruct (Hdn x Hx) as (_ & e0 & E0 & Hor). exists e0. split; [done|]. rewrite (Hw x e0 E0).
    destruct (decide ((x, cn_rlp e0) ∈ b)); [done|]. by destruct Hor. }
  split; [|done]. split; try done.
  - intros x e0 E0 Hn. destruct (Hg x e0 E0 Hn) as [Hx Hk]. split; [done|]. rewrite (Hw x e0 E0). by case_decide.
  - intros x. destruct (db_dirties db0 !! x) as [e0|] eqn:E0; [|rewrite (Hnone x E0); specialize (Hd x); naive_solver].
    rewrite (Hw x e0 E0). case_decide; [right; by exists e0|]. specialize (Hd x). naive_solver.
  - intros x v Hx. by apply elem_of_nil in Hx.
  - intros x Hx. destruct (Hdn x Hx) as (H0 & _). split; [done|]. destruct (Hdone x Hx) as (e0 & E0 & Hk). exists e0. by split; [|right].
Qed.

(** *** Dropping what was written *)

Lemma drop_flushing db0 db db1 D h :
  flushing db0 db [] D -> h ∈ D -> (exists L, flush_ok db1 L) -> db_disk db1 = db_disk db ->
  same_data (base.delete h (db_dirties db)) (db_dirties db1) -> flushing db0 db1 [] D.
Proof.
  intros [HL He Hg Hd Hbt Hdn] Hh HL1 Hdk Hs. destruct (Hdn h Hh) as (H0 & e0 & E0 & [Hin|Hk]); [by apply elem_of_nil in Hin|].
  split; rewrite ?Hdk; try done.
  - intros x e1 E1. specialize (Hs x). rewrite E1 in Hs. destruct (decide (x = h)) as [->|Hne]; [by rewrite lookup_delete_eq in Hs|].
    rewrite lookup_delete_ne in Hs by done. destruct (db_dirties db !! x) as [e2|] eqn:E2; [|done].
    destruct (He x e2 E2) as (e3 & E3 & Hd3). exists e3. split; [done|]. apply Some_inj in Hs. by rewrite Hs.
  - intros x e1 E1 Hn. destruct (decide (x = h)) as [->|Hne]; [split; [done|congruence]|]. apply Hg; [done|].
    specialize (Hs x). rewrite Hn, lookup_delete_ne in Hs by done. by destruct (db_dirties db !! x).
Qed.

Lemma replay_flushing db0 db b D :
  flushing db0 db [] D -> (forall x v, (x, v) ∈ b -> x ∈ D) ->
  exists db', replay b db = Ret db' /\ flushing db0 db' [] D /\ db_disk db' = db_disk db.
Proof.
  revert db. induction b as [|[h v] b IH]; intros db Hf Hb; [by exists db|]. cbn [replay].
  assert (Hh : h ∈ D) by (apply (Hb h v); by left).
  assert (Hput : exists db1, cleaner_Put h db = Ret db1 /\ flushing db0 db1 [] D /\ db_disk db1 = db_disk db).
  { destruct (db_dirties db !! h) as [e|] eqn:Ee; [|exists db; unfold cleaner_Put; by rewrite Ee].
    destruct (fl_list _ _ _ _ Hf) as [L HL]. destruct (fl_done _ _ _ _ Hf h Hh) as [H0 _].
    destruct (flush_split db L h HL H0 ltac:(by eexists)) as (L1 & L2 & ->).
    destruct (cleaner_flush db L1 h L2 HL) as (db1 & E1 & HL1 & Hdk & Hs). exists db1. split_and!; [done| |done].
    by eapply drop_flushing; [exact Hf|exact Hh|eexists|..]. }
  destruct Hput as (db1 & -> & Hf1 & Hk1). cbn [mbind outcome_mbind outcome_bind].
  destruct (IH db1 Hf1) as (db2 & E & Hf2 & Hk2); [intros x w Hx; apply (Hb x w); by right|]. exists db2. split_and!; [done|done|congruence].
Qed.

Lemma flush_batch db0 db b D :
  flushing db0 db b D -> exists db', replay b (write_batch b db) = Ret db' /\ flushing db0 db' [] D /\
    forall x, x ∈ D -> exists e0, db_dirties db0 !! x = Some e0 /\ db_disk db' !! x = Some (cn_rlp e0).
Proof.
  intros Hf. destruct (write_flushing db0 db b D Hf) as [Hf1 Hd1].
  destruct (replay_flushing db0 (write_batch b db) b D Hf1) as (db' & E & Hf2 & Hk); [intros x v Hx; by apply (fl_batch _ _ _ _ Hf x v)|].
  exists db'. split_and!; [done|done|]. by rewrite Hk.
Qed.

(** *** The recursion *)

(** An entry is put into the batch after everything it refers to. *)
Lemma flushing_put db0 db b D h e0 :
  flushing db0 db b D -> h <> 0 -> db_dirties db0 !! h = Some e0 -> flushing db0 db (b ++ [(h, cn_rlp e0)]) (h :: D).
Proof.
  intros [HL He Hg Hd Hb Hdn] H0 E0. split; try done.
  - intros x e1 E1 Hn. destruct (Hg x e1 E1 Hn). split; [by right|done].
  - intros x v [Hx|Hx]%elem_of_app.
    + destruct (Hb x v Hx). split; [by right|done].
    + apply list_elem_of_singleton in Hx as [= -> ->]. split; [by left|by exists e0].
  - intros x [->|Hx]%elem_of_cons.
    + split; [done|]. exists e0. split; [done|]. left. apply elem_of_app. right. by left.
    + destruct (Hdn x Hx) as (Hx0 & e1 & E1 & Hor). split; [done|]. exists e1. split; [done|].
      destruct Hor; [left; apply elem_of_app; by left|by right].
Qed.

Lemma closed_put db0 D h e0 cs :
  closed_under db0 D -> db_dirties db0 !! h = Some e0 -> forChilds e0 = Ret cs ->
  (forall c, c ∈ cs -> is_Some (db_dirties db0 !! c) -> c ∈ D) -> closed_under db0 (h :: D).
Proof.
  intros Hc E0 Ecs Hcs x y [->|Hx]%elem_of_cons Hr; [|right; by apply (Hc x y)].
  inversion Hr as [|? e1 cs' c ? E1 Ecs' Hc' Hr']; subst; [by left|].
  right. rewrite E0 in E1. injection E1 as <-. rewrite Ecs in Ecs'. injection Ecs' as <-. apply (Hc c y); [|done].
  apply Hcs; [done|]. by inversion Hr'; eexists.
Qed.

Section commit.
Context (batch_full : batch -> bool) (db0 : Database) (rank : Hash -> nat).
Context (Hrank : ranked (db_dirties db0) rank).
Context (Hchilds : forall x e, db_dirties db0 !! x = Some e -> x <> 0 -> exists cs, forChilds e = Ret cs).

Definition commits_to (D : list Hash) (h : Hash) (r : outcome (Database * batch)) : Prop :=
  exists db b D', r = Ret (db, b) /\ flushing db0 db b D' /\ closed_under db0 D' /\ D ⊆ D' /\ (is_Some (db_dirties db0 !! h) -> h ∈ D').

Lemma commit_fold fuel cs db b D :
  (forall c db b D, c ∈ cs -> flushing db0 db b D -> closed_under db0 D -> commits_to D c (db_commit batch_full fuel c (db, b))) ->
  flushing db0 db b D -> closed_under db0 D ->
  exists db' b' D', foldl (fun st h => st ← st; db_commit batch_full fuel h st) (Ret (db, b)) cs = Ret (db', b') /\
    flushing db0 db' b' D' /\ closed_under db0 D' /\ D ⊆ D' /\ forall c, c ∈ cs -> is_Some (db_dirties db0 !! c) -> c ∈ D'.
Proof.
  revert db b D. induction cs as [|c cs IH]; intros db b D Hc Hf Hcl.
  { exists db, b, D. split_and!; try done. intros c Hin. by apply elem_of_nil in Hin. }
  cbn [foldl mbind outcome_mbind outcome_bind]. destruct (Hc c db b D (list_elem_of_here _ _) Hf Hcl) as (db1 & b1 & D1 & -> & Hf1 & Hc1 & Hs1 & Hin1).
  destruct (IH db1 b1 D1) as (db2 & b2 & D2 & E & Hf2 & Hc2 & Hs2 & Hin2); [intros x ? ? ? Hx; apply Hc; by right|done|done|].
  exists db2, b2, D2. split_and!; [done|done|done|by etransitivity|]. intros x [->|Hx]%elem_of_cons He; [by apply Hs2, Hin1|by apply Hin2].
Qed.

Lemma db_commit_flushing fuel h db b D :
  flushing db0 db b D -> closed_under db0 D -> h <> 0 -> (rank h < fuel)%nat -> commits_to D h (db_commit batch_full fuel h (db, b)).
Proof.
  revert h db b D. induction fuel as [|fuel IH]; intros h db b D Hf Hcl H0 Hr; [lia|]. cbn [db_commit fst].
  destruct (db_dirties db !! h) as [e|] eqn:Ee.
  2: { exists db, b, D. split_and!; try done. intros [e0 E0]. by destruct (fl_gone _ _ _ _ Hf h e0 E0 Ee). }
  destruct (fl_entry _ _ _ _ Hf h e Ee) as (e0 & E0 & Hd0). rewrite (forChilds_data e0 e Hd0), (cn_rlp_data e0 e Hd0).
  destruct (Hchilds h e0 E0 H0) as [cs Ecs]. rewrite Ecs. cbn [mbind outcome_mbind outcome_bind].
  destruct (commit_fold fuel cs db b D) as (db1 & b1 & D1 & -> & Hf1 & Hc1 & Hs1 & Hin1); [|done|done|].
  { intros c db1 b1 D1 Hc Hf1 Hc1. destruct (Hrank h e0 cs c E0 H0 Ecs Hc). apply IH; [done|done|done|lia]. }
  cbn [mbind outcome_mbind outcome_bind]. pose proof (flushing_put db0 db1 b1 D1 h e0 Hf1 H0 E0) as Hf2.
  pose proof (closed_put db0 D1 h e0 cs Hc1 E0 Ecs Hin1) as Hc2.
  assert (Hs2 : D ⊆ h :: D1) by (intros x Hx; right; by apply Hs1).
  destruct (batch_full (b1 ++ [(h, cn_rlp e0)])).
  - destruct (flush_batch db0 db1 _ _ Hf2) as (db2 & -> & Hf3 & _). exists db2, [], (h :: D1). split_and!; [done|done|done|done|by left].
  - exists db1, (b1 ++ [(h, cn_rlp e0)]), (h :: D1). split_and!; [done|done|done|done|by left].
Qed.
End commit.

(** ** What is read *)

Section reading.
Context {CR : Crypto} {KO : KeccakOk}.

(** A node on disk reads like the entry it was written from. *)
Lemma flushing_reads db0 db b D x : db_ok db0 -> flushing db0 db b D -> db_node db x = db_node db0 x.
Proof.
  intros Hok [HL He Hg Hd _ Hdn]. destruct (db_dirties db0 !! x) as [e0|] eqn:E0.
  - destruct (db_dirties db !! x) as [e|] eqn:E.
    + destruct (He x e E) as (e1 & E1 & Hda). rewrite E0 in E1. injection E1 as <-. unfold db_node, cn_obj. rewrite E, E0. unfold cn_data in Hda. by injection Hda as -> _ _ _.
    + destruct (Hg x e0 E0 E) as [Hx Hk]. destruct (Hdn x Hx) as [H0 _]. destruct (Hok x e0 E0 H0) as (t & Hw & Hn & -> & Hf).
      assert (H1 : in_db (db_node db0) t) by (eapply entry_in_db; eauto using cn_rlp_raw).
      assert (H2 : in_db (db_node db) t) by (apply disk_in_db; [done..|]; by rewrite Hk, (cn_rlp_raw e0 t)).
      unfold in_db in H1, H2. fold (thash t) in H1, H2. congruence.
  - assert (En : db_dirties db !! x = None) by (destruct (db_dirties db !! x) as [e|] eqn:E; [destruct (He x e E) as (? & ? & _); congruence|done]).
    unfold db_node. rewrite En, E0. destruct (Hd x) as [->|(e1 & ? & _)]; [done|congruence].
Qed.

Lemma db_ok_childs db x e : db_ok db -> db_dirties db !! x = Some e -> x <> 0 -> exists cs, forChilds e = Ret cs.
Proof.
  intros Hok He H0. destruct (Hok x e He H0) as (t & Hw & Hn & _). unfold forChilds. rewrite Hn. destruct (gather_raw t Hw) as [l ->]. by eexists.
Qed.

Lemma write_preimages_db db : db_dirties (write_preimages db) = db_dirties db /\ db_disk (write_preimages db) = db_disk db /\
  forall L, flush_ok db L -> flush_ok (write_preimages db) L.
Proof. unfold write_preimages. destruct (db_preimages db); split_and!; try done. Qed.

Lemma clear_preimages_db db : db_dirties (clear_preimages db) = db_dirties db /\ db_disk (clear_preimages db) = db_disk db /\
  forall L, flush_ok db L -> flush_ok (clear_preimages db) L.
Proof. unfold clear_preimages. destruct (db_preimages db); split_and!; try done. Qed.

Lemma db_node_eq db db' x : db_dirties db = db_dirties db' -> db_disk db = db_disk db' -> db_node db x = db_node db' x.
Proof. intros H H'. unfold db_node. by rewrite H, H'. Qed.

(** [Commit] of a root: nothing of what is read changes, and all it refers to is on disk. *)
Lemma db_Commit_ok batch_full db L rank fuel root :
  db_ok db -> flush_ok db L -> ranked (db_dirties db) rank -> root <> 0 -> (rank root < fuel)%nat ->
  exists db' L', db_Commit batch_full fuel root db = Ret db' /\ flush_ok db' L' /\ (forall x, db_node db' x = db_node db x) /\
    (forall x, db_disk db' !! x = db_disk db !! x \/ exists e, db_dirties db !! x = Some e /\ db_disk db' !! x = Some (cn_rlp e)) /\
    forall x e, reach (db_dirties db) root x -> db_dirties db !! x = Some e -> db_disk db' !! x = Some (cn_rlp e).
Proof.
  intros Hok HL Hr H0 Hf. destruct (write_preimages_db db) as (P1 & P2 & P3). set (db0 := write_preimages db) in *.
  assert (Hok0 : db_ok db0) by (unfold db_ok; by rewrite P1). rewrite <- P1 in Hr.
  destruct (db_commit_flushing batch_full db0 rank Hr (fun x e => db_ok_childs db0 x e Hok0) fuel root db0 [] []) as (db1 & b1 & D1 & E1 & Hf1 & Hc1 & _ & Hin1);
    [by eapply flushing_start, P3|intros ? ? Hx; by apply elem_of_nil in Hx|done|done|].
  destruct (flush_batch db0 db1 b1 D1 Hf1) as (db2 & E2 & Hf2 & Hd2). unfold db_Commit. fold db0.
  replace (db_commit _ _ _ (db0, _)) with (Ret (db1, b1)) by (symmetry; exact E1). cbn [mbind outcome_mbind outcome_bind]. rewrite E2. cbn [mbind outcome_mbind outcome_bind]. destruct (clear_preimages_db db2) as (C1 & C2 & C3). destruct (fl_list _ _ _ _ Hf2) as [L2 HL2].
  eexists _, L2. split_and!; [done|by apply C3| | |].
  - intros x. rewrite (db_node_eq _ db2 x C1 C2), (flushing_reads db0 db2 [] D1 x Hok0 Hf2). by apply db_node_eq.
  - intros x. rewrite C2, <- P1, <- P2. apply (fl_disk _ _ _ _ Hf2).
  - intros x e Hx He. rewrite C2. rewrite <- P1 in Hx, He. destruct (Hd2 x) as (e0 & E0 & ->); [|congruence].
    eapply Hc1; [apply Hin1|exact Hx]. by inversion Hx; eexists.
Qed.
End reading.

(** * [Cap] of [trie/database.go]

    The oldest entries of the flush list move to disk; nothing of
    what is read changes. *)

Lemma flush_length db L : flush_ok db L -> (length L < S (size (db_dirties db)))%nat.
Proof.
  intros (Hnd & _ & Hdom & _). rewrite <- size_dom, <- (size_list_to_set (C := gset Hash) L Hnd).
  assert (list_to_set L ⊆ dom (db_dirties db)); [|by apply Nat.lt_succ_r, subseteq_size].
  intros x Hx%elem_of_list_to_set. apply elem_of_dom, Hdom. by right.
Qed.

Lemma flush_head db L1 h L2 e : flush_ok db (L1 ++ h :: L2) -> db_dirties db !! h = Some e -> cn_flushNext e = default 0 (head L2).
Proof.
  intros (_ & _ & _ & _ & _ & Hl) He. apply linked_app in Hl as [_ [(e' & He' & Hn & _) _]]. by simplify_eq.
Qed.

Lemma flush_write db L b : flush_ok db L -> flush_ok (write_batch b db) L.
Proof. done. Qed.

Lemma flushing_perm db0 db b D D' : (forall x, x ∈ D <-> x ∈ D') -> flushing db0 db b D -> flushing db0 db b D'.
Proof.
  intros HD [HL He Hg Hd Hb Hdn]. split; try done.
  - intros x e0 E Hn. rewrite <- HD. by apply Hg.
  - intros x v Hx. rewrite <- HD. by apply Hb.
  - intros x Hx. apply Hdn. by apply HD.
Qed.

Section cap.
Context (batch_full : batch -> bool) (db0 : Database).

(** The first loop: the entries [L1] are written, [L2] are not. *)
Lemma cap_write_ok fuel limit sz L1 L2 b db :
  flush_ok db (L1 ++ L2) -> db_dirties db = db_dirties db0 -> flushing db0 db b L1 -> (length L2 < fuel)%nat ->
  exists L1' L2' b' db', L1 ++ L2 = L1' ++ L2' /\ cap_write batch_full fuel limit sz (default 0 (head L2)) b db = Ret (default 0 (head L2'), b', db') /\
    flush_ok db' (L1' ++ L2') /\ db_dirties db' = db_dirties db0 /\ flushing db0 db' b' L1'.
Proof.
  revert sz L1 L2 b db. induction fuel as [|fuel IH]; intros sz L1 L2 b db HL Hd Hf Hlen; [lia|]. cbn [cap_write].
  assert (Hstop : exists L1' L2' b' db', L1 ++ L2 = L1' ++ L2' /\ Ret (default 0 (head L2), b, db) = Ret (default 0 (head L2'), b', db') /\
    flush_ok db' (L1' ++ L2') /\ db_dirties db' = db_dirties db0 /\ flushing db0 db' b' L1') by (by exists L1, L2, b, db).
  destruct (limit <? sz); [|done]. destruct L2 as [|h L2]; [done|]. cbn [head default from_option id].
  pose proof HL as (_ & H0 & Hdom & _). assert (Hh : h <> 0) by (intros ->; apply H0, elem_of_app; right; by left).
  destruct (Z.eqb_spec h 0); [done|]. cbn [andb negb].
  destruct (proj2 (Hdom h)) as [e He]; [right; apply elem_of_app; right; by left|]. rewrite He, (flush_head db L1 h L2 e HL He).
  assert (Hf1 : flushing db0 db (b ++ [(h, cn_rlp e)]) (L1 ++ [h])).
  { eapply flushing_perm; [|apply flushing_put; [exact Hf|done|by rewrite <- Hd]]. intros x. rewrite elem_of_cons, elem_of_app, list_elem_of_singleton. tauto. }
  change (h :: L2) with ([h] ++ L2) in *. rewrite app_assoc in HL |- *. simpl in Hlen.
  destruct (batch_full (b ++ [(h, cn_rlp e)])).
  - apply IH; [done|done|by apply write_flushing in Hf1 as [? _]|lia].
  - apply IH; [done..|lia].
Qed.

(** The second loop. *)
Lemma cap_drop_ok fuel L1 L2 D db :
  flush_ok db (L1 ++ L2) -> flushing db0 db [] D -> L1 ⊆ D -> (length L1 < fuel)%nat ->
  exists db', cap_drop fuel (default 0 (head L2)) db = Ret db' /\ flush_ok db' L2 /\ flushing db0 db' [] D /\ db_disk db' = db_disk db.
Proof.
  revert L1 db. induction fuel as [|fuel IH]; intros L1 db HL Hf HD Hlen; [lia|]. cbn [cap_drop].
  pose proof HL as (Hnd & H0 & Hdom & Hold & Hnew & Hl). rewrite Hold. destruct L1 as [|h L1].
  { simpl. rewrite Z.eqb_refl. by exists db. }
  simpl in *. apply NoDup_cons in Hnd as [Hh Hnd]. destruct Hl as [(e & He & Hn & _) Hl]. rewrite He.
  destruct (Z.eqb_spec h (default 0 (head L2))) as [E|_].
  { exfalso. destruct L2 as [|y L2]; simpl in E; [apply H0; rewrite E; by left|apply Hh, elem_of_app; right; rewrite E; by left]. }
  match goal with |- context [cap_drop fuel _ ?d] => set (db1 := d) end.
  assert (HL1 : flush_ok db1 (L1 ++ L2)).
  { split_and!; [done| | | | |].
    - intros Hin. apply H0. by right.
    - intros x. simpl. rewrite lookup_delete_is_Some, Hdom, elem_of_cons. split; [naive_solver|].
      intros Hx. split; [|naive_solver]. intros <-. destruct Hx as [->|?]; [apply H0; by left|done].
    - done.
    - intros x Hx. simpl. apply Hnew. rewrite last_cons, Hx. done.
    - simpl. apply linked_delete; [done|]. by eapply linked_any_prev. }
  destruct (IH L1 db1) as (db' & E & HL' & Hf' & Hk); [done| |intros x Hx; apply HD; by right|lia|by exists db'].
  eapply drop_flushing; [exact Hf|apply HD; by left|by eexists|done|]. by intros x.
Qed.

End cap.

(** The head of the list is unlinked from what was dropped. *)
Lemma cap_finish db0 db L D :
  flush_ok db L -> flushing db0 db [] D ->
  exists db', (if db_oldest db =? 0 then Ret db else upd (db_oldest db) (set_flushPrev 0) db) = Ret db' /\ flush_ok db' L /\
    flushing db0 db' [] D /\ db_disk db' = db_disk db.
Proof.
  intros HL Hf. destruct (Z.eqb_spec (db_oldest db) 0) as [|Ho]; [by exists db|].
  pose proof HL as (Hnd & H0 & Hdom & Hold & Hnew & Hl). destruct L as [|h L]; [done|]. simpl in Hold. rewrite Hold.
  destruct (proj2 (Hdom h)) as [e He]; [right; by left|]. rewrite (upd_some h _ _ e He). apply NoDup_cons in Hnd as [Hh Hnd'].
  assert (HL' : flush_ok (set_dirties (<[h := set_flushPrev 0 e]> (db_dirties db)) db) (h :: L)).
  { split_and!; [by apply NoDup_cons|done| |done|done|].
    - intros x. simpl. rewrite lookup_insert_is_Some', Hdom. split; [|by right]. intros [<-|?]; [right; by left|done].
    - eapply linked_any_prev, linked_set_prev; [exact Hl|done|done]. }
  eexists. split_and!; [done|done| |done]. destruct Hf as [_ He1 Hg Hd Hb Hdn]. split; try done; [by eexists| |].
  - intros x ex. simpl. destruct (decide (x = h)) as [->|Hne]; [|rewrite lookup_insert_ne by done; apply He1].
    rewrite lookup_insert_eq. intros [= <-]. destruct (He1 h e He) as (e1 & E1 & Hda). by exists e1.
  - intros x e0 E0. simpl. rewrite lookup_insert_None. intros [Hn _]. by apply Hg.
Qed.

Section reading.
Context {CR : Crypto} {KO : KeccakOk}.

Lemma db_Cap_ok batch_full limit db L :
  db_ok db -> flush_ok db L ->
  exists db' L1 L2, db_Cap batch_full limit db = Ret db' /\ L = L1 ++ L2 /\ flush_ok db' L2 /\ (forall x, db_node db' x = db_node db x) /\
    forall x, x ∈ L1 -> exists e, db_dirties db !! x = Some e /\ db_disk db' !! x = Some (cn_rlp e).
Proof.
  intros Hok HL. unfold db_Cap. set (fp := 4 * 1024 * 1024 <? db_preimagesSize db). set (db0 := if fp then write_preimages db else db).
  assert (HP : db_dirties db0 = db_dirties db /\ db_disk db0 = db_disk db /\ flush_ok db0 L).
  { unfold db0. destruct fp; [|done]. destruct (write_preimages_db db) as (? & ? & ?). auto. }
  destruct HP as (P1 & P2 & HL0). assert (Hok0 : db_ok db0) by (unfold db_ok; by rewrite P1). pose proof HL0 as (_ & _ & _ & Ho & _). rewrite Ho.
  match goal with |- context [cap_write _ _ _ ?s] => set (sz := s) end. pose proof (flush_length db0 L HL0) as Hlen.
  destruct (cap_write_ok batch_full db0 (S (size (db_dirties db0))) limit sz [] L [] db0) as (L1 & L2 & b1 & db1 & EL & E1 & HL1 & Hd1 & Hf1);
    [done|done|by eapply flushing_start|done|]. simpl in EL. subst L. cbv zeta. rewrite E1. cbn [mbind outcome_mbind outcome_bind].
  destruct (write_flushing db0 db1 b1 L1 Hf1) as [Hf2 Hdk2]. set (db2 := write_batch b1 db1) in *.
  set (db3 := if fp then clear_preimages db2 else db2).
  assert (HC : db_dirties db3 = db_dirties db2 /\ db_disk db3 = db_disk db2 /\ (forall L, flush_ok db2 L -> flush_ok db3 L)).
  { unfold db3. destruct fp; [apply clear_preimages_db|done]. }
  destruct HC as (C1 & C2 & C3). assert (Hf3 : flushing db0 db3 [] L1).
  { destruct Hf2 as [[L' ?] He Hg Hd Hb Hdn]. split; rewrite ?C1, ?C2; try done. exists L'. by apply C3. }
  destruct (cap_drop_ok db0 (S (size (db_dirties db0))) L1 L2 L1 db3) as (db4 & E4 & HL4 & Hf4 & Hk4);
    [by apply C3, flush_write|done|done|rewrite length_app in Hlen; lia|]. rewrite E4. cbn [mbind outcome_mbind outcome_bind].
  destruct (cap_finish db0 db4 L2 L1 HL4 Hf4) as (db5 & E5 & HL5 & Hf5 & Hk5). exists db5, L1, L2. split_and!; [exact E5|done|done| |].
  - intros x. rewrite (flushing_reads db0 db5 [] L1 x Hok0 Hf5). by apply db_node_eq.
  - intros x Hx. rewrite Hk5, Hk4, C2, <- P1. by apply Hdk2.
Qed.
End reading.

(** * What is on disk after [Commit] of [trie/database.go]

    The trie of the committed root can
    be opened from the disk alone. *)

Lemma gather_first_in (f : node -> outcome (list Hash)) k cs l i c lc :
  gather_first f k cs = Ret l -> cs !! i = Some c -> (i < k)%nat -> f c = Ret lc -> lc ⊆ l.
Proof.
  revert k l i. induction cs as [|a cs IH]; intros k l i Hg Hi Hlt Hc; [done|]. destruct k as [|k]; [lia|].
  change (gather_first f (S k) (a :: cs)) with (l ← f a; ls ← gather_first f k cs; Ret (l ++ ls)) in Hg.
  destruct (f a) as [la| |] eqn:Ea; try done. cbn [mbind outcome_mbind outcome_bind] in Hg.
  destruct (gather_first f k cs) as [ls| |] eqn:Es; try done. injection Hg as <-. destruct i as [|i].
  - injection Hi as ->. rewrite Ea in Hc. injection Hc as ->. by apply list_subseteq_app_l.
  - apply list_subseteq_app_r. by eapply (IH k ls i); [done|done|lia|].
Qed.

Lemma reach_trans d x y z : reach d x y -> reach d y z -> reach d x z.
Proof. induction 1; [done|]. intros. eapply reach_step; eauto. Qed.

Section durable.
Context {CR : Crypto} {KO : KeccakOk}.

(** The raw node depends only on the encoding of the tree. *)
Fixpoint collapsed (n : node) : node :=
  match n with
  | shortNode k v _ => rawShortNode (hexToCompact k) (collapsed v)
  | fullNode cs _ => rawFullNode (collapsed <$> cs)
  | _ => n
  end.

Lemma raw_collapsed t : wf t -> (forall hash, collapsed (loaded hash t) = raw t) /\ collapsed (loaded_ref t) = raw_ref t.
Proof.
  revert t. apply (wf_children (fun t => (forall hash, collapsed (loaded hash t) = raw t) /\ collapsed (loaded_ref t) = raw_ref t)); [done|done| |].
  - intros k c Hw [_ IH]. assert (E : forall hash, collapsed (loaded hash (TShort k c)) = raw (TShort k c))
      by (intros hash; rewrite loaded_short, raw_short, <- IH; done).
    split; [done|]. unfold raw_ref, loaded_ref. destruct (length _ <? 32)%nat; [apply E|done].
  - intros cs Hw IH. assert (E : forall hash, collapsed (loaded hash (TFull cs)) = raw (TFull cs)).
    { intros hash. rewrite loaded_full, raw_full. cbn [collapsed]. f_equal. rewrite <- list_fmap_compose. apply list_fmap_ext. intros i c Hc.
      rewrite Forall_lookup in IH. by apply (IH i c Hc). }
    split; [done|]. unfold raw_ref, loaded_ref. destruct (length _ <? 32)%nat; [apply E|done].
Qed.

Lemma raw_tenc t u : wf t -> wf u -> fits (tenc t) -> tenc t = tenc u -> raw t = raw u.
Proof.
  intros Ht Hu Hf E. rewrite <- (proj1 (raw_collapsed t Ht) None), <- (proj1 (raw_collapsed u Hu) None).
  by rewrite (loaded_tenc None t u).
Qed.

(** The database of a node that starts on a disk. *)
Definition on_disk (db : Database) : Hash -> outcome (option node) := db_node (NewDatabase (db_disk db) (db_diskPreimages db)).

Lemma on_disk_node db x : x <> 0 -> db_dirties db !! x = None -> on_disk db x = db_node db x.
Proof. intros H0 Hd. unfold on_disk, db_node. rewrite Hd. simpl. by rewrite lookup_singleton_ne. Qed.

Lemma on_disk_same db db' x : x <> 0 -> db_disk db' !! x = db_disk db !! x -> on_disk db' x = on_disk db x.
Proof. intros H0 Hd. unfold on_disk, db_node. simpl. rewrite !lookup_singleton_ne by done. by rewrite Hd. Qed.

Lemma below_in_mono db1 db2 t :
  (forall c, tenc c ∈ tencs t -> wf c -> in_db db1 c -> in_db db2 c) -> below_in_db db1 t -> below_in_db db2 t.
Proof.
  intros H Hb. induction Hb as [| |k c Hin Hb IH|cs Hin Hb IH]; constructor.
  - intros Hw Hs. apply H; [apply tencs_short, tencs_self; done|done|by apply Hin].
  - apply IH. intros u Hu. apply H. by apply (tencs_short k).
  - intros i c Hc Hw Hs. apply H; [apply (tencs_child cs i c Hc), tencs_self; done|done|by apply (Hin i)].
  - intros i c Hc. apply (IH i c Hc). intros u Hu. apply H. by apply (tencs_child cs i c Hc).
Qed.

(** What of the tree is on disk is there with all it refers to. *)
Definition disk_closed (db : Database) (t : tree) : Prop :=
  forall c, tenc c ∈ tencs t -> wf c -> in_db (on_disk db) c -> below_in_db (on_disk db) c.

Section committed.
Context (db db' : Database) (root : Hash).
Context (Hok : db_ok db).
Context (Hdisk : forall x, db_disk db' !! x = db_disk db !! x \/ exists e, db_dirties db !! x = Some e /\ db_disk db' !! x = Some (cn_rlp e)).
Context (Hreach : forall x e, reach (db_dirties db) root x -> db_dirties db !! x = Some e -> db_disk db' !! x = Some (cn_rlp e)).

(** Whatever is in memory of these is reached from the root. *)
Definition covered (l : list Hash) : Prop := forall x, x ∈ l -> is_Some (db_dirties db !! x) -> reach (db_dirties db) root x.

Lemma kept_on_disk c : agrees db (tenc c) -> in_db (on_disk db) c -> in_db (on_disk db') c.
Proof.
  intros (H0 & He & Hb) Hin. unfold in_db. rewrite (on_disk_same db db'); [done..|]. fold (thash c) in *.
  destruct (Hdisk (thash c)) as [|(e & E & ->)]; [done|]. rewrite (He e E). unfold in_db, on_disk, db_node in Hin. simpl in Hin.
  fold (thash c) in Hin. rewrite lookup_singleton_ne in Hin by done. destruct (db_disk db !! thash c) as [b|]; [|done]. by rewrite (Hb b).
Qed.

(** A node with an encoding of its own, given what holds below it. *)
Lemma node_durable t :
  wf t -> (forall x, x ∈ tencs t -> agrees db x) -> disk_closed db t -> in_db (db_node db) t -> covered [thash t] ->
  (forall l, forGatherChildren (raw t) = Ret l -> covered l -> below_in_db (on_disk db') t) -> stored (on_disk db') t.
Proof.
  intros Hw Hag Hcl Hin Hcov IH. destruct (Hag (tenc t) (tencs_self t Hw)) as (H0 & He & Hb). fold (thash t) in *.
  destruct (db_dirties db !! thash t) as [e|] eqn:E.
  - destruct (Hok _ _ E H0) as (u & Hu & Hn & Hh & Hf). pose proof (cn_rlp_raw e u Hu Hn) as Er. rewrite (He e eq_refl) in Er.
    assert (Hr : reach (db_dirties db) root (thash t)) by (apply Hcov; [by left|by eexists]). split.
    + apply disk_in_db; [done|by rewrite Er| |by rewrite <- (He e eq_refl); apply Hreach]. simpl. by rewrite lookup_singleton_ne.
    + destruct (gather_raw u Hu) as [l Hl].
      apply (IH l); [rewrite (raw_tenc t u) by (by rewrite ?Er); done|]. intros x Hx Hs.
      eapply reach_trans; [exact Hr|]. eapply (reach_step _ _ e); [done| |apply elem_of_app; right; exact Hx|destruct Hs as [ex Ex]; by eapply reach_refl].
      unfold forChilds. by rewrite Hn, Hl.
  - assert (Hd : in_db (on_disk db) t) by (unfold in_db; by rewrite on_disk_node).
    split; [by apply kept_on_disk; [apply Hag, tencs_self|]|]. eapply below_in_mono; [|apply Hcl; [by apply tencs_self|done|done]].
    intros c Hc Hwc. by apply kept_on_disk, Hag.
Qed.

(** A child: what is below it, and the node itself if it has an encoding of its own. *)
Lemma child_durable c l :
  wf c \/ c = TNil \/ (exists v, c = TVal v) -> (forall x, x ∈ tencs c -> agrees db x) -> disk_closed db c ->
  (wf c -> ~ small c -> in_db (db_node db) c) -> forGatherChildren (raw_ref c) = Ret l -> covered l ->
  (wf c -> forall l, forGatherChildren (raw c) = Ret l -> covered l -> below_in_db (on_disk db') c) ->
  (wf c -> ~ small c -> in_db (on_disk db') c) /\ below_in_db (on_disk db') c.
Proof.
  intros Hw Hag Hcl Hin Hl Hcov IH. destruct Hw as [Hw|[->|[v ->]]].
  2, 3: split; [intros Hwf; by inversion Hwf|constructor].
  assert (Hr : raw_ref c = if (length (tenc c) <? 32)%nat then raw c else hashNode (Keccak256 (tenc c))) by by destruct Hw.
  rewrite Hr in Hl. destruct (Nat.ltb_spec (length (tenc c)) 32) as [Hs|Hs].
  - split; [by intros _ []|by eapply IH].
  - injection Hl as <-. destruct (node_durable c) as [? ?]; eauto. apply Hin; [done|unfold small; lia].
Qed.

Lemma tree_durable t :
  wf t -> (forall x, x ∈ tencs t -> agrees db x) -> disk_closed db t -> below_in_db (db_node db) t ->
  forall l, forGatherChildren (raw t) = Ret l -> covered l -> below_in_db (on_disk db') t.
Proof.
  revert t. apply (wf_children (fun t => (forall x, x ∈ tencs t -> agrees db x) -> disk_closed db t -> below_in_db (db_node db) t ->
    forall l, forGatherChildren (raw t) = Ret l -> covered l -> below_in_db (on_disk db') t)).
  - constructor.
  - constructor.
  - intros k c Hw IH Hag Hcl Hb l Hl Hcov. inversion Hb as [| |? ? Hin Hbc|]; subst.
    assert (Hag' : forall x, x ∈ tencs c -> agrees db x) by (intros x Hx; apply Hag; by apply tencs_short).
    assert (Hcl' : disk_closed db c) by (intros u Hu; apply Hcl; by apply tencs_short).
    destruct (child_durable c l) as [? ?]; try done; [|by intros _ l' ? ?; eapply IH|by constructor].
    apply wf_short_inv in Hw as [(ns & v & _ & -> & _)|(cs & -> & _ & _ & Hf)]; [right; right; by exists v|by left].
  - intros cs Hw IH Hag Hcl Hb l Hl Hcov. inversion Hb as [| | |? Hin Hbc]; subst. rewrite raw_full in Hl. cbn [forGatherChildren] in Hl.
    assert (Hc : forall i c, cs !! i = Some c -> (wf c -> ~ small c -> in_db (on_disk db') c) /\ below_in_db (on_disk db') c).
    { intros i c Hc. rewrite Forall_lookup in IH. inversion Hw as [| |? Hlen Hlow Htop _]; subst. apply lookup_lt_Some in Hc as Hlt.
      assert (Hag' : forall x, x ∈ tencs c -> agrees db x) by (intros x Hx; apply Hag; by apply (tencs_child cs i c)).
      assert (Hcl' : disk_closed db c) by (intros u Hu; apply Hcl; by apply (tencs_child cs i c)).
      destruct (decide (c = TNil)) as [->|Hnil]; [split; [intros Hwf; by inversion Hwf|constructor]|].
      destruct (decide (i = 16%nat)) as [->|Hne]; [destruct (Htop c Hc Hnil) as (v & _ & ->); split; [intros Hwf; by inversion Hwf|constructor]|].
      assert (Hwc : wf c) by (apply (Hlow i); auto with lia). destruct (proj2 (gather_raw_ref c Hwc)) as [lc Hlc].
      apply (child_durable c lc); auto; [by apply (Hin i)| |by intros _ l' ? ?; eapply (IH i c Hc); [..|by apply (Hbc i)| |]].
      intros x Hx. apply Hcov. eapply (gather_first_in _ 16); [exact Hl|by rewrite list_lookup_fmap, Hc|lia|done|done]. }
    constructor; intros i c Hi; by apply (Hc i c Hi).
Qed.
End committed.

(** ** Commit and restart *)

Lemma db_Commit_durable batch_full db L rank fuel tr m :
  wf tr -> contents tr m -> stored (db_node db) tr -> db_inv (tencs tr) db -> flush_ok db L -> disk_closed db tr ->
  ranked (db_dirties db) rank -> (rank (thash tr) < fuel)%nat -> thash tr <> emptyRoot ->
  exists db', db_Commit batch_full fuel (thash tr) db = Ret db' /\ (forall x, db_node db' x = db_node db x) /\
    (exists L', flush_ok db' L') /\
    let db1 := NewDatabase (db_disk db') (db_diskPreimages db') in
    exists t, New (db_node db1) (thash tr) = TRet t /\ trie_at db1 t tr m.
Proof.
  intros Hw Hc [Hin Hb] (Hok & _ & Hag) HL Hcl Hr Hf He. destruct (Hag _ (tencs_self tr Hw)) as (H0 & _).
  destruct (db_Commit_ok batch_full db L rank fuel (thash tr) Hok HL Hr H0 Hf) as (db' & L' & E & HL' & Hn & Hd & Hre).
  exists db'. split_and!; [done|done|by exists L'|]. apply open_stored; [done|done| |done|done].
  apply (node_durable db db' (thash tr)); [done..|intros x ->%list_elem_of_singleton [e Ee]; by eapply reach_refl|].
  intros l Hl Hcov. by eapply (tree_durable db db').
Qed.
End durable.
