(* ===== verification/TrieGc.v ===== *)
(** Garbage collection in the trie database: the operations that count references keep the counts
    right, and what [Dereference] drops is not needed by what is left. *)
From S2P Require Import Prelude KeyedList Common Rlp TrieEncoding TrieNode TrieDatabase TrieFlush TrieRefs Trie TrieSpec TrieProps TrieHash TrieCommit TrieStore TrieDisk.

Open Scope Z_scope.

(** ** Insertion *)

Lemma refs_view d d' P x :
  (forall k, (fun e => (cn_node e, cn_children e)) <$> d' !! k = (fun e => (cn_node e, cn_children e)) <$> d !! k) -> refs d' P x = refs d P x.
Proof.
  intros H. set (f := fun e : cachedNode => (cn_node e, cn_children e)).
  assert (E : f <$> d' = f <$> d) by (apply map_eq; intros k; rewrite !lookup_fmap; apply H).
  set (w := fun p (v : node * option (gmap Hash Z)) => weight P x p (mkCachedNode v.1 0 0 v.2 0 0)).
  assert (Hw : forall d : gmap Hash cachedNode, refs d P x = msum w (f <$> d)) by (intros d0; rewrite msum_fmap; by apply msum_ext).
  by rewrite !Hw, E.
Qed.

(** Every child that is in memory counts one more parent for each time it occurs. *)
Lemma bump_spec cs d x :
  match d !! x with
  | None => bump_parents cs d !! x = None
  | Some e => exists e', bump_parents cs d !! x = Some e' /\ same_refs e e' /\
      (x ∉ cs -> cn_parents e' = cn_parents e) /\
      (0 <= cn_parents e -> cn_parents e + count x cs < 2 ^ 32 -> cn_parents e' = cn_parents e + count x cs)
  end.
Proof.
  revert d. induction cs as [|c cs IH]; intros d; [simpl; destruct (d !! x) as [e|]; [|done]; exists e; split_and!; [done..|lia]|].
  change (bump_parents (c :: cs) d) with (bump_parents cs (match d !! c with
    Some e => <[c := set_parents ((cn_parents e + 1) mod 2 ^ 32) e]> d | None => d end)). simpl count. destruct (Z.eqb_spec x c) as [->|Hne].
  - destruct (d !! c) as [e|] eqn:Ec; [|specialize (IH d); by rewrite Ec in IH]. specialize (IH (<[c := set_parents ((cn_parents e + 1) mod 2 ^ 32) e]> d)).
    rewrite lookup_insert_eq in IH. destruct IH as (e' & E' & Hs & _ & Hp). exists e'. split_and!; [done|done|intros []; by left|]. intros H0 Hlt. pose proof (count_nonneg c cs).
    assert (Em : (cn_parents e + 1) mod 2 ^ 32 = cn_parents e + 1) by (apply Z.mod_small; lia). simpl in Hp. rewrite Em in Hp. rewrite Hp by lia. lia.
  - assert (E : (match d !! c with Some e => <[c := set_parents ((cn_parents e + 1) mod 2 ^ 32) e]> d | None => d end) !! x = d !! x)
      by (destruct (d !! c); [by rewrite lookup_insert_ne|done]).
    specialize (IH (match d !! c with Some e => <[c := set_parents ((cn_parents e + 1) mod 2 ^ 32) e]> d | None => d end)). rewrite E in IH. rewrite Z.add_0_l.
    destruct (d !! x) as [e|]; [|done]. destruct IH as (e' & E' & Hs & Hn & Hp). exists e'. split_and!; [done|done| |done]. rewrite not_elem_of_cons. intros [_ ?]. by apply Hn.
Qed.

Lemma bump_back cs d x e' : bump_parents cs d !! x = Some e' -> exists e, d !! x = Some e /\ same_refs e e' /\
  (x ∉ cs -> cn_parents e' = cn_parents e) /\ (0 <= cn_parents e -> cn_parents e + count x cs < 2 ^ 32 -> cn_parents e' = cn_parents e + count x cs).
Proof. intros Hx. pose proof (bump_spec cs d x) as Hb. destruct (d !! x) as [e|]; [|congruence]. destruct Hb as (e1 & E1 & Hb). simplify_eq. by exists e. Qed.

Lemma bump_dom cs d x : is_Some (bump_parents cs d !! x) <-> is_Some (d !! x).
Proof.
  pose proof (bump_spec cs d x) as Hb. destruct (d !! x) as [e|]; [destruct Hb as (e1 & -> & _); split; by eexists|]. rewrite Hb. done.
Qed.

Lemma bump_refs cs d P x : refs (bump_parents cs d) P x = refs d P x.
Proof.
  apply refs_view. intros k. pose proof (bump_spec cs d k) as Hb. destruct (d !! k) as [e|]; [destruct Hb as (e1 & -> & [H1 H2] & _)|by rewrite Hb].
  simpl. by rewrite H1, H2.
Qed.

Section ops.
Context (exact : bool) (rank : Hash -> nat).
Notation rc_inv := (rc_inv exact rank).
Notation rc_ok := (rc_ok exact rank).

(** What an insertion relies on: the children of the node are in memory or on disk, and are
    referenced less than 2^32 times. *)
Definition insert_pre (db : Database) (h : Hash) (n : node) : Prop :=
  h <> 0 /\ exists raw cs, simplifyNode n = Ret raw /\ forGatherChildren raw = Ret cs /\
    forall c, c ∈ cs -> c <> 0 /\ (rank c < rank h)%nat /\ (is_Some (db_dirties db !! c) \/ is_Some (db_disk db !! c)) /\
      forall e, db_dirties db !! c = Some e -> cn_parents e + count c cs < 2 ^ 32.

Lemma parents_nonneg db x e : rc_inv db [] [] -> db_dirties db !! x = Some e -> x <> 0 -> db_disk db !! x = None -> 0 <= refs (db_dirties db) [] x <= cn_parents e.
Proof.
  intros [Hc _ Hen _] He H0 Hd. pose proof (Hc x e He H0 (not_elem_of_nil _) Hd) as [H _]. simpl in H. split; [|lia].
  transitivity (mult e x); [apply mult_nonneg; by destruct (Hen x e He)|]. apply (refs_ge _ _ x); [|done|apply not_elem_of_nil].
  intros k ek Hk. by destruct (Hen k ek Hk).
Qed.

(** Nothing in memory refers to a node that is neither in memory nor on disk. *)
Lemma no_refs db x : rc_inv db [] [] -> db_dirties db !! x = None -> db_disk db !! x = None -> refs (db_dirties db) [] x = 0.
Proof.
  intros [_ Hcl Hen _] Hx Hd. unfold refs. rewrite (msum_ext _ (fun _ _ => 0)); [|].
  - clear. induction (db_dirties db) as [|k a d Hk IH] using map_ind; [done|]. rewrite msum_insert by done. lia.
  - intros k e Hk. unfold weight. rewrite bool_decide_false by apply not_elem_of_nil. unfold mult, ext.
    assert (Hn : x ∉ childs e).
    { intros Hin. destruct (Hcl k e x Hk (not_elem_of_nil _) Hin) as [[[? Hs] _]|[? Hs]]; congruence. }
    unfold childs in Hn. rewrite elem_of_app in Hn. rewrite (count_not x (inner e)) by tauto. destruct (cn_children e) as [m|]; [|done].
    destruct (m !! x) as [v|] eqn:Ev; [|done]. destruct Hn. left. apply list_elem_of_fmap. exists (x, v). split; [done|by apply elem_of_map_to_list].
Qed.

(** The new entry refers to its children, and nothing refers to it. *)
Lemma insert_inv db h e cs :
  rc_inv db [] [] -> h <> 0 -> db_dirties db !! h = None -> cn_children e = None -> cn_parents e = 0 -> forGatherChildren (cn_node e) = Ret cs ->
  (forall c, c ∈ cs -> c <> 0 /\ (rank c < rank h)%nat /\ (is_Some (db_dirties db !! c) \/ is_Some (db_disk db !! c)) /\
     forall e, db_dirties db !! c = Some e -> cn_parents e + count c cs < 2 ^ 32) ->
  rc_inv (set_dirties (<[h := e]> (bump_parents cs (db_dirties db))) db) [] [].
Proof.
  intros Hi H0 Eh Hch Hp Hg Hcs. pose proof Hi as [Hc Hcl Hen [Hr Hr']]. set (d := bump_parents cs (db_dirties db)).
  assert (Hdn : d !! h = None) by (apply eq_None_not_Some; unfold d; rewrite bump_dom, Eh; by intros []).
  assert (Hce : childs e = cs) by (unfold childs, inner; by rewrite Hch, Hg).
  assert (Hrefs : forall x, refs (<[h := e]> d) [] x = refs (db_dirties db) [] x + count x cs).
  { intros x. rewrite <- (bump_refs cs (db_dirties db)). fold d. unfold refs. rewrite msum_insert by done. unfold weight at 1.
    rewrite bool_decide_false by apply not_elem_of_nil. unfold mult, ext, inner. rewrite Hch, Hg. lia. }
  assert (Hdom : forall x, is_Some (db_dirties db !! x) -> is_Some ((<[h := e]> d) !! x)).
  { intros x Hx. rewrite lookup_insert_is_Some'. right. by apply bump_dom. }
  split.
  - intros x ex. simpl. rewrite Hrefs. intros [[<- <-]|[Hne Hx]]%lookup_insert_Some Hx0 _ Hxd.
    + rewrite (no_refs db h) by done. rewrite count_not, Hp; [by split|]. intros Hin'. destruct (Hcs h Hin') as (_ & ? & _). lia.
    + destruct (bump_back _ _ _ _ Hx) as (e1 & He1 & _ & Hsame & Hpar). destruct (parents_nonneg db x e1 Hi He1 Hx0 Hxd) as [Hp0 Hp1].
      pose proof (Hc x e1 He1 Hx0 (not_elem_of_nil _) Hxd) as Hcx. simpl in Hcx.
      destruct (decide (x ∈ cs)) as [Hxc|Hxc].
      * destruct (Hcs x Hxc) as (_ & _ & _ & Hlt). rewrite (Hpar ltac:(lia) (Hlt e1 He1)). counts.
      * rewrite (count_not x cs Hxc), (Hsame Hxc). counts.
  - intros p ep c. simpl. intros [[<- <-]|[Hne Hx]]%lookup_insert_Some HP Hin.
    + rewrite Hce in Hin. destruct (Hcs c Hin) as (_ & _ & [Hs|Hs] & _); [left; split; [by apply Hdom|apply not_elem_of_nil]|by right].
    + destruct (bump_back _ _ _ _ Hx) as (e1 & He1 & Hs1 & _). rewrite (same_refs_childs _ _ Hs1) in Hin.
      destruct (Hcl p e1 c He1 HP Hin) as [[Hs _]|?]; [left; split; [by apply Hdom|apply not_elem_of_nil]|by right].
  - intros p ep. simpl. intros [[<- <-]|[Hne Hx]]%lookup_insert_Some.
    + split_and!; [intros m c n E; congruence|by eexists| |by intros _ _ x; unfold ext; rewrite Hch]. intros c Hin. rewrite Hce in Hin. by destruct (Hcs c Hin) as (? & ? & _).
    + destruct (bump_back _ _ _ _ Hx) as (e1 & He1 & [Hn1 Hc1] & _). destruct (Hen p e1 He1) as (K1 & K2 & K3 & K4).
      rewrite (same_refs_childs e1 ep) by done. unfold ext_ok, counts_once, ext in *. rewrite Hn1, Hc1. done.
  - split; [by apply Hdom|done].
Qed.

Lemma insert_rc db h sz n : rc_ok db -> insert_pre db h n -> exists db', db_insert h sz n db = Ret db' /\ rc_ok db'.
Proof.
  intros [Hi [L HL]] (H0 & raw & cs & Hs & Hg & Hcs). destruct (db_dirties db !! h) as [e0|] eqn:Eh.
  { exists db. split; [unfold db_insert; by rewrite Eh|]. split; [done|by exists L]. }
  destruct (db_insert_data db L h sz n raw cs HL Eh H0 Hs Hg) as (db' & e & E & HL' & Hn & Hp & Hch & Hd & Hk). exists db'. split; [done|].
  split; [|by exists (L ++ [h])]. 
  apply (rc_same exact rank (set_dirties (<[h := e]> (bump_parents cs (db_dirties db))) db)); [|done|done]. apply insert_inv; try done. by rewrite Hn.
Qed.

(** ** References *)

(** What a reference relies on: the parent is in memory, and neither counter is full. *)
Definition reference_pre (db : Database) (c p : Hash) : Prop :=
  c <> 0 /\ (p <> 0 -> (rank c < rank p)%nat) /\ is_Some (db_dirties db !! p) /\
  (forall e, db_dirties db !! c = Some e -> cn_parents e + 1 < 2 ^ 32) /\
  (forall e, db_dirties db !! p = Some e -> ext e c + 1 < 2 ^ 16).

Lemma elem_childs (e : cachedNode) c : c ∈ childs e <-> (exists m, cn_children e = Some m /\ is_Some (m !! c)) \/ c ∈ inner e.
Proof. clear exact rank.
  unfold childs. rewrite elem_of_app. destruct (cn_children e) as [m|]; [|rewrite elem_of_nil; naive_solver]. rewrite list_elem_of_fmap. split; (intros [H|H]; [left|by right]).
  - destruct H as ([k v] & -> & Hin). apply elem_of_map_to_list in Hin. exists m. split; [done|by eexists].
  - destruct H as (m' & [= <-] & [v Hv]). exists (c, v). split; [done|by apply elem_of_map_to_list].
Qed.

Lemma reference_inv db c p e pe m :
  rc_inv db [] [] -> db_dirties db !! c = Some e -> db_dirties db !! p = Some pe -> c <> 0 -> c <> p -> (p <> 0 -> (rank c < rank p)%nat) ->
  m = default ∅ (cn_children pe) -> cn_parents e + 1 < 2 ^ 32 -> ext pe c + 1 < 2 ^ 16 -> (p <> 0 -> ext pe c = 0) ->
  rc_inv (set_dirties (<[p := set_children (Some (<[c := (default 0 (m !! c) + 1) mod 2 ^ 16]> m)) pe]>
    (<[c := set_parents ((cn_parents e + 1) mod 2 ^ 32) e]> (db_dirties db))) db) [] [].
Proof.
  intros Hi He Hp H0 Hcp Hrk -> Hle Hlx Hnew. pose proof Hi as [Hc Hcl Hen [Hr Hr']]. destruct (Hen p pe Hp) as (Hok & Hg & Hrank & Hsi).
  set (m := default ∅ (cn_children pe)). assert (Em : forall x, default 0 (m !! x) = ext pe x) by (intros x; unfold m, ext; destruct (cn_children pe); [done|simpl; by rewrite lookup_empty]).
  pose proof (ext_nonneg pe c Hok). assert (Ec : (default 0 (m !! c) + 1) mod 2 ^ 16 = ext pe c + 1) by (rewrite Em; apply Z.mod_small; lia). rewrite Ec.
  set (pe' := set_children _ pe). set (e' := set_parents _ e). set (d := <[c := e']> (db_dirties db)).
  assert (Hpd : d !! p = Some pe) by (unfold d; by rewrite lookup_insert_ne).
  assert (Hext : forall x, ext pe' x = ext pe x + if x =? c then 1 else 0).
  { intros x. unfold pe', ext at 1. simpl. destruct (Z.eqb_spec x c) as [->|]; [by rewrite lookup_insert_eq|]. rewrite lookup_insert_ne, Em by done. lia. }
  assert (Hrefs : forall x, refs (<[p := pe']> d) [] x = refs (db_dirties db) [] x + if x =? c then 1 else 0).
  { intros x. transitivity (refs d [] x + if x =? c then 1 else 0); [|unfold d; rewrite (refs_set _ _ _ e) by (done || by right); done].
    unfold refs. rewrite (msum_set _ d p pe _ Hpd). unfold weight at 2 3. rewrite bool_decide_false by apply not_elem_of_nil. unfold mult. rewrite Hext.
    change (inner pe') with (inner pe). lia. }
  assert (Hdom : forall x, is_Some (db_dirties db !! x) -> is_Some ((<[p := pe']> d) !! x)).
  { intros x Hx. rewrite lookup_insert_is_Some'. right. unfold d. rewrite lookup_insert_is_Some'. by right. }
  assert (Hch : forall x, x ∈ childs pe' -> x = c \/ x ∈ childs pe).
  { intros x. rewrite !elem_childs. intros [(m' & [= <-] & Hs)|?]; [|right; by right]. apply lookup_insert_is_Some' in Hs as [->|Hs]; [by left|].
    unfold m in Hs. right. left. destruct (cn_children pe); [by eexists|]. simpl in Hs. rewrite lookup_empty in Hs. by destruct Hs. }
  split.
  - intros x ex. simpl. rewrite Hrefs. intros [[<- <-]|[Hne [[<- <-]|[Hne' Hx]]%lookup_insert_Some]]%lookup_insert_Some Hx0 Hnil Hd.
    + destruct (Z.eqb_spec p c); [done|]. pose proof (Hc p pe Hp Hx0 Hnil Hd). simpl in *. counts.
    + rewrite Z.eqb_refl. destruct (parents_nonneg db c e Hi He Hx0 Hd). pose proof (Hc c e He Hx0 Hnil Hd). simpl in *. rewrite Z.mod_small by lia. counts.
    + destruct (Z.eqb_spec x c); [done|]. pose proof (Hc x ex Hx Hx0 Hnil Hd). simpl in *. counts.
  - intros q eq x. simpl. assert (Hold : forall eq, db_dirties db !! q = Some eq -> q ∉ [] -> x ∈ childs eq -> is_Some ((<[p := pe']> d) !! x) /\ x ∉ [] \/ is_Some (db_disk db !! x)).
    { intros eq' Hq Hnil Hin. destruct (Hcl q eq' x Hq Hnil Hin) as [[Hs _]|?]; [left; split; [by apply Hdom|apply not_elem_of_nil]|by right]. }
    intros [[<- <-]|[Hne [[<- <-]|[Hne' Hx]]%lookup_insert_Some]]%lookup_insert_Some Hnil Hin; [|by eapply Hold..].
    apply Hch in Hin as [->|Hin]; [left; split; [apply Hdom; by eexists|apply not_elem_of_nil]|by eapply Hold].
  - intros q eq. simpl. intros [[<- <-]|[Hne [[<- <-]|[Hne' Hx]]%lookup_insert_Some]]%lookup_insert_Some; [|by apply (Hen c e)|by apply Hen].
    split_and!; [|done| |].
    + intros m' x n [= <-] [[<- <-]|[_ Hx]]%lookup_insert_Some; [lia|]. unfold m in Hx. destruct (cn_children pe) as [m0|] eqn:Em0; [by apply (Hok m0 x)|]. simpl in Hx. by rewrite lookup_empty in Hx.
    + intros x [->|Hin]%Hch; [done|by apply Hrank].
    + intros Hx Hp0 x. rewrite Hext. destruct (Z.eqb_spec x c) as [->|]; [rewrite (Hnew Hp0); lia|]. pose proof (Hsi Hx Hp0 x). lia.
  - split; [by apply Hdom|done].
Qed.

Lemma reference_rc db c p : rc_ok db -> reference_pre db c p -> exists db', db_reference c p db = Ret db' /\ rc_ok db'.
Proof.
  intros [Hi [L HL]] (H0 & Hrk & [pe Hp] & Hle & Hlx). unfold db_reference. assert (Hsame : exists db', Ret db = Ret db' /\ rc_ok db') by (exists db; split; [done|split; [done|by exists L]]).
  destruct (db_dirties db !! c) as [e|] eqn:He; [|done]. rewrite Hp. destruct (_ && _) eqn:Ek; [done|].
  assert (Hnew : p <> 0 -> ext pe c = 0).
  { intros Hp0. apply Z.eqb_neq in Hp0. rewrite Hp0, andb_true_r in Ek. unfold ext. destruct (cn_children pe) as [m|]; [|done]. apply bool_decide_eq_false in Ek. by destruct (m !! c); [destruct Ek; eexists|]. }
  assert (Hcp : c <> p) by (intros ->; specialize (Hrk H0); lia). rewrite (upd_some c _ _ e He). cbn [mbind outcome_mbind outcome_bind].
  rewrite (upd_some p _ _ pe) by (simpl; by rewrite lookup_insert_ne). cbn [mbind outcome_mbind outcome_bind]. eexists. split; [done|]. split.
  - by apply (rc_same exact rank _ _ [] [] (reference_inv db c p e pe _ Hi He Hp H0 Hcp Hrk eq_refl (Hle e eq_refl) (Hlx pe Hp) Hnew)).
  - exists L. apply flush_part_nil. apply flush_part_nil in HL. apply (flush_part_set db L [] c e (set_parents ((cn_parents e + 1) mod 2 ^ 32) e) (db_dirtiesSize db) (db_childrenSize db)) in HL; [|done..].
    eapply (flush_part_set _ L [] p pe) in HL; [exact HL|simpl; by rewrite lookup_insert_ne|done|done].
Qed.
End ops.

(** ** Histories *)

Inductive gc_op : Type :=
| GInsert (hash : Hash) (size : Z) (n : node)
| GReference (child parent : Hash)
| GDereference (root : Hash).

Definition run_gc (fuel : nat) (db : Database) (o : gc_op) : outcome Database :=
  match o with
  | GInsert h size n => db_insert h size n db
  | GReference c p => db_reference c p db
  | GDereference r => db_Dereference fuel r db
  end.

(** The metaroot refers to a root. *)
Definition rooted (db : Database) (r : Hash) : Prop := exists p, db_dirties db !! 0 = Some p /\ 1 <= ext p r.

Section histories.
Context (exact : bool) (rank : Hash -> nat) (fuel : nat).

(** What the callers promise: children are stored before their parents, counters do not overflow,
    and a root is dereferenced only as often as it was referenced. *)
Definition gc_pre (db : Database) (o : gc_op) : Prop :=
  match o with
  | GInsert h _ n => insert_pre rank db h n
  | GReference c p => reference_pre rank db c p
  | GDereference r => r <> 0 /\ (rank r < fuel)%nat /\ rooted db r
  end.

Fixpoint run_history (db : Database) (os : list gc_op) : outcome Database :=
  match os with
  | [] => Ret db
  | o :: os => db ← run_gc fuel db o; run_history db os
  end.

Fixpoint allowed (db : Database) (os : list gc_op) : Prop :=
  match os with
  | [] => True
  | o :: os => gc_pre db o /\ forall db', run_gc fuel db o = Ret db' -> allowed db' os
  end.

Lemma gc_step db o : rc_ok exact rank db -> gc_pre db o -> exists db', run_gc fuel db o = Ret db' /\ rc_ok exact rank db'.
Proof.
  intros Hi Hp. destruct o as [h sz n|c p|r]; [by apply insert_rc|by apply reference_rc|]. destruct Hp as (H0 & Hf & p & Hp & Hx).
  destruct (Dereference_ok exact rank fuel r db p Hi H0 Hp Hx Hf) as (db' & E & Hi' & _). by exists db'.
Qed.

Lemma gc_history db os : rc_ok exact rank db -> allowed db os -> exists db', run_history db os = Ret db' /\ rc_ok exact rank db'.
Proof.
  revert db. induction os as [|o os IH]; intros db Hi Ha; [by exists db|]. destruct Ha as [Hp Ha]. destruct (gc_step db o Hi Hp) as (db1 & E1 & Hi1).
  cbn [run_history]. rewrite E1. cbn [mbind outcome_mbind outcome_bind]. apply IH; [done|by apply Ha].
Qed.

Lemma rc_new disk preimages : rc_ok exact rank (NewDatabase disk preimages).
Proof.
  split; [|exists []; apply flush_new]. assert (Hx : forall x e, db_dirties (NewDatabase disk preimages) !! x = Some e -> x = 0 /\ e = metaroot).
  { intros x e. simpl. rewrite lookup_singleton_Some. by intros [<- <-]. }
  assert (Hm : childs metaroot = []) by by vm_compute. split.
  - intros x e [-> _]%Hx. done.
  - intros p e c [-> ->]%Hx _. rewrite Hm. by intros ?%elem_of_nil.
  - intros p e [-> ->]%Hx. split_and!; [|by eexists|rewrite Hm; by intros c ?%elem_of_nil|done]. intros m c n [= <-]. by rewrite lookup_empty.
  - split; [simpl; by rewrite lookup_singleton_eq|apply not_elem_of_nil].
Qed.
End histories.

(** ** What is kept *)

(** What is on disk is there with all it refers to, and is what is in memory. *)
Definition disk_sound (db : Database) : Prop :=
  forall x e b, db_dirties db !! x = Some e -> x <> 0 -> db_disk db !! x = Some b ->
    b = cn_rlp e /\ forall c, c ∈ childs e -> is_Some (db_disk db !! c).

Section keeping.
Context {CR : Crypto} {KO : KeccakOk} (exact : bool) (rank : Hash -> nat).

Lemma reached_kept db db' root p y x :
  rc_inv exact rank db [] [] -> rc_inv exact rank db' [] [] -> dereferenced root p db db' -> disk_sound db -> y <> 0 ->
  is_Some (db_dirties db' !! y) \/ is_Some (db_disk db !! y) -> reach (db_dirties db) y x ->
  x <> 0 /\ (is_Some (db_dirties db' !! x) \/ is_Some (db_disk db !! x)).
Proof.
  intros Hi Hi' (Hd & Hx & _) Hs Hy0 Hy Hr. induction Hr as [y e He|y e cs c z He Hcs Hc Hr IH]; [done|].
  destruct (rc_entry _ _ _ _ _ Hi y e He) as (_ & Hg & Hrk & _). rewrite (forChilds_childs e Hg) in Hcs. injection Hcs as <-.
  apply IH; [by destruct (Hrk c Hc)|]. destruct (db_dirties db' !! y) as [e'|] eqn:Ey.
  - destruct (Hx y e' Ey Hy0) as (e1 & E1 & Hn & Hch). rewrite He in E1. injection E1 as <-.
    rewrite <- Hd. destruct (rc_closed _ _ _ _ _ Hi' y e' c Ey (not_elem_of_nil _)) as [[? _]|?]; [by rewrite (same_refs_childs e e')|by left|by right].
  - destruct Hy as [[? ?]|[b Hb]]; [done|]. right. by destruct (Hs y e b He Hy0 Hb) as [_ H]; apply H.
Qed.

(** A node that is on disk reads like its entry. *)
Lemma reads_kept db db' root p x :
  db_ok db -> disk_sound db -> dereferenced root p db db' -> x <> 0 -> is_Some (db_dirties db' !! x) \/ is_Some (db_disk db !! x) ->
  db_node db' x = db_node db x.
Proof.
  intros Hok Hs (Hd & Hx & _) H0 Hor. destruct (db_dirties db' !! x) as [e'|] eqn:E'.
  - destruct (Hx x e' E' H0) as (e & E & Hn & _). unfold db_node, cn_obj. by rewrite E, E', Hn.
  - destruct Hor as [[? ?]|[b Hb]]; [done|]. destruct (db_dirties db !! x) as [e|] eqn:E; [|unfold db_node; by rewrite E, E', Hd].
    destruct (Hs x e b E H0 Hb) as [-> _]. destruct (Hok x e E H0) as (t & Hw & Hn & -> & Hf).
    assert (H1 : in_db (db_node db) t) by (eapply entry_in_db; eauto using cn_rlp_raw).
    assert (H2 : in_db (db_node db') t) by (apply disk_in_db; [done..|]; by rewrite Hd, Hb, (cn_rlp_raw e t)).
    unfold in_db in H1, H2. fold (thash t) in H1, H2. congruence.
Qed.

Lemma rooted_kept db' r : rc_inv exact rank db' [] [] -> rooted db' r -> r <> 0 /\ (is_Some (db_dirties db' !! r) \/ is_Some (db_disk db' !! r)).
Proof.
  intros Hi (p & Hp & Hx). assert (Hin : r ∈ childs p).
  { apply elem_childs. left. unfold ext in Hx. destruct (cn_children p) as [m|]; [|lia]. exists m. split; [done|]. destruct (m !! r); [by eexists|simpl in Hx; lia]. }
  split; [by destruct (rc_entry _ _ _ _ _ Hi 0 p Hp) as (_ & _ & H & _); destruct (H r Hin)|].
  destruct (rc_closed _ _ _ _ _ Hi 0 p r Hp (not_elem_of_nil _) Hin) as [[? _]|?]; auto.
Qed.

(** The last reference drops the entry. *)
Lemma release_frees fuel h db db' e :
  release fuel h db = Ret db' -> db_dirties db !! h = Some e -> cn_parents e <= 1 -> db_dirties db' !! h = None.
Proof.
  unfold release. intros E He Hp. rewrite He, (upd_some h _ _ e He) in E. cbn [mbind outcome_mbind outcome_bind] in E.
  destruct (Z.eqb_spec (if 0 <? cn_parents e then cn_parents e - 1 else 0) 0) as [_|Hne]; [|destruct (Z.ltb_spec 0 (cn_parents e)); lia].
  destruct (unlink _ _ _) as [db1| |]; try done. cbn [mbind outcome_mbind outcome_bind] in E. destruct (forChilds e) as [cs| |]; try done.
  cbn [mbind outcome_mbind outcome_bind] in E. destruct (foldl _ _ _) as [db2| |]; try done. injection E as <-. simpl. apply lookup_delete_eq.
Qed.
End keeping.
