(* ===== verification/TrieTheorems.v ===== *)
(** What the trie promises to its users: it is a map from byte strings to byte strings, its
    root hash stands for the contents, and a committed trie is read back from the database
    and, after [Commit] of the database, from the disk. *)
From S2P Require Import Prelude KeyedList Common Rlp TrieEncoding TrieNode TrieDatabase TrieFlush TrieRefs Trie TrieSpec TrieProps TrieHash TrieCommit TrieStore TrieCommitProps TrieProof TrieDisk TrieGc.

Open Scope Z_scope.

Section theorems.
Context {CR : Crypto} {KO : KeccakOk}.

(** The results of a sequence of operations are those on the map, and so is what the trie
    holds afterwards. *)
Definition serves (db : Database) (t : Trie) (m : byte_map) : Prop :=
  forall os, Forall (fun o => Forall byte_ok (op_key o)) os ->
  exists t' tr', run_ops (db_node db) t os = TRet ((map_ops m os).1, t') /\ trie_at db t' tr' (map_ops m os).2.

Lemma trie_at_serves db t tr m : trie_at db t tr m -> serves db t m.
Proof.
  intros Hat os Hos. destruct (@ops_hold (HashStore (stored (db_node db))) (db_node db) _ t m os) as (t' & E & tr' & H); [by exists tr|done|].
  by exists t', tr'.
Qed.

(** C8. The trie is a map.  Any sequence of reads, updates and deletions, on a trie whose nodes
    are in memory or in the database, gives the results of the same operations on a finite
    map, where an update with an empty value deletes; no node is reported missing, nothing
    panics, and the number of steps that the walk down the trie is given is enough. *)
Theorem Trie_refines_map db t tr m : trie_at db t tr m -> serves db t m.
Proof. apply trie_at_serves. Qed.

(** Nodes have the shape that the code relies on.  After any sequence of operations the trie is
    empty or its root and every node in memory below it is well shaped: a leaf with a non-empty value, an
    extension that leads to a branch, or a branch with seventeen places, at least two of
    them taken, the last by a value; keys are nibbles, and only those of leaves are terminated. *)
Theorem Trie_well_shaped db t tr m os :
  trie_at db t tr m -> Forall (fun o => Forall byte_ok (op_key o)) os ->
  exists rs t', run_ops (db_node db) t os = TRet (rs, t') /\ (t_root t' = nil_node \/ well_shaped (t_root t') = true).
Proof.
  intros Hat Hos. destruct (trie_at_serves db t tr m Hat os Hos) as (t' & tr' & E & Hr & Hw & _). exists (map_ops m os).1, t'. split; [done|].
  destruct (decide (tr' = TNil)) as [->|Hn]; [|right; by apply (srep_shape _ _ _ _ _ Hr), Hw].
  left. pose proof (proj2 (rep_nil_iff _ _ _ _ _ Hr) eq_refl) as Hnil. by destruct (t_root t').
Qed.

(** C10. The root hash stands for the contents.  Two tries, with any history and any part of
    their nodes in memory, have the same root hash when they hold the same map; and when
    Keccak256 does not map two of their node encodings to one hash, nor one to the root of
    the empty trie, they hold the same map when they have the same root hash.  Hashing
    does not change what a trie holds. *)
Theorem Trie_Hash_contents db1 t1 tr1 m1 db2 t2 tr2 m2 :
  trie_at db1 t1 tr1 m1 -> trie_at db2 t2 tr2 m2 ->
  exists h1 t1' h2 t2', Trie_Hash t1 = Ret (h1, t1') /\ trie_at db1 t1' tr1 m1 /\ Trie_Hash t2 = Ret (h2, t2') /\ trie_at db2 t2' tr2 m2 /\
    (m1 = m2 -> h1 = h2) /\ (collision_free (tencs tr1 ++ tencs tr2) -> h1 = h2 -> m1 = m2).
Proof.
  intros (Hr1 & Hw1 & Hc1) (Hr2 & Hw2 & Hc2).
  destruct (Trie_Hash_rep _ t1 tr1 Hr1 Hw1) as (t1' & E1 & Hs1). destruct (Trie_Hash_rep _ t2 tr2 Hr2 Hw2) as (t2' & E2 & Hs2).
  exists (troot tr1), t1', (troot tr2), t2'. split_and!; [done| |done| | |].
  - split_and!; [exact (@srep_weaken (HashStore (stored (db_node db1))) (db_node db1) _ _ _ _ _ Hs1)|done..].
  - split_and!; [exact (@srep_weaken (HashStore (stored (db_node db2))) (db_node db2) _ _ _ _ _ Hs2)|done..].
  - intros ->. f_equal. eapply wf_at_unique; [done..|]. by eapply contents_same.
  - intros Hcf E. apply troot_inj in E as ->; [|done..]. by eapply contents_unique.
Qed.

(** C34. A committed trie is read back from the database.  [Commit] gives the root hash, the
    trie opened from that root holds the same map and so does the trie that was
    committed; every node that could be read before still can.  The callback for the leaves
    may be any that keeps the database in order; that of the account trie, which
    references storage roots, does. *)
Theorem Trie_Commit_reopen onleaf db t tr m :
  trie_at db t tr m -> collision_free (tencs tr) -> db_inv (tencs tr) db ->
  (forall f, onleaf = Some f -> onleaf_ok (tencs tr) f) ->
  exists root t' db' t2, Trie_Commit onleaf t db = Ret (root, t', db') /\ db_inv (tencs tr) db' /\ reads (db_node db) (db_node db') /\
    serves db' t' m /\ New (db_node db') root = TRet t2 /\ serves db' t2 m.
Proof.
  intros H1 H2 H3 H4. destruct (Trie_Commit_rep onleaf db t tr m H1 H2 H3 H4) as (t' & db' & t2 & E & Hi & Hr & Ht' & E2 & Ht2).
  exists (troot tr), t', db', t2. split_and!; [done|done|done| |done|]; by eapply trie_at_serves.
Qed.

(** C9. What is committed survives.  After [Commit] of the trie and [Commit] of its root to
    disk, whatever the size at which batches are written, the trie opened by a node that
    has only the disk holds the same map; and nothing of what is read from the
    running database changes.  The recursion over the references ends when it is given as many
    steps as the longest chain of references has. *)
Theorem Commit_survives_restart batch_full onleaf db t tr m root t' db1 rank fuel :
  trie_at db t tr m -> tr <> TNil -> collision_free (tencs tr) -> db_inv (tencs tr) db ->
  (forall f, onleaf = Some f -> onleaf_ok (tencs tr) f) ->
  Trie_Commit onleaf t db = Ret (root, t', db1) ->
  disk_closed db1 tr -> ranked (db_dirties db1) rank -> (rank root < fuel)%nat ->
  exists db2 L2 t2, db_Commit batch_full fuel root db1 = Ret db2 /\ flush_ok db2 L2 /\ (forall x, db_node db2 x = db_node db1 x) /\
    let restarted := NewDatabase (db_disk db2) (db_diskPreimages db2) in
    New (db_node restarted) root = TRet t2 /\ serves restarted t2 m.
Proof.
  intros H1 Hn H2 H3 H4 E Hcl Hr Hf. destruct (Trie_Commit_stored onleaf db t tr m H1 Hn H2 H3 H4) as (t1' & db1' & E' & Hi & Hst & _).
  rewrite E in E'. injection E' as -> -> ->. destruct H1 as (_ & Hw & Hc). specialize (Hw Hn). pose proof Hi as (_ & [L HL] & _).
  assert (Htr : troot tr = thash tr) by by destruct tr. rewrite Htr in *.
  destruct (db_Commit_durable batch_full db1' L rank fuel tr m) as (db2 & E2 & Hre & [L2 HL2] & t2 & Ho & Ht2); [done..|by apply H2, tencs_self|].
  exists db2, L2, t2. split; [done|]. split; [done|]. split; [done|]. split; [done|by eapply trie_at_serves].
Qed.

(** [Cap] is not observable.  It moves the oldest entries of the flush list, and only
    whole entries, to disk and out of memory: it succeeds, every node is read as before, and
    the list of what stays in memory is linked. *)
Theorem Cap_keeps_reads batch_full limit db L :
  db_ok db -> flush_ok db L ->
  exists db' L1 L2, db_Cap batch_full limit db = Ret db' /\ L = L1 ++ L2 /\ flush_ok db' L2 /\ (forall x, db_node db' x = db_node db x) /\
    forall x, x ∈ L1 -> exists e, db_dirties db !! x = Some e /\ db_disk db' !! x = Some (cn_rlp e).
Proof. apply db_Cap_ok. Qed.

(** C36. A node is read back as it was written: decoding the encoding of a node that is kept
    in collapsed form gives the node that expanding it gives. *)
Theorem decodeNode_roundtrip t hash :
  wf t -> fits (encode (node_item (raw t))) ->
  exists n, decodeNode hash (encode (node_item (raw t))) = Decoded n /\ expandNode hash (raw t) = Ret n.
Proof.
  intros Hw. rewrite raw_item by done. intros Hf. exists (loaded hash t). split; [by apply (decode_tenc Keccak_length)|by apply expand_raw].
Qed.

(** C35. The reference counts are exact.  In any history of insertions, references and
    dereferences from an empty memory, in which children are stored before their parents, no
    counter overflows and no root is dereferenced more often than it was referenced, every operation
    succeeds, and afterwards every node in memory that is not on disk counts exactly as many
    parents as there are references to it, all that a node in memory refers to is in
    memory or on disk, and the flush list links the nodes in memory. *)
Theorem reference_counts rank fuel disk preimages os :
  allowed rank fuel (NewDatabase disk preimages) os ->
  exists db L, run_history fuel (NewDatabase disk preimages) os = Ret db /\ flush_ok db L /\
    (forall x e, db_dirties db !! x = Some e -> x <> 0 -> db_disk db !! x = None -> cn_parents e = refs (db_dirties db) [] x) /\
    (forall p e c, db_dirties db !! p = Some e -> c ∈ childs e -> is_Some (db_dirties db !! c) \/ is_Some (db_disk db !! c)).
Proof.
  intros Ha. destruct (gc_history true rank fuel _ os (rc_new true rank disk preimages) Ha) as (db & E & Hi & L & HL). exists db, L. split_and!; [done|done| |].
  - intros x e He H0 Hd. destruct (rc_count _ _ _ _ _ Hi x e He H0 (not_elem_of_nil _) Hd) as [_ H]. rewrite (H eq_refl). simpl. lia.
  - intros p e c He Hc. destruct (rc_closed _ _ _ _ _ Hi p e c He (not_elem_of_nil _) Hc) as [[? _]|?]; auto.
Qed.

(** C13. Garbage collection keeps what is needed.  [Dereference] of a root, on a database with
    right counts (at least the number of references, or exactly that number), succeeds and leaves
    the counts right; every node that is reached from a root that is still referenced reads as
    before; and when it was the last reference to the root, the root leaves the memory. *)
Theorem Dereference_safe exact rank fuel root db :
  rc_ok exact rank db -> db_ok db -> disk_sound db -> root <> 0 -> rooted db root -> (rank root < fuel)%nat ->
  exists db', db_Dereference fuel root db = Ret db' /\ rc_ok exact rank db' /\
    (forall r x, rooted db' r -> reach (db_dirties db) r x -> db_node db' x = db_node db x) /\
    (forall e, db_dirties db !! root = Some e -> cn_parents e <= 1 -> db_dirties db' !! root = None).
Proof.
  intros Hi Hok Hs H0 (p & Hp & Hx) Hf. destruct (Dereference_ok exact rank fuel root db p Hi H0 Hp Hx Hf) as (db' & E & Hi' & Hde).
  exists db'. split; [done|]. split; [done|]. split.
  - intros r x Hr Hre. destruct (rooted_kept exact rank db' r (proj1 Hi') Hr) as [Hr0 Hin]. rewrite (proj1 Hde) in Hin.
    destruct (reached_kept exact rank db db' root p r x (proj1 Hi) (proj1 Hi') Hde Hs Hr0 Hin Hre) as [Hx0 Hor]. by eapply reads_kept.
  - intros e He Hpar. unfold db_Dereference in E. destruct (Z.eqb_spec root 0); [done|]. destruct fuel as [|fuel]; [lia|].
    rewrite (dereference_S fuel root 0 db p Hp) in E. eapply (release_frees fuel root _ db' e); [exact E| |done]. simpl. by rewrite lookup_insert_ne.
Qed.

(** C12. Merkle proofs are complete.  If the trie is not empty, what [Prove] collects for a key
    is accepted, together with any other nodes that a proof may hold, for the root hash of the
    trie, and the verification gives the value of the key, or none when the key has none.  If
    the trie is empty, [Prove] collects nothing, and the verification reports that the node of
    the empty root is missing: that a key is absent from an empty trie has no proof. *)
Theorem Prove_complete db t tr m key :
  trie_at db t tr m -> (forall x, x ∈ tencs tr -> fits x) -> Forall byte_ok key ->
  exists puts, Prove (db_node db) t key 0 = TRet puts /\
    (m <> ∅ -> forall proofDb fuel, honest proofDb tr -> (forall h enc, (h, enc) ∈ puts -> proofDb (BytesToHash h) = Some enc) ->
       (2 * length key + 1 < fuel)%nat -> VerifyProof fuel (troot tr) key proofDb = VRet (m !! key)) /\
    (m = ∅ -> puts = [] /\ troot tr = emptyRoot /\
       forall proofDb fuel, proofDb emptyRoot = None -> VerifyProof (S fuel) emptyRoot key proofDb = VErr (proofMissing 0 emptyRoot)).
Proof.
  intros Hat Hf Hb. pose proof (trie_at_empty db t tr m Hat) as Hem. destruct (decide (tr = TNil)) as [->|Hn].
  { exists []. split; [by eapply Prove_empty|]. split; [by intros []; apply Hem|]. intros _. split_and!; [done|done|].
    intros proofDb fuel Hnone. unfold VerifyProof. cbn [verify_from]. by rewrite Hnone. }
  destruct (Prove_rep db t tr m key Hat Hn Hb) as (puts & E & Hp). exists puts. split; [done|]. split; [|by intros ?%Hem]. intros _ proofDb fuel Hh Hputs Hlt.
  destruct Hat as (_ & Hw & Hc). specialize (Hw Hn). simpl in Hw. assert (Htr : troot tr = thash tr) by by destruct tr. rewrite Htr.
  pose proof (keybytesToHex_ok key Hb) as Hk. unfold VerifyProof.
  destruct (verify_walk proofDb fuel 0 tr (keybytesToHex key) Hw Hk) as [->|(j & c & _ & Hnone & Hor)]; [rewrite length_keybytesToHex; lia|done|done|by rewrite (contents_lookup tr m key Hc Hb)|].
  exfalso. assert (Hin : (Keccak256 (tenc c), tenc c) ∈ puts).
  { apply Hp; [|tauto]. destruct Hor as [->|[_ ?]]; [|done]. destruct (keybytesToHex key); [by apply key_ok_not_nil in Hk|]. destruct Hw; by left. }
  apply Hputs in Hin. unfold thash in Hnone. congruence.
Qed.

(** C11. Merkle proofs are sound.  Whatever is given as a proof, if each of its nodes is kept
    under its own hash and none collides with a node of the trie, the verification against the root hash of
    the trie gives the value that the trie has for the key, or none when it has none, or reports
    a missing node; it does not panic, nor run on. *)
Theorem VerifyProof_sound tr m key proofDb fuel :
  wf tr -> contents tr m -> (forall x, x ∈ tencs tr -> fits x) -> Forall byte_ok key -> (2 * length key + 1 < fuel)%nat ->
  (forall h b, proofDb h = Some b -> h = BytesToHash (Keccak256 b)) ->
  (forall h b x, proofDb h = Some b -> x ∈ tencs tr -> Keccak256 b = Keccak256 x -> b = x) ->
  VerifyProof fuel (troot tr) key proofDb = VRet (m !! key) \/
  exists i h, VerifyProof fuel (troot tr) key proofDb = VErr (proofMissing i h).
Proof.
  intros Hw Hc Hf Hb Hlt Hkey Hcol. assert (Htr : troot tr = thash tr) by by destruct Hw. rewrite Htr. pose proof (keybytesToHex_ok key Hb) as Hk.
  assert (Hh : honest proofDb tr).
  { intros x b Hx E. apply (Hcol _ b x E Hx). apply Keccak_hash_inj. symmetry. exact (Hkey _ b E). }
  unfold VerifyProof. destruct (verify_walk proofDb fuel 0 tr (keybytesToHex key) Hw Hk) as [->|(j & c & -> & _)]; [rewrite length_keybytesToHex; lia|done|done| |].
  - left. by rewrite (contents_lookup tr m key Hc Hb).
  - right. by eexists _, _.
Qed.
End theorems.
