(* ===== verification/TrieExamples.v ===== *)
(** A trie of three keys with a concrete hash function: the theorems about the trie applied
    to it, and the places where the code and its comments differ. *)
From S2P Require Import Prelude KeyedList Common Rlp TrieEncoding TrieNode TrieDatabase TrieFlush TrieRefs Trie TrieSpec TrieProps TrieHash TrieCommit TrieStore TrieCommitProps TrieProof TrieDisk TrieGc TrieTheorems.

Open Scope Z_scope.

(** ** A hash function *)

Definition sumHash (b : bytes) : bytes := be_bytes 32 (foldl (fun h x => (h * 257 + x + 1) mod 2 ^ 64) 1 b).

#[local] Instance sumCrypto : Crypto := {| Keccak256 := sumHash; PrivToAddress := fun _ => 5 |}.

#[local] Instance sumCrypto_ok : KeccakOk.
Proof. split; intros b; [by apply length_be_bytes|by apply be_bytes_ok]. Qed.

(** ** The tree of a node that is all in memory *)

Fixpoint tree_of (n : node) : option tree :=
  match n with
  | nil_node => Some TNil
  | valueNode v => Some (TVal v)
  | shortNode k c _ => TShort k <$> tree_of c
  | fullNode cs _ => TFull <$> mapM tree_of cs
  | _ => None
  end.

Lemma srep_tree_of `{Store} s top n t : srep s top n t -> forall t', tree_of n = Some t' -> t' = t.
Proof.
  induction 1 as [| |s top k c fl t Hfl Hc IH|s top cs fl ts Hfl Hl Hc IH|]; intros t'; cbn [tree_of]; [by intros [= <-]|by intros [= <-]| | |done].
  - destruct (tree_of c) as [u|]; [|done]. simpl. intros [= <-]. f_equal. by apply IH.
  - destruct (mapM tree_of cs) as [us|] eqn:E; [|done]. simpl. intros [= <-]. f_equal. apply mapM_Some in E.
    apply list_eq_same_length with (n := length cs); [done|by apply Forall2_length in E|]. intros i u v Hi Hu Hv.
    destruct (lookup_lt_is_Some_2 cs i) as [c Ec]; [lia|]. eapply (IH i c v Ec Hv). by eapply (Forall2_lookup_lr _ _ _ _ _ _ E).
Qed.

(** ** The example *)

Definition ex_db : Database := NewDatabase ∅ ∅.
Definition ex_ops : list trie_op :=
  [OpUpdate [0x12; 0x34] (replicate 40 7); OpUpdate [0x12; 0x35] (replicate 40 8); OpUpdate [0x20; 0x00] [1]; OpUpdate [0x21; 0x00] [2]; OpDelete [0x21; 0x00]].
Definition trie_of (os : list trie_op) : Trie := match run_ops (db_node ex_db) (mkTrie nil_node 0) os with TRet (_, t) => t | _ => mkTrie nil_node 0 end.
Definition tree_after (os : list trie_op) : tree := default TNil (tree_of (t_root (trie_of os))).

Lemma trie_of_at os :
  Forall (fun o => Forall byte_ok (op_key o)) os -> is_Some (tree_of (t_root (trie_of os))) ->
  trie_at ex_db (trie_of os) (tree_after os) (map_ops ∅ os).2.
Proof.
  intros Hos [u Hu]. destruct (trie_at_serves ex_db (mkTrie nil_node 0) TNil ∅ ltac:(split_and!; [constructor|by intros []|apply contents_empty]) os Hos)
    as (t & tr & E & Hat). assert (Ht : trie_of os = t) by (unfold trie_of; by rewrite E). unfold tree_after. rewrite Hu. rewrite Ht in *.
  simpl. destruct Hat as (Hr & Hat). by rewrite (srep_tree_of _ _ _ _ Hr u Hu).
Qed.

Definition ex_map : byte_map := (map_ops ∅ ex_ops).2.
Definition ex_trie : Trie := trie_of ex_ops.
Definition ex_tree : tree := tree_after ex_ops.

Lemma ex_at : trie_at ex_db ex_trie ex_tree ex_map.
Proof. apply trie_of_at; [by repeat constructor|]. vm_compute. by eexists. Qed.

(** The same map, built in another order. *)
Definition ex_ops2 : list trie_op :=
  [OpUpdate [0x20; 0x00] [3]; OpUpdate [0x12; 0x35] (replicate 40 8); OpUpdate [0x20; 0x00] [1]; OpUpdate [0x12; 0x34] (replicate 40 7)].

Lemma ex_at2 : trie_at ex_db (trie_of ex_ops2) (tree_after ex_ops2) (map_ops ∅ ex_ops2).2.
Proof. apply trie_of_at; [by repeat constructor|]. vm_compute. by eexists. Qed.

(** *** Its encodings do not collide *)

Definition distinct (l : list bytes) : bool :=
  forallb (fun x => forallb (fun y => implb (bool_decide (sumHash x = sumHash y)) (bool_decide (x = y))) l) l &&
  forallb (fun x => negb (BytesToHash (sumHash x) =? emptyRoot) && negb (BytesToHash (sumHash x) =? 0) && bool_decide (fits x)) l.

Lemma distinct_ok l : distinct l = true -> collision_free l /\ forall x, x ∈ l -> BytesToHash (Keccak256 x) <> 0.
Proof.
  intros [H1 H2]%andb_prop. rewrite forallb_forall in H1, H2. split; [split|].
  - intros x y Hx Hy E. apply list_elem_of_In in Hx, Hy. apply H1 in Hx. rewrite forallb_forall in Hx. specialize (Hx y Hy).
    rewrite bool_decide_true in Hx by exact E. by apply bool_decide_eq_true in Hx.
  - intros x Hx%list_elem_of_In. specialize (H2 x Hx). apply andb_prop in H2 as [[H2 _]%andb_prop Hf].
    split; [by apply Z.eqb_neq, negb_true_iff|by apply bool_decide_eq_true in Hf].
  - intros x Hx%list_elem_of_In. specialize (H2 x Hx). apply andb_prop in H2 as [[_ H2]%andb_prop _]. by apply Z.eqb_neq, negb_true_iff.
Qed.

Lemma ex_distinct : collision_free (tencs ex_tree) /\ forall x, x ∈ tencs ex_tree -> BytesToHash (Keccak256 x) <> 0.
Proof. apply distinct_ok. by vm_compute. Qed.

Lemma ex_inv : db_inv (tencs ex_tree) ex_db.
Proof.
  split; [|split; [exists []; apply flush_new|]].
  - intros h e. simpl. rewrite lookup_singleton_Some. by intros [<- _] [].
  - intros x Hx. pose proof (proj2 ex_distinct x Hx) as H0. split_and!; [done| |].
    + intros e. cbn [ex_db NewDatabase db_dirties]. by rewrite lookup_singleton_ne.
    + intros b. cbn [ex_db NewDatabase db_disk]. by rewrite lookup_empty.
Qed.

(** *** After [Commit] of the trie *)

Definition ex_committed : Hash * Trie * Database :=
  match Trie_Commit None ex_trie ex_db with Ret r => r | _ => (0, ex_trie, ex_db) end.
Definition ex_root : Hash := ex_committed.1.1.
Definition ex_db1 : Database := ex_committed.2.

Fixpoint flush_list (fuel : nat) (db : Database) (h : Hash) : list Hash :=
  match fuel, db_dirties db !! h with
  | S fuel, Some e => if h =? 0 then [] else h :: flush_list fuel db (cn_flushNext e)
  | _, _ => []
  end.

Fixpoint place (h : Hash) (l : list Hash) : nat :=
  match l with
  | [] => 0
  | x :: l => if x =? h then 0 else S (place h l)
  end.

(** The place in the flush list. *)
Definition ex_rank (h : Hash) : nat := place h (flush_list 10 ex_db1 (db_oldest ex_db1)).

Definition ranked_check (d : gmap Hash cachedNode) (rank : Hash -> nat) : bool :=
  forallb (fun '(x, e) => (x =? 0) || match forChilds e with Ret cs => forallb (fun c => negb (c =? 0) && (rank c <? rank x)%nat) cs | _ => true end)
    (map_to_list d).

Lemma ranked_check_ok d rank : ranked_check d rank = true -> ranked d rank.
Proof.
  intros H x e cs c Hx H0 Hcs Hc. unfold ranked_check in H. rewrite forallb_forall in H.
  specialize (H (x, e)). rewrite <- list_elem_of_In, elem_of_map_to_list in H. specialize (H Hx). cbn in H.
  apply orb_prop in H as [H%Z.eqb_eq|H]; [done|]. rewrite Hcs, forallb_forall in H. apply list_elem_of_In in Hc.
  specialize (H c Hc). apply andb_prop in H as [H1 H2]. split; [by apply Z.eqb_neq, negb_true_iff|by apply Nat.ltb_lt].
Qed.

Lemma disk_closed_empty db t : db_disk db = ∅ -> (forall x, x ∈ tencs t -> BytesToHash (Keccak256 x) <> 0) -> disk_closed db t.
Proof.
  intros Hd H0 c Hc Hw Hin. unfold in_db, on_disk, db_node in Hin. cbn [NewDatabase db_dirties db_disk] in Hin. rewrite Hd in Hin.
  rewrite lookup_singleton_ne, lookup_empty in Hin; [done|]. apply not_eq_sym. by apply H0.
Qed.

(** A value on a page of its own, the empty value a deletion, and reads of both. *)
Definition ex_more : list trie_op := [OpGet [0x20; 0x00]; OpUpdate [0x20; 0x00] []; OpGet [0x20; 0x00]; OpGet [0x12; 0x34]; OpGet [0x21; 0x00]].
Definition ex_results : list (option bytes) := [Some [1]; None; None; Some (replicate 40 7); None].

Lemma ex_more_ok : Forall (fun o => Forall byte_ok (op_key o)) ex_more.
Proof. by repeat constructor. Qed.

Lemma ex_more_results : (map_ops ex_map ex_more).1 = ex_results.
Proof. by vm_compute. Qed.

(** ** The theorems at the example *)

Lemma Trie_refines_map_ex : exists t tr, run_ops (db_node ex_db) ex_trie ex_more = TRet (ex_results, t) /\ trie_at ex_db t tr (map_ops ex_map ex_more).2.
Proof.
  destruct (Trie_refines_map ex_db ex_trie ex_tree ex_map ex_at ex_more ex_more_ok) as (t & tr & E & H).
  exists t, tr. split; [|done]. by rewrite E, ex_more_results.
Defined.

Lemma Trie_well_shaped_ex : exists rs t, run_ops (db_node ex_db) ex_trie ex_more = TRet (rs, t) /\ (t_root t = nil_node \/ well_shaped (t_root t) = true).
Proof. exact (Trie_well_shaped ex_db ex_trie ex_tree ex_map ex_more ex_at ex_more_ok). Defined.

Lemma Trie_Hash_contents_ex : exists h t1 t2, Trie_Hash ex_trie = Ret (h, t1) /\ Trie_Hash (trie_of ex_ops2) = Ret (h, t2).
Proof.
  destruct (Trie_Hash_contents ex_db ex_trie ex_tree ex_map ex_db (trie_of ex_ops2) (tree_after ex_ops2) (map_ops ∅ ex_ops2).2 ex_at ex_at2)
    as (h1 & t1 & h2 & t2 & E1 & _ & E2 & _ & H & _). exists h1, t1, t2. split; [exact E1|]. rewrite H; [exact E2|]. by vm_compute.
Defined.

Lemma Trie_Commit_reopen_ex : exists root t db t2, Trie_Commit None ex_trie ex_db = Ret (root, t, db) /\
  New (db_node db) root = TRet t2 /\ exists t3, run_ops (db_node db) t2 ex_more = TRet (ex_results, t3).
Proof.
  destruct (Trie_Commit_reopen None ex_db ex_trie ex_tree ex_map ex_at (proj1 ex_distinct) ex_inv ltac:(done))
    as (root & t & db & t2 & E & _ & _ & _ & En & Hs).
  destruct (Hs ex_more ex_more_ok) as (t3 & tr3 & E3 & _). exists root, t, db, t2. split_and!; [done|done|]. exists t3. by rewrite E3, ex_more_results.
Defined.

Lemma Commit_survives_restart_ex : exists db t, db_Commit (fun _ => true) 10 ex_root ex_db1 = Ret db /\
  New (db_node (NewDatabase (db_disk db) (db_diskPreimages db))) ex_root = TRet t /\
  exists t', run_ops (db_node (NewDatabase (db_disk db) (db_diskPreimages db))) t ex_more = TRet (ex_results, t').
Proof.
  destruct (Commit_survives_restart (fun _ => true) None ex_db ex_trie ex_tree ex_map ex_root ex_committed.1.2 ex_db1 ex_rank 10)
    as (db & L & t & E & _ & _ & En & Hs).
  - exact ex_at.
  - by vm_compute.
  - exact (proj1 ex_distinct).
  - exact ex_inv.
  - done.
  - by vm_compute.
  - apply disk_closed_empty; [by vm_compute|exact (proj2 ex_distinct)].
  - apply ranked_check_ok. by vm_compute.
  - apply Nat.ltb_lt. by vm_compute.
  - destruct (Hs ex_more ex_more_ok) as (t3 & tr3 & E3 & _). exists db, t. split; [exact E|]. split; [exact En|]. exists t3. by rewrite E3, ex_more_results.
Defined.

Lemma ex_inv1 : db_inv (tencs ex_tree) ex_db1.
Proof.
  destruct (Trie_Commit_rep None ex_db ex_trie ex_tree ex_map ex_at (proj1 ex_distinct) ex_inv ltac:(done)) as (t & db & t2 & E & Hi & _).
  unfold ex_db1, ex_committed. by rewrite E.
Qed.

Lemma Cap_keeps_reads_ex : exists db, db_Cap (fun _ => false) 400 ex_db1 = Ret db /\ forall x, db_node db x = db_node ex_db1 x.
Proof.
  destruct ex_inv1 as (Hok & [L HL] & _).
  destruct (Cap_keeps_reads (fun _ => false) 400 ex_db1 L Hok HL) as (db & L1 & L2 & E & _ & _ & Hx & _). exists db. split; [exact E|exact Hx].
Defined.

Lemma decodeNode_roundtrip_ex : exists n, decodeNode None (encode (node_item (raw ex_tree))) = Decoded n /\ expandNode None (raw ex_tree) = Ret n.
Proof.
  apply (decodeNode_roundtrip ex_tree None).
  - apply ex_at. by vm_compute.
  - by vm_compute.
Defined.

(** ** A proof *)

Definition ex_puts : list (bytes * bytes) := match Prove (db_node ex_db) ex_trie [0x12; 0x34] 0 with TRet p => p | _ => [] end.

Lemma ex_fits x : x ∈ tencs ex_tree -> fits x.
Proof. intros Hx. by apply (proj1 ex_distinct). Qed.

(** The nodes of a proof, by their hash. *)
Definition find_node (puts : list (bytes * bytes)) (h : Hash) : option bytes := snd <$> List.find (fun p => BytesToHash p.1 =? h) puts.

(** Every node of the proof is under its hash, and is the node of the trie with that hash. *)
Definition proof_check (puts : list (bytes * bytes)) (l : list bytes) : bool :=
  forallb (fun p => bool_decide (p.1 = Keccak256 p.2) && forallb (fun x => implb (bool_decide (Keccak256 p.2 = Keccak256 x)) (bool_decide (p.2 = x))) l) puts &&
  forallb (fun p => bool_decide (find_node puts (BytesToHash p.1) = Some p.2)) puts.

Lemma find_node_in puts h b : find_node puts h = Some b -> exists k, (k, b) ∈ puts /\ BytesToHash k = h.
Proof.
  unfold find_node. destruct (List.find _ puts) as [[k b']|] eqn:E; [|done]. intros [= <-].
  apply find_some in E as [Hin Hk]. exists k. split; [by apply list_elem_of_In|by apply Z.eqb_eq].
Qed.

Lemma proof_check_ok puts l :
  proof_check puts l = true ->
  (forall h b, find_node puts h = Some b -> h = BytesToHash (Keccak256 b)) /\
  (forall h b x, find_node puts h = Some b -> x ∈ l -> Keccak256 b = Keccak256 x -> b = x) /\
  forall h enc, (h, enc) ∈ puts -> find_node puts (BytesToHash h) = Some enc.
Proof.
  unfold proof_check. rewrite andb_true_iff, !forallb_forall. intros [H1 H2]. split; [|split].
  - intros h b (k & Hin%list_elem_of_In & <-)%find_node_in. apply H1 in Hin. rewrite andb_true_iff, bool_decide_eq_true in Hin. destruct Hin as [Hk _]. simpl in Hk. by rewrite Hk.
  - intros h b x (k & Hin%list_elem_of_In & _)%find_node_in Hx%list_elem_of_In E. apply H1 in Hin. rewrite andb_true_iff, forallb_forall in Hin. destruct Hin as [_ Hin].
    specialize (Hin x Hx). cbn [snd] in Hin. rewrite bool_decide_true in Hin by exact E. by apply bool_decide_eq_true in Hin.
  - intros h enc Hin%list_elem_of_In. apply H2 in Hin. by apply bool_decide_eq_true in Hin.
Qed.

Definition ex_proof : Hash -> option bytes := find_node ex_puts.

Lemma ex_proof_ok : (forall h b, ex_proof h = Some b -> h = BytesToHash (Keccak256 b)) /\
  (forall h b x, ex_proof h = Some b -> x ∈ tencs ex_tree -> Keccak256 b = Keccak256 x -> b = x) /\
  forall h enc, (h, enc) ∈ ex_puts -> ex_proof (BytesToHash h) = Some enc.
Proof. apply proof_check_ok. by vm_compute. Qed.

Lemma Prove_complete_ex : exists puts, Prove (db_node ex_db) ex_trie [0x12; 0x34] 0 = TRet puts /\
  VerifyProof 10 (troot ex_tree) [0x12; 0x34] ex_proof = VRet (Some (replicate 40 7)).
Proof.
  destruct (Prove_complete ex_db ex_trie ex_tree ex_map [0x12; 0x34] ex_at) as (puts & E & H & _).
  - exact ex_fits.
  - by repeat constructor.
  - exists puts. split; [exact E|]. rewrite (H ltac:(by vm_compute) ex_proof 10%nat); [by vm_compute| | |by apply Nat.ltb_lt; vm_compute].
    + intros x b Hx Eb. apply (proj1 (proj2 ex_proof_ok) _ b x Eb Hx). apply Keccak_hash_inj. symmetry. exact (proj1 ex_proof_ok _ b Eb).
    + assert (Ep : puts = ex_puts) by (unfold ex_puts; rewrite E; reflexivity). rewrite Ep. exact (proj2 (proj2 ex_proof_ok)).
Defined.

Lemma VerifyProof_sound_ex : VerifyProof 10 (troot ex_tree) [0x21; 0x00] ex_proof = VRet None \/
  exists i h, VerifyProof 10 (troot ex_tree) [0x21; 0x00] ex_proof = VErr (proofMissing i h).
Proof.
  apply (VerifyProof_sound ex_tree ex_map [0x21; 0x00] ex_proof 10).
  - apply ex_at. by vm_compute.
  - apply ex_at.
  - exact ex_fits.
  - by repeat constructor.
  - apply Nat.ltb_lt. by vm_compute.
  - exact (proj1 ex_proof_ok).
  - exact (proj1 (proj2 ex_proof_ok)).
Defined.

(** ** Two roots that share a leaf *)

Definition gc_leaf : tree := TShort [2; 16] (TVal (replicate 40 7)).
Definition gc_branch (v : Z) : tree := TFull (<[1%nat := gc_leaf]> (<[16%nat := TVal [v]]> (replicate 17 TNil))).
Definition gc_leaf_node : node := shortNode (hexToCompact [2; 16]) (valueNode (replicate 40 7)) newFlag.
Definition gc_branch_node (v : Z) : node :=
  fullNode (<[1%nat := hashNode (Keccak256 (tenc gc_leaf))]> (<[16%nat := valueNode [v]]> (replicate 17 nil_node))) newFlag.
Definition gc_ops : list gc_op :=
  [GInsert (thash gc_leaf) 44 gc_leaf_node; GInsert (thash (gc_branch 1)) 50 (gc_branch_node 1); GReference (thash (gc_branch 1)) 0;
   GInsert (thash (gc_branch 2)) 50 (gc_branch_node 2); GReference (thash (gc_branch 2)) 0].
Definition gc_rank (h : Hash) : nat := if h =? thash gc_leaf then 0 else 1.
Definition gc_db : Database := match run_history 3 ex_db gc_ops with Ret db => db | _ => ex_db end.

(** A boolean test of what the histories rely on. *)
Definition insert_check (rank : Hash -> nat) (db : Database) (h : Hash) (n : node) : bool :=
  negb (h =? 0) && match (raw ← simplifyNode n; forGatherChildren raw) with
  | Ret cs => forallb (fun c => negb (c =? 0) && (rank c <? rank h)%nat &&
      match db_dirties db !! c with
      | Some e => cn_parents e + count c cs <? 2 ^ 32
      | None => bool_decide (is_Some (db_disk db !! c))
      end) cs
  | _ => false
  end.

Definition reference_check (rank : Hash -> nat) (db : Database) (c p : Hash) : bool :=
  negb (c =? 0) && ((p =? 0) || (rank c <? rank p)%nat) &&
  match db_dirties db !! p with Some e => ext e c + 1 <? 2 ^ 16 | None => false end &&
  match db_dirties db !! c with Some e => cn_parents e + 1 <? 2 ^ 32 | None => true end.

Definition rooted_check (db : Database) (r : Hash) : bool := match db_dirties db !! 0 with Some p => 1 <=? ext p r | None => false end.

Definition op_check (rank : Hash -> nat) (fuel : nat) (db : Database) (o : gc_op) : bool :=
  match o with
  | GInsert h _ n => insert_check rank db h n
  | GReference c p => reference_check rank db c p
  | GDereference r => negb (r =? 0) && (rank r <? fuel)%nat && rooted_check db r
  end.

Fixpoint history_check (rank : Hash -> nat) (fuel : nat) (db : Database) (os : list gc_op) : bool :=
  match os with
  | [] => true
  | o :: os => op_check rank fuel db o && match run_gc fuel db o with Ret db => history_check rank fuel db os | _ => true end
  end.

Lemma insert_check_ok rank db h n : insert_check rank db h n = true -> insert_pre rank db h n.
Proof.
  unfold insert_check. destruct (simplifyNode n) as [raw| |] eqn:Er; cbn [mbind outcome_mbind outcome_bind]; [|by rewrite andb_false_r..].
  destruct (forGatherChildren raw) as [cs| |] eqn:Ec; [|by rewrite andb_false_r..]. intros [H0 H]%andb_prop. rewrite forallb_forall in H.
  split; [by apply Z.eqb_neq, negb_true_iff|]. exists raw, cs. split; [done|]. split; [done|]. intros c Hc%list_elem_of_In. specialize (H c Hc).
  apply andb_prop in H as [[H1 H2]%andb_prop H3]. split; [by apply Z.eqb_neq, negb_true_iff|]. split; [by apply Nat.ltb_lt|].
  destruct (db_dirties db !! c) as [e|]; [split; [left; by eexists|]; intros e' [= <-]; by apply Z.ltb_lt|].
  split; [right; by apply bool_decide_eq_true in H3|done].
Qed.

Lemma reference_check_ok rank db c p : reference_check rank db c p = true -> reference_pre rank db c p.
Proof.
  unfold reference_check. intros [[[H0 H1]%andb_prop H2]%andb_prop H3]%andb_prop. destruct (db_dirties db !! p) as [pe|] eqn:Ep; [|done].
  split; [by apply Z.eqb_neq, negb_true_iff|]. split; [intros Hp; apply orb_prop in H1 as [H1%Z.eqb_eq|H1]; [done|by apply Nat.ltb_lt]|].
  split; [by eexists|]. split; [intros e He; rewrite He in H3; by apply Z.ltb_lt|]. intros e He. rewrite Ep in He. injection He as <-. by apply Z.ltb_lt.
Qed.

Lemma history_check_ok rank fuel db os : history_check rank fuel db os = true -> allowed rank fuel db os.
Proof.
  revert db. induction os as [|o os IH]; intros db; [done|]. cbn [history_check allowed]. intros [Ho Hos]%andb_prop. split.
  - destruct o as [h sz n|c p|r]; simpl in Ho |- *; [by apply insert_check_ok|by apply reference_check_ok|].
    apply andb_prop in Ho as [[H1 H2]%andb_prop H3]. split; [by apply Z.eqb_neq, negb_true_iff|]. split; [by apply Nat.ltb_lt|].
    unfold rooted_check in H3. destruct (db_dirties db !! 0) as [p|] eqn:Ep; [|done]. exists p. split; [done|by apply Z.leb_le].
  - intros db' E. rewrite E in Hos. by apply IH.
Qed.

Lemma reference_counts_ex : exists db L, run_history 3 ex_db (gc_ops ++ [GDereference (thash (gc_branch 1))]) = Ret db /\ flush_ok db L /\
  forall x e, db_dirties db !! x = Some e -> x <> 0 -> db_disk db !! x = None -> cn_parents e = refs (db_dirties db) [] x.
Proof.
  destruct (reference_counts gc_rank 3 ∅ ∅ (gc_ops ++ [GDereference (thash (gc_branch 1))])) as (db & L & E & HL & Hc & _).
  - apply history_check_ok. by vm_compute.
  - exists db, L. split; [exact E|]. split; [exact HL|exact Hc].
Defined.

Lemma gc_db_rc : rc_ok true gc_rank gc_db.
Proof.
  destruct (gc_history true gc_rank 3 ex_db gc_ops (rc_new true gc_rank ∅ ∅)) as (db & E & Hi); [apply history_check_ok; by vm_compute|].
  unfold gc_db. by rewrite E.
Qed.

Lemma gc_leaf_wf : wf gc_leaf.
Proof. apply (wf_leaf [2]); [|done]. repeat constructor; done. Qed.

Lemma gc_branch_wf v : wf (gc_branch v).
Proof.
  apply wf_full; [done| | |].
  - intros i c Hi Hlt Hn. apply list_lookup_insert_Some in Hi as [(<- & <- & _)|(_ & Hi)]; [apply gc_leaf_wf|].
    apply list_lookup_insert_Some in Hi as [(<- & _)|(_ & Hi)]; [lia|]. apply lookup_replicate in Hi as [-> _]. done.
  - intros c [= <-] _. by exists [v].
  - by exists 1%nat, 16%nat, gc_leaf, (TVal [v]).
Qed.

Definition gc_trees : list tree := [gc_leaf; gc_branch 1; gc_branch 2].

Lemma lookup_keys {A} (d : gmap Hash A) h e : d !! h = Some e -> h ∈ (map_to_list d).*1.
Proof. intros H. apply (list_elem_of_fmap_2 fst _ (h, e)). by apply elem_of_map_to_list. Qed.

Lemma gc_db_keys h e : db_dirties gc_db !! h = Some e -> h = 0 \/ exists t, t ∈ gc_trees /\ h = thash t.
Proof.
  intros He. apply lookup_keys in He as Hk.
  assert (Hall : forallb (fun h => (h =? 0) || existsb (fun t => h =? thash t) gc_trees) (map_to_list (db_dirties gc_db)).*1 = true) by by vm_compute.
  rewrite forallb_forall in Hall. specialize (Hall h). rewrite <- list_elem_of_In in Hall.
  specialize (Hall Hk).
  apply orb_prop in Hall as [?%Z.eqb_eq|Ht]; [by left|right]. apply existsb_exists in Ht as (t & Ht & Hh%Z.eqb_eq). exists t. split; [apply list_elem_of_In; exact Ht|exact Hh].
Qed.

Lemma gc_db_nodes t : t ∈ gc_trees -> cn_node <$> db_dirties gc_db !! thash t = Some (raw t) /\ wf t /\ fits (tenc t).
Proof.
  intros [->|[->|[->|Ht]%elem_of_cons]%elem_of_cons]%elem_of_cons.
  - split; [by vm_compute|]. split; [apply gc_leaf_wf|by vm_compute].
  - split; [by vm_compute|]. split; [apply gc_branch_wf|by vm_compute].
  - split; [by vm_compute|]. split; [apply gc_branch_wf|by vm_compute].
  - by apply elem_of_nil in Ht.
Qed.

Lemma gc_db_ok : db_ok gc_db.
Proof.
  intros h e He H0. destruct (gc_db_keys h e He) as [E|(t & Ht & ->)]; [exfalso; exact (H0 E)|]. destruct (gc_db_nodes t Ht) as (Hn & Hw & Hf).
  rewrite He in Hn. injection Hn as Hn.
  exists t. split; [exact Hw|]. split; [exact Hn|]. split; [reflexivity|exact Hf].
Qed.

(** Dropping one root keeps the leaf for the other. *)
Lemma Dereference_safe_ex : exists db, db_Dereference 3 (thash (gc_branch 1)) gc_db = Ret db /\
  db_node db (thash gc_leaf) = db_node gc_db (thash gc_leaf) /\ db_dirties db !! thash (gc_branch 1) = None.
Proof.
  destruct (Dereference_safe true gc_rank 3 (thash (gc_branch 1)) gc_db gc_db_rc gc_db_ok) as (db & E & _ & Hr & Hf).
  - intros x e b _ _ Hb. exfalso. assert (Hd : db_disk gc_db = ∅) by by vm_compute. rewrite Hd, lookup_empty in Hb. discriminate Hb.
  - apply Z.eqb_neq. by vm_compute.
  - eexists. split; [by vm_compute|by vm_compute].
  - apply Nat.ltb_lt. by vm_compute.
  - exists db. split; [exact E|]. split.
    + apply (Hr (thash (gc_branch 2))); [|].
      * assert (Hc : (match db_Dereference 3 (thash (gc_branch 1)) gc_db with Ret db => rooted_check db (thash (gc_branch 2)) | _ => false end) = true) by by vm_compute.
        rewrite E in Hc. unfold rooted_check in Hc. destruct (db_dirties db !! 0) as [p|] eqn:Ep; [|done]. exists p. split; [exact Ep|by apply Z.leb_le].
      * eapply (reach_step _ _ _ [thash gc_leaf]); [by vm_compute|by vm_compute|by left|]. eapply reach_refl. by vm_compute.
    + destruct (db_dirties gc_db !! thash (gc_branch 1)) as [e|] eqn:Ee; [|exfalso; revert Ee; by vm_compute]. apply (Hf e eq_refl).
      assert (Hp : (match db_dirties gc_db !! thash (gc_branch 1) with Some e => cn_parents e <=? 1 | None => false end) = true) by by vm_compute.
      rewrite Ee in Hp. by apply Z.leb_le.
Defined.

(** ** Where the code and its comments differ *)

(** Deleting one of two children loads the other, to see whether the two nodes are to be
    merged.  When it is missing, the path in the error is that of the branch, without the
    nibble that leads to the missing node. *)
Example missing_sibling_path :
  let missing := replicate 32 9 in
  let branch := fullNode (<[1%nat := hashNode missing]> (<[2%nat := shortNode [16] (valueNode [5]) newFlag]> (replicate 17 nil_node))) newFlag in
  delete (db_node ex_db) 10 branch [] [2; 16] = TErr (mkMissing (BytesToHash missing) []) /\
  tryGet (db_node ex_db) 10 branch [1; 16] 0 = TErr (mkMissing (BytesToHash missing) [1]).
Proof. split; by vm_compute. Qed.

(** A child whose encoding has 32 bytes is accepted as an embedded node; the encoder gives
    such a node a hash. *)
Example decodeRef_32_bytes :
  let b := encode (RList [RString (hexToCompact [1; 2; 16]); RString (replicate 27 7)]) in
  length b = 32%nat /\ decodeRef decodeNode b = Decoded (shortNode [1; 2; 16] (valueNode (replicate 27 7)) (mkNodeFlag None false), []).
Proof. split; by vm_compute. Qed.

(** A database with an entry for an account and one for the storage trie it refers to, as
    [StateDB.Commit] makes them; after [Commit] it is empty, but the size of the tracking
    of the reference was taken from [dirtiesSize], not from [childrenSize]. *)
Definition ex_sizes : outcome (Z * Z * nat) :=
  db ← db_insert 7 40 (shortNode (hexToCompact [1; 16]) (valueNode (replicate 40 1)) newFlag) ex_db;
  db ← db_insert 8 40 (shortNode (hexToCompact [2; 16]) (valueNode (replicate 40 2)) newFlag) db;
  db ← db_reference 7 8 db;
  db ← db_Commit (fun _ => false) 10 8 db;
  Ret (db_dirtiesSize db, db_childrenSize db, size (db_dirties db)).

Example commit_sizes : ex_sizes = Ret (- (48 + 34), 48 + 34, 1%nat).
Proof. by vm_compute. Qed.
