(* ===== verification/Heap.v ===== *)
(** The binary heap of Go's [container/heap], which the transaction pool uses.

    The elements are in a list; [Less] and [Swap] of the interface are the order and the
    exchange of two places.  Shown: every operation keeps the heap order and the
    elements, and [Pop] gives a least one. *)
From S2P Require Import Prelude.

Open Scope nat_scope.

(** ** The operations *)

Section heap.
Context {A : Type} (less : A -> A -> bool).

Definition less_at (l : list A) (i j : nat) : bool :=
  match l !! i, l !! j with Some a, Some b => less a b | _, _ => false end.

Definition swap (l : list A) (i j : nat) : list A :=
  match l !! i, l !! j with Some a, Some b => <[i := b]> (<[j := a]> l) | _, _ => l end.

Definition parent (i : nat) : nat := (i - 1) / 2.

(** [up]: the place falls, so [S j] steps are enough. *)
Fixpoint up_from (fuel : nat) (l : list A) (j : nat) : list A :=
  match fuel with
  | O => l
  | S fuel =>
      let i := parent j in
      if (i =? j) || negb (less_at l j i) then l else up_from fuel (swap l i j) i
  end.

Definition up (l : list A) (j : nat) : list A := up_from (S j) l j.

(** [down] among the first [n] places: the place grows, so [n] steps are enough. *)
Fixpoint down_from (fuel : nat) (l : list A) (i n : nat) : list A * nat :=
  match fuel with
  | O => (l, i)
  | S fuel =>
      let j1 := 2 * i + 1 in
      if n <=? j1 then (l, i)
      else
        let j2 := j1 + 1 in
        let j := if (j2 <? n) && less_at l j2 j1 then j2 else j1 in
        if negb (less_at l j i) then (l, i) else down_from fuel (swap l i j) j n
  end.

Definition down (l : list A) (i0 n : nat) : list A * bool := let '(l, i) := down_from n l i0 n in (l, i0 <? i).

Definition Push (l : list A) (x : A) : list A := up (l ++ [x]) (length l).

(** The last element, and the others: the [Pop] of the interface; [None] is a panic. *)
Definition pop_last (l : list A) : option (A * list A) :=
  match last l with Some x => Some (x, take (length l - 1) l) | None => None end.

Definition Pop (l : list A) : option (A * list A) :=
  match l with
  | [] => None
  | _ => let n := length l - 1 in pop_last (down (swap l 0 n) 0 n).1
  end.

Definition Remove (l : list A) (i : nat) : option (A * list A) :=
  if length l <=? i then None
  else
    let n := length l - 1 in
    let l := if n =? i then l
             else let '(l, moved) := down (swap l i n) i n in if (moved : bool) then l else up l i in
    pop_last l.

Fixpoint init_from (k : nat) (l : list A) : list A :=
  match k with
  | O => l
  | S i => init_from i (down l i (length l)).1
  end.

Definition Init (l : list A) : list A := init_from (length l / 2) l.

(** The place [i] has a new element. *)
Definition Fix (l : list A) (i : nat) : list A :=
  let '(l, moved) := down l i (length l) in if (moved : bool) then l else up l i.

(** ** The order *)

Class WeakOrder : Prop := {
  less_irrefl : forall a, less a a = false;
  less_asym : forall a b, less a b = true -> less b a = false;
  less_neg_trans : forall a b c, less b a = false -> less c b = false -> less c a = false;
}.

Definition le (a b : A) : Prop := less b a = false.

(** The place [i] is not less than its parent. *)
Definition ordered_at (l : list A) (i : nat) : Prop := forall a b, l !! parent i = Some a -> l !! i = Some b -> le a b.

(** The order below the places from [m] on, among the first [n] places. *)
Definition heap_part (m n : nat) (l : list A) : Prop := forall k, k < n -> 0 < k -> m <= parent k -> ordered_at l k.

Definition heap (l : list A) : Prop := heap_part 0 (length l) l.

Context `{WO : WeakOrder}.

Lemma le_refl a : le a a.
Proof. apply less_irrefl. Qed.

Lemma le_trans a b c : le a b -> le b c -> le a c.
Proof. unfold le. intros H1 H2. by apply (less_neg_trans a b c). Qed.

Lemma less_le a b : less a b = true -> le a b.
Proof. apply less_asym. Qed.

(** *** Places *)

Lemma parent_lt k : 0 < k -> parent k < k.
Proof. intros H. unfold parent. apply Nat.Div0.div_lt_upper_bound. lia. Qed.

Lemma parent_children k i : 0 < k -> parent k = i <-> k = 2 * i + 1 \/ k = 2 * i + 2.
Proof.
  intros H. unfold parent. pose proof (Nat.div_mod_eq (k - 1) 2). pose proof (Nat.mod_upper_bound (k - 1) 2 ltac:(lia)). split; intros; [lia|].
  destruct H2 as [->| ->]; [replace (2 * i + 1 - 1) with (i * 2) by lia; by apply Nat.div_mul|].
  replace (2 * i + 2 - 1) with (1 + i * 2) by lia. rewrite Nat.div_add by lia. done.
Qed.

(** *** Exchanging two places *)

Lemma swap_length l i j : length (swap l i j) = length l.
Proof. unfold swap. repeat case_match; rewrite ?length_insert; done. Qed.

Lemma swap_lookup l i j k : i < length l -> j < length l -> swap l i j !! k = l !! (if k =? i then j else if k =? j then i else k).
Proof.
  intros Hi Hj. unfold swap. destruct (lookup_lt_is_Some_2 l i Hi) as [a Ea], (lookup_lt_is_Some_2 l j Hj) as [b Eb]. rewrite Ea, Eb.
  destruct (Nat.eqb_spec k i) as [->|Hki]; [by rewrite list_lookup_insert_eq by by rewrite length_insert|].
  rewrite list_lookup_insert_ne by done. destruct (Nat.eqb_spec k j) as [->|Hkj]; [by rewrite list_lookup_insert_eq|]. by rewrite list_lookup_insert_ne.
Qed.

Lemma insert_perm (l : list A) j a b : l !! j = Some b -> a :: l ≡ₚ b :: <[j := a]> l.
Proof.
  revert j. induction l as [|x l IH]; intros [|j] H; simplify_eq/=; [apply Permutation_swap|]. etransitivity; [apply Permutation_swap|]. rewrite (IH j H). apply Permutation_swap.
Qed.

Lemma swap_perm l i j : swap l i j ≡ₚ l.
Proof.
  unfold swap. destruct (l !! i) as [a|] eqn:Ea; [|done]. destruct (l !! j) as [b|] eqn:Eb; [|done].
  assert (Ei : <[j := a]> l !! i = Some a).
  { destruct (decide (i = j)) as [->|Hne]; [apply list_lookup_insert_eq; by eapply lookup_lt_Some|by rewrite list_lookup_insert_ne]. }
  apply (Permutation_cons_inv (a := a)). rewrite <- (insert_perm _ i b a Ei). symmetry. by apply insert_perm.
Qed.

Lemma less_at_some l i j a b : l !! i = Some a -> l !! j = Some b -> less_at l i j = less a b.
Proof. intros Ha Hb. unfold less_at. by rewrite Ha, Hb. Qed.

(** ** Up *)

(** The order holds but at [j], and holds if [j] is left out. *)
Definition heap_but (n : nat) (l : list A) (j : nat) : Prop :=
  (forall k, k < n -> 0 < k -> k <> j -> ordered_at l k) /\
  (forall k a b, k < n -> 0 < k -> 0 < j -> parent k = j -> l !! parent j = Some a -> l !! k = Some b -> le a b).

Lemma heap_but_root n l : heap_but n l 0 -> heap_part 0 n l.
Proof. intros [H _] k Hk H0 _. apply H; [done|done|lia]. Qed.

(** An element that is less than its parent moves up. *)
Lemma heap_but_up n l j x p :
  heap_but n l j -> 0 < j -> j < n -> n <= length l -> l !! j = Some x -> l !! parent j = Some p -> less x p = true ->
  heap_but n (swap l (parent j) j) (parent j).
Proof.
  intros [H1 H2] Hj Hn Hl Hx Hp Hless. pose proof (parent_lt j Hj) as Hpj. set (p0 := parent j) in *.
  assert (Hlook : forall k, swap l p0 j !! k = l !! (if k =? p0 then j else if k =? j then p0 else k)) by (intros k; apply swap_lookup; lia).
  assert (Hchild : forall k b, k < n -> 0 < k -> k <> j -> parent k = p0 -> l !! k = Some b -> le p b).
  { intros k b Hk H0 Hne Hpk Hb. apply (H1 k Hk H0 Hne p b); [by rewrite Hpk|done]. }
  split.
  - intros k Hk H0 Hne a b. rewrite !Hlook. destruct (Nat.eqb_spec k p0); [done|]. destruct (Nat.eqb_spec k j) as [->|Hkj].
    + fold p0. rewrite Nat.eqb_refl. intros Ha Hb. simplify_eq. by apply less_le.
    + destruct (Nat.eqb_spec (parent k) p0) as [E|E].
      * intros Ha Hb. simplify_eq. apply (le_trans _ p); [by apply less_le|by apply (Hchild k)].
      * destruct (Nat.eqb_spec (parent k) j) as [E'|E']; [|by apply H1]. intros Ha Hb. simplify_eq. by apply (H2 k).
  - intros k a b Hk H0 Hp0 Hpk. pose proof (parent_lt p0 Hp0). rewrite !Hlook. destruct (Nat.eqb_spec (parent p0) p0); [lia|]. destruct (Nat.eqb_spec (parent p0) j); [lia|].
    intros Ha. assert (Hap : le a p) by (apply (H1 p0 ltac:(lia) Hp0 ltac:(lia) a p); done). destruct (Nat.eqb_spec k p0) as [->|Hkp]; [lia|].
    destruct (Nat.eqb_spec k j) as [->|Hkj]; intros Hb; [by simplify_eq|]. apply (le_trans _ p); [done|by apply (Hchild k)].
Qed.

Lemma up_length l j : length (up l j) = length l.
Proof. unfold up. generalize (S j) as fuel. intros fuel. revert l j. induction fuel as [|fuel IH]; intros l j; [done|]. simpl. case_match; [done|]. by rewrite IH, swap_length. Qed.

Lemma up_perm l j : up l j ≡ₚ l.
Proof. unfold up. generalize (S j) as fuel. intros fuel. revert l j. induction fuel as [|fuel IH]; intros l j; [done|]. simpl. case_match; [done|]. by rewrite IH, swap_perm. Qed.

Lemma up_above l j k : j < length l -> j < k -> up l j !! k = l !! k.
Proof.
  unfold up. generalize (S j) as fuel. intros fuel. revert l j. induction fuel as [|fuel IH]; intros l j Hl Hk; [done|]. cbn [up_from].
  destruct (Nat.eqb_spec (parent j) j); cbn [orb]; [done|]. assert (H0 : 0 < j) by (destruct j; [done|lia]). pose proof (parent_lt j H0).
  destruct (negb _); [done|]. rewrite IH by (rewrite ?swap_length; lia). rewrite swap_lookup by lia. destruct (Nat.eqb_spec k (parent j)); [lia|]. by destruct (Nat.eqb_spec k j); [lia|].
Qed.

Lemma up_heap n l j : heap_but n l j -> j < n -> n <= length l -> heap_part 0 n (up l j).
Proof.
  unfold up. assert (Hf : j < S j) by lia. revert Hf. generalize (S j) as fuel. intros fuel. revert l j. induction fuel as [|fuel IH]; intros l j Hf Hb Hj Hl; [lia|].
  cbn [up_from]. destruct (Nat.eqb_spec (parent j) j) as [E|E]; cbn [orb].
  { assert (j = 0) as -> by (destruct j; [done|]; pose proof (parent_lt (S j) ltac:(lia)); lia). by apply heap_but_root. }
  assert (H0 : 0 < j) by (destruct j; [done|lia]). pose proof (parent_lt j H0).
  destruct (lookup_lt_is_Some_2 l j) as [x Hx]; [lia|]. destruct (lookup_lt_is_Some_2 l (parent j)) as [p Hp]; [lia|].
  rewrite (less_at_some l j (parent j) x p Hx Hp). destruct (less x p) eqn:Hless; cbn [negb].
  - apply IH; [lia|by eapply heap_but_up|lia|by rewrite swap_length].
  - destruct Hb as [H1 _]. intros k Hk Hk0 _. destruct (decide (k = j)) as [->|]; [|by apply H1]. intros a b Ha Hb. by simplify_eq.
Qed.

(** ** Down *)

(** The order below the places from [m] on holds but below [i], and holds if [i] is left out. *)
Definition part_but (m n : nat) (l : list A) (i : nat) : Prop :=
  (forall k, k < n -> 0 < k -> m <= parent k -> parent k <> i -> ordered_at l k) /\
  (forall k a b, k < n -> 0 < k -> parent k = i -> 0 < i -> m <= parent i -> l !! parent i = Some a -> l !! k = Some b -> le a b).

(** The child that [down] compares with. *)
Definition child (l : list A) (i n : nat) : nat :=
  let j1 := 2 * i + 1 in let j2 := j1 + 1 in if (j2 <? n) && less_at l j2 j1 then j2 else j1.

Lemma child_spec l i n : 2 * i + 1 < n -> n <= length l -> exists y, l !! child l i n = Some y /\ parent (child l i n) = i /\ i < child l i n < n /\
  forall k b, k < n -> 0 < k -> parent k = i -> l !! k = Some b -> le y b.
Proof.
  intros Hn Hl. unfold child. cbv zeta. destruct (lookup_lt_is_Some_2 l (2 * i + 1)) as [y1 H1]; [lia|].
  destruct (Nat.ltb_spec (2 * i + 1 + 1) n) as [Hlt|Hge]; cbn [andb].
  - destruct (lookup_lt_is_Some_2 l (2 * i + 1 + 1)) as [y2 H2]; [lia|]. rewrite (less_at_some l _ _ _ _ H2 H1). destruct (less y2 y1) eqn:Hless.
    + exists y2. split; [done|]. split; [apply parent_children; lia|]. split; [lia|]. intros k b Hk H0 Hp Hb. apply (parent_children k i H0) in Hp as [->| ->]; simplify_eq; [by apply less_le|].
      replace (2 * i + 2) with (2 * i + 1 + 1) in Hb by lia. simplify_eq. apply le_refl.
    + exists y1. split; [done|]. split; [apply parent_children; lia|]. split; [lia|]. intros k b Hk H0 Hp Hb. apply (parent_children k i H0) in Hp as [->| ->]; simplify_eq; [apply le_refl|].
      replace (2 * i + 2) with (2 * i + 1 + 1) in Hb by lia. by simplify_eq.
  - exists y1. split; [done|]. split; [apply parent_children; lia|]. split; [lia|]. intros k b Hk H0 Hp Hb. apply (parent_children k i H0) in Hp as [->| ->]; simplify_eq; [apply le_refl|lia].
Qed.

(** An element that is greater than its least child moves down. *)
Lemma part_but_down m n l i x y j :
  part_but m n l i -> parent j = i -> i < j < n -> n <= length l -> l !! i = Some x -> l !! j = Some y -> less y x = true ->
  (forall k b, k < n -> 0 < k -> parent k = i -> l !! k = Some b -> le y b) -> part_but m n (swap l i j) j.
Proof.
  intros [H1 H2] Hpj Hj Hl Hx Hy Hless Hmin.
  assert (Hlook : forall k, swap l i j !! k = l !! (if k =? i then j else if k =? j then i else k)) by (intros k; apply swap_lookup; lia).
  split.
  - intros k Hk H0 Hm Hne a b. pose proof (parent_lt k H0). rewrite !Hlook. destruct (Nat.eqb_spec (parent k) i) as [E|E].
    + destruct (Nat.eqb_spec k i); [lia|]. destruct (Nat.eqb_spec k j) as [->|Hkj]; intros Ha Hb; simplify_eq; [by apply less_le|by apply (Hmin k)].
    + destruct (Nat.eqb_spec (parent k) j); [done|]. destruct (Nat.eqb_spec k i) as [->|Hki]; [|].
      * intros Ha Hb. apply (H2 j a b); try done; lia.
      * destruct (Nat.eqb_spec k j) as [->|]; [done|]. by apply H1.
  - intros k a b Hk H0 Hpk Hj0 Hm. pose proof (parent_lt k H0). rewrite !Hlook, Hpj, Nat.eqb_refl. destruct (Nat.eqb_spec k i); [lia|]. destruct (Nat.eqb_spec k j); [lia|].
    intros Ha Hb. apply (H1 k Hk H0); [lia|lia|by rewrite Hpk|done].
Qed.

Lemma part_but_stop m n l i : part_but m n l i -> (forall k, k < n -> 0 < k -> parent k = i -> ordered_at l k) -> heap_part m n l.
Proof. intros [H1 _] H k Hk H0 Hm. destruct (decide (parent k = i)); [by apply H|by apply H1]. Qed.

Lemma down_from_heap fuel m n l i : n <= fuel + i -> part_but m n l i -> n <= length l -> heap_part m n (down_from fuel l i n).1.
Proof.
  revert l i. induction fuel as [|fuel IH]; intros l i Hf Hb Hl.
  { simpl. apply (part_but_stop m n l i Hb). intros k Hk H0 Hp. pose proof (parent_lt k H0). lia. }
  cbn [down_from]. fold (child l i n). destruct (Nat.leb_spec n (2 * i + 1)) as [Hle|Hgt].
  { simpl. apply (part_but_stop m n l i Hb). intros k Hk H0 Hp. apply (parent_children k i H0) in Hp. lia. }
  destruct (child_spec l i n Hgt Hl) as (y & Hy & Hpc & Hc & Hmin). destruct (lookup_lt_is_Some_2 l i) as [x Hx]; [lia|].
  rewrite (less_at_some l _ _ _ _ Hy Hx). destruct (less y x) eqn:Hless; cbn [negb].
  - apply IH; [lia|by eapply part_but_down|by rewrite swap_length].
  - simpl. apply (part_but_stop m n l i Hb). intros k Hk H0 Hp a b Ha Hb'. rewrite Hp in Ha. simplify_eq. apply (le_trans _ y); [exact Hless|by apply (Hmin k)].
Qed.

(** What [down] does to the elements: the places from [n] on stay, the places below [i] too. *)
Lemma down_from_spec fuel l i n : n <= length l -> let r := down_from fuel l i n in
  r.1 ≡ₚ l /\ i <= r.2 /\ (forall k, n <= k -> r.1 !! k = l !! k) /\ (forall k, k < i -> r.1 !! k = l !! k) /\ (r.2 = i -> r.1 = l).
Proof.
  revert l i. induction fuel as [|fuel IH]; intros l i Hl; cbv zeta; [by simpl|]. cbn [down_from]. fold (child l i n).
  destruct (Nat.leb_spec n (2 * i + 1)) as [Hle|Hgt]; [by simpl|]. destruct (child_spec l i n Hgt Hl) as (y & Hy & Hpc & Hc & _). destruct (negb _); [by simpl|].
  destruct (IH (swap l i (child l i n)) (child l i n) ltac:(by rewrite swap_length)) as (E1 & E2 & E3 & E4 & _). split; [by rewrite E1, swap_perm|]. split; [lia|].
  split; [|split; [|lia]]; intros k Hk; [rewrite E3 by done|rewrite E4 by lia]; rewrite swap_lookup by lia;
    (destruct (Nat.eqb_spec k i); [lia|]; destruct (Nat.eqb_spec k (child l i n)); [lia|done]).
Qed.

Lemma down_fst l i n : (down l i n).1 = (down_from n l i n).1.
Proof. unfold down. by destruct (down_from n l i n). Qed.

Lemma down_heap m n l i : part_but m n l i -> n <= length l -> heap_part m n (down l i n).1.
Proof. intros Hb Hl. rewrite down_fst. apply down_from_heap; [lia|done|done]. Qed.

Lemma down_perm l i n : n <= length l -> (down l i n).1 ≡ₚ l.
Proof. intros Hl. rewrite down_fst. by apply down_from_spec. Qed.

Lemma down_above l i n k : n <= length l -> n <= k -> (down l i n).1 !! k = l !! k.
Proof. intros Hl Hk. rewrite down_fst. destruct (down_from_spec n l i n Hl) as (_ & _ & H & _). by apply H. Qed.

(** [down] stays where no child is less. *)
Lemma down_stays l i n x : l !! i = Some x -> n <= length l -> (forall k b, k < n -> 0 < k -> parent k = i -> l !! k = Some b -> le x b) -> down l i n = (l, false).
Proof.
  intros Hx Hl H. unfold down. assert (E : down_from n l i n = (l, i)); [|by rewrite E, Nat.ltb_irrefl].
  destruct n as [|n]; [done|]. cbn [down_from]. fold (child l i (S n)). destruct (Nat.leb_spec (S n) (2 * i + 1)) as [|Hgt]; [done|].
  destruct (child_spec l i (S n) Hgt Hl) as (y & Hy & Hpc & Hc & _). rewrite (less_at_some l _ _ _ _ Hy Hx), (H (child l i (S n)) y); [done|lia|lia|done|done].
Qed.

Lemma heap_part_but n l i : heap_part 0 n l -> i < n -> heap_but n l i.
Proof.
  intros H Hi. split; [intros k Hk H0 _; apply H; [done|done|lia]|]. intros k a b Hk H0 Hi0 Hp Ha Hb.
  pose proof (parent_lt k H0). destruct (l !! i) as [c|] eqn:Ec.
  - apply (le_trans _ c); [by apply (H i Hi Hi0 ltac:(lia) a c)|by apply (H k Hk H0 ltac:(lia) c b); [rewrite Hp|]].
  - apply lookup_ge_None in Ec. apply lookup_lt_Some in Hb. lia.
Qed.

(** ** The exported operations *)

Lemma heap_prefix n l : n <= length l -> heap_part 0 n l -> heap (take n l).
Proof.
  intros Hl H k Hk H0 _ a b. rewrite length_take in Hk. pose proof (parent_lt k H0). rewrite !lookup_take_lt by lia. apply H; [lia|done|lia].
Qed.

Lemma heap_least l x y : heap l -> l !! 0 = Some x -> y ∈ l -> le x y.
Proof.
  intros H Hx [k Hk]%list_elem_of_lookup. revert y Hk. induction k as [k IH] using lt_wf_ind. intros y Hk. destruct (decide (k = 0)) as [->|]; [simplify_eq; apply le_refl|].
  pose proof (parent_lt k ltac:(lia)). pose proof (lookup_lt_Some _ _ _ Hk). destruct (lookup_lt_is_Some_2 l (parent k)) as [p Hp]; [lia|].
  apply (le_trans _ p); [by apply (IH (parent k))|]. apply (H k ltac:(done) ltac:(lia) ltac:(lia) p y Hp Hk).
Qed.

Lemma pop_last_ok l n x : length l = S n -> l !! n = Some x -> heap_part 0 n l ->
  exists l', pop_last l = Some (x, l') /\ heap l' /\ l ≡ₚ x :: l'.
Proof.
  intros Hl Hx H. exists (take n l). unfold pop_last. rewrite last_lookup, Hl. simpl Nat.pred. rewrite Hx. replace (S n - 1) with n by lia.
  split; [done|]. split; [apply heap_prefix; [lia|done]|]. rewrite <- (take_drop n l) at 1. rewrite (drop_S l x n Hx), drop_ge by lia. symmetry. apply Permutation_cons_append.
Qed.

Lemma Push_ok l x : heap l -> heap (Push l x) /\ Push l x ≡ₚ x :: l.
Proof.
  intros H. unfold Push. split; [|rewrite up_perm; symmetry; apply Permutation_cons_append].
  unfold heap. rewrite up_length. apply up_heap; rewrite ?length_app; simpl; [|lia|lia]. split.
  - intros k Hk H0 Hne a b. pose proof (parent_lt k H0). rewrite !lookup_app_l by lia. apply H; lia.
  - intros k a b Hk H0 Hj Hp. pose proof (parent_lt k H0). lia.
Qed.

(** The place that the last element takes. *)
Lemma swapped_out l i n : heap l -> length l = S n -> i < n ->
  forall k, k < n -> 0 < k -> k <> i -> parent k <> i -> ordered_at (swap l i n) k.
Proof.
  intros H Hl Hi k Hk H0 Hki Hpi a b. pose proof (parent_lt k H0). rewrite !swap_lookup by lia.
  destruct (Nat.eqb_spec (parent k) i); [done|]. destruct (Nat.eqb_spec (parent k) n); [lia|]. destruct (Nat.eqb_spec k i); [done|]. destruct (Nat.eqb_spec k n); [lia|]. apply H; lia.
Qed.

(** The children of the place keep an order with the parent of the place. *)
Lemma swapped_children l i n k a b : heap l -> length l = S n -> i < n -> k < n -> 0 < k -> parent k = i -> 0 < i ->
  swap l i n !! parent i = Some a -> swap l i n !! k = Some b -> le a b.
Proof.
  intros H Hl Hi Hk H0 Hp Hi0. pose proof (parent_lt k H0). pose proof (parent_lt i Hi0). rewrite !swap_lookup by lia.
  destruct (Nat.eqb_spec (parent i) i); [lia|]. destruct (Nat.eqb_spec (parent i) n); [lia|]. destruct (Nat.eqb_spec k i); [lia|]. destruct (Nat.eqb_spec k n); [lia|].
  destruct (heap_part_but (length l) l i H ltac:(lia)) as [_ Hc]. intros Ha Hb. apply (Hc k); done || lia.
Qed.

Lemma Pop_ok l : heap l -> l <> [] -> exists x l', Pop l = Some (x, l') /\ heap l' /\ l ≡ₚ x :: l' /\ l !! 0 = Some x /\ forall y, y ∈ l -> le x y.
Proof.
  intros H Hne. destruct l as [|x l0] eqn:El; [done|]. rewrite <- El in *. set (n := length l0). assert (Hl : length l = S n) by by rewrite El.
  assert (E : Pop l = pop_last (down (swap l 0 n) 0 n).1) by (unfold Pop; rewrite El; simpl length; replace (S (length l0) - 1) with n by (unfold n; lia); done).
  assert (Hs : length (swap l 0 n) = S n) by by rewrite swap_length. assert (H0 : l !! 0 = Some x) by by rewrite El.
  assert (Hp := down_perm (swap l 0 n) 0 n ltac:(lia)). destruct (pop_last_ok (down (swap l 0 n) 0 n).1 n x) as (l' & E1 & E2 & E3).
  - by rewrite Hp.
  - rewrite down_above by lia. rewrite swap_lookup by lia. destruct (Nat.eqb_spec n 0) as [->|]; [done|]. by rewrite Nat.eqb_refl.
  - apply down_heap; [|lia]. split; [|intros; lia]. intros k Hk Hk0 _ Hpk. apply (swapped_out l 0 n H Hl); lia || done.
  - exists x, l'. rewrite E. split; [done|]. split; [done|]. split; [by rewrite <- E3, Hp, swap_perm|]. split; [done|]. intros y. by apply heap_least.
Qed.

(** The repair after the last element has taken the place [i]. *)
Lemma repair_heap l i n x : heap l -> length l = S n -> i < n -> l !! n = Some x ->
  heap_part 0 n (let '(l', moved) := down (swap l i n) i n in if (moved : bool) then l' else up l' i).
Proof.
  intros H Hl Hi Hx. set (l1 := swap l i n). assert (Hl1 : length l1 = S n) by by unfold l1; rewrite swap_length.
  assert (Hx1 : l1 !! i = Some x) by (unfold l1; rewrite swap_lookup, Nat.eqb_refl by lia; done).
  assert (Hcase : (0 < i /\ exists p, l1 !! parent i = Some p /\ less x p = true) \/ (0 < i -> ordered_at l1 i)).
  { destruct (decide (0 < i)) as [Hi0|]; [|right; lia]. pose proof (parent_lt i Hi0). destruct (lookup_lt_is_Some_2 l1 (parent i)) as [p Hp]; [lia|].
    destruct (less x p) eqn:Hless; [left; eauto|right]. intros _ a b Ha Hb. by simplify_eq. }
  destruct Hcase as [(Hi0 & p & Hp & Hless)|Hord].
  - assert (Hch : forall k b, k < n -> 0 < k -> parent k = i -> l1 !! k = Some b -> le p b) by (intros k b Hk H0 Hpk Hb; by apply (swapped_children l i n k p b)).
    rewrite (down_stays l1 i n x Hx1 ltac:(lia)) by (intros k b Hk H0 Hpk Hb; apply (le_trans _ p); [by apply less_le|by apply (Hch k)]).
    apply up_heap; [|lia|lia]. split; [|intros k a b Hk H0 _ Hpk; by apply (swapped_children l i n k a b)].
    intros k Hk H0 Hki. destruct (decide (parent k = i)) as [Hpk|]; [|by apply swapped_out]. intros a b Ha Hb. rewrite Hpk in Ha. simplify_eq. apply (le_trans _ p); [by apply less_le|by apply (Hch k)].
  - assert (Hd : heap_part 0 n (down l1 i n).1).
    { apply down_heap; [|lia]. split; [|intros k a b Hk H0 Hpk Hi0 _; by apply (swapped_children l i n k a b)].
      intros k Hk H0 _ Hpk. destruct (decide (k = i)) as [->|]; [by apply Hord|by apply swapped_out]. }
    assert (Hlen : length (down l1 i n).1 = S n) by (rewrite (down_perm l1 i n ltac:(lia)); done).
    destruct (down l1 i n) as [l' []]; [done|]. simpl in *. apply up_heap; [by apply heap_part_but|lia|lia].
Qed.

Lemma Remove_ok l i x : heap l -> l !! i = Some x -> exists l', Remove l i = Some (x, l') /\ heap l' /\ l ≡ₚ x :: l'.
Proof.
  intros H Hx. pose proof (lookup_lt_Some _ _ _ Hx) as Hi. unfold Remove. destruct (Nat.leb_spec (length l) i); [lia|].
  set (n := length l - 1). assert (Hl : length l = S n) by lia. destruct (Nat.eqb_spec n i) as [->|Hne].
  { destruct (pop_last_ok l i x) as (l' & E); [done|done|intros k Hk; apply H; lia|eauto]. }
  destruct (lookup_lt_is_Some_2 l n) as [y Hy]; [lia|]. assert (Hlen : length (swap l i n) = S n) by by rewrite swap_length.
  pose proof (repair_heap l i n y H Hl ltac:(lia) Hy) as Hr. set (l1 := let '(l', moved) := down (swap l i n) i n in if (moved : bool) then l' else up l' i) in *.
  assert (Hd := down_perm (swap l i n) i n ltac:(lia)). assert (Hdn := down_above (swap l i n) i n n ltac:(lia) ltac:(lia)).
  rewrite swap_lookup, Nat.eqb_refl in Hdn by lia. destruct (Nat.eqb_spec n i); [done|].
  assert (l1 ≡ₚ l /\ l1 !! n = Some x) as [Hp Hn].
  { unfold l1. destruct (down (swap l i n) i n) as [l' moved]. simpl in *. assert (length l' = S n) by by rewrite Hd. rewrite swap_perm in Hd.
    destruct moved; [by rewrite Hdn|]. split; [by rewrite up_perm|]. rewrite up_above by lia. by rewrite Hdn. }
  destruct (pop_last_ok l1 n x) as (l' & E1 & E2 & E3); [by rewrite Hp|done|done|]. exists l'. split; [done|]. split; [done|]. by rewrite <- E3.
Qed.

Lemma init_from_ok k l : heap_part k (length l) l -> heap (init_from k l) /\ init_from k l ≡ₚ l.
Proof.
  revert l. induction k as [|i IH]; intros l H; [done|]. cbn [init_from]. assert (Hp := down_perm l i (length l) ltac:(lia)).
  destruct (IH (down l i (length l)).1) as [E1 E2].
  - replace (length (down l i (length l)).1) with (length l) by by rewrite Hp. apply down_heap; [|lia]. split; [intros k Hk H0 Hm Hpk; apply H; lia|]. intros k a b Hk H0 Hpk Hi0 Hm. pose proof (parent_lt i Hi0). lia.
  - split; [done|]. by rewrite E2.
Qed.

Lemma Init_ok l : heap (Init l) /\ Init l ≡ₚ l.
Proof.
  unfold Init. apply init_from_ok. intros k Hk H0 Hm. pose proof (Nat.div_mod_eq (length l) 2). pose proof (Nat.mod_upper_bound (length l) 2 ltac:(lia)).
  pose proof (proj1 (parent_children k (parent k) H0) eq_refl). lia.
Qed.

(** A new element at the root. *)
Lemma Fix_root_ok old x l : heap (old :: l) -> heap (Fix (x :: l) 0) /\ Fix (x :: l) 0 ≡ₚ x :: l.
Proof.
  intros H. unfold Fix. assert (Hp := down_perm (x :: l) 0 (length (x :: l)) ltac:(lia)). assert (Hh : heap (down (x :: l) 0 (length (x :: l))).1).
  { unfold heap. replace (length (down (x :: l) 0 (length (x :: l))).1) with (length (x :: l)) by by rewrite Hp. apply down_heap; [|lia]. split; [|intros; lia].
    intros k Hk H0 _ Hne a b. specialize (H k Hk H0 ltac:(lia) a b). revert H. destruct (parent k) as [|j]; [done|]. destruct k as [|k]; [lia|]. done. }
  destruct (down (x :: l) 0 (length (x :: l))) as [l' moved]. cbn in *. by destruct moved.
Qed.
End heap.
