(* ===== verification/TxTypes.v ===== *)
(** Transactions: [core/types/transaction.go] with the three kinds of transaction data.

    The recovered sender of a transaction needs the curve; it is the class [Signer].  The
    caches of the hash and of the sender hold what is computed here; the cache of the size
    holds, for a decoded transaction, the size it was decoded from. *)
From S2P Require Import Prelude Common Params Wormholes StateTypes State StateDB Staking Evm Transition Rlp.

Open Scope Z_scope.

(** ** Transaction data *)

Definition AccessTuple : Type := (Address * list Hash)%type.

Record LegacyTx : Type := mkLegacyTx {
  lt_Nonce : Z;
  lt_GasPrice : Z;
  lt_Gas : Z;
  lt_To : option Address;
  lt_Value : Z;
  lt_Data : bytes;
  lt_V : Z;
  lt_R : Z;
  lt_S : Z;
}.

Record AccessListTx : Type := mkAccessListTx {
  at_ChainID : Z;
  at_Nonce : Z;
  at_GasPrice : Z;
  at_Gas : Z;
  at_To : option Address;
  at_Value : Z;
  at_Data : bytes;
  at_AccessList : list AccessTuple;
  at_V : Z;
  at_R : Z;
  at_S : Z;
}.

Record DynamicFeeTx : Type := mkDynamicFeeTx {
  dt_ChainID : Z;
  dt_Nonce : Z;
  dt_GasTipCap : Z;
  dt_GasFeeCap : Z;
  dt_Gas : Z;
  dt_To : option Address;
  dt_Value : Z;
  dt_Data : bytes;
  dt_AccessList : list AccessTuple;
  dt_V : Z;
  dt_R : Z;
  dt_S : Z;
}.

Inductive TxData : Type :=
| TLegacy (t : LegacyTx)
| TAccessList (t : AccessListTx)
| TDynamicFee (t : DynamicFeeTx).

Definition LegacyTxType : Z := 0.
Definition AccessListTxType : Z := 1.
Definition DynamicFeeTxType : Z := 2.

Definition txType (d : TxData) : Z :=
  match d with TLegacy _ => LegacyTxType | TAccessList _ => AccessListTxType | TDynamicFee _ => DynamicFeeTxType end.

(** The access list; [None] is nil. *)
Definition accessList_of (d : TxData) : option (list AccessTuple) :=
  match d with TLegacy _ => None | TAccessList t => Some (at_AccessList t) | TDynamicFee t => Some (dt_AccessList t) end.

Definition data_of (d : TxData) : bytes :=
  match d with TLegacy t => lt_Data t | TAccessList t => at_Data t | TDynamicFee t => dt_Data t end.

Definition gas_of (d : TxData) : Z :=
  match d with TLegacy t => lt_Gas t | TAccessList t => at_Gas t | TDynamicFee t => dt_Gas t end.

Definition gasPrice_of (d : TxData) : Z :=
  match d with TLegacy t => lt_GasPrice t | TAccessList t => at_GasPrice t | TDynamicFee t => dt_GasFeeCap t end.

Definition gasTipCap_of (d : TxData) : Z :=
  match d with TLegacy t => lt_GasPrice t | TAccessList t => at_GasPrice t | TDynamicFee t => dt_GasTipCap t end.

Definition gasFeeCap_of (d : TxData) : Z :=
  match d with TLegacy t => lt_GasPrice t | TAccessList t => at_GasPrice t | TDynamicFee t => dt_GasFeeCap t end.

Definition value_of (d : TxData) : Z :=
  match d with TLegacy t => lt_Value t | TAccessList t => at_Value t | TDynamicFee t => dt_Value t end.

Definition nonce_of (d : TxData) : Z :=
  match d with TLegacy t => lt_Nonce t | TAccessList t => at_Nonce t | TDynamicFee t => dt_Nonce t end.

Definition to_of (d : TxData) : option Address :=
  match d with TLegacy t => lt_To t | TAccessList t => at_To t | TDynamicFee t => dt_To t end.

(** ** Their serialization *)

(** A [uint64] or a [big.Int]: no leading zero byte, and an error for a negative one. *)
Definition int_item (z : Z) : option item :=
  if z <? 0 then None else Some (RString (if z =? 0 then [] else be_bytes (Z.to_nat (Z.log2 z / 8 + 1)) z)).

(** An address behind a pointer with the tag [nil]. *)
Definition to_item (to : option Address) : item := RString (match to with Some a => Address_Bytes a | None => [] end).

Definition access_item (al : list AccessTuple) : item :=
  RList ((fun t => RList [RString (Address_Bytes t.1); RList ((fun h => RString (Hash_Bytes h)) <$> t.2)]) <$> al).

Definition data_item (d : TxData) : option item :=
  match d with
  | TLegacy t =>
      nonce ← int_item (lt_Nonce t); price ← int_item (lt_GasPrice t); gas ← int_item (lt_Gas t); value ← int_item (lt_Value t);
      v ← int_item (lt_V t); r ← int_item (lt_R t); s ← int_item (lt_S t);
      Some (RList [nonce; price; gas; to_item (lt_To t); value; RString (lt_Data t); v; r; s])
  | TAccessList t =>
      chain ← int_item (at_ChainID t); nonce ← int_item (at_Nonce t); price ← int_item (at_GasPrice t); gas ← int_item (at_Gas t);
      value ← int_item (at_Value t); v ← int_item (at_V t); r ← int_item (at_R t); s ← int_item (at_S t);
      Some (RList [chain; nonce; price; gas; to_item (at_To t); value; RString (at_Data t); access_item (at_AccessList t); v; r; s])
  | TDynamicFee t =>
      chain ← int_item (dt_ChainID t); nonce ← int_item (dt_Nonce t); tip ← int_item (dt_GasTipCap t); cap ← int_item (dt_GasFeeCap t);
      gas ← int_item (dt_Gas t); value ← int_item (dt_Value t); v ← int_item (dt_V t); r ← int_item (dt_R t); s ← int_item (dt_S t);
      Some (RList [chain; nonce; tip; cap; gas; to_item (dt_To t); value; RString (dt_Data t); access_item (dt_AccessList t); v; r; s])
  end.

(** What [rlp.Encode] writes of the data: nothing on an error, which its callers here ignore. *)
Definition data_bytes (d : TxData) : bytes := match data_item d with Some i => EncodeToBytes i | None => [] end.

(** ** Transactions *)

Record Transaction : Type := mkTransaction {
  tx_inner : TxData;
  tx_time : Z;
  tx_size : option Z;
}.

Definition tx_Type (tx : Transaction) : Z := txType (tx_inner tx).
Definition tx_Data (tx : Transaction) : bytes := data_of (tx_inner tx).
Definition tx_AccessList (tx : Transaction) : option (list AccessTuple) := accessList_of (tx_inner tx).
Definition tx_Gas (tx : Transaction) : Z := gas_of (tx_inner tx).
Definition tx_GasPrice (tx : Transaction) : Z := gasPrice_of (tx_inner tx).
Definition tx_GasTipCap (tx : Transaction) : Z := gasTipCap_of (tx_inner tx).
Definition tx_GasFeeCap (tx : Transaction) : Z := gasFeeCap_of (tx_inner tx).
Definition tx_Value (tx : Transaction) : Z := value_of (tx_inner tx).
Definition tx_Nonce (tx : Transaction) : Z := nonce_of (tx_inner tx).
Definition tx_To (tx : Transaction) : option Address := to_of (tx_inner tx).

Definition tx_Size (tx : Transaction) : Z := default (Z.of_nat (length (data_bytes (tx_inner tx)))) (tx_size tx).

Definition tx_GasFee (tx : Transaction) : Z := tx_GasPrice tx * tx_Gas tx.
Definition tx_Cost (tx : Transaction) : Z := tx_GasPrice tx * tx_Gas tx + tx_Value tx.

(** [big.Int.Cmp]. *)
Definition Cmp (a b : Z) : Z := if a <? b then -1 else if b <? a then 1 else 0.

Definition tx_GasFeeCapCmp (tx other : Transaction) : Z := Cmp (tx_GasFeeCap tx) (tx_GasFeeCap other).
Definition tx_GasFeeCapIntCmp (tx : Transaction) (other : Z) : Z := Cmp (tx_GasFeeCap tx) other.
Definition tx_GasTipCapCmp (tx other : Transaction) : Z := Cmp (tx_GasTipCap tx) (tx_GasTipCap other).
Definition tx_GasTipCapIntCmp (tx : Transaction) (other : Z) : Z := Cmp (tx_GasTipCap tx) other.

Definition ErrGasFeeCapTooLow : string := "fee cap less than base fee".

(** The tip and whether the fee cap is below the base fee. *)
Definition tx_EffectiveGasTip (tx : Transaction) (baseFee : option Z) : Z * goerror :=
  match baseFee with
  | None => (tx_GasTipCap tx, None)
  | Some baseFee =>
      (Z.min (tx_GasTipCap tx) (tx_GasFeeCap tx - baseFee),
       if Cmp (tx_GasFeeCap tx) baseFee =? -1 then Some ErrGasFeeCapTooLow else None)
  end.

Definition tx_EffectiveGasTipValue (tx : Transaction) (baseFee : option Z) : Z := (tx_EffectiveGasTip tx baseFee).1.

Definition tx_EffectiveGasTipCmp (tx other : Transaction) (baseFee : option Z) : Z :=
  match baseFee with
  | None => tx_GasTipCapCmp tx other
  | Some _ => Cmp (tx_EffectiveGasTipValue tx baseFee) (tx_EffectiveGasTipValue other baseFee)
  end.

Definition tx_EffectiveGasTipIntCmp (tx : Transaction) (other : Z) (baseFee : option Z) : Z :=
  match baseFee with
  | None => tx_GasTipCapIntCmp tx other
  | Some _ => Cmp (tx_EffectiveGasTipValue tx baseFee) other
  end.

Section transaction.
Context {CR : Crypto} {MA : Machine}.

Definition rlpHash (d : TxData) : Hash := BytesToHash (Keccak256 (data_bytes d)).
Definition prefixedRlpHash (prefix : Z) (d : TxData) : Hash := BytesToHash (Keccak256 (prefix :: data_bytes d)).

Definition tx_Hash (tx : Transaction) : Hash :=
  if tx_Type tx =? LegacyTxType then rlpHash (tx_inner tx) else prefixedRlpHash (tx_Type tx) (tx_inner tx).

Definition tx_GetWormholes (tx : Transaction) : option Wormholes := GetWormholes (tx_Data tx).
End transaction.

(** [types.Sender] with the signer of the pool; [None] is an invalid signature. *)
Class Signer : Type := { Sender : Transaction -> option Address }.

(** ** Lemmas *)

Lemma Cmp_lt a b : Cmp a b < 0 <-> a < b.
Proof. unfold Cmp. destruct (Z.ltb_spec a b), (Z.ltb_spec b a); lia. Qed.

Lemma Cmp_gt a b : 0 < Cmp a b <-> b < a.
Proof. unfold Cmp. destruct (Z.ltb_spec a b), (Z.ltb_spec b a); lia. Qed.

Lemma Cmp_eq a b : Cmp a b = 0 <-> a = b.
Proof. unfold Cmp. destruct (Z.ltb_spec a b), (Z.ltb_spec b a); lia. Qed.

Lemma Cmp_cases a b : (Cmp a b = -1 /\ a < b) \/ (Cmp a b = 0 /\ a = b) \/ (Cmp a b = 1 /\ b < a).
Proof. unfold Cmp. destruct (Z.ltb_spec a b), (Z.ltb_spec b a); lia. Qed.
