(* ===== verification/TxList.v ===== *)
(** The transactions of one account: [core/tx_list.go].

    [txSortedMap] is a map from nonces with a heap of the nonces and a cache of the sorted
    transactions; [txList] adds the greatest cost and gas, and the rule that a strict list
    has no gaps.  A result [None] is a panic; a nil transaction taken out of the map, which
    the callers would dereference, is a panic here. *)
From S2P Require Import Prelude Common Params Wormholes StateTypes State StateDB Staking Evm Transition Rlp Heap TxTypes.

Open Scope Z_scope.

(** The order in which Go ranges over a map: any order of its entries. *)
Class MapRange : Type := {
  map_range : forall {V : Type}, gmap Z V -> list (Z * V);
  map_range_perm : forall (V : Type) (m : gmap Z V), map_range m ≡ₚ map_to_list m;
}.

(** ** Transactions by nonce *)

(** [Less] of [nonceHeap]. *)
Definition nonceLess (a b : Z) : bool := a <? b.

Record txSortedMap : Type := mkTxSortedMap {
  sm_items : gmap Z Transaction;
  sm_index : list Z;
  sm_cache : option (list Transaction);
}.

Definition newTxSortedMap : txSortedMap := mkTxSortedMap ∅ [] None.

Definition sm_Get (m : txSortedMap) (nonce : Z) : option Transaction := sm_items m !! nonce.

Definition sm_Put (tx : Transaction) (m : txSortedMap) : txSortedMap :=
  let nonce := tx_Nonce tx in
  let index := match sm_items m !! nonce with None => Heap.Push nonceLess (sm_index m) nonce | Some _ => sm_index m end in
  mkTxSortedMap (<[nonce := tx]> (sm_items m)) index None.

(** The loop of [Forward]: an element less per step. *)
Fixpoint Forward_from (fuel : nat) (threshold : Z) (items : gmap Z Transaction) (index : list Z) (removed : list Transaction)
    : option (gmap Z Transaction * list Z * list Transaction) :=
  match fuel with
  | O => Some (items, index, removed)
  | S fuel =>
      match index !! 0%nat with
      | Some first =>
          if first <? threshold then
            '(nonce, index) ← Heap.Pop nonceLess index;
            tx ← items !! nonce;
            Forward_from fuel threshold (delete nonce items) index (removed ++ [tx])
          else Some (items, index, removed)
      | None => Some (items, index, removed)
      end
  end.

(** [s[n:]] of a slice. *)
Definition slice_from {A : Type} (n : nat) (l : list A) : option (list A) := if (n <=? length l)%nat then Some (drop n l) else None.
Definition slice_to {A : Type} (n : Z) (l : list A) : option (list A) :=
  if (0 <=? n) && (n <=? Z.of_nat (length l)) then Some (take (Z.to_nat n) l) else None.

Definition sm_Forward (threshold : Z) (m : txSortedMap) : option (list Transaction * txSortedMap) :=
  '(items, index, removed) ← Forward_from (length (sm_index m)) threshold (sm_items m) (sm_index m) [];
  cache ← match sm_cache m with None => Some None | Some c => c ← slice_from (length removed) c; Some (Some c) end;
  Some (removed, mkTxSortedMap items index cache).

(** [sort.Sort] of different nonces. *)
Definition sort_nonces (l : list Z) : list Z := merge_sort Z.le l.

(** [sort.Sort(types.TxByNonce(txs))], of transactions with different nonces. *)
Definition nonce_le (a b : Transaction) : Prop := tx_Nonce a <= tx_Nonce b.
#[export] Instance nonce_le_dec a b : Decision (nonce_le a b) := Z_le_dec _ _.
Definition TxByNonce (txs : list Transaction) : list Transaction := merge_sort nonce_le txs.

(** The loop of [Cap], which runs [k] times from the last of [size] places of the sorted index. *)
Fixpoint Cap_from (k : nat) (size : nat) (items : gmap Z Transaction) (index : list Z) (drops : list Transaction)
    : option (gmap Z Transaction * list Transaction) :=
  match k, size with
  | O, _ => Some (items, drops)
  | S k, O => None
  | S k, S size =>
      nonce ← index !! size;
      tx ← items !! nonce;
      Cap_from k size (delete nonce items) index (drops ++ [tx])
  end.

Definition sm_Cap (threshold : Z) (m : txSortedMap) : option (list Transaction * txSortedMap) :=
  let len := size (sm_items m) in
  if Z.of_nat len <=? threshold then Some ([], m)
  else
    let index := sort_nonces (sm_index m) in
    '(items, drops) ← Cap_from (Z.to_nat (Z.of_nat len - threshold)) len (sm_items m) index [];
    index ← slice_to threshold index;
    cache ← match sm_cache m with
            | None => Some None
            | Some c => c ← slice_to (Z.of_nat (length c) - Z.of_nat (length drops)) c; Some (Some c)
            end;
    Some (drops, mkTxSortedMap items (Heap.Init nonceLess index) cache).

Definition sm_Remove (nonce : Z) (m : txSortedMap) : option (bool * txSortedMap) :=
  match sm_items m !! nonce with
  | None => Some (false, m)
  | Some _ =>
      index ← match list_find (eq nonce) (sm_index m) with
              | Some (i, _) => '(_, index) ← Heap.Remove nonceLess (sm_index m) i; Some index
              | None => Some (sm_index m)
              end;
      Some (true, mkTxSortedMap (delete nonce (sm_items m)) index None)
  end.

(** The loop of [Ready]: an element less per step. *)
Fixpoint Ready_from (fuel : nat) (next : Z) (items : gmap Z Transaction) (index : list Z) (ready : list Transaction)
    : option (gmap Z Transaction * list Z * list Transaction) :=
  match fuel with
  | O => Some (items, index, ready)
  | S fuel =>
      match index !! 0%nat with
      | Some first =>
          if first =? next then
            tx ← items !! next;
            '(_, index) ← Heap.Pop nonceLess index;
            Ready_from fuel (u64 (next + 1)) (delete next items) index (ready ++ [tx])
          else Some (items, index, ready)
      | None => Some (items, index, ready)
      end
  end.

Definition sm_Ready (start : Z) (m : txSortedMap) : option (list Transaction * txSortedMap) :=
  match sm_index m !! 0%nat with
  | None => Some ([], m)
  | Some first =>
      if start <? first then Some ([], m)
      else
        '(items, index, ready) ← Ready_from (length (sm_index m)) first (sm_items m) (sm_index m) [];
        Some (ready, mkTxSortedMap items index None)
  end.

Definition sm_Len (m : txSortedMap) : Z := Z.of_nat (size (sm_items m)).

Section ranges.
Context {MR : MapRange}.

Definition sm_reheap (m : txSortedMap) : txSortedMap :=
  mkTxSortedMap (sm_items m) (Heap.Init nonceLess (map_range (sm_items m)).*1) None.

(** [filter], without the repair of the index. *)
Definition sm_filter (f : Transaction -> bool) (m : txSortedMap) : list Transaction * txSortedMap :=
  let removed := (filter (fun kv => f kv.2 = true) (map_range (sm_items m))).*2 in
  (removed, mkTxSortedMap (filter (fun kv => f kv.2 = false) (sm_items m)) (sm_index m)
              (match removed with [] => sm_cache m | _ => None end)).

Definition sm_Filter (f : Transaction -> bool) (m : txSortedMap) : list Transaction * txSortedMap :=
  let '(removed, m) := sm_filter f m in
  (removed, match removed with [] => m | _ => sm_reheap m end).

Definition sm_flatten (m : txSortedMap) : list Transaction * txSortedMap :=
  match sm_cache m with
  | Some c => (c, m)
  | None => let c := TxByNonce (map_range (sm_items m)).*2 in (c, mkTxSortedMap (sm_items m) (sm_index m) (Some c))
  end.

(** A copy of the cache. *)
Definition sm_Flatten (m : txSortedMap) : list Transaction * txSortedMap := sm_flatten m.

Definition sm_LastElement (m : txSortedMap) : option (Transaction * txSortedMap) :=
  let '(c, m) := sm_flatten m in tx ← last c; Some (tx, m).
End ranges.

(** ** The list of an account *)

Record txList : Type := mkTxList {
  tl_strict : bool;
  tl_txs : txSortedMap;
  tl_costcap : Z;
  tl_gascap : Z;
}.

Definition newTxList (strict : bool) : txList := mkTxList strict newTxSortedMap 0 0.

Definition with_txs (l : txList) (m : txSortedMap) : txList := mkTxList (tl_strict l) m (tl_costcap l) (tl_gascap l).

Definition tl_Overlaps (l : txList) (tx : Transaction) : bool := bool_decide (is_Some (sm_Get (tl_txs l) (tx_Nonce tx))).

(** A conversion to [int64]. *)
Definition i64 (z : Z) : Z := (z + 2 ^ 63) mod 2 ^ 64 - 2 ^ 63.

(** [big.NewInt(100 + int64(priceBump))] *)
Definition bump_factor (priceBump : Z) : Z := i64 (100 + i64 priceBump).

(** Whether a transaction may take the place of an older one; [big.Int.Div] rounds down for the divisor 100. *)
Definition better (old tx : Transaction) (priceBump : Z) : bool :=
  if (0 <=? tx_GasFeeCapCmp old tx) || (0 <=? tx_GasTipCapCmp old tx) then false
  else
    let a := bump_factor priceBump in
    let thresholdFeeCap := a * tx_GasFeeCap old / 100 in
    let thresholdTip := a * tx_GasTipCap old / 100 in
    negb ((tx_GasFeeCapIntCmp tx thresholdFeeCap <? 0) || (tx_GasTipCapIntCmp tx thresholdTip <? 0)).

Definition tl_Add (tx : Transaction) (priceBump : Z) (l : txList) : (bool * option Transaction) * txList :=
  let old := sm_Get (tl_txs l) (tx_Nonce tx) in
  if match old with Some old => better old tx priceBump | None => true end then
    ((true, old), mkTxList (tl_strict l) (sm_Put tx (tl_txs l))
                    (if Cmp (tl_costcap l) (tx_Cost tx) <? 0 then tx_Cost tx else tl_costcap l)
                    (if tl_gascap l <? tx_Gas tx then tx_Gas tx else tl_gascap l))
  else ((false, None), l).

Definition tl_Forward (threshold : Z) (l : txList) : option (list Transaction * txList) :=
  '(removed, m) ← sm_Forward threshold (tl_txs l); Some (removed, with_txs l m).

Definition tl_Cap (threshold : Z) (l : txList) : option (list Transaction * txList) :=
  '(drops, m) ← sm_Cap threshold (tl_txs l); Some (drops, with_txs l m).

Definition tl_Ready (start : Z) (l : txList) : option (list Transaction * txList) :=
  '(ready, m) ← sm_Ready start (tl_txs l); Some (ready, with_txs l m).

Definition tl_Len (l : txList) : Z := sm_Len (tl_txs l).
Definition tl_Empty (l : txList) : bool := tl_Len l =? 0.

Section lists.
Context {CR : Crypto} {MA : Machine} {MR : MapRange}.

(** What [Filter] removes: a payload of type 4 stays whatever it costs. *)
Definition unpayable (costLimit gasLimit : Z) (tx : Transaction) : bool :=
  match tx_GetWormholes tx with
  | Some w => if wh_Type w =? 4 then false else (gasLimit <? tx_Gas tx) || (0 <? Cmp (tx_Cost tx) costLimit)
  | None => (gasLimit <? tx_Gas tx) || (0 <? Cmp (tx_Cost tx) costLimit)
  end.

(** The least nonce of the removed transactions. *)
Definition lowest_nonce (removed : list Transaction) : Z :=
  foldl (fun lowest tx => if tx_Nonce tx <? lowest then tx_Nonce tx else lowest) (2 ^ 64 - 1) removed.

Definition tl_Filter (costLimit gasLimit : Z) (l : txList) : list Transaction * list Transaction * txList :=
  if (Cmp (tl_costcap l) costLimit <=? 0) && (tl_gascap l <=? gasLimit) then ([], [], l)
  else
    let '(removed, m) := sm_Filter (unpayable costLimit gasLimit) (tl_txs l) in
    match removed with
    | [] => ([], [], mkTxList (tl_strict l) m costLimit gasLimit)
    | _ =>
        let '(invalids, m) := if tl_strict l then sm_filter (fun tx => lowest_nonce removed <? tx_Nonce tx) m else ([], m) in
        (removed, invalids, mkTxList (tl_strict l) (sm_reheap m) costLimit gasLimit)
    end.

Definition tl_Remove (tx : Transaction) (l : txList) : option (bool * list Transaction * txList) :=
  let nonce := tx_Nonce tx in
  '(removed, m) ← sm_Remove nonce (tl_txs l);
  if negb removed then Some (false, [], l)
  else if tl_strict l then
    let '(invalids, m) := sm_Filter (fun tx => nonce <? tx_Nonce tx) m in Some (true, invalids, with_txs l m)
  else Some (true, [], with_txs l m).

Definition tl_Flatten (l : txList) : list Transaction * txList := let '(c, m) := sm_Flatten (tl_txs l) in (c, with_txs l m).

Definition tl_LastElement (l : txList) : option (Transaction * txList) :=
  '(tx, m) ← sm_LastElement (tl_txs l); Some (tx, with_txs l m).
End lists.
