(* ===== verification/TxListProps.v ===== *)
(** What the lists of an account's transactions do.

    A list is well formed when its index is a heap of the nonces in the map and its cache
    is empty or right; it then stands for the map.  Shown: every operation keeps a list
    well formed and does to the map, and returns, what it promises, whatever the order in
    which Go ranges over maps.  The last part states the contract of a list. *)
From S2P Require Import Prelude Common Params Wormholes StateTypes State StateDB Staking Evm Transition Rlp Heap TxTypes TxList.

Open Scope Z_scope.

#[export] Instance nonceLess_order : WeakOrder nonceLess.
Proof. split; unfold nonceLess; intros; lia. Qed.

(** ** Maps from nonces *)

Lemma map_to_list_filter {V : Type} (P : Z * V -> Prop) `{!forall x, Decision (P x)} (m : gmap Z V) :
  map_to_list (filter P m) ≡ₚ filter P (map_to_list m).
Proof.
  induction m as [|k x m Hn IH] using map_ind; [by rewrite map_filter_empty, map_to_list_empty|].
  rewrite map_to_list_insert, filter_cons by done. destruct (decide (P (k, x))).
  - rewrite map_filter_insert_True by done. by rewrite map_to_list_insert, IH by (rewrite map_lookup_filter_None; auto).
  - by rewrite map_filter_insert_not' by naive_solver.
Qed.

(** Every transaction is at its nonce, a 64-bit number. *)
Definition keyed (m : gmap Z Transaction) : Prop := forall n tx, m !! n = Some tx -> tx_Nonce tx = n /\ 0 <= n < 2 ^ 64.

Definition values (m : gmap Z Transaction) : list Transaction := (map_to_list m).*2.
Definition nonces (m : gmap Z Transaction) : list Z := (map_to_list m).*1.

(** The transactions by rising nonce. *)
Definition sorted (m : gmap Z Transaction) : list Transaction := TxByNonce (values m).

Definition below (t : Z) (m : gmap Z Transaction) : gmap Z Transaction := filter (fun kv => kv.1 < t) m.
Definition from (t : Z) (m : gmap Z Transaction) : gmap Z Transaction := filter (fun kv => ~ kv.1 < t) m.

#[export] Instance nonce_le_trans : Transitive nonce_le.
Proof. intros a b c. unfold nonce_le. lia. Qed.
#[export] Instance nonce_le_total : Total nonce_le.
Proof. intros a b. unfold nonce_le. lia. Qed.

Lemma values_elem m tx : keyed m -> tx ∈ values m <-> m !! tx_Nonce tx = Some tx.
Proof.
  intros Hk. unfold values. rewrite list_elem_of_fmap. split.
  - intros ([n tx'] & -> & H%elem_of_map_to_list). simpl. by destruct (Hk n tx' H) as [-> _].
  - intros H. exists (tx_Nonce tx, tx). split; [done|]. by apply elem_of_map_to_list.
Qed.

Lemma nonces_values m : keyed m -> nonces m = tx_Nonce <$> values m.
Proof.
  intros Hk. unfold nonces, values. rewrite <- list_fmap_compose. apply list_fmap_ext. intros i [n tx] H. simpl.
  apply list_elem_of_lookup_2, elem_of_map_to_list in H. by destruct (Hk n tx H).
Qed.

Lemma nonces_elem m n : n ∈ nonces m <-> is_Some (m !! n).
Proof.
  unfold nonces. rewrite list_elem_of_fmap. split; [intros ([k v] & -> & H%elem_of_map_to_list); eauto|].
  intros [tx H]. exists (n, tx). split; [done|]. by apply elem_of_map_to_list.
Qed.

Lemma nonces_NoDup m : NoDup (nonces m).
Proof. apply NoDup_fst_map_to_list. Qed.

Lemma keyed_values_inj m a b : keyed m -> a ∈ values m -> b ∈ values m -> tx_Nonce a = tx_Nonce b -> a = b.
Proof. intros Hk Ha Hb E. apply values_elem in Ha, Hb; [|done|done]. rewrite E in Ha. congruence. Qed.

(** There is one sorted list of the transactions. *)
Lemma sorted_unique m l : keyed m -> l ≡ₚ values m -> StronglySorted nonce_le l -> l = sorted m.
Proof.
  intros Hk Hp Hs. unfold sorted, TxByNonce. apply StronglySorted_unique_strong with (R := nonce_le); [|done|apply (StronglySorted_merge_sort nonce_le)|by rewrite merge_sort_Permutation].
  intros a b Ha Hb H1 H2. rewrite merge_sort_Permutation in Hb. rewrite Hp in Ha. apply (keyed_values_inj m); [done..|]. unfold nonce_le in *. lia.
Qed.

Lemma sorted_perm m : sorted m ≡ₚ values m.
Proof. apply merge_sort_Permutation. Qed.

Lemma sorted_sorted m : StronglySorted nonce_le (sorted m).
Proof. apply (StronglySorted_merge_sort nonce_le). Qed.

Lemma sorted_elem m tx : keyed m -> tx ∈ sorted m <-> m !! tx_Nonce tx = Some tx.
Proof. intros Hk. rewrite sorted_perm. by apply values_elem. Qed.

Lemma sorted_NoDup m : keyed m -> NoDup (tx_Nonce <$> sorted m).
Proof. intros Hk. rewrite sorted_perm, <- nonces_values by done. apply nonces_NoDup. Qed.

Lemma sorted_length m : length (sorted m) = size m.
Proof. rewrite sorted_perm. unfold values. rewrite length_fmap. apply length_map_to_list. Qed.

Lemma keyed_sub m m' : keyed m -> m' ⊆ m -> keyed m'.
Proof. intros Hk Hs n tx H. apply Hk. by eapply lookup_weaken. Qed.

Lemma keyed_delete n m : keyed m -> keyed (delete n m).
Proof. intros Hk. apply (keyed_sub m); [done|apply delete_subseteq]. Qed.

Lemma values_delete m n tx : m !! n = Some tx -> values m ≡ₚ tx :: values (delete n m).
Proof. intros H. unfold values. by rewrite <- (map_to_list_delete m n tx H). Qed.

Lemma nonces_delete m n tx : m !! n = Some tx -> nonces m ≡ₚ n :: nonces (delete n m).
Proof. intros H. unfold nonces. by rewrite <- (map_to_list_delete m n tx H). Qed.

Lemma sorted_least m n tx : keyed m -> m !! n = Some tx -> (forall k, is_Some (m !! k) -> n <= k) -> sorted m = tx :: sorted (delete n m).
Proof.
  intros Hk H Hmin. symmetry. apply sorted_unique; [done|by rewrite sorted_perm, (values_delete m n tx H)|]. constructor; [apply sorted_sorted|].
  apply Forall_forall. intros b Hb%sorted_elem; [|by apply keyed_delete]. apply lookup_delete_Some in Hb as [_ Hb]. unfold nonce_le. destruct (Hk n tx H) as [-> _]. by apply Hmin; eauto.
Qed.

Lemma sorted_greatest m n tx : keyed m -> m !! n = Some tx -> (forall k, is_Some (m !! k) -> k <= n) -> sorted m = sorted (delete n m) ++ [tx].
Proof.
  intros Hk H Hmax. symmetry. apply sorted_unique; [done|rewrite sorted_perm, (values_delete m n tx H); symmetry; apply Permutation_cons_append|].
  apply StronglySorted_app_2; [|apply sorted_sorted|repeat constructor]. intros a b Ha%sorted_elem Hb; [|by apply keyed_delete]. apply list_elem_of_singleton in Hb as ->.
  apply lookup_delete_Some in Ha as [_ Ha]. unfold nonce_le. destruct (Hk n tx H) as [-> _]. by apply Hmax; eauto.
Qed.

Lemma below_keyed t m : keyed m -> keyed (below t m).
Proof. intros H. apply (keyed_sub m); [done|apply map_filter_subseteq]. Qed.

Lemma from_keyed t m : keyed m -> keyed (from t m).
Proof. intros H. apply (keyed_sub m); [done|apply map_filter_subseteq]. Qed.

Lemma below_lookup t m n tx : below t m !! n = Some tx <-> m !! n = Some tx /\ n < t.
Proof. unfold below. by rewrite map_lookup_filter_Some. Qed.

Lemma from_lookup t m n tx : from t m !! n = Some tx <-> m !! n = Some tx /\ t <= n.
Proof. unfold from. rewrite map_lookup_filter_Some. simpl. split; intros [? ?]; split; try done; lia. Qed.

Lemma below_all t m : (forall n, is_Some (m !! n) -> t <= n) -> below t m = ∅ /\ from t m = m.
Proof.
  intros H. split; apply map_eq; intros n; apply option_eq; intros tx.
  - rewrite below_lookup, lookup_empty. split; [|done]. intros [E Hn]. assert (t <= n) by eauto. lia.
  - rewrite from_lookup. split; [by intros []|]. intros E. split; [done|]. eauto.
Qed.

Lemma below_delete t n m : below t (delete n m) = delete n (below t m).
Proof. apply map_filter_delete. Qed.

Lemma from_delete t n m : n < t -> from t (delete n m) = from t m.
Proof. intros H. unfold from. rewrite map_filter_delete. apply delete_id. apply map_lookup_filter_None. right. intros x _. simpl. lia. Qed.

Lemma sorted_empty : sorted ∅ = [].
Proof. done. Qed.

(** ** Well-formed maps *)

(** The index is a heap of the nonces of the map. *)
Definition indexed (items : gmap Z Transaction) (index : list Z) : Prop := keyed items /\ heap nonceLess index /\ index ≡ₚ nonces items.

Definition sm_wf (m : txSortedMap) : Prop :=
  indexed (sm_items m) (sm_index m) /\ forall c, sm_cache m = Some c -> c = sorted (sm_items m).

Lemma indexed_first items index first : indexed items index -> index !! 0%nat = Some first ->
  exists tx, items !! first = Some tx /\ forall k, is_Some (items !! k) -> first <= k.
Proof.
  intros (Hk & Hh & Hp) H. assert (Hin : first ∈ nonces items) by (rewrite <- Hp; by apply list_elem_of_lookup_2 with 0%nat).
  apply nonces_elem in Hin as [tx Htx]. exists tx. split; [done|]. intros k Hsome%nonces_elem. rewrite <- Hp in Hsome.
  pose proof (heap_least _ index first k Hh H Hsome) as Hle. unfold le, nonceLess in Hle. lia.
Qed.

Lemma indexed_none items index : indexed items index -> index !! 0%nat = None -> items = ∅ /\ index = [].
Proof.
  intros (_ & _ & Hp) H. assert (index = []) as -> by by destruct index. split; [|done]. unfold nonces in Hp. apply Permutation_nil_l, eq_sym, fmap_nil_inv in Hp. by apply map_to_list_empty_iff.
Qed.

Lemma indexed_Pop items index first : indexed items index -> index !! 0%nat = Some first ->
  exists index', Heap.Pop nonceLess index = Some (first, index') /\ indexed (delete first items) index' /\ length index = S (length index').
Proof.
  intros Hi H. destruct (indexed_first items index first Hi H) as (tx & Htx & _). destruct Hi as (Hk & Hh & Hp).
  destruct (Pop_ok nonceLess index Hh) as (x & index' & E & Hh' & Hp' & Hx & _); [by destruct index|]. simplify_eq. exists index'. split; [done|].
  split; [|by rewrite Hp']. split; [by apply keyed_delete|]. split; [done|]. apply (Permutation_cons_inv (a := first)). by rewrite <- Hp', Hp, (nonces_delete items first tx).
Qed.

Lemma Forward_from_ok fuel t items index removed : indexed items index -> (length index <= fuel)%nat ->
  exists index', Forward_from fuel t items index removed = Some (from t items, index', removed ++ sorted (below t items)) /\ indexed (from t items) index'.
Proof.
  revert items index removed. induction fuel as [|fuel IH]; intros items index removed Hi Hf; cbn [Forward_from].
  { destruct (indexed_none items index Hi) as [-> ->]; [by destruct index; simpl in *; [|lia]|]. exists []. by rewrite app_nil_r. }
  destruct (index !! 0%nat) as [first|] eqn:E0; cycle 1.
  { destruct (indexed_none items index Hi E0) as [-> ->]. exists []. by rewrite app_nil_r. }
  destruct (indexed_first items index first Hi E0) as (tx & Htx & Hmin). destruct (Z.ltb_spec first t) as [Hlt|Hge].
  - destruct (indexed_Pop items index first Hi E0) as (index1 & E1 & Hi1 & Hlen). rewrite E1. cbn [mbind option_bind]. rewrite Htx. cbn [mbind option_bind].
    destruct (IH (delete first items) index1 (removed ++ [tx]) Hi1 ltac:(lia)) as (index' & E & Hi'). rewrite from_delete in E, Hi' by done. exists index'. split; [|done].
    rewrite E, <- app_assoc, below_delete. rewrite (sorted_least (below t items) first tx); [done|apply below_keyed, Hi|by apply below_lookup|].
    intros k [y [Hy _]%below_lookup]. eauto.
  - destruct (below_all t items) as [E1 E2]; [intros n Hn; specialize (Hmin n Hn); lia|]. rewrite E1, E2, sorted_empty, app_nil_r. by exists index.
Qed.

Lemma sorted_split t m : keyed m -> sorted m = sorted (below t m) ++ sorted (from t m).
Proof.
  intros Hk. symmetry. apply sorted_unique; [done| |].
  - rewrite !sorted_perm. unfold values, below, from. rewrite <- fmap_app. f_equiv. rewrite !map_to_list_filter. apply filter_app_complement.
  - apply StronglySorted_app_2; [|apply sorted_sorted..]. intros a b Ha%sorted_elem Hb%sorted_elem; [|by apply from_keyed|by apply below_keyed].
    apply below_lookup in Ha as [_ Ha]. apply from_lookup in Hb as [_ Hb]. unfold nonce_le. lia.
Qed.

Lemma slice_from_app {A : Type} (a b : list A) : slice_from (length a) (a ++ b) = Some b.
Proof. unfold slice_from. rewrite length_app. destruct (Nat.leb_spec (length a) (length a + length b)); [|lia]. by rewrite drop_app_length. Qed.

Lemma slice_to_take {A : Type} (n : Z) (l : list A) : 0 <= n <= Z.of_nat (length l) -> slice_to n l = Some (take (Z.to_nat n) l).
Proof. intros H. unfold slice_to. destruct (Z.leb_spec 0 n), (Z.leb_spec n (Z.of_nat (length l))); [done|lia..]. Qed.

Lemma sm_Forward_ok t m : sm_wf m ->
  exists m', sm_Forward t m = Some (sorted (below t (sm_items m)), m') /\ sm_wf m' /\ sm_items m' = from t (sm_items m).
Proof.
  intros [Hi Hc]. destruct (Forward_from_ok (length (sm_index m)) t (sm_items m) (sm_index m) [] Hi ltac:(lia)) as (index & E & Hi').
  unfold sm_Forward. rewrite E. cbn [mbind option_bind app]. destruct (sm_cache m) as [c|] eqn:Ec; cbn [mbind option_bind].
  - rewrite (Hc c eq_refl), (sorted_split t (sm_items m)), slice_from_app by apply Hi. cbn [mbind option_bind].
    eexists. split; [done|]. split; [|done]. split; [done|]. by intros c' [= <-].
  - eexists. split; [done|]. split; [|done]. by split.
Qed.

(** ** The other operations *)

Lemma sm_Put_ok tx m : 0 <= tx_Nonce tx < 2 ^ 64 -> sm_wf m -> sm_wf (sm_Put tx m).
Proof.
  intros Hn [(Hk & Hh & Hp) _]. split; [|done]. cbn [sm_items sm_index sm_Put].
  assert (Hk' : keyed (<[tx_Nonce tx := tx]> (sm_items m))) by (intros n t [[<- <-]|[_ H]]%lookup_insert_Some; [done|by apply Hk]).
  split; [done|]. destruct (sm_items m !! tx_Nonce tx) as [old|] eqn:E.
  - split; [done|]. rewrite Hp, (nonces_delete _ _ _ E). rewrite (nonces_delete (<[tx_Nonce tx := tx]> (sm_items m)) (tx_Nonce tx) tx) by apply lookup_insert_eq.
    by rewrite delete_insert_eq.
  - destruct (Push_ok nonceLess (sm_index m) (tx_Nonce tx) Hh) as [H1 H2]. split; [done|]. rewrite H2, Hp. unfold nonces. by rewrite map_to_list_insert.
Qed.

Lemma sort_nonces_ok items index : indexed items index -> sort_nonces index = tx_Nonce <$> sorted items.
Proof.
  intros (Hk & _ & Hp). apply (StronglySorted_unique Z.le); [apply (StronglySorted_merge_sort Z.le)| |].
  - apply (StronglySorted_fmap tx_Nonce nonce_le Z.le); [done|apply sorted_sorted].
  - unfold sort_nonces. by rewrite merge_sort_Permutation, Hp, nonces_values, sorted_perm.
Qed.

Lemma sorted_last m l tx : keyed m -> sorted m = l ++ [tx] -> m !! tx_Nonce tx = Some tx /\ sorted (delete (tx_Nonce tx) m) = l.
Proof.
  intros Hk E. assert (Htx : m !! tx_Nonce tx = Some tx) by (apply sorted_elem; [done|]; rewrite E; set_solver). split; [done|].
  pose proof (sorted_sorted m) as Hs. rewrite E in Hs. apply StronglySorted_app in Hs as (Hs & _ & _).
  rewrite (sorted_greatest m (tx_Nonce tx) tx Hk Htx) in E; [by apply app_inj_tail in E as [-> _]|].
  intros k [y Hy]. destruct (Hk k y Hy) as [<- _]. assert (Hin : y ∈ sorted m) by by apply sorted_elem.
  rewrite E in Hin. apply elem_of_app in Hin as [Hin| ->%list_elem_of_singleton]; [|done]. apply Hs; [done|set_solver].
Qed.

Lemma Cap_from_ok k sz items index drops : keyed items -> size items = sz -> (k <= sz)%nat -> (tx_Nonce <$> sorted items) `prefix_of` index ->
  exists items', Cap_from k sz items index drops = Some (items', drops ++ reverse (drop (sz - k) (sorted items))) /\
    items' ⊆ items /\ sorted items' = take (sz - k) (sorted items).
Proof.
  revert sz items drops. induction k as [|k IH]; intros sz items drops Hk Hsz Hle Hpre; pose proof (sorted_length items) as Hlen; cbn [Cap_from].
  { exists items. rewrite Nat.sub_0_r, drop_ge, take_ge, reverse_nil, app_nil_r by lia. by destruct sz. }
  destruct sz as [|sz]; [lia|]. destruct (sorted items) as [|tx l _] eqn:E using rev_ind; [simpl in Hlen; lia|].
  destruct (sorted_last items l tx Hk E) as [Htx Hdel]. rewrite length_app in Hlen. simpl in Hlen. assert (length l = sz) as Hl by lia.
  assert (Hidx : index !! sz = Some (tx_Nonce tx)).
  { destruct Hpre as [tail ->]. rewrite fmap_app, <- app_assoc. rewrite lookup_app_r by (rewrite length_fmap; lia). by rewrite length_fmap, Hl, Nat.sub_diag. }
  rewrite Hidx. cbn [mbind option_bind]. rewrite Htx. cbn [mbind option_bind].
  destruct (IH sz (delete (tx_Nonce tx) items) (drops ++ [tx])) as (items' & E1 & E2 & E3); [by apply keyed_delete|rewrite map_size_delete_Some by eauto; lia|lia| |].
  { rewrite Hdel. etransitivity; [|exact Hpre]. rewrite fmap_app. by apply prefix_app_r. }
  exists items'. rewrite E1, Hdel. split; [|split; [etransitivity; [done|apply delete_subseteq]|]].
  - rewrite Nat.sub_succ, drop_app_le by lia. by rewrite reverse_app, <- app_assoc.
  - rewrite E3, Hdel, Nat.sub_succ. by rewrite take_app_le by lia.
Qed.

Lemma indexed_Init items l : keyed items -> l ≡ₚ nonces items -> indexed items (Heap.Init nonceLess l).
Proof. intros Hk Hp. destruct (Init_ok nonceLess l) as [H1 H2]. split; [done|]. split; [done|]. by rewrite H2. Qed.

(** [Cap] drops the greatest nonces, the greatest first. *)
Lemma sm_Cap_ok t m : 0 <= t -> sm_wf m -> let s := sorted (sm_items m) in
  exists m', sm_Cap t m = Some (reverse (drop (Z.to_nat t) s), m') /\ sm_wf m' /\ sm_items m' ⊆ sm_items m /\ sorted (sm_items m') = take (Z.to_nat t) s.
Proof.
  intros Ht [Hi Hc] s. pose proof (sorted_length (sm_items m)) as Hlen. fold s in Hlen. unfold sm_Cap. destruct (Z.leb_spec (Z.of_nat (size (sm_items m))) t) as [Hle|Hgt].
  { exists m. rewrite drop_ge, take_ge by lia. by split; [|split]. }
  rewrite (sort_nonces_ok (sm_items m) (sm_index m) Hi). fold s.
  destruct (Cap_from_ok (Z.to_nat (Z.of_nat (size (sm_items m)) - t)) (size (sm_items m)) (sm_items m) (tx_Nonce <$> s) []) as (items & E & Hsub & Hs); [apply Hi|done|lia|done|].
  rewrite E. cbn [mbind option_bind app]. fold s. fold s in Hs. replace (size (sm_items m) - Z.to_nat (Z.of_nat (size (sm_items m)) - t))%nat with (Z.to_nat t) in * by lia.
  rewrite slice_to_take by (rewrite length_fmap; lia). cbn [mbind option_bind].
  assert (Hk : keyed items) by (apply (keyed_sub (sm_items m)); [apply Hi|done]).
  assert (Hi' : indexed items (Heap.Init nonceLess (take (Z.to_nat t) (tx_Nonce <$> s)))) by (apply indexed_Init; [done|by rewrite <- fmap_take, <- Hs, nonces_values, sorted_perm]).
  destruct (sm_cache m) as [c|] eqn:Ec; cbn [mbind option_bind]; [|eexists; split; [done|]; split; [by split|done]].
  rewrite (Hc c eq_refl). fold s. rewrite length_reverse, length_drop. replace (Z.of_nat (length s) - Z.of_nat (length s - Z.to_nat t)) with t by lia.
  rewrite slice_to_take by lia. cbn [mbind option_bind]. eexists. split; [done|]. split; [|done]. split; [done|]. by intros c' [= <-].
Qed.

Lemma sm_Remove_ok n tx m : sm_wf m -> sm_items m !! n = Some tx ->
  exists m', sm_Remove n m = Some (true, m') /\ sm_wf m' /\ sm_items m' = delete n (sm_items m).
Proof.
  intros [(Hk & Hh & Hp) _] Hn. unfold sm_Remove. rewrite Hn. assert (Hin : n ∈ sm_index m) by (rewrite Hp; apply nonces_elem; eauto).
  destruct (list_find_elem_of (eq n) (sm_index m) n Hin eq_refl) as [[i x] E]. rewrite E. apply list_find_Some in E as (Hi & <- & _).
  destruct (Remove_ok nonceLess (sm_index m) i n Hh Hi) as (index & -> & Hh' & Hp'). cbn [mbind option_bind].
  eexists. split; [done|]. split; [|done]. split; [|done]. split; [by apply keyed_delete|]. split; [done|]. cbn [sm_index sm_items].
  apply (Permutation_cons_inv (a := n)). by rewrite <- Hp', Hp, (nonces_delete (sm_items m) n tx).
Qed.

(** The first transactions whose nonces follow each other from [next] on. *)
Fixpoint consecutive (next : Z) (l : list Transaction) : list Transaction :=
  match l with
  | [] => []
  | tx :: l => if tx_Nonce tx =? next then tx :: consecutive (next + 1) l else []
  end.

Lemma Ready_from_ok fuel next items index ready : indexed items index -> (length index <= fuel)%nat -> 0 <= next <= 2 ^ 64 -> (forall k, is_Some (items !! k) -> next <= k) ->
  exists items' index', Ready_from fuel (u64 next) items index ready = Some (items', index', ready ++ consecutive next (sorted items)) /\
    indexed items' index' /\ items' ⊆ items /\ sorted items = consecutive next (sorted items) ++ sorted items'.
Proof.
  revert next items index ready. induction fuel as [|fuel IH]; intros next items index ready Hi Hf Hn Hmin; cbn [Ready_from].
  { destruct (indexed_none items index Hi) as [-> ->]; [by destruct index; simpl in *; [|lia]|]. exists ∅, []. by rewrite app_nil_r. }
  destruct (index !! 0%nat) as [first|] eqn:E0; cycle 1.
  { destruct (indexed_none items index Hi E0) as [-> ->]. exists ∅, []. by rewrite app_nil_r. }
  destruct (indexed_first items index first Hi E0) as (tx & Htx & Hleast). pose proof Hi as (Hk & _). destruct (Hk first tx Htx) as [Hnon Hr]. pose proof (Hmin first ltac:(eauto)).
  assert (u64 next = next) as -> by (unfold u64; apply Z.mod_small; lia).
  assert (Es := sorted_least items first tx Hk Htx Hleast). rewrite Es. cbn [consecutive]. rewrite Hnon. destruct (Z.eqb_spec first next) as [->|Hne].
  - rewrite Htx. cbn [mbind option_bind]. destruct (indexed_Pop items index next Hi E0) as (index1 & -> & Hi1 & Hlen). cbn [mbind option_bind].
    destruct (IH (next + 1) (delete next items) index1 (ready ++ [tx]) Hi1) as (items' & index' & -> & E2 & E3 & E4); [lia|lia| |].
    { intros k [y [Hne Hy]%lookup_delete_Some]. specialize (Hmin k ltac:(eauto)). lia. }
    exists items', index'. split; [by rewrite <- app_assoc|]. split; [done|]. split; [etransitivity; [done|apply delete_subseteq]|]. simpl. by rewrite <- E4.
  - exists items, index. rewrite app_nil_r. split; [done|]. split; [done|]. split; [done|]. by rewrite Es.
Qed.

(** The transactions that [Ready] returns. *)
Definition ready_txs (start : Z) (items : gmap Z Transaction) : list Transaction :=
  match sorted items with
  | [] => []
  | tx :: _ => if start <? tx_Nonce tx then [] else consecutive (tx_Nonce tx) (sorted items)
  end.

Lemma sm_Ready_ok start m : sm_wf m -> let r := ready_txs start (sm_items m) in
  exists m', sm_Ready start m = Some (r, m') /\ sm_wf m' /\ sm_items m' ⊆ sm_items m /\ sorted (sm_items m) = r ++ sorted (sm_items m').
Proof.
  intros Hwf r. pose proof Hwf as [Hi Hc]. unfold sm_Ready, r, ready_txs. destruct (sm_index m !! 0%nat) as [first|] eqn:E0; cycle 1.
  { destruct (indexed_none _ _ Hi E0) as [E _]. exists m. rewrite E. by split; [|split]. }
  destruct (indexed_first _ _ first Hi E0) as (tx & Htx & Hleast). pose proof Hi as (Hk & _). destruct (Hk first tx Htx) as [Hnon Hr].
  assert (Es := sorted_least (sm_items m) first tx Hk Htx Hleast). rewrite Es, Hnon. destruct (Z.ltb_spec start first).
  { exists m. rewrite Es. by split; [|split]. }
  destruct (Ready_from_ok (length (sm_index m)) first (sm_items m) (sm_index m) [] Hi) as (items' & index' & E & H1 & H2 & H3); [lia|lia|done|].
  unfold u64 in E. rewrite Z.mod_small in E by lia. rewrite E. cbn [mbind option_bind app]. eexists. split; [by rewrite <- Es|]. split; [by split|]. split; [done|]. by rewrite <- Es.
Qed.

(** ** Filters and sorting *)

Definition pick (f : Transaction -> bool) (m : gmap Z Transaction) : gmap Z Transaction := filter (fun kv => f kv.2 = true) m.
Definition keep (f : Transaction -> bool) (m : gmap Z Transaction) : gmap Z Transaction := filter (fun kv => f kv.2 = false) m.

Lemma pick_lookup f m n tx : pick f m !! n = Some tx <-> m !! n = Some tx /\ f tx = true.
Proof. unfold pick. by rewrite map_lookup_filter_Some. Qed.

Lemma keep_lookup f m n tx : keep f m !! n = Some tx <-> m !! n = Some tx /\ f tx = false.
Proof. unfold keep. by rewrite map_lookup_filter_Some. Qed.

Lemma pick_keyed f m : keyed m -> keyed (pick f m).
Proof. intros H. apply (keyed_sub m); [done|apply map_filter_subseteq]. Qed.

Lemma keep_keyed f m : keyed m -> keyed (keep f m).
Proof. intros H. apply (keyed_sub m); [done|apply map_filter_subseteq]. Qed.

Lemma values_nil m : values m = [] -> m = ∅.
Proof. intros H. apply map_to_list_empty_iff. by apply fmap_nil_inv in H. Qed.

Lemma keep_all f m : pick f m = ∅ -> keep f m = m.
Proof.
  intros H. apply map_eq. intros n. apply option_eq. intros tx. rewrite keep_lookup. split; [by intros []|]. intros Htx. split; [done|].
  destruct (f tx) eqn:E; [|done]. assert (Hp : pick f m !! n = Some tx) by by apply pick_lookup. by rewrite H in Hp.
Qed.

Section ranges.
Context {MR : MapRange}.

Lemma sm_reheap_ok m : keyed (sm_items m) -> sm_wf (sm_reheap m).
Proof. intros Hk. split; [|done]. apply indexed_Init; [done|]. unfold nonces. cbn [sm_items sm_reheap]. by rewrite map_range_perm. Qed.

Lemma sm_filter_ok f m : let '(removed, m') := sm_filter f m in removed ≡ₚ values (pick f (sm_items m)) /\ sm_items m' = keep f (sm_items m).
Proof. unfold sm_filter. cbv zeta. split; [|done]. unfold values, pick. by rewrite map_range_perm, map_to_list_filter. Qed.

Lemma sm_Filter_ok f m : sm_wf m ->
  let '(removed, m') := sm_Filter f m in removed ≡ₚ values (pick f (sm_items m)) /\ sm_items m' = keep f (sm_items m) /\ sm_wf m'.
Proof.
  intros [Hi Hc]. unfold sm_Filter. pose proof (sm_filter_ok f m) as H. destruct (sm_filter f m) as [removed m1] eqn:E. destruct H as [Hp Hk].
  split; [done|]. destruct removed as [|x removed]; [|split; [done|]; apply sm_reheap_ok; rewrite Hk; apply keep_keyed, Hi].
  split; [done|]. apply Permutation_nil_l, eq_sym, values_nil in Hp. rewrite (keep_all _ _ Hp) in Hk. unfold sm_filter in E. cbv zeta in E. apply pair_eq in E as [E1 <-]. rewrite E1 in *.
  cbn [sm_items] in Hk. split; cbn [sm_items sm_index sm_cache]; by rewrite Hk.
Qed.

Lemma sm_flatten_ok m : sm_wf m -> let '(c, m') := sm_flatten m in c = sorted (sm_items m) /\ sm_items m' = sm_items m /\ sm_wf m'.
Proof.
  intros [Hi Hc]. unfold sm_flatten. destruct (sm_cache m) as [c|] eqn:E.
  - split; [by apply Hc|]. split; [done|]. split; [done|]. intros c' E'. apply Hc. congruence.
  - assert (Es : TxByNonce (map_range (sm_items m)).*2 = sorted (sm_items m)).
    { apply sorted_unique; [apply Hi| |apply (StronglySorted_merge_sort nonce_le)]. unfold TxByNonce, values. by rewrite merge_sort_Permutation, map_range_perm. }
    cbv zeta. rewrite Es. split; [done|]. split; [done|]. split; [done|]. by intros c [= <-].
Qed.

Lemma sm_LastElement_ok m l tx : sm_wf m -> sorted (sm_items m) = l ++ [tx] -> exists m', sm_LastElement m = Some (tx, m') /\ sm_items m' = sm_items m /\ sm_wf m'.
Proof.
  intros Hwf E. unfold sm_LastElement. pose proof (sm_flatten_ok m Hwf) as H. destruct (sm_flatten m) as [c m']. destruct H as (-> & Hi & Hm). rewrite E, last_snoc. by exists m'.
Qed.
End ranges.

(** ** Lists *)

Section lists.
Context {CR : Crypto} {MA : Machine} {MR : MapRange}.

Definition exempt (tx : Transaction) : bool := match tx_GetWormholes tx with Some w => wh_Type w =? 4 | None => false end.

Lemma unpayable_true costLimit gasLimit tx :
  unpayable costLimit gasLimit tx = true <-> exempt tx = false /\ (gasLimit < tx_Gas tx \/ costLimit < tx_Cost tx).
Proof.
  unfold unpayable, exempt. pose proof (Cmp_gt (tx_Cost tx) costLimit). destruct (tx_GetWormholes tx) as [w|]; [destruct (wh_Type w =? 4); [naive_solver|]|];
    destruct (Z.ltb_spec gasLimit (tx_Gas tx)), (Z.ltb_spec 0 (Cmp (tx_Cost tx) costLimit)); cbn [orb]; intuition (congruence || lia).
Qed.

(** The caps bound the transactions that [Filter] can remove. *)
Definition tl_wf (l : txList) : Prop :=
  sm_wf (tl_txs l) /\
  forall n tx, sm_items (tl_txs l) !! n = Some tx -> exempt tx = false -> tx_Cost tx <= tl_costcap l /\ tx_Gas tx <= tl_gascap l.

Definition tl_items (l : txList) : gmap Z Transaction := sm_items (tl_txs l).

Lemma tl_keyed l : tl_wf l -> keyed (tl_items l).
Proof. by intros [[[H _] _] _]. Qed.

Lemma newTxList_wf strict : tl_wf (newTxList strict).
Proof. split; [|intros n tx; cbn; by rewrite lookup_empty]. split; [|done]. split; [intros n tx; cbn; by rewrite lookup_empty|]. split; [intros k Hk; simpl in Hk; lia|done]. Qed.

(** The same list with fewer transactions. *)
Lemma tl_wf_with_txs l m : tl_wf l -> sm_wf m -> sm_items m ⊆ tl_items l -> tl_wf (with_txs l m).
Proof. intros [_ Hc] Hm Hsub. split; [done|]. intros n tx H. apply (Hc n tx). by eapply lookup_weaken. Qed.

Lemma tl_Add_ok tx bump l : 0 <= tx_Nonce tx < 2 ^ 64 -> tl_wf l ->
  let '((inserted, old), l') := tl_Add tx bump l in
  tl_wf l' /\ tl_strict l' = tl_strict l /\
  if inserted then old = tl_items l !! tx_Nonce tx /\ tl_items l' = <[tx_Nonce tx := tx]> (tl_items l) /\ (forall o, old = Some o -> better o tx bump = true)
  else l' = l /\ old = None /\ exists o, tl_items l !! tx_Nonce tx = Some o /\ better o tx bump = false.
Proof.
  intros Hn Hwf. pose proof Hwf as [Hm Hc]. unfold tl_Add. fold (tl_items l). unfold sm_Get. fold (tl_items l). destruct (match tl_items l !! tx_Nonce tx with Some old => better old tx bump | None => true end) eqn:E.
  - split; [|split; [done|split; [done|split; [done|]]]]; [|intros o Ho; by rewrite Ho in E].
    split; [by apply sm_Put_ok|]. cbn [tl_txs tl_costcap tl_gascap sm_Put sm_items]. pose proof (Cmp_lt (tl_costcap l) (tx_Cost tx)).
    intros n t [[<- <-]|[_ Ht]]%lookup_insert_Some He; [|destruct (Hc n t Ht He)];
      destruct (Z.ltb_spec (Cmp (tl_costcap l) (tx_Cost tx)) 0), (Z.ltb_spec (tl_gascap l) (tx_Gas tx)); lia.
  - split; [done|]. split; [done|]. split; [done|]. split; [done|]. destruct (tl_items l !! tx_Nonce tx) as [o|]; [|done]. by exists o.
Qed.

Lemma tl_Forward_ok t l : tl_wf l ->
  exists l', tl_Forward t l = Some (sorted (below t (tl_items l)), l') /\ tl_wf l' /\ tl_strict l' = tl_strict l /\ tl_items l' = from t (tl_items l).
Proof.
  intros Hwf. destruct (sm_Forward_ok t (tl_txs l) (proj1 Hwf)) as (m & E & Hm & Hi). unfold tl_Forward. rewrite E. eexists. split; [done|].
  split; [|done]. apply tl_wf_with_txs; [done|done|]. rewrite Hi. apply map_filter_subseteq.
Qed.

Lemma tl_Cap_ok t l : 0 <= t -> tl_wf l -> let s := sorted (tl_items l) in
  exists l', tl_Cap t l = Some (reverse (drop (Z.to_nat t) s), l') /\ tl_wf l' /\ tl_strict l' = tl_strict l /\ tl_items l' ⊆ tl_items l /\
    sorted (tl_items l') = take (Z.to_nat t) s.
Proof.
  intros Ht Hwf s. destruct (sm_Cap_ok t (tl_txs l) Ht (proj1 Hwf)) as (m & E & Hm & Hi & Hs). unfold tl_Cap. rewrite E. eexists. split; [done|]. split; [by apply tl_wf_with_txs|done].
Qed.

Lemma tl_Ready_ok start l : tl_wf l -> let r := ready_txs start (tl_items l) in
  exists l', tl_Ready start l = Some (r, l') /\ tl_wf l' /\ tl_strict l' = tl_strict l /\ tl_items l' ⊆ tl_items l /\ sorted (tl_items l) = r ++ sorted (tl_items l').
Proof.
  intros Hwf r. destruct (sm_Ready_ok start (tl_txs l) (proj1 Hwf)) as (m & E & Hm & Hi & Hs). unfold tl_Ready. rewrite E. eexists. split; [done|]. split; [by apply tl_wf_with_txs|done].
Qed.

Lemma tl_Flatten_ok l : tl_wf l -> let '(c, l') := tl_Flatten l in c = sorted (tl_items l) /\ tl_wf l' /\ tl_strict l' = tl_strict l /\ tl_items l' = tl_items l.
Proof.
  intros Hwf. unfold tl_Flatten, sm_Flatten. pose proof (sm_flatten_ok (tl_txs l) (proj1 Hwf)) as H. destruct (sm_flatten (tl_txs l)) as [c m]. destruct H as (-> & Hi & Hm).
  split; [done|]. split; [|done]. apply tl_wf_with_txs; [done|done|by rewrite Hi].
Qed.

Lemma tl_LastElement_ok l s tx : tl_wf l -> sorted (tl_items l) = s ++ [tx] ->
  exists l', tl_LastElement l = Some (tx, l') /\ tl_wf l' /\ tl_strict l' = tl_strict l /\ tl_items l' = tl_items l.
Proof.
  intros Hwf E. destruct (sm_LastElement_ok (tl_txs l) s tx (proj1 Hwf) E) as (m & E1 & Hi & Hm). unfold tl_LastElement. rewrite E1. eexists. split; [done|]. split; [|done].
  apply tl_wf_with_txs; [done|done|by rewrite Hi].
Qed.

(** The least nonce of a map; 2^64 if there is none. *)
Definition first_nonce (m : gmap Z Transaction) : Z := match sorted m with [] => 2 ^ 64 | tx :: _ => tx_Nonce tx end.

Lemma first_nonce_least m n : keyed m -> is_Some (m !! n) -> first_nonce m <= n.
Proof.
  intros Hk [tx Htx]. destruct (Hk n tx Htx) as [Hn _]. assert (Hin : tx ∈ sorted m) by (apply sorted_elem; [done|by rewrite Hn]). unfold first_nonce.
  pose proof (sorted_sorted m) as Hs. destruct (sorted m) as [|x s]; [by apply elem_of_nil in Hin|]. apply StronglySorted_cons in Hs as [Hs _]. rewrite Forall_forall in Hs.
  apply elem_of_cons in Hin as [->|Hin]; [lia|]. specialize (Hs tx Hin). unfold nonce_le in Hs. lia.
Qed.

Lemma first_nonce_in m : keyed m -> m <> ∅ -> exists tx, m !! first_nonce m = Some tx.
Proof.
  intros Hk Hne. unfold first_nonce. destruct (sorted m) as [|x s] eqn:E.
  - apply (f_equal length) in E. rewrite sorted_length in E. by apply map_size_empty_inv in E.
  - exists x. apply sorted_elem; [done|]. rewrite E. apply elem_of_cons. by left.
Qed.

Lemma lowest_nonce_acc l acc : let r := foldl (fun lowest tx => if tx_Nonce tx <? lowest then tx_Nonce tx else lowest) acc l in
  r <= acc /\ (forall tx, tx ∈ l -> r <= tx_Nonce tx) /\ (r = acc \/ exists tx, tx ∈ l /\ tx_Nonce tx = r).
Proof.
  revert acc. induction l as [|x l IH]; intros acc; cbv zeta; cbn [foldl]; [split; [lia|]; split; [by intros tx ?%elem_of_nil|by left]|].
  destruct (IH (if tx_Nonce x <? acc then tx_Nonce x else acc)) as (H1 & H2 & H3). destruct (Z.ltb_spec (tx_Nonce x) acc).
  - split; [lia|]. split; [by intros tx [->|Hin]%elem_of_cons; [lia|apply H2]|]. right. destruct H3 as [H3|(tx & Hin & E)]; [exists x|exists tx]; split; try done; set_solver.
  - split; [lia|]. split; [by intros tx [->|Hin]%elem_of_cons; [lia|apply H2]|]. destruct H3 as [H3|(tx & Hin & E)]; [by left|right]. exists tx. split; [set_solver|done].
Qed.

Lemma lowest_nonce_ok m l : keyed m -> m <> ∅ -> l ≡ₚ values m -> lowest_nonce l = first_nonce m.
Proof.
  intros Hk Hne Hp. unfold lowest_nonce. destruct (lowest_nonce_acc l (2 ^ 64 - 1)) as (_ & H2 & H3). set (r := foldl _ _ _) in *.
  destruct (first_nonce_in m Hk Hne) as [tx Htx]. destruct (Hk _ tx Htx) as [Hn Hr]. assert (Hle : r <= first_nonce m).
  { rewrite <- Hn. apply H2. rewrite Hp. apply values_elem; [done|]. by rewrite Hn. }
  destruct H3 as [H3|(t & Hin & E)]; [lia|]. rewrite Hp in Hin. apply values_elem in Hin; [|done]. pose proof (first_nonce_least m (tx_Nonce t) Hk ltac:(eauto)). lia.
Qed.

Lemma below_everything t m : keyed m -> 2 ^ 64 <= t -> below t m = m /\ from t m = ∅.
Proof.
  intros Hk Ht. split; apply map_eq; intros n; apply option_eq; intros tx.
  - rewrite below_lookup. split; [by intros []|]. intros H. destruct (Hk n tx H). split; [done|lia].
  - rewrite from_lookup, lookup_empty. split; [|done]. intros [H Hn]. destruct (Hk n tx H). lia.
Qed.

Lemma first_picked f m tx : keyed m -> m !! first_nonce (pick f m) = Some tx -> f tx = true.
Proof.
  intros Hk H. destruct (decide (pick f m = ∅)) as [E|Hne].
  - rewrite E in H. destruct (Hk _ tx H) as [_ Hr]. change (first_nonce ∅) with (2 ^ 64) in Hr. lia.
  - destruct (first_nonce_in (pick f m) (pick_keyed f m Hk) Hne) as [y [Hy Hf]%pick_lookup]. congruence.
Qed.

Lemma first_pick_least f m n tx : keyed m -> m !! n = Some tx -> f tx = true -> first_nonce (pick f m) <= n.
Proof. intros Hk Hn Hf. apply first_nonce_least; [by apply pick_keyed|]. exists tx. by apply pick_lookup. Qed.

(** Below the first transaction that a filter picks, all are kept. *)
Lemma keep_below f m t : keyed m -> t = first_nonce (pick f m) ->
  keep (fun tx => t <? tx_Nonce tx) (keep f m) = below t m /\ pick (fun tx => t <? tx_Nonce tx) (keep f m) = keep f (from t m).
Proof.
  intros Hk ->. assert (H1 := fun n tx => first_pick_least f m n tx Hk). assert (H2 := fun tx => first_picked f m tx Hk). set (t := first_nonce (pick f m)) in *.
  split; apply map_eq; intros n; apply option_eq; intros tx; rewrite ?below_lookup, ?keep_lookup, ?pick_lookup, ?keep_lookup, ?from_lookup; split.
  - intros [[Hn Hf] Hle%Z.ltb_ge]. destruct (Hk n tx Hn) as [E _]. split; [done|]. destruct (decide (n = t)) as [->|]; [|lia]. specialize (H2 tx Hn). congruence.
  - intros [Hn Hlt]. destruct (Hk n tx Hn) as [E _]. split; [|apply Z.ltb_ge; lia]. split; [done|]. destruct (f tx) eqn:Hf; [|done]. specialize (H1 n tx Hn Hf). lia.
  - intros [[Hn Hf] Hlt%Z.ltb_lt]. destruct (Hk n tx Hn) as [E _]. split; [|done]. split; [done|lia].
  - intros [[Hn Hle] Hf]. destruct (Hk n tx Hn) as [E _]. split; [done|]. apply Z.ltb_lt. destruct (decide (n = t)) as [->|]; [|lia]. specialize (H2 tx Hn). congruence.
Qed.

(** Nothing is too costly if the caps are not. *)
Lemma caps_shortcut c g l : tl_wf l -> (Cmp (tl_costcap l) c <=? 0) && (tl_gascap l <=? g) = true -> pick (unpayable c g) (tl_items l) = ∅.
Proof.
  intros [_ Hc] [E1%Z.leb_le E2%Z.leb_le]%andb_true_iff. apply map_eq. intros n. rewrite lookup_empty. destruct (pick _ _ !! n) as [tx|] eqn:E; [|done].
  apply pick_lookup in E as [Hn [He Hbig]%unpayable_true]. destruct (Hc n tx Hn He). pose proof (Cmp_gt (tl_costcap l) c). lia.
Qed.

Lemma payable_wf strict c g m items : sm_wf m -> sm_items m ⊆ keep (unpayable c g) items -> tl_wf (mkTxList strict m c g).
Proof.
  intros Hm Hsub. split; [done|]. cbn [tl_txs tl_costcap tl_gascap]. intros n tx Hn He. pose proof (lookup_weaken _ _ _ _ Hn Hsub) as Hn'. apply keep_lookup in Hn' as [_ Hu].
  destruct (decide (tx_Cost tx <= c /\ tx_Gas tx <= g)) as [|Hno]; [done|]. assert (unpayable c g tx = true); [|congruence]. apply unpayable_true. split; [done|]. lia.
Qed.

Lemma none_picked f m : keyed m -> pick f m = ∅ -> below (first_nonce (pick f m)) m = m /\ keep f (from (first_nonce (pick f m)) m) = ∅ /\ keep f m = m.
Proof.
  intros Hk E. split; [|split; [|by apply keep_all]]; rewrite E; change (first_nonce ∅) with (2 ^ 64); destruct (below_everything (2 ^ 64) m Hk ltac:(lia)) as [E1 E2]; [done|]. by rewrite E2.
Qed.

(** [Filter] removes the transactions that are too costly, whether or not it looks at them; a strict list keeps only what is before the first of them. *)
Lemma tl_Filter_ok c g l : tl_wf l ->
  let bad := pick (unpayable c g) (tl_items l) in
  let '(removed, invalids, l') := tl_Filter c g l in
  tl_wf l' /\ tl_strict l' = tl_strict l /\ removed ≡ₚ values bad /\
  if tl_strict l then tl_items l' = below (first_nonce bad) (tl_items l) /\ invalids ≡ₚ values (keep (unpayable c g) (from (first_nonce bad) (tl_items l)))
  else tl_items l' = keep (unpayable c g) (tl_items l) /\ invalids = [].
Proof.
  intros Hwf bad. pose proof Hwf as [Hm _]. pose proof (tl_keyed l Hwf) as Hk. destruct (keep_below (unpayable c g) (tl_items l) _ Hk eq_refl) as [Hb1 Hb2]. fold bad in Hb1, Hb2.
  assert (Hnone := none_picked (unpayable c g) (tl_items l) Hk). fold bad in Hnone.
  unfold tl_Filter. destruct ((Cmp (tl_costcap l) c <=? 0) && (tl_gascap l <=? g)) eqn:Ecap.
  { assert (Hbad : bad = ∅) by by apply caps_shortcut. destruct (Hnone Hbad) as (E1 & E2 & E3). split; [done|]. split; [done|]. rewrite Hbad at 1. split; [done|].
    destruct (tl_strict l); [by rewrite E1, E2|by rewrite E3]. }
  pose proof (sm_Filter_ok (unpayable c g) (tl_txs l) Hm) as HF. destruct (sm_Filter (unpayable c g) (tl_txs l)) as [removed m]. destruct HF as (Hrem & Hit & Hwm). fold (tl_items l) in Hrem, Hit. fold bad in Hrem.
  destruct removed as [|x r].
  { apply Permutation_nil_l, eq_sym, values_nil in Hrem as Hbad. destruct (Hnone Hbad) as (E1 & E2 & E3). split; [apply (payable_wf _ c g m (tl_items l)); [done|by rewrite Hit]|]. split; [done|]. split; [by rewrite Hbad|].
    change (tl_items (mkTxList (tl_strict l) m c g)) with (sm_items m). rewrite Hit. destruct (tl_strict l); [by rewrite E1, E2, E3|done]. }
  assert (Hne : bad <> ∅) by (intros E; rewrite E in Hrem; by apply Permutation_nil_r in Hrem).
  rewrite (lowest_nonce_ok bad (x :: r) (pick_keyed _ _ Hk) Hne Hrem). destruct (tl_strict l) eqn:Estrict; cycle 1.
  { split; [apply (payable_wf _ c g _ (tl_items l)); [apply sm_reheap_ok; rewrite Hit; by apply keep_keyed|cbn; by rewrite Hit]|]. unfold tl_items at 1. cbn. by rewrite Hit. }
  pose proof (sm_filter_ok (fun tx => first_nonce bad <? tx_Nonce tx) m) as HF. destruct (sm_filter _ m) as [invalids m']. destruct HF as [Hinv Hit']. rewrite Hit in Hit', Hinv. rewrite Hb1 in Hit'. rewrite Hb2 in Hinv.
  split; [apply (payable_wf _ c g _ (tl_items l)); [apply sm_reheap_ok; rewrite Hit'; by apply below_keyed|cbn; rewrite Hit', <- Hb1; apply map_filter_subseteq]|].
  unfold tl_items at 1. cbn. by rewrite Hit'.
Qed.

Lemma tl_Remove_none tx l : tl_items l !! tx_Nonce tx = None -> tl_Remove tx l = Some (false, [], l).
Proof. intros H. unfold tl_Remove, sm_Remove. fold (tl_items l). by rewrite H. Qed.

(** A strict list loses the transactions after the removed one too. *)
Lemma tl_Remove_ok tx old l : tl_wf l -> tl_items l !! tx_Nonce tx = Some old ->
  exists invalids l', tl_Remove tx l = Some (true, invalids, l') /\ tl_wf l' /\ tl_strict l' = tl_strict l /\
  if tl_strict l then tl_items l' = below (tx_Nonce tx) (tl_items l) /\ invalids ≡ₚ values (from (tx_Nonce tx + 1) (tl_items l))
  else tl_items l' = delete (tx_Nonce tx) (tl_items l) /\ invalids = [].
Proof.
  intros Hwf Hn. pose proof (tl_keyed l Hwf) as Hk. destruct (sm_Remove_ok (tx_Nonce tx) old (tl_txs l) (proj1 Hwf) Hn) as (m & E & Hm & Hit). fold (tl_items l) in Hit.
  unfold tl_Remove. rewrite E. cbn [mbind option_bind negb]. destruct (tl_strict l) eqn:Es; cycle 1.
  { eexists _, _. split; [done|]. split; [apply tl_wf_with_txs; [done|done|rewrite Hit; apply delete_subseteq]|]. done. }
  pose proof (sm_Filter_ok (fun t => tx_Nonce tx <? tx_Nonce t) m Hm) as HF. destruct (sm_Filter _ m) as [invalids m']. destruct HF as (Hinv & Hit' & Hm'). rewrite Hit in Hinv, Hit'.
  assert (Hlook : forall n t, delete (tx_Nonce tx) (tl_items l) !! n = Some t <-> tl_items l !! n = Some t /\ n <> tx_Nonce tx /\ tx_Nonce t = n).
  { intros n t. rewrite lookup_delete_Some. split; [intros [? H]; destruct (Hk n t H); naive_solver|naive_solver]. }
  eexists _, _. split; [done|]. split; [|split; [done|split]].
  - apply tl_wf_with_txs; [done|done|]. rewrite Hit'. etransitivity; [apply map_filter_subseteq|apply delete_subseteq].
  - unfold tl_items at 1. cbn [tl_txs with_txs]. rewrite Hit'. apply map_eq. intros n. apply option_eq. intros t. rewrite keep_lookup, Hlook, below_lookup, Z.ltb_ge.
    split; [intros [(? & ? & ?) ?]; split; [done|lia]|]. intros [H ?]. destruct (Hk n t H). repeat split; try done; lia.
  - rewrite Hinv. f_equiv. apply reflexive_eq, map_eq. intros n. apply option_eq. intros t. rewrite pick_lookup, Hlook, from_lookup, Z.ltb_lt.
    split; [intros [(? & ? & ?) ?]; split; [done|lia]|]. intros [H ?]. destruct (Hk n t H). repeat split; try done; lia.
Qed.
End lists.

(** * The contract of [txList]

    It refines a map from nonces to transactions, and a
    transaction is replaced only by one that pays more. *)

Section lists.
Context {CR : Crypto} {MA : Machine} {MR : MapRange}.

(** ** Operations and their specification *)

Inductive list_op : Type :=
  | LAdd (tx : Transaction) (priceBump : Z)
  | LForward (threshold : Z)
  | LFilter (costLimit gasLimit : Z)
  | LCap (threshold : Z)
  | LRemove (tx : Transaction)
  | LReady (start : Z)
  | LFlatten.

(** The transactions that an operation returns, those it invalidates, and the list after it. *)
Definition run_list (op : list_op) (l : txList) : option (list Transaction * list Transaction * txList) :=
  match op with
  | LAdd tx bump => let '((_, old), l) := tl_Add tx bump l in Some (option_list old, [], l)
  | LForward t => '(out, l) ← tl_Forward t l; Some (out, [], l)
  | LFilter c g => Some (tl_Filter c g l)
  | LCap t => '(out, l) ← tl_Cap t l; Some (out, [], l)
  | LRemove tx => '(_, invalids, l) ← tl_Remove tx l; Some ([], invalids, l)
  | LReady start => '(out, l) ← tl_Ready start l; Some (out, [], l)
  | LFlatten => let '(out, l) := tl_Flatten l in Some (out, [], l)
  end.

(** The map of transactions with different nonces. *)
Definition of_list (l : list Transaction) : gmap Z Transaction := list_to_map ((fun tx => (tx_Nonce tx, tx)) <$> l).

(** The same on the map: no index, no cache, no caps. *)
Definition spec_list (strict : bool) (op : list_op) (m : gmap Z Transaction) : list Transaction * list Transaction * gmap Z Transaction :=
  match op with
  | LAdd tx bump =>
      match m !! tx_Nonce tx with
      | Some old => if better old tx bump then ([old], [], <[tx_Nonce tx := tx]> m) else ([], [], m)
      | None => ([], [], <[tx_Nonce tx := tx]> m)
      end
  | LForward t => (sorted (below t m), [], from t m)
  | LFilter c g =>
      let bad := pick (unpayable c g) m in
      if strict then (values bad, values (keep (unpayable c g) (from (first_nonce bad) m)), below (first_nonce bad) m)
      else (values bad, [], keep (unpayable c g) m)
  | LCap t => (drop (Z.to_nat t) (sorted m), [], of_list (take (Z.to_nat t) (sorted m)))
  | LRemove tx =>
      match m !! tx_Nonce tx with
      | None => ([], [], m)
      | Some _ => if strict then ([], values (from (tx_Nonce tx + 1) m), below (tx_Nonce tx) m) else ([], [], delete (tx_Nonce tx) m)
      end
  | LReady start => let r := ready_txs start m in (r, [], of_list (drop (length r) (sorted m)))
  | LFlatten => (sorted m, [], m)
  end.

(** Nonces are [uint64], and a list is not capped to less than nothing. *)
Definition list_op_ok (op : list_op) : Prop :=
  match op with LAdd tx _ => 0 <= tx_Nonce tx < 2 ^ 64 | LCap t => 0 <= t | _ => True end.

Fixpoint run_lists (ops : list list_op) (l : txList) : option (list (list Transaction * list Transaction) * txList) :=
  match ops with
  | [] => Some ([], l)
  | op :: ops => '(out, invalids, l) ← run_list op l; '(outs, l) ← run_lists ops l; Some ((out, invalids) :: outs, l)
  end.

Fixpoint spec_lists (strict : bool) (ops : list list_op) (m : gmap Z Transaction) : list (list Transaction * list Transaction) * gmap Z Transaction :=
  match ops with
  | [] => ([], m)
  | op :: ops => let '(out, invalids, m) := spec_list strict op m in let '(outs, m) := spec_lists strict ops m in ((out, invalids) :: outs, m)
  end.

(** The same transactions, in any order. *)
Definition same_out (x y : list Transaction * list Transaction) : Prop := x.1 ≡ₚ y.1 /\ x.2 ≡ₚ y.2.

(** ** Refinement *)

Lemma of_sorted m : keyed m -> of_list (sorted m) = m.
Proof.
  intros Hk. apply map_eq. intros n. apply option_eq. intros tx. unfold of_list. rewrite <- elem_of_list_to_map.
  - rewrite list_elem_of_fmap. split.
    + intros (y & E & Hy). simplify_eq. by apply sorted_elem.
    + intros Hn. exists tx. destruct (Hk n tx Hn) as [<- _]. split; [done|]. by apply sorted_elem.
  - rewrite <- list_fmap_compose. change (fst ∘ (fun tx : Transaction => (tx_Nonce tx, tx))) with tx_Nonce. by apply sorted_NoDup.
Qed.

Lemma run_list_refines op l : tl_wf l -> list_op_ok op ->
  let '(out, invalids, m) := spec_list (tl_strict l) op (tl_items l) in
  exists out' invalids' l', run_list op l = Some (out', invalids', l') /\ tl_wf l' /\ tl_strict l' = tl_strict l /\ tl_items l' = m /\ same_out (out', invalids') (out, invalids).
Proof.
  intros Hwf Hok. destruct op as [tx bump|t|c g|t|tx|start|]; cbn [spec_list run_list list_op_ok] in *.
  - pose proof (tl_Add_ok tx bump l Hok Hwf) as HA. destruct (tl_Add tx bump l) as [[inserted old] l']. destruct HA as (Hw & Hs & HA). destruct inserted.
    + destruct HA as (-> & Hit & Hb). destruct (tl_items l !! tx_Nonce tx) as [o|]; [rewrite (Hb o eq_refl)|]; by eexists _, _, l'.
    + destruct HA as (-> & -> & o & -> & ->). by eexists _, _, l.
  - destruct (tl_Forward_ok t l Hwf) as (l' & -> & Hw & Hs & Hit). by eexists _, _, l'.
  - pose proof (tl_Filter_ok c g l Hwf) as HF. cbv zeta in *. destruct (tl_Filter c g l) as [[removed invalids] l']. destruct HF as (Hw & Hs & Hr & HF).
    destruct (tl_strict l); destruct HF as [Hit Hinv]; [by eexists _, _, l'|]. subst invalids. by eexists _, _, l'.
  - destruct (tl_Cap_ok t l Hok Hwf) as (l' & -> & Hw & Hs & _ & Hit). eexists _, _, l'. split; [done|]. split; [done|]. split; [done|]. rewrite <- Hit, of_sorted by by apply tl_keyed.
    split; [done|]. split; [apply reverse_Permutation|done].
  - destruct (tl_items l !! tx_Nonce tx) as [o|] eqn:E; [|rewrite (tl_Remove_none tx l E); by eexists _, _, l].
    destruct (tl_Remove_ok tx o l Hwf E) as (invalids & l' & -> & Hw & Hs & HR). destruct (tl_strict l); destruct HR as [Hit Hinv]; [by eexists _, _, l'|]. subst invalids. by eexists _, _, l'.
  - destruct (tl_Ready_ok start l Hwf) as (l' & -> & Hw & Hs & _ & Hit). eexists _, _, l'. split; [done|]. split; [done|]. split; [done|]. rewrite Hit, drop_app_length, of_sorted by by apply tl_keyed. done.
  - pose proof (tl_Flatten_ok l Hwf) as HF. destruct (tl_Flatten l) as [c l']. destruct HF as (-> & Hw & Hs & Hit). by eexists _, _, l'.
Qed.

Lemma run_lists_refines ops l : tl_wf l -> Forall list_op_ok ops ->
  let '(outs, m) := spec_lists (tl_strict l) ops (tl_items l) in
  exists outs' l', run_lists ops l = Some (outs', l') /\ tl_items l' = m /\ Forall2 same_out outs' outs.
Proof.
  revert l. induction ops as [|op ops IH]; intros l Hwf Hok; cbn [spec_lists run_lists]; [by exists [], l|]. apply Forall_cons in Hok as [Hop Hok].
  pose proof (run_list_refines op l Hwf Hop) as H. destruct (spec_list (tl_strict l) op (tl_items l)) as [[out invalids] m]. destruct H as (out' & invalids' & l' & -> & Hw & Hs & Hit & Hout). cbn [mbind option_bind].
  specialize (IH l' Hw Hok). rewrite Hs, Hit in IH. destruct (spec_lists (tl_strict l) ops m) as [outs m']. destruct IH as (outs' & l2 & -> & Hit2 & Hf). cbn [mbind option_bind]. eexists _, l2. split; [done|]. split; [done|]. by constructor.
Qed.

(** C17. A list of transactions refines the map from nonces to transactions.  For every
    sequence of operations on a new list, strict or not, the list returns, each operation
    yields the transactions that the map yields, in some order, and the list ends with the
    items of the map: the heap of nonces, the sorted cache and the caps on cost and gas,
    which let [Filter] skip its work, are not visible. *)
Theorem txList_refines_map (strict : bool) (ops : list list_op) : Forall list_op_ok ops ->
  let '(outs, m) := spec_lists strict ops ∅ in
  exists outs' l', run_lists ops (newTxList strict) = Some (outs', l') /\ sm_items (tl_txs l') = m /\ Forall2 same_out outs' outs.
Proof. intros Hok. exact (run_lists_refines ops (newTxList strict) (newTxList_wf strict) Hok). Qed.

(** A fee that may take the place of another: larger, and not below it plus the percentage, rounded down. *)
Definition outbids (priceBump old new : Z) : Prop := old < new /\ (100 + priceBump) * old < 100 * (new + 1).

Lemma better_outbids old tx priceBump : 0 <= priceBump < 2 ^ 62 ->
  better old tx priceBump = true <-> outbids priceBump (tx_GasFeeCap old) (tx_GasFeeCap tx) /\ outbids priceBump (tx_GasTipCap old) (tx_GasTipCap tx).
Proof.
  intros Hb. unfold better, outbids, tx_GasFeeCapIntCmp, tx_GasTipCapIntCmp, tx_GasFeeCapCmp, tx_GasTipCapCmp.
  assert (bump_factor priceBump = 100 + priceBump) as -> by (unfold bump_factor, i64; rewrite (Z.mod_small (priceBump + _)), Z.mod_small; lia).
  set (fo := tx_GasFeeCap old). set (fn := tx_GasFeeCap tx). set (so := tx_GasTipCap old). set (sn := tx_GasTipCap tx).
  assert (Hth : forall o n, (Cmp n ((100 + priceBump) * o / 100) <? 0) = false <-> (100 + priceBump) * o < 100 * (n + 1)).
  { intros o n. rewrite Z.ltb_ge. pose proof (Cmp_lt n ((100 + priceBump) * o / 100)). pose proof (Z.mul_succ_div_gt ((100 + priceBump) * o) 100 ltac:(lia)).
    pose proof (Z.mul_div_le ((100 + priceBump) * o) 100 ltac:(lia)). lia. }
  pose proof (Cmp_lt fo fn) as H1. pose proof (Cmp_lt so sn) as H2. pose proof (Hth fo fn) as H3. pose proof (Hth so sn) as H4.
  destruct (Z.leb_spec 0 (Cmp fo fn)), (Z.leb_spec 0 (Cmp so sn)); cbn [orb]; try (split; [done|lia]).
  rewrite negb_true_iff, orb_false_iff, H3, H4. lia.
Qed.

(** C20. When a list has a transaction with the nonce of a new one, the new one takes its
    place exactly if both its fee cap and its tip are larger than those of the old one and
    not below them plus the required percentage, rounded down.  Then the old one is returned
    and the other transactions of the list stay; otherwise the list does not change at all. *)
Theorem txList_Add_bump (tx old : Transaction) (priceBump : Z) (l : txList) :
  sm_items (tl_txs l) !! tx_Nonce tx = Some old -> 0 <= priceBump < 2 ^ 62 ->
  let '((inserted, replaced), l') := tl_Add tx priceBump l in
  (inserted = true <-> outbids priceBump (tx_GasFeeCap old) (tx_GasFeeCap tx) /\ outbids priceBump (tx_GasTipCap old) (tx_GasTipCap tx)) /\
  (inserted = true -> replaced = Some old /\ sm_items (tl_txs l') = <[tx_Nonce tx := tx]> (sm_items (tl_txs l))) /\
  (inserted = false -> replaced = None /\ l' = l).
Proof.
  intros Ho Hb. pose proof (better_outbids old tx priceBump Hb) as H. unfold tl_Add, sm_Get. rewrite Ho.
  destruct (better old tx priceBump); (split; [exact H|]; by split).
Qed.
End lists.
