(* ===== verification/TxPriced.v ===== *)
(** All transactions of the pool: the lookup by hash and the two heaps by price.

    [txLookup], [accountSet] and [numSlots] of [core/tx_pool.go]; [txPricedList] of
    [core/tx_list.go]; [txNoncer] of [core/tx_noncer.go].  The priced list shares the
    lookup with the pool, which passes it to the operations that read it.  A result [None]
    is a panic. *)
From S2P Require Import Prelude Common Params Wormholes StateTypes State StateDB Staking Evm Transition Rlp Heap TxTypes TxList.

Open Scope Z_scope.

(** ** Sets of accounts *)

Definition accountSet : Type := gmap Address unit.

Definition as_contains (s : accountSet) (addr : Address) : bool := bool_decide (is_Some (s !! addr)).
Definition as_empty (s : accountSet) : bool := bool_decide (size s = 0%nat).
Definition as_add (addr : Address) (s : accountSet) : accountSet := <[addr := tt]> s.
Definition as_merge (other s : accountSet) : accountSet := other ∪ s.

Definition newAccountSet (addrs : list Address) : accountSet := foldl (fun s a => as_add a s) ∅ addrs.

Section signer.
Context {SG : Signer}.

Definition as_containsTx (s : accountSet) (tx : Transaction) : bool :=
  match Sender tx with Some addr => as_contains s addr | None => false end.

Definition as_addTx (tx : Transaction) (s : accountSet) : accountSet :=
  match Sender tx with Some addr => as_add addr s | None => s end.
End signer.

Section ranges.
Context {MR : MapRange}.

(** The cache holds the same list until the set changes. *)
Definition as_flatten (s : accountSet) : list Address := (map_range s).*1.
End ranges.

(** ** Nonces *)

(** What the pool reads of the state of the chain's head. *)
Record ChainState : Type := mkChainState {
  cs_GetNonce : Address -> Z;
  cs_GetBalance : Address -> Z;
  cs_GetPledgedBalance : Address -> Z;
  cs_GetStakerPledgedBalance : Address -> Address -> Z;
}.

Record txNoncer : Type := mkTxNoncer {
  tn_fallback : ChainState;
  tn_nonces : gmap Address Z;
}.

Definition newTxNoncer (statedb : ChainState) : txNoncer := mkTxNoncer statedb ∅.

(** The nonces with one read from the state if it is missing. *)
Definition tn_fill (addr : Address) (t : txNoncer) : txNoncer :=
  match tn_nonces t !! addr with
  | Some _ => t
  | None => mkTxNoncer (tn_fallback t) (<[addr := cs_GetNonce (tn_fallback t) addr]> (tn_nonces t))
  end.

Definition tn_get (addr : Address) (t : txNoncer) : Z * txNoncer :=
  let t := tn_fill addr t in (default 0 (tn_nonces t !! addr), t).

Definition tn_set (addr : Address) (nonce : Z) (t : txNoncer) : txNoncer :=
  mkTxNoncer (tn_fallback t) (<[addr := nonce]> (tn_nonces t)).

Definition tn_setIfLower (addr : Address) (nonce : Z) (t : txNoncer) : txNoncer :=
  let t := tn_fill addr t in
  if default 0 (tn_nonces t !! addr) <=? nonce then t else tn_set addr nonce t.

(** ** The lookup *)

Definition txSlotSize : Z := 32 * 1024.
Definition txMaxSize : Z := 4 * txSlotSize.

(** The division of floating-point numbers by a power of two is exact, the conversion cuts. *)
Definition numSlots (tx : Transaction) : Z := (tx_Size tx + txSlotSize - 1) / txSlotSize.

Record txLookup : Type := mkTxLookup {
  lk_slots : Z;
  lk_locals : gmap Hash Transaction;
  lk_remotes : gmap Hash Transaction;
}.

Definition newTxLookup : txLookup := mkTxLookup 0 ∅ ∅.

Definition lk_Get (t : txLookup) (hash : Hash) : option Transaction :=
  match lk_locals t !! hash with Some tx => Some tx | None => lk_remotes t !! hash end.
Definition lk_GetLocal (t : txLookup) (hash : Hash) : option Transaction := lk_locals t !! hash.
Definition lk_GetRemote (t : txLookup) (hash : Hash) : option Transaction := lk_remotes t !! hash.
Definition lk_Count (t : txLookup) : Z := Z.of_nat (size (lk_locals t) + size (lk_remotes t)).
Definition lk_LocalCount (t : txLookup) : Z := Z.of_nat (size (lk_locals t)).
Definition lk_RemoteCount (t : txLookup) : Z := Z.of_nat (size (lk_remotes t)).

Definition lk_Remove (hash : Hash) (t : txLookup) : txLookup :=
  match lk_Get t hash with
  | None => t
  | Some tx => mkTxLookup (lk_slots t - numSlots tx) (delete hash (lk_locals t)) (delete hash (lk_remotes t))
  end.

Section lookup.
Context {CR : Crypto} {SG : Signer}.

Definition lk_Add (tx : Transaction) (local : bool) (t : txLookup) : txLookup :=
  let slots := lk_slots t + numSlots tx in
  if local then mkTxLookup slots (<[tx_Hash tx := tx]> (lk_locals t)) (lk_remotes t)
  else mkTxLookup slots (lk_locals t) (<[tx_Hash tx := tx]> (lk_remotes t)).

(** The number of migrated transactions. *)
Definition lk_RemoteToLocals (locals : accountSet) (t : txLookup) : Z * txLookup :=
  let moved := filter (fun kv => as_containsTx locals kv.2 = true) (lk_remotes t) in
  (Z.of_nat (size moved),
   mkTxLookup (lk_slots t) (moved ∪ lk_locals t) (filter (fun kv => as_containsTx locals kv.2 = false) (lk_remotes t))).

Context {MR : MapRange}.

Definition lk_RemotesBelowTip (threshold : Z) (t : txLookup) : list Transaction :=
  filter (fun tx => tx_GasTipCapIntCmp tx threshold < 0) (map_range (lk_remotes t)).*2.
End lookup.

(** ** Heaps by price *)

Record priceHeap : Type := mkPriceHeap {
  ph_baseFee : option Z;
  ph_list : list Transaction;
}.

(** [cmp] of a heap with the given base fee. *)
Definition ph_cmp (baseFee : option Z) (a b : Transaction) : Z :=
  let c := match baseFee with Some _ => tx_EffectiveGasTipCmp a b baseFee | None => 0 end in
  if negb (c =? 0) then c
  else
    let c := tx_GasFeeCapCmp a b in
    if negb (c =? 0) then c else tx_GasTipCapCmp a b.

Definition ph_Less (baseFee : option Z) (a b : Transaction) : bool :=
  let c := ph_cmp baseFee a b in
  if c =? -1 then true else if c =? 1 then false else tx_Nonce b <? tx_Nonce a.

Definition ph_Push (tx : Transaction) (h : priceHeap) : priceHeap :=
  mkPriceHeap (ph_baseFee h) (Heap.Push (ph_Less (ph_baseFee h)) (ph_list h) tx).

Definition ph_Pop (h : priceHeap) : option (Transaction * priceHeap) :=
  '(tx, l) ← Heap.Pop (ph_Less (ph_baseFee h)) (ph_list h); Some (tx, mkPriceHeap (ph_baseFee h) l).

Record txPricedList : Type := mkTxPricedList {
  pr_urgent : priceHeap;
  pr_floating : priceHeap;
  pr_stales : Z;
}.

Definition urgentRatio : Z := 4.
Definition floatingRatio : Z := 1.

Definition newTxPricedList : txPricedList := mkTxPricedList (mkPriceHeap None []) (mkPriceHeap None []) 0.

Definition len {A : Type} (l : list A) : Z := Z.of_nat (length l).

Section priced.
Context {CR : Crypto}.

Definition pr_Put (tx : Transaction) (local : bool) (l : txPricedList) : txPricedList :=
  if local then l else mkTxPricedList (ph_Push tx (pr_urgent l)) (pr_floating l) (pr_stales l).

(** The first [n] elements popped, and the rest. *)
Fixpoint pop_many (n : nat) (h : priceHeap) : option (list Transaction * priceHeap) :=
  match n with
  | O => Some ([], h)
  | S n => '(tx, h) ← ph_Pop h; '(l, h) ← pop_many n h; Some (tx :: l, h)
  end.

(** The loop of [underpricedFor]: stale elements at the front of a heap are popped. *)
Fixpoint drop_stale (fuel : nat) (all : txLookup) (stales : Z) (h : priceHeap) : option (Z * priceHeap) :=
  match fuel, ph_list h with
  | O, _ | _, [] => Some (stales, h)
  | S fuel, head :: _ =>
      match lk_GetRemote all (tx_Hash head) with
      | None => '(_, h) ← ph_Pop h; drop_stale fuel all (stales - 1) h
      | Some _ => Some (stales, h)
      end
  end.

(** The answer, the counter and the heap. *)
Definition underpricedFor (all : txLookup) (stales : Z) (h : priceHeap) (tx : Transaction) : option (bool * Z * priceHeap) :=
  '(stales, h) ← drop_stale (length (ph_list h)) all stales h;
  Some (match ph_list h with [] => false | head :: _ => 0 <=? ph_cmp (ph_baseFee h) head tx end, stales, h).

(** The second heap is looked at only if the first does not settle the answer. *)
Definition pr_Underpriced (all : txLookup) (tx : Transaction) (l : txPricedList) : option (bool * txPricedList) :=
  '(b1, stales, urgent) ← underpricedFor all (pr_stales l) (pr_urgent l) tx;
  if b1 || (len (ph_list urgent) =? 0) then
    '(b2, stales, floating) ← underpricedFor all stales (pr_floating l) tx;
    Some ((b2 || (len (ph_list floating) =? 0)) && (negb (len (ph_list urgent) =? 0) || negb (len (ph_list floating) =? 0)),
          mkTxPricedList urgent floating stales)
  else Some (false, mkTxPricedList urgent (pr_floating l) stales).

(** The loop of [Discard]: an element is popped per step, and one of the urgent heap comes back once at most. *)
Fixpoint Discard_from (fuel : nat) (all : txLookup) (slots : Z) (drop : list Transaction) (l : txPricedList)
    : option (Z * list Transaction * txPricedList) :=
  match fuel with
  | O => Some (slots, drop, l)
  | S fuel =>
      if slots <=? 0 then Some (slots, drop, l)
      else if (len (ph_list (pr_floating l)) * urgentRatio <? len (ph_list (pr_urgent l)) * floatingRatio) || (floatingRatio =? 0) then
        '(tx, urgent) ← ph_Pop (pr_urgent l);
        match lk_GetRemote all (tx_Hash tx) with
        | None => Discard_from fuel all slots drop (mkTxPricedList urgent (pr_floating l) (pr_stales l - 1))
        | Some _ => Discard_from fuel all slots drop (mkTxPricedList urgent (ph_Push tx (pr_floating l)) (pr_stales l))
        end
      else if len (ph_list (pr_floating l)) =? 0 then Some (slots, drop, l)
      else
        '(tx, floating) ← ph_Pop (pr_floating l);
        match lk_GetRemote all (tx_Hash tx) with
        | None => Discard_from fuel all slots drop (mkTxPricedList (pr_urgent l) floating (pr_stales l - 1))
        | Some _ => Discard_from fuel all (slots - numSlots tx) (drop ++ [tx]) (mkTxPricedList (pr_urgent l) floating (pr_stales l))
        end
  end.

(** A negative capacity panics. *)
Definition pr_Discard (all : txLookup) (slots : Z) (force : bool) (l : txPricedList) : option (list Transaction * bool * txPricedList) :=
  if slots <? 0 then None
  else
    '(slots, drop, l) ← Discard_from (2 * length (ph_list (pr_urgent l)) + length (ph_list (pr_floating l)) + 1) all slots [] l;
    if (0 <? slots) && negb force then
      Some ([], false, mkTxPricedList (foldl (fun h tx => ph_Push tx h) (pr_urgent l) drop) (pr_floating l) (pr_stales l))
    else Some (drop, true, l).

Context {MR : MapRange}.

Definition pr_Reheap (all : txLookup) (l : txPricedList) : option txPricedList :=
  let urgent := mkPriceHeap (ph_baseFee (pr_urgent l)) (Heap.Init (ph_Less (ph_baseFee (pr_urgent l))) (map_range (lk_remotes all)).*2) in
  let floatingCount := Z.to_nat (len (ph_list urgent) * floatingRatio / (urgentRatio + floatingRatio)) in
  '(moved, urgent) ← pop_many floatingCount urgent;
  let floating := mkPriceHeap (ph_baseFee (pr_floating l)) (Heap.Init (ph_Less (ph_baseFee (pr_floating l))) moved) in
  Some (mkTxPricedList urgent floating 0).

Definition pr_Removed (all : txLookup) (count : Z) (l : txPricedList) : option txPricedList :=
  let stales := pr_stales l + count in
  let l := mkTxPricedList (pr_urgent l) (pr_floating l) stales in
  if stales <=? (len (ph_list (pr_urgent l)) + len (ph_list (pr_floating l))) / 4 then Some l else pr_Reheap all l.

Definition pr_SetBaseFee (all : txLookup) (baseFee : Z) (l : txPricedList) : option txPricedList :=
  pr_Reheap all (mkTxPricedList (mkPriceHeap (Some baseFee) (ph_list (pr_urgent l))) (pr_floating l) (pr_stales l)).
End priced.
