(* ===== verification/TxPricedProps.v ===== *)
(** What the lookup and the priced list do.

    Shown: the order of the price heaps is an order; the heaps keep it and always hold
    every remote transaction of the lookup; [Discard] frees the slots it promises, or takes
    nothing, and no operation panics. *)
From S2P Require Import Prelude Common Params Wormholes StateTypes State StateDB Staking Evm Transition Rlp Heap TxTypes TxList TxListProps TxPriced.

Open Scope Z_scope.

(** ** Nonces *)

(** The nonce that the pool reports for an account. *)
Definition nonce_at (t : txNoncer) (addr : Address) : Z := default (cs_GetNonce (tn_fallback t) addr) (tn_nonces t !! addr).


Lemma tn_fill_at addr t b : nonce_at (tn_fill addr t) b = nonce_at t b.
Proof.
  unfold tn_fill, nonce_at. destruct (tn_nonces t !! addr) as [n|] eqn:E; [done|]. cbn [tn_nonces tn_fallback]. destruct (decide (b = addr)) as [->|]; [by rewrite lookup_insert_eq, E|by rewrite lookup_insert_ne].
Qed.

Lemma tn_fill_some addr t : tn_nonces (tn_fill addr t) !! addr = Some (nonce_at t addr).
Proof. unfold tn_fill, nonce_at. destruct (tn_nonces t !! addr) as [n|] eqn:E; [by rewrite E|]. cbn. by rewrite lookup_insert_eq. Qed.

Lemma tn_get_at addr t b : (tn_get addr t).1 = nonce_at t addr /\ nonce_at (tn_get addr t).2 b = nonce_at t b.
Proof. unfold tn_get. cbn. rewrite tn_fill_some. by rewrite tn_fill_at. Qed.

Lemma tn_set_at addr n t b : nonce_at (tn_set addr n t) b = if decide (b = addr) then n else nonce_at t b.
Proof. unfold tn_set, nonce_at. cbn. destruct (decide (b = addr)) as [->|]; [by rewrite lookup_insert_eq|by rewrite lookup_insert_ne]. Qed.

Lemma tn_setIfLower_at addr n t b : nonce_at (tn_setIfLower addr n t) b = if decide (b = addr) then Z.min n (nonce_at t b) else nonce_at t b.
Proof.
  unfold tn_setIfLower. rewrite tn_fill_some. unfold default, id. cbn. destruct (Z.leb_spec (nonce_at t addr) n).
  - rewrite tn_fill_at. destruct (decide (b = addr)) as [->|]; [lia|done].
  - rewrite tn_set_at, tn_fill_at. destruct (decide (b = addr)) as [->|]; [lia|done].
Qed.

(** ** The order of the price heaps *)

(** The comparison is by three numbers in turn. *)
Definition rank (baseFee : option Z) (tx : Transaction) : Z * Z * Z :=
  (match baseFee with Some _ => tx_EffectiveGasTipValue tx baseFee | None => 0 end, tx_GasFeeCap tx, tx_GasTipCap tx).

Definition rank_lt (x y : Z * Z * Z) : Prop :=
  x.1.1 < y.1.1 \/ x.1.1 = y.1.1 /\ (x.1.2 < y.1.2 \/ x.1.2 = y.1.2 /\ x.2 < y.2).

(** Three comparisons in turn. *)
Lemma cmp3_cases (x y : Z * Z * Z) :
  let r := if negb (Cmp x.1.1 y.1.1 =? 0) then Cmp x.1.1 y.1.1 else if negb (Cmp x.1.2 y.1.2 =? 0) then Cmp x.1.2 y.1.2 else Cmp x.2 y.2 in
  (r = -1 /\ rank_lt x y) \/ (r = 0 /\ x = y) \/ (r = 1 /\ rank_lt y x).
Proof.
  destruct x as [[x1 x2] x3], y as [[y1 y2] y3]. unfold rank_lt. cbn [fst snd].
  destruct (Cmp_cases x1 y1) as [[-> ?]|[[-> ->]|[-> ?]]], (Cmp_cases x2 y2) as [[-> ?]|[[-> ->]|[-> ?]]], (Cmp_cases x3 y3) as [[-> ?]|[[-> ->]|[-> ?]]]; cbn;
    first [left; split; [done|lia]|right; right; split; [done|lia]|right; left; done].
Qed.

Lemma ph_cmp_cases f a b :
  (ph_cmp f a b = -1 /\ rank_lt (rank f a) (rank f b)) \/ (ph_cmp f a b = 0 /\ rank f a = rank f b) \/ (ph_cmp f a b = 1 /\ rank_lt (rank f b) (rank f a)).
Proof. pose proof (cmp3_cases (rank f a) (rank f b)) as H. by destruct f. Qed.

Lemma ph_Less_true f a b : ph_Less f a b = true <-> rank_lt (rank f a) (rank f b) \/ rank f a = rank f b /\ tx_Nonce b < tx_Nonce a.
Proof.
  unfold ph_Less. cbv zeta. destruct (ph_cmp_cases f a b) as [[-> H]|[[-> H]|[-> H]]]; cbn.
  - split; [by left|done].
  - rewrite Z.ltb_lt, H. unfold rank_lt. intuition lia.
  - split; [done|]. unfold rank_lt in *. destruct (rank f a) as [[]], (rank f b) as [[]]. cbn in *. intros [?|[? ?]]; [lia|]. simplify_eq. lia.
Qed.

#[export] Instance ph_Less_order f : WeakOrder (ph_Less f).
Proof.
  assert (Hf : forall a b, ph_Less f a b = false <-> ~ (rank_lt (rank f a) (rank f b) \/ rank f a = rank f b /\ tx_Nonce b < tx_Nonce a)) by (intros a b; rewrite <- ph_Less_true; by destruct (ph_Less f a b)).
  split.
  - intros a. apply Hf. unfold rank_lt. lia.
  - intros a b H%ph_Less_true. apply Hf. unfold rank_lt in *. destruct (rank f a) as [[x y] z], (rank f b) as [[x' y'] z']. clear Hf. cbn in *. rewrite !pair_equal_spec in *. lia.
  - intros a b c H1%Hf H2%Hf. apply Hf. unfold rank_lt in *. destruct (rank f a) as [[x y] z], (rank f b) as [[x' y'] z'], (rank f c) as [[x'' y''] z'']. cbn in *.
    clear Hf. rewrite !pair_equal_spec in *. lia.
Qed.

(** ** The lookup *)

Definition all_txs (t : txLookup) : list Transaction := values (lk_locals t) ++ values (lk_remotes t).

Definition sum_slots (l : list Transaction) : Z := foldr (fun tx n => numSlots tx + n) 0 l.

#[export] Instance sum_slots_proper : Proper (Permutation ==> eq) sum_slots.
Proof. unfold sum_slots. induction 1; cbn [foldr]; [done|lia|lia|congruence]. Qed.

Lemma sum_slots_cons tx l : sum_slots (tx :: l) = numSlots tx + sum_slots l.
Proof. done. Qed.

Lemma sum_slots_app a b : sum_slots (a ++ b) = sum_slots a + sum_slots b.
Proof. unfold sum_slots. induction a as [|x a IH]; cbn [foldr app]; [done|]. lia. Qed.

Lemma hash_values_elem (m : gmap Hash Transaction) tx : tx ∈ values m <-> exists h, m !! h = Some tx.
Proof.
  unfold values. rewrite list_elem_of_fmap. split; [intros ([h x] & -> & H%elem_of_map_to_list); eauto|].
  intros [h H]. exists (h, tx). split; [done|]. by apply elem_of_map_to_list.
Qed.

Lemma values_union (a b : gmap Z Transaction) : a ##ₘ b -> values (a ∪ b) ≡ₚ values a ++ values b.
Proof.
  revert b. induction a as [|k x a Hn IH] using map_ind; intros b H; [by rewrite (left_id_L ∅ (∪))|]. apply map_disjoint_insert_l in H as [Hb H].
  rewrite <- insert_union_l. unfold values in *. rewrite !map_to_list_insert; [cbn; by rewrite IH|done|]. by apply lookup_union_None.
Qed.

Section lookup.
Context {CR : Crypto} {SG : Signer}.

Definition hashed (m : gmap Hash Transaction) : Prop := forall h tx, m !! h = Some tx -> tx_Hash tx = h.

(** The transactions are at their hashes, none is both local and remote, and their slots are counted. *)
Record lookup_ok (t : txLookup) : Prop := {
  lo_locals : hashed (lk_locals t);
  lo_remotes : hashed (lk_remotes t);
  lo_disjoint : lk_locals t ##ₘ lk_remotes t;
  lo_slots : lk_slots t = sum_slots (all_txs t);
}.

Lemma newTxLookup_ok : lookup_ok newTxLookup.
Proof. split; [intros h tx; cbn; by rewrite lookup_empty..|apply map_disjoint_empty_l|done]. Qed.

Lemma hashed_sub m m' : hashed m -> m' ⊆ m -> hashed m'.
Proof. intros H Hs h tx Hh. apply H. by eapply lookup_weaken. Qed.

Lemma hashed_values m tx : hashed m -> tx ∈ values m <-> m !! tx_Hash tx = Some tx.
Proof. intros H. rewrite hash_values_elem. split; [|eauto]. intros [h Hh]. by rewrite (H h tx Hh). Qed.

Lemma lk_Get_elem t tx : lookup_ok t -> tx ∈ all_txs t <-> lk_Get t (tx_Hash tx) = Some tx.
Proof.
  intros [H1 H2 H3 _]. unfold all_txs, lk_Get. rewrite elem_of_app, (hashed_values _ tx H1), (hashed_values _ tx H2).
  destruct (lk_locals t !! tx_Hash tx) as [y|] eqn:E; [|naive_solver]. pose proof (map_disjoint_Some_l _ _ _ _ H3 E). naive_solver.
Qed.

Lemma lk_Get_hash t h tx : lookup_ok t -> lk_Get t h = Some tx -> tx_Hash tx = h /\ tx ∈ all_txs t.
Proof.
  intros Hok H. assert (tx_Hash tx = h) as <-.
  { destruct Hok as [H1 H2 _ _]. unfold lk_Get in H. destruct (lk_locals t !! h) as [y|] eqn:E; [|by apply H2]. simplify_eq. by apply H1. }
  split; [done|]. by apply lk_Get_elem.
Qed.

Lemma lk_Remove_ok t tx : lookup_ok t -> tx ∈ all_txs t ->
  let t' := lk_Remove (tx_Hash tx) t in lookup_ok t' /\ all_txs t ≡ₚ tx :: all_txs t' /\ lk_remotes t' ⊆ lk_remotes t.
Proof.
  intros Hok Hin t'. pose proof (proj1 (lk_Get_elem t tx Hok) Hin) as Hg. destruct Hok as [H1 H2 H3 H4]. unfold t', lk_Remove. rewrite Hg. set (h := tx_Hash tx) in *.
  assert (Hp : all_txs t ≡ₚ tx :: values (delete h (lk_locals t)) ++ values (delete h (lk_remotes t))).
  { unfold all_txs, lk_Get in *. destruct (lk_locals t !! h) as [y|] eqn:E.
    - simplify_eq. rewrite (delete_id (lk_remotes t) h) by by apply (map_disjoint_Some_l _ _ _ _ H3 E). by rewrite (values_delete _ _ _ E).
    - rewrite (delete_id (lk_locals t) h) by done. rewrite (values_delete _ _ _ Hg). by rewrite Permutation_middle. }
  split; [|split; [done|apply delete_subseteq]]. split; cbn [lk_locals lk_remotes lk_slots].
  - apply (hashed_sub (lk_locals t)); [done|apply delete_subseteq].
  - apply (hashed_sub (lk_remotes t)); [done|apply delete_subseteq].
  - by apply map_disjoint_delete_l, map_disjoint_delete_r.
  - rewrite H4, Hp, sum_slots_cons. unfold all_txs. cbn [lk_locals lk_remotes]. lia.
Qed.

Lemma lk_Add_ok t tx local : lookup_ok t -> lk_Get t (tx_Hash tx) = None -> lookup_ok (lk_Add tx local t) /\ all_txs (lk_Add tx local t) ≡ₚ tx :: all_txs t.
Proof.
  intros [H1 H2 H3 H4] Hg. unfold lk_Get in Hg. destruct (lk_locals t !! tx_Hash tx) as [y|] eqn:E1; [done|].
  assert (Hins : forall m, hashed m -> hashed (<[tx_Hash tx := tx]> m)) by (intros m Hm h y [[<- <-]|[_ H]]%lookup_insert_Some; [done|by apply Hm]).
  assert (Hp : all_txs (lk_Add tx local t) ≡ₚ tx :: all_txs t).
  { unfold all_txs, values. destruct local; cbn; rewrite map_to_list_insert by done; cbn; [done|]. by rewrite Permutation_middle. }
  split; [|done]. split; [destruct local; cbn; auto..| |].
  - destruct local; cbn; [by apply map_disjoint_insert_l_2|by apply map_disjoint_insert_r_2].
  - rewrite Hp, sum_slots_cons. destruct local; cbn [lk_Add lk_slots]; lia.
Qed.

Lemma lk_RemoteToLocals_ok locals t : lookup_ok t ->
  let '(_, t') := lk_RemoteToLocals locals t in lookup_ok t' /\ all_txs t' ≡ₚ all_txs t /\ lk_remotes t' ⊆ lk_remotes t.
Proof.
  intros [H1 H2 H3 H4]. unfold lk_RemoteToLocals. set (moved := filter _ (lk_remotes t)). set (kept := filter (fun kv => as_containsTx locals kv.2 = false) (lk_remotes t)).
  assert (Hm : moved ⊆ lk_remotes t) by apply map_filter_subseteq. assert (Hk : kept ⊆ lk_remotes t) by apply map_filter_subseteq.
  assert (Hd : moved ##ₘ lk_locals t) by (eapply map_disjoint_weaken_l; [symmetry; exact H3|done]).
  assert (Hv : values (moved ∪ lk_locals t) ≡ₚ values moved ++ values (lk_locals t)) by by apply values_union.
  assert (Hmk : values moved ++ values kept ≡ₚ values (lk_remotes t)).
  { unfold values, moved, kept. rewrite <- fmap_app, !map_to_list_filter. f_equiv. rewrite <- (filter_app_complement (fun kv => as_containsTx locals kv.2 = true) (map_to_list (lk_remotes t))) at 3.
    f_equiv. apply reflexive_eq, list_filter_iff. intros [h x]. cbn. by rewrite not_true_iff_false. }
  assert (Hp : values (moved ∪ lk_locals t) ++ values kept ≡ₚ all_txs t) by (unfold all_txs; rewrite Hv, <- Hmk; solve_Permutation).
  split; [|split; [done|done]]. split; cbn [lk_locals lk_remotes lk_slots].
  - intros h tx [H|[_ H]]%lookup_union_Some_raw; [apply H2; by eapply lookup_weaken|by apply H1].
  - by apply (hashed_sub (lk_remotes t)).
  - apply map_disjoint_union_l. split; [|by eapply map_disjoint_weaken_r].
    apply map_disjoint_spec. intros h x y Hx Hy. apply map_lookup_filter_Some in Hx as [Hx Hx'], Hy as [Hy Hy']. cbn in *. congruence.
  - rewrite H4, <- Hp. done.
Qed.
End lookup.

(** ** The priced list *)

Section priced.
Context {CR : Crypto} {SG : Signer}.

Definition ph_ok (h : priceHeap) : Prop := heap (ph_Less (ph_baseFee h)) (ph_list h).

(** The transactions of the two heaps. *)
Definition pr_txs (l : txPricedList) : list Transaction := ph_list (pr_urgent l) ++ ph_list (pr_floating l).

Definition heaps_ok (l : txPricedList) : Prop := ph_ok (pr_urgent l) /\ ph_ok (pr_floating l).

(** The heaps hold the remote transactions, but for some that are about to be removed. *)
Definition priced_ok (D : list Transaction) (t : txLookup) (l : txPricedList) : Prop :=
  heaps_ok l /\ forall h tx, lk_remotes t !! h = Some tx -> tx ∈ pr_txs l ++ D.

Lemma newTxPricedList_ok D : priced_ok D newTxLookup newTxPricedList.
Proof. split; [split; intros k Hk; cbn in Hk; lia|]. intros h tx H. cbn in H. by rewrite lookup_empty in H. Qed.

Lemma priced_sub D t t' l : lk_remotes t' ⊆ lk_remotes t -> priced_ok D t l -> priced_ok D t' l.
Proof. intros Hs [H1 H2]. split; [done|]. intros h tx H. apply (H2 h). by eapply lookup_weaken. Qed.

Lemma ph_Push_ok tx h : ph_ok h -> ph_ok (ph_Push tx h) /\ ph_list (ph_Push tx h) ≡ₚ tx :: ph_list h.
Proof. apply (Push_ok (ph_Less (ph_baseFee h))). Qed.

Lemma ph_Pop_ok h : ph_ok h -> ph_list h <> [] ->
  exists tx h', ph_Pop h = Some (tx, h') /\ ph_ok h' /\ ph_list h ≡ₚ tx :: ph_list h' /\ ph_list h !! 0%nat = Some tx /\ ph_baseFee h' = ph_baseFee h.
Proof.
  intros Hh Hne. destruct (Pop_ok (ph_Less (ph_baseFee h)) (ph_list h) Hh Hne) as (tx & l & E & H1 & H2 & H3 & _). unfold ph_Pop. rewrite E. by exists tx, (mkPriceHeap (ph_baseFee h) l).
Qed.

Lemma pr_Put_ok D t l tx local : priced_ok D t l -> priced_ok D (lk_Add tx local t) (pr_Put tx local l).
Proof.
  intros [[H1 H2] H3]. destruct local; [by split|]. destruct (ph_Push_ok tx (pr_urgent l) H1) as [H4 H5]. split; [by split|]. cbn [lk_Add lk_remotes pr_Put]. unfold pr_txs. cbn [pr_urgent pr_floating].
  intros h y [[_ <-]|[_ H]]%lookup_insert_Some; rewrite H5; [cbn; set_solver|]. specialize (H3 h y H). unfold pr_txs in H3. cbn. set_solver.
Qed.

Lemma pop_many_ok n h : ph_ok h -> (n <= length (ph_list h))%nat ->
  exists l h', pop_many n h = Some (l, h') /\ ph_ok h' /\ ph_list h ≡ₚ l ++ ph_list h' /\ ph_baseFee h' = ph_baseFee h.
Proof.
  revert h. induction n as [|n IH]; intros h Hh Hn; cbn [pop_many]; [by exists [], h|]. destruct (ph_Pop_ok h Hh) as (tx & h1 & E & H1 & H2 & _ & H4); [by destruct (ph_list h); [simpl in Hn; lia|]|].
  rewrite E. cbn [mbind option_bind]. assert (length (ph_list h) = S (length (ph_list h1))) by by rewrite H2. destruct (IH h1 H1 ltac:(lia)) as (l & h' & -> & E1 & E2 & E3). cbn [mbind option_bind].
  exists (tx :: l), h'. split; [done|]. split; [done|]. split; [by rewrite H2, E2|congruence].
Qed.

Lemma remote_hash t tx h : lookup_ok t -> lk_remotes t !! h = Some tx -> lk_GetRemote t (tx_Hash tx) = Some tx.
Proof. intros Hok H. unfold lk_GetRemote. by rewrite (lo_remotes t Hok h tx H). Qed.

(** Popping a transaction that is not in the lookup leaves the remote ones. *)
Lemma drop_stale_ok fuel t stales h : lookup_ok t -> ph_ok h ->
  exists stales' h', drop_stale fuel t stales h = Some (stales', h') /\ ph_ok h' /\ ph_baseFee h' = ph_baseFee h /\
    forall k tx, lk_remotes t !! k = Some tx -> tx ∈ ph_list h -> tx ∈ ph_list h'.
Proof.
  intros Hok. revert stales h. induction fuel as [|fuel IH]; intros stales h Hh; cbn [drop_stale]; [by eauto 10|]. destruct (ph_list h) as [|head l] eqn:El; [rewrite <- El; by eauto 10|].
  destruct (lk_GetRemote t (tx_Hash head)) as [y|] eqn:Eg; [rewrite <- El; by eauto 10|]. destruct (ph_Pop_ok h Hh) as (tx & h1 & E & H1 & H2 & H3 & H4); [by rewrite El|].
  rewrite El in H3. simplify_eq/=. rewrite E. cbn [mbind option_bind]. destruct (IH (stales - 1) h1 H1) as (stales' & h' & E1 & H5 & H6 & H7). exists stales', h'. split; [done|]. split; [done|]. split; [congruence|].
  intros k y Hk Hin. apply (H7 k y Hk). rewrite <- El, H2 in Hin. apply elem_of_cons in Hin as [->|]; [|done]. apply (remote_hash t) in Hk; [|done]. congruence.
Qed.

Lemma underpricedFor_ok t stales h tx : lookup_ok t -> ph_ok h ->
  exists b stales' h', underpricedFor t stales h tx = Some (b, stales', h') /\ ph_ok h' /\ ph_baseFee h' = ph_baseFee h /\
    forall k y, lk_remotes t !! k = Some y -> y ∈ ph_list h -> y ∈ ph_list h'.
Proof.
  intros Hok Hh. unfold underpricedFor. destruct (drop_stale_ok (length (ph_list h)) t stales h Hok Hh) as (stales' & h' & -> & H). cbn [mbind option_bind]. by eauto 10.
Qed.

Lemma pr_Underpriced_ok t tx l : lookup_ok t -> priced_ok [] t l -> exists b l', pr_Underpriced t tx l = Some (b, l') /\ priced_ok [] t l'.
Proof.
  intros Hok [[H1 H2] H3]. unfold pr_Underpriced. destruct (underpricedFor_ok t (pr_stales l) (pr_urgent l) tx Hok H1) as (b1 & s1 & u & -> & Hu & _ & Hu'). cbn [mbind option_bind].
  assert (Hmem : forall f, (forall k y, lk_remotes t !! k = Some y -> y ∈ ph_list (pr_floating l) -> y ∈ ph_list f) -> forall k y, lk_remotes t !! k = Some y -> y ∈ (ph_list u ++ ph_list f) ++ []).
  { intros f Hf k y Hk. specialize (H3 k y Hk). rewrite app_nil_r in *. unfold pr_txs in H3. rewrite elem_of_app in *. destruct H3; [left; by eapply Hu'|right; by eapply Hf]. }
  destruct (b1 || _); [|by eexists _, _; split; [done|]; split; [by split|]; apply Hmem; eauto].
  destruct (underpricedFor_ok t s1 (pr_floating l) tx Hok H2) as (b2 & s2 & f & -> & Hf & _ & Hf'). cbn [mbind option_bind]. eexists _, _. split; [done|]. split; [by split|]. by apply Hmem.
Qed.

(** What holds while [Discard] takes transactions out of the heaps. *)
Definition discarding (t : txLookup) (l : txPricedList) (drop : list Transaction) : Prop :=
  heaps_ok l /\ (forall h tx, lk_remotes t !! h = Some tx -> tx ∈ pr_txs l ++ drop) /\ forall tx, tx ∈ drop -> is_Some (lk_GetRemote t (tx_Hash tx)).

Lemma not_nil_len {A : Type} (l : list A) : 0 < len l -> l <> [].
Proof. by intros H ->. Qed.

Lemma Discard_from_ok fuel t slots drop l : lookup_ok t -> discarding t l drop ->
  (2 * length (ph_list (pr_urgent l)) + length (ph_list (pr_floating l)) < fuel)%nat ->
  exists slots' drop' l', Discard_from fuel t slots drop l = Some (slots', drop', l') /\ discarding t l' drop' /\
    slots' = slots + sum_slots drop - sum_slots drop' /\ (slots' <= 0 \/ pr_txs l' = []).
Proof.
  intros Hok. revert slots drop l. induction fuel as [|fuel IH]; intros slots drop l Hd Hf; [lia|]. cbn [Discard_from]. pose proof Hd as ([Hu Hl] & H2 & H3).
  destruct (Z.leb_spec slots 0); [exists slots, drop, l; split; [done|]; split; [done|]; lia|]. unfold floatingRatio, urgentRatio, len. cbn [orb]. rewrite orb_false_r.
  destruct (Z.ltb_spec (Z.of_nat (length (ph_list (pr_floating l))) * 4) (Z.of_nat (length (ph_list (pr_urgent l))) * 1)) as [Hmore|Hless].
  - destruct (ph_Pop_ok (pr_urgent l) Hu) as (tx & u & E & Hu' & Hp & _ & _); [intros E; rewrite E in Hmore; cbn in Hmore; lia|]. rewrite E. cbn [mbind option_bind].
    assert (Hlen : length (ph_list (pr_urgent l)) = S (length (ph_list u))) by by rewrite Hp. destruct (lk_GetRemote t (tx_Hash tx)) as [y|] eqn:Eg.
    + destruct (ph_Push_ok tx (pr_floating l) Hl) as [Hl' Hp']. assert (Hlen' : length (ph_list (ph_Push tx (pr_floating l))) = S (length (ph_list (pr_floating l)))) by by rewrite Hp'.
      apply IH; cbn [pr_urgent pr_floating]; [|lia]. split; [by split|]. split; [|done]. intros h x Hx. specialize (H2 h x Hx). unfold pr_txs in *. cbn [pr_urgent pr_floating]. rewrite Hp', !elem_of_app in *. rewrite Hp in H2. set_solver.
    + apply IH; cbn [pr_urgent pr_floating]; [|lia]. split; [by split|]. split; [|done]. intros h x Hx. specialize (H2 h x Hx). unfold pr_txs in *. cbn [pr_urgent pr_floating].
      apply (remote_hash t) in Hx; [|done]. rewrite !elem_of_app, Hp in *. assert (x <> tx) by (intros ->; congruence). set_solver.
  - destruct (Z.eqb_spec (Z.of_nat (length (ph_list (pr_floating l)))) 0) as [E0|Hne].
    { exists slots, drop, l. split; [done|]. split; [done|]. split; [lia|]. right. unfold pr_txs. apply length_zero_iff_nil. rewrite length_app. lia. }
    destruct (ph_Pop_ok (pr_floating l) Hl) as (tx & f & E & Hf' & Hp & _ & _); [intros E; by rewrite E in Hne|]. rewrite E. cbn [mbind option_bind].
    assert (Hlen : length (ph_list (pr_floating l)) = S (length (ph_list f))) by by rewrite Hp. destruct (lk_GetRemote t (tx_Hash tx)) as [y|] eqn:Eg.
    + destruct (IH (slots - numSlots tx) (drop ++ [tx]) (mkTxPricedList (pr_urgent l) f (pr_stales l))) as (s' & d' & l' & E1 & E2 & E3 & E4); cbn [pr_urgent pr_floating]; [|lia|].
      { split; [by split|]. split; [|intros x; rewrite elem_of_app, list_elem_of_singleton; intros [?| ->]; [by apply H3|eauto]].
        intros h x Hx. specialize (H2 h x Hx). unfold pr_txs in *. cbn [pr_urgent pr_floating]. rewrite !elem_of_app, Hp in *. set_solver. }
      exists s', d', l'. split; [done|]. split; [done|]. split; [|done]. rewrite E3, sum_slots_app, sum_slots_cons. cbn [sum_slots foldr]. lia.
    + apply IH; cbn [pr_urgent pr_floating]; [|lia]. split; [by split|]. split; [|done]. intros h x Hx. specialize (H2 h x Hx). unfold pr_txs in *. cbn [pr_urgent pr_floating].
      apply (remote_hash t) in Hx; [|done]. rewrite !elem_of_app, Hp in *. assert (x <> tx) by (intros ->; congruence). set_solver.
Qed.

Lemma push_all_ok drop h : ph_ok h -> let h' := foldl (fun h tx => ph_Push tx h) h drop in ph_ok h' /\ ph_list h' ≡ₚ drop ++ ph_list h.
Proof.
  revert h. induction drop as [|tx drop IH]; intros h Hh; [done|]. cbn [foldl]. destruct (ph_Push_ok tx h Hh) as [H1 H2]. destruct (IH (ph_Push tx h) H1) as [H3 H4].
  split; [done|]. rewrite H4, H2. cbn. by rewrite Permutation_middle.
Qed.

(** [Discard] succeeds with enough slots, or by force with all it has; otherwise it takes nothing. *)
Lemma pr_Discard_ok t slots force l : lookup_ok t -> priced_ok [] t l -> 0 <= slots ->
  exists drop success l', pr_Discard t slots force l = Some (drop, success, l') /\ discarding t l' drop /\
    if (success : bool) then slots <= sum_slots drop \/ (force = true /\ pr_txs l' = []) else drop = [].
Proof.
  intros Hok [Hh Hc] Hs. unfold pr_Discard. destruct (Z.ltb_spec slots 0); [lia|].
  destruct (Discard_from_ok (2 * length (ph_list (pr_urgent l)) + length (ph_list (pr_floating l)) + 1) t slots [] l Hok) as (s' & drop & l' & -> & Hd & Es & Hend); [|lia|].
  { split; [done|]. split; [exact Hc|by intros tx ?%elem_of_nil]. }
  cbn [mbind option_bind]. cbn [sum_slots foldr] in Es. destruct (Z.ltb_spec 0 s'), force; cbn [andb negb].
  1,3,4: exists drop, true, l'; split; [done|]; split; [done|]; lia || (right; split; [done|]; destruct Hend; [lia|done]).
  destruct Hd as ([Hu Hf] & H2 & H3). destruct (push_all_ok drop (pr_urgent l') Hu) as [Hu' Hp]. eexists [], false, _. split; [done|]. split; [|done]. split; [by split|]. split; [|by intros tx ?%elem_of_nil].
  intros h tx Hx. specialize (H2 h tx Hx). unfold pr_txs in *. cbn [pr_urgent pr_floating]. rewrite Hp, !elem_of_app in *. set_solver.
Qed.

Context {MR : MapRange}.

Lemma pr_Reheap_ok D t l : exists l', pr_Reheap t l = Some l' /\ priced_ok D t l' /\ ph_baseFee (pr_urgent l') = ph_baseFee (pr_urgent l) /\ pr_txs l' ≡ₚ values (lk_remotes t).
Proof.
  unfold pr_Reheap. cbv zeta. set (f := ph_baseFee (pr_urgent l)). destruct (Init_ok (ph_Less f) (map_range (lk_remotes t)).*2) as [H1 H2]. set (u := mkPriceHeap f _).
  assert (Hu : ph_ok u) by exact H1. destruct (pop_many_ok (Z.to_nat (len (ph_list u) * floatingRatio / (urgentRatio + floatingRatio))) u Hu) as (moved & u' & E & Hu' & Hp & Hf).
  { unfold floatingRatio, urgentRatio, len. pose proof (Z.div_le_upper_bound (Z.of_nat (length (ph_list u)) * 1) (4 + 1) (Z.of_nat (length (ph_list u))) ltac:(lia) ltac:(lia)). lia. }
  rewrite E. cbn [mbind option_bind]. destruct (Init_ok (ph_Less (ph_baseFee (pr_floating l))) moved) as [H3 H4].
  assert (Hall : values (lk_remotes t) ≡ₚ ph_list u' ++ Heap.Init (ph_Less (ph_baseFee (pr_floating l))) moved).
  { unfold values. rewrite H4, Permutation_app_comm, <- Hp. cbn [ph_list u]. by rewrite H2, map_range_perm. }
  eexists. split; [done|]. split; [|split; [done|by rewrite Hall]]. split; [by split|]. intros h tx Hx. unfold pr_txs. cbn [pr_urgent pr_floating ph_list]. rewrite <- Hall, elem_of_app. left. apply hash_values_elem. eauto.
Qed.

Lemma pr_Removed_ok D t count l : priced_ok D t l -> exists l', pr_Removed t count l = Some l' /\ priced_ok D t l' /\ ph_baseFee (pr_urgent l') = ph_baseFee (pr_urgent l).
Proof.
  intros Hl. unfold pr_Removed. cbv zeta. case_match; [by eexists|]. destruct (pr_Reheap_ok D t (mkTxPricedList (pr_urgent l) (pr_floating l) (pr_stales l + count))) as (l' & E & H1 & H2 & _). eauto.
Qed.

Lemma pr_SetBaseFee_ok D t f l : exists l', pr_SetBaseFee t f l = Some l' /\ priced_ok D t l'.
Proof. unfold pr_SetBaseFee. edestruct (pr_Reheap_ok D t) as (l' & E & H1 & _). by exists l'. Qed.
End priced.
