(* ===== verification/HeaderRules.v ===== *)
(** Rules on the gas limit and the base fee of a block: [consensus/misc/eip1559.go],
    [consensus/misc/gaslimit.go], [CalcGasLimit] of [core/block_validator.go] and the forks
    of [params/config.go] they depend on.

    Shown: the base fee follows the gas used, by an eighth at most within twice the target,
    and never falls below zero; a gas limit
    computed from the parent's is accepted by the check. *)
From S2P Require Import Prelude Common.

Open Scope Z_scope.

(** ** Forks *)

(** The blocks of the forks; [None] is nil. *)
Record ChainConfig : Type := mkChainConfig {
  cc_IstanbulBlock : option Z;
  cc_BerlinBlock : option Z;
  cc_LondonBlock : option Z;
}.

(** Whether a fork is active at a block, whose number is never nil. *)
Definition isForked (s : option Z) (head : Z) : bool := match s with Some s => s <=? head | None => false end.

Definition IsIstanbul (c : ChainConfig) (num : Z) : bool := isForked (cc_IstanbulBlock c) num.
Definition IsBerlin (c : ChainConfig) (num : Z) : bool := isForked (cc_BerlinBlock c) num.
Definition IsLondon (c : ChainConfig) (num : Z) : bool := isForked (cc_LondonBlock c) num.

(** ** Headers *)

(** The fields of a header that these rules and the transaction pool read. *)
Record Header : Type := mkHeader {
  hd_Hash : Hash;
  hd_ParentHash : Hash;
  hd_Root : Hash;
  hd_Number : Z;
  hd_GasLimit : Z;
  hd_GasUsed : Z;
  hd_BaseFee : option Z;
}.

Definition BaseFeeChangeDenominator : Z := 8.
Definition ElasticityMultiplier : Z := 2.
Definition InitialBaseFee : Z := 1000000000.
Definition GasLimitBoundDivisor : Z := 1024.
Definition MinGasLimit : Z := 5000.

(** [big.Int.Div], which panics for a zero divisor. *)
Definition big_Div (x y : Z) : option Z := if y =? 0 then None else Some (x / y).

(** [None] is a panic: a missing base fee or a gas target of zero. *)
Definition CalcBaseFee (config : ChainConfig) (parent : Header) : option Z :=
  if negb (IsLondon config (hd_Number parent)) then Some InitialBaseFee
  else
    let parentGasTarget := hd_GasLimit parent / ElasticityMultiplier in
    baseFee ← hd_BaseFee parent;
    if hd_GasUsed parent =? parentGasTarget then Some baseFee
    else if parentGasTarget <? hd_GasUsed parent then
      y ← big_Div (baseFee * (hd_GasUsed parent - parentGasTarget)) parentGasTarget;
      d ← big_Div y BaseFeeChangeDenominator;
      Some (baseFee + Z.max d 1)
    else
      y ← big_Div (baseFee * (parentGasTarget - hd_GasUsed parent)) parentGasTarget;
      d ← big_Div y BaseFeeChangeDenominator;
      Some (Z.max (baseFee - d) 0).

(** The difference is one of 64-bit integers with sign. *)
Definition to_int64 (z : Z) : Z := (z + 2 ^ 63) mod 2 ^ 64 - 2 ^ 63.

Definition VerifyGaslimit (parentGasLimit headerGasLimit : Z) : outcome unit :=
  let diff := to_int64 (to_int64 parentGasLimit - to_int64 headerGasLimit) in
  let diff := if diff <? 0 then to_int64 (- diff) else diff in
  let limit := parentGasLimit / GasLimitBoundDivisor in
  if limit <=? diff mod 2 ^ 64 then Err "invalid gas limit"
  else if headerGasLimit <? MinGasLimit then Err "invalid gas limit below 5000"
  else Ret tt.

Definition VerifyEip1559Header (config : ChainConfig) (parent header : Header) : outcome unit :=
  let parentGasLimit := if IsLondon config (hd_Number parent) then hd_GasLimit parent
                        else (hd_GasLimit parent * ElasticityMultiplier) mod 2 ^ 64 in
  _ ← VerifyGaslimit parentGasLimit (hd_GasLimit header);
  match hd_BaseFee header with
  | None => Err "header is missing baseFee"
  | Some baseFee =>
      match CalcBaseFee config parent with
      | None => Panic
      | Some expected => if baseFee =? expected then Ret tt else Err "invalid baseFee"
      end
  end.

(** Gas limits are [uint64]. *)
Definition CalcGasLimit (parentGasLimit desiredLimit : Z) : Z :=
  let u64 z := z mod 2 ^ 64 in
  let delta := u64 (parentGasLimit / GasLimitBoundDivisor - 1) in
  let desiredLimit := if desiredLimit <? MinGasLimit then MinGasLimit else desiredLimit in
  if parentGasLimit <? desiredLimit then
    let limit := u64 (parentGasLimit + delta) in if desiredLimit <? limit then desiredLimit else limit
  else if desiredLimit <? parentGasLimit then
    let limit := u64 (parentGasLimit - delta) in if limit <? desiredLimit then desiredLimit else limit
  else parentGasLimit.

(** ** The base fee *)

(** Dividing by the target and then by eight is dividing by both, rounded down. *)
Lemma fee_delta b d t : 0 <= b -> 0 <= d -> 0 < t ->
  let q := b * d / t / BaseFeeChangeDenominator in 0 <= q /\ 8 * t * q <= b * d < 8 * t * (q + 1).
Proof.
  intros Hb Hd Ht. unfold BaseFeeChangeDenominator. rewrite Z.div_div by lia. split; [apply Z.div_pos; nia|].
  pose proof (Z.div_mod (b * d) (t * 8) ltac:(lia)). pose proof (Z.mod_pos_bound (b * d) (t * 8) ltac:(lia)). lia.
Qed.

(** A share [d / t] of an eighth of the fee. *)
Lemma fee_share b d t q : 0 <= b -> 0 < t -> 8 * t * q <= b * d -> d <= t -> q <= b / 8.
Proof. intros Hb Ht Hq Hd. apply Z.div_le_lower_bound; [lia|]. nia. Qed.

(** The headers of the London rules have a base fee and a gas limit with a target. *)
Definition header_ok (config : ChainConfig) (h : Header) : Prop :=
  IsLondon config (hd_Number h) = true -> is_Some (hd_BaseFee h) /\ MinGasLimit <= hd_GasLimit h.

(** [VerifyEip1559Header] lets such headers pass only. *)
Lemma VerifyEip1559Header_ok config parent h : VerifyEip1559Header config parent h = Ret tt -> header_ok config h.
Proof.
  unfold VerifyEip1559Header, VerifyGaslimit. cbv zeta. destruct (_ <=? _); [done|]. destruct (Z.ltb_spec (hd_GasLimit h) MinGasLimit); [done|].
  destruct (hd_BaseFee h) as [f|] eqn:E; [|done]. intros _ _. rewrite E. by split; [eexists|].
Qed.

(** Their base fee determines the next one. *)
Lemma CalcBaseFee_defined config h : header_ok config h -> is_Some (CalcBaseFee config h).
Proof.
  unfold CalcBaseFee. destruct (IsLondon config (hd_Number h)) eqn:E; cbn [negb]; [|by eexists]. intros H. destruct (H E) as [[b ->] Hg]. cbn [mbind option_bind].
  assert (Ht : 0 < hd_GasLimit h / ElasticityMultiplier) by (unfold MinGasLimit, ElasticityMultiplier in *; apply Z.div_str_pos; lia).
  assert (Hd : forall x, big_Div x (hd_GasLimit h / ElasticityMultiplier) = Some (x / (hd_GasLimit h / ElasticityMultiplier))) by (intros x; unfold big_Div; destruct (Z.eqb_spec (hd_GasLimit h / ElasticityMultiplier) 0); [lia|done]).
  rewrite !Hd. destruct (_ =? _); [by eexists|]. destruct (_ <? _); by eexists.
Qed.

(** C21. The base fee of the next block follows the gas that the parent used.  At the target
    the fee stays.  Above it the fee rises by the share of an eighth of the fee that the
    excess is of the target, rounded down, but by 1 at least; below it it falls by the share
    that the shortfall is of the target, rounded down.  So the fee is never negative and
    falls by an eighth at most, and it rises by the larger of 1 and an eighth at most
    unless the parent used more than twice its target, which a full block with an odd gas
    limit does by one. *)
Theorem CalcBaseFee_bounds (config : ChainConfig) (parent : Header) (b : Z) :
  IsLondon config (hd_Number parent) = true -> hd_BaseFee parent = Some b -> 0 <= b -> 0 <= hd_GasUsed parent ->
  let used := hd_GasUsed parent in let t := hd_GasLimit parent / ElasticityMultiplier in 0 < t ->
  exists f, CalcBaseFee config parent = Some f /\
    (used = t -> f = b) /\
    (t < used -> exists q, f = b + Z.max q 1 /\ 8 * t * q <= b * (used - t) < 8 * t * (q + 1) /\ (used <= 2 * t -> f <= b + Z.max (b / 8) 1)) /\
    (used < t -> exists q, f = b - q /\ 8 * t * q <= b * (t - used) < 8 * t * (q + 1) /\ 0 <= q <= b / 8) /\ 0 <= f.
Proof.
  intros HL Hb Hb0 Hu used t Ht. unfold CalcBaseFee. rewrite HL, Hb. cbn [negb]. fold t used. cbn [mbind option_bind].
  assert (Hbind : forall x (k : Z -> option Z), (y ← big_Div x t; d ← big_Div y BaseFeeChangeDenominator; k d) = k (x / t / BaseFeeChangeDenominator)).
  { intros x k. assert (big_Div x t = Some (x / t)) as -> by (unfold big_Div; destruct (Z.eqb_spec t 0); [lia|done]). reflexivity. }
  destruct (Z.eqb_spec used t); [exists b; split; [done|]; split_and!; [done|lia..]|]. destruct (Z.ltb_spec t used); rewrite Hbind; (eexists; split; [done|]).
  - pose proof (fee_delta b (used - t) t Hb0 ltac:(lia) Ht) as [H1 H2]. set (q := _ / _ / _) in *. split_and!; [lia| |lia|lia]. intros _. exists q. split; [done|]. split; [done|].
    intros H2t. pose proof (fee_share b (used - t) t q Hb0 Ht (proj1 H2) ltac:(lia)). lia.
  - pose proof (fee_delta b (t - used) t Hb0 ltac:(lia) Ht) as [H1 H2]. set (q := _ / _ / _) in *. pose proof (fee_share b (t - used) t q Hb0 Ht (proj1 H2) ltac:(lia)).
    pose proof (Z.mul_div_le b 8 ltac:(lia)). split_and!; [lia|lia| |lia]. intros _. exists q. split; [lia|]. by split.
Qed.

(** ** The gas limit *)

Lemma to_int64_small z : - 2 ^ 63 <= z < 2 ^ 63 -> to_int64 z = z.
Proof. intros H. unfold to_int64. rewrite Z.mod_small; lia. Qed.

(** The gas limit that a node computes for its block is accepted by the check of the
    header, whatever limit the node wishes. *)
Theorem CalcGasLimit_accepted (parentGasLimit desiredLimit : Z) :
  MinGasLimit <= parentGasLimit < 2 ^ 62 -> 0 <= desiredLimit < 2 ^ 64 ->
  VerifyGaslimit parentGasLimit (CalcGasLimit parentGasLimit desiredLimit) = Ret tt.
Proof.
  unfold MinGasLimit. intros Hp Hd. set (q := parentGasLimit / 1024). assert (Hq : 4 <= q /\ 1024 * q <= parentGasLimit).
  { split; [apply Z.div_le_lower_bound; lia|apply Z.mul_div_le; lia]. }
  assert (Hc : 5000 <= CalcGasLimit parentGasLimit desiredLimit /\ Z.abs (parentGasLimit - CalcGasLimit parentGasLimit desiredLimit) < q).
  { unfold CalcGasLimit, GasLimitBoundDivisor, MinGasLimit. fold q. rewrite (Z.mod_small (q - 1)) by lia. rewrite (Z.mod_small (parentGasLimit + _)), (Z.mod_small (parentGasLimit - _)) by lia.
    assert (Hdes : 5000 <= if desiredLimit <? 5000 then 5000 else desiredLimit) by (destruct (Z.ltb_spec desiredLimit 5000); lia).
    set (d := if desiredLimit <? 5000 then 5000 else desiredLimit) in *. destruct (Z.ltb_spec parentGasLimit d), (Z.ltb_spec d parentGasLimit), (Z.ltb_spec d (parentGasLimit + (q - 1))), (Z.ltb_spec (parentGasLimit - (q - 1)) d); lia. }
  unfold VerifyGaslimit. cbv zeta. rewrite (to_int64_small parentGasLimit), (to_int64_small (CalcGasLimit _ _)), (to_int64_small (parentGasLimit - _)) by lia.
  set (g := CalcGasLimit parentGasLimit desiredLimit) in *. unfold GasLimitBoundDivisor, MinGasLimit. fold q.
  destruct (Z.ltb_spec (parentGasLimit - g) 0); [rewrite to_int64_small by lia|]; rewrite Z.mod_small by lia;
    (destruct (Z.leb_spec q (- (parentGasLimit - g))) as [?|?], (Z.leb_spec q (parentGasLimit - g)) as [?|?], (Z.ltb_spec g 5000) as [?|?]; lia || done).
Qed.
