(* ===== verification/TxPool.v ===== *)
(** The transaction pool: [core/tx_pool.go].

    The pool keeps, per account, the transactions that can be executed ([pending]) and
    those that wait for others ([queue]); all of them are in the lookup, those of remote
    origin also in the priced list.  An operation that holds the pool's lock is a function
    of the monad [PM]; it reads the clock once.  Not modelled: metrics and logs, the file
    of the journal of local transactions, and the channels of the reorganization loop,
    whose runs are calls of [runReorg]. *)
From S2P Require Import Prelude Common Params Wormholes StateTypes State StateDB Staking Evm Transition Rlp Heap TxTypes TxList TxPriced HeaderRules.

Open Scope Z_scope.

(** ** Configuration *)

Record TxPoolConfig : Type := mkTxPoolConfig {
  pc_Locals : list Address;
  pc_NoLocals : bool;
  pc_PriceLimit : Z;
  pc_PriceBump : Z;
  pc_AccountSlots : Z;
  pc_GlobalSlots : Z;
  pc_AccountQueue : Z;
  pc_GlobalQueue : Z;
  pc_Lifetime : Z;
}.

(** Three hours, in nanoseconds. *)
Definition DefaultTxPoolConfig : TxPoolConfig := mkTxPoolConfig [] false 1 10 16 (4096 + 1024) 64 1024 (3 * 3600 * 10 ^ 9).

Definition sanitize (conf : TxPoolConfig) : TxPoolConfig :=
  let atleast1 x d := if x <? 1 then d else x in
  mkTxPoolConfig (pc_Locals conf) (pc_NoLocals conf)
    (atleast1 (pc_PriceLimit conf) (pc_PriceLimit DefaultTxPoolConfig))
    (atleast1 (pc_PriceBump conf) (pc_PriceBump DefaultTxPoolConfig))
    (atleast1 (pc_AccountSlots conf) (pc_AccountSlots DefaultTxPoolConfig))
    (atleast1 (pc_GlobalSlots conf) (pc_GlobalSlots DefaultTxPoolConfig))
    (atleast1 (pc_AccountQueue conf) (pc_AccountQueue DefaultTxPoolConfig))
    (atleast1 (pc_GlobalQueue conf) (pc_GlobalQueue DefaultTxPoolConfig))
    (atleast1 (pc_Lifetime conf) (pc_Lifetime DefaultTxPoolConfig)).

(** ** The pool *)

(** [tp_events] holds the events queued for the next run of [runReorg]. *)
Record TxPool : Type := mkTxPool {
  tp_config : TxPoolConfig;
  tp_chainconfig : ChainConfig;
  tp_gasPrice : Z;
  tp_istanbul : bool;
  tp_eip2718 : bool;
  tp_eip1559 : bool;
  tp_currentState : ChainState;
  tp_pendingNonces : txNoncer;
  tp_currentMaxGas : Z;
  tp_locals : accountSet;
  tp_pending : gmap Address txList;
  tp_queue : gmap Address txList;
  tp_beats : gmap Address Z;
  tp_all : txLookup;
  tp_priced : txPricedList;
  tp_events : gmap Address txSortedMap;
}.

Definition set_gasPrice (v : Z) (p : TxPool) : TxPool :=
  mkTxPool (tp_config p) (tp_chainconfig p) v (tp_istanbul p) (tp_eip2718 p) (tp_eip1559 p) (tp_currentState p) (tp_pendingNonces p)
    (tp_currentMaxGas p) (tp_locals p) (tp_pending p) (tp_queue p) (tp_beats p) (tp_all p) (tp_priced p) (tp_events p).
Definition set_forks (istanbul eip2718 eip1559 : bool) (p : TxPool) : TxPool :=
  mkTxPool (tp_config p) (tp_chainconfig p) (tp_gasPrice p) istanbul eip2718 eip1559 (tp_currentState p) (tp_pendingNonces p)
    (tp_currentMaxGas p) (tp_locals p) (tp_pending p) (tp_queue p) (tp_beats p) (tp_all p) (tp_priced p) (tp_events p).
Definition set_head (s : ChainState) (n : txNoncer) (gas : Z) (p : TxPool) : TxPool :=
  mkTxPool (tp_config p) (tp_chainconfig p) (tp_gasPrice p) (tp_istanbul p) (tp_eip2718 p) (tp_eip1559 p) s n
    gas (tp_locals p) (tp_pending p) (tp_queue p) (tp_beats p) (tp_all p) (tp_priced p) (tp_events p).
Definition set_nonces (v : txNoncer) (p : TxPool) : TxPool :=
  mkTxPool (tp_config p) (tp_chainconfig p) (tp_gasPrice p) (tp_istanbul p) (tp_eip2718 p) (tp_eip1559 p) (tp_currentState p) v
    (tp_currentMaxGas p) (tp_locals p) (tp_pending p) (tp_queue p) (tp_beats p) (tp_all p) (tp_priced p) (tp_events p).
Definition set_locals (v : accountSet) (p : TxPool) : TxPool :=
  mkTxPool (tp_config p) (tp_chainconfig p) (tp_gasPrice p) (tp_istanbul p) (tp_eip2718 p) (tp_eip1559 p) (tp_currentState p) (tp_pendingNonces p)
    (tp_currentMaxGas p) v (tp_pending p) (tp_queue p) (tp_beats p) (tp_all p) (tp_priced p) (tp_events p).
Definition set_pending (v : gmap Address txList) (p : TxPool) : TxPool :=
  mkTxPool (tp_config p) (tp_chainconfig p) (tp_gasPrice p) (tp_istanbul p) (tp_eip2718 p) (tp_eip1559 p) (tp_currentState p) (tp_pendingNonces p)
    (tp_currentMaxGas p) (tp_locals p) v (tp_queue p) (tp_beats p) (tp_all p) (tp_priced p) (tp_events p).
Definition set_queue (v : gmap Address txList) (p : TxPool) : TxPool :=
  mkTxPool (tp_config p) (tp_chainconfig p) (tp_gasPrice p) (tp_istanbul p) (tp_eip2718 p) (tp_eip1559 p) (tp_currentState p) (tp_pendingNonces p)
    (tp_currentMaxGas p) (tp_locals p) (tp_pending p) v (tp_beats p) (tp_all p) (tp_priced p) (tp_events p).
Definition set_beats (v : gmap Address Z) (p : TxPool) : TxPool :=
  mkTxPool (tp_config p) (tp_chainconfig p) (tp_gasPrice p) (tp_istanbul p) (tp_eip2718 p) (tp_eip1559 p) (tp_currentState p) (tp_pendingNonces p)
    (tp_currentMaxGas p) (tp_locals p) (tp_pending p) (tp_queue p) v (tp_all p) (tp_priced p) (tp_events p).
Definition set_all (v : txLookup) (p : TxPool) : TxPool :=
  mkTxPool (tp_config p) (tp_chainconfig p) (tp_gasPrice p) (tp_istanbul p) (tp_eip2718 p) (tp_eip1559 p) (tp_currentState p) (tp_pendingNonces p)
    (tp_currentMaxGas p) (tp_locals p) (tp_pending p) (tp_queue p) (tp_beats p) v (tp_priced p) (tp_events p).
Definition set_priced (v : txPricedList) (p : TxPool) : TxPool :=
  mkTxPool (tp_config p) (tp_chainconfig p) (tp_gasPrice p) (tp_istanbul p) (tp_eip2718 p) (tp_eip1559 p) (tp_currentState p) (tp_pendingNonces p)
    (tp_currentMaxGas p) (tp_locals p) (tp_pending p) (tp_queue p) (tp_beats p) (tp_all p) v (tp_events p).
Definition set_events (v : gmap Address txSortedMap) (p : TxPool) : TxPool :=
  mkTxPool (tp_config p) (tp_chainconfig p) (tp_gasPrice p) (tp_istanbul p) (tp_eip2718 p) (tp_eip1559 p) (tp_currentState p) (tp_pendingNonces p)
    (tp_currentMaxGas p) (tp_locals p) (tp_pending p) (tp_queue p) (tp_beats p) (tp_all p) (tp_priced p) v.

(** An operation on the pool: [None] is a panic. *)
Definition PM (A : Type) : Type := TxPool -> option (A * TxPool).

#[export] Instance PM_ret : MRet PM := fun A a p => Some (a, p).
#[export] Instance PM_bind : MBind PM := fun A B f m p => match m p with Some (a, p) => f a p | None => None end.

Definition pool_of : PM TxPool := fun p => Some (p, p).
Definition modify (f : TxPool -> TxPool) : PM unit := fun p => Some (tt, f p).
Definition lift {A : Type} (o : option A) : PM A := fun p => match o with Some a => Some (a, p) | None => None end.

Fixpoint for_each {A : Type} (f : A -> PM unit) (l : list A) : PM unit :=
  match l with [] => mret tt | a :: l => _ ← f a; for_each f l end.

(** ** Errors *)

Definition ErrAlreadyKnown : string := "already known".
Definition ErrInvalidSender : string := "invalid sender".
Definition ErrUnderpriced : string := "transaction underpriced".
Definition ErrTxPoolOverflow : string := "txpool is full".
Definition ErrReplaceUnderpriced : string := "replacement transaction underpriced".
Definition ErrGasLimit : string := "exceeds block gas limit".
Definition ErrNegativeValue : string := "negative value".
Definition ErrOversizedData : string := "oversized data".
Definition ErrPledgeTooSmall : string := "from pledge balance not more than 700 ERB".
Definition ErrTxTypeNotSupported : string := "transaction type not supported".

Section pool.
Context {CR : Crypto} {MA : Machine} {SG : Signer} {MR : MapRange}.

(** ** Validation *)

(** The check of the funds: [None] is a panic, for a payload that needs an address and a transaction without one. *)
Definition check_funds (s : ChainState) (from : Address) (tx : Transaction) : option goerror :=
  let balance := cs_GetBalance s from in
  let plain := Some (if balance <? tx_Cost tx then Some ErrInsufficientFunds else None) in
  match tx_GetWormholes tx with
  | None => plain
  | Some w =>
      if wh_Type w =? 3 then
        to ← tx_To tx;
        if (cs_GetPledgedBalance s to <? StakerBase) && negb (from =? to) then Some (Some ErrPledgeTooSmall)
        else Some (if balance <? tx_GasFee tx + tx_Value tx then Some ErrInsufficientFunds else None)
      else if wh_Type w =? 4 then
        if balance <? tx_GasFee tx then Some (Some ErrInsufficientFunds)
        else
          to ← tx_To tx;
          if cs_GetPledgedBalance s to <? tx_Value tx then Some (Some ErrInsufficientFunds)
          else
            let stakerBalance := cs_GetStakerPledgedBalance s from to in
            if stakerBalance <? tx_Value tx then Some (Some ErrInsufficientFunds)
            else if negb (stakerBalance =? tx_Value tx) && (0 <? tx_Value tx) && (stakerBalance <? tx_Value tx + StakerBase)
            then Some (Some ErrInsufficientFundsForTransfer)
            else Some None
      else plain
  end.

Definition validateTx (tx : Transaction) (local : bool) (p : TxPool) : option goerror :=
  if negb (tp_eip2718 p) && negb (tx_Type tx =? LegacyTxType) then Some (Some ErrTxTypeNotSupported)
  else if negb (tp_eip1559 p) && (tx_Type tx =? DynamicFeeTxType) then Some (Some ErrTxTypeNotSupported)
  else if txMaxSize <? tx_Size tx then Some (Some ErrOversizedData)
  else if tx_Value tx <? 0 then Some (Some ErrNegativeValue)
  else if tp_currentMaxGas p <? tx_Gas tx then Some (Some ErrGasLimit)
  else if 256 <? bitlen (tx_GasFeeCap tx) then Some (Some ErrFeeCapVeryHigh)
  else if 256 <? bitlen (tx_GasTipCap tx) then Some (Some ErrTipVeryHigh)
  else if tx_GasFeeCapIntCmp tx (tx_GasTipCap tx) <? 0 then Some (Some ErrTipAboveFeeCap)
  else match Sender tx with
  | None => Some (Some ErrInvalidSender)
  | Some from =>
      if negb local && (tx_GasTipCapIntCmp tx (tp_gasPrice p) <? 0) then Some (Some ErrUnderpriced)
      else if tx_Nonce tx <? cs_GetNonce (tp_currentState p) from then Some (Some ErrNonceTooLow)
      else
        err ← check_funds (tp_currentState p) from tx;
        match err with
        | Some e => Some (Some e)
        | None =>
            match IntrinsicGas (tx_Data tx) (tx_AccessList tx) (negb (bool_decide (is_Some (tx_To tx)))) true (tp_istanbul p) with
            | Ret intrGas => Some (if tx_Gas tx <? intrGas then Some ErrIntrinsicGas else None)
            | Err e => Some (Some e)
            | Panic => None
            end
        end
  end.

(** ** Steps that the operations share *)

(** The sender of a transaction that was validated before. *)
Definition sender (tx : Transaction) : Address := default 0 (Sender tx).

Definition all_Remove (hash : Hash) : PM unit := modify (fun p => set_all (lk_Remove hash (tp_all p)) p).

Definition priced_Removed (count : Z) : PM unit := fun p =>
  match pr_Removed (tp_all p) count (tp_priced p) with Some l => Some (tt, set_priced l p) | None => None end.

(** [pool.all.Add] and [pool.priced.Put]. *)
Definition track (tx : Transaction) (local : bool) : PM unit :=
  modify (fun p => set_priced (pr_Put tx local (tp_priced p)) (set_all (lk_Add tx local (tp_all p)) p)).

(** An older transaction leaves the lookup. *)
Definition forget_old (old : option Transaction) : PM unit :=
  match old with Some o => _ ← all_Remove (tx_Hash o); priced_Removed 1 | None => mret tt end.

Definition queueTxEvent (tx : Transaction) : PM unit :=
  modify (fun p => set_events (<[sender tx := sm_Put tx (default newTxSortedMap (tp_events p !! sender tx))]> (tp_events p)) p).

Definition setIfLower (addr : Address) (nonce : Z) : PM unit :=
  modify (fun p => set_nonces (tn_setIfLower addr nonce (tp_pendingNonces p)) p).

(** A list in a map, or no entry if the list is empty. *)
Definition put_list (addr : Address) (l : txList) (m : gmap Address txList) : gmap Address txList :=
  if tl_Empty l then delete addr m else <[addr := l]> m.

(** The queue of an account after an operation on it; with the queue goes the heartbeat. *)
Definition put_queue (addr : Address) (l : txList) : PM unit :=
  modify (fun p => set_beats (if tl_Empty l then delete addr (tp_beats p) else tp_beats p) (set_queue (put_list addr l (tp_queue p)) p)).

(** ** Single transactions *)

Definition enqueueTx (tx : Transaction) (local addAll : bool) (now : Z) : PM (bool * goerror) :=
  p ← pool_of;
  let from := sender tx in
  let '((inserted, old), l) := tl_Add tx (pc_PriceBump (tp_config p)) (default (newTxList false) (tp_queue p !! from)) in
  _ ← modify (set_queue (<[from := l]> (tp_queue p)));
  if negb inserted then mret (false, Some ErrReplaceUnderpriced)
  else
    _ ← forget_old old;
    _ ← (if addAll then track tx local else mret tt);
    _ ← modify (fun p => set_beats (match tp_beats p !! from with Some _ => tp_beats p | None => <[from := now]> (tp_beats p) end) p);
    mret (bool_decide (is_Some old), None).

Definition promoteTx (addr : Address) (tx : Transaction) (now : Z) : PM bool :=
  p ← pool_of;
  let '((inserted, old), l) := tl_Add tx (pc_PriceBump (tp_config p)) (default (newTxList true) (tp_pending p !! addr)) in
  _ ← modify (set_pending (<[addr := l]> (tp_pending p)));
  if negb inserted then _ ← all_Remove (tx_Hash tx); _ ← priced_Removed 1; mret false
  else
    _ ← forget_old old;
    _ ← modify (fun p => set_nonces (tn_set addr (u64 (tx_Nonce tx + 1)) (tp_pendingNonces p)) p);
    _ ← modify (fun p => set_beats (<[addr := now]> (tp_beats p)) p);
    mret true.

(** The last part of [removeTx], for a transaction that is not pending. *)
Definition remove_queued (addr : Address) (tx : Transaction) : PM unit :=
  p ← pool_of;
  match tp_queue p !! addr with
  | None => mret tt
  | Some future => '(_, _, future) ← lift (tl_Remove tx future); put_queue addr future
  end.

Definition removeTx (hash : Hash) (outofbound : bool) (now : Z) : PM unit :=
  p ← pool_of;
  match lk_Get (tp_all p) hash with
  | None => mret tt
  | Some tx =>
      let addr := sender tx in
      _ ← all_Remove hash;
      _ ← (if outofbound then priced_Removed 1 else mret tt);
      match tp_pending p !! addr with
      | None => remove_queued addr tx
      | Some pending =>
          '(removed, invalids, pending) ← lift (tl_Remove tx pending);
          if (removed : bool) then
            _ ← modify (fun p => set_pending (put_list addr pending (tp_pending p)) p);
            _ ← for_each (fun tx => _ ← enqueueTx tx false false now; mret tt) invalids;
            setIfLower addr (tx_Nonce tx)
          else remove_queued addr tx
      end
  end.

Definition add_slots (tx : Transaction) (p : TxPool) : Z := lk_slots (tp_all p) + numSlots tx.
Definition pool_limit (p : TxPool) : Z := u64 (pc_GlobalSlots (tp_config p) + pc_GlobalQueue (tp_config p)).

(** The part of [add] that makes room in a full pool: the error that ends it, or none. *)
Definition make_room (tx : Transaction) (isLocal : bool) (now : Z) : PM goerror :=
  p ← pool_of;
  if negb (pool_limit p <? u64 (add_slots tx p)) then mret None
  else
    underpriced ← (if isLocal then mret false
                   else fun p => match pr_Underpriced (tp_all p) tx (tp_priced p) with
                                 | Some (b, l) => Some (b, set_priced l p)
                                 | None => None
                                 end);
    if (underpriced : bool) then mret (Some ErrUnderpriced)
    else
      '(drop, success) ← (fun p => match pr_Discard (tp_all p) (add_slots tx p - i64 (pool_limit p)) isLocal (tp_priced p) with
                                   | Some (drop, success, l) => Some ((drop, success), set_priced l p)
                                   | None => None
                                   end);
      if negb isLocal && negb (success : bool) then mret (Some ErrTxPoolOverflow)
      else _ ← for_each (fun tx => removeTx (tx_Hash tx) false now) drop; mret None.

(** The first local transaction of an account makes the account local, and its transactions. *)
Definition mark_local (from : Address) : PM unit :=
  p ← pool_of;
  if as_contains (tp_locals p) from then mret tt
  else
    let locals := as_add from (tp_locals p) in
    let '(migrated, all) := lk_RemoteToLocals locals (tp_all p) in
    _ ← modify (fun p => set_all all (set_locals locals p));
    priced_Removed migrated.

(** The part of [add] for a transaction that replaces no pending one. *)
Definition add_queued (tx : Transaction) (local isLocal : bool) (now : Z) : PM (bool * goerror) :=
  '(replaced, err) ← enqueueTx tx isLocal true now;
  match err with
  | Some e => mret (false, Some e)
  | None => _ ← (if local then mark_local (sender tx) else mret tt); mret (replaced, None)
  end.

Definition add (tx : Transaction) (local : bool) (now : Z) : PM (bool * goerror) :=
  p ← pool_of;
  match lk_Get (tp_all p) (tx_Hash tx) with
  | Some _ => mret (false, Some ErrAlreadyKnown)
  | None =>
      let isLocal := local || as_containsTx (tp_locals p) tx in
      err ← lift (validateTx tx isLocal p);
      match err with
      | Some e => mret (false, Some e)
      | None =>
          err ← make_room tx isLocal now;
          match err with
          | Some e => mret (false, Some e)
          | None =>
              let from := sender tx in
              p ← pool_of;
              match tp_pending p !! from with
              | Some l =>
                  if tl_Overlaps l tx then
                    let '((inserted, old), l) := tl_Add tx (pc_PriceBump (tp_config p)) l in
                    if negb inserted then mret (false, Some ErrReplaceUnderpriced)
                    else
                      _ ← modify (fun p => set_pending (<[from := l]> (tp_pending p)) p);
                      _ ← forget_old old;
                      _ ← track tx isLocal;
                      _ ← queueTxEvent tx;
                      _ ← modify (fun p => set_beats (<[from := now]> (tp_beats p)) p);
                      mret (bool_decide (is_Some old), None)
                  else add_queued tx local isLocal now
              | None => add_queued tx local isLocal now
              end
          end
      end
  end.

(** The payload type that is always treated as local. *)
Definition isTx30 (tx : Transaction) : bool := match tx_GetWormholes tx with Some w => wh_Type w =? 30 | None => false end.

Fixpoint addTxsLocked (txs : list Transaction) (local : bool) (now : Z) : PM (list goerror * accountSet) :=
  match txs with
  | [] => mret ([], ∅)
  | tx :: txs =>
      '(replaced, err) ← add tx (if isTx30 tx then true else local) now;
      '(errs, dirty) ← addTxsLocked txs local now;
      mret (err :: errs, match err with None => if (replaced : bool) then dirty else as_addTx tx dirty | Some _ => dirty end)
  end.

(** The errors that are found without the lock: one per transaction, [None] for a new one. *)
Definition pre_errors (all : txLookup) (txs : list Transaction) : list goerror :=
  (fun tx => match lk_Get all (tx_Hash tx) with
             | Some _ => Some ErrAlreadyKnown
             | None => match Sender tx with None => Some ErrInvalidSender | Some _ => None end
             end) <$> txs.

(** The first free slot from [i] on. *)
Fixpoint nil_slot (errs : list goerror) (i : nat) : option nat :=
  match errs, i with
  | [], _ => None
  | e :: errs, O => match e with None => Some 0%nat | Some _ => S <$> nil_slot errs 0 end
  | e :: errs, S i => S <$> nil_slot errs i
  end.

(** The loop that merges the errors: running past the end of the slice panics. *)
Fixpoint merge_errs (newErrs errs : list goerror) (nilSlot : nat) : option (list goerror) :=
  match newErrs with
  | [] => Some errs
  | err :: newErrs => i ← nil_slot errs nilSlot; merge_errs newErrs (<[i := err]> errs) (S i)
  end.

(** The errors, and the accounts whose promotion is requested. *)
Definition addTxs (txs : list Transaction) (local : bool) (now : Z) : PM (list goerror * accountSet) :=
  p ← pool_of;
  let errs := pre_errors (tp_all p) txs in
  let news := (filter (fun te => te.2 = None) (zip txs errs)).*1 in
  match news with
  | [] => mret (errs, ∅)
  | _ =>
      '(newErrs, dirty) ← addTxsLocked news local now;
      errs ← lift (merge_errs newErrs errs 0);
      mret (errs, dirty)
  end.

Definition AddLocals (txs : list Transaction) (now : Z) : PM (list goerror * accountSet) :=
  p ← pool_of; addTxs txs (negb (pc_NoLocals (tp_config p))) now.
Definition AddRemotes (txs : list Transaction) (now : Z) : PM (list goerror * accountSet) := addTxs txs false now.

(** ** Reading the pool *)

Inductive TxStatus : Type := TxStatusUnknown | TxStatusQueued | TxStatusPending | TxStatusIncluded.

Definition pool_Get (p : TxPool) (hash : Hash) : option Transaction := lk_Get (tp_all p) hash.
Definition pool_Has (p : TxPool) (hash : Hash) : bool := bool_decide (is_Some (lk_Get (tp_all p) hash)).

Definition has_nonce (m : gmap Address txList) (addr : Address) (nonce : Z) : bool :=
  match m !! addr with Some l => bool_decide (is_Some (sm_items (tl_txs l) !! nonce)) | None => false end.

Definition pool_Status (p : TxPool) (hash : Hash) : TxStatus :=
  match pool_Get p hash with
  | None => TxStatusUnknown
  | Some tx =>
      if has_nonce (tp_pending p) (sender tx) (tx_Nonce tx) then TxStatusPending
      else if has_nonce (tp_queue p) (sender tx) (tx_Nonce tx) then TxStatusQueued
      else TxStatusUnknown
  end.

Definition pool_Nonce (addr : Address) : PM Z := fun p =>
  let '(n, t) := tn_get addr (tp_pendingNonces p) in Some (n, set_nonces t p).

(** The number of transactions of a map of lists. *)
Definition lists_Len (m : gmap Address txList) : Z := foldr (fun kv n => tl_Len kv.2 + n) 0 (map_range m).

Definition stats (p : TxPool) : Z * Z := (lists_Len (tp_pending p), lists_Len (tp_queue p)).

(** The transactions in front of the first one whose tip is too low. *)
Definition enforce_tips (gasPrice : Z) (baseFee : option Z) (txs : list Transaction) : list Transaction :=
  match list_find (fun tx => tx_EffectiveGasTipIntCmp tx gasPrice baseFee < 0) txs with
  | Some (i, _) => take i txs
  | None => txs
  end.

(** What the pool offers to the miner; the caches that [Flatten] fills are left out. *)
Definition pool_Pending (enforceTips : bool) (p : TxPool) : gmap Address (list Transaction) :=
  map_imap (fun addr l =>
    let txs := (tl_Flatten l).1 in
    let txs := if enforceTips && negb (as_contains (tp_locals p) addr)
               then enforce_tips (tp_gasPrice p) (ph_baseFee (pr_urgent (tp_priced p))) txs else txs in
    match txs with [] => None | _ => Some txs end) (tp_pending p).

(** ** Price and age *)

Definition SetGasPrice (price : Z) (now : Z) : PM unit :=
  p ← pool_of;
  let old := tp_gasPrice p in
  _ ← modify (set_gasPrice price);
  if old <? price then
    let drop := lk_RemotesBelowTip price (tp_all p) in
    _ ← for_each (fun tx => removeTx (tx_Hash tx) false now) drop;
    priced_Removed (len drop)
  else mret tt.

(** All transactions of a queue are removed. *)
Definition drop_queue (addr : Address) (now : Z) : PM unit :=
  p ← pool_of;
  match tp_queue p !! addr with
  | None => mret tt
  | Some l =>
      let '(txs, l) := tl_Flatten l in
      _ ← modify (set_queue (<[addr := l]> (tp_queue p)));
      for_each (fun tx => removeTx (tx_Hash tx) true now) txs
  end.

(** The tick that evicts the queues of inactive accounts; the time of a missing heartbeat is the zero time. *)
Definition evict (now : Z) : PM unit :=
  p ← pool_of;
  for_each (fun addr =>
    p ← pool_of;
    if as_contains (tp_locals p) addr then mret tt
    else if pc_Lifetime (tp_config p) <? now - default 0 (tp_beats p !! addr) then drop_queue addr now
    else mret tt) (map_range (tp_queue p)).*1.

(** ** Promotion and demotion *)

Definition remove_all (txs : list Transaction) : PM unit := for_each (fun tx => all_Remove (tx_Hash tx)) txs.

(** The promoted transactions of a list of ready ones. *)
Fixpoint promote_all (addr : Address) (readies : list Transaction) (now : Z) : PM (list Transaction) :=
  match readies with
  | [] => mret []
  | tx :: readies =>
      ok ← promoteTx addr tx now;
      promoted ← promote_all addr readies now;
      mret (if (ok : bool) then tx :: promoted else promoted)
  end.

(** One round of the loop of [promoteExecutables]. *)
Definition promote_account (addr : Address) (now : Z) : PM (list Transaction) :=
  p ← pool_of;
  match tp_queue p !! addr with
  | None => mret []
  | Some l =>
      '(forwards, l) ← lift (tl_Forward (cs_GetNonce (tp_currentState p) addr) l);
      _ ← remove_all forwards;
      let '(drops, _, l) := tl_Filter (cs_GetBalance (tp_currentState p) addr) (tp_currentMaxGas p) l in
      _ ← remove_all drops;
      start ← pool_Nonce addr;
      '(readies, l) ← lift (tl_Ready start l);
      promoted ← promote_all addr readies now;
      '(caps, l) ← (if as_contains (tp_locals p) addr then mret ([], l)
                    else lift (tl_Cap (i64 (pc_AccountQueue (tp_config p))) l));
      _ ← remove_all caps;
      _ ← priced_Removed (len forwards + len drops + len caps);
      _ ← put_queue addr l;
      mret promoted
  end.

Fixpoint promoteExecutables (accounts : list Address) (now : Z) : PM (list Transaction) :=
  match accounts with
  | [] => mret []
  | addr :: accounts => promoted ← promote_account addr now; rest ← promoteExecutables accounts now; mret (promoted ++ rest)
  end.

Definition enqueue_all (txs : list Transaction) (now : Z) : PM unit := for_each (fun tx => _ ← enqueueTx tx false false now; mret tt) txs.

(** One round of the loop of [demoteUnexecutables]. *)
Definition demote_account (addr : Address) (now : Z) : PM unit :=
  p ← pool_of;
  match tp_pending p !! addr with
  | None => mret tt
  | Some l =>
      let nonce := cs_GetNonce (tp_currentState p) addr in
      '(olds, l) ← lift (tl_Forward nonce l);
      _ ← remove_all olds;
      let '(drops, invalids, l) := tl_Filter (cs_GetBalance (tp_currentState p) addr) (tp_currentMaxGas p) l in
      _ ← remove_all drops;
      _ ← enqueue_all invalids now;
      '(gapped, l) ← (if (0 <? tl_Len l) && negb (bool_decide (is_Some (sm_Get (tl_txs l) nonce))) then lift (tl_Cap 0 l) else mret ([], l));
      _ ← enqueue_all gapped now;
      modify (fun p => set_pending (put_list addr l (tp_pending p)) p)
  end.

Definition demoteUnexecutables (now : Z) : PM unit :=
  p ← pool_of; for_each (fun addr => demote_account addr now) (map_range (tp_pending p)).*1.

(** ** Limits *)

(** [pool.pending[addr].Len()], which panics without a list. *)
Definition pending_Len (addr : Address) : PM Z :=
  p ← pool_of; l ← lift (tp_pending p !! addr); mret (tl_Len l).

(** The last transaction of an account is dropped. *)
Definition cap_one (addr : Address) : PM unit :=
  p ← pool_of;
  l ← lift (tp_pending p !! addr);
  '(caps, l) ← lift (tl_Cap (tl_Len l - 1) l);
  _ ← modify (fun p => set_pending (<[addr := l]> (tp_pending p)) p);
  _ ← for_each (fun tx => _ ← all_Remove (tx_Hash tx); setIfLower addr (tx_Nonce tx)) caps;
  priced_Removed (len caps).

(** A round over accounts; the counter of pending transactions is a [uint64]. *)
Fixpoint cap_round (addrs : list Address) (pending : Z) : PM Z :=
  match addrs with
  | [] => mret pending
  | addr :: addrs => _ ← cap_one addr; cap_round addrs (u64 (pending - 1))
  end.

(** Rounds over [addrs] while there are too many pending transactions and [last] has more than [threshold]; it has
    one less after a round. *)
Fixpoint cap_rounds (fuel : nat) (addrs : list Address) (last : Address) (threshold pending : Z) : PM Z :=
  match fuel with
  | O => mret pending
  | S fuel =>
      p ← pool_of;
      if negb (pc_GlobalSlots (tp_config p) <? pending) then mret pending
      else
        n ← pending_Len last;
        if negb (threshold <? n) then mret pending
        else pending ← cap_round addrs pending; cap_rounds fuel addrs last threshold pending
  end.

(** The priority queue of the offenders: the [Prque] of [common/prque] is a heap, the highest priority first. *)
Definition prqueLess (a b : Address * Z) : bool := b.2 <? a.2.

(** The loop that takes offenders from the queue and brings them to the same length. *)
Fixpoint equalize (fuel : nat) (spammers : list (Address * Z)) (offenders : list Address) (pending : Z) : PM (list Address * Z) :=
  match fuel with
  | O => mret (offenders, pending)
  | S fuel =>
      p ← pool_of;
      if negb (pc_GlobalSlots (tp_config p) <? pending) || (match spammers with [] => true | _ => false end) then mret (offenders, pending)
      else
        '((offender, _), spammers) ← lift (Heap.Pop prqueLess spammers);
        pending ← match last offenders with
                  | None => mret pending
                  | Some prev =>
                      threshold ← pending_Len offender;
                      n ← pending_Len prev;
                      cap_rounds (Z.to_nat n) offenders prev threshold pending
                  end;
        equalize fuel spammers (offenders ++ [offender]) pending
  end.

Definition truncatePending : PM unit :=
  p ← pool_of;
  let pending := u64 (lists_Len (tp_pending p)) in
  if pending <=? pc_GlobalSlots (tp_config p) then mret tt
  else
    let spammers := foldl (fun h kv =>
      if negb (as_contains (tp_locals p) kv.1) && (pc_AccountSlots (tp_config p) <? tl_Len kv.2)
      then Heap.Push prqueLess h (kv.1, tl_Len kv.2) else h) [] (map_range (tp_pending p)) in
    '(offenders, pending) ← equalize (S (length spammers)) spammers [] pending;
    match last offenders with
    | Some lst =>
        if pc_GlobalSlots (tp_config p) <? pending then
          n ← pending_Len lst;
          _ ← cap_rounds (Z.to_nat n) offenders lst (pc_AccountSlots (tp_config p)) pending;
          mret tt
        else mret tt
    | None => mret tt
    end.

(** The order of [sort.Sort] for equal heartbeats depends on the order of the map. *)
Definition beat_le (a b : Address * Z) : Prop := a.2 <= b.2.
#[global] Instance beat_le_dec a b : Decision (beat_le a b) := Z_le_dec _ _.

(** Transactions are removed from the end of a list while there are too many. *)
Fixpoint drop_last (txs : list Transaction) (drop now : Z) : PM Z :=
  match txs with
  | [] => mret drop
  | tx :: txs => if drop <=? 0 then mret drop else _ ← removeTx (tx_Hash tx) true now; drop_last txs (drop - 1) now
  end.

Fixpoint drop_queues (addresses : list Address) (drop now : Z) : PM unit :=
  match addresses with
  | [] => mret tt
  | addr :: addresses =>
      if drop <=? 0 then mret tt
      else
        p ← pool_of;
        l ← lift (tp_queue p !! addr);
        let size := tl_Len l in
        if size <=? drop then _ ← drop_queue addr now; drop_queues addresses (drop - size) now
        else
          let '(txs, l) := tl_Flatten l in
          _ ← modify (set_queue (<[addr := l]> (tp_queue p)));
          drop ← drop_last (reverse txs) drop now;
          drop_queues addresses drop now
  end.

Definition truncateQueue (now : Z) : PM unit :=
  p ← pool_of;
  let queued := u64 (lists_Len (tp_queue p)) in
  if queued <=? pc_GlobalQueue (tp_config p) then mret tt
  else
    let addresses := (fun addr => (addr, default 0 (tp_beats p !! addr))) <$> filter (fun addr => as_contains (tp_locals p) addr = false) (map_range (tp_queue p)).*1 in
    drop_queues (reverse (merge_sort beat_le addresses).*1) (queued - pc_GlobalQueue (tp_config p)) now.
End pool.

(** ** New heads *)

Record Block : Type := mkBlock {
  b_header : Header;
  b_Transactions : list Transaction;
}.

(** The chain: blocks by hash and number, and the state of a root, [None] on an error. *)
Class BlockChain : Type := {
  GetBlock : Hash -> Z -> option Block;
  StateAt : Hash -> option ChainState;
}.

Section reorg.
Context {CR : Crypto} {MA : Machine} {SG : Signer} {MR : MapRange} {BC : BlockChain}.

Definition b_Number (b : Block) : Z := hd_Number (b_header b).
Definition b_Hash (b : Block) : Hash := hd_Hash (b_header b).

Definition parent_of (b : Block) : option Block := GetBlock (hd_ParentHash (b_header b)) (u64 (b_Number b - 1)).

(** The block at a number, with the transactions on the way: an error if a block is missing.  A walk that is not over with its fuel is a panic. *)
Fixpoint rewind (fuel : nat) (number : Z) (b : Block) (txs : list Transaction) : outcome (Block * list Transaction) :=
  if b_Number b <=? number then Ret (b, txs)
  else
    match fuel with
    | O => Panic
    | S fuel =>
        match parent_of b with
        | None => Err "unrooted chain"
        | Some parent => rewind fuel number parent (txs ++ b_Transactions b)
        end
    end.

(** The transactions of two branches down to the block they share. *)
Fixpoint rewind_both (fuel : nat) (rem add : Block) (discarded included : list Transaction) : outcome (list Transaction * list Transaction) :=
  if b_Hash rem =? b_Hash add then Ret (discarded, included)
  else
    match fuel with
    | O => Panic
    | S fuel =>
        match parent_of rem, parent_of add with
        | Some rem', Some add' => rewind_both fuel rem' add' (discarded ++ b_Transactions rem) (included ++ b_Transactions add)
        | _, _ => Err "unrooted chain"
        end
    end.

Definition TxDifference (a b : list Transaction) : list Transaction :=
  filter (fun tx => tx_Hash tx ∉ (tx_Hash <$> b)) a.

(** The transactions of the old branch that are not in the new one.  A step lowers the number. *)
Definition branch_difference (rem add : Block) : outcome (list Transaction) :=
  '(rem, discarded) ← rewind (Z.to_nat (b_Number rem)) (b_Number add) rem [];
  '(add, included) ← rewind (Z.to_nat (b_Number add)) (b_Number rem) add [];
  '(discarded, included) ← rewind_both (S (Z.to_nat (b_Number rem))) rem add discarded included;
  Ret (TxDifference discarded included).

(** What [reset] injects again: a panic, an early return, or transactions. *)
Definition reinjected (oldHead : option Header) (newHead : Header) : outcome (list Transaction) :=
  match oldHead with
  | None => Ret []
  | Some old =>
      if hd_Hash old =? hd_ParentHash newHead then Ret []
      else if 64 <? Z.abs (hd_Number old - hd_Number newHead) then Ret []
      else
        match GetBlock (hd_Hash old) (hd_Number old) with
        | None => if hd_Number old <=? hd_Number newHead then Err "missing oldhead" else Ret []
        | Some rem =>
            match GetBlock (hd_Hash newHead) (hd_Number newHead) with
            | None => Panic
            | Some add => branch_difference rem add
            end
        end
  end.

Definition reset (oldHead : option Header) (newHead : Header) (now : Z) : PM unit :=
  match reinjected oldHead newHead with
  | Panic => lift None
  | Err _ => mret tt
  | Ret reinject =>
      match StateAt (hd_Root newHead) with
      | None => mret tt
      | Some statedb =>
          _ ← modify (set_head statedb (newTxNoncer statedb) (hd_GasLimit newHead));
          _ ← addTxsLocked reinject false now;
          modify (fun p =>
            let next := hd_Number newHead + 1 in
            set_forks (IsIstanbul (tp_chainconfig p) next) (IsBerlin (tp_chainconfig p) next) (IsLondon (tp_chainconfig p) next) p)
      end
  end.

(** The events of an account without those of old nonces. *)
Definition forward_events (addr : Address) : PM unit :=
  p ← pool_of;
  match tp_events p !! addr with
  | None => mret tt
  | Some m =>
      n ← pool_Nonce addr;
      '(_, m) ← lift (sm_Forward n m);
      modify (fun p => set_events (if sm_Len m =? 0 then delete addr (tp_events p) else <[addr := m]> (tp_events p)) p)
  end.

(** The nonce of an account after its last pending transaction. *)
Definition update_nonce (addr : Address) : PM unit :=
  p ← pool_of;
  match tp_pending p !! addr with
  | None => mret tt
  | Some l =>
      '(highest, l) ← lift (tl_LastElement l);
      _ ← modify (fun p => set_pending (<[addr := l]> (tp_pending p)) p);
      modify (fun p => set_nonces (tn_set addr (u64 (tx_Nonce highest + 1)) (tp_pendingNonces p)) p)
  end.

Definition priced_SetBaseFee (baseFee : Z) : PM unit := fun p =>
  match pr_SetBaseFee (tp_all p) baseFee (tp_priced p) with Some l => Some (tt, set_priced l p) | None => None end.

(** The new base fee of the priced list. *)
Definition update_base_fee (newHead : Header) : PM unit :=
  p ← pool_of;
  if IsLondon (tp_chainconfig p) (hd_Number newHead + 1) then
    baseFee ← lift (CalcBaseFee (tp_chainconfig p) newHead);
    priced_SetBaseFee baseFee
  else mret tt.

(** A run of the reorganization loop, which returns the announced transactions. *)
Definition runReorg (resetReq : option (option Header * Header)) (dirty : option accountSet) (now : Z) : PM (list Transaction) :=
  _ ← match resetReq with
      | None => mret tt
      | Some (oldHead, newHead) =>
          _ ← reset oldHead newHead now;
          p ← pool_of;
          for_each forward_events (map_range (tp_events p)).*1
      end;
  p ← pool_of;
  let promoteAddrs := match resetReq, dirty with
                      | Some _, _ => (map_range (tp_queue p)).*1
                      | None, Some dirty => as_flatten dirty
                      | None, None => []
                      end in
  promoted ← promoteExecutables promoteAddrs now;
  _ ← match resetReq with
      | None => mret tt
      | Some (_, newHead) => _ ← demoteUnexecutables now; update_base_fee newHead
      end;
  _ ← truncatePending;
  _ ← truncateQueue now;
  p ← pool_of;
  _ ← for_each update_nonce (map_range (tp_pending p)).*1;
  _ ← for_each queueTxEvent promoted;
  p ← pool_of;
  _ ← modify (set_events ∅);
  mret (map_range (tp_events p) ≫= fun kv => (sm_Flatten kv.2).1).

(** The pool before its first reset. *)
Definition emptyTxPool (config : TxPoolConfig) (chainconfig : ChainConfig) (nostate : ChainState) : TxPool :=
  let config := sanitize config in
  mkTxPool config chainconfig (pc_PriceLimit config) false false false nostate (newTxNoncer nostate) 0
    (newAccountSet (pc_Locals config)) ∅ ∅ ∅ newTxLookup newTxPricedList ∅.

Definition NewTxPool (config : TxPoolConfig) (chainconfig : ChainConfig) (nostate : ChainState) (head : Header) (now : Z) : option TxPool :=
  '(_, p) ← reset None head now (emptyTxPool config chainconfig nostate); Some p.
End reorg.
