(* ===== verification/TxPoolOps.v ===== *)
(** The invariant of the transaction pool, and that the operations keep it and do not panic.

    For every operation: what it does to the pending transactions and to the nonces, from
    which [TxPoolTheorems] derives the contracts of the pool. *)
From S2P Require Import Prelude Common Params Wormholes StateTypes State StateDB Staking Evm Transition Rlp Heap TxTypes TxList TxListProps TxPriced TxPricedProps HeaderRules TxPool.

Open Scope Z_scope.

(** * The invariant of the pool and its components

    The lookup holds exactly the transactions of the lists, and those in flight between
    two steps of an operation; no account has two transactions with a nonce; the lists and
    the heaps are well formed. *)

(** ** Operations that return *)

(** The operation does not panic, and its result and the pool after it satisfy [Q]. *)
Definition runs {A : Type} (m : PM A) (p : TxPool) (Q : A -> TxPool -> Prop) : Prop :=
  exists a p', m p = Some (a, p') /\ Q a p'.

Lemma runs_ret {A : Type} (a : A) p (Q : A -> TxPool -> Prop) : Q a p -> runs (mret a) p Q.
Proof. intros H. by exists a, p. Qed.

Lemma runs_bind {A B : Type} (m : PM A) (f : A -> PM B) p (Q : B -> TxPool -> Prop) :
  runs m p (fun a p' => runs (f a) p' Q) -> runs (m ≫= f) p Q.
Proof. intros (a & p1 & E & b & p2 & E2 & H). exists b, p2. split; [|done]. cbv [mbind PM_bind]. by rewrite E. Qed.

Lemma runs_mono {A : Type} (m : PM A) p (Q Q' : A -> TxPool -> Prop) : runs m p Q -> (forall a p', Q a p' -> Q' a p') -> runs m p Q'.
Proof. intros (a & p' & E & H) Hi. exists a, p'. split; [done|]. by apply Hi. Qed.

Lemma runs_pool_of p (Q : TxPool -> TxPool -> Prop) : Q p p -> runs pool_of p Q.
Proof. intros H. by exists p, p. Qed.

Lemma runs_modify f p (Q : unit -> TxPool -> Prop) : Q tt (f p) -> runs (modify f) p Q.
Proof. intros H. by exists tt, (f p). Qed.

Lemma runs_lift {A : Type} (o : option A) a p (Q : A -> TxPool -> Prop) : o = Some a -> Q a p -> runs (lift o) p Q.
Proof. intros -> H. by exists a, p. Qed.

(** A loop keeps an invariant that speaks of the elements still to come. *)
Lemma runs_for_each {A : Type} (I : list A -> TxPool -> Prop) (f : A -> PM unit) l p (Q : unit -> TxPool -> Prop) :
  (forall x l' p', I (x :: l') p' -> runs (f x) p' (fun _ p'' => I l' p'')) -> I l p -> (forall p', I [] p' -> Q tt p') -> runs (for_each f l) p Q.
Proof.
  intros Hf. revert p. induction l as [|x l IH]; intros p Hp HQ; cbn [for_each]; [apply runs_ret; by apply HQ|].
  apply runs_bind. eapply runs_mono; [by apply Hf|]. intros [] p' H. by apply IH.
Qed.

(** ** The transactions of the lists *)

Definition items_of (m : gmap Address txList) (a : Address) : gmap Z Transaction := match m !! a with Some l => tl_items l | None => ∅ end.

Definition lists_txs (m : gmap Address txList) : list Transaction := map_to_list m ≫= (fun kv => values (tl_items kv.2)).

Lemma lists_txs_delete m a l : m !! a = Some l -> lists_txs m ≡ₚ values (tl_items l) ++ lists_txs (delete a m).
Proof. intros H. unfold lists_txs. by rewrite <- (map_to_list_delete m a l H). Qed.

Lemma lists_txs_split m a : lists_txs m ≡ₚ values (items_of m a) ++ lists_txs (delete a m).
Proof. unfold items_of. destruct (m !! a) as [l|] eqn:E; [by apply lists_txs_delete|]. by rewrite delete_id. Qed.

Lemma lists_txs_insert m a l : lists_txs (<[a := l]> m) ≡ₚ values (tl_items l) ++ lists_txs (delete a m).
Proof. rewrite (lists_txs_delete _ a l) by apply lookup_insert_eq. by rewrite delete_insert_eq. Qed.

Lemma tl_Empty_true l : tl_Empty l = true <-> tl_items l = ∅.
Proof. unfold tl_Empty, tl_Len, sm_Len. rewrite Z.eqb_eq. fold (tl_items l). rewrite <- map_size_empty_iff. lia. Qed.

Lemma put_list_txs m a l : lists_txs (put_list a l m) ≡ₚ values (tl_items l) ++ lists_txs (delete a m).
Proof. unfold put_list. destruct (tl_Empty l) eqn:E; [|apply lists_txs_insert]. apply tl_Empty_true in E. by rewrite E. Qed.

Lemma put_list_items m a l b : items_of (put_list a l m) b = if decide (b = a) then tl_items l else items_of m b.
Proof.
  unfold put_list, items_of. destruct (tl_Empty l) eqn:E.
  - apply tl_Empty_true in E. destruct (decide (b = a)) as [->|]; [by rewrite lookup_delete_eq, E|by rewrite lookup_delete_ne].
  - destruct (decide (b = a)) as [->|]; [by rewrite lookup_insert_eq|by rewrite lookup_insert_ne].
Qed.

Lemma insert_items m a l b : items_of (<[a := l]> m) b = if decide (b = a) then tl_items l else items_of m b.
Proof. unfold items_of. destruct (decide (b = a)) as [->|]; [by rewrite lookup_insert_eq|by rewrite lookup_insert_ne]. Qed.

Lemma put_list_nonempty m a l : tl_items l <> ∅ -> put_list a l m = <[a := l]> m.
Proof. intros H. unfold put_list. destruct (tl_Empty l) eqn:E; [|done]. by apply tl_Empty_true in E. Qed.

(** ** The invariant *)

Section invariant.
Context {CR : Crypto} {MA : Machine} {SG : Signer} {D : list Transaction}.

(** The sender can be recovered, the nonce is a 64-bit number that has a successor, and the size is not negative. *)
Definition valid (tx : Transaction) : Prop := is_Some (Sender tx) /\ 0 <= tx_Nonce tx < 2 ^ 64 - 1 /\ 0 <= tx_Size tx.

(** The place of a transaction: its sender and its nonce. *)
Definition place (tx : Transaction) : option Address * Z := (Sender tx, tx_Nonce tx).

Record list_ok (strict : bool) (a : Address) (l : txList) : Prop := {
  li_wf : tl_wf l;
  li_strict : tl_strict l = strict;
  li_sender : forall n tx, tl_items l !! n = Some tx -> Sender tx = Some a;
}.

Definition lists_ok (strict : bool) (m : gmap Address txList) : Prop := forall a l, m !! a = Some l -> list_ok strict a l /\ tl_items l <> ∅.

(** [F] holds the transactions in flight, [D] those that the priced list has given up and that are still to be removed. *)
Record core (F : list Transaction) (pending queue : gmap Address txList) (all : txLookup) (priced : txPricedList) : Prop := {
  co_pending : lists_ok true pending;
  co_queue : lists_ok false queue;
  co_all : lookup_ok all;
  co_priced : priced_ok D all priced;
  co_perm : all_txs all ≡ₚ lists_txs pending ++ lists_txs queue ++ F;
  co_places : NoDup (place <$> all_txs all);
  co_valid : forall tx, tx ∈ all_txs all -> valid tx;
}.

Lemma items_of_ok strict m a : lists_ok strict m -> keyed (items_of m a) /\ forall n tx, items_of m a !! n = Some tx -> Sender tx = Some a.
Proof.
  intros H. unfold items_of. destruct (m !! a) as [l|] eqn:E; [|split; intros n tx; by rewrite lookup_empty].
  destruct (H a l E) as [[H1 _ H3] _]. split; [by apply tl_keyed|done].
Qed.

Lemma lists_txs_elem strict m tx : lists_ok strict m -> tx ∈ lists_txs m <-> exists a, Sender tx = Some a /\ items_of m a !! tx_Nonce tx = Some tx.
Proof.
  intros H. unfold lists_txs. rewrite list_elem_of_bind. split.
  - intros ([a l] & Hin & Hal%elem_of_map_to_list). cbn [snd] in Hin. destruct (H a l Hal) as [[H1 _ H3] _]. apply values_elem in Hin; [|by apply tl_keyed].
    exists a. split; [by apply (H3 (tx_Nonce tx))|]. unfold items_of. by rewrite Hal.
  - intros (a & _ & Hi). unfold items_of in Hi. destruct (m !! a) as [l|] eqn:E; [|by rewrite lookup_empty in Hi]. destruct (H a l E) as [[H1 _ _] _].
    exists (a, l). split; [apply values_elem; [by apply tl_keyed|done]|by apply elem_of_map_to_list].
Qed.

Lemma lists_put strict m a l : lists_ok strict m -> list_ok strict a l -> lists_ok strict (put_list a l m).
Proof.
  intros H Hl b l' Hb. unfold put_list in Hb. destruct (tl_Empty l) eqn:E; [apply lookup_delete_Some in Hb as [_ Hb]; by apply H|].
  apply lookup_insert_Some in Hb as [[<- <-]|[_ Hb]]; [|by apply H]. split; [done|]. intros Hemp. apply tl_Empty_true in Hemp. congruence.
Qed.

Lemma default_list strict m a : lists_ok strict m -> list_ok strict a (default (newTxList strict) (m !! a)) /\ tl_items (default (newTxList strict) (m !! a)) = items_of m a.
Proof.
  intros H. unfold items_of. destruct (m !! a) as [l|] eqn:E; cbn [default]; [split; [by apply H|done]|]. split; [|done].
  split; [apply newTxList_wf|done|]. intros n tx Hn. cbn in Hn. by rewrite lookup_empty in Hn.
Qed.

(** *** Steps that keep the invariant *)

Lemma core_pending_put F F' a l pending queue all priced :
  core F pending queue all priced -> list_ok true a l -> values (items_of pending a) ++ F ≡ₚ values (tl_items l) ++ F' ->
  core F' (put_list a l pending) queue all priced.
Proof.
  intros [H1 H2 H3 H4 H5 H6 H7] Hl Hp. split; try done; [by apply lists_put|]. rewrite H5, (lists_txs_split pending a), put_list_txs.
  transitivity ((values (items_of pending a) ++ F) ++ lists_txs (delete a pending) ++ lists_txs queue); [solve_Permutation|]. rewrite Hp. solve_Permutation.
Qed.

Lemma core_queue_put F F' a l pending queue all priced :
  core F pending queue all priced -> list_ok false a l -> values (items_of queue a) ++ F ≡ₚ values (tl_items l) ++ F' ->
  core F' pending (put_list a l queue) all priced.
Proof.
  intros [H1 H2 H3 H4 H5 H6 H7] Hl Hp. split; try done; [by apply lists_put|]. rewrite H5, (lists_txs_split queue a), put_list_txs.
  transitivity ((values (items_of queue a) ++ F) ++ lists_txs (delete a queue) ++ lists_txs pending); [solve_Permutation|]. rewrite Hp. solve_Permutation.
Qed.

(** A transaction in flight leaves the lookup. *)
Lemma core_drop tx F pending queue all priced :
  core (tx :: F) pending queue all priced -> core F pending queue (lk_Remove (tx_Hash tx) all) priced.
Proof.
  intros [H1 H2 H3 H4 H5 H6 H7]. assert (Hin : tx ∈ all_txs all) by (rewrite H5; set_solver). destruct (lk_Remove_ok all tx H3 Hin) as (E1 & E2 & E3).
  split; try done; [by eapply priced_sub| | |].
  - apply (Permutation_cons_inv (a := tx)). rewrite <- E2, H5. solve_Permutation.
  - rewrite E2 in H6. by apply NoDup_cons in H6 as [_ H6].
  - intros y Hy. apply H7. rewrite E2. set_solver.
Qed.

(** A new transaction enters the lookup and the priced list. *)
Lemma core_track tx local F pending queue all priced :
  core F pending queue all priced -> lk_Get all (tx_Hash tx) = None -> valid tx -> place tx ∉ place <$> all_txs all ->
  core (tx :: F) pending queue (lk_Add tx local all) (pr_Put tx local priced).
Proof.
  intros [H1 H2 H3 H4 H5 H6 H7] Hg Hv Hp. destruct (lk_Add_ok all tx local H3 Hg) as [E1 E2]. split; try done; [by apply pr_Put_ok| | |].
  - rewrite E2, H5. solve_Permutation.
  - rewrite E2. cbn. by constructor.
  - intros y. rewrite E2. intros [->|Hy]%elem_of_cons; [done|by apply H7].
Qed.

Lemma core_priced F pending queue all priced priced' : core F pending queue all priced -> priced_ok D all priced' -> core F pending queue all priced'.
Proof. intros [H1 H2 H3 H4 H5 H6 H7] H. by split. Qed.

Lemma core_perm F F' pending queue all priced : core F pending queue all priced -> F ≡ₚ F' -> core F' pending queue all priced.
Proof. intros [H1 H2 H3 H4 H5 H6 H7] H. split; try done. by rewrite <- H. Qed.

(** A transaction in flight has a place of its own. *)
Lemma core_flight tx F pending queue all priced a : core (tx :: F) pending queue all priced -> Sender tx = Some a ->
  items_of pending a !! tx_Nonce tx = None /\ items_of queue a !! tx_Nonce tx = None.
Proof.
  intros [H1 H2 H3 H4 H5 H6 H7] Hs. rewrite H5 in H6. assert (Hno : forall y, y ∈ lists_txs pending ++ lists_txs queue -> place y <> place tx).
  { intros y Hy E. rewrite app_assoc, fmap_app, fmap_cons in H6. apply NoDup_app in H6 as (_ & H6 & _). apply (H6 (place y)); [by apply list_elem_of_fmap_2|]. rewrite E. set_solver. }
  assert (Hnone : forall strict m, lists_ok strict m -> (forall y, y ∈ lists_txs m -> place y <> place tx) -> items_of m a !! tx_Nonce tx = None).
  { intros strict m Hm Hy. destruct (items_of m a !! tx_Nonce tx) as [y|] eqn:E; [|done]. destruct (items_of_ok strict m a Hm) as [Hk Hse]. destruct (Hk _ y E) as [En _]. exfalso. apply (Hy y).
    - apply (lists_txs_elem strict); [done|]. exists a. split; [by apply (Hse _ y E)|]. by rewrite En.
    - unfold place. by rewrite (Hse _ y E), Hs, En. }
  split; [apply (Hnone true pending H1)|apply (Hnone false queue H2)]; intros y Hy; apply Hno; set_solver.
Qed.
End invariant.

Arguments core {_ _ _} D F pending queue all priced.

(** * The operations *)

Section ops.
Context {CR : Crypto} {MA : Machine} {SG : Signer} {MR : MapRange} {D : list Transaction}.

#[local] Notation core := (core D).

(** The limits are positive, and fit the integers they are converted to. *)
Record config_ok (c : TxPoolConfig) : Prop := {
  cf_AccountSlots : 1 <= pc_AccountSlots c < 2 ^ 62;
  cf_GlobalSlots : 1 <= pc_GlobalSlots c < 2 ^ 62;
  cf_AccountQueue : 1 <= pc_AccountQueue c < 2 ^ 62;
  cf_GlobalQueue : 1 <= pc_GlobalQueue c < 2 ^ 62;
}.

Definition events_ok (e : gmap Address txSortedMap) : Prop := forall a m, e !! a = Some m -> sm_wf m.

(** The invariant with transactions in flight, for lists that an operation has changed and not yet put back. *)
Definition ginv (F : list Transaction) (pending queue : gmap Address txList) (p : TxPool) : Prop :=
  core F pending queue (tp_all p) (tp_priced p) /\ events_ok (tp_events p) /\ config_ok (tp_config p).

(** The invariant of the pool with transactions in flight. *)
Definition inv (F : list Transaction) (p : TxPool) : Prop := ginv F (tp_pending p) (tp_queue p) p.

(** The pending and the queued transactions of an account, and its next nonce. *)
Definition pend (p : TxPool) (a : Address) : gmap Z Transaction := items_of (tp_pending p) a.
Definition que (p : TxPool) (a : Address) : gmap Z Transaction := items_of (tp_queue p) a.
Definition next (p : TxPool) (a : Address) : Z := nonce_at (tp_pendingNonces p) a.

(** What most operations leave alone. *)
Record kept (p p' : TxPool) : Prop := {
  ke_config : tp_config p' = tp_config p;
  ke_chainconfig : tp_chainconfig p' = tp_chainconfig p;
  ke_state : tp_currentState p' = tp_currentState p;
  ke_gas : tp_currentMaxGas p' = tp_currentMaxGas p;
}.

Lemma kept_refl p : kept p p.
Proof. done. Qed.

Lemma kept_trans p q r : kept p q -> kept q r -> kept p r.
Proof. intros [] []. split; congruence. Qed.

Definition same_pending (p p' : TxPool) : Prop := (forall a, pend p' a = pend p a) /\ (forall a, next p' a = next p a).

Lemma same_pending_refl p : same_pending p p.
Proof. done. Qed.

Lemma same_pending_trans p q r : same_pending p q -> same_pending q r -> same_pending p r.
Proof. intros [H1 H2] [H3 H4]. split; intros a; [by rewrite H3|by rewrite H4]. Qed.

(** *** The shared steps *)

Lemma runs_priced_Removed F P Q n p (R : unit -> TxPool -> Prop) :
  ginv F P Q p -> (forall l, ginv F P Q (set_priced l p) -> ph_baseFee (pr_urgent l) = ph_baseFee (pr_urgent (tp_priced p)) -> R tt (set_priced l p)) -> runs (priced_Removed n) p R.
Proof.
  intros [Hc He] HR. destruct (pr_Removed_ok D (tp_all p) n (tp_priced p) (co_priced _ _ _ _ _ Hc)) as (l & E & Hl & Hb). exists tt, (set_priced l p).
  split; [unfold priced_Removed; by rewrite E|]. apply HR; [|done]. split; [|done]. by eapply core_priced.
Qed.

Lemma runs_remove_all F F' P Q txs p (R : unit -> TxPool -> Prop) :
  ginv (F ++ F') P Q p -> txs ≡ₚ F -> (forall t, ginv F' P Q (set_all t p) -> R tt (set_all t p)) -> runs (remove_all txs) p R.
Proof.
  intros Hi Hp HR. unfold remove_all. apply (runs_for_each (fun l p' => exists t, p' = set_all t p /\ ginv (l ++ F') P Q p')).
  - intros tx l p' (t & -> & [Hc He]). apply runs_modify. eexists. split; [done|]. split; [|done]. by apply core_drop.
  - exists (tp_all p). split; [by destruct p|]. destruct Hi as [Hc He]. split; [|done]. eapply core_perm; [done|]. by rewrite Hp.
  - intros p' (t & -> & H). by apply HR.
Qed.

(** *** Adding a transaction to a list *)

(** The list of an account with a transaction that has its place free. *)
Lemma add_free strict m a tx bump F : lists_ok strict m -> Sender tx = Some a -> valid tx -> items_of m a !! tx_Nonce tx = None ->
  exists l, tl_Add tx bump (default (newTxList strict) (m !! a)) = ((true, None), l) /\ list_ok strict a l /\ tl_items l = <[tx_Nonce tx := tx]> (items_of m a) /\
    tl_items l <> ∅ /\ values (items_of m a) ++ tx :: F ≡ₚ values (tl_items l) ++ F.
Proof.
  intros Hm Hs (_ & Hv & _) Hn. destruct (default_list strict m a Hm) as [[H1 H2 H3] Hi]. assert (Hv64 : 0 <= tx_Nonce tx < 2 ^ 64) by lia. pose proof (tl_Add_ok tx bump _ Hv64 H1) as H. destruct (tl_Add _ _ _) as [[inserted old] l]. destruct H as (Hw & Hst & H).
  rewrite Hi in H. destruct inserted; [|destruct H as (_ & _ & o & E & _); congruence]. destruct H as (-> & Hit & _). exists l. split; [by rewrite Hn|]. split; [|split; [done|]].
  - split; [done|congruence|]. rewrite Hit. intros n y [[<- <-]|[_ Hy]]%lookup_insert_Some; [done|]. rewrite <- Hi in Hy. by apply (H3 n).
  - rewrite Hit. split; [apply insert_non_empty|]. unfold values. rewrite (map_to_list_insert (items_of m a)) by done. cbn. by rewrite Permutation_middle.
Qed.

Lemma sender_eq tx a : Sender tx = Some a -> sender tx = a.
Proof. unfold sender. by intros ->. Qed.

Lemma ginv_valid F P Q p tx : ginv F P Q p -> tx ∈ F -> valid tx.
Proof. intros [Hc _] H. apply (co_valid _ _ _ _ _ Hc). rewrite (co_perm _ _ _ _ _ Hc). set_solver. Qed.

(** A transaction in flight is queued. *)
Lemma runs_enqueue_flight F P tx now p (R : bool * goerror -> TxPool -> Prop) : ginv (tx :: F) P (tp_queue p) p ->
  (forall p', ginv F P (tp_queue p') p' -> kept p p' -> tp_locals p' = tp_locals p -> tp_pending p' = tp_pending p -> tp_pendingNonces p' = tp_pendingNonces p -> tp_all p' = tp_all p -> R (false, None) p') ->
  runs (enqueueTx tx false false now) p R.
Proof.
  intros Hi HR. pose proof (ginv_valid _ _ _ p tx Hi ltac:(set_solver)) as Hv. destruct Hi as [Hc He]. destruct (proj1 Hv) as [a Ha]. destruct (core_flight tx F _ _ _ _ a Hc Ha) as [_ Hn].
  destruct (add_free false (tp_queue p) a tx (pc_PriceBump (tp_config p)) F (co_queue _ _ _ _ _ Hc) Ha Hv Hn) as (l & E & Hl & Hit & Hne & Hp).
  unfold enqueueTx. apply runs_bind, runs_pool_of. cbv zeta. rewrite (sender_eq tx a Ha), E. apply runs_bind, runs_modify. cbn [negb forget_old]. apply runs_bind, runs_ret, runs_bind, runs_ret, runs_bind, runs_modify, runs_ret.
  cbn [bool_decide]. apply HR; try done. split; [|done]. cbn. rewrite <- (put_list_nonempty (tp_queue p) a l Hne). by eapply core_queue_put.
Qed.

Lemma runs_enqueue_all F P txs now p (R : unit -> TxPool -> Prop) : ginv (txs ++ F) P (tp_queue p) p ->
  (forall p', ginv F P (tp_queue p') p' -> kept p p' -> tp_locals p' = tp_locals p -> tp_pending p' = tp_pending p -> tp_pendingNonces p' = tp_pendingNonces p -> tp_all p' = tp_all p -> R tt p') ->
  runs (enqueue_all txs now) p R.
Proof.
  intros Hi HR. unfold enqueue_all.
  apply (runs_for_each (fun l p' => ginv (l ++ F) P (tp_queue p') p' /\ kept p p' /\ tp_locals p' = tp_locals p /\ tp_pending p' = tp_pending p /\ tp_pendingNonces p' = tp_pendingNonces p /\ tp_all p' = tp_all p)).
  - intros tx l p' (H1 & H2 & H3 & H4 & H5 & H6). apply runs_bind, (runs_enqueue_flight (l ++ F) P); [done|]. intros p2 E1 E2 E3 E4 E5 E6. apply runs_ret. split; [done|]. split; [by eapply kept_trans|]. repeat split; congruence.
  - done.
  - intros p' (H1 & H2 & H3 & H4 & H5 & H6). by apply HR.
Qed.

(** *** Removing transactions *)

(** The pending transactions of an account from some nonce on are gone, and the next nonce is at most this nonce. *)
Definition cut_at (x x' : gmap Z Transaction) (n n' : Z) : Prop :=
  (x' = x /\ n' = n) \/ exists k, is_Some (x !! k) /\ x' = below k x /\ n' = Z.min k n.

Definition cuts (p p' : TxPool) : Prop := forall a, cut_at (pend p a) (pend p' a) (next p a) (next p' a).

Lemma same_pending_cuts p p' : same_pending p p' -> cuts p p'.
Proof. intros [H1 H2] a. left. by rewrite H1, H2. Qed.

Lemma below_below j k m : j <= k -> below j (below k m) = below j m.
Proof. intros H. apply map_eq. intros n. apply option_eq. intros tx. rewrite !below_lookup. split; [naive_solver|]. intros [? ?]. repeat split; try done. lia. Qed.

Lemma cut_at_trans x y z n m k : cut_at x y n m -> cut_at y z m k -> cut_at x z n k.
Proof.
  intros [[-> ->]|(i & Hi & -> & ->)] H; [done|]. destruct H as [[-> ->]|(j & [tx [Hj Hlt]%below_lookup] & -> & ->)]; [right; by exists i|].
  right. exists j. split; [by exists tx|]. split; [apply below_below; lia|lia].
Qed.

Lemma cuts_trans p q r : cuts p q -> cuts q r -> cuts p r.
Proof. intros H1 H2 a. by eapply cut_at_trans. Qed.

Lemma values_split t m : values m ≡ₚ values (below t m) ++ values (from t m).
Proof. unfold values, below, from. rewrite <- fmap_app, !map_to_list_filter. f_equiv. symmetry. apply filter_app_complement. Qed.

Lemma values_cut m n tx : m !! n = Some tx -> values m ≡ₚ values (below n m) ++ tx :: values (from (n + 1) m).
Proof.
  intros H. rewrite (values_split n m). f_equiv. rewrite (values_delete (from n m) n tx) by (apply from_lookup; split; [done|lia]). f_equiv. f_equiv. apply reflexive_eq, map_eq. intros k. apply option_eq. intros y.
  rewrite lookup_delete_Some, !from_lookup. split; [intros (? & ? & ?); split; [done|lia]|]. intros [? ?]. repeat split; try done; lia.
Qed.

(** There is one transaction at a place. *)
Lemma place_inj F p x y : inv F p -> x ∈ all_txs (tp_all p) -> y ∈ all_txs (tp_all p) -> place x = place y -> x = y.
Proof.
  intros [Hc _] Hx Hy E. pose proof (co_places _ _ _ _ _ Hc) as Hn. apply list_elem_of_lookup in Hx as [i Hi], Hy as [j Hj].
  assert (i = j) as <-; [|congruence]. eapply NoDup_lookup; [exact Hn|by rewrite list_lookup_fmap, Hi|by rewrite list_lookup_fmap, Hj, E].
Qed.

Lemma pend_all F p a n tx : inv F p -> pend p a !! n = Some tx -> tx ∈ all_txs (tp_all p) /\ place tx = (Some a, n).
Proof.
  intros [Hc _] H. destruct (items_of_ok true _ a (co_pending _ _ _ _ _ Hc)) as [Hk Hs]. destruct (Hk n tx H) as [<- _]. split; [|unfold place; by rewrite (Hs _ tx H)].
  rewrite (co_perm _ _ _ _ _ Hc), elem_of_app. left. apply (lists_txs_elem true); [apply Hc|]. exists a. split; [by apply (Hs _ tx H)|done].
Qed.

Lemma que_all F p a n tx : inv F p -> que p a !! n = Some tx -> tx ∈ all_txs (tp_all p) /\ place tx = (Some a, n).
Proof.
  intros [Hc _] H. destruct (items_of_ok false _ a (co_queue _ _ _ _ _ Hc)) as [Hk Hs]. destruct (Hk n tx H) as [<- _]. split; [|unfold place; by rewrite (Hs _ tx H)].
  rewrite (co_perm _ _ _ _ _ Hc), !elem_of_app. right. left. apply (lists_txs_elem false); [apply Hc|]. exists a. split; [by apply (Hs _ tx H)|done].
Qed.

Lemma pend_que_disjoint F p a n x : inv F p -> pend p a !! n = Some x -> que p a !! n = None.
Proof.
  intros Hi Hp. destruct (que p a !! n) as [y|] eqn:Hq; [|done]. exfalso. destruct Hi as [Hc He]. pose proof (co_places _ _ _ _ _ Hc) as Hn. rewrite (co_perm _ _ _ _ _ Hc), fmap_app in Hn. apply NoDup_app in Hn as (_ & Hn & _).
  destruct (items_of_ok true _ a (co_pending _ _ _ _ _ Hc)) as [Hk Hs]. destruct (items_of_ok false _ a (co_queue _ _ _ _ _ Hc)) as [Hk' Hs']. destruct (Hk n x Hp) as [En _], (Hk' n y Hq) as [En' _].
  apply (Hn (place x)); [apply list_elem_of_fmap_2, (lists_txs_elem true); [apply Hc|]; exists a; split; [by apply (Hs _ x Hp)|by rewrite En]|].
  assert (place x = place y) as -> by (unfold place; by rewrite (Hs _ x Hp), (Hs' _ y Hq), En, En'). rewrite fmap_app, elem_of_app. left.
  apply list_elem_of_fmap_2, (lists_txs_elem false); [apply Hc|]. exists a. split; [by apply (Hs' _ y Hq)|by rewrite En'].
Qed.

(** A transaction of the lookup is pending or queued when none is in flight. *)
Lemma all_listed p tx : inv [] p -> tx ∈ all_txs (tp_all p) -> exists a, Sender tx = Some a /\ (pend p a !! tx_Nonce tx = Some tx \/ que p a !! tx_Nonce tx = Some tx).
Proof.
  intros [Hc _] H. rewrite (co_perm _ _ _ _ _ Hc), app_nil_r, elem_of_app in H.
  destruct H as [H|H]; [apply (lists_txs_elem true) in H; [|apply Hc]|apply (lists_txs_elem false) in H; [|apply Hc]]; destruct H as (a & H1 & H2); exists a; split; auto.
Qed.

Lemma runs_maybe_Removed (b : bool) n p (Q : unit -> TxPool -> Prop) : priced_ok D (tp_all p) (tp_priced p) ->
  (forall l, priced_ok D (tp_all p) l -> ph_baseFee (pr_urgent l) = ph_baseFee (pr_urgent (tp_priced p)) -> Q tt (set_priced l p)) -> runs (if b then priced_Removed n else mret tt) p Q.
Proof.
  intros Hp HQ. destruct b.
  - destruct (pr_Removed_ok D (tp_all p) n (tp_priced p) Hp) as (l & E & Hl & Hb). exists tt, (set_priced l p). split; [unfold priced_Removed; by rewrite E|]. by apply HQ.
  - apply runs_ret. specialize (HQ (tp_priced p) Hp eq_refl). by destruct p.
Qed.

Lemma items_lookup m a n (tx : Transaction) : items_of m a !! n = Some tx -> exists l, m !! a = Some l /\ tl_items l = items_of m a.
Proof. unfold items_of. destruct (m !! a) as [l|]; [eauto|by rewrite lookup_empty]. Qed.

Lemma list_ok_sub strict a l l' : list_ok strict a l -> tl_wf l' -> tl_strict l' = tl_strict l -> tl_items l' ⊆ tl_items l -> list_ok strict a l'.
Proof. intros [H1 H2 H3] Hw Hs Hsub. split; [done|congruence|]. intros n tx H. apply (H3 n). by eapply lookup_weaken. Qed.

Lemma core_list strict m a l : lists_ok strict m -> m !! a = Some l -> list_ok strict a l.
Proof. intros H E. by apply H. Qed.

(** One queued transaction less. *)
Record unqueued (a : Address) (tx : Transaction) (p p' : TxPool) : Prop := {
  uq_kept : kept p p';
  uq_locals : tp_locals p' = tp_locals p;
  uq_pending : tp_pending p' = tp_pending p;
  uq_nonces : tp_pendingNonces p' = tp_pendingNonces p;
  uq_queue : forall b, que p' b = if decide (b = a) then delete (tx_Nonce tx) (que p b) else que p b;
  uq_count : length (lists_txs (tp_queue p)) = S (length (lists_txs (tp_queue p')));
}.

(** The queue loses a transaction that the lookup has lost before. *)
Lemma runs_remove_queued q all pr a tx (Q : unit -> TxPool -> Prop) :
  core [] (tp_pending q) (tp_queue q) all pr -> events_ok (tp_events q) /\ config_ok (tp_config q) -> tp_all q = lk_Remove (tx_Hash tx) all -> priced_ok D (tp_all q) (tp_priced q) ->
  que q a !! tx_Nonce tx = Some tx -> (forall p', inv [] p' -> unqueued a tx q p' -> tp_all p' = tp_all q -> Q tt p') ->
  runs (remove_queued a tx) q Q.
Proof.
  intros Hc He Ht Hpr Hq HQ. destruct (items_lookup (tp_queue q) a _ _ Hq) as (l & El & Hit). pose proof (core_list false _ a l (co_queue _ _ _ _ _ Hc) El) as Hl.
  destruct (tl_Remove_ok tx tx l (li_wf _ _ _ Hl)) as (inv' & l' & E & Hw & Hst & Heff); [by rewrite Hit|]. rewrite (li_strict _ _ _ Hl) in Heff. destruct Heff as [Hit' ->].
  assert (Hv : values (tl_items l) ≡ₚ tx :: values (tl_items l')) by (rewrite Hit'; apply values_delete; by rewrite Hit).
  unfold remove_queued. apply runs_bind, runs_pool_of. rewrite El. apply runs_bind. eapply runs_lift; [exact E|]. apply runs_modify. apply HQ; [|split; try done|done].
  - split; [|done]. cbn. eapply core_priced; [|exact Hpr]. rewrite Ht. apply core_drop.
    eapply core_queue_put; [exact Hc|by apply (list_ok_sub false a l); [done|done|done|rewrite Hit'; apply delete_subseteq]|].
    rewrite app_nil_r, <- Hit, Hv. solve_Permutation.
  - intros b. unfold que. cbn. rewrite put_list_items. destruct (decide (b = a)) as [->|]; [|done]. by rewrite Hit', Hit.
  - cbn. rewrite put_list_txs, (lists_txs_split (tp_queue q) a), <- Hit, Hv. done.
Qed.

(** A pending transaction is removed, and those after it are queued. *)
Lemma runs_remove_pending q all pr a l tx now (Q : unit -> TxPool -> Prop) :
  core [] (tp_pending q) (tp_queue q) all pr -> events_ok (tp_events q) /\ config_ok (tp_config q) -> tp_all q = lk_Remove (tx_Hash tx) all -> priced_ok D (tp_all q) (tp_priced q) ->
  tp_pending q !! a = Some l -> tl_items l !! tx_Nonce tx = Some tx ->
  (forall p', inv [] p' -> kept q p' -> tp_locals p' = tp_locals q -> cuts q p' -> tp_all p' = tp_all q -> Q tt p') ->
  exists invalids l', tl_Remove tx l = Some (true, invalids, l') /\
  runs (_ ← modify (fun p => set_pending (put_list a l' (tp_pending p)) p); _ ← enqueue_all invalids now; setIfLower a (tx_Nonce tx)) q Q.
Proof.
  intros Hc He Ht Hpr El Hn HQ. pose proof (core_list true _ a l (co_pending _ _ _ _ _ Hc) El) as Hl. assert (Hit : tl_items l = items_of (tp_pending q) a) by (unfold items_of; by rewrite El).
  destruct (tl_Remove_ok tx tx l (li_wf _ _ _ Hl) Hn) as (invalids & l' & E & Hw & Hst & Heff). rewrite (li_strict _ _ _ Hl) in Heff. destruct Heff as [Hit' Hinv].
  exists invalids, l'. split; [done|]. apply runs_bind, runs_modify, runs_bind, (runs_enqueue_all [] (put_list a l' (tp_pending q))).
  - split; [|done]. cbn. rewrite app_nil_r. eapply core_priced; [|exact Hpr]. rewrite Ht. apply core_drop.
    eapply core_pending_put; [exact Hc|apply (list_ok_sub true a l); [done|done|done|rewrite Hit'; apply map_filter_subseteq]|].
    rewrite app_nil_r, <- Hit, Hit', Hinv. by apply values_cut.
  - intros p' H1 H2 H3 H4 H5 H6. apply runs_modify. apply HQ; [|by destruct H2|done| |done]; [unfold inv; cbn; rewrite H4; exact H1|].
    intros b. unfold pend, next. cbn. rewrite H4, H5, tn_setIfLower_at. cbn. rewrite put_list_items. destruct (decide (b = a)) as [->|]; [|by left].
    right. exists (tx_Nonce tx). rewrite <- Hit. split; [eauto|]. by rewrite Hit'.
Qed.

Lemma runs_removeTx h oob now p (Q : unit -> TxPool -> Prop) : inv [] p ->
  (forall p', inv [] p' -> kept p p' -> tp_locals p' = tp_locals p -> cuts p p' -> tp_all p' = lk_Remove h (tp_all p) -> Q tt p') ->
  runs (removeTx h oob now) p Q.
Proof.
  intros Hi HQ. unfold removeTx. apply runs_bind, runs_pool_of. pose proof Hi as (Hc & He & Hcf). pose proof (co_all _ _ _ _ _ Hc) as Hall. destruct (lk_Get (tp_all p) h) as [tx|] eqn:Eg; cycle 1.
  { apply runs_ret. apply HQ; try done; [by apply same_pending_cuts|]. unfold lk_Remove. by rewrite Eg. }
  destruct (lk_Get_hash _ h tx Hall Eg) as [<- Hin]. destruct (all_listed p tx Hi Hin) as (a & Ha & Hpos). rewrite (sender_eq tx a Ha). destruct (lk_Remove_ok _ tx Hall Hin) as (_ & _ & Hsub).
  apply runs_bind, runs_modify, runs_bind, runs_maybe_Removed; [eapply priced_sub; [done|apply Hc]|]. intros pr Hpr _.
  set (q := set_priced pr _). assert (Hq : pend p a !! tx_Nonce tx = None -> runs (remove_queued a tx) q Q).
  { intros Hnone. destruct Hpos as [Hpos|Hpos]; [congruence|]. apply (runs_remove_queued q (tp_all p) (tp_priced p)); try done.
    intros p' H1 [H2 H3 H4 H5 _ _] H6. apply HQ; try done; [by destruct H2|]. apply same_pending_cuts. split; intros b; unfold pend, next; [by rewrite H4|by rewrite H5]. }
  destruct (pend p a !! tx_Nonce tx) as [y|] eqn:Ep; cycle 1.
  { destruct (tp_pending p !! a) as [l|] eqn:El; [|by apply Hq]. apply runs_bind. eapply runs_lift; [apply tl_Remove_none|by apply Hq]. unfold pend, items_of in Ep. by rewrite El in Ep. }
  assert (y = tx) as ->. { destruct (pend_all _ p a _ y Hi Ep) as [Hy Hpl]. apply (place_inj _ p y tx Hi Hy Hin). unfold place at 2. by rewrite Hpl, Ha. }
  destruct (items_lookup (tp_pending p) a _ _ Ep) as (l & El & Hit). rewrite El.
  destruct (runs_remove_pending q (tp_all p) (tp_priced p) a l tx now Q Hc (conj He Hcf) eq_refl Hpr El) as (invalids & l' & E & Hr); [by rewrite Hit|intros p' H1 H2 H3 H4 H5; by apply HQ; try done; destruct H2|].
  apply runs_bind. eapply runs_lift; [exact E|]. exact Hr.
Qed.

(** *** Promotion *)

Lemma put_list_put_list m a l l' : put_list a l (put_list a l' m) = put_list a l m.
Proof. unfold put_list. destruct (tl_Empty l), (tl_Empty l'); by rewrite ?delete_delete_eq, ?delete_insert_eq, ?insert_delete_eq, ?insert_insert_eq. Qed.

Lemma put_list_same m a l : m !! a = Some l -> tl_items l <> ∅ -> put_list a l m = m.
Proof. intros H Hne. rewrite put_list_nonempty by done. by apply insert_id. Qed.

(** The list of an account changes again. *)
Lemma ginv_queue_step F F' P Q a l l' p : ginv F P (put_list a l Q) p -> list_ok false a l' -> values (tl_items l) ++ F ≡ₚ values (tl_items l') ++ F' ->
  ginv F' P (put_list a l' Q) p.
Proof.
  intros [Hc He] Hl Hp. split; [|done]. rewrite <- (put_list_put_list Q a l' l). eapply core_queue_put; [done|done|]. rewrite put_list_items. by rewrite decide_True.
Qed.

Lemma ginv_pending_step F F' P Q a l l' p : ginv F (put_list a l P) Q p -> list_ok true a l' -> values (tl_items l) ++ F ≡ₚ values (tl_items l') ++ F' ->
  ginv F' (put_list a l' P) Q p.
Proof.
  intros [Hc He] Hl Hp. split; [|done]. rewrite <- (put_list_put_list P a l' l). eapply core_pending_put; [done|done|]. rewrite put_list_items. by rewrite decide_True.
Qed.

(** The map with more transactions. *)
Definition put_all (l : list Transaction) (m : gmap Z Transaction) : gmap Z Transaction := foldl (fun m tx => <[tx_Nonce tx := tx]> m) m l.
Definition nonce_after (l : list Transaction) (n : Z) : Z := foldl (fun _ tx => u64 (tx_Nonce tx + 1)) n l.

Lemma runs_promoteTx F Q a tx now p (R : bool -> TxPool -> Prop) : ginv (tx :: F) (tp_pending p) Q p -> Sender tx = Some a ->
  (forall p', ginv F (tp_pending p') Q p' -> kept p p' -> tp_locals p' = tp_locals p -> tp_queue p' = tp_queue p ->
    (forall b, pend p' b = if decide (b = a) then <[tx_Nonce tx := tx]> (pend p b) else pend p b) ->
    (forall b, next p' b = if decide (b = a) then u64 (tx_Nonce tx + 1) else next p b) -> R true p') ->
  runs (promoteTx a tx now) p R.
Proof.
  intros Hi Ha HR. pose proof (ginv_valid _ _ _ p tx Hi ltac:(set_solver)) as Hv. destruct Hi as [Hc He]. destruct (core_flight tx F _ _ _ _ a Hc Ha) as [Hn _].
  destruct (add_free true (tp_pending p) a tx (pc_PriceBump (tp_config p)) F (co_pending _ _ _ _ _ Hc) Ha Hv Hn) as (l & E & Hl & Hit & Hne & Hp).
  unfold promoteTx. apply runs_bind, runs_pool_of. cbv zeta. rewrite E. apply runs_bind, runs_modify. cbn [negb forget_old]. apply runs_bind, runs_ret, runs_bind, runs_modify, runs_bind, runs_modify, runs_ret.
  apply HR; try done.
  - split; [|done]. cbn. rewrite <- (put_list_nonempty (tp_pending p) a l Hne). by eapply core_pending_put.
  - intros b. unfold pend. cbn. rewrite insert_items, Hit. by destruct (decide (b = a)) as [->|].
  - intros b. unfold next. cbn. apply tn_set_at.
Qed.

Lemma runs_promote_all F Q a r now p (R : list Transaction -> TxPool -> Prop) : ginv (r ++ F) (tp_pending p) Q p -> (forall tx, tx ∈ r -> Sender tx = Some a) ->
  (forall p', ginv F (tp_pending p') Q p' -> kept p p' -> tp_locals p' = tp_locals p -> tp_queue p' = tp_queue p ->
    (forall b, pend p' b = if decide (b = a) then put_all r (pend p b) else pend p b) ->
    (forall b, next p' b = if decide (b = a) then nonce_after r (next p b) else next p b) -> R r p') ->
  runs (promote_all a r now) p R.
Proof.
  revert p R. induction r as [|tx r IH]; intros p R Hi Hs HR; cbn [promote_all].
  { apply runs_ret. apply HR; try done; intros b; cbn; by destruct (decide (b = a)). }
  apply runs_bind, (runs_promoteTx (r ++ F) Q); [done|by apply Hs; set_solver|]. intros p1 H1 H2 H3 H4 H5 H6. apply runs_bind, IH; [done|intros y Hy; apply Hs; set_solver|].
  intros p2 E1 E2 E3 E4 E5 E6. apply runs_ret. apply HR; [done|by eapply kept_trans|congruence|congruence| |]; intros b; [rewrite E5, H5|rewrite E6, H6]; by destruct (decide (b = a)).
Qed.

Lemma runs_pool_Nonce a p (R : Z -> TxPool -> Prop) :
  (forall t, (forall b, nonce_at t b = next p b) -> R (next p a) (set_nonces t p)) -> runs (pool_Nonce a) p R.
Proof.
  intros H. unfold runs, pool_Nonce. pose proof (fun b => tn_get_at a (tp_pendingNonces p) b) as Ht. destruct (tn_get a (tp_pendingNonces p)) as [n t] eqn:E. destruct (Ht a) as [Hn _]. cbn in Hn. subst n.
  eexists _, _. split; [done|]. apply H. intros b. by destruct (Ht b).
Qed.

Lemma values_pick f m : values m ≡ₚ values (keep f m) ++ values (pick f m).
Proof.
  unfold values, keep, pick. rewrite <- fmap_app, !map_to_list_filter. f_equiv. rewrite <- (filter_app_complement (fun kv => f kv.2 = false) (map_to_list m)) at 1. f_equiv.
  apply reflexive_eq, list_filter_iff. intros [n tx]. cbn. by rewrite not_false_iff_true.
Qed.

(** Transactions with nonces that follow each other. *)
Definition is_run (n : Z) (r : list Transaction) : Prop := forall i tx, r !! i = Some tx -> tx_Nonce tx = n + Z.of_nat i.

Lemma consecutive_run n l : is_run n (consecutive n l).
Proof.
  revert n. induction l as [|tx l IH]; intros n i y H; cbn [consecutive] in H; [by rewrite lookup_nil in H|]. destruct (Z.eqb_spec (tx_Nonce tx) n) as [E|]; [|by rewrite lookup_nil in H].
  destruct i as [|i]; cbn in H; [simplify_eq; lia|]. rewrite (IH _ i y H). lia.
Qed.

(** What can be promoted: payable transactions that start no later than the next nonce. *)
Definition promotable (p : TxPool) (a : Address) (r : list Transaction) : Prop :=
  (forall tx, tx ∈ r -> que p a !! tx_Nonce tx = Some tx /\ unpayable (cs_GetBalance (tp_currentState p) a) (tp_currentMaxGas p) tx = false) /\
  (r = [] \/ exists n, cs_GetNonce (tp_currentState p) a <= n <= next p a /\ is_run n r).

Lemma ready_run start items :
  ready_txs start items = [] \/ exists n, n <= start /\ is_run n (ready_txs start items) /\ exists tx, n = tx_Nonce tx /\ tx ∈ sorted items.
Proof.
  unfold ready_txs. destruct (sorted items) as [|tx l]; [by left|]. destruct (Z.ltb_spec start (tx_Nonce tx)); [by left|]. right.
  exists (tx_Nonce tx). split; [done|]. split; [apply consecutive_run|]. exists tx. split; [done|]. set_solver.
Qed.

Lemma runs_cap_maybe (b : bool) k l p (R : list Transaction * txList -> TxPool -> Prop) : tl_wf l -> 0 <= k ->
  (forall caps l', tl_wf l' -> tl_strict l' = tl_strict l -> tl_items l' ⊆ tl_items l -> values (tl_items l) ≡ₚ values (tl_items l') ++ caps ->
    (b = false -> Z.of_nat (size (tl_items l')) <= k) -> R (caps, l') p) ->
  runs (if b then mret ([], l) else lift (tl_Cap k l)) p R.
Proof.
  intros Hw Hk HR. destruct b; [apply runs_ret; apply HR; try done; by rewrite app_nil_r|]. destruct (tl_Cap_ok k l Hk Hw) as (l' & E & H1 & H2 & H3 & H4).
  eapply runs_lift; [exact E|]. apply HR; try done; [|intros _; rewrite <- sorted_length, H4, length_take; lia]. rewrite <- (sorted_perm (tl_items l)), <- (sorted_perm (tl_items l')), H4.
  rewrite reverse_Permutation. by rewrite take_drop.
Qed.

Lemma runs_promote_account a now p (R : list Transaction -> TxPool -> Prop) : inv [] p ->
  (forall r p', inv [] p' -> kept p p' -> tp_locals p' = tp_locals p -> promotable p a r ->
    (forall b, pend p' b = if decide (b = a) then put_all r (pend p b) else pend p b) ->
    (forall b, next p' b = if decide (b = a) then nonce_after r (next p b) else next p b) -> R r p') ->
  runs (promote_account a now) p R.
Proof.
  intros Hi HR. unfold promote_account. apply runs_bind, runs_pool_of. destruct (tp_queue p !! a) as [l|] eqn:El; cycle 1.
  { apply runs_ret. apply HR; try done; [|intros b; by destruct (decide (b = a))..]. split; [by intros tx ?%elem_of_nil|by left]. }
  pose proof Hi as (Hc & He & Hcf). destruct (co_queue _ _ _ _ _ Hc a l El) as [Hl Hne]. assert (Hq : que p a = tl_items l) by (unfold que, items_of; by rewrite El).
  assert (H0 : ginv [] (tp_pending p) (put_list a l (tp_queue p)) p) by by rewrite (put_list_same _ a l El Hne).
  set (s := cs_GetNonce (tp_currentState p) a). destruct (tl_Forward_ok s l (li_wf _ _ _ Hl)) as (l1 & E1 & Hw1 & Hs1 & Hit1).
  assert (Hl1 : list_ok false a l1) by (apply (list_ok_sub false a l); [done|done|done|rewrite Hit1; apply map_filter_subseteq]).
  apply runs_bind. eapply runs_lift; [exact E1|]. apply runs_bind. eapply (runs_remove_all _ []); [|reflexivity|].
  { rewrite app_nil_r. eapply ginv_queue_step; [exact H0|exact Hl1|]. rewrite app_nil_r, Hit1, sorted_perm, (values_split s (tl_items l)). solve_Permutation. }
  intros t1 H1. set (c := cs_GetBalance (tp_currentState p) a). set (g := tp_currentMaxGas p). pose proof (tl_Filter_ok c g l1 Hw1) as HF. cbv zeta in HF.
  destruct (tl_Filter c g l1) as [[drops inv'] l2]. destruct HF as (Hw2 & Hs2 & Hdr & Heff). rewrite (li_strict _ _ _ Hl1) in Heff. destruct Heff as [Hit2 _].
  assert (Hl2 : list_ok false a l2) by (apply (list_ok_sub false a l1); [done|done|done|rewrite Hit2; apply map_filter_subseteq]).
  apply runs_bind. eapply (runs_remove_all _ []); [|reflexivity|].
  { rewrite app_nil_r. eapply ginv_queue_step; [exact H1|exact Hl2|]. rewrite app_nil_r, Hit2, Hdr. apply values_pick. }
  intros t2 H2. apply runs_bind, runs_pool_Nonce. intros tn Htn. change (next _ a) with (next p a).
  destruct (tl_Ready_ok (next p a) l2 Hw2) as (l3 & E3 & Hw3 & Hs3 & Hsub3 & Hsort). set (r := ready_txs (next p a) (tl_items l2)) in *.
  assert (Hl3 : list_ok false a l3) by by apply (list_ok_sub false a l2).
  assert (Hr : forall tx, tx ∈ r -> tl_items l2 !! tx_Nonce tx = Some tx) by (intros tx Htx; apply sorted_elem; [by apply tl_keyed|rewrite Hsort; set_solver]).
  apply runs_bind. eapply runs_lift; [exact E3|]. apply runs_bind, (runs_promote_all [] (put_list a l3 (tp_queue p)) a r).
  { rewrite app_nil_r. eapply (ginv_queue_step [] r _ _ a l2 l3); [exact H2|exact Hl3|]. rewrite app_nil_r, <- !sorted_perm, Hsort. solve_Permutation. }
  { intros tx Htx. apply (li_sender _ _ _ Hl2 (tx_Nonce tx)). by apply Hr. }
  intros p3 H3 Hk3 Hloc3 Hq3 Hp3 Hn3. apply runs_bind, runs_cap_maybe; [done|pose proof (cf_AccountQueue _ Hcf); unfold i64; rewrite Z.mod_small; lia|].
  intros caps l4 Hw4 Hs4 Hsub4 Hv4 _. assert (Hl4 : list_ok false a l4) by by apply (list_ok_sub false a l3). apply runs_bind. eapply (runs_remove_all _ []); [|reflexivity|].
  { rewrite app_nil_r. eapply ginv_queue_step; [exact H3|exact Hl4|]. by rewrite app_nil_r. }
  intros t4 H4. apply runs_bind. eapply runs_priced_Removed; [exact H4|]. intros pr Hpr _. apply runs_bind, runs_modify, runs_ret. apply HR.
  - destruct Hpr as [Hcc Hee]. split; [|exact Hee]. cbn. by rewrite Hq3.
  - by destruct Hk3.
  - done.
  - split.
    + intros tx Htx. specialize (Hr tx Htx). rewrite Hit2, Hit1 in Hr. apply keep_lookup in Hr as [[Hr _]%from_lookup Hu]. by rewrite Hq.
    + destruct (ready_run (next p a) (tl_items l2)) as [E|(n & Hn & Hrun & tx & -> & Htx)]; [by left|]. right. exists (tx_Nonce tx). split; [|done]. split; [|done].
      apply sorted_elem in Htx; [|by apply tl_keyed]. rewrite Hit2, Hit1 in Htx. by apply keep_lookup in Htx as [[_ Hle]%from_lookup _].
  - intros b. specialize (Hp3 b). unfold pend in *. cbn in *. by rewrite Hp3.
  - intros b. specialize (Hn3 b). unfold next in *. cbn in *. rewrite Hn3. by rewrite Htn.
Qed.

(** A promotion of the transactions [r] of an account. *)
Record promotes (a : Address) (r : list Transaction) (p p' : TxPool) : Prop := {
  pm_able : promotable p a r;
  pm_pend : forall b, pend p' b = if decide (b = a) then put_all r (pend p b) else pend p b;
  pm_next : forall b, next p' b = if decide (b = a) then nonce_after r (next p b) else next p b;
}.

Lemma runs_promoteExecutables (I : TxPool -> Prop) accounts now p (R : list Transaction -> TxPool -> Prop) :
  (forall a r q q', inv [] q -> I q -> inv [] q' -> kept q q' -> tp_locals q' = tp_locals q -> promotes a r q q' -> I q') ->
  inv [] p -> I p -> (forall r p', inv [] p' -> I p' -> kept p p' -> tp_locals p' = tp_locals p -> Forall valid r -> R r p') -> runs (promoteExecutables accounts now) p R.
Proof.
  intros Hstep. revert p R. induction accounts as [|a accounts IH]; intros p R Hi HI HR; cbn [promoteExecutables]; [apply runs_ret; by apply HR|].
  apply runs_bind, runs_promote_account; [done|]. intros r p1 H1 H2 H3 H4 H5 H6. apply runs_bind, IH; [done|by apply (Hstep a r p p1)|]. intros r' p2 E1 E2 E3 E4 E5. apply runs_ret.
  apply HR; [done|done|by eapply kept_trans|congruence|]. apply Forall_app. split; [|done]. apply Forall_forall. intros tx Htx. destruct (proj1 H4 tx Htx) as [Hq _].
  destruct (que_all _ p a _ tx Hi Hq) as [Hin _]. by apply (co_valid _ _ _ _ _ (proj1 Hi)).
Qed.

(** *** Demotion *)

(** The pending transactions that stay executable in a state. *)
Definition executable (s : ChainState) (gas : Z) (a : Address) (m : gmap Z Transaction) : gmap Z Transaction :=
  let m1 := from (cs_GetNonce s a) m in
  let m2 := below (first_nonce (pick (unpayable (cs_GetBalance s a) gas) m1)) m1 in
  if decide (is_Some (m2 !! cs_GetNonce s a)) then m2 else ∅.

Lemma values_strict_filter f m : keyed m -> let k := first_nonce (pick f m) in values m ≡ₚ values (below k m) ++ values (pick f m) ++ values (keep f (from k m)).
Proof.
  intros Hk k. destruct (keep_below f m k Hk eq_refl) as [E1 E2]. rewrite (values_pick f m), (values_pick (fun tx => k <? tx_Nonce tx) (keep f m)), E1, E2. solve_Permutation.
Qed.

Lemma runs_gapped nonce l p (R : list Transaction * txList -> TxPool -> Prop) : tl_wf l ->
  (forall gapped l', tl_wf l' -> tl_strict l' = tl_strict l -> tl_items l' ⊆ tl_items l -> values (tl_items l) ≡ₚ values (tl_items l') ++ gapped ->
    tl_items l' = (if decide (is_Some (tl_items l !! nonce)) then tl_items l else ∅) -> R (gapped, l') p) ->
  runs (if (0 <? tl_Len l) && negb (bool_decide (is_Some (sm_Get (tl_txs l) nonce))) then lift (tl_Cap 0 l) else mret ([], l)) p R.
Proof.
  intros Hw HR. unfold sm_Get. fold (tl_items l). unfold tl_Len, sm_Len. fold (tl_items l). destruct (decide (is_Some (tl_items l !! nonce))) as [Hs|Hs].
  { rewrite bool_decide_eq_true_2, andb_false_r by done. apply runs_ret. apply HR; try done. by rewrite app_nil_r. }
  rewrite bool_decide_eq_false_2, andb_true_r by done. destruct (Z.ltb_spec 0 (Z.of_nat (size (tl_items l)))).
  - destruct (tl_Cap_ok 0 l ltac:(lia) Hw) as (l' & E & H1 & H2 & H3 & H4). assert (Hemp : tl_items l' = ∅) by (apply map_size_empty_iff; rewrite <- sorted_length, H4; done).
    eapply runs_lift; [exact E|]. apply HR; try done. rewrite Hemp, reverse_Permutation, drop_0, sorted_perm. done.
  - assert (Hemp : tl_items l = ∅) by (apply map_size_empty_iff; lia). apply runs_ret. apply HR; try done. by rewrite app_nil_r.
Qed.

Lemma runs_demote_account a now p (R : unit -> TxPool -> Prop) : inv [] p ->
  (forall p', inv [] p' -> kept p p' -> tp_locals p' = tp_locals p -> (forall b, next p' b = next p b) ->
    (forall b, pend p' b = if decide (b = a) then executable (tp_currentState p) (tp_currentMaxGas p) a (pend p b) else pend p b) -> R tt p') ->
  runs (demote_account a now) p R.
Proof.
  intros Hi HR. unfold demote_account. apply runs_bind, runs_pool_of. destruct (tp_pending p !! a) as [l|] eqn:El; cycle 1.
  { apply runs_ret. apply HR; try done. intros b. destruct (decide (b = a)) as [->|]; [|done]. unfold pend, items_of. rewrite El. unfold executable, from, below. rewrite !map_filter_empty. by case_decide. }
  pose proof Hi as (Hc & He & Hcf). destruct (co_pending _ _ _ _ _ Hc a l El) as [Hl Hne]. assert (Hq : pend p a = tl_items l) by (unfold pend, items_of; by rewrite El).
  assert (H0 : ginv [] (put_list a l (tp_pending p)) (tp_queue p) p) by by rewrite (put_list_same _ a l El Hne).
  set (s := cs_GetNonce (tp_currentState p) a). destruct (tl_Forward_ok s l (li_wf _ _ _ Hl)) as (l1 & E1 & Hw1 & Hs1 & Hit1).
  assert (Hl1 : list_ok true a l1) by (apply (list_ok_sub true a l); [done|done|done|rewrite Hit1; apply map_filter_subseteq]).
  apply runs_bind. eapply runs_lift; [exact E1|]. apply runs_bind. eapply (runs_remove_all _ []); [|reflexivity|].
  { rewrite app_nil_r. eapply ginv_pending_step; [exact H0|exact Hl1|]. rewrite app_nil_r, Hit1, sorted_perm, (values_split s (tl_items l)). solve_Permutation. }
  intros t1 H1. set (c := cs_GetBalance (tp_currentState p) a). set (g := tp_currentMaxGas p). pose proof (tl_Filter_ok c g l1 Hw1) as HF. cbv zeta in HF.
  destruct (tl_Filter c g l1) as [[drops invalids] l2]. destruct HF as (Hw2 & Hs2 & Hdr & Heff). rewrite (li_strict _ _ _ Hl1) in Heff. destruct Heff as [Hit2 Hinv].
  assert (Hl2 : list_ok true a l2) by (apply (list_ok_sub true a l1); [done|done|done|rewrite Hit2; apply map_filter_subseteq]). set (k := first_nonce (pick (unpayable c g) (tl_items l1))) in *.
  apply runs_bind. eapply (runs_remove_all _ invalids (put_list a l2 (tp_pending p)) (tp_queue p)); [|reflexivity|].
  { eapply ginv_pending_step; [exact H1|exact Hl2|]. rewrite app_nil_r, Hit2, Hdr, Hinv. apply values_strict_filter. by apply tl_keyed. }
  intros t2 H2. apply runs_bind, (runs_enqueue_all [] (put_list a l2 (tp_pending p))); [by rewrite app_nil_r|]. intros p3 H3 Hk3 Hloc3 Hp3 Hn3 _.
  apply runs_bind, runs_gapped; [done|]. intros gapped l4 Hw4 Hs4 Hsub4 Hv4 Hit4. assert (Hl4 : list_ok true a l4) by by apply (list_ok_sub true a l2).
  apply runs_bind, (runs_enqueue_all [] (put_list a l4 (tp_pending p))).
  { rewrite app_nil_r. eapply ginv_pending_step; [exact H3|exact Hl4|]. by rewrite app_nil_r. }
  intros p5 H5 Hk5 Hloc5 Hp5 Hn5 _. apply runs_modify. assert (Hpp : tp_pending p5 = tp_pending p) by (rewrite Hp5, Hp3; done). apply HR.
  - unfold inv. cbn. rewrite Hpp. exact H5.
  - apply (kept_trans p p3); [by destruct Hk3|]. by destruct Hk5.
  - cbn. rewrite Hloc5, Hloc3. done.
  - intros b. unfold next. cbn. rewrite Hn5, Hn3. done.
  - intros b. unfold pend. cbn. rewrite Hpp, put_list_items. destruct (decide (b = a)) as [->|]; [|done]. rewrite Hit4, Hit2. fold (pend p a). rewrite Hq. unfold executable. fold s c g. unfold k. rewrite Hit1. done.
Qed.
End ops.

Arguments ginv {_ _ _} D F pending queue p.
Arguments inv {_ _ _} D F p.
