(* ===== verification/TxPoolLimits.v ===== *)
(** The limits of the transaction pool: [truncatePending] and [truncateQueue].

    Shown: both keep the invariant and do not panic; after them the pool is within its
    limits, or only accounts with a right to more are above. *)
From S2P Require Import Prelude Common Params Wormholes StateTypes State StateDB Staking Evm Transition Rlp Heap TxTypes TxList TxListProps TxPriced TxPricedProps HeaderRules TxPool TxPoolOps.

Open Scope Z_scope.

Section limits.
Context {CR : Crypto} {MA : Machine} {SG : Signer} {MR : MapRange}.

#[local] Notation inv := (inv []).
#[local] Notation core := (core []).

(** ** Pending transactions *)

Lemma sorted_below_last m l tx : keyed m -> sorted m = l ++ [tx] -> sorted (below (tx_Nonce tx) m) = l /\ delete (tx_Nonce tx) m = below (tx_Nonce tx) m.
Proof.
  intros Hk E. destruct (sorted_last m l tx Hk E) as [Htx Hd]. assert (Hb : delete (tx_Nonce tx) m = below (tx_Nonce tx) m); [|by rewrite <- Hb].
  apply map_eq. intros n. apply option_eq. intros y. rewrite lookup_delete_Some, below_lookup. split; [|intros [? ?]; split; [lia|done]]. intros [Hne Hy]. split; [done|]. destruct (Hk n y Hy) as [En _].
  assert (Hin : y ∈ sorted m) by (apply sorted_elem; [done|by rewrite En]). pose proof (sorted_sorted m) as Hs. rewrite E in Hin, Hs. apply StronglySorted_app in Hs as (Hs & _).
  apply elem_of_app in Hin as [Hin|Hin%list_elem_of_singleton]; [specialize (Hs y tx Hin ltac:(set_solver)); unfold nonce_le in Hs; lia|congruence].
Qed.

(** Equal sorted lists come from equal maps. *)
Lemma sorted_inj m m' : keyed m -> keyed m' -> sorted m = sorted m' -> m = m'.
Proof.
  intros Hk Hk' E. apply map_eq. intros n. apply option_eq. intros tx. split; intros H.
  - destruct (Hk n tx H) as [En _]. rewrite <- En in *. apply sorted_elem; [done|]. rewrite <- E. by apply sorted_elem.
  - destruct (Hk' n tx H) as [En _]. rewrite <- En in *. apply sorted_elem; [done|]. rewrite E. by apply sorted_elem.
Qed.

(** The last transaction of a list is capped. *)
Lemma tl_Cap_last l : tl_wf l -> tl_items l <> ∅ -> exists tx l', tl_Cap (tl_Len l - 1) l = Some ([tx], l') /\ tl_wf l' /\ tl_strict l' = tl_strict l /\
  tl_items l !! tx_Nonce tx = Some tx /\ tl_items l' = below (tx_Nonce tx) (tl_items l) /\ values (tl_items l) ≡ₚ values (tl_items l') ++ [tx] /\ size (tl_items l) = S (size (tl_items l')).
Proof.
  intros Hw Hne. pose proof (tl_keyed l Hw) as Hk. unfold tl_Len, sm_Len. fold (tl_items l). assert (Hsz : (0 < size (tl_items l))%nat) by (destruct (size (tl_items l)) eqn:E; [|lia]; by apply map_size_empty_iff in E).
  assert (Hge : 0 <= Z.of_nat (size (tl_items l)) - 1) by (revert Hsz; set (z := size (tl_items l)); lia).
  destruct (tl_Cap_ok (Z.of_nat (size (tl_items l)) - 1) l Hge Hw) as (l' & E & H1 & H2 & H3 & H4). pose proof (sorted_length (tl_items l)) as Hlen.
  destruct (sorted (tl_items l)) as [|tx s _] eqn:Es using rev_ind; [cbn in Hlen; lia|]. rewrite length_app in Hlen. cbn in Hlen.
  replace (Z.to_nat (Z.of_nat (size (tl_items l)) - 1)) with (length s) in * by lia. rewrite drop_app_length in E. rewrite take_app_length in H4. destruct (sorted_below_last _ s tx Hk Es) as [E1 E2]. destruct (sorted_last _ s tx Hk Es) as [Htx _].
  assert (Hit : tl_items l' = below (tx_Nonce tx) (tl_items l)) by (apply sorted_inj; [by apply tl_keyed|by apply below_keyed|congruence]).
  exists tx, l'. split; [done|]. split; [done|]. split; [done|]. split; [done|]. split; [done|]. split; [by rewrite <- !sorted_perm, Es, H4|]. rewrite <- (sorted_length (tl_items l')), H4. lia.
Qed.

(** One pending transaction less. *)
Record capped (a : Address) (p p' : TxPool) : Prop := {
  ca_kept : kept p p';
  ca_locals : tp_locals p' = tp_locals p;
  ca_cuts : cuts p p';
  ca_queue : tp_queue p' = tp_queue p;
  ca_size : S (size (pend p' a)) = size (pend p a);
  ca_other : forall b, b <> a -> pend p' b = pend p b;
  ca_count : length (lists_txs (tp_pending p)) = S (length (lists_txs (tp_pending p')));
}.

Lemma runs_cap_one a p (R : unit -> TxPool -> Prop) : inv [] p -> (1 < size (pend p a))%nat -> (forall p', inv [] p' -> capped a p p' -> R tt p') -> runs (cap_one a) p R.
Proof.
  intros Hi Hsz HR. unfold cap_one. apply runs_bind, runs_pool_of. pose proof Hi as (Hc & He & Hcf). destruct (tp_pending p !! a) as [l|] eqn:El; [|unfold pend, items_of in Hsz; rewrite El, map_size_empty in Hsz; lia].
  assert (Hq : pend p a = tl_items l) by (unfold pend, items_of; by rewrite El). destruct (co_pending _ _ _ _ _ Hc a l El) as [Hl Hne].
  destruct (tl_Cap_last l (li_wf _ _ _ Hl) Hne) as (tx & l' & E & Hw & Hs & Htx & Hit & Hv & Hsize).
  assert (Hl' : list_ok true a l') by (apply (list_ok_sub true a l); [done|done|done|rewrite Hit; apply map_filter_subseteq]).
  assert (Hne' : tl_items l' <> ∅) by (intros Ee; rewrite Hq, Hsize, Ee, map_size_empty in Hsz; lia).
  apply runs_bind. eapply runs_lift; [done|]. apply runs_bind. eapply runs_lift; [exact E|]. apply runs_bind, runs_modify. rewrite <- (put_list_nonempty (tp_pending p) a l' Hne').
  apply runs_bind. cbn [for_each]. apply runs_bind, runs_bind, runs_modify, runs_modify, runs_ret.
  eapply (runs_priced_Removed [] (put_list a l' (tp_pending p)) (tp_queue p)).
  { split; [|done]. cbn. apply core_drop. eapply core_pending_put; [exact Hc|done|]. unfold pend in Hq. by rewrite app_nil_r, Hq. }
  intros pr Hpr _. apply HR; [exact Hpr|]. split; try done.
  - intros b. unfold pend, next. cbn. rewrite put_list_items, tn_setIfLower_at. destruct (decide (b = a)) as [->|]; [|by left]. right. exists (tx_Nonce tx). fold (pend p a). rewrite Hq. split; [eauto|]. by rewrite Hit.
  - unfold pend. cbn. rewrite put_list_items, decide_True by done. fold (pend p a). by rewrite Hq, Hsize.
  - intros b Hb. unfold pend. cbn. by rewrite put_list_items, decide_False.
  - cbn. rewrite put_list_txs, (lists_txs_split (tp_pending p) a). unfold pend in Hq. rewrite Hq, Hv, !length_app. cbn. lia.
Qed.

(** The number of pending transactions. *)
Definition pending_count (p : TxPool) : Z := Z.of_nat (length (lists_txs (tp_pending p))).

(** Pending transactions are dropped, the queue stays. *)
Record trimmed (p p' : TxPool) : Prop := {
  tr_kept : kept p p';
  tr_locals : tp_locals p' = tp_locals p;
  tr_cuts : cuts p p';
  tr_queue : tp_queue p' = tp_queue p;
  tr_count : pending_count p' <= pending_count p;
}.

Lemma trimmed_refl p : trimmed p p.
Proof. split; try done. by apply same_pending_cuts. Qed.

Lemma trimmed_trans p q r : trimmed p q -> trimmed q r -> trimmed p r.
Proof. intros [H1 H2 H3 H4 H5] [E1 E2 E3 E4 E5]. split; [by eapply kept_trans|congruence|by eapply cuts_trans|congruence|lia]. Qed.

Lemma capped_trimmed a p p' : capped a p p' -> trimmed p p'.
Proof. intros [? ? ? ? ? ? E]. split; try done. unfold pending_count. lia. Qed.

Lemma u64_pred x y : x = u64 y -> u64 (x - 1) = u64 (y - 1).
Proof. intros ->. unfold u64. by rewrite Zminus_mod_idemp_l. Qed.

Lemma runs_cap_round addrs n p (R : Z -> TxPool -> Prop) : inv [] p -> NoDup addrs -> (forall a, a ∈ addrs -> (1 < size (pend p a))%nat) -> n = u64 (pending_count p) ->
  (forall n' p', inv [] p' -> trimmed p p' -> n' = u64 (pending_count p') -> (forall a, a ∈ addrs -> S (size (pend p' a)) = size (pend p a)) ->
    (forall b, b ∉ addrs -> pend p' b = pend p b) -> R n' p') ->
  runs (cap_round addrs n) p R.
Proof.
  revert n p R. induction addrs as [|a addrs IH]; intros n p R Hi Hnd Hsz Hn HR; cbn [cap_round].
  { apply runs_ret. apply HR; try done; [apply trimmed_refl|]. by intros a ?%elem_of_nil. }
  apply NoDup_cons in Hnd as [Ha Hnd]. apply runs_bind, runs_cap_one; [done|apply Hsz; set_solver|]. intros p1 H1 Hc. pose proof (ca_other _ _ _ Hc) as Ho. apply IH; [done|done| | |].
  - intros b Hb. rewrite Ho by (intros ->; done). apply Hsz. set_solver.
  - rewrite (u64_pred n (pending_count p) Hn). f_equal. unfold pending_count. rewrite (ca_count _ _ _ Hc). lia.
  - intros n' p2 E1 E2 E3 E4 E5. apply HR; [done|eapply trimmed_trans; [by eapply capped_trimmed|done]|done| |].
    + intros b [->|Hb]%elem_of_cons; [rewrite E5 by done; apply (ca_size _ _ _ Hc)|]. rewrite E4 by done. f_equal. apply Ho. by intros ->.
    + intros b Hb. rewrite E5 by set_solver. apply Ho. set_solver.
Qed.

(** All of the accounts have the same number of pending transactions. *)
Definition level (p : TxPool) (addrs : list Address) (n : Z) : Prop := forall a, a ∈ addrs -> Z.of_nat (size (pend p a)) = n.

Lemma runs_pending_Len a p (R : Z -> TxPool -> Prop) : (0 < size (pend p a))%nat -> R (Z.of_nat (size (pend p a))) p -> runs (pending_Len a) p R.
Proof.
  intros H HR. unfold pending_Len. apply runs_bind, runs_pool_of. unfold pend, items_of in *. destruct (tp_pending p !! a) as [l|]; [|rewrite map_size_empty in H; lia].
  apply runs_bind. eapply runs_lift; [done|]. by apply runs_ret.
Qed.

Lemma runs_cap_rounds fuel addrs lst t n k p (R : Z -> TxPool -> Prop) : inv [] p -> NoDup addrs -> lst ∈ addrs -> 1 <= t -> level p addrs k -> 1 <= k -> k <= Z.of_nat fuel + t -> n = u64 (pending_count p) ->
  (forall n' k' p', inv [] p' -> trimmed p p' -> n' = u64 (pending_count p') -> level p' addrs k' -> Z.min k t <= k' <= k -> n' <= pc_GlobalSlots (tp_config p) \/ k' <= t ->
    (forall b, b ∉ addrs -> pend p' b = pend p b) -> R n' p') ->
  runs (cap_rounds fuel addrs lst t n) p R.
Proof.
  revert n k p R. induction fuel as [|fuel IH]; intros n k p R Hi Hnd Hl Ht Hlev Hk Hf Hn HR; cbn [cap_rounds].
  { apply runs_ret. apply (HR n k); try done; [apply trimmed_refl|lia|right; lia]. }
  apply runs_bind, runs_pool_of. destruct (Z.ltb_spec (pc_GlobalSlots (tp_config p)) n); cbn [negb]; [|apply runs_ret; apply (HR n k); try done; [apply trimmed_refl|lia|by left]].
  pose proof (Hlev lst Hl) as Hlst. apply runs_bind, runs_pending_Len; [lia|]. rewrite Hlst. destruct (Z.ltb_spec t k); cbn [negb]; [|apply runs_ret; apply (HR n k); try done; [apply trimmed_refl|lia|by right]].
  apply runs_bind, runs_cap_round; try done; [intros a Ha; specialize (Hlev a Ha); lia|]. intros n1 p1 H1 H2 H3 H4 H5. apply (IH n1 (k - 1)); try done; [|lia|lia|].
  - intros a Ha. specialize (H4 a Ha). specialize (Hlev a Ha). lia.
  - intros n' k' p' E1 E2 E3 E4 E5 E6 E7. apply (HR n' k'); [done|by eapply trimmed_trans|done|done|lia| |].
    + by rewrite <- (ke_config _ _ (tr_kept _ _ H2)).
    + intros b Hb. by rewrite E7, H5.
Qed.

#[local] Instance prqueLess_order : WeakOrder prqueLess.
Proof. split; unfold prqueLess; intros; lia. Qed.

(** The queue of offenders: the accounts with too many pending transactions, with their numbers. *)
Definition spammers_ok (p : TxPool) (spammers : list (Address * Z)) : Prop :=
  forall x, x ∈ spammers -> Z.of_nat (size (pend p x.1)) = x.2 /\ pc_AccountSlots (tp_config p) < x.2.

(** The accounts taken so far are level, and no other has more. *)
Definition taken_ok (p : TxPool) (spammers : list (Address * Z)) (offenders : list Address) (k : Z) : Prop :=
  offenders = [] \/ (level p offenders k /\ pc_AccountSlots (tp_config p) < k /\ forall x, x ∈ spammers -> x.2 <= k).

Lemma last_elem {A : Type} (l : list A) x : last l = Some x -> x ∈ l.
Proof. intros H. apply last_Some in H as [l' ->]. set_solver. Qed.

Lemma runs_equalize fuel spammers offenders k n p (R : list Address * Z -> TxPool -> Prop) :
  inv [] p -> heap prqueLess spammers -> NoDup (spammers.*1 ++ offenders) -> spammers_ok p spammers -> taken_ok p spammers offenders k -> (length spammers < fuel)%nat -> n = u64 (pending_count p) ->
  (forall offs n' p', inv [] p' -> trimmed p p' -> n' = u64 (pending_count p') -> NoDup offs ->
    n' <= pc_GlobalSlots (tp_config p) \/ ((forall a, a ∈ spammers.*1 ++ offenders -> a ∈ offs) /\ (offs = [] \/ exists k', level p' offs k' /\ pc_AccountSlots (tp_config p) < k')) ->
    (forall b, b ∉ spammers.*1 ++ offenders -> pend p' b = pend p b) -> R (offs, n') p') ->
  runs (equalize fuel spammers offenders n) p R.
Proof.
  revert spammers offenders k n p R. induction fuel as [|fuel IH]; intros spammers offenders k n p R Hi Hh Hnd Hsp Htk Hf Hn HR; [lia|]. cbn [equalize].
  apply runs_bind, runs_pool_of. assert (Hnd' : NoDup offenders) by by apply NoDup_app in Hnd as (_ & _ & Hnd).
  destruct (Z.ltb_spec (pc_GlobalSlots (tp_config p)) n); cbn [negb orb]; [|apply runs_ret; apply HR; try done; [apply trimmed_refl|by left]].
  destruct spammers as [|x0 sp] eqn:Es.
  { apply runs_ret. apply HR; try done; [apply trimmed_refl|]. right. split; [done|]. destruct Htk as [?|(? & ? & _)]; [by left|right; eauto]. }
  rewrite <- Es in *. assert (Hne : spammers <> []) by by rewrite Es. clear Es x0 sp. destruct (Pop_ok prqueLess spammers Hh Hne) as ([a j] & sp & E & Hh' & Hp & _ & Hmax).
  assert (Ha : (a, j) ∈ spammers) by (rewrite Hp; set_solver). assert (Hls : length spammers = S (length sp)) by by rewrite Hp. destruct (Hsp _ Ha) as [Hsz Hslots]. cbn in Hsz, Hslots. pose proof Hi as (_ & _ & Hcf). pose proof (cf_AccountSlots _ Hcf).
  assert (Hnd2 : NoDup (sp.*1 ++ offenders ++ [a])). { rewrite Hp in Hnd. cbn in Hnd. rewrite app_assoc. by rewrite <- Permutation_cons_append. }
  assert (Hin2 : forall b, b ∈ sp.*1 ++ offenders ++ [a] <-> b ∈ spammers.*1 ++ offenders) by (intros b; rewrite Hp; cbn; set_solver).
  apply runs_bind. eapply runs_lift; [exact E|]. cbv beta. apply runs_bind.
  assert (Hgo : forall n1 p1, inv [] p1 -> trimmed p p1 -> n1 = u64 (pending_count p1) -> (forall b, b ∉ offenders -> pend p1 b = pend p b) ->
      n1 <= pc_GlobalSlots (tp_config p) \/ level p1 offenders j -> runs (equalize fuel sp (offenders ++ [a]) n1) p1 R).
  { intros n1 p1 H1 H2 H3 H4 H5. pose proof (ke_config _ _ (tr_kept _ _ H2)) as Hcfg. assert (Hsp1 : forall x, x ∈ sp -> x.1 ∉ offenders).
    { intros x Hx Hin. apply NoDup_app in Hnd2 as (_ & Hd & _). apply (Hd x.1); [by apply list_elem_of_fmap_2|set_solver]. }
    assert (Hano : a ∉ offenders) by (apply NoDup_app in Hnd2 as (_ & _ & Hd); apply NoDup_app in Hd as (_ & Hd & _); intros Hin; apply (Hd a Hin); set_solver).
    destruct H5 as [H5|H5].
    { destruct fuel as [|fuel']; [lia|]. cbn [equalize]. apply runs_bind, runs_pool_of. rewrite Hcfg. destruct (Z.ltb_spec (pc_GlobalSlots (tp_config p)) n1); [lia|]. cbn [negb orb].
      apply runs_ret. apply HR; try done; [by apply NoDup_app in Hnd2 as (_ & _ & Hd)|by left|]. intros b Hb. apply H4. set_solver. }
    apply (IH sp (offenders ++ [a]) j); try done.
    - intros x Hx. rewrite Hcfg, H4 by by apply Hsp1. apply Hsp. rewrite Hp. set_solver.
    - right. rewrite Hcfg. split; [|split; [done|]].
      + intros b [Hb| ->%list_elem_of_singleton]%elem_of_app; [by apply H5|]. by rewrite H4.
      + intros x Hx. assert (Hx' : x ∈ spammers) by (rewrite Hp; set_solver). specialize (Hmax x Hx'). unfold le, prqueLess in Hmax. cbn in Hmax. lia.
    - lia.
    - intros offs n' p' E1 E2 E3 E4 E5 E6. apply HR; [done|by eapply trimmed_trans|done|done| |].
      + rewrite Hcfg in E5. destruct E5 as [E5|[E5 E7]]; [by left|right]. split; [|done]. intros b Hb. apply E5. by apply Hin2.
      + intros b Hb. rewrite E6 by (by rewrite Hin2). apply H4. set_solver. }
  destruct (last offenders) as [prev|] eqn:El.
  - destruct Htk as [->|(Hlev & Hk & Hle)]; [done|]. pose proof (last_elem _ _ El) as Hprev. pose proof (Hlev prev Hprev) as Hps.
    apply runs_bind, runs_pending_Len; [lia|]. apply runs_bind, runs_pending_Len; [lia|]. rewrite Hsz, Hps. eapply (runs_cap_rounds _ _ _ _ _ k); try done; [lia|lia|lia|].
    intros n1 k1 p1 H1 H2 H3 H4 H5 H6 H7. apply Hgo; try done. destruct H6 as [H6|H6]; [by left|right]. specialize (Hle _ Ha). cbn in Hle. assert (k1 = j) as <- by lia. done.
  - apply runs_ret. apply last_None in El as ->. apply Hgo; try done; [apply trimmed_refl|]. right. by intros b ?%elem_of_nil.
Qed.

Lemma lists_Len_txs m : lists_Len m = Z.of_nat (length (lists_txs m)).
Proof.
  unfold lists_Len, lists_txs. rewrite <- (map_range_perm txList m). induction (map_range m) as [|[a l] r IH]; cbn; [done|]. rewrite IH, length_app. unfold tl_Len, sm_Len, values, tl_items. rewrite length_fmap, length_map_to_list. cbn. lia.
Qed.

Section spammers.
Context (locals : accountSet) (slots : Z).

(** The accounts with too many pending transactions. *)
Definition spam_of (l : list (Address * txList)) : list (Address * Z) :=
  (fun kv => (kv.1, tl_Len kv.2)) <$> filter (fun kv => negb (as_contains locals kv.1) && (slots <? tl_Len kv.2) = true) l.

Lemma spam_fold l h : heap prqueLess h ->
  let r := foldl (fun h kv => if negb (as_contains locals kv.1) && (slots <? tl_Len kv.2) then Heap.Push prqueLess h (kv.1, tl_Len kv.2) else h) h l in
  heap prqueLess r /\ r ≡ₚ spam_of l ++ h.
Proof.
  revert h. induction l as [|[a l0] l IH]; intros h Hh; [done|]. cbn [foldl]. unfold spam_of. rewrite filter_cons. cbn [fst snd]. destruct (negb (as_contains locals a) && (slots <? tl_Len l0)) eqn:E.
  - rewrite decide_True by done. destruct (Push_ok prqueLess h (a, tl_Len l0) Hh) as [H1 H2]. destruct (IH _ H1) as [H3 H4]. split; [done|]. rewrite H4, H2. cbn. by rewrite Permutation_middle.
  - rewrite decide_False by done. by apply IH.
Qed.

Lemma spam_of_elem m x : x ∈ spam_of (map_range m) <-> exists l, m !! x.1 = Some l /\ x.2 = tl_Len l /\ as_contains locals x.1 = false /\ slots < tl_Len l.
Proof.
  unfold spam_of. rewrite list_elem_of_fmap. split.
  - intros ([a l] & -> & [H1 H2]%list_elem_of_filter). rewrite map_range_perm in H2. apply elem_of_map_to_list in H2. cbn in *. exists l. split; [done|]. split; [done|]. destruct (as_contains locals a); [done|]. cbn in H1. lia.
  - intros (l & H1 & H2 & H3 & H4). exists (x.1, l). split; [destruct x; cbn in *; by rewrite H2|]. apply list_elem_of_filter. cbn. rewrite map_range_perm, H3. cbn. split; [lia|]. by apply elem_of_map_to_list.
Qed.

Lemma spam_of_NoDup m : NoDup (spam_of (map_range m)).*1.
Proof.
  unfold spam_of. rewrite <- list_fmap_compose. apply (sublist_NoDup _ (map_range m).*1); [rewrite map_range_perm; apply NoDup_fst_map_to_list|].
  apply (fmap_sublist fst), sublist_filter.
Qed.
End spammers.

(** The limit is reached, or no account that is not local has more than its share. *)
Definition pending_limited (p : TxPool) : Prop :=
  pending_count p <= pc_GlobalSlots (tp_config p) \/ forall a, as_contains (tp_locals p) a = false -> Z.of_nat (size (pend p a)) <= pc_AccountSlots (tp_config p).

Lemma runs_truncatePending p (R : unit -> TxPool -> Prop) : inv [] p -> (forall p', inv [] p' -> trimmed p p' -> (pending_count p < 2 ^ 64 -> pending_limited p') -> R tt p') -> runs truncatePending p R.
Proof.
  intros Hi HR. pose proof Hi as (Hc & _ & Hcf). pose proof (cf_AccountSlots _ Hcf). assert (Hsmall : forall q, trimmed p q -> pending_count p < 2 ^ 64 -> u64 (pending_count q) = pending_count q).
  { intros q Hq Hp. pose proof (tr_count _ _ Hq). apply Z.mod_small. unfold pending_count in *. lia. }
  unfold truncatePending. apply runs_bind, runs_pool_of. cbv zeta. rewrite lists_Len_txs. fold (pending_count p).
  destruct (Z.leb_spec (u64 (pending_count p)) (pc_GlobalSlots (tp_config p))) as [Hle|Hgt].
  { apply runs_ret. apply HR; [done|apply trimmed_refl|]. intros Hp. left. rewrite <- (Hsmall p (trimmed_refl p) Hp). done. }
  assert (Hnil : heap prqueLess []) by (intros k Hk; cbn in Hk; lia). pose proof (spam_fold (tp_locals p) (pc_AccountSlots (tp_config p)) (map_range (tp_pending p)) [] Hnil) as HS. cbv zeta in HS.
  set (spammers := foldl _ _ _) in *. destruct HS as [Hh Hp]. rewrite app_nil_r in Hp.
  assert (Hel : forall x, x ∈ spammers <-> exists l, tp_pending p !! x.1 = Some l /\ x.2 = tl_Len l /\ as_contains (tp_locals p) x.1 = false /\ pc_AccountSlots (tp_config p) < tl_Len l) by (intros x; rewrite Hp; apply spam_of_elem).
  apply runs_bind, (runs_equalize _ _ _ 0); try done.
  - rewrite app_nil_r, Hp. apply spam_of_NoDup.
  - intros x (l & H1 & H2 & H3 & H4)%Hel. rewrite H2. split; [|done]. unfold pend, items_of. by rewrite H1.
  - by left.
  - lia.
  - intros offs n' p' E1 E2 E3 E4 E5 E6. rewrite app_nil_r in E5, E6. pose proof (ke_config _ _ (tr_kept _ _ E2)) as Hcfg. pose proof (tr_locals _ _ E2) as Hloc.
    assert (Hother : forall q, (forall b, b ∉ spammers.*1 -> pend q b = pend p b) -> forall a, a ∉ spammers.*1 -> as_contains (tp_locals p) a = false -> Z.of_nat (size (pend q a)) <= pc_AccountSlots (tp_config p)).
    { intros q Hq a Ha Hl. rewrite Hq by done. unfold pend, items_of. destruct (tp_pending p !! a) as [l|] eqn:El; [|rewrite map_size_empty; lia].
      destruct (decide (pc_AccountSlots (tp_config p) < tl_Len l)) as [Hlt|Hge]; [|unfold tl_Len, sm_Len in Hge; fold (tl_items l) in Hge; lia]. exfalso. apply Ha. apply list_elem_of_fmap. exists (a, tl_Len l). split; [done|]. apply Hel. by exists l. }
    assert (Hdone : n' <= pc_GlobalSlots (tp_config p) -> R tt p').
    { intros Hn. apply HR; [done|done|]. intros Hsm. left. rewrite Hcfg, <- (Hsmall p' E2 Hsm), <- E3. done. }
    destruct (last offs) as [lst|] eqn:El.
    + destruct (Z.ltb_spec (pc_GlobalSlots (tp_config p)) n') as [Hlt|]; [|apply runs_ret; by apply Hdone]. destruct E5 as [E5|[Hin [->|(k & Hlev & Hk)]]]; [lia|done|]. pose proof (last_elem _ _ El) as Hlst. pose proof (Hlev lst Hlst) as Hsz.
      apply runs_bind, runs_pending_Len; [lia|]. rewrite Hsz. apply runs_bind. eapply (runs_cap_rounds _ _ _ _ _ k); try done; [lia|lia|lia|].
      intros n2 k2 p2 H1 H2 H3 H4 H5 H6 H7. apply runs_ret. assert (Htr : trimmed p p2) by by eapply trimmed_trans. apply HR; [done|done|]. intros Hsm. unfold pending_limited. rewrite (ke_config _ _ (tr_kept _ _ Htr)), (tr_locals _ _ Htr).
      destruct H6 as [H6|H6]; [left; rewrite <- (Hsmall p2 Htr Hsm), <- H3; by rewrite <- Hcfg|right]. intros a Ha. destruct (decide (a ∈ offs)) as [Hao|Hao]; [rewrite (H4 a Hao); lia|].
      rewrite H7 by done. apply (Hother p'); [done| |done]. intros Hsp. apply Hao. by apply Hin.
    + apply runs_ret. apply last_None in El as ->. destruct E5 as [E5|[Hin _]]; [by apply Hdone|]. apply HR; [done|done|]. intros Hsm. right. rewrite Hcfg, Hloc. intros a Ha. apply (Hother p'); [done| |done].
      intros Hsp. specialize (Hin a Hsp). by apply elem_of_nil in Hin.
Qed.

(** ** Queued transactions *)

(** *** Removing queued transactions *)

Lemma unqueued_from a tx p q p' : kept p q -> tp_locals q = tp_locals p -> tp_pending q = tp_pending p -> tp_pendingNonces q = tp_pendingNonces p -> tp_queue q = tp_queue p -> unqueued a tx q p' -> unqueued a tx p p'.
Proof.
  intros H1 H2 H3 H4 H5 [E1 E2 E3 E4 E5 E6]. split; [by eapply kept_trans|congruence|congruence|congruence| |by rewrite <- H5]. intros b. rewrite E5. unfold que. by rewrite H5.
Qed.

Lemma runs_removeTx_queued a tx oob now p (R : unit -> TxPool -> Prop) : inv [] p -> que p a !! tx_Nonce tx = Some tx ->
  (forall p', inv [] p' -> unqueued a tx p p' -> R tt p') -> runs (removeTx (tx_Hash tx) oob now) p R.
Proof.
  intros Hi Hq HR. pose proof Hi as (Hc & He & Hcf). pose proof (co_all _ _ _ _ _ Hc) as Hall. destruct (que_all _ p a _ tx Hi Hq) as [Hin Hpl]. assert (Ha : Sender tx = Some a) by (unfold place in Hpl; congruence).
  unfold removeTx. apply runs_bind, runs_pool_of. rewrite (proj1 (lk_Get_elem _ tx Hall) Hin). cbv zeta. rewrite (sender_eq tx a Ha). destruct (lk_Remove_ok _ tx Hall Hin) as (_ & _ & Hsub).
  apply runs_bind, runs_modify, runs_bind, (runs_maybe_Removed (D := [])); [eapply priced_sub; [done|apply Hc]|]. intros pr Hpr _. set (q := set_priced pr _).
  assert (Hnone : items_of (tp_pending p) a !! tx_Nonce tx = None). { destruct (items_of (tp_pending p) a !! tx_Nonce tx) as [y|] eqn:E; [|done]. pose proof (pend_que_disjoint _ p a _ y Hi E). congruence. }
  assert (Hgo : runs (remove_queued a tx) q R).
  { apply (runs_remove_queued (D := []) q (tp_all p) (tp_priced p)); try done. intros p' H1 H2 H3. apply HR; [done|]. by apply (unqueued_from a tx p q). }
  destruct (tp_pending p !! a) as [l|] eqn:El; [|done]. apply runs_bind. eapply runs_lift; [apply tl_Remove_none|exact Hgo]. unfold items_of in Hnone. by rewrite El in Hnone.
Qed.

(** Some transactions of a queue are gone. *)
Record drained (a : Address) (txs : list Transaction) (p p' : TxPool) : Prop := {
  dr_kept : kept p p';
  dr_locals : tp_locals p' = tp_locals p;
  dr_pending : tp_pending p' = tp_pending p;
  dr_nonces : tp_pendingNonces p' = tp_pendingNonces p;
  dr_queue : forall b, que p' b = if decide (b = a) then foldl (fun m tx => delete (tx_Nonce tx) m) (que p b) txs else que p b;
  dr_count : length (lists_txs (tp_queue p)) = (length txs + length (lists_txs (tp_queue p')))%nat;
}.

Lemma drained_nil a p : drained a [] p p.
Proof. split; try done. intros b. by destruct (decide (b = a)). Qed.

Lemma drained_cons a tx txs p q r : unqueued a tx p q -> drained a txs q r -> drained a (tx :: txs) p r.
Proof.
  intros [H1 H2 H3 H4 H5 H6] [E1 E2 E3 E4 E5 E6]. split; [by eapply kept_trans|congruence|congruence|congruence| |rewrite H6, E6; done].
  intros b. rewrite E5, H5. by destruct (decide (b = a)).
Qed.

Lemma runs_drain a txs oob now p (R : unit -> TxPool -> Prop) : inv [] p -> NoDup (tx_Nonce <$> txs) -> (forall tx, tx ∈ txs -> que p a !! tx_Nonce tx = Some tx) ->
  (forall p', inv [] p' -> drained a txs p p' -> R tt p') -> runs (for_each (fun tx => removeTx (tx_Hash tx) oob now) txs) p R.
Proof.
  revert p R. induction txs as [|tx txs IH]; intros p R Hi Hnd Hq HR; cbn [for_each]; [apply runs_ret; apply HR; [done|apply drained_nil]|].
  cbn in Hnd. apply NoDup_cons in Hnd as [Hn Hnd]. apply runs_bind, (runs_removeTx_queued a); [done|apply Hq; set_solver|]. intros p1 H1 H2. apply IH; [done|done| |].
  - intros y Hy. rewrite (uq_queue _ _ _ _ H2), decide_True by done. rewrite lookup_delete_ne; [apply Hq; set_solver|]. intros E. apply Hn. rewrite E. by apply list_elem_of_fmap_2.
  - intros p2 E1 E2. apply HR; [done|]. by eapply drained_cons.
Qed.

Lemma foldl_delete_lookup (txs : list Transaction) (m : gmap Z Transaction) n :
  foldl (fun m tx => delete (tx_Nonce tx) m) m txs !! n = if decide (n ∈ tx_Nonce <$> txs) then None else m !! n.
Proof.
  revert m. induction txs as [|tx txs IH]; intros m; cbn [foldl]; [rewrite decide_False by (cbn; apply not_elem_of_nil); done|].
  rewrite IH. destruct (decide (n ∈ tx_Nonce <$> txs)) as [Hin|Hin]; [rewrite decide_True by (cbn; set_solver); done|]. destruct (decide (n = tx_Nonce tx)) as [->|Hne].
  - rewrite lookup_delete_eq, decide_True by (cbn; set_solver). done.
  - rewrite lookup_delete_ne, decide_False by (done || cbn; set_solver). done.
Qed.

Lemma foldl_delete_all m : keyed m -> foldl (fun m tx => delete (tx_Nonce tx) m) m (sorted m) = ∅.
Proof.
  intros Hk. apply map_eq. intros n. rewrite foldl_delete_lookup, lookup_empty. destruct (decide _) as [|Hno]; [done|]. destruct (m !! n) as [tx|] eqn:E; [|done]. exfalso. apply Hno.
  destruct (Hk n tx E) as [<- _]. apply list_elem_of_fmap_2. by apply sorted_elem.
Qed.

(** The queue of an account after [Flatten]. *)
Lemma runs_flatten_queue a l p : inv [] p -> tp_queue p !! a = Some l ->
  let '(txs, l') := tl_Flatten l in let q := set_queue (<[a := l']> (tp_queue p)) p in
  txs = sorted (que p a) /\ inv [] q /\ (forall b, que q b = que p b) /\ length (lists_txs (tp_queue q)) = length (lists_txs (tp_queue p)) /\ que p a <> ∅ /\ keyed (que p a).
Proof.
  intros Hi El. pose proof Hi as (Hc & He & Hcf). destruct (co_queue _ _ _ _ _ Hc a l El) as [Hl Hne]. assert (Hq : que p a = tl_items l) by (unfold que, items_of; by rewrite El).
  pose proof (tl_Flatten_ok l (li_wf _ _ _ Hl)) as HF. destruct (tl_Flatten l) as [txs l']. destruct HF as (-> & Hw & Hs & Hit). cbv zeta. rewrite Hq. split; [done|].
  assert (Hne' : tl_items l' <> ∅) by by rewrite Hit. rewrite <- (put_list_nonempty (tp_queue p) a l' Hne'). unfold que in *. split; [|split; [|split; [|split; [done|by apply tl_keyed, Hl]]]].
  - split; [|done]. cbn. eapply core_queue_put; [exact Hc|by apply (list_ok_sub false a l); [done|done|done|rewrite Hit]|]. by rewrite !app_nil_r, Hq, Hit.
  - intros b. cbn. rewrite put_list_items. destruct (decide (b = a)) as [->|]; [by rewrite Hit, Hq|done].
  - cbn. by rewrite put_list_txs, (lists_txs_split (tp_queue p) a), Hq, Hit.
Qed.

(** Only queues change. *)
Record queue_only (p p' : TxPool) : Prop := {
  qo_kept : kept p p';
  qo_locals : tp_locals p' = tp_locals p;
  qo_pending : tp_pending p' = tp_pending p;
  qo_nonces : tp_pendingNonces p' = tp_pendingNonces p;
}.

Lemma queue_only_refl p : queue_only p p.
Proof. done. Qed.

Lemma queue_only_trans p q r : queue_only p q -> queue_only q r -> queue_only p r.
Proof. intros [] []. split; [by eapply kept_trans|congruence..]. Qed.

Lemma queue_only_same p p' : queue_only p p' -> same_pending p p'.
Proof. intros [_ _ H1 H2]. split; intros a; unfold pend, next; [by rewrite H1|by rewrite H2]. Qed.

Lemma queue_only_set_queue v p p' : queue_only (set_queue v p) p' -> queue_only p p'.
Proof. intros [[] ? ? ?]. by split. Qed.

Definition queue_count (p : TxPool) : Z := Z.of_nat (length (lists_txs (tp_queue p))).

(** The effect of removing transactions of one queue. *)
Record emptier (a : Address) (p p' : TxPool) : Prop := {
  em_only : queue_only p p';
  em_other : forall b, b <> a -> que p' b = que p b;
}.

Lemma runs_drop_queue a now p (R : unit -> TxPool -> Prop) : inv [] p ->
  (forall p', inv [] p' -> emptier a p p' -> que p' a = ∅ -> queue_count p' = queue_count p - Z.of_nat (size (que p a)) -> R tt p') -> runs (drop_queue a now) p R.
Proof.
  intros Hi HR. unfold drop_queue. apply runs_bind, runs_pool_of. destruct (tp_queue p !! a) as [l|] eqn:El; cycle 1.
  { apply runs_ret. assert (que p a = ∅) by (unfold que, items_of; by rewrite El). apply HR; try done. rewrite H, map_size_empty. lia. }
  pose proof (runs_flatten_queue a l p Hi El) as HF. destruct (tl_Flatten l) as [txs l']. destruct HF as (-> & H1 & H2 & H3 & _ & Hk). apply runs_bind, runs_modify. apply (runs_drain a); [done|by apply sorted_NoDup| |].
  - intros tx Htx. rewrite H2. by apply sorted_elem.
  - intros p' E1 [G1 G2 G3 G4 G5 G6]. apply HR; [done|split; [by split; destruct G1|]| |].
    + intros b Hb. by rewrite G5, decide_False, H2.
    + rewrite G5, decide_True, H2 by done. by apply foldl_delete_all.
    + unfold queue_count. rewrite <- H3, G6, sorted_length. lia.
Qed.

Lemma runs_evict now p (R : unit -> TxPool -> Prop) : inv [] p -> (forall p', inv [] p' -> queue_only p p' -> R tt p') -> runs (evict now) p R.
Proof.
  intros Hi HR. unfold evict. apply runs_bind, runs_pool_of. apply (runs_for_each (fun _ p' => inv [] p' /\ queue_only p p')); [|done|intros p' [? ?]; by apply HR].
  intros a l q [Hq Ho]. apply runs_bind, runs_pool_of. destruct (as_contains _ a); [by apply runs_ret|]. destruct (_ <? _); [|by apply runs_ret].
  apply runs_drop_queue; [done|]. intros p' H1 [H2 _] _ _. split; [done|]. by eapply queue_only_trans.
Qed.

Lemma runs_drop_last a txs drop now p (R : Z -> TxPool -> Prop) : inv [] p -> NoDup (tx_Nonce <$> txs) -> (forall tx, tx ∈ txs -> que p a !! tx_Nonce tx = Some tx) -> 0 <= drop ->
  (forall d p', inv [] p' -> emptier a p p' -> 0 <= d -> queue_count p - queue_count p' = drop - d -> d = 0 \/ Z.of_nat (length txs) = drop - d -> R d p') ->
  runs (drop_last txs drop now) p R.
Proof.
  revert drop p R. induction txs as [|tx txs IH]; intros drop p R Hi Hnd Hq Hd HR; cbn [drop_last]; [apply runs_ret; apply HR; try done; [lia|right; cbn; lia]|].
  destruct (Z.leb_spec drop 0); [apply runs_ret; apply HR; try done; [lia|left; lia]|].
  cbn in Hnd. apply NoDup_cons in Hnd as [Hn Hnd]. apply runs_bind, (runs_removeTx_queued a); [done|apply Hq; set_solver|]. intros p1 H1 [G1 G2 G3 G4 G5 G6]. apply IH; [done|done| |lia|].
  - intros y Hy. rewrite G5, decide_True by done. rewrite lookup_delete_ne; [apply Hq; set_solver|]. intros E. apply Hn. rewrite E. by apply list_elem_of_fmap_2.
  - intros d p2 E1 [E2 E3] E4 E5 E6. apply HR; [done| |done|unfold queue_count in *; lia|cbn; lia]. split; [by eapply queue_only_trans|]. intros b Hb. by rewrite E3, G5, decide_False.
Qed.

Lemma que_nonempty p a : que p a <> ∅ -> exists l, tp_queue p !! a = Some l /\ tl_items l = que p a.
Proof. unfold que, items_of. destruct (tp_queue p !! a) as [l|]; [eauto|done]. Qed.

Lemma runs_drop_queues addrs drop now p (R : unit -> TxPool -> Prop) : inv [] p -> NoDup addrs -> (forall a, a ∈ addrs -> que p a <> ∅) -> 0 <= drop ->
  (forall p', inv [] p' -> queue_only p p' -> queue_count p - queue_count p' = drop \/ (forall a, a ∈ addrs -> que p' a = ∅) -> (forall b, b ∉ addrs -> que p' b = que p b) -> R tt p') ->
  runs (drop_queues addrs drop now) p R.
Proof.
  revert drop p R. induction addrs as [|a addrs IH]; intros drop p R Hi Hnd Hq Hd HR; cbn [drop_queues]; [apply runs_ret; apply HR; try done; right; by intros a ?%elem_of_nil|].
  destruct (Z.leb_spec drop 0); [apply runs_ret; apply HR; try done; left; lia|]. apply NoDup_cons in Hnd as [Ha Hnd].
  destruct (que_nonempty p a) as (l & El & Hit); [apply Hq; set_solver|]. apply runs_bind, runs_pool_of, runs_bind. eapply runs_lift; [exact El|]. cbv zeta.
  assert (Hlen : tl_Len l = Z.of_nat (size (que p a))) by (unfold tl_Len, sm_Len; fold (tl_items l); by rewrite Hit). rewrite Hlen.
  assert (Hrest : forall p1, (forall b, b <> a -> que p1 b = que p b) -> forall b, b ∈ addrs -> que p1 b <> ∅) by (intros p1 Hp1 b Hb; rewrite Hp1; [apply Hq; set_solver|by intros ->]).
  destruct (Z.leb_spec (Z.of_nat (size (que p a))) drop).
  - apply runs_bind, runs_drop_queue; [done|]. intros p1 H1 [H2 H3] H4 H5. apply IH; [done|done|by apply Hrest|lia|]. intros p2 E1 E2 E3 E4. apply HR; [done|by eapply queue_only_trans| |].
    + destruct E3 as [E3|E3]; [left; lia|right]. intros b [->|Hb]%elem_of_cons; [by rewrite E4|by apply E3].
    + intros b Hb. rewrite E4 by set_solver. apply H3. set_solver.
  - pose proof (runs_flatten_queue a l p Hi El) as HF. destruct (tl_Flatten l) as [txs l']. destruct HF as (-> & H1 & H2 & H3 & _ & Hk). apply runs_bind, runs_modify, runs_bind. apply (runs_drop_last a); [done| | |done|].
    + rewrite fmap_reverse, reverse_Permutation. by apply sorted_NoDup.
    + intros tx Htx. rewrite H2. apply sorted_elem; [done|]. by rewrite reverse_Permutation in Htx.
    + intros d p1 E1 [E2 E3] E4 E5 E6. rewrite length_reverse, sorted_length in E6. assert (d = 0) as -> by lia.
      assert (drop_queues addrs 0 now = mret tt) as -> by by destruct addrs. apply runs_ret. apply HR; [done|by eapply queue_only_set_queue| |].
      * left. unfold queue_count in *. rewrite H3 in E5. lia.
      * intros b Hb. rewrite E3 by set_solver. apply H2.
Qed.

Lemma runs_truncateQueue now p (R : unit -> TxPool -> Prop) : inv [] p ->
  (forall p', inv [] p' -> queue_only p p' ->
    (queue_count p < 2 ^ 64 -> queue_count p' <= pc_GlobalQueue (tp_config p) \/ forall a, as_contains (tp_locals p) a = false -> que p' a = ∅) -> R tt p') ->
  runs (truncateQueue now) p R.
Proof.
  intros Hi HR. unfold truncateQueue. apply runs_bind, runs_pool_of. cbv zeta. rewrite lists_Len_txs. fold (queue_count p). pose proof Hi as (Hc & _ & Hcf).
  assert (Hsm : queue_count p < 2 ^ 64 -> u64 (queue_count p) = queue_count p) by (intros H; apply Z.mod_small; unfold queue_count in *; lia).
  destruct (Z.leb_spec (u64 (queue_count p)) (pc_GlobalQueue (tp_config p))); [apply runs_ret; apply HR; try done; intros Hp; left; rewrite Hsm in *; done|].
  set (addrs := filter _ _). set (srt := merge_sort beat_le _). assert (Hp : srt.*1 ≡ₚ addrs).
  { unfold srt. rewrite merge_sort_Permutation, <- list_fmap_compose. unfold compose. cbn. by rewrite list_fmap_id. }
  assert (Hin : forall a, a ∈ addrs <-> as_contains (tp_locals p) a = false /\ is_Some (tp_queue p !! a)).
  { intros a. unfold addrs. rewrite list_elem_of_filter, map_range_perm. split; intros [H1 H2]; (split; [done|]).
    - apply list_elem_of_fmap in H2 as ([b l] & -> & H2%elem_of_map_to_list). eauto.
    - destruct H2 as [l H2]. apply list_elem_of_fmap. exists (a, l). split; [done|]. by apply elem_of_map_to_list. }
  apply runs_drop_queues; [done| | |lia|].
  - rewrite reverse_Permutation, Hp. apply NoDup_filter. rewrite map_range_perm. apply NoDup_fst_map_to_list.
  - intros a. rewrite reverse_Permutation, Hp, Hin. intros [_ [l El]]. destruct (co_queue _ _ _ _ _ Hc a l El) as [_ Hne]. unfold que, items_of. by rewrite El.
  - intros p' E1 E2 E3 E4. apply HR; [done|done|]. intros Hsmall. rewrite (Hsm Hsmall) in *. destruct E3 as [E3|E3]; [left; lia|right]. intros a Ha. destruct (decide (is_Some (tp_queue p !! a))) as [Hs|Hs].
    + apply E3. rewrite reverse_Permutation, Hp, Hin. done.
    + rewrite E4 by (rewrite reverse_Permutation, Hp, Hin; naive_solver). unfold que, items_of. destruct (tp_queue p !! a); [naive_solver|done].
Qed.
End limits.
