(* ===== verification/TxPoolAdd.v ===== *)
(** Adding transactions: room in a full pool, replacements, local accounts.

    Shown: [add] and [addTxs] keep the invariant of the pool and do not panic on acceptable
    transactions; a transaction is taken only if it keeps all rules; what happens to the
    pending transactions is a sequence of cuts and of replacements by transactions that
    can be paid. *)
From S2P Require Import Prelude Common Params Wormholes StateTypes State StateDB Staking Evm Transition Rlp Heap TxTypes TxList TxListProps TxPriced TxPricedProps HeaderRules TxPool TxPoolOps TxPoolLimits.

Open Scope Z_scope.

Section adding.
Context {CR : Crypto} {MA : Machine} {SG : Signer} {MR : MapRange}.

(** ** Edits of the pending lists *)

(** The transaction can be paid in the state of the pool. *)
Definition payable (p : TxPool) (a : Address) (tx : Transaction) : Prop :=
  unpayable (cs_GetBalance (tp_currentState p) a) (tp_currentMaxGas p) tx = false.

(** Cuts, and replacements of a transaction by one that can be paid. *)
Inductive edits : TxPool -> TxPool -> Prop :=
  | ed_cuts p p' : kept p p' -> cuts p p' -> edits p p'
  | ed_replace p p' a tx : kept p p' -> is_Some (pend p a !! tx_Nonce tx) -> payable p a tx ->
      (forall b, pend p' b = if decide (b = a) then <[tx_Nonce tx := tx]> (pend p b) else pend p b) -> (forall b, next p' b = next p b) -> edits p p'
  | ed_trans p q r : edits p q -> edits q r -> edits p r.

Lemma edits_refl p : edits p p.
Proof. apply ed_cuts; [done|]. by apply same_pending_cuts. Qed.

Lemma edits_same p p' : kept p p' -> tp_pending p' = tp_pending p -> tp_pendingNonces p' = tp_pendingNonces p -> edits p p'.
Proof. intros Hk H1 H2. apply ed_cuts; [done|]. apply same_pending_cuts. unfold same_pending, pend, next. by rewrite H1, H2. Qed.

Lemma edits_kept p p' : edits p p' -> kept p p'.
Proof. induction 1; [done|done|by eapply kept_trans]. Qed.

(** ** Removals *)

Lemma lk_Get_Remove h t k : lk_Get (lk_Remove h t) k = if decide (k = h) then None else lk_Get t k.
Proof.
  unfold lk_Remove. destruct (lk_Get t h) as [tx|] eqn:E; [|destruct (decide (k = h)) as [->|]; done].
  unfold lk_Get. cbn [lk_locals lk_remotes]. destruct (decide (k = h)) as [->|]; [by rewrite !lookup_delete_eq|by rewrite !lookup_delete_ne].
Qed.

Definition lk_remove_all (l : list Transaction) (t : txLookup) : txLookup := foldl (fun t tx => lk_Remove (tx_Hash tx) t) t l.

Lemma lk_Get_remove_all l t k : lk_Get (lk_remove_all l t) k = if decide (k ∈ tx_Hash <$> l) then None else lk_Get t k.
Proof.
  revert t. induction l as [|tx l IH]; intros t; cbn [lk_remove_all foldl fmap list_fmap]; [by rewrite decide_False by apply not_elem_of_nil|]. fold (lk_remove_all l (lk_Remove (tx_Hash tx) t)).
  rewrite IH, lk_Get_Remove. repeat case_decide; set_solver.
Qed.

Lemma runs_remove_many D l oob now p (R : unit -> TxPool -> Prop) : inv D [] p ->
  (forall p', inv D [] p' -> kept p p' -> tp_locals p' = tp_locals p -> cuts p p' -> tp_all p' = lk_remove_all l (tp_all p) -> R tt p') ->
  runs (for_each (fun tx => removeTx (tx_Hash tx) oob now) l) p R.
Proof.
  revert p. induction l as [|tx l IH]; intros p Hi HR; cbn [for_each]; [apply runs_ret; apply HR; try done; by apply same_pending_cuts|].
  apply runs_bind, (runs_removeTx (D := D)); [done|]. intros p1 H1 H2 H3 H4 H5. apply IH; [done|]. intros p2 E1 E2 E3 E4 E5.
  apply HR; [done|by eapply kept_trans|congruence|by eapply cuts_trans|]. by rewrite E5, H5.
Qed.

(** The priced list is complete when the transactions it has given up are gone. *)
Lemma inv_settle D p : inv D [] p -> (forall tx, tx ∈ D -> lk_Get (tp_all p) (tx_Hash tx) = None) -> inv [] [] p.
Proof.
  intros [[H1 H2 H3 [H4 H4'] H5 H6 H7] He] Hno. split; [|done]. split; try done. split; [done|]. intros h tx Hh. specialize (H4' h tx Hh). rewrite app_nil_r.
  apply elem_of_app in H4' as [|Hin]; [done|]. specialize (Hno tx Hin). apply (remote_hash _ _ _ H3) in Hh. unfold lk_Get, lk_GetRemote in *. case_match; congruence.
Qed.

(** ** Room in a full pool *)

Lemma numSlots_nonneg tx : 0 <= tx_Size tx -> 0 <= numSlots tx.
Proof. intros H. unfold numSlots, txSlotSize. apply Z.div_pos; lia. Qed.

Lemma sum_slots_nonneg l : (forall tx, tx ∈ l -> 0 <= tx_Size tx) -> 0 <= sum_slots l.
Proof. induction l as [|tx l IH]; intros H; [done|]. rewrite sum_slots_cons. pose proof (numSlots_nonneg tx (H tx ltac:(set_solver))). pose proof (IH ltac:(set_solver)). lia. Qed.

(** What room-making leaves: fewer transactions, the pending ones cut. *)
Record roomier (p p' : TxPool) : Prop := {
  rm_kept : kept p p';
  rm_locals : tp_locals p' = tp_locals p;
  rm_cuts : cuts p p';
  rm_get : forall h, lk_Get (tp_all p) h = None -> lk_Get (tp_all p') h = None;
}.

Lemma roomier_priced p l : roomier p (set_priced l p).
Proof. split; try done. by apply same_pending_cuts. Qed.

(** The slots asked for are not negative. *)
Lemma slots_asked p tx : inv [] [] p -> 0 <= tx_Size tx -> pool_limit p < u64 (add_slots tx p) -> 0 <= add_slots tx p - i64 (pool_limit p).
Proof.
  intros (Hc & _ & Hcf) Hs. pose proof (cf_GlobalSlots _ Hcf). pose proof (cf_GlobalQueue _ Hcf). unfold pool_limit. set (m := pc_GlobalSlots _ + pc_GlobalQueue _). assert (Hm : u64 m = m) by (unfold u64; rewrite Z.mod_small; lia).
  rewrite Hm. assert (i64 m = m) as -> by (unfold i64; rewrite Z.mod_small; lia). assert (0 <= add_slots tx p).
  { unfold add_slots. rewrite (lo_slots _ (co_all _ _ _ _ _ Hc)). pose proof (numSlots_nonneg tx Hs). pose proof (sum_slots_nonneg (all_txs (tp_all p))) as Hn.
    specialize (Hn (fun y Hy => proj2 (proj2 (co_valid _ _ _ _ _ Hc y Hy)))). lia. }
  unfold u64. pose proof (Z.mod_le (add_slots tx p) (2 ^ 64) ltac:(done) ltac:(lia)). lia.
Qed.

(** The errors of a pool without room, and of a replacement that pays too little. *)
Definition crowded : list string := [ErrUnderpriced; ErrTxPoolOverflow; ErrReplaceUnderpriced].

Lemma runs_make_room tx isLocal now p (R : goerror -> TxPool -> Prop) : inv [] [] p -> 0 <= tx_Size tx ->
  (forall e p', inv [] [] p' -> roomier p p' -> (forall x, e = Some x -> x ∈ crowded) -> R e p') -> runs (make_room tx isLocal now) p R.
Proof.
  intros Hi Hs HR. unfold make_room. apply runs_bind, runs_pool_of. destruct (Z.ltb_spec (pool_limit p) (u64 (add_slots tx p))) as [Hfull|]; cbn [negb].
  2: { apply runs_ret. apply HR; [done| |done]. destruct p. apply roomier_priced. }
  set (Q := fun q => exists l, q = set_priced l p /\ inv [] [] q).
  apply runs_bind. apply (runs_mono _ _ (fun _ q => Q q)).
  { destruct isLocal; [apply runs_ret; exists (tp_priced p); by destruct p|]. pose proof Hi as (Hc & He). destruct (pr_Underpriced_ok (tp_all p) tx (tp_priced p) (co_all _ _ _ _ _ Hc) (co_priced _ _ _ _ _ Hc)) as (b & l & E & Hl).
    exists b, (set_priced l p). rewrite E. split; [done|]. exists l. split; [done|]. split; [|done]. by eapply core_priced. }
  intros under q (l & -> & Hq). destruct under; [apply runs_ret; apply HR; [done|apply roomier_priced|intros x [= <-]; by left]|]. pose proof Hq as (Hc & He).
  destruct (pr_Discard_ok (tp_all p) (add_slots tx p - i64 (pool_limit p)) isLocal l (co_all _ _ _ _ _ Hc) (co_priced _ _ _ _ _ Hc)) as (drop & success & l' & E & (Hh & Hcov & Hrem) & Heff); [by apply slots_asked|].
  apply runs_bind. exists (drop, success), (set_priced l' p). split; [cbn; change (add_slots tx (set_priced l p)) with (add_slots tx p); change (pool_limit (set_priced l p)) with (pool_limit p); by rewrite E|].
  assert (Hd : inv drop [] (set_priced l' p)) by (destruct Hc; by split).
  destruct (negb isLocal && negb success) eqn:Eb.
  { destruct success; [by rewrite andb_false_r in Eb|]. subst drop. apply runs_ret. apply HR; [done|apply roomier_priced|intros x [= <-]; right; by left]. }
  apply runs_bind, (runs_remove_many drop); [done|]. intros p' H1 H2 H3 H4 H5. apply runs_ret. apply HR.
  - apply (inv_settle drop); [done|]. intros y Hy. rewrite H5, lk_Get_remove_all, decide_True; [done|]. by apply list_elem_of_fmap_2.
  - split; [by destruct H2|done|done|]. intros h Hno. rewrite H5, lk_Get_remove_all. by case_decide.
  - done.
Qed.

(** ** New transactions *)

(** A transaction takes the place of an older one, in the lists and in the lookup. *)
Lemma core_swap tx old local P Q P' Q' all pr pr' :
  core [] [] P Q all pr -> old ∈ all_txs all -> place tx = place old -> valid tx -> lk_Get all (tx_Hash tx) = None ->
  lists_ok true P' -> lists_ok false Q' -> tx :: lists_txs P ++ lists_txs Q ≡ₚ old :: lists_txs P' ++ lists_txs Q' ->
  priced_ok [] (lk_Remove (tx_Hash old) all) pr' -> core [] [] P' Q' (lk_Add tx local (lk_Remove (tx_Hash old) all)) (pr_Put tx local pr').
Proof.
  intros [H1 H2 H3 H4 H5 H6 H7] Hin Hpl Hv Hg HP HQ Hp Hpr. destruct (lk_Remove_ok all old H3 Hin) as (E1 & E2 & E3). set (all' := lk_Remove (tx_Hash old) all) in *.
  destruct (lk_Add_ok all' tx local E1) as [E4 E5]; [unfold all'; rewrite lk_Get_Remove; by case_decide|]. rewrite app_nil_r in H5.
  split; try done; [by apply pr_Put_ok| | |].
  - rewrite E5, app_nil_r. apply (Permutation_cons_inv (a := old)). rewrite <- Hp, <- H5, E2. apply Permutation_swap.
  - rewrite E5. cbn. rewrite Hpl. rewrite E2 in H6. done.
  - intros y. rewrite E5. intros [->|Hy]%elem_of_cons; [done|]. apply H7. rewrite E2. set_solver.
Qed.

Lemma lists_insert strict m a l : lists_ok strict m -> list_ok strict a l -> tl_items l <> ∅ -> lists_ok strict (<[a := l]> m).
Proof. intros H Hl Hne. rewrite <- put_list_nonempty by done. by apply lists_put. Qed.

(** The list of an account with a transaction in the place of another. *)
Lemma insert_swap strict m a l l' tx old : lists_ok strict m -> m !! a = Some l -> tl_wf l' -> tl_strict l' = tl_strict l -> Sender tx = Some a ->
  tl_items l !! tx_Nonce tx = Some old -> tl_items l' = <[tx_Nonce tx := tx]> (tl_items l) ->
  lists_ok strict (<[a := l']> m) /\ tx :: lists_txs m ≡ₚ old :: lists_txs (<[a := l']> m).
Proof.
  intros Hm El Hw Hst Hs Ho Hit. destruct (Hm a l El) as [[H1 H2 H3] _]. split.
  - apply lists_insert; [done| |rewrite Hit; apply insert_non_empty]. split; [done|congruence|]. rewrite Hit. intros n y [[<- <-]|[_ Hy]]%lookup_insert_Some; [done|by apply (H3 n)].
  - rewrite lists_txs_insert, (lists_txs_delete m a l El), Hit, (values_delete (tl_items l) _ old Ho), (values_delete (<[_ := tx]> _) (tx_Nonce tx) tx) by apply lookup_insert_eq.
    rewrite delete_insert_eq. cbn. apply Permutation_swap.
Qed.

(** A place that is neither pending nor queued is free. *)
Lemma place_free p tx a : inv [] [] p -> Sender tx = Some a -> pend p a !! tx_Nonce tx = None -> que p a !! tx_Nonce tx = None -> place tx ∉ place <$> all_txs (tp_all p).
Proof.
  intros Hi Ha Hp Hq (y & E & Hy)%list_elem_of_fmap. destruct (all_listed p y Hi Hy) as (b & Hb & Hpos). unfold place in E. rewrite Ha, Hb in E. simplify_eq.
  destruct Hpos as [Hpos|Hpos]; congruence.
Qed.

(** The pool after a step of [add] that does not touch the pending lists. *)
Record quiet (p p' : TxPool) : Prop := {
  qu_kept : kept p p';
  qu_pending : tp_pending p' = tp_pending p;
  qu_nonces : tp_pendingNonces p' = tp_pendingNonces p;
}.

Lemma quiet_trans p q r : quiet p q -> quiet q r -> quiet p r.
Proof. intros [H1 H2 H3] [H4 H5 H6]. split; [by eapply kept_trans|congruence|congruence]. Qed.

Lemma quiet_edits p p' : quiet p p' -> edits p p'.
Proof. intros [H1 H2 H3]. by apply edits_same. Qed.

(** A new transaction whose place is not pending is queued, unless it does not pay more than the queued one it would replace. *)
Lemma runs_enqueue_new tx a isLocal now p (R : bool * goerror -> TxPool -> Prop) :
  inv [] [] p -> valid tx -> Sender tx = Some a -> lk_Get (tp_all p) (tx_Hash tx) = None -> pend p a !! tx_Nonce tx = None ->
  (forall p', inv [] [] p' -> quiet p p' -> lk_Get (tp_all p') (tx_Hash tx) = Some tx -> R (bool_decide (is_Some (que p a !! tx_Nonce tx)), None) p') ->
  (forall p' o, inv [] [] p' -> quiet p p' -> tp_all p' = tp_all p -> que p a !! tx_Nonce tx = Some o -> better o tx (pc_PriceBump (tp_config p)) = false -> R (false, Some ErrReplaceUnderpriced) p') ->
  runs (enqueueTx tx isLocal true now) p R.
Proof.
  intros Hi Hv Ha Hg Hnp HR HRe. pose proof Hi as (Hc & He). unfold enqueueTx. apply runs_bind, runs_pool_of. cbv zeta. rewrite (sender_eq tx a Ha).
  destruct (que p a !! tx_Nonce tx) as [old|] eqn:Eq.
  2: { destruct (add_free false (tp_queue p) a tx (pc_PriceBump (tp_config p)) [] (co_queue _ _ _ _ _ Hc) Ha Hv Eq) as (l & E & Hl & Hit & Hne & Hp). rewrite E.
    apply runs_bind, runs_modify. cbn [negb forget_old]. apply runs_bind, runs_ret, runs_bind, runs_modify, runs_bind, runs_modify, runs_ret.
    assert (Hcc := core_track tx isLocal [] _ _ _ _ Hc Hg Hv (place_free p tx a Hi Ha Hnp Eq)). apply HR; [|done|].
    - split; [|done]. cbn. rewrite <- (put_list_nonempty (tp_queue p) a l Hne). eapply core_queue_put; [exact Hcc|done|]. exact Hp.
    - apply lk_Get_elem; [apply Hcc|]. rewrite (co_perm _ _ _ _ _ Hcc). set_solver. }
  destruct (items_lookup (tp_queue p) a _ _ Eq) as (l & El & Hit). rewrite El. cbn [default]. destruct (co_queue _ _ _ _ _ Hc a l El) as [Hl Hne].
  assert (Hv64 : 0 <= tx_Nonce tx < 2 ^ 64) by (destruct Hv as (_ & Hv & _); lia). pose proof (tl_Add_ok tx (pc_PriceBump (tp_config p)) l Hv64 (li_wf _ _ _ Hl)) as HA. destruct (tl_Add _ _ _) as [[inserted o] l'].
  destruct HA as (Hw & Hst & HA). apply runs_bind, runs_modify. unfold que in Eq. rewrite <- Hit in Eq. destruct inserted; cbn [negb]; cycle 1.
  { destruct HA as (-> & _ & o' & E1 & E2). assert (o' = old) as -> by congruence. apply runs_ret. apply (HRe _ old); try done. split; [|done]. cbn. by rewrite insert_id. }
  destruct HA as (-> & Hit' & _). rewrite Eq. destruct (que_all _ p a (tx_Nonce tx) old Hi) as [Hin Hpl]; [unfold que; by rewrite <- Hit|]. destruct (lk_Remove_ok _ old (co_all _ _ _ _ _ Hc) Hin) as (_ & _ & Hsub).
  cbn [forget_old]. apply runs_bind, runs_bind, runs_modify. apply (runs_maybe_Removed (D := []) true); [eapply priced_sub; [done|apply Hc]|]. intros pr Hpr _. cbn in Hpr.
  apply runs_bind, runs_modify, runs_bind, runs_modify, runs_ret. destruct (insert_swap false (tp_queue p) a l l' tx old) as [HQ Hp]; try done; [apply Hc|].
  assert (Hcc : core [] [] (tp_pending p) (<[a := l']> (tp_queue p)) (lk_Add tx isLocal (lk_Remove (tx_Hash old) (tp_all p))) (pr_Put tx isLocal pr)).
  { apply (core_swap tx old isLocal (tp_pending p) (tp_queue p) _ _ _ (tp_priced p)); try done; [unfold place at 1; by rewrite Hpl, Ha|apply Hc|]. rewrite !Permutation_middle. by rewrite Hp. }
  apply HR; [by split|done|]. apply lk_Get_elem; [apply Hcc|]. cbn. destruct (lk_Add_ok (lk_Remove (tx_Hash old) (tp_all p)) tx isLocal) as [_ ->]; [|rewrite lk_Get_Remove; by case_decide|set_solver].
  by apply lk_Remove_ok; [apply Hc|].
Qed.

Lemma events_queue e tx : events_ok e -> valid tx -> events_ok (<[sender tx := sm_Put tx (default newTxSortedMap (e !! sender tx))]> e).
Proof.
  intros He (_ & Hv & _) b m [[<- <-]|[_ Hb]]%lookup_insert_Some; [|by apply (He b)]. apply sm_Put_ok; [lia|].
  destruct (e !! sender tx) as [m|] eqn:Em; [by apply (He (sender tx))|]. apply (newTxList_wf true).
Qed.

(** A new transaction takes the place of a pending one that pays less. *)
Lemma runs_replace_pending tx a l l' old isLocal now p (R : bool * goerror -> TxPool -> Prop) :
  inv [] [] p -> valid tx -> Sender tx = Some a -> lk_Get (tp_all p) (tx_Hash tx) = None -> tp_pending p !! a = Some l ->
  tl_items l !! tx_Nonce tx = Some old -> tl_wf l' -> tl_strict l' = tl_strict l -> tl_items l' = <[tx_Nonce tx := tx]> (tl_items l) -> payable p a tx ->
  (forall p', inv [] [] p' -> edits p p' -> lk_Get (tp_all p') (tx_Hash tx) = Some tx -> R (true, None) p') ->
  runs (_ ← modify (fun p => set_pending (<[a := l']> (tp_pending p)) p);
        _ ← forget_old (Some old); _ ← track tx isLocal; _ ← queueTxEvent tx;
        _ ← modify (fun p => set_beats (<[a := now]> (tp_beats p)) p); mret (true, None)) p R.
Proof.
  intros Hi Hv Ha Hg El Ho Hw Hst Hit Hpay HR. pose proof Hi as (Hc & He & Hcf). assert (Hpe : pend p a = tl_items l) by (unfold pend, items_of; by rewrite El).
  destruct (pend_all _ p a (tx_Nonce tx) old Hi) as [Hin Hpl]; [by rewrite Hpe|]. destruct (lk_Remove_ok _ old (co_all _ _ _ _ _ Hc) Hin) as (Hrok & _ & Hsub).
  apply runs_bind, runs_modify. cbn [forget_old]. apply runs_bind, runs_bind, runs_modify. apply (runs_maybe_Removed (D := []) true); [eapply priced_sub; [done|apply Hc]|]. intros pr Hpr _. cbn in Hpr.
  apply runs_bind, runs_modify, runs_bind, runs_modify, runs_bind, runs_modify, runs_ret. destruct (insert_swap true (tp_pending p) a l l' tx old) as [HP Hp]; try done; [apply Hc|].
  assert (Hcc : core [] [] (<[a := l']> (tp_pending p)) (tp_queue p) (lk_Add tx isLocal (lk_Remove (tx_Hash old) (tp_all p))) (pr_Put tx isLocal pr)).
  { apply (core_swap tx old isLocal (tp_pending p) (tp_queue p) _ _ _ (tp_priced p)); try done; [unfold place at 1; by rewrite Hpl, Ha|apply Hc|]. rewrite !app_comm_cons. by rewrite Hp. }
  apply HR.
  - split; [exact Hcc|]. split; [|done]. by apply events_queue.
  - apply (ed_replace _ _ a tx); try done; [rewrite Hpe, Ho; by eexists|]. intros b. unfold pend. cbn. rewrite insert_items, Hit, <- Hpe. by destruct (decide (b = a)) as [->|].
  - apply lk_Get_elem; [apply Hcc|]. cbn. destruct (lk_Add_ok (lk_Remove (tx_Hash old) (tp_all p)) tx isLocal Hrok) as [_ ->]; [rewrite lk_Get_Remove; by case_decide|set_solver].
Qed.

(** An account becomes local. *)
Lemma runs_mark_local a p (R : unit -> TxPool -> Prop) : inv [] [] p ->
  (forall p', inv [] [] p' -> quiet p p' -> (forall h, lk_Get (tp_all p') h = lk_Get (tp_all p) h) -> R tt p') -> runs (mark_local a) p R.
Proof.
  intros Hi HR. unfold mark_local. apply runs_bind, runs_pool_of. destruct (as_contains (tp_locals p) a); [apply runs_ret; by apply HR|]. cbv zeta. pose proof Hi as (Hc & He).
  pose proof (lk_RemoteToLocals_ok (as_add a (tp_locals p)) (tp_all p) (co_all _ _ _ _ _ Hc)) as HL. destruct (lk_RemoteToLocals _ _) as [n t]. destruct HL as (H1 & H2 & H3).
  apply runs_bind, runs_modify. destruct (pr_Removed_ok [] t n (tp_priced p)) as (l & E & Hl & _); [eapply priced_sub; [done|apply Hc]|].
  exists tt, (set_priced l (set_all t (set_locals (as_add a (tp_locals p)) p))). split; [unfold priced_Removed; cbn; by rewrite E|]. apply HR; [|done|].
  - split; [|done]. destruct Hc as [C1 C2 C3 C4 C5 C6 C7]. cbn. split; try done; [by rewrite H2|by rewrite H2|]. intros tx. rewrite H2. apply C7.
  - intros h. cbn. apply option_eq. intros tx. split; intros Hh.
    + destruct (lk_Get_hash _ h tx H1 Hh) as [<- Hin]. apply lk_Get_elem; [apply Hc|]. by rewrite <- H2.
    + destruct (lk_Get_hash _ h tx (co_all _ _ _ _ _ Hc) Hh) as [<- Hin]. apply lk_Get_elem; [done|]. by rewrite H2.
Qed.

(** What the pool may be given: 64-bit nonces with a successor, and an address where the payload needs one. *)
Record acceptable (tx : Transaction) : Prop := {
  ac_nonce : 0 <= tx_Nonce tx < 2 ^ 64 - 1;
  ac_size : 0 <= tx_Size tx;
  ac_to : forall w, tx_GetWormholes tx = Some w -> wh_Type w = 3 \/ wh_Type w = 4 -> is_Some (tx_To tx);
}.

Lemma IntrinsicGas_no_panic data al creation homestead istanbul : IntrinsicGas data al creation homestead istanbul <> Panic.
Proof.
  unfold IntrinsicGas. destruct (payload data) as [nft| |]; cbn; try done. assert (Hw : forall g, match nft with Some w => wh_TxGas w | None => Ret g end <> Panic).
  { intros g. destruct nft as [w|]; [|done]. unfold wh_TxGas. by repeat case_match. }
  specialize (Hw (if creation && homestead then TxGasContractCreation else TxGas)). destruct (match nft with Some w => wh_TxGas w | None => _ end) as [g| |]; cbn; try done.
  unfold data_gas. repeat case_match; done.
Qed.

(** *** What is checked *)

(** The rules that do not depend on the balances. *)
Record basic (p : TxPool) (isLocal : bool) (a : Address) (tx : Transaction) : Prop := {
  ba_2718 : tp_eip2718 p = true \/ tx_Type tx = LegacyTxType;
  ba_1559 : tp_eip1559 p = true \/ tx_Type tx <> DynamicFeeTxType;
  ba_size : tx_Size tx <= txMaxSize;
  ba_value : 0 <= tx_Value tx;
  ba_gas : tx_Gas tx <= tp_currentMaxGas p;
  ba_feecap : bitlen (tx_GasFeeCap tx) <= 256;
  ba_tipcap : bitlen (tx_GasTipCap tx) <= 256;
  ba_caps : tx_GasTipCap tx <= tx_GasFeeCap tx;
  ba_sender : Sender tx = Some a;
  ba_price : isLocal = true \/ tp_gasPrice p <= tx_GasTipCap tx;
  ba_nonce : cs_GetNonce (tp_currentState p) a <= tx_Nonce tx;
}.

(** The rules on the balances: a pledge (type 3) goes to the sender itself or to an account with enough stake, and its
    sender pays fee and amount; a withdrawal (type 4) takes all of the sender's stake at the account or leaves enough, and its
    sender pays the fee; everything else is paid in full. *)
Definition funded (s : ChainState) (a : Address) (tx : Transaction) : Prop :=
  match tx_GetWormholes tx with
  | Some w =>
      if wh_Type w =? 3 then
        exists to, tx_To tx = Some to /\ (a = to \/ StakerBase <= cs_GetPledgedBalance s to) /\ tx_GasFee tx + tx_Value tx <= cs_GetBalance s a
      else if wh_Type w =? 4 then
        exists to, tx_To tx = Some to /\ tx_GasFee tx <= cs_GetBalance s a /\ tx_Value tx <= cs_GetPledgedBalance s to /\
          let stake := cs_GetStakerPledgedBalance s a to in tx_Value tx = stake \/ tx_Value tx + StakerBase <= stake \/ tx_Value tx <= 0 /\ tx_Value tx <= stake
      else tx_Cost tx <= cs_GetBalance s a
  | None => tx_Cost tx <= cs_GetBalance s a
  end.

(** The gas covers what every transaction of its kind needs. *)
Definition enough_gas (p : TxPool) (tx : Transaction) : Prop :=
  exists g, IntrinsicGas (tx_Data tx) (tx_AccessList tx) (negb (bool_decide (is_Some (tx_To tx)))) true (tp_istanbul p) = Ret g /\ g <= tx_Gas tx.

Definition admitted (p : TxPool) (isLocal : bool) (a : Address) (tx : Transaction) : Prop :=
  basic p isLocal a tx /\ funded (tp_currentState p) a tx /\ enough_gas p tx.

(** After the basic rules [validateTx] checks the balances and the gas. *)
Lemma validateTx_basic p isLocal a tx : basic p isLocal a tx -> validateTx tx isLocal p =
  (err ← check_funds (tp_currentState p) a tx;
   match err with
   | Some e => Some (Some e)
   | None =>
       match IntrinsicGas (tx_Data tx) (tx_AccessList tx) (negb (bool_decide (is_Some (tx_To tx)))) true (tp_istanbul p) with
       | Ret intrGas => Some (if tx_Gas tx <? intrGas then Some ErrIntrinsicGas else None)
       | Err e => Some (Some e)
       | Panic => None
       end
   end).
Proof.
  intros [H1 H2 H3 H4 H5 H6 H7 H8 H9 H10 H11]. unfold validateTx, tx_GasFeeCapIntCmp, tx_GasTipCapIntCmp.
  pose proof (Cmp_lt (tx_GasFeeCap tx) (tx_GasTipCap tx)). pose proof (Cmp_lt (tx_GasTipCap tx) (tp_gasPrice p)).
  assert (negb (tp_eip2718 p) && negb (tx_Type tx =? LegacyTxType) = false) as -> by (destruct H1 as [->| ->]; [done|by rewrite Z.eqb_refl, andb_false_r]).
  assert (negb (tp_eip1559 p) && (tx_Type tx =? DynamicFeeTxType) = false) as -> by (destruct H2 as [->|?%Z.eqb_neq]; [done|apply andb_false_iff; by right]).
  assert (negb isLocal && (Cmp (tx_GasTipCap tx) (tp_gasPrice p) <? 0) = false) as Hpr by (destruct H10 as [->|?]; [done|]; apply andb_false_iff; right; apply Z.ltb_ge; lia).
  rewrite H9, Hpr. by repeat (match goal with |- context [?x <? ?y] => destruct (Z.ltb_spec x y); [lia|] end).
Qed.

(** Without the basic rules it gives an error. *)
Lemma validateTx_error p isLocal tx : (exists a, basic p isLocal a tx) \/ exists e, validateTx tx isLocal p = Some (Some e).
Proof.
  unfold validateTx, tx_GasFeeCapIntCmp, tx_GasTipCapIntCmp. pose proof (Cmp_lt (tx_GasFeeCap tx) (tx_GasTipCap tx)). pose proof (Cmp_lt (tx_GasTipCap tx) (tp_gasPrice p)).
  destruct (negb (tp_eip2718 p) && _) eqn:E1; [right; by eexists|]. destruct (negb (tp_eip1559 p) && _) eqn:E2; [right; by eexists|].
  do 6 (match goal with |- context [?x <? ?y] => destruct (Z.ltb_spec x y); [right; by eexists|] end). destruct (Sender tx) as [a|] eqn:Ea; [|right; by eexists].
  destruct (negb isLocal && _) eqn:E3; [right; by eexists|]. destruct (Z.ltb_spec (tx_Nonce tx) (cs_GetNonce (tp_currentState p) a)); [right; by eexists|]. left. exists a. split; try done; try lia.
  - destruct (tp_eip2718 p); [by left|right]. cbn in E1. by apply negb_false_iff, Z.eqb_eq in E1.
  - destruct (tp_eip1559 p); [by left|right]. cbn in E2. by apply Z.eqb_neq in E2.
  - destruct isLocal; [by left|right]. cbn in E3. apply Z.ltb_ge in E3. lia.
Qed.

(** The check of the balances, for a transaction with a recipient where it needs one. *)
Lemma check_funds_funded s a tx : acceptable tx -> exists e, check_funds s a tx = Some e /\ (e = None <-> funded s a tx).
Proof.
  intros [_ _ Hto]. assert (Hplain : forall c, (if cs_GetBalance s a <? c then Some ErrInsufficientFunds else None) = None <-> c <= cs_GetBalance s a).
  { intros c. destruct (Z.ltb_spec (cs_GetBalance s a) c); split; done || lia. }
  unfold check_funds, funded. cbv zeta. destruct (tx_GetWormholes tx) as [w|]; [specialize (Hto w eq_refl)|by eexists].
  destruct (Z.eqb_spec (wh_Type w) 3) as [E3|]; [|destruct (Z.eqb_spec (wh_Type w) 4) as [E4|]; [|by eexists]].
  - destruct Hto as [to Eto]; [by left|]. rewrite Eto. cbn [mbind option_bind]. destruct ((cs_GetPledgedBalance s to <? StakerBase) && negb (a =? to)) eqn:E.
    + eexists. split; [done|]. split; [done|]. intros (to' & [= <-] & H & _). destruct (Z.ltb_spec (cs_GetPledgedBalance s to) StakerBase), (Z.eqb_spec a to); cbn in E; done || lia.
    + eexists. split; [done|]. rewrite Hplain. split; [|by intros (to' & _ & _ & H)]. intros H. exists to. split; [done|]. split; [|done].
      destruct (Z.ltb_spec (cs_GetPledgedBalance s to) StakerBase), (Z.eqb_spec a to); cbn in E; try done; auto with lia.
  - destruct Hto as [to Eto]; [by right|]. rewrite Eto. cbn [mbind option_bind]. set (stake := cs_GetStakerPledgedBalance s a to).
    assert (HS : 0 < StakerBase) by done. destruct (Z.ltb_spec (cs_GetBalance s a) (tx_GasFee tx)); [eexists; split; [done|]; split; [done|]; intros (? & [= <-] & ? & _); lia|].
    destruct (Z.ltb_spec (cs_GetPledgedBalance s to) (tx_Value tx)); [eexists; split; [done|]; split; [done|]; intros (? & [= <-] & _ & ? & _); lia|].
    destruct (Z.ltb_spec stake (tx_Value tx)); [eexists; split; [done|]; split; [done|]; intros (? & [= <-] & _ & _ & Hs); fold stake in Hs; lia|].
    destruct (negb (stake =? tx_Value tx) && (0 <? tx_Value tx) && (stake <? tx_Value tx + StakerBase)) eqn:E.
    + eexists. split; [done|]. split; [done|]. intros (? & [= <-] & _ & _ & Hs). fold stake in Hs. apply andb_true_iff in E as [[E1%negb_true_iff%Z.eqb_neq E2%Z.ltb_lt]%andb_true_iff E3%Z.ltb_lt]. lia.
    + eexists. split; [done|]. split; [|done]. intros _. exists to. do 3 (split; [done|]). cbv zeta. fold stake.
      destruct (Z.eqb_spec stake (tx_Value tx)); [by left|]. destruct (Z.ltb_spec 0 (tx_Value tx)), (Z.ltb_spec stake (tx_Value tx + StakerBase)); cbn in E; done || lia.
Qed.

(** A transaction that is funded is not dropped for its costs. *)
Lemma funded_payable p a tx : funded (tp_currentState p) a tx -> tx_Gas tx <= tp_currentMaxGas p -> payable p a tx.
Proof.
  intros Hf Hg. unfold payable. destruct (unpayable _ _ tx) eqn:E; [|done]. apply unpayable_true in E as [He Hor]. exfalso. unfold funded, exempt in *.
  destruct (tx_GetWormholes tx) as [w|]; [|lia]. destruct (Z.eqb_spec (wh_Type w) 4); [done|]. destruct (wh_Type w =? 3); [|lia]. destruct Hf as (to & _ & _ & Hf). unfold tx_Cost, tx_GasFee in *. lia.
Qed.

(** The checks are made without a panic, and are exactly those of [admitted]. *)
Lemma validateTx_ok tx isLocal p : acceptable tx -> exists e, validateTx tx isLocal p = Some e /\ (e = None <-> exists a, admitted p isLocal a tx).
Proof.
  intros Hac. assert (Hrest : forall a, basic p isLocal a tx -> exists e, validateTx tx isLocal p = Some e /\ (e = None <-> funded (tp_currentState p) a tx /\ enough_gas p tx)).
  { intros a Hb. rewrite (validateTx_basic p isLocal a tx Hb). destruct (check_funds_funded (tp_currentState p) a tx Hac) as (e & -> & He). cbn [mbind option_bind].
    destruct e as [e|]; [eexists; split; [done|]; split; [done|]; intros [H _]; by apply He in H|]. unfold enough_gas.
    pose proof (IntrinsicGas_no_panic (tx_Data tx) (tx_AccessList tx) (negb (bool_decide (is_Some (tx_To tx)))) true (tp_istanbul p)) as Hnp. destruct (IntrinsicGas _ _ _ _ _) as [g|e|]; [| |done].
    - eexists. split; [done|]. destruct (Z.ltb_spec (tx_Gas tx) g); (split; [try done|]). { intros [_ (g' & [= <-] & ?)]. lia. } intros _. split; [by apply He|by exists g]. done.
    - eexists. split; [done|]. split; [done|]. by intros [_ (g' & ? & _)]. }
  destruct (validateTx_error p isLocal tx) as [[a Hb]|[e E]].
  - destruct (Hrest a Hb) as (e & E & He). exists e. split; [done|]. rewrite He. split; [by exists a|]. intros (b & Hb' & H). assert (b = a) as -> by (pose proof (ba_sender _ _ _ _ Hb); pose proof (ba_sender _ _ _ _ Hb'); congruence). done.
  - exists (Some e). split; [done|]. split; [done|]. intros (a & Hb & H). destruct (Hrest a Hb) as (e' & E' & He). apply He in H. congruence.
Qed.

(** ** The operations *)

Lemma runs_add_queued tx a local isLocal now p (R : bool * goerror -> TxPool -> Prop) :
  inv [] [] p -> valid tx -> Sender tx = Some a -> lk_Get (tp_all p) (tx_Hash tx) = None -> pend p a !! tx_Nonce tx = None ->
  (forall b e p', inv [] [] p' -> quiet p p' -> lk_Get (tp_all p') (tx_Hash tx) = match e with None => Some tx | Some _ => None end -> (forall x, e = Some x -> x ∈ crowded) -> R (b, e) p') -> runs (add_queued tx local isLocal now) p R.
Proof.
  intros Hi Hv Ha Hg Hn HR. unfold add_queued. apply runs_bind, (runs_enqueue_new tx a); try done.
  - intros p1 H1 H2 H3. apply runs_bind. destruct local; [|apply runs_ret, runs_ret; by apply HR].
    apply runs_mark_local; [done|]. intros p2 E1 E2 E3. apply runs_ret. apply HR; [done|by eapply quiet_trans|by rewrite E3|done].
  - intros p1 o H1 H2 H3 H4 H5. apply runs_ret. apply HR; [done|done|by rewrite H3|]. intros x [= <-]. do 2 right. by left.
Qed.

(** The result of adding a transaction: it is in the pool and was admitted, or the pool has it as before, and it was known, not
    admitted, or in the way of others. *)
Definition added (local : bool) (tx : Transaction) (p : TxPool) (e : goerror) (p' : TxPool) : Prop :=
  let isLocal := local || as_containsTx (tp_locals p) tx in
  let known := lk_Get (tp_all p) (tx_Hash tx) in
  match e with
  | None => known = None /\ lk_Get (tp_all p') (tx_Hash tx) = Some tx /\ exists a, admitted p isLocal a tx
  | Some x => lk_Get (tp_all p') (tx_Hash tx) = known /\
      (is_Some known /\ x = ErrAlreadyKnown \/ known = None /\ ((~ exists a, admitted p isLocal a tx) \/ x ∈ crowded))
  end.

Lemma runs_add tx local now p (R : bool * goerror -> TxPool -> Prop) : inv [] [] p -> acceptable tx ->
  (forall b e p', inv [] [] p' -> edits p p' -> added local tx p e p' -> R (b, e) p') ->
  runs (add tx local now) p R.
Proof.
  intros Hi Hac HR. unfold add, added in *. apply runs_bind, runs_pool_of. cbv zeta in *. destruct (lk_Get (tp_all p) (tx_Hash tx)) as [y|] eqn:Eg; [apply runs_ret; apply HR; [done|apply edits_refl|split; [done|left; split; [by eexists|done]]]|].
  set (isLocal := local || _) in *. destruct (validateTx_ok tx isLocal p Hac) as (e & E & Hval). apply runs_bind. eapply runs_lift; [exact E|].
  destruct e as [e|]; [apply runs_ret; apply HR; [done|apply edits_refl|split; [done|right; split; [done|left]; intros H; by apply Hval in H]]|].
  destruct (proj1 Hval eq_refl) as [a Had]. pose proof Had as (Hb & Hf & _). pose proof (ba_sender _ _ _ _ Hb) as Ha. pose proof (funded_payable p a tx Hf (ba_gas _ _ _ _ Hb)) as Hpay.
  assert (Hv : valid tx) by (destruct Hac; by split; [eexists|]). clear Hval E. apply runs_bind, runs_make_room; [done|by destruct Hac|].
  intros e q Hq [Hk Hl Hcut Hget] Herr. specialize (Hget _ Eg). assert (Hed : edits p q) by by apply ed_cuts. destruct e as [e|]; [apply runs_ret; apply HR; [done|done|split; [done|right; split; [done|right]; by apply Herr]]|]. apply runs_bind, runs_pool_of. rewrite (sender_eq tx a Ha).
  assert (Hqueue : pend q a !! tx_Nonce tx = None -> runs (add_queued tx local isLocal now) q R).
  { intros Hn. apply (runs_add_queued tx a); try done. intros b e p' H1 H2 H3 H4. apply HR; [done|eapply ed_trans; [done|by apply quiet_edits]|]. destruct e as [x|]; [|by split_and!; [..|exists a]]. split; [done|]. right. split; [done|right]. by apply H4. }
  unfold pend, items_of in Hqueue. destruct (tp_pending q !! a) as [l|] eqn:El; [|by apply Hqueue]. unfold tl_Overlaps, sm_Get in *. fold (tl_items l) in *.
  destruct (tl_items l !! tx_Nonce tx) as [old|] eqn:Eo; [|by apply Hqueue]. cbn. pose proof (proj1 Hq) as Hc. destruct (co_pending _ _ _ _ _ Hc a l El) as [Hlist _].
  assert (Hv64 : 0 <= tx_Nonce tx < 2 ^ 64) by (destruct Hac; lia). pose proof (tl_Add_ok tx (pc_PriceBump (tp_config q)) l Hv64 (li_wf _ _ _ Hlist)) as HA. destruct (tl_Add _ _ _) as [[inserted o] l'].
  destruct HA as (Hw & Hst & HA). destruct inserted; cbn [negb]; [|apply runs_ret; apply HR; [done|done|split; [done|right; split; [done|right; do 2 right; by left]]]]. destruct HA as (-> & Hit & _). rewrite Eo.
  apply (runs_replace_pending tx a l l' old); try done; [unfold payable; by rewrite (ke_state _ _ Hk), (ke_gas _ _ Hk)|]. intros p' H1 H2 H3. apply HR; [done|by eapply ed_trans|by split_and!; [..|exists a]].
Qed.

Lemma runs_addTxsLocked txs local now p (R : list goerror * accountSet -> TxPool -> Prop) : inv [] [] p -> Forall acceptable txs ->
  (forall errs dirty p', inv [] [] p' -> edits p p' -> length errs = length txs -> R (errs, dirty) p') -> runs (addTxsLocked txs local now) p R.
Proof.
  revert p R. induction txs as [|tx txs IH]; intros p R Hi Hac HR; cbn [addTxsLocked]; [apply runs_ret; apply HR; [done|apply edits_refl|done]|]. apply Forall_cons in Hac as [Hac Hacs].
  apply runs_bind, runs_add; [done|done|]. intros b e p1 H1 H2 _. apply runs_bind, IH; [done|done|]. intros errs dirty p2 E1 E2 E3. apply runs_ret. apply HR; [done|by eapply ed_trans|cbn; by rewrite E3].
Qed.

(** *** The errors of a batch *)

(** Errors go to the free slots, in order. *)
Fixpoint fill (errs news : list goerror) : list goerror :=
  match errs, news with
  | None :: errs, e :: news => e :: fill errs news
  | e :: errs, _ => e :: fill errs news
  | [], _ => []
  end.

Definition free (errs : list goerror) : nat := length (filter (fun e => e = None) errs).

Lemma nil_slot_app done rest : nil_slot (done ++ rest) (length done) = (fun i => length done + i)%nat <$> nil_slot rest 0.
Proof. induction done as [|e done IH]; cbn [app length nil_slot]; [by destruct (nil_slot rest 0)|]. rewrite IH. by destruct (nil_slot rest 0). Qed.

Lemma nil_slot_found errs : (0 < free errs)%nat -> exists pre post, errs = pre ++ None :: post /\ nil_slot errs 0 = Some (length pre) /\ Forall is_Some pre.
Proof.
  induction errs as [|[e|] errs IH]; intros H; [cbn in H; lia| |by exists [], errs]. destruct (IH H) as (pre & post & -> & E & Hs). exists (Some e :: pre), post. cbn [nil_slot app length].
  rewrite E. split; [done|]. split; [done|]. constructor; [by eexists|done].
Qed.

Lemma fill_pre pre errs news : Forall is_Some pre -> fill (pre ++ errs) news = pre ++ fill errs news.
Proof. induction 1 as [|e pre [x ->] _ IH]; [done|]. cbn. by rewrite IH. Qed.

Lemma fill_nil errs : fill errs [] = errs.
Proof. induction errs as [|[e|] errs IH]; [done|cbn; by rewrite IH..]. Qed.

Lemma free_pre pre errs : Forall is_Some pre -> free (pre ++ errs) = free errs.
Proof. unfold free. induction 1 as [|e pre [x ->] _ IH]; [done|]. by cbn. Qed.

Lemma merge_errs_fill news pfx rest : (length news <= free rest)%nat -> merge_errs news (pfx ++ rest) (length pfx) = Some (pfx ++ fill rest news).
Proof.
  revert pfx rest. induction news as [|e news IH]; intros pfx rest H; cbn [merge_errs]; [by rewrite fill_nil|]. cbn [length] in H.
  destruct (nil_slot_found rest ltac:(lia)) as (pre & post & -> & E & Hs). rewrite nil_slot_app, E. cbn [fmap option_fmap option_map mbind option_bind].
  rewrite insert_app_r. replace (<[length pre := e]> (pre ++ None :: post)) with (pre ++ e :: post) by (rewrite <- (Nat.add_0_r (length pre)), insert_app_r; done). rewrite fill_pre by done. cbn [fill].
  replace (S (length pfx + length pre)) with (length (pfx ++ pre ++ [e])) by (rewrite !length_app; cbn; lia). replace (pfx ++ pre ++ e :: post) with ((pfx ++ pre ++ [e]) ++ post) by by rewrite <- !app_assoc.
  rewrite free_pre in H by done. rewrite IH, <- !app_assoc; [done|]. change (free (None :: post)) with (S (free post)) in H. lia.
Qed.

(** The transactions of a batch that have no error yet. *)
Definition new_txs (all : txLookup) (txs : list Transaction) : list Transaction := (filter (fun te => te.2 = None) (zip txs (pre_errors all txs))).*1.

Lemma new_txs_ok all txs (P : Transaction -> Prop) : Forall P txs -> length (new_txs all txs) = free (pre_errors all txs) /\ Forall P (new_txs all txs).
Proof.
  intros HP. unfold new_txs, free. assert (Hlen : length (pre_errors all txs) = length txs) by apply length_fmap. revert Hlen. generalize (pre_errors all txs) as errs.
  induction HP as [|tx txs H _ IH]; intros [|e errs] Hlen; try done. cbn in *. destruct (IH errs ltac:(lia)) as [H1 H2]. destruct (decide (e = None)); cbn; split; auto with lia.
Qed.

(** A batch is the batch of its new transactions, with their errors in the free slots. *)
Lemma addTxs_fill txs local now p newErrs dirty p' : addTxsLocked (new_txs (tp_all p) txs) local now p = Some ((newErrs, dirty), p') -> (length newErrs <= free (pre_errors (tp_all p) txs))%nat ->
  addTxs txs local now p = Some ((fill (pre_errors (tp_all p) txs) newErrs, dirty), p').
Proof.
  intros E Hle. unfold addTxs, pool_of, lift. cbv [mbind PM_bind]. fold (new_txs (tp_all p) txs). destruct (new_txs (tp_all p) txs) as [|tx news].
  - injection E as <- <- <-. by rewrite fill_nil.
  - rewrite E. pose proof (merge_errs_fill newErrs [] _ Hle) as Hm. cbn [app length] in Hm. by rewrite Hm.
Qed.

Lemma runs_addTxs txs local now p (R : list goerror * accountSet -> TxPool -> Prop) : inv [] [] p -> Forall acceptable txs ->
  (forall newErrs dirty p', inv [] [] p' -> edits p p' -> length newErrs = free (pre_errors (tp_all p) txs) ->
    addTxsLocked (new_txs (tp_all p) txs) local now p = Some ((newErrs, dirty), p') -> R (fill (pre_errors (tp_all p) txs) newErrs, dirty) p') -> runs (addTxs txs local now) p R.
Proof.
  intros Hi Hac HR. destruct (new_txs_ok (tp_all p) txs acceptable Hac) as [Hn Hacn].
  assert (H : runs (addTxsLocked (new_txs (tp_all p) txs) local now) p (fun r p' => inv [] [] p' /\ edits p p' /\ length r.1 = free (pre_errors (tp_all p) txs))).
  { apply runs_addTxsLocked; [done|done|]. intros errs dirty p' H1 H2 H3. cbn. by rewrite H3, Hn. }
  destruct H as ([newErrs dirty] & p' & E & H1 & H2 & H3). cbn in H3. eexists _, p'. split; [apply addTxs_fill; [exact E|lia]|]. by apply HR.
Qed.

Lemma runs_SetGasPrice price now p (R : unit -> TxPool -> Prop) : inv [] [] p ->
  (forall p', inv [] [] p' -> kept p p' -> tp_locals p' = tp_locals p -> cuts p p' -> R tt p') -> runs (SetGasPrice price now) p R.
Proof.
  intros Hi HR. unfold SetGasPrice. apply runs_bind, runs_pool_of. apply runs_bind, runs_modify. destruct (tp_gasPrice p <? price); [|apply runs_ret; apply HR; try done; by apply same_pending_cuts].
  apply runs_bind, (runs_remove_many []); [done|]. intros p1 H1 H2 H3 H4 _. eapply runs_priced_Removed; [exact H1|]. intros l Hl _. apply HR; [done|by destruct H2|done|done].
Qed.
End adding.
