(* ===== verification/TxPoolReorg.v ===== *)
(** New heads: [reset], promotion, demotion and the nonces after a run of [runReorg].

    Shown: a run keeps the invariant, and does not panic if the chain has the new head and
    its header is well formed.  When the head advances, the
    pending transactions of an account that could be executed one after the other in the
    old state can be so in the new one, and the next nonce follows the last of them. *)
From S2P Require Import Prelude Common Params Wormholes StateTypes State StateDB Staking Evm Transition Rlp Heap TxTypes TxList TxListProps TxPriced TxPricedProps HeaderRules TxPool TxPoolOps TxPoolLimits TxPoolAdd.

Open Scope Z_scope.

(** ** Executable transactions of an account *)

Section account.
Context {CR : Crypto} {MA : Machine} {SG : Signer} (s : Z) (f : Transaction -> bool).

(** The nonces from the state's nonce [s] up to the next nonce [n], all of transactions that are not refused by [f]. *)
Definition ready_at (x : gmap Z Transaction) (n : Z) : Prop :=
  s <= n /\ (forall k, is_Some (x !! k) <-> s <= k < n) /\ forall k tx, x !! k = Some tx -> f tx = false.

(** Older transactions are left, and the next nonce may be too low. *)
Definition mid_at (x : gmap Z Transaction) (n : Z) : Prop :=
  s <= n /\ exists e, n <= e /\ (forall k, s <= k -> is_Some (x !! k) <-> k < e) /\ forall k tx, s <= k < n -> x !! k = Some tx -> f tx = false.

(** The next nonce may be too low. *)
Definition settled_at (x : gmap Z Transaction) (n : Z) : Prop :=
  mid_at x n /\ forall k tx, x !! k = Some tx -> s <= k /\ f tx = false.

Lemma ready_settled x n : ready_at x n -> settled_at x n.
Proof.
  intros (H1 & H2 & H3). split; [split; [done|]; exists n; split; [lia|]; split|].
  - intros k Hk. rewrite H2. lia.
  - intros k tx _ Hk. by apply (H3 k).
  - intros k tx Hk. split; [|by apply (H3 k)]. assert (Hs : is_Some (x !! k)) by by eexists. apply H2 in Hs. lia.
Qed.

Lemma ready_cut x x' n n' : ready_at x n -> cut_at x x' n n' -> ready_at x' n'.
Proof.
  intros (H1 & H2 & H3) [[-> ->]|(k & Hk & -> & ->)]; [done|]. apply H2 in Hk. rewrite Z.min_l by lia. split; [lia|]. split.
  - intros j. split; [intros [tx [Hj Hlt]%below_lookup]; assert (Hs : is_Some (x !! j)) by (by eexists); apply H2 in Hs; lia|].
    intros Hj. destruct (proj2 (H2 j) ltac:(lia)) as [tx Htx]. exists tx. apply below_lookup. split; [done|lia].
  - intros j tx [Hj _]%below_lookup. by apply (H3 j).
Qed.

Lemma settled_cut x x' n n' : settled_at x n -> cut_at x x' n n' -> settled_at x' n'.
Proof.
  intros ((H1 & e & H2 & H3 & H4) & H5) [[-> ->]|(k & [tx Hk] & -> & ->)]; [split; [split; [done|by exists e]|done]|]. pose proof (H5 k tx Hk) as [Hsk _].
  assert (Hke : k < e) by (apply H3; [done|by eexists]). split; [split; [lia|]; exists k; split; [lia|]; split|].
  - intros j Hj. split; [intros [y [_ Hlt]%below_lookup]; lia|]. intros Hlt. destruct (proj2 (H3 j Hj) ltac:(lia)) as [y Hy]. exists y. apply below_lookup. split; [done|lia].
  - intros j y Hj [Hy _]%below_lookup. by apply (H5 j y Hy).
  - intros j y [Hy _]%below_lookup. by apply (H5 j).
Qed.

Lemma ready_replace x n tx : ready_at x n -> is_Some (x !! tx_Nonce tx) -> f tx = false -> ready_at (<[tx_Nonce tx := tx]> x) n.
Proof.
  intros (H1 & H2 & H3) Hs Hf. split; [done|]. split.
  - intros k. rewrite <- H2. destruct (decide (k = tx_Nonce tx)) as [->|]; [|by rewrite lookup_insert_ne]. rewrite lookup_insert_eq. split; [done|by eexists].
  - intros k y [[_ <-]|[_ Hy]]%lookup_insert_Some; [done|by apply (H3 k)].
Qed.

(** Adding a run of transactions. *)
Lemma put_all_lookup r x k tx : put_all r x !! k = Some tx -> (tx ∈ r /\ tx_Nonce tx = k) \/ x !! k = Some tx.
Proof.
  revert x. induction r as [|y r IH]; intros x H; [by right|]. cbn in H. destruct (IH _ H) as [[Hin E]|Hx]; [left; split; [set_solver|done]|].
  apply lookup_insert_Some in Hx as [[<- <-]|[_ Hx]]; [left; split; [set_solver|done]|by right].
Qed.

Lemma put_all_some r x k : is_Some (x !! k) \/ k ∈ tx_Nonce <$> r -> is_Some (put_all r x !! k).
Proof.
  revert x. induction r as [|y r IH]; intros x H; [destruct H as [H|H]; [done|by apply elem_of_nil in H]|]. cbn. apply IH. destruct (decide (k = tx_Nonce y)) as [->|]; [left; rewrite lookup_insert_eq; by eexists|].
  rewrite lookup_insert_ne by done. destruct H as [H|H]; [by left|]. right. cbn in H. set_solver.
Qed.

Lemma run_elem n r k : is_run n r -> k ∈ tx_Nonce <$> r <-> n <= k < n + Z.of_nat (length r).
Proof.
  intros Hr. rewrite list_elem_of_fmap. split.
  - intros (tx & -> & Hin). apply list_elem_of_lookup in Hin as [i Hi]. pose proof (lookup_lt_Some _ _ _ Hi). rewrite (Hr i tx Hi). lia.
  - intros Hk. destruct (lookup_lt_is_Some_2 r (Z.to_nat (k - n)) ltac:(lia)) as [tx Htx]. exists tx. split; [|by eapply list_elem_of_lookup_2]. rewrite (Hr _ tx Htx). lia.
Qed.

Lemma run_after n r m : is_run n r -> r <> [] -> (forall tx, tx ∈ r -> 0 <= tx_Nonce tx < 2 ^ 64 - 1) -> nonce_after r m = n + Z.of_nat (length r).
Proof.
  intros Hr Hne Hv. destruct (exists_last Hne) as (l & tx & ->). unfold nonce_after. rewrite foldl_app. cbn. assert (Htx : tx_Nonce tx = n + Z.of_nat (length l)) by (apply Hr; by apply list_lookup_middle).
  specialize (Hv tx ltac:(set_solver)). rewrite length_app. cbn. unfold u64. rewrite Z.mod_small; lia.
Qed.

(** Promoting a run that starts no later than the next nonce. *)
Lemma mid_promote x n r : mid_at x n -> (forall tx, tx ∈ r -> x !! tx_Nonce tx = None /\ f tx = false /\ 0 <= tx_Nonce tx < 2 ^ 64 - 1) ->
  r = [] \/ (exists m, s <= m <= n /\ is_run m r) -> mid_at (put_all r x) (nonce_after r n).
Proof.
  intros (H1 & e & H2 & H3 & H4) Hr Hrun. destruct (decide (r = [])) as [->|Hne]; [split; [done|by exists e]|]. destruct Hrun as [|(m & Hm & Hrun)]; [done|].
  assert (Hme : m = e).
  { destruct (decide (e <= m)); [lia|]. exfalso. assert (m ∈ tx_Nonce <$> r) as (tx & E & Hin)%list_elem_of_fmap.
    { apply (run_elem m); [done|]. destruct r; [done|]. cbn. lia. }
    destruct (Hr tx Hin) as [Hx _]. destruct (proj2 (H3 m ltac:(lia)) ltac:(lia)) as [y Hy]. congruence. }
  assert (n = e) as -> by lia. subst m. rewrite (run_after e r) by naive_solver. split; [lia|]. exists (e + Z.of_nat (length r)). split; [lia|]. split.
  - intros k Hk. split.
    + intros [tx Htx]. destruct (put_all_lookup r x k tx Htx) as [[Hin E]|Hx]; [|assert (Hs : is_Some (x !! k)) by (by eexists); apply (H3 k Hk) in Hs; lia].
      assert (Hke : k ∈ tx_Nonce <$> r) by (apply list_elem_of_fmap; eauto). apply (run_elem e) in Hke; [lia|done].
    + intros Hlt. apply put_all_some. destruct (decide (k < e)); [left; by apply H3|right; apply (run_elem e); [done|lia]].
  - intros k tx Hk Htx. destruct (put_all_lookup r x k tx Htx) as [[Hin E]|Hx]; [by apply Hr|]. apply (H4 k tx); [|done]. assert (Hs : is_Some (x !! k)) by (by eexists). apply (H3 k ltac:(lia)) in Hs. lia.
Qed.

Lemma settled_promote x n r : settled_at x n -> (forall tx, tx ∈ r -> x !! tx_Nonce tx = None /\ f tx = false /\ 0 <= tx_Nonce tx < 2 ^ 64 - 1) ->
  r = [] \/ (exists m, s <= m <= n /\ is_run m r) -> settled_at (put_all r x) (nonce_after r n).
Proof.
  intros [Hm Hx] Hr Hrun. split; [by apply mid_promote|]. intros k tx Htx. destruct (put_all_lookup r x k tx Htx) as [[Hin E]|Hk]; [|by apply Hx]. split; [|by apply Hr].
  destruct Hrun as [->|(m & Hle & Hrun)]; [by apply elem_of_nil in Hin|]. assert (Hke : k ∈ tx_Nonce <$> r) by (apply list_elem_of_fmap; eauto). apply (run_elem m) in Hke; [lia|done].
Qed.
End account.

(** ** Executable transactions of the pool *)

Section reorg.
Context {CR : Crypto} {MA : Machine} {SG : Signer} {MR : MapRange} {BC : BlockChain}.

#[local] Notation inv := (inv []).
#[local] Notation core := (core []).

(** The nonce of an account in the state, and the transactions that the account cannot pay. *)
Definition snonce (p : TxPool) (a : Address) : Z := cs_GetNonce (tp_currentState p) a.
Definition refused (p : TxPool) (a : Address) : Transaction -> bool := unpayable (cs_GetBalance (tp_currentState p) a) (tp_currentMaxGas p).

Definition ready (p : TxPool) : Prop := forall a, ready_at (snonce p a) (refused p a) (pend p a) (next p a).
Definition mid (p : TxPool) : Prop := forall a, mid_at (snonce p a) (refused p a) (pend p a) (next p a).
Definition settled (p : TxPool) : Prop := forall a, settled_at (snonce p a) (refused p a) (pend p a) (next p a).

Lemma kept_state p p' a : kept p p' -> snonce p' a = snonce p a /\ refused p' a = refused p a.
Proof. intros [_ _ H1 H2]. unfold snonce, refused. by rewrite H1, H2. Qed.

Lemma ready_edits p p' : edits p p' -> ready p -> ready p'.
Proof.
  induction 1 as [p p' Hk Hc|p p' a tx Hk Hs Hpay Hp Hn|]; [| |auto]; intros Hr b; destruct (kept_state p p' b Hk) as [-> ->].
  - eapply ready_cut; [apply Hr|apply Hc].
  - rewrite Hp, Hn. destruct (decide (b = a)) as [->|]; [|apply Hr]. by apply ready_replace.
Qed.

Lemma settled_cuts p p' : kept p p' -> cuts p p' -> settled p -> settled p'.
Proof. intros Hk Hc Hs b. destruct (kept_state p p' b Hk) as [-> ->]. eapply settled_cut; [apply Hs|apply Hc]. Qed.

(** What is promoted was queued, so it is not pending, and it can be paid. *)
Lemma promotable_fresh p a r : inv [] p -> promotable p a r -> forall tx, tx ∈ r -> pend p a !! tx_Nonce tx = None /\ refused p a tx = false /\ 0 <= tx_Nonce tx < 2 ^ 64 - 1.
Proof.
  intros Hi [H _] tx Htx. destruct (H tx Htx) as [Hq Hu]. destruct (que_all _ p a _ tx Hi Hq) as [Hin _]. pose proof (co_valid _ _ _ _ _ (proj1 Hi) tx Hin) as (_ & Hv & _). split; [|done].
  destruct (pend p a !! tx_Nonce tx) as [y|] eqn:E; [|done]. rewrite (pend_que_disjoint _ p a _ y Hi E) in Hq. done.
Qed.

Lemma mid_promotes a r p p' : inv [] p -> kept p p' -> promotes a r p p' -> mid p -> mid p'.
Proof.
  intros Hi Hk [Ha Hp Hn] Hm b. destruct (kept_state p p' b Hk) as [-> ->]. rewrite Hp, Hn. destruct (decide (b = a)) as [->|]; [|apply Hm].
  apply mid_promote; [apply Hm|by apply promotable_fresh|apply Ha].
Qed.

Lemma settled_promotes a r p p' : inv [] p -> kept p p' -> promotes a r p p' -> settled p -> settled p'.
Proof.
  intros Hi Hk [Ha Hp Hn] Hm b. destruct (kept_state p p' b Hk) as [-> ->]. rewrite Hp, Hn. destruct (decide (b = a)) as [->|]; [|apply Hm].
  apply settled_promote; [apply Hm|by apply promotable_fresh|apply Ha].
Qed.

(** *** Demotion *)

Lemma executable_settled st g a m n : keyed m -> mid_at (cs_GetNonce st a) (unpayable (cs_GetBalance st a) g) m n ->
  settled_at (cs_GetNonce st a) (unpayable (cs_GetBalance st a) g) (executable st g a m) n.
Proof.
  intros Hk (H1 & e & H2 & H3 & H4). unfold executable. cbv zeta. set (s := cs_GetNonce st a) in *. set (f := unpayable _ _) in *. set (m1 := from s m). set (k := first_nonce (pick f m1)).
  assert (Hk1 : keyed m1) by (intros j tx [Hj _]%from_lookup; by apply Hk). assert (Hleast := fun j tx => first_pick_least f m1 j tx Hk1). assert (Hfirst := fun tx => first_picked f m1 tx Hk1). fold k in Hleast, Hfirst.
  assert (Hat : forall j, s <= j < e -> exists tx, m !! j = Some tx /\ m1 !! j = Some tx).
  { intros j Hj. destruct (proj2 (H3 j ltac:(lia)) ltac:(lia)) as [tx Htx]. exists tx. split; [done|]. apply from_lookup. split; [done|lia]. }
  case_decide as Hd.
  - destruct Hd as [tx0 [[Hs0 _]%from_lookup Hsk]%below_lookup]. assert (Hse : s < e) by (apply H3; [lia|by eexists]). assert (Hnk : n <= k).
    { destruct (decide (n <= k)); [done|]. destruct (Hat k ltac:(lia)) as (tx & E1 & E2). specialize (Hfirst tx E2). specialize (H4 k tx ltac:(lia) E1). congruence. }
    split; [split; [done|]; exists (Z.min k e); split; [lia|]; split|].
    + intros j Hj. split; [intros [tx [[Hj' _]%from_lookup Hlt]%below_lookup]; assert (j < e) by (apply H3; [done|by eexists]); lia|].
      intros Hlt. destruct (Hat j ltac:(lia)) as (tx & _ & E). exists tx. apply below_lookup. split; [done|lia].
    + intros j tx Hj [[Hj' _]%from_lookup _]%below_lookup. by apply (H4 j).
    + intros j tx [Hj Hlt]%below_lookup. split; [by apply from_lookup in Hj as [_ Hj]|]. destruct (f tx) eqn:Ef; [|done]. specialize (Hleast j tx Hj Ef). lia.
  - assert (n = s) as ->.
    { destruct (decide (n = s)); [done|]. exfalso. destruct (Hat s ltac:(lia)) as (tx & E1 & E2). specialize (H4 s tx ltac:(lia) E1). apply Hd. exists tx. apply below_lookup. split; [done|].
      destruct (decide (s < k)); [done|]. exfalso. destruct (decide (k = s)) as [E|]; [rewrite <- E in E2; specialize (Hfirst tx E2); congruence|].
      assert (Hks : k < s) by lia. unfold k, first_nonce in Hks. destruct (sorted (pick f m1)) as [|y l] eqn:Es; [destruct (Hk _ _ E1); lia|].
      assert (Hy : y ∈ sorted (pick f m1)) by (rewrite Es; set_solver). apply sorted_elem in Hy; [|by apply pick_keyed]. apply pick_lookup in Hy as [[_ Hy]%from_lookup _]. lia. }
    split; [split; [done|]; exists s; split; [done|]; split|].
    + intros j Hj. rewrite lookup_empty. split; [by intros []|lia].
    + intros j tx Hj. lia.
    + intros j tx. by rewrite lookup_empty.
Qed.

Lemma range_keys {V : Type} (m : gmap Z V) a : a ∈ (map_range m).*1 <-> is_Some (m !! a).
Proof.
  rewrite list_elem_of_fmap. split.
  - intros ([k v] & -> & H). rewrite map_range_perm in H. apply elem_of_map_to_list in H. by eexists.
  - intros [v H]. exists (a, v). split; [done|]. rewrite map_range_perm. by apply elem_of_map_to_list.
Qed.

Lemma range_NoDup {V : Type} (m : gmap Z V) : NoDup (map_range m).*1.
Proof. rewrite map_range_perm. apply NoDup_fst_map_to_list. Qed.

Lemma pend_missing p a : tp_pending p !! a = None -> pend p a = ∅.
Proof. intros H. unfold pend, items_of. by rewrite H. Qed.

Lemma runs_demoteUnexecutables now p (R : unit -> TxPool -> Prop) : inv [] p ->
  (forall p', inv [] p' -> kept p p' -> tp_locals p' = tp_locals p -> (forall b, next p' b = next p b) ->
    (forall b, pend p' b = executable (tp_currentState p) (tp_currentMaxGas p) b (pend p b)) -> R tt p') ->
  runs (demoteUnexecutables now) p R.
Proof.
  intros Hi HR. unfold demoteUnexecutables. apply runs_bind, runs_pool_of. set (E := fun b => executable (tp_currentState p) (tp_currentMaxGas p) b (pend p b)).
  apply (runs_for_each (fun l q => inv [] q /\ kept p q /\ tp_locals q = tp_locals p /\ (forall b, next q b = next p b) /\ NoDup l /\ forall b, pend q b = if decide (b ∈ l) then pend p b else E b)).
  - intros a l q (H1 & H2 & H3 & H4 & [Ha Hl]%NoDup_cons & H5). apply (runs_demote_account (D := [])); [done|]. intros q' E1 E2 E3 E4 E5.
    split; [done|]. split; [by eapply kept_trans|]. split; [congruence|]. split; [intros b; by rewrite E4|]. split; [done|]. intros b. rewrite E5, H5, (ke_state _ _ H2), (ke_gas _ _ H2).
    destruct (decide (b = a)) as [->|]; [by rewrite decide_True, decide_False by set_solver|]. repeat case_decide; set_solver.
  - split; [done|]. split; [done|]. split; [done|]. split; [done|]. split; [apply range_NoDup|]. intros b. case_decide as Hb; [done|]. rewrite range_keys in Hb. unfold E. rewrite pend_missing by (destruct (tp_pending p !! b); [exfalso; eauto|done]).
    unfold executable, from, below. rewrite !map_filter_empty. by case_decide.
  - intros q (H1 & H2 & H3 & H4 & _ & H5). by apply HR.
Qed.

(** *** Nonces and events *)

(** The nonce after the last transaction. *)
Definition after_last (x : gmap Z Transaction) (n : Z) : Z := match last (sorted x) with Some tx => u64 (tx_Nonce tx + 1) | None => n end.

Lemma settled_ready s f x n : keyed x -> (forall k tx, x !! k = Some tx -> k < 2 ^ 64 - 1) -> settled_at s f x n -> ready_at s f x (after_last x n).
Proof.
  intros Hk Hb ((H1 & e & H2 & H3 & H4) & H5). unfold after_last. destruct (last (sorted x)) as [tx|] eqn:El; cycle 1.
  { apply last_None in El. assert (x = ∅) as -> by (apply map_size_empty_iff; rewrite <- sorted_length, El; done). assert (~ s < e) by (rewrite <- (H3 s) by lia; rewrite lookup_empty; by intros []).
    split; [done|]. split; [|intros k y; by rewrite lookup_empty]. intros k. rewrite lookup_empty. split; [by intros []|lia]. }
  apply last_Some in El as [l El]. destruct (sorted_last x l tx Hk El) as [Htx _]. destruct (sorted_below_last x l tx Hk El) as [_ Hdel]. set (m := tx_Nonce tx) in *.
  assert (Hmax : forall k, is_Some (x !! k) -> k <= m).
  { intros k [y Hy]. destruct (decide (k = m)) as [->|]; [done|]. assert (Hd : delete m x !! k = Some y) by by apply lookup_delete_Some. rewrite Hdel in Hd. apply below_lookup in Hd as [_ Hd]. lia. }
  destruct (H5 m tx Htx) as [Hsm _]. assert (Hme : m < e) by (apply H3; [done|by eexists]). assert (e = m + 1).
  { destruct (decide (e = m + 1)); [done|]. assert (Hs : is_Some (x !! (m + 1))) by (apply H3; lia). apply Hmax in Hs. lia. }
  pose proof (Hb m tx Htx). destruct (Hk m tx Htx) as [_ Hm]. assert (u64 (m + 1) = e) as -> by (unfold u64; rewrite Z.mod_small; lia). split; [lia|]. split; [|intros k y Hy; by apply (H5 k)].
  intros k. split; [intros Hs; pose proof (Hmax k Hs); destruct Hs as [y Hy]; destruct (H5 k y Hy); lia|]. intros Hke. apply H3; lia.
Qed.

Lemma runs_update_nonce a p (R : unit -> TxPool -> Prop) : inv [] p ->
  (forall p', inv [] p' -> kept p p' -> tp_locals p' = tp_locals p -> tp_queue p' = tp_queue p -> (forall b, pend p' b = pend p b) -> (forall b, next p' b = if decide (b = a) then after_last (pend p b) (next p b) else next p b) -> R tt p') ->
  runs (update_nonce a) p R.
Proof.
  intros Hi HR. unfold update_nonce. apply runs_bind, runs_pool_of. destruct (tp_pending p !! a) as [l|] eqn:El.
  2: { apply runs_ret. apply HR; try done. intros b. case_decide as Hb; [|done]. subst b. by rewrite (pend_missing p a El). }
  destruct Hi as [Hc He]. destruct (co_pending _ _ _ _ _ Hc a l El) as [Hl Hne]. assert (Hp : pend p a = tl_items l) by (unfold pend, items_of; by rewrite El).
  destruct (exists_last (l := sorted (tl_items l))) as (s & tx & Es). { intros E. apply Hne, map_size_empty_iff. by rewrite <- sorted_length, E. }
  destruct (tl_LastElement_ok l s tx (li_wf _ _ _ Hl) Es) as (l' & E & Hw & Hst & Hit). apply runs_bind. eapply runs_lift; [exact E|]. apply runs_bind, runs_modify, runs_modify. apply HR; try done.
  - split; [|done]. cbn. rewrite <- put_list_nonempty by by rewrite Hit. eapply core_pending_put; [exact Hc|apply (list_ok_sub true a l); [done|done|done|by rewrite Hit]|]. rewrite <- Hp in Hit. by rewrite Hit.
  - intros b. unfold pend. cbn. rewrite insert_items, Hit. case_decide as Hb; [subst b; unfold items_of; by rewrite El|done].
  - intros b. unfold next. cbn. rewrite tn_set_at. case_decide as Hb; [|done]. subst b. unfold after_last. by rewrite Hp, Es, last_snoc.
Qed.

Lemma runs_update_nonces p (R : unit -> TxPool -> Prop) : inv [] p ->
  (forall p', inv [] p' -> kept p p' -> tp_locals p' = tp_locals p -> tp_queue p' = tp_queue p -> (forall b, pend p' b = pend p b) -> (forall b, next p' b = after_last (pend p b) (next p b)) -> R tt p') ->
  runs (for_each update_nonce (map_range (tp_pending p)).*1) p R.
Proof.
  intros Hi HR. apply (runs_for_each (fun l q => inv [] q /\ kept p q /\ tp_locals q = tp_locals p /\ tp_queue q = tp_queue p /\ (forall b, pend q b = pend p b) /\ NoDup l /\
    forall b, next q b = if decide (b ∈ l) then next p b else after_last (pend p b) (next p b))).
  - intros a l q (H1 & H2 & H3 & H4 & H5 & [Ha Hl]%NoDup_cons & H6). apply runs_update_nonce; [done|]. intros q' E1 E2 E3 E4 E5 E6.
    split; [done|]. split; [by eapply kept_trans|]. split; [congruence|]. split; [congruence|]. split; [intros b; by rewrite E5|]. split; [done|]. intros b. rewrite E6, H5, H6.
    destruct (decide (b = a)) as [->|]; [by rewrite decide_True, decide_False by set_solver|]. repeat case_decide; set_solver.
  - split; [done|]. split; [done|]. split; [done|]. split; [done|]. split; [done|]. split; [apply range_NoDup|]. intros b. case_decide as Hb; [done|]. rewrite range_keys in Hb. by rewrite pend_missing by (destruct (tp_pending p !! b); [exfalso; eauto|done]).
  - intros q (H1 & H2 & H3 & H4 & H5 & _ & H6). by apply HR.
Qed.

(** Steps that change neither lists nor nonces. *)
Record calm (p p' : TxPool) : Prop := {
  cl_kept : kept p p';
  cl_locals : tp_locals p' = tp_locals p;
  cl_pending : tp_pending p' = tp_pending p;
  cl_queue : tp_queue p' = tp_queue p;
  cl_next : forall b, next p' b = next p b;
}.

Lemma calm_trans p q r : calm p q -> calm q r -> calm p r.
Proof. intros [H1 H2 H3 H4 H5] [E1 E2 E3 E4 E5]. split; [by eapply kept_trans|congruence..|]. intros b. by rewrite E5. Qed.

Lemma runs_forward_events a p (R : unit -> TxPool -> Prop) : inv [] p -> (forall p', inv [] p' -> calm p p' -> R tt p') -> runs (forward_events a) p R.
Proof.
  intros Hi HR. unfold forward_events. apply runs_bind, runs_pool_of. destruct (tp_events p !! a) as [m|] eqn:Em; [|apply runs_ret; by apply HR]. destruct Hi as (Hc & He & Hcf).
  apply runs_bind, runs_pool_Nonce. intros t Ht. destruct (sm_Forward_ok (next p a) m (He a m Em)) as (m' & E & Hw & _). apply runs_bind. eapply runs_lift; [exact E|]. apply runs_modify. apply HR; [|done].
  split; [done|]. split; [|done]. cbn. intros b y Hy. destruct (sm_Len m' =? 0); [apply lookup_delete_Some in Hy as [_ Hy]; by apply (He b)|]. apply lookup_insert_Some in Hy as [[_ <-]|[_ Hy]]; [done|by apply (He b)].
Qed.

Lemma runs_calm_loop {A : Type} (f : A -> PM unit) (ok : A -> Prop) l p (R : unit -> TxPool -> Prop) :
  (forall x q (R : unit -> TxPool -> Prop), ok x -> inv [] q -> (forall q', inv [] q' -> calm q q' -> R tt q') -> runs (f x) q R) -> Forall ok l ->
  inv [] p -> (forall p', inv [] p' -> calm p p' -> R tt p') -> runs (for_each f l) p R.
Proof.
  intros Hf Hok Hi HR. apply (runs_for_each (fun l q => inv [] q /\ calm p q /\ Forall ok l)).
  - intros x l' q (H1 & H2 & [Hx Hl]%Forall_cons). apply Hf; [done|done|]. intros q' E1 E2. split; [done|]. split; [by eapply calm_trans|done].
  - done.
  - intros q (H1 & H2 & _). by apply HR.
Qed.

Lemma runs_queueTxEvent tx p (R : unit -> TxPool -> Prop) : valid tx -> inv [] p -> (forall p', inv [] p' -> calm p p' -> R tt p') -> runs (queueTxEvent tx) p R.
Proof. intros Hv (Hc & He & Hcf) HR. apply runs_modify. apply HR; [|done]. split; [done|]. split; [|done]. by apply events_queue. Qed.

Lemma runs_update_base_fee head p (R : unit -> TxPool -> Prop) : inv [] p -> (IsLondon (tp_chainconfig p) (hd_Number head + 1) = true -> is_Some (CalcBaseFee (tp_chainconfig p) head)) ->
  (forall p', inv [] p' -> calm p p' -> R tt p') -> runs (update_base_fee head) p R.
Proof.
  intros Hi Hfee HR. unfold update_base_fee. apply runs_bind, runs_pool_of. destruct (IsLondon _ _); [|apply runs_ret; by apply HR]. destruct (Hfee eq_refl) as [f Ef]. apply runs_bind. eapply runs_lift; [exact Ef|].
  destruct (pr_SetBaseFee_ok [] (tp_all p) f (tp_priced p)) as (l & E & Hl). exists tt, (set_priced l p). split; [unfold priced_SetBaseFee; by rewrite E|]. apply HR; [|done]. destruct Hi as [Hc He]. split; [|done]. by eapply core_priced.
Qed.

(** ** The blocks between two heads *)

(** What the pool is given back from the blocks that the chain leaves. *)
Definition reinject_ok (oldHead : option Header) (newHead : Header) : Prop := forall txs, reinjected oldHead newHead = Ret txs -> Forall acceptable txs.

(** [GetBlock] retrieves blocks by hash and number, and the blocks of the chain have acceptable transactions. *)
Record chain_ok : Prop := {
  ch_number : forall h n b, GetBlock h n = Some b -> b_Number b = n /\ 0 <= n < 2 ^ 64 - 1;
  ch_txs : forall h n b, GetBlock h n = Some b -> Forall acceptable (b_Transactions b);
}.

(** A block that was retrieved. *)
Definition stored (b : Block) : Prop := exists h n, GetBlock h n = Some b.

Lemma parent_of_ok b b' : chain_ok -> stored b -> parent_of b = Some b' -> stored b' /\ b_Number b' = b_Number b - 1.
Proof.
  intros Hc (h & n & E) E'. split; [by eexists _, _|]. destruct (ch_number Hc _ _ _ E) as [Hn Hb], (ch_number Hc _ _ _ E') as [Hn' Hb']. rewrite Hn'. unfold u64 in *.
  destruct (decide (n = 0)) as [E0|E0]; [|apply Z.mod_small; lia]. rewrite Hn, E0 in Hb'. vm_compute in Hb'. destruct Hb' as [_ Hb']. discriminate Hb'.
Qed.

Lemma stored_number b : chain_ok -> stored b -> 0 <= b_Number b.
Proof. intros Hc (h & n & E). destruct (ch_number Hc _ _ _ E) as [-> ?]. lia. Qed.

(** The walks end, and collect acceptable transactions. *)
Lemma rewind_ok fuel number b txs : chain_ok -> stored b -> 0 <= number -> b_Number b <= Z.of_nat fuel -> Forall acceptable txs ->
  match rewind fuel number b txs with Ret (b', txs') => stored b' /\ b_Number b' <= b_Number b /\ Forall acceptable txs' | Err _ => True | Panic => False end.
Proof.
  intros Hc. revert b txs. induction fuel as [|fuel IH]; intros b txs Hb Hn Hf Ht; cbn [rewind]; (destruct (Z.leb_spec (b_Number b) number); [done|]); [lia|].
  destruct (parent_of b) as [b'|] eqn:E; [|done]. destruct (parent_of_ok b b' Hc Hb E) as [Hb' Hn'].
  assert (Ht' : Forall acceptable (txs ++ b_Transactions b)) by (apply Forall_app; split; [done|]; destruct Hb as (h & n & Hb); by eapply ch_txs).
  specialize (IH b' (txs ++ b_Transactions b) Hb' Hn ltac:(lia) Ht'). destruct (rewind fuel number b' _) as [[b2 txs2]| |]; [|done..]. destruct IH as (? & ? & ?). split_and!; [done|lia|done].
Qed.

Lemma rewind_both_ok fuel rem add discarded included : chain_ok -> stored rem -> stored add -> b_Number rem < Z.of_nat fuel -> Forall acceptable discarded ->
  match rewind_both fuel rem add discarded included with Ret (d, _) => Forall acceptable d | Err _ => True | Panic => False end.
Proof.
  intros Hc. revert rem add discarded included. induction fuel as [|fuel IH]; intros rem add d i Hr Ha Hf Hd; cbn [rewind_both]; (destruct (b_Hash rem =? b_Hash add); [done|]); [pose proof (stored_number rem Hc Hr); lia|].
  destruct (parent_of rem) as [rem'|] eqn:Er; [|done]. destruct (parent_of add) as [add'|] eqn:Ea; [|done].
  destruct (parent_of_ok rem rem' Hc Hr Er) as [Hr' Hn], (parent_of_ok add add' Hc Ha Ea) as [Ha' _]. apply IH; [done|done|lia|].
  apply Forall_app. split; [done|]. destruct Hr as (h & n & Hr). by eapply ch_txs.
Qed.

(** A head that the chain has can be reached from any old one, or the reset gives up: neither a missing block nor a walk without end stops the node. *)
Lemma reinjected_ok oldHead newHead : chain_ok -> is_Some (GetBlock (hd_Hash newHead) (hd_Number newHead)) ->
  reinjected oldHead newHead <> Panic /\ reinject_ok oldHead newHead.
Proof.
  intros Hc [add Ea]. assert (H : match reinjected oldHead newHead with Ret txs => Forall acceptable txs | Err _ => True | Panic => False end).
  { unfold reinjected. destruct oldHead as [old|]; [|by constructor]. destruct (_ =? _); [by constructor|]. destruct (_ <? _); [by constructor|].
    destruct (GetBlock (hd_Hash old) _) as [rem|] eqn:Er; [|destruct (_ <=? _); [done|by constructor]]. rewrite Ea. unfold branch_difference.
    assert (Hr : stored rem) by (by eexists _, _). assert (Ha : stored add) by (by eexists _, _). pose proof (stored_number rem Hc Hr). pose proof (stored_number add Hc Ha).
    pose proof (rewind_ok (Z.to_nat (b_Number rem)) (b_Number add) rem [] Hc Hr ltac:(lia) ltac:(lia) (Forall_nil_2 _)) as H1. destruct (rewind _ _ rem []) as [[rem1 d]| |]; [|done..]. destruct H1 as (Hr1 & Hle & Hd).
    cbn [mbind outcome_mbind outcome_bind]. pose proof (stored_number rem1 Hc Hr1).
    pose proof (rewind_ok (Z.to_nat (b_Number add)) (b_Number rem1) add [] Hc Ha ltac:(lia) ltac:(lia) (Forall_nil_2 _)) as H2. destruct (rewind _ _ add []) as [[add1 i]| |]; [|done..]. destruct H2 as (Ha1 & _ & _).
    cbn [mbind outcome_mbind outcome_bind]. pose proof (rewind_both_ok (S (Z.to_nat (b_Number rem1))) rem1 add1 d i Hc Hr1 Ha1 ltac:(lia) Hd) as H3. destruct (rewind_both _ _ _ _ _) as [[d' i']| |]; [|done..].
    cbn [mbind outcome_mbind outcome_bind]. unfold TxDifference. apply Forall_forall. intros x [_ Hx]%list_elem_of_filter. by apply (proj1 (Forall_forall _ _) H3). }
  split; [by intros E; rewrite E in H|]. intros txs E. by rewrite E in H.
Qed.

(** ** Runs of the reorganization *)

(** The head advances: no transaction comes back, and no nonce goes back. *)
Definition advances (p : TxPool) (oldHead : option Header) (newHead : Header) : Prop :=
  forall txs st, reinjected oldHead newHead = Ret txs -> StateAt (hd_Root newHead) = Some st -> txs = [] /\ forall a, snonce p a <= cs_GetNonce st a.

Definition same_config (p p' : TxPool) : Prop := tp_config p' = tp_config p /\ tp_chainconfig p' = tp_chainconfig p.

Lemma kept_config p p' : kept p p' -> same_config p p'.
Proof. by intros []. Qed.

Lemma same_config_trans p q r : same_config p q -> same_config q r -> same_config p r.
Proof. intros [H1 H2] [H3 H4]. split; congruence. Qed.

Lemma ready_mid s s' f f' x n : ready_at s f x n -> s <= s' -> mid_at s' f' x s'.
Proof.
  intros (H1 & H2 & _) Hs. split; [done|]. exists (Z.max n s'). split; [lia|]. split; [|intros; lia]. intros k Hk. rewrite H2. lia.
Qed.

Lemma settled_mid p : settled p -> mid p.
Proof. intros H a. apply H. Qed.

Lemma ready_to_settled p : ready p -> settled p.
Proof. intros H a. apply ready_settled, H. Qed.

Lemma runs_reset oldHead newHead now p (R : unit -> TxPool -> Prop) : inv [] p -> reinjected oldHead newHead <> Panic -> reinject_ok oldHead newHead ->
  (forall p', inv [] p' -> same_config p p' -> (ready p -> advances p oldHead newHead -> mid p') -> R tt p') -> runs (reset oldHead newHead now) p R.
Proof.
  intros Hi H1 H2 HR. unfold reset. assert (Hsame : R tt p) by (apply HR; [done|done|]; intros Hr _; by apply settled_mid, ready_to_settled).
  destruct (reinjected oldHead newHead) as [txs|e|] eqn:E; [|by apply runs_ret|done]. destruct (StateAt (hd_Root newHead)) as [st|] eqn:Est; [|by apply runs_ret].
  apply runs_bind, runs_modify, runs_bind. destruct txs as [|tx txs].
  - apply runs_ret, runs_modify. apply HR; [done|done|]. intros Hr Had a. destruct (Had [] st E Est) as [_ Hmono].
    change (next _ a) with (cs_GetNonce st a). change (snonce _ a) with (cs_GetNonce st a). change (pend _ a) with (pend p a). eapply ready_mid; [apply Hr|apply Hmono].
  - apply runs_addTxsLocked; [done|by apply H2|]. intros errs dirty q Hq Hed Hlen. apply runs_modify. pose proof (edits_kept _ _ Hed) as [E1 E2 _ _]. apply HR; [done|by split|].
    intros _ Had. by destruct (Had _ st E Est) as [? _].
Qed.

(** The part of a run with new heads that comes before the base fee. *)
Definition follow_head (oldHead : option Header) (newHead : Header) (now : Z) : PM (list Transaction) :=
  _ ← reset oldHead newHead now;
  p ← pool_of;
  _ ← for_each forward_events (map_range (tp_events p)).*1;
  p ← pool_of;
  promoted ← promoteExecutables (map_range (tp_queue p)).*1 now;
  _ ← demoteUnexecutables now;
  mret promoted.

Lemma runs_follow_head o n now p (R : list Transaction -> TxPool -> Prop) : inv [] p -> reinjected o n <> Panic -> reinject_ok o n ->
  (forall l p', inv [] p' -> same_config p p' -> Forall valid l -> (ready p -> advances p o n -> settled p') -> R l p') -> runs (follow_head o n now) p R.
Proof.
  intros Hi Hn Hre HR. unfold follow_head. apply runs_bind, runs_reset; [done|done|done|]. intros p1 H1 H2 H3. apply runs_bind, runs_pool_of, runs_bind.
  apply (runs_calm_loop forward_events (fun _ => True)); [intros; by apply runs_forward_events|by apply Forall_true|done|].
  intros p2 E1 [E2 E3 E4 E5 E6]. apply runs_bind, runs_pool_of, runs_bind. apply (runs_promoteExecutables (D := []) (fun q => ready p -> advances p o n -> mid q)).
  - intros a r q q' Hq HI _ Hk _ Hpm Hr Had. eapply mid_promotes; [exact Hq|done|exact Hpm|by apply HI].
  - done.
  - intros Hr Had a. specialize (H3 Hr Had a). destruct (kept_state _ _ a E2) as [-> ->]. unfold pend. rewrite E4, E6. exact H3.
  - intros l p3 H4 H5 H6 H7 H8. apply runs_bind, runs_demoteUnexecutables; [done|]. intros p4 F1 F2 F3 F4 F5. apply runs_ret, HR; [done| |done|].
    + eapply same_config_trans; [exact H2|]. apply kept_config. by apply (kept_trans p1 p2), (kept_trans p2 p3).
    + intros Hr Had a. destruct (kept_state _ _ a F2) as [-> ->]. rewrite F4. fold (pend p4 a). rewrite F5. apply executable_settled; [|by apply H5]. apply (items_of_ok true). apply H4.
Qed.

(** The part that comes after it. *)
Definition finish_run (promoted : list Transaction) (now : Z) : PM (list Transaction) :=
  _ ← truncatePending; _ ← truncateQueue now; p ← pool_of; _ ← for_each update_nonce (map_range (tp_pending p)).*1; _ ← for_each queueTxEvent promoted;
  p ← pool_of; _ ← modify (set_events ∅); mret (map_range (tp_events p) ≫= fun kv => (sm_Flatten kv.2).1).

Lemma runReorg_head o n dirty now p :
  runReorg (Some (o, n)) dirty now p = (promoted ← follow_head o n now; _ ← update_base_fee n; finish_run promoted now) p.
Proof.
  unfold runReorg, follow_head. cbv [mbind PM_bind pool_of mret PM_ret]. destruct (reset o n now p) as [[[] p1]|]; [|done]. destruct (for_each forward_events _ p1) as [[[] p2]|]; [|done].
  destruct (promoteExecutables _ now p2) as [[l p3]|]; [|done]. by destruct (demoteUnexecutables now p3) as [[[] p4]|].
Qed.

(** A request of a run: the heads of a reset. *)
Definition request_ok (req : option (option Header * Header)) : Prop := match req with Some (o, n) => reinject_ok o n | None => True end.
Definition request_advances (p : TxPool) (req : option (option Header * Header)) : Prop := match req with Some (o, n) => advances p o n | None => True end.

(** Neither the walk to the new head nor the new base fee panics. *)
Definition request_runs (p : TxPool) (req : option (option Header * Header)) : Prop :=
  match req with
  | Some (o, n) => reinjected o n <> Panic /\ (IsLondon (tp_chainconfig p) (hd_Number n + 1) = true -> is_Some (CalcBaseFee (tp_chainconfig p) n))
  | None => True
  end.

(** It is so when the run returns. *)
Lemma runReorg_request req dirty now p r : inv [] p -> request_ok req -> runReorg req dirty now p = Some r -> request_runs p req.
Proof.
  intros Hi Hok E. destruct req as [[o n]|]; [|done]. rewrite runReorg_head in E. assert (Hn : reinjected o n <> Panic).
  { intros Hp. unfold follow_head, reset in E. rewrite Hp in E. discriminate E. }
  split; [done|]. intros HL. destruct (CalcBaseFee (tp_chainconfig p) n) as [f|] eqn:Ef; [by eexists|].
  assert (H : runs (follow_head o n now) p (fun _ p' => same_config p p')) by (by apply runs_follow_head). destruct H as (l & p' & E' & _ & Hcc).
  cbv [mbind PM_bind] in E. rewrite E' in E. unfold update_base_fee in E. cbv [mbind PM_bind pool_of] in E. rewrite Hcc, HL, Ef in E. discriminate E.
Qed.

(** The heads of a reset that does not panic: the chain has the new head, whose header is well formed. *)
Lemma request_known o n p : chain_ok -> is_Some (GetBlock (hd_Hash n) (hd_Number n)) -> header_ok (tp_chainconfig p) n -> request_ok (Some (o, n)) /\ request_runs p (Some (o, n)).
Proof. intros Hc Hg Hh. destruct (reinjected_ok o n Hc Hg) as [H1 H2]. split; [done|]. split; [done|]. intros _. by apply CalcBaseFee_defined. Qed.

(** The counts of the lists are within the limits, but for accounts with a right to more. *)
Definition queue_limited (p : TxPool) : Prop :=
  queue_count p <= pc_GlobalQueue (tp_config p) \/ forall a, as_contains (tp_locals p) a = false -> que p a = ∅.

Lemma pending_NoDup p : inv [] p -> NoDup (lists_txs (tp_pending p)).
Proof. intros [Hc _]. pose proof (co_places _ _ _ _ _ Hc) as H. rewrite (co_perm _ _ _ _ _ Hc), fmap_app in H. apply NoDup_app in H as [H _]. by eapply NoDup_fmap_1. Qed.

Lemma pending_count_same p p' : inv [] p -> inv [] p' -> (forall a, pend p' a = pend p a) -> pending_count p' = pending_count p.
Proof.
  intros Hi Hi' H. unfold pending_count. f_equal. apply Permutation_length, NoDup_Permutation; [by apply pending_NoDup..|]. intros tx. rewrite (lists_txs_elem true) by apply Hi'. rewrite (lists_txs_elem true) by apply Hi.
  unfold pend in H. setoid_rewrite H. done.
Qed.

(** The limits, and the nonces after them. *)
Lemma runs_finish promoted now p (R : list Transaction -> TxPool -> Prop) : inv [] p -> Forall valid promoted ->
  (forall l p', inv [] p' -> same_config p p' -> (settled p -> ready p') -> (pending_count p < 2 ^ 64 -> queue_count p < 2 ^ 64 -> pending_limited p' /\ queue_limited p') -> R l p') ->
  runs (finish_run promoted now) p R.
Proof.
  intros Hi Hpr HR. unfold finish_run. apply runs_bind, runs_truncatePending; [done|]. intros p1 H1 [T1 T2 T3 T4 T5] HL1. apply runs_bind, runs_truncateQueue; [done|]. intros p2 H2 [Q1 Q2 Q3 Q4] HL2.
  apply runs_bind, runs_pool_of, runs_bind, runs_update_nonces; [done|]. intros p3 H3 U1 U2 U3 U4 U5. apply runs_bind, (runs_calm_loop queueTxEvent valid); [intros; by apply runs_queueTxEvent|done|done|].
  intros p4 H4 [C1 C2 C3 C4 C5]. apply runs_bind, runs_pool_of, runs_bind, runs_modify, runs_ret. assert (Hk : kept p p4) by eauto 8 using kept_trans. apply HR.
  - destruct H4 as (Hc & _ & Hcf). split; [done|]. split; [|done]. intros a m. cbn. by rewrite lookup_empty.
  - by destruct Hk.
  - intros Hs a. assert (Hs2 : settled_at (snonce p2 a) (refused p2 a) (pend p2 a) (next p2 a)).
    { unfold pend, next. rewrite Q3, Q4. destruct (kept_state _ _ a Q1) as [-> ->]. by apply (settled_cuts p p1 T1 T3 Hs). }
    change (snonce (set_events _ p4) a) with (snonce p4 a). change (refused (set_events _ p4) a) with (refused p4 a). change (pend (set_events _ p4) a) with (pend p4 a). change (next (set_events _ p4) a) with (next p4 a).
    destruct (kept_state _ _ a C1) as [-> ->], (kept_state _ _ a U1) as [-> ->]. rewrite C5, U5. replace (pend p4 a) with (pend p2 a) by (unfold pend at 2; rewrite C3; symmetry; apply U4).
    apply settled_ready; [apply (items_of_ok true); apply H2| |done]. intros k tx Hk'. destruct (pend_all _ p2 a k tx H2 Hk') as [Hin Hpl]. pose proof (co_valid _ _ _ _ _ (proj1 H2) tx Hin) as (_ & Hv & _). unfold place in Hpl. simplify_eq. lia.
  - intros Hp Hq. assert (Hpe : forall a, pend p4 a = pend p1 a) by (intros a; unfold pend in *; by rewrite C3, U4, Q3). split.
    + unfold pending_limited in *. change (pending_count (set_events ∅ p4)) with (pending_count p4). rewrite (pending_count_same p1 p4) by done. cbn. rewrite C2, U2, Q2, (ke_config _ _ Hk), <- (ke_config _ _ T1).
      destruct (HL1 Hp) as [?|Hl]; [by left|right]. intros a Ha. change (pend (set_events ∅ p4) a) with (pend p4 a). rewrite Hpe. by apply Hl.
    + unfold queue_limited, queue_count, que in *. cbn. rewrite C4, U3, C2, U2, Q2, (ke_config _ _ Hk), <- (ke_config _ _ T1). apply HL2. by rewrite T4.
Qed.

(** A run of the reorganization loop. *)
Lemma runs_runReorg req dirty now p (R : list Transaction -> TxPool -> Prop) : inv [] p -> request_ok req -> request_runs p req ->
  (forall l p', inv [] p' -> same_config p p' -> (ready p -> request_advances p req -> ready p') -> R l p') -> runs (runReorg req dirty now) p R.
Proof.
  intros Hi Hok Hrun HR. destruct req as [[o n]|]; cbn [request_ok request_runs request_advances] in *.
  - destruct Hrun as [Hn Hfee]. assert (H : runs (promoted ← follow_head o n now; _ ← update_base_fee n; finish_run promoted now) p R); [|by unfold runs in *; rewrite runReorg_head].
    apply runs_bind, runs_follow_head; [done|done|done|]. intros l p1 H1 H2 H3 H4. apply runs_bind, runs_update_base_fee; [done|rewrite (proj2 H2); apply Hfee|]. intros p2 G1 G2.
    apply runs_finish; [done|done|]. intros l' p3 E1 E2 E3 _. apply HR; [done|by eapply same_config_trans; [|eapply same_config_trans; [apply kept_config, G2|]]|].
    intros Hr Had. apply E3. intros a. destruct G2 as [G2 _ G4 _ G6]. destruct (kept_state _ _ a G2) as [-> ->]. unfold pend. rewrite G4, G6. by apply H4.
  - unfold runReorg. cbv zeta. apply runs_bind, runs_ret, runs_bind, runs_pool_of, runs_bind. apply (runs_promoteExecutables (D := []) (fun q => ready p -> settled q)).
    + intros a r q q' Hq HI _ Hk _ Hpm Hr. eapply settled_promotes; [exact Hq|done|exact Hpm|by apply HI].
    + done.
    + apply ready_to_settled.
    + intros l p1 H1 H2 H3 _ H4. apply runs_bind, runs_ret. apply (runs_finish l now); [done|done|]. intros l' p2 E1 E2 E3 _. apply HR; [done|by eapply same_config_trans, E2; apply kept_config|auto].
Qed.

(** The pool of [NewTxPool]. *)
Lemma emptyTxPool_inv config chainconfig nostate : config_ok (sanitize config) -> inv [] (emptyTxPool config chainconfig nostate).
Proof.
  intros Hcf. split; [|split; [intros a m H; cbn in H; by rewrite lookup_empty in H|done]]. cbn. split.
  - intros a l H. by rewrite lookup_empty in H.
  - intros a l H. by rewrite lookup_empty in H.
  - apply newTxLookup_ok.
  - apply newTxPricedList_ok.
  - done.
  - constructor.
  - intros tx H. by apply elem_of_nil in H.
Qed.

Lemma ready_empty p : (forall a, pend p a = ∅) -> (forall a, next p a = snonce p a) -> ready p.
Proof.
  intros H1 H2 a. rewrite H1, H2. split; [done|]. split; [|intros k tx; by rewrite lookup_empty]. intros k. rewrite lookup_empty. split; [by intros []|lia].
Qed.
End reorg.
