(* ===== verification/TxOrder.v ===== *)
(** The order in which the miner takes transactions: [TransactionsByPriceAndNonce] of
    [core/types/transaction.go].

    Shown: taking transactions until none is left is a greedy merge of the accounts' lists:
    always the best first transaction of an account comes next, and the transactions of an
    account come in their order, up to the first one whose fee cap is below the base fee. *)
From S2P Require Import Prelude Common Params Wormholes StateTypes State StateDB Staking Evm Transition Rlp Heap TxTypes TxList.

Open Scope Z_scope.

(** ** Transactions with the miner's fee *)

Record TxWithMinerFee : Type := mkTxWithMinerFee {
  tw_tx : Transaction;
  tw_minerFee : Z;
}.

(** [None] is the error for a fee cap below the base fee. *)
Definition NewTxWithMinerFee (tx : Transaction) (baseFee : option Z) : option TxWithMinerFee :=
  match tx_EffectiveGasTip tx baseFee with (minerFee, None) => Some (mkTxWithMinerFee tx minerFee) | (_, Some _) => None end.

(** [Less] of [TxByPriceAndTime]. *)
Definition TxByPriceAndTime_Less (a b : TxWithMinerFee) : bool :=
  let cmp := Cmp (tw_minerFee a) (tw_minerFee b) in
  if cmp =? 0 then tx_time (tw_tx a) <? tx_time (tw_tx b) else 0 <? cmp.

(** ** The set *)

Record TransactionsByPriceAndNonce : Type := mkTransactionsByPriceAndNonce {
  tb_txs : gmap Address (list Transaction);
  tb_heads : list TxWithMinerFee;
  tb_baseFee : option Z;
}.

Section order.
Context {SG : Signer} {MR : MapRange}.

(** The loop over the accounts; an account without transactions panics. *)
Fixpoint new_heads (baseFee : option Z) (accounts : list (Address * list Transaction)) (txs : gmap Address (list Transaction)) (heads : list TxWithMinerFee) :
    option (gmap Address (list Transaction) * list TxWithMinerFee) :=
  match accounts with
  | [] => Some (txs, heads)
  | (_, []) :: _ => None
  | (from, tx :: rest) :: accounts =>
      match NewTxWithMinerFee tx baseFee with
      | Some wrapped =>
          if default 0 (Sender tx) =? from then new_heads baseFee accounts (<[from := rest]> txs) (heads ++ [wrapped])
          else new_heads baseFee accounts (delete from txs) heads
      | None => new_heads baseFee accounts (delete from txs) heads
      end
  end.

Definition NewTransactionsByPriceAndNonce (txs : gmap Address (list Transaction)) (baseFee : option Z) : option TransactionsByPriceAndNonce :=
  '(txs, heads) ← new_heads baseFee (map_range txs) txs [];
  Some (mkTransactionsByPriceAndNonce txs (Heap.Init TxByPriceAndTime_Less heads) baseFee).

Definition tb_Peek (t : TransactionsByPriceAndNonce) : option Transaction := tw_tx <$> head (tb_heads t).

Definition tb_Pop (t : TransactionsByPriceAndNonce) : option TransactionsByPriceAndNonce :=
  '(_, heads) ← Heap.Pop TxByPriceAndTime_Less (tb_heads t);
  Some (mkTransactionsByPriceAndNonce (tb_txs t) heads (tb_baseFee t)).

Definition tb_Shift (t : TransactionsByPriceAndNonce) : option TransactionsByPriceAndNonce :=
  match tb_heads t with
  | [] => None
  | h :: heads =>
      let acc := default 0 (Sender (tw_tx h)) in
      match tb_txs t !! acc with
      | Some (tx :: rest) =>
          match NewTxWithMinerFee tx (tb_baseFee t) with
          | Some wrapped => Some (mkTransactionsByPriceAndNonce (<[acc := rest]> (tb_txs t)) (Heap.Fix TxByPriceAndTime_Less (wrapped :: heads) 0) (tb_baseFee t))
          | None => tb_Pop t
          end
      | _ => tb_Pop t
      end
  end.

(** Taking transactions with [Peek] and [Shift] until none is left. *)
Fixpoint drain (fuel : nat) (t : TransactionsByPriceAndNonce) : option (list Transaction) :=
  match fuel with
  | O => Some []
  | S fuel =>
      match tb_Peek t with
      | None => Some []
      | Some tx => t ← tb_Shift t; l ← drain fuel t; Some (tx :: l)
      end
  end.
End order.

(** ** The order of the heads *)

#[export] Instance TxByPriceAndTime_order : WeakOrder TxByPriceAndTime_Less.
Proof.
  assert (Hf : forall a b, TxByPriceAndTime_Less a b = true <-> tw_minerFee b < tw_minerFee a \/ (tw_minerFee a = tw_minerFee b /\ tx_time (tw_tx a) < tx_time (tw_tx b))).
  { intros a b. unfold TxByPriceAndTime_Less. destruct (Cmp_cases (tw_minerFee a) (tw_minerFee b)) as [[-> H]|[[-> H]|[-> H]]]; cbn; [|rewrite Z.ltb_lt|]; intuition (done || lia). }
  assert (Hn : forall a b, TxByPriceAndTime_Less a b = false <-> ~ (tw_minerFee b < tw_minerFee a \/ (tw_minerFee a = tw_minerFee b /\ tx_time (tw_tx a) < tx_time (tw_tx b)))) by (intros a b; rewrite <- Hf; by destruct (TxByPriceAndTime_Less a b)).
  split.
  - intros a. apply Hn. lia.
  - intros a b H%Hf. apply Hn. lia.
  - intros a b c H1%Hn H2%Hn. apply Hn. lia.
Qed.

(** ** Greedy merges *)

Section merge.
Context {SG : Signer} {MR : MapRange} (baseFee : option Z).

(** The transactions in front of the first one that does not pay the base fee. *)
Fixpoint paying (l : list Transaction) : list Transaction :=
  match l with [] => [] | tx :: l => match NewTxWithMinerFee tx baseFee with Some _ => tx :: paying l | None => [] end end.

(** Whether a transaction is better for the miner than another. *)
Definition better_fee (x y : Transaction) : bool :=
  match NewTxWithMinerFee x baseFee, NewTxWithMinerFee y baseFee with Some a, Some b => TxByPriceAndTime_Less a b | _, _ => false end.

(** A merge of the lists of the accounts that always takes a best first transaction. *)
Inductive greedy : (Address -> list Transaction) -> list Transaction -> Prop :=
  | greedy_nil q : (forall a, q a = []) -> greedy q []
  | greedy_cons q q' a x l : q a = x :: q' a -> (forall b, b <> a -> q' b = q b) ->
      (forall b y rest, q b = y :: rest -> better_fee y x = false) -> greedy q' l -> greedy q (x :: l).

(** The set holds the first transactions as heads and the others in the lists. *)
Record holds_order (t : TransactionsByPriceAndNonce) (q : Address -> list Transaction) : Prop := {
  ho_fee : tb_baseFee t = baseFee;
  ho_heap : heap TxByPriceAndTime_Less (tb_heads t);
  ho_heads : forall h, h ∈ tb_heads t -> exists a, Sender (tw_tx h) = Some a /\ NewTxWithMinerFee (tw_tx h) baseFee = Some h /\ q a = tw_tx h :: paying (default [] (tb_txs t !! a));
  ho_rest : forall a x l, q a = x :: l -> exists h, h ∈ tb_heads t /\ tw_tx h = x;
  ho_NoDup : NoDup ((fun h => Sender (tw_tx h)) <$> tb_heads t);
  ho_signed : forall a x, x ∈ q a -> Sender x = Some a;
}.

Lemma NewTxWithMinerFee_tx tx h : NewTxWithMinerFee tx baseFee = Some h -> tw_tx h = tx.
Proof. unfold NewTxWithMinerFee. destruct (tx_EffectiveGasTip tx baseFee) as [fee [e|]]; [done|]. by intros [= <-]. Qed.

(** The transactions that are left at most. *)
Definition tb_left (t : TransactionsByPriceAndNonce) : nat := length (tb_heads t) + length (map_to_list (tb_txs t) ≫= snd).

Lemma left_insert (m : gmap Address (list Transaction)) a y ys : m !! a = Some (y :: ys) -> length (map_to_list m ≫= snd) = S (length (map_to_list (<[a := ys]> m) ≫= snd)).
Proof.
  intros E. rewrite <- (map_to_list_delete m a (y :: ys) E), <- (map_to_list_delete (<[a := ys]> m) a ys) by apply lookup_insert_eq. rewrite delete_insert_eq. done.
Qed.

(** What is left of the account [a] after its first transaction. *)
Definition taken (t : TransactionsByPriceAndNonce) (a : Address) (q : Address -> list Transaction) (b : Address) : list Transaction :=
  if decide (b = a) then paying (default [] (tb_txs t !! a)) else q b.

Section step.
Context (t : TransactionsByPriceAndNonce) (q : Address -> list Transaction) (h : TxWithMinerFee) (hs : list TxWithMinerFee) (a : Address).
Hypothesis (Ht : holds_order t q) (Eh : tb_heads t = h :: hs) (Ha : Sender (tw_tx h) = Some a) (Hq : q a = tw_tx h :: paying (default [] (tb_txs t !! a))).

(** The other heads belong to other accounts. *)
Lemma other_heads h' : h' ∈ hs -> exists b, b <> a /\ Sender (tw_tx h') = Some b /\ NewTxWithMinerFee (tw_tx h') baseFee = Some h' /\ q b = tw_tx h' :: paying (default [] (tb_txs t !! b)).
Proof.
  intros Hin. destruct (ho_heads t q Ht h') as (b & Hb & Hf & Hqb); [rewrite Eh; set_solver|]. exists b. split; [|done]. intros ->. pose proof (ho_NoDup t q Ht) as Hn. rewrite Eh in Hn. apply NoDup_cons in Hn as [Hn _].
  apply Hn, list_elem_of_fmap. exists h'. split; [congruence|done].
Qed.

Lemma other_rest b x l : b <> a -> q b = x :: l -> exists h', h' ∈ hs /\ tw_tx h' = x.
Proof.
  intros Hne Hb. destruct (ho_rest t q Ht b x l Hb) as (h' & Hin & Hx). rewrite Eh in Hin. apply elem_of_cons in Hin as [->|Hin]; [|by exists h']. exfalso.
  pose proof (ho_signed t q Ht b x) as Hs. rewrite Hb in Hs. specialize (Hs ltac:(set_solver)). congruence.
Qed.

Lemma taken_signed b x : x ∈ taken t a q b -> Sender x = Some b.
Proof. unfold taken. intros Hin. apply (ho_signed t q Ht). case_decide as Hb; [|done]. subst b. rewrite Hq. set_solver. Qed.

(** The best head is replaced by the next transaction of its account. *)
Lemma shift_next y ys w : tb_txs t !! a = Some (y :: ys) -> NewTxWithMinerFee y baseFee = Some w ->
  holds_order (mkTransactionsByPriceAndNonce (<[a := ys]> (tb_txs t)) (Heap.Fix TxByPriceAndTime_Less (w :: hs) 0) baseFee) (taken t a q).
Proof.
  intros Ey Ew. pose proof (NewTxWithMinerFee_tx y w Ew) as Hw. assert (Hpay : paying (default [] (tb_txs t !! a)) = y :: paying ys) by (rewrite Ey; cbn; by rewrite Ew).
  assert (Hy : Sender y = Some a) by (apply taken_signed; unfold taken; rewrite decide_True, Hpay by done; set_solver). pose proof (ho_heap t q Ht) as Hh. rewrite Eh in Hh. destruct (Fix_root_ok TxByPriceAndTime_Less h w hs Hh) as [H1 H2].
  split; cbn [tb_heads tb_txs tb_baseFee].
  - done.
  - done.
  - intros h'. rewrite H2. intros [->|Hin]%elem_of_cons.
    + exists a. rewrite Hw. split; [done|]. split; [done|]. unfold taken. rewrite decide_True, lookup_insert_eq by done. done.
    + destruct (other_heads h' Hin) as (b & Hne & Hb). exists b. unfold taken. by rewrite decide_False, lookup_insert_ne by done.
  - intros b x l. unfold taken. case_decide as Hb.
    + subst b. rewrite Hpay. intros [= <- _]. exists w. split; [rewrite H2; set_solver|done].
    + intros Hx. destruct (other_rest b x l Hb Hx) as (h' & Hin & E). exists h'. split; [rewrite H2; set_solver|done].
  - rewrite H2. cbn. pose proof (ho_NoDup t q Ht) as Hn. rewrite Eh in Hn. cbn in Hn. by rewrite Hw, Hy, <- Ha.
  - apply taken_signed.
Qed.

(** The account of the best head has no more transactions to offer. *)
Lemma shift_pop : paying (default [] (tb_txs t !! a)) = [] -> exists t', tb_Pop t = Some t' /\ holds_order t' (taken t a q) /\ tb_txs t' = tb_txs t /\ length (tb_heads t) = S (length (tb_heads t')).
Proof.
  intros Hpay. destruct (Pop_ok TxByPriceAndTime_Less (tb_heads t) (ho_heap t q Ht)) as (x & hs' & E & H1 & H2 & H3 & _); [by rewrite Eh|]. rewrite Eh in H2, H3. injection H3 as <-. apply Permutation_cons_inv in H2.
  unfold tb_Pop. rewrite E. cbn [mbind option_bind]. eexists. split; [done|]. split; [|split; [done|rewrite Eh; cbn; by rewrite H2]]. split; cbn [tb_heads tb_txs tb_baseFee].
  - apply Ht.
  - done.
  - intros h'. rewrite <- H2. intros Hin. destruct (other_heads h' Hin) as (b & Hne & Hb). exists b. unfold taken. by rewrite decide_False by done.
  - intros b x l. unfold taken. case_decide as Hb; [by rewrite Hpay|]. intros Hx. destruct (other_rest b x l Hb Hx) as (h' & Hin & Hx'). exists h'. by rewrite <- H2.
  - rewrite <- H2. pose proof (ho_NoDup t q Ht) as Hn. rewrite Eh in Hn. by apply NoDup_cons in Hn as [_ Hn].
  - apply taken_signed.
Qed.

Lemma shift_ok : exists t', tb_Shift t = Some t' /\ holds_order t' (taken t a q) /\ (tb_left t' < tb_left t)%nat.
Proof.
  assert (Hpop : paying (default [] (tb_txs t !! a)) = [] -> exists t', tb_Pop t = Some t' /\ holds_order t' (taken t a q) /\ (tb_left t' < tb_left t)%nat).
  { intros Hpay. destruct (shift_pop Hpay) as (t' & E & H1 & H2 & H3). exists t'. split; [done|]. split; [done|]. unfold tb_left. rewrite H2, H3. lia. }
  assert (Hnext := shift_next). unfold tb_Shift. rewrite Eh, Ha. change (default 0 (Some a)) with a. cbv zeta. rewrite (ho_fee t q Ht). destruct (tb_txs t !! a) as [[|y ys]|] eqn:Ey; [by apply Hpop| |by apply Hpop].
  destruct (NewTxWithMinerFee y baseFee) as [w|] eqn:Ew; [|apply Hpop; cbn; by rewrite Ew]. eexists. split; [done|]. split; [by apply (Hnext y ys w)|].
  pose proof (ho_heap t q Ht) as Hh. rewrite Eh in Hh. destruct (Fix_root_ok TxByPriceAndTime_Less h w hs Hh) as [_ H2]. unfold tb_left. cbn [tb_heads tb_txs]. rewrite (left_insert (tb_txs t) a y ys Ey), H2, Eh. cbn. lia.
Qed.
End step.

Lemma drain_greedy fuel t q : holds_order t q -> (tb_left t <= fuel)%nat -> exists l, drain fuel t = Some l /\ greedy q l.
Proof.
  assert (Hnil : forall t q, holds_order t q -> tb_heads t = [] -> greedy q []).
  { intros t0 q0 H E. apply greedy_nil. intros a. destruct (q0 a) as [|x l] eqn:Eq; [done|]. destruct (ho_rest t0 q0 H a x l Eq) as (h & Hin & _). rewrite E in Hin. by apply elem_of_nil in Hin. }
  revert t q. induction fuel as [|fuel IH]; intros t q Ht Hf; cbn [drain].
  { exists []. split; [done|]. apply (Hnil t q Ht). apply length_zero_iff_nil. unfold tb_left in Hf. lia. }
  unfold tb_Peek. destruct (tb_heads t) as [|h hs] eqn:Eh; cbn [head fmap option_fmap option_map]; [exists []; split; [done|]; by apply (Hnil t q Ht)|].
  destruct (ho_heads t q Ht h) as (a & Ha & Hf1 & Hq); [rewrite Eh; set_solver|]. destruct (shift_ok t q h hs a Ht Eh Ha Hq) as (t' & -> & Ht' & Hlt). cbn [mbind option_bind].
  destruct (IH t' (taken t a q) Ht' ltac:(lia)) as (l & -> & Hg). cbn [mbind option_bind]. exists (tw_tx h :: l). split; [done|]. apply (greedy_cons q (taken t a q) a); [unfold taken; by rewrite decide_True|intros b Hb; unfold taken; by rewrite decide_False| |done].
  intros b y rest Hy. destruct (ho_rest t q Ht b y rest Hy) as (h' & Hin & Hh'). destruct (ho_heads t q Ht h' Hin) as (_ & _ & Hf2 & _). rewrite Hh' in Hf2. unfold better_fee. rewrite Hf2, Hf1.
  apply (heap_least TxByPriceAndTime_Less (tb_heads t) h h' (ho_heap t q Ht)); [by rewrite Eh|done].
Qed.

(** ** The set of a map of lists *)

(** Every account has transactions, which it has signed. *)
Definition offers (txs : gmap Address (list Transaction)) : Prop :=
  forall a l, txs !! a = Some l -> l <> [] /\ forall tx, tx ∈ l -> Sender tx = Some a.

Lemma new_heads_ok l txs heads : NoDup l.*1 -> (forall a accTxs, (a, accTxs) ∈ l -> accTxs <> [] /\ forall tx, tx ∈ accTxs -> Sender tx = Some a) ->
  exists txs' hs, new_heads baseFee l txs heads = Some (txs', heads ++ hs) /\ (forall b, b ∉ l.*1 -> txs' !! b = txs !! b) /\
    (forall w, w ∈ hs -> exists a x rest, (a, x :: rest) ∈ l /\ NewTxWithMinerFee x baseFee = Some w /\ txs' !! a = Some rest) /\
    (forall a x rest w, (a, x :: rest) ∈ l -> NewTxWithMinerFee x baseFee = Some w -> w ∈ hs) /\ NoDup ((fun h => Sender (tw_tx h)) <$> hs).
Proof.
  revert txs heads. induction l as [|[a accTxs] l IH]; intros txs heads Hn Hl; cbn [new_heads].
  { exists txs, []. rewrite app_nil_r. split; [done|]. split; [done|]. split; [by intros w ?%elem_of_nil|]. split; [by intros a x rest w ?%elem_of_nil|constructor]. }
  apply NoDup_cons in Hn as [Ha Hn]. assert (Hl' : forall b accTxs, (b, accTxs) ∈ l -> accTxs <> [] /\ forall tx, tx ∈ accTxs -> Sender tx = Some b) by (intros b m Hb; apply Hl; set_solver).
  destruct (Hl a accTxs ltac:(set_solver)) as [Hne Hs]. destruct accTxs as [|x rest]; [done|]. specialize (Hs x ltac:(set_solver)). destruct (NewTxWithMinerFee x baseFee) as [w|] eqn:Ew.
  - rewrite Hs. change (default 0 (Some a)) with a. rewrite Z.eqb_refl. destruct (IH (<[a := rest]> txs) (heads ++ [w]) Hn Hl') as (txs' & hs & E & H1 & H2 & H3 & H4). exists txs', (w :: hs).
    assert (Hta : txs' !! a = Some rest) by (rewrite H1 by done; apply lookup_insert_eq). split; [by rewrite E, <- app_assoc|]. split; [intros b Hb; cbn in Hb; rewrite H1, lookup_insert_ne by set_solver; done|].
    split; [|split]; cbn [fmap list_fmap].
    + intros w' [->|Hw]%elem_of_cons; [exists a, x, rest; split; [set_solver|done]|]. destruct (H2 w' Hw) as (b & y & r & Hb & Hy & Hr). exists b, y, r. split; [set_solver|done].
    + intros b y r w' [E'|Hb]%elem_of_cons Hw'; [simplify_eq; set_solver|]. apply elem_of_cons. right. by apply (H3 b y r).
    + apply NoDup_cons. split; [|done]. intros (w' & E' & Hw')%list_elem_of_fmap. destruct (H2 w' Hw') as (b & y & r & Hb & Hy & _). apply NewTxWithMinerFee_tx in Ew, Hy. rewrite Ew, Hy, Hs in E'.
      destruct (Hl' b (y :: r) Hb) as [_ Hsb]. rewrite (Hsb y ltac:(set_solver)) in E'. injection E' as ->. apply Ha, list_elem_of_fmap. by exists (b, y :: r).
  - destruct (IH (delete a txs) heads Hn Hl') as (txs' & hs & E & H1 & H2 & H3 & H4). exists txs', hs. split; [done|]. split; [intros b Hb; cbn in Hb; rewrite H1, lookup_delete_ne by set_solver; done|].
    split; [intros w Hw; destruct (H2 w Hw) as (b & y & r & Hb & Hy); exists b, y, r; split; [set_solver|done]|]. split; [|done].
    intros b y r w [E'|Hb]%elem_of_cons Hw; [simplify_eq; congruence|by apply (H3 b y r)].
Qed.

Lemma paying_sub x l : x ∈ paying l -> x ∈ l.
Proof. induction l as [|y l IH]; cbn; [done|]. destruct (NewTxWithMinerFee y baseFee); [set_solver|by intros ?%elem_of_nil]. Qed.

(** The first transactions that pay the base fee, per account. *)
Definition offered (txs : gmap Address (list Transaction)) (a : Address) : list Transaction := paying (default [] (txs !! a)).

Lemma New_holds txs : offers txs -> exists t, NewTransactionsByPriceAndNonce txs baseFee = Some t /\ holds_order t (offered txs).
Proof.
  intros Ho. assert (Hr : forall a l, (a, l) ∈ map_range txs <-> txs !! a = Some l) by (intros a l; rewrite map_range_perm; apply elem_of_map_to_list).
  destruct (new_heads_ok (map_range txs) txs []) as (txs' & hs & E & _ & H2 & H3 & H4); [rewrite map_range_perm; apply NoDup_fst_map_to_list|intros a l Hin%Hr; by apply Ho|].
  unfold NewTransactionsByPriceAndNonce. rewrite E. cbn [mbind option_bind app]. eexists. split; [done|]. destruct (Init_ok TxByPriceAndTime_Less hs) as [Hh Hp]. split; cbn [tb_heads tb_txs tb_baseFee]; unfold offered.
  - done.
  - done.
  - intros h. rewrite Hp. intros Hin. destruct (H2 h Hin) as (a & x & rest & Hx%Hr & Hw & Ht). pose proof (NewTxWithMinerFee_tx x h Hw) as ->. exists a. split; [apply (Ho a (x :: rest) Hx); set_solver|]. split; [done|]. rewrite Hx, Ht. cbn. by rewrite Hw.
  - intros a x l. destruct (txs !! a) as [[|y rest]|] eqn:Ea; cbn; try done. destruct (NewTxWithMinerFee y baseFee) as [w|] eqn:Ew; [|done]. intros [= <- _]. exists w. split; [rewrite Hp; apply (H3 a y rest); [by apply Hr|done]|by apply NewTxWithMinerFee_tx].
  - by rewrite Hp.
  - intros a x Hin%paying_sub. destruct (txs !! a) as [l|] eqn:Ea; [by apply (Ho a l Ea)|by apply elem_of_nil in Hin].
Qed.

(** The transactions of an account in a merge. *)
Lemma greedy_account q l : greedy q l -> (forall a x, x ∈ q a -> Sender x = Some a) -> forall a, filter (fun x => Sender x = Some a) l = q a.
Proof.
  induction 1 as [q Hq|q q' b x l Hb Ho Hbest Hg IH]; intros Hs a; [by rewrite Hq|]. assert (Hx : Sender x = Some b) by (apply Hs; rewrite Hb; set_solver).
  assert (Hs' : forall a y, y ∈ q' a -> Sender y = Some a). { intros c y Hy. apply Hs. destruct (decide (c = b)) as [->|]; [rewrite Hb; set_solver|by rewrite <- Ho]. }
  rewrite filter_cons, IH by done. destruct (decide (Sender x = Some a)) as [E|E]; [assert (a = b) as -> by congruence; by rewrite Hb|]. apply Ho. congruence.
Qed.
End merge.

(** The miner's order is a greedy merge.  From the transactions of each account, the set is
    built without a panic, and taking transactions from it until none is left gives a merge
    of the accounts' lists, each up to the first transaction whose fee cap is below the base
    fee: the order within an account is kept, and the transaction that comes next pays the
    highest fee among the first ones of all accounts, the earliest seen among equals. *)
Theorem TransactionsByPriceAndNonce_greedy {SG : Signer} {MR : MapRange} (txs : gmap Address (list Transaction)) (baseFee : option Z) : offers txs ->
  exists t l, NewTransactionsByPriceAndNonce txs baseFee = Some t /\ drain (tb_left t) t = Some l /\ greedy baseFee (offered baseFee txs) l.
Proof.
  intros Ho. destruct (New_holds baseFee txs Ho) as (t & E & Ht). destruct (drain_greedy baseFee (tb_left t) t _ Ht ltac:(lia)) as (l & El & Hg). by exists t, l.
Qed.
