(* ===== verification/TxPoolTheorems.v ===== *)
(** The contracts of the transaction pool: consistency and the absence of panics in every
    reachable state, executability of the pending transactions, limits, acceptance of
    transactions and replacement. *)
From S2P Require Import Prelude Common Params Wormholes StateTypes State StateDB Staking Evm Transition Rlp Heap TxTypes TxList TxListProps TxPriced TxPricedProps HeaderRules TxPool TxPoolOps TxPoolLimits TxPoolAdd TxPoolReorg TxOrder.

Open Scope Z_scope.

(** ** Reachable pools *)

Section pools.
Context {CR : Crypto} {MA : Machine} {SG : Signer} {MR : MapRange} {BC : BlockChain}.

(** The operations that take the lock of the pool for writing. *)
Inductive pool_op : Type :=
  | OpAdd (txs : list Transaction) (local : bool) (now : Z)
  | OpSetGasPrice (price now : Z)
  | OpEvict (now : Z)
  | OpReorg (req : option (option Header * Header)) (dirty : option accountSet) (now : Z).

Definition run_op (op : pool_op) : PM unit :=
  match op with
  | OpAdd txs local now => _ ← addTxs txs local now; mret tt
  | OpSetGasPrice price now => SetGasPrice price now
  | OpEvict now => evict now
  | OpReorg req dirty now => _ ← runReorg req dirty now; mret tt
  end.

(** The pool is given acceptable transactions: from outside, and from the blocks that a reset leaves. *)
Definition op_ok (p : TxPool) (op : pool_op) : Prop :=
  match op with OpAdd txs _ _ => Forall acceptable txs | OpReorg req _ _ => request_ok req | _ => True end.

(** An operation that the rest of the node may ask for: the transactions are acceptable, and the new head of a reset is a
    block of the chain with a well-formed header. *)
Definition op_known (p : TxPool) (op : pool_op) : Prop :=
  match op with
  | OpAdd txs _ _ => Forall acceptable txs
  | OpReorg (Some (_, newHead)) _ _ => is_Some (GetBlock (hd_Hash newHead) (hd_Number newHead)) /\ header_ok (tp_chainconfig p) newHead
  | _ => True
  end.

(** What keeps a reset from a panic. *)
Definition op_runs (p : TxPool) (op : pool_op) : Prop := match op with OpReorg req _ _ => request_runs p req | _ => True end.

(** No reset takes the head of the chain back. *)
Definition op_advances (p : TxPool) (op : pool_op) : Prop :=
  match op with OpReorg req _ _ => request_advances p req | _ => True end.

(** The pools after [NewTxPool] and operations that satisfy [ok]. *)
Inductive reachable (ok : TxPool -> pool_op -> Prop) (config : TxPoolConfig) : TxPool -> Prop :=
  | reachable_new cc nostate head now p : NewTxPool config cc nostate head now = Some p -> reachable ok config p
  | reachable_step p op p' : reachable ok config p -> ok p op -> run_op op p = Some (tt, p') -> reachable ok config p'.

(** The limits are below 2^62; [sanitize] makes them positive. *)
Definition limits_fit (c : TxPoolConfig) : Prop :=
  pc_AccountSlots c < 2 ^ 62 /\ pc_GlobalSlots c < 2 ^ 62 /\ pc_AccountQueue c < 2 ^ 62 /\ pc_GlobalQueue c < 2 ^ 62.

Lemma sanitize_ok c : limits_fit c -> config_ok (sanitize c).
Proof.
  intros (H1 & H2 & H3 & H4). split; cbn.
  - destruct (Z.ltb_spec (pc_AccountSlots c) 1); lia.
  - destruct (Z.ltb_spec (pc_GlobalSlots c) 1); lia.
  - destruct (Z.ltb_spec (pc_AccountQueue c) 1); lia.
  - destruct (Z.ltb_spec (pc_GlobalQueue c) 1); lia.
Qed.

Lemma NewTxPool_ok config cc nostate head now p : limits_fit config -> NewTxPool config cc nostate head now = Some p -> inv [] [] p /\ ready p.
Proof.
  intros Hf E. pose proof (emptyTxPool_inv config cc nostate (sanitize_ok _ Hf)) as Hi. unfold NewTxPool, reset in E. cbn [reinjected] in E.
  destruct (StateAt (hd_Root head)) as [st|]; injection E as <-; (split; [exact Hi|by apply ready_empty]).
Qed.

Lemma runs_op op p : inv [] [] p -> op_ok p op -> op_runs p op -> runs (run_op op) p (fun _ p' => inv [] [] p' /\ (ready p -> op_advances p op -> ready p')).
Proof.
  intros Hi Hok Hrun. destruct op as [txs local now|price now|now|req dirty now]; cbn [run_op op_advances].
  - apply runs_bind, runs_addTxs; [done|done|]. intros errs dirty p' H1 H2 _ _. apply runs_ret. split; [done|]. intros Hr _. by eapply ready_edits.
  - apply runs_SetGasPrice; [done|]. intros p' H1 H2 H3 H4. split; [done|]. intros Hr _. eapply ready_edits; [by apply ed_cuts|done].
  - apply runs_evict; [done|]. intros p' H1 [H2 H3 H4 H5]. split; [done|]. intros Hr _. eapply ready_edits; [by apply edits_same|done].
  - apply runs_bind, runs_runReorg; [done|done|done|]. intros l p' H1 _ H2. by apply runs_ret.
Qed.

(** An operation that returned. *)
Lemma op_returned op p r : inv [] [] p -> op_ok p op -> run_op op p = Some r -> op_runs p op.
Proof.
  intros Hi Hok E. destruct op as [txs local now|price now|now|req dirty now]; [done..|]. cbn [run_op op_runs op_ok] in *. cbv [mbind PM_bind] in E.
  destruct (runReorg req dirty now p) as [[l q]|] eqn:E'; [|done]. by eapply runReorg_request.
Qed.

Lemma op_known_ok op p : chain_ok -> op_known p op -> op_ok p op /\ op_runs p op.
Proof. intros Hc. destruct op as [txs local now|price now|now|[[o n]|] dirty now]; [done..| |done]. intros [Hg Hh]. by apply request_known. Qed.

Lemma reachable_inv config p : limits_fit config -> reachable op_ok config p -> inv [] [] p.
Proof.
  intros Hf. induction 1 as [cc nostate head now p E|p op p' _ IH Hok E]; [by eapply NewTxPool_ok|]. destruct (runs_op op p IH Hok (op_returned op p _ IH Hok E)) as ([] & q & E' & Hq & _). congruence.
Qed.

Lemma reachable_ready config p : limits_fit config -> reachable (fun p op => op_ok p op /\ op_advances p op) config p -> inv [] [] p /\ ready p.
Proof.
  intros Hf. induction 1 as [cc nostate head now p E|p op p' _ [IH IHr] [Hok Had] E]; [by eapply NewTxPool_ok|]. destruct (runs_op op p IH Hok (op_returned op p _ IH Hok E)) as ([] & q & E' & Hq & Hr). assert (q = p') as -> by congruence. auto.
Qed.

(** ** Consistency *)

(** A transaction in the lists of its sender. *)
Definition listed (m : gmap Address txList) (tx : Transaction) : Prop :=
  exists a l, Sender tx = Some a /\ m !! a = Some l /\ sm_items (tl_txs l) !! tx_Nonce tx = Some tx.

(** What the parts of the pool promise to each other. *)
Record consistent (p : TxPool) : Prop := {
  ct_lists : forall tx, pool_Get p (tx_Hash tx) = Some tx <-> listed (tp_pending p) tx \/ listed (tp_queue p) tx;
  ct_hash : forall h tx, pool_Get p h = Some tx -> tx_Hash tx = h;
  ct_unique : forall h h' tx tx', pool_Get p h = Some tx -> pool_Get p h' = Some tx' -> Sender tx = Sender tx' -> tx_Nonce tx = tx_Nonce tx' -> tx = tx';
  ct_status : forall h, pool_Status p h = TxStatusUnknown <-> pool_Get p h = None;
  ct_slots : lk_slots (tp_all p) = sum_slots (all_txs (tp_all p));
  ct_priced : forall h tx, lk_GetRemote (tp_all p) h = Some tx -> tx ∈ ph_list (pr_urgent (tp_priced p)) ++ ph_list (pr_floating (tp_priced p));
  ct_heaps : heaps_ok (tp_priced p);
}.

Lemma listed_items m tx : listed m tx <-> exists a, Sender tx = Some a /\ items_of m a !! tx_Nonce tx = Some tx.
Proof.
  unfold listed, items_of. split; [intros (a & l & Ha & El & Hi); exists a; by rewrite El|]. intros (a & Ha & Hi). destruct (m !! a) as [l|] eqn:E; [|by rewrite lookup_empty in Hi]. by exists a, l.
Qed.

Lemma has_nonce_items m a n : has_nonce m a n = true <-> is_Some (items_of m a !! n).
Proof. unfold has_nonce, items_of. destruct (m !! a) as [l|]; [by rewrite bool_decide_eq_true|]. rewrite lookup_empty. split; [done|by intros []]. Qed.

Lemma inv_consistent p : inv [] [] p -> consistent p.
Proof.
  intros Hi. pose proof Hi as (Hc & _). pose proof (co_all _ _ _ _ _ Hc) as Hall. split; unfold pool_Get.
  - intros tx. rewrite <- lk_Get_elem by done. rewrite (co_perm _ _ _ _ _ Hc), app_nil_r, elem_of_app, !listed_items.
    rewrite (lists_txs_elem true) by apply Hc. by rewrite (lists_txs_elem false) by apply Hc.
  - intros h tx H. by apply (lk_Get_hash _ h tx Hall).
  - intros h h' tx tx' [_ H]%lk_Get_hash [_ H']%lk_Get_hash E1 E2; [|done..]. apply (place_inj _ p tx tx' Hi H H'). unfold place. by rewrite E1, E2.
  - intros h. unfold pool_Status, pool_Get. destruct (lk_Get (tp_all p) h) as [tx|] eqn:E; [|done]. split; [|done]. destruct (lk_Get_hash _ h tx Hall E) as [_ Hin]. destruct (all_listed p tx Hi Hin) as (a & Ha & Hpos).
    rewrite (sender_eq tx a Ha). destruct (has_nonce (tp_pending p) a (tx_Nonce tx)) eqn:E1, (has_nonce (tp_queue p) a (tx_Nonce tx)) eqn:E2; try done. exfalso.
    destruct Hpos as [Hp|Hp]; [apply not_true_iff_false in E1; apply E1|apply not_true_iff_false in E2; apply E2]; apply has_nonce_items; by eexists.
  - apply Hall.
  - intros h tx H. pose proof (proj2 (co_priced _ _ _ _ _ Hc) h tx H) as Hin. by rewrite app_nil_r in Hin.
  - apply (co_priced _ _ _ _ _ Hc).
Qed.


(** ** Executability *)

Lemma seqZ_sorted s n : StronglySorted Z.le (seqZ s n).
Proof.
  unfold seqZ. apply (StronglySorted_fmap (fun i : nat => Z.add (Z.of_nat i) s) Nat.le Z.le); [intros x y H; lia|]. generalize (Z.to_nat n) as k. intros k. generalize 0%nat as i. induction k as [|k IH]; intros i; [constructor|].
  cbn. constructor; [apply IH|]. apply Forall_forall. intros j Hj%elem_of_seq. unfold Nat.le. lia.
Qed.

Lemma ready_sorted s f x n : keyed x -> ready_at s f x n -> tx_Nonce <$> sorted x = seqZ s (n - s).
Proof.
  intros Hk (H1 & H2 & _). assert (Hns : tx_Nonce <$> sorted x ≡ₚ seqZ s (n - s)).
  { apply NoDup_Permutation; [by apply sorted_NoDup|apply NoDup_seqZ|]. intros k. rewrite elem_of_seqZ, list_elem_of_fmap. replace (s + (n - s)) with n by lia. rewrite <- H2. split.
    - intros (tx & -> & Hin%sorted_elem); [by eexists|done].
    - intros [tx Htx]. exists tx. destruct (Hk k tx Htx) as [<- _]. split; [done|]. by apply sorted_elem. }
  apply (StronglySorted_unique Z.le); [apply (StronglySorted_fmap tx_Nonce nonce_le Z.le); [done|apply sorted_sorted]| |done]. apply seqZ_sorted.
Qed.

(** What the pool offers: the pending transactions in the order of their nonces, or the first ones of them. *)
Lemma Pending_lists p a : inv [] [] p -> default [] (pool_Pending false p !! a) = sorted (pend p a) /\
  forall tips, exists k, default [] (pool_Pending tips p !! a) = take k (sorted (pend p a)) /\ pool_Pending tips p !! a <> Some [].
Proof.
  intros Hi. assert (H : forall tips, exists k, default [] (pool_Pending tips p !! a) = take k (sorted (pend p a)) /\ pool_Pending tips p !! a <> Some [] /\ (tips = false -> take k (sorted (pend p a)) = sorted (pend p a))).
  { intros tips. unfold pool_Pending. rewrite map_lookup_imap. unfold pend, items_of. destruct (tp_pending p !! a) as [l|] eqn:El; cbn [mbind option_bind]; [|exists 0%nat; done]. destruct (co_pending _ _ _ _ _ (proj1 Hi) a l El) as [Hl _].
    pose proof (tl_Flatten_ok l (li_wf _ _ _ Hl)) as HF. destruct (tl_Flatten l) as [c l']. destruct HF as [-> _]. cbn [fst]. set (s := sorted (tl_items l)).
    assert (Hk : exists k, (if tips && negb (as_contains (tp_locals p) a) then enforce_tips (tp_gasPrice p) (ph_baseFee (pr_urgent (tp_priced p))) s else s) = take k s /\ (tips = false -> take k s = s)).
    { destruct tips; cbn [andb]; [|exists (length s); by rewrite firstn_all]. destruct (negb _); [|exists (length s); by rewrite firstn_all]. unfold enforce_tips. destruct (list_find _ s) as [[i y]|]; [by exists i|exists (length s); by rewrite firstn_all]. }
    destruct Hk as (k & -> & Hk). exists k. destruct (take k s) as [|y r]; done. }
  split; [destruct (H false) as (k & -> & _ & E); by apply E|]. intros tips. destruct (H tips) as (k & E & Hne & _). by exists k.
Qed.

(** C6. While the head of the chain only advances, the pool offers to the miner, for every
    account, transactions that can be executed one after the other: their nonces follow each
    other from the nonce of the account in the state, they are signed by the account, and
    each can be paid from its balance within the gas limit of a block, unless it withdraws
    stake (payloads of type 4), which the pool does not test.  The next nonce that the pool
    announces for the account follows the last of them. *)
Theorem TxPool_pending_executable (config : TxPoolConfig) (p : TxPool) :
  limits_fit config -> reachable (fun p op => op_ok p op /\ op_advances p op) config p -> forall a,
  let txs := default [] (pool_Pending false p !! a) in
  let nonce := cs_GetNonce (tp_currentState p) a in
  (forall i tx, txs !! i = Some tx -> tx_Nonce tx = nonce + Z.of_nat i /\ Sender tx = Some a /\ payable p a tx) /\
  exists p', pool_Nonce a p = Some (nonce + Z.of_nat (length txs), p').
Proof.
  intros Hf Hr a. destruct (reachable_ready config p Hf Hr) as [Hi Hrd]. specialize (Hrd a). destruct (items_of_ok true (tp_pending p) a (co_pending _ _ _ _ _ (proj1 Hi))) as [Hk Hs]. fold (pend p a) in Hk, Hs.
  pose proof (Pending_lists p a Hi) as [Htxs _].
  rewrite Htxs. cbv zeta. pose proof (ready_sorted _ _ _ _ Hk Hrd) as Hns. split.
  - intros i tx Hi'. assert (Hin : pend p a !! tx_Nonce tx = Some tx) by (apply sorted_elem; [done|by eapply list_elem_of_lookup_2]). split; [|split; [by apply (Hs (tx_Nonce tx))|by apply (proj2 (proj2 Hrd) (tx_Nonce tx))]].
    assert (Hl : (tx_Nonce <$> sorted (pend p a)) !! i = Some (tx_Nonce tx)) by by rewrite list_lookup_fmap, Hi'. rewrite Hns in Hl. apply lookup_seqZ in Hl as [Hl _]. unfold snonce in Hl. lia.
  - assert (Hlen : Z.of_nat (length (sorted (pend p a))) = next p a - snonce p a) by (rewrite <- (length_fmap tx_Nonce), Hns, length_seqZ; destruct Hrd; lia).
    assert (Hn := runs_pool_Nonce a p (fun n _ => n = next p a) (fun _ _ => eq_refl)). destruct Hn as (n & p' & E & ->). exists p'. rewrite E. unfold snonce in Hlen. do 2 f_equal. lia.
Qed.

(** ** The miner *)

Lemma take_seqZ k s n : take k (seqZ s n) = seqZ s (Z.of_nat (length (take k (seqZ s n)))).
Proof.
  apply list_eq. intros i. apply option_eq. intros x. rewrite lookup_take_Some, !lookup_seqZ, length_take, length_seqZ. lia.
Qed.

Lemma paying_prefix baseFee l : exists k, paying baseFee l = take k l.
Proof. induction l as [|x l [k IH]]; [by exists 0%nat|]. cbn. destruct (NewTxWithMinerFee x baseFee); [exists (S k); by rewrite IH|by exists 0%nat]. Qed.

(** C7. What the miner takes from the pool can be put into a block in this order.  While the
    head of the chain only advances, the set of the transactions that the pool offers is
    built without a panic, for every base fee and with or without a limit on the tips;
    taking from it until nothing is left merges the accounts greedily by fee, and the
    nonces of an account follow each other from its nonce in the state. *)
Theorem miner_order (config : TxPoolConfig) (p : TxPool) (tips : bool) (baseFee : option Z) :
  limits_fit config -> reachable (fun p op => op_ok p op /\ op_advances p op) config p ->
  exists t l, NewTransactionsByPriceAndNonce (pool_Pending tips p) baseFee = Some t /\ drain (tb_left t) t = Some l /\
    greedy baseFee (offered baseFee (pool_Pending tips p)) l /\
    forall a, let txs := filter (fun tx => Sender tx = Some a) l in tx_Nonce <$> txs = seqZ (cs_GetNonce (tp_currentState p) a) (Z.of_nat (length txs)).
Proof.
  intros Hf Hr. destruct (reachable_ready config p Hf Hr) as [Hi Hrd]. assert (Hitems := fun a => items_of_ok true (tp_pending p) a (co_pending _ _ _ _ _ (proj1 Hi))).
  assert (Hsig : forall a tx, tx ∈ default [] (pool_Pending tips p !! a) -> Sender tx = Some a).
  { intros a tx Hin. destruct (proj2 (Pending_lists p a Hi) tips) as (k & E & _). rewrite E in Hin. apply list_elem_of_lookup in Hin as [i [Hin _]%lookup_take_Some]. destruct (Hitems a) as [Hk Hs]. apply (Hs (tx_Nonce tx)), sorted_elem; [done|by eapply list_elem_of_lookup_2]. }
  assert (Ho : offers (pool_Pending tips p)).
  { intros a l El. split; [|intros tx Htx; apply Hsig; by rewrite El]. intros ->. by destruct (proj2 (Pending_lists p a Hi) tips) as (k & _ & Hne). }
  destruct (New_holds baseFee _ Ho) as (t & E & Ht). destruct (drain_greedy baseFee (tb_left t) t _ Ht ltac:(lia)) as (l & El & Hg). exists t, l. split; [done|]. split; [done|]. split; [done|]. intros a txs.
  assert (Htx : exists k, txs = take k (sorted (pend p a))).
  { unfold txs. rewrite (greedy_account baseFee _ l Hg) by (intros b x Hx; apply Hsig; by eapply paying_sub). unfold offered. destruct (paying_prefix baseFee (default [] (pool_Pending tips p !! a))) as [k ->].
    destruct (proj2 (Pending_lists p a Hi) tips) as (j & -> & _). exists (k `min` j)%nat. apply take_take. }
  destruct Htx as [k ->]. destruct (Hitems a) as [Hk _]. fold (pend p a) in Hk. pose proof (ready_sorted _ _ _ _ Hk (Hrd a)) as Hns. rewrite <- (length_fmap tx_Nonce), fmap_take, Hns.
  apply take_seqZ.
Qed.

(** ** Limits *)

(** C19. When there are too many transactions, truncation brings the pool within its limits:
    the pending transactions are at most [GlobalSlots], or no remote account has more than
    [AccountSlots] of them; the queued ones are at most [GlobalQueue], or only local
    accounts have any.  The pool stays consistent. *)
Theorem truncate_limits (config : TxPoolConfig) (p : TxPool) (now : Z) :
  limits_fit config -> reachable op_ok config p -> pending_count p < 2 ^ 64 -> queue_count p < 2 ^ 64 ->
  exists p', (_ ← truncatePending; truncateQueue now) p = Some (tt, p') /\ consistent p' /\
    (pending_count p' <= pc_GlobalSlots (tp_config p) \/ forall a, as_contains (tp_locals p) a = false -> Z.of_nat (size (pend p' a)) <= pc_AccountSlots (tp_config p)) /\
    (queue_count p' <= pc_GlobalQueue (tp_config p) \/ forall a, as_contains (tp_locals p) a = false -> que p' a = ∅).
Proof.
  intros Hf Hr Hp Hq. pose proof (reachable_inv config p Hf Hr) as Hi.
  assert (H : runs (_ ← truncatePending; truncateQueue now) p (fun _ p' => inv [] [] p' /\ pending_limited p' /\ queue_limited p' /\ kept p p' /\ tp_locals p' = tp_locals p)).
  { apply runs_bind, runs_truncatePending; [done|]. intros p1 H1 [T1 T2 T3 T4 T5] HL1. apply runs_truncateQueue; [done|]. intros p2 H2 [Q1 Q2 Q3 Q4] HL2. split; [done|]. specialize (HL1 Hp). split; [|split; [|split; [by eapply kept_trans|congruence]]].
    - unfold pending_limited, pending_count, pend in *. by rewrite Q3, Q2, (ke_config _ _ Q1).
    - unfold queue_limited. rewrite Q2, (ke_config _ _ Q1). apply HL2. unfold queue_count. by rewrite T4. }
  destruct H as ([] & p' & E & H1 & H2 & H3 & [H4 _ _ _] & H5). exists p'. split; [done|]. split; [by apply inv_consistent|]. unfold pending_limited, queue_limited in *. by rewrite H4, H5 in *.
Qed.

(** ** Adding *)

(** C18. Adding a transaction that is acceptable (64-bit nonce, and a recipient if the payload
    is a pledge or a withdrawal of stake) returns, and the pool stays consistent.  Without an
    error the transaction was unknown before and is in the pool after, a transaction that
    was at its place is gone, and it kept all rules: type, size, gas, fees, price, nonce,
    intrinsic gas, and the funds of its sender, for a withdrawal the fee and the stake.
    With an error the pool has the transaction only if it had it before, and the reason is
    that it was known, that it broke a rule, or that it lost against others. *)
Theorem add_correct (config : TxPoolConfig) (p : TxPool) (tx : Transaction) (local : bool) (now : Z) :
  limits_fit config -> reachable op_ok config p -> acceptable tx ->
  let isLocal := local || as_containsTx (tp_locals p) tx in
  exists replaced err p', add tx local now p = Some ((replaced, err), p') /\ consistent p' /\
  match err with
  | None => pool_Get p (tx_Hash tx) = None /\ pool_Get p' (tx_Hash tx) = Some tx /\ (exists a, admitted p isLocal a tx) /\
            forall old, Sender old = Sender tx -> tx_Nonce old = tx_Nonce tx -> old <> tx -> pool_Get p' (tx_Hash old) <> Some old
  | Some e => pool_Get p' (tx_Hash tx) = pool_Get p (tx_Hash tx) /\
      (is_Some (pool_Get p (tx_Hash tx)) /\ e = ErrAlreadyKnown \/
       pool_Get p (tx_Hash tx) = None /\ ((~ exists a, admitted p isLocal a tx) \/ e ∈ crowded))
  end.
Proof.
  intros Hf Hr Hac isLocal. pose proof (reachable_inv config p Hf Hr) as Hi.
  assert (H : runs (add tx local now) p (fun r p' => inv [] [] p' /\ added local tx p r.2 p')) by (by apply runs_add).
  destruct H as ([b e] & p' & E & H1 & H2). exists b, e, p'. pose proof (inv_consistent p' H1) as Hc. split; [done|]. split; [done|]. unfold pool_Get in *. cbn in H2. destruct e as [e|]; [done|].
  destruct H2 as (H2 & H3 & H4). split; [done|]. split; [done|]. split; [done|]. intros old Hs Hn Hne Ho. apply Hne. by apply (ct_unique p' Hc (tx_Hash old) (tx_Hash tx)).
Qed.

(** C39. A transaction from outside can stop the node.  [validateTx] takes the address of the
    recipient of a pledge, or of a withdrawal of stake whose sender can pay the fee,
    without looking whether there is one.  Whatever the pool, a batch that starts with a
    new transaction of this kind that creates a contract and keeps the basic rules makes
    adding panic, be it local or remote. *)
Theorem creation_pledge_panics (p : TxPool) (tx : Transaction) (txs : list Transaction) (local : bool) (now : Z) (a : Address) (w : Wormholes) :
  tx_To tx = None -> tx_GetWormholes tx = Some w ->
  wh_Type w = 3 \/ wh_Type w = 4 /\ tx_GasFee tx <= cs_GetBalance (tp_currentState p) a ->
  pool_Get p (tx_Hash tx) = None -> basic p (local || as_containsTx (tp_locals p) tx) a tx ->
  add tx local now p = None /\ addTxs (tx :: txs) local now p = None.
Proof.
  unfold pool_Get. intros Hto Hw Ht Hg Hb. assert (Hadd : add tx local now p = None).
  { unfold add. cbv [mbind PM_bind pool_of]. rewrite Hg. cbv zeta. rewrite (validateTx_basic _ _ _ _ Hb). unfold check_funds. rewrite Hw, Hto. cbv zeta.
    destruct Ht as [->|[-> Hf%Z.ltb_ge]]; cbn [Z.eqb Pos.eqb]; [done|]. by rewrite Hf. }
  split; [done|]. unfold addTxs, pre_errors. cbv [mbind PM_bind pool_of]. cbv zeta. cbn [fmap list_fmap zip zip_with]. rewrite Hg, (ba_sender _ _ _ _ Hb). cbn [filter list_filter snd]. rewrite decide_True by done. cbn.
  assert (isTx30 tx = false) as -> by (unfold isTx30; rewrite Hw; destruct Ht as [->|[-> _]]; done). cbv [mbind PM_bind]. by rewrite Hadd.
Qed.

(** A batch of transactions returns one error for each.  A transaction that the pool has,
    or whose sender cannot be recovered, gets its error without the lock; the errors of the
    others come from adding them one after the other, each at the place of its
    transaction: the loop that merges them neither shifts them nor runs past the end. *)
Theorem addTxs_errors (config : TxPoolConfig) (p : TxPool) (txs : list Transaction) (local : bool) (now : Z) :
  limits_fit config -> reachable op_ok config p -> Forall acceptable txs ->
  exists newErrs dirty p', addTxsLocked (new_txs (tp_all p) txs) local now p = Some ((newErrs, dirty), p') /\
    addTxs txs local now p = Some ((fill (pre_errors (tp_all p) txs) newErrs, dirty), p') /\ length newErrs = length (new_txs (tp_all p) txs).
Proof.
  intros Hf Hr Hac. pose proof (reachable_inv config p Hf Hr) as Hi. destruct (new_txs_ok (tp_all p) txs acceptable Hac) as [Hn Hacn].
  assert (H : runs (addTxsLocked (new_txs (tp_all p) txs) local now) p (fun r _ => length r.1 = length (new_txs (tp_all p) txs))) by (by apply runs_addTxsLocked).
  destruct H as ([newErrs dirty] & p' & E & H). cbn in H. exists newErrs, dirty, p'. split; [done|]. split; [|done]. apply addTxs_fill; [done|lia].
Qed.
End pools.
