(* ===== verification/TxPoolExamples.v ===== *)
(** Concrete transactions, lists and pools: the theorems applied, and behaviours that differ
    from the comments in the code. *)
From S2P Require Import Prelude Common Params Wormholes StateTypes State StateDB Staking Evm EvmRevert EvmCsbt Transition Rlp Heap TxTypes TxList TxListProps TxPriced TxPricedProps HeaderRules TxPool TxPoolOps TxPoolLimits TxPoolAdd TxPoolReorg TxOrder TxPoolTheorems.

Open Scope Z_scope.

(** ** Instances *)

(** The hash of a transaction is the end of its encoding, which the signature makes unique. *)
#[local] Instance tailCrypto : Crypto := {| Keccak256 := fun b => b; PrivToAddress := fun _ => 5 |}.

(** The decoder knows the text of a pledge. *)
Definition pledge : Wormholes := mkWormholes 3 [] [] [] [] [].
#[local] Instance pledgeMachine : Machine := exampleMachine pledge.

#[local] Instance plainRange : MapRange := {| map_range := fun V m => map_to_list m; map_range_perm := fun V m => reflexivity (map_to_list m) |}.

(** The signature names the sender. *)
#[local] Instance rSigner : Signer := {| Sender := fun tx => match tx_inner tx with TLegacy t => Some (lt_R t) | _ => None end |}.

Definition transfer (from nonce price : Z) : Transaction := mkTransaction (TLegacy (mkLegacyTx nonce price 30000 (Some 99) 5 [] 1 from (1000 * nonce + price))) 0 None.

(** ** Lists *)

Lemma txList_refines_map_witness : let ops := [LAdd (transfer 1 1 10) 10; LAdd (transfer 1 3 10) 10; LFlatten; LAdd (transfer 1 3 11) 10; LFilter 300000 30000; LReady 1] in
  let '(outs, m) := spec_lists true ops ∅ in exists outs' l', run_lists ops (newTxList true) = Some (outs', l') /\ sm_items (tl_txs l') = m /\ Forall2 same_out outs' outs.
Proof.
  intros ops. apply (txList_refines_map true ops). repeat (apply Forall_cons_2; [cbn; try done; lia|]). apply Forall_nil_2.
Defined.

Lemma txList_Add_bump_witness : let l := (tl_Add (transfer 1 3 100) 10 (newTxList true)).2 in
  let '((inserted, replaced), _) := tl_Add (transfer 1 3 110) 10 l in inserted = true /\ replaced = Some (transfer 1 3 100).
Proof.
  intros l. pose proof (txList_Add_bump (transfer 1 3 110) (transfer 1 3 100) 10 l eq_refl ltac:(lia)) as H. destruct (tl_Add (transfer 1 3 110) 10 l) as [[inserted old] l'].
  destruct H as (H1 & H2 & _). assert (E : inserted = true) by (apply H1; unfold outbids; cbn; lia). split; [exact E|]. apply (H2 E).
Defined.

(** The comment on [Ready] says that all transactions with nonces lower than the start are returned: it stops at a gap. *)
Example Ready_stops_at_gap :
  let l := foldl (fun l n => (tl_Add (transfer 1 n 10) 10 l).2) (newTxList false) [1; 3; 5] in
  fst <$> tl_Ready 5 l = Some [transfer 1 1 10].
Proof. vm_compute. reflexivity. Qed.

(** ** Pools *)

(** All accounts have the same balance; account 1 has sent [n] transactions. *)
Definition state_of (n : Z) : ChainState := mkChainState (fun a => if a =? 1 then n else 0) (fun _ => 10 ^ 20) (fun _ => 0) (fun _ _ => 0).

Definition header (hash parent root number : Z) : Header := mkHeader hash parent root number 8000000 0 None.

(** The roots are the nonces of account 1.  Block 12 has three transactions of account 1, its sibling 13 has none; 14 follows 12. *)
Definition small_blocks : list Block :=
  [mkBlock (header 11 10 0 1) []; mkBlock (header 12 11 3 2) [transfer 1 0 10; transfer 1 1 3; transfer 1 2 10];
   mkBlock (header 13 11 0 2) []; mkBlock (header 14 12 4 3) [transfer 1 3 10]].

#[local] Instance smallChain : BlockChain := {|
  GetBlock := fun hash number => snd <$> list_find (fun b => b_Hash b = hash /\ b_Number b = number) small_blocks;
  StateAt := fun root => Some (state_of root);
|}.

Definition ex_config : ChainConfig := mkChainConfig (Some 0) (Some 0) None.
Definition small_config : TxPoolConfig := mkTxPoolConfig [] false 5 10 16 64 64 1 1000.

Definition ex_new : TxPool := default (emptyTxPool small_config ex_config (state_of 0)) (NewTxPool small_config ex_config (state_of 0) (header 12 11 3 2) 0).
Definition after (op : pool_op) (p : TxPool) : TxPool := (default (tt, p) (run_op op p)).2.

Lemma ex_new_reachable ok : reachable ok small_config ex_new.
Proof. apply (reachable_new ok small_config ex_config (state_of 0) (header 12 11 3 2) 0). vm_compute. reflexivity. Qed.

Lemma after_reachable (ok : TxPool -> pool_op -> Prop) op p : reachable ok small_config p -> ok p op -> is_Some (run_op op p) -> reachable ok small_config (after op p).
Proof. intros Hr Hok [[[] p'] E]. apply (reachable_step ok small_config p op); [done|done|]. unfold after. by rewrite E. Qed.

Lemma small_limits : limits_fit small_config.
Proof. repeat split; done. Qed.

Lemma transfer_acceptable from nonce price : 0 <= nonce < 2 ^ 64 - 1 -> acceptable (transfer from nonce price).
Proof. intros H. split; [done|unfold tx_Size; cbn; lia|]. intros w Hw. discriminate Hw. Qed.

Lemma transfers_acceptable from l : Forall (fun np => 0 <= np.1 < 2 ^ 64 - 1) l -> Forall acceptable ((fun np => transfer from np.1 np.2) <$> l).
Proof. intros H. apply Forall_fmap. eapply Forall_impl; [exact H|]. intros [n q] Hn. by apply transfer_acceptable. Qed.

Lemma option_some {A : Type} (o : option A) : (if o then true else false) = true -> is_Some o.
Proof. by destruct o; [eexists|]. Qed.

(** One pending transaction of account 1, with the nonce 3. *)
Definition op_add : pool_op := OpAdd [transfer 1 3 10] false 1.
Definition op_promote : pool_op := OpReorg None (Some (as_add 1 ∅)) 2.
Definition ex_pool : TxPool := after op_promote (after op_add ex_new).

Definition op_all (p : TxPool) (op : pool_op) : Prop := op_ok p op /\ op_advances p op.

Lemma ex_pool_all : reachable op_all small_config ex_pool.
Proof.
  apply after_reachable; [apply after_reachable; [apply ex_new_reachable| |]|done|]; [|apply option_some; vm_compute; reflexivity..].
  split; [|done]. apply (transfers_acceptable 1 [(3, 10)]). by repeat constructor.
Qed.

Lemma reachable_weaken ok ok' config p : (forall p op, ok p op -> ok' p op) -> reachable ok config p -> reachable ok' config p.
Proof. intros H. induction 1 as [cc nostate head now p E|p op p' _ IH Hok E]; [by eapply reachable_new|]. eapply reachable_step; [exact IH|by apply H|done]. Qed.

Lemma ex_pool_ok : reachable op_ok small_config ex_pool.
Proof. eapply reachable_weaken; [|exact ex_pool_all]. by intros p op [? _]. Qed.

Lemma small_chain_ok : chain_ok.
Proof.
  assert (H : forall h n b, GetBlock h n = Some b -> b ∈ small_blocks /\ b_Number b = n).
  { intros h n b. unfold GetBlock, smallChain. destruct (list_find _ small_blocks) as [[i x]|] eqn:E; [|done]. intros [= <-].
    apply list_find_Some in E as (Hi & [_ Hn] & _). split; [by eapply list_elem_of_lookup_2|done]. }
  split; intros h n b Hb; destruct (H h n b Hb) as [Hin Hn]; repeat (apply elem_of_cons in Hin as [->|Hin]); try by apply elem_of_nil in Hin.
  all: try (rewrite <- Hn; vm_compute; repeat split; discriminate).
  all: cbn [b_Transactions]; repeat (apply Forall_cons_2; [apply transfer_acceptable; lia|]); apply Forall_nil_2.
Qed.


(** The chain advances to block 14, which has this transaction; the next one stays. *)
Definition op_next : pool_op := OpAdd [transfer 1 4 10] false 3.
Definition op_head : pool_op := OpReorg (Some (Some (header 12 11 3 2), header 14 12 4 3)) None 4.
Definition ex_advanced : TxPool := after op_head (after op_next ex_pool).

Lemma ex_advanced_all : reachable op_all small_config ex_advanced.
Proof.
  apply after_reachable; [apply after_reachable; [apply ex_pool_all| |]| |]; [|apply option_some; vm_compute; reflexivity| |apply option_some; vm_compute; reflexivity].
  - split; [|done]. apply (transfers_acceptable 1 [(4, 10)]). by repeat constructor.
  - assert (Hs : tp_currentState (after op_next ex_pool) = state_of 3) by (vm_compute; reflexivity).
    revert Hs. generalize (after op_next ex_pool) as p. intros p Hs. split.
    + intros txs [= <-]. constructor.
    + intros txs st [= <-] [= <-]. split; [done|]. intros a. unfold snonce. rewrite Hs. cbn. by destruct (a =? 1).
Qed.

Lemma TxPool_pending_executable_witness : pool_Pending false ex_advanced !! 1 = Some [transfer 1 4 10] /\
  (forall i tx, [transfer 1 4 10] !! i = Some tx -> tx_Nonce tx = 4 + Z.of_nat i /\ Sender tx = Some 1 /\ payable ex_advanced 1 tx) /\ exists p', pool_Nonce 1 ex_advanced = Some (5, p').
Proof.
  pose proof (TxPool_pending_executable small_config ex_advanced small_limits ex_advanced_all 1) as H. assert (E : pool_Pending false ex_advanced !! 1 = Some [transfer 1 4 10]) by (vm_compute; reflexivity).
  assert (Es : cs_GetNonce (tp_currentState ex_advanced) 1 = 4) by (vm_compute; reflexivity). rewrite E, Es in H. split; [exact E|exact H].
Defined.

(** Two accounts with a queued transaction each; the limit is one. *)
Definition ex_queued : TxPool := after (OpAdd [transfer 3 5 10] false 2) (after (OpAdd [transfer 2 5 10] false 1) ex_new).

Lemma ex_queued_ok : reachable op_ok small_config ex_queued.
Proof.
  apply after_reachable; [apply after_reachable; [apply ex_new_reachable| |]| |]; [|apply option_some; vm_compute; reflexivity| |apply option_some; vm_compute; reflexivity].
  - apply (transfers_acceptable 2 [(5, 10)]). by repeat constructor.
  - apply (transfers_acceptable 3 [(5, 10)]). by repeat constructor.
Qed.

Lemma truncate_limits_witness : exists p', (_ ← truncatePending; truncateQueue 3) ex_queued = Some (tt, p') /\ consistent p' /\ queue_count ex_queued = 2 /\
  (queue_count p' <= 1 \/ forall a, as_contains (tp_locals ex_queued) a = false -> que p' a = ∅).
Proof.
  destruct (truncate_limits small_config ex_queued 3 small_limits ex_queued_ok) as (p' & H1 & H2 & _ & H4); [vm_compute; reflexivity..|]. exists p'. split; [exact H1|]. split; [exact H2|]. split; [vm_compute; reflexivity|exact H4].
Defined.

(** The comment on [truncateQueue] says that the oldest transactions are dropped: it is the account with the latest activity that loses its transactions. *)
Example truncateQueue_drops_newest : fmap (fun r => (bool_decide (que r.2 2 = ∅), bool_decide (que r.2 3 = ∅))) (truncateQueue 3 ex_queued) = Some (false, true) /\
  tp_beats ex_queued !! 2 = Some 1 /\ tp_beats ex_queued !! 3 = Some 2.
Proof. vm_compute. repeat split. Qed.

Lemma add_correct_witness : exists replaced err p', add (transfer 1 3 20) false 3 ex_pool = Some ((replaced, err), p') /\ err = None /\ consistent p' /\
  pool_Get p' (tx_Hash (transfer 1 3 20)) = Some (transfer 1 3 20) /\ exists a, admitted ex_pool false a (transfer 1 3 20).
Proof.
  destruct (add_correct small_config ex_pool (transfer 1 3 20) false 3 small_limits ex_pool_ok) as (replaced & err & p' & E & H1 & H2); [apply transfer_acceptable; lia|].
  assert (Ee : fmap (fun r => r.1.2) (add (transfer 1 3 20) false 3 ex_pool) = Some None) by (vm_compute; reflexivity). rewrite E in Ee. injection Ee as ->. destruct H2 as (_ & H2 & H3 & _).
  assert (Hl : false || as_containsTx (tp_locals ex_pool) (transfer 1 3 20) = false) by (vm_compute; reflexivity). rewrite Hl in H3.
  exists replaced, None, p'. split; [exact E|]. split; [reflexivity|]. split; [exact H1|]. split; [exact H2|exact H3].
Defined.

Lemma addTxs_errors_witness : exists newErrs dirty p', addTxs [transfer 1 3 10; transfer 1 4 10] false 3 ex_pool = Some (([Some ErrAlreadyKnown; None], dirty), p') /\ newErrs = [None : goerror].
Proof.
  destruct (addTxs_errors small_config ex_pool [transfer 1 3 10; transfer 1 4 10] false 3 small_limits ex_pool_ok) as (newErrs & dirty & p' & E1 & E2 & _); [apply (transfers_acceptable 1 [(3, 10); (4, 10)]); by repeat constructor|].
  assert (Hpre : pre_errors (tp_all ex_pool) [transfer 1 3 10; transfer 1 4 10] = [Some ErrAlreadyKnown; None]) by (vm_compute; reflexivity). rewrite Hpre in E2.
  assert (Hn : fmap (fun r => r.1.1) (addTxsLocked (new_txs (tp_all ex_pool) [transfer 1 3 10; transfer 1 4 10]) false 3 ex_pool) = Some [None]) by (vm_compute; reflexivity). rewrite E1 in Hn. injection Hn as ->.
  exists [None], dirty, p'. split; [exact E2|reflexivity].
Defined.

(** ** The miner *)

(** Two accounts; the first transaction of the account 2 pays best, its second one least. *)
Definition two_accounts : gmap Address (list Transaction) := {[1 := [transfer 1 0 20; transfer 1 1 25]; 2 := [transfer 2 0 30; transfer 2 1 10]]}.

Lemma TransactionsByPriceAndNonce_greedy_witness : exists l, greedy (Some 5) (offered (Some 5) two_accounts) l /\ l = [transfer 2 0 30; transfer 1 0 20; transfer 1 1 25; transfer 2 1 10].
Proof.
  destruct (TransactionsByPriceAndNonce_greedy two_accounts (Some 5)) as (t & l & E & El & Hg).
  - intros a m Hm. unfold two_accounts in Hm. apply lookup_insert_Some in Hm as [[<- <-]|[_ Hm]]; [|apply lookup_singleton_Some in Hm as [<- <-]]; (split; [discriminate|]); intros tx Htx;
      repeat (apply elem_of_cons in Htx as [->|Htx]; [reflexivity|]); by apply elem_of_nil in Htx.
  - exists l. split; [exact Hg|]. assert (Hd : (t ← NewTransactionsByPriceAndNonce two_accounts (Some 5); drain (tb_left t) t) = Some [transfer 2 0 30; transfer 1 0 20; transfer 1 1 25; transfer 2 1 10]) by (vm_compute; reflexivity).
    rewrite E in Hd. cbn [mbind option_bind] in Hd. rewrite El in Hd. injection Hd as ->. reflexivity.
Defined.

Lemma miner_order_witness : exists t l, NewTransactionsByPriceAndNonce (pool_Pending true ex_advanced) (Some 5) = Some t /\ drain (tb_left t) t = Some l /\
  forall a, let txs := filter (fun tx => Sender tx = Some a) l in tx_Nonce <$> txs = seqZ (cs_GetNonce (tp_currentState ex_advanced) a) (Z.of_nat (length txs)).
Proof.
  destruct (miner_order small_config ex_advanced true (Some 5) small_limits ex_advanced_all) as (t & l & H1 & H2 & _ & H4). exists t, l. split; [exact H1|]. split; [exact H2|exact H4].
Defined.

(** ** Findings *)

(** A transaction of account 7 that creates a contract and has the payload of a pledge. *)
Definition creation_pledge : Transaction := mkTransaction (TLegacy (mkLegacyTx 0 10 1000000 None 0 (exampleInput pledge) 1 7 1)) 0 None.

(** In a reachable pool, as a remote transaction. *)
Lemma creation_pledge_panics_witness : reachable op_ok small_config ex_new /\ addTxs [creation_pledge; transfer 1 3 10] false 1 ex_new = None.
Proof.
  split; [apply ex_new_reachable|]. apply (creation_pledge_panics ex_new creation_pledge [transfer 1 3 10] false 1 7 pledge).
  - reflexivity.
  - vm_compute. reflexivity.
  - left. reflexivity.
  - vm_compute. reflexivity.
  - split; [right; reflexivity|right; discriminate|vm_compute; discriminate..|reflexivity|right; vm_compute; discriminate|vm_compute; discriminate].
Defined.

(** The chain goes from block 12 to its sibling 13, without the three transactions of account 1; the second of them has a tip below the limit of the pool. *)
Definition op_sibling : pool_op := OpReorg (Some (Some (header 12 11 3 2), header 13 11 0 2)) None 5.

Lemma ex_sibling_ok : reachable op_ok small_config (after op_sibling ex_pool).
Proof.
  apply after_reachable; [apply ex_pool_ok| |apply option_some; vm_compute; reflexivity].
  assert (Hre : reinjected (Some (header 12 11 3 2)) (header 13 11 0 2) = Ret [transfer 1 0 10; transfer 1 1 3; transfer 1 2 10]) by (vm_compute; reflexivity).
  intros txs Ht. rewrite Hre in Ht. injection Ht as <-. apply (transfers_acceptable 1 [(0, 10); (1, 3); (2, 10)]). by repeat constructor.
Qed.

(** After a reorganization the pending transactions of an account can have a gap, although
    a comment says that pending transactions are processable: a transaction of the old
    branch that the pool refuses is missing between the one that is executable again and
    those that were pending, and only a gap in front is looked for.  The hypothesis that
    the head advances is needed for executability. *)
Theorem reorg_leaves_gap :
  reachable op_ok small_config (after op_sibling ex_pool) /\ cs_GetNonce (tp_currentState (after op_sibling ex_pool)) 1 = 0 /\
  option_map (map tx_Nonce) (pool_Pending false (after op_sibling ex_pool) !! 1) = Some [0; 3].
Proof. split; [apply ex_sibling_ok|]. split; vm_compute; reflexivity. Qed.

(** ** Headers *)

(** A block that is half over the target: the fee rises by a sixteenth. *)
Lemma CalcBaseFee_bounds_witness : exists f q, CalcBaseFee (mkChainConfig None None (Some 0)) (mkHeader 2 1 0 5 8000000 6000000 (Some 1000)) = Some f /\
  f = 1000 + Z.max q 1 /\ 8 * 4000000 * q <= 1000 * 2000000 < 8 * 4000000 * (q + 1).
Proof.
  destruct (CalcBaseFee_bounds (mkChainConfig None None (Some 0)) (mkHeader 2 1 0 5 8000000 6000000 (Some 1000)) 1000) as (f & E & _ & H & _); [reflexivity|reflexivity|lia|vm_compute; discriminate|vm_compute; reflexivity|].
  destruct H as (q & Hf & Hq & _); [vm_compute; reflexivity|]. exists f, q. split; [exact E|]. split; [exact Hf|exact Hq].
Defined.

Lemma CalcGasLimit_accepted_witness : VerifyGaslimit 8000000 (CalcGasLimit 8000000 9000000) = Ret tt.
Proof. apply (CalcGasLimit_accepted 8000000 9000000); [unfold MinGasLimit|]; lia. Defined.
